(* ===== verification/_CoqProject ===== *)
-Q . S2P
Prelude.v
JsString.v
JsNumber.v
JsNumberFacts.v
BillingTypes.v
BillingParser.v
BillingSpans.v
BillingCompile.v
BillingCompileFacts.v
JsValue.v
BillingRuntime.v
BillingRuntimeFacts.v
BillingPricing.v
BillingStructure.v
BillingDisplay.v
BillingDisplayFacts.v
BillingVisual.v
BillingVisualFacts.v
BillingConditionDisplay.v
JsJson.v
HttpStatusRules.v
AuthSession.v
AuthSessionFacts.v
HttpClient.v
HttpClientFacts.v
HttpClientProtocol.v
PlaygroundMessages.v
PlaygroundFacts.v
PlaygroundStream.v
PlaygroundStreamFacts.v
PlaygroundChat.v
PlaygroundChatFacts.v
BillingRequestRules.v
BillingRequestRulesFacts.v
JsRegExp.v
JsJsonText.v
JsSchema.v
BillingPrint.v
JsIntegers.v
JsCollections.v
PlaygroundStorage.v
PlaygroundStorageFacts.v
PlaygroundParameterFacts.v
BillingTaskForm.v
BillingTaskFormFacts.v
BillingTaskMatrixFacts.v
BillingTaskPreviewFacts.v
BillingTaskChargeFacts.v
BillingTierForm.v
BillingTierFormFacts.v
BillingTierChargeFacts.v
ChannelCustom.v
ChannelCustomFacts.v
DashboardFlow.v
DashboardFlowFacts.v
DashboardRankFacts.v
