(* ===== verification/Prelude.v ===== *)
(** * NexusTok web client: billing expressions, login session, playground

    NexusTok is a gateway for model APIs: a Go backend and a TypeScript client
    under [src/web/src].  This library models the parts of the client that
    compute rather than render.  Paths below are relative to [src/web/src].

    ** The parts and how they interact

    - The billing-expression engine,
      [features/pricing/lib/billing-expression/].  A price is a text such as
      [len <= 200000 ? tier("base", p * 3 + c * 15) : tier("long", p * 6)].
      [parser.ts] turns the text into a tree of spans, checks its types and its
      fixed prices and caches the result; [runtime.ts] evaluates the tree on
      token counts, a request, task usage and a clock; [display.ts] and
      [condition-display.ts] summarize it for the pricing pages; [visual.ts] lets
      a form edit it and writes the text back; [structure.ts] cuts texts that the
      parser does not accept.  [features/pricing/lib/billing-expr.ts] makes the
      rows of the price tables from the summaries, and has an editor for request
      rules, the multipliers after a base expression, which reads and writes
      their text without the parser.  [task-expr.ts] is the form for the prices of
      task models: tiers or a matrix of enum values, written as an expression, read
      back from its summary, and previewed for a usage sample.  [tier-expr.ts] is the
      form for the prices of token models, which reads texts with regular
      expressions instead of the parser, and the estimator beside it.
    - The login session: [stores/auth-store.ts] holds it, [lib/auth-session.ts]
      replaces it (sign-in, rotation, sign-out) and refreshes it in the
      background, [lib/session-hint.ts] says whether a refresh is worth a
      request, [lib/auth-session-sync.ts] tells the other tabs.
      [lib/http-client.ts] is the axios instance of the application: it puts the
      token on every request and, after a 401, refreshes and replays once.
    - The playground's conversation, [features/playground/lib/message/]: messages
      built from user input, from streamed chunks or from whole responses, stored
      and repaired on load, and turned into request payloads.  The hooks
      [use-playground-conversation.ts] and [use-chat-handler.ts] send them, the
      latter through the stream controller of [use-stream-request.ts] or as a plain
      request, batch the chunks that come back and hand them to React.
      [use-playground-state.ts] holds the messages and the settings and keeps them in
      [localStorage] through [lib/storage/], which checks what it reads against
      schemas and cuts what is too long; [lib/parameters/] and [lib/options/] say
      which settings are valid.
    - [lib/http-status-code-rules.ts], the rules by which administrators name sets
      of status codes.
    - [features/dashboard/lib/flow.ts] turns rows of usage into the weighted graph of
      a Sankey diagram, with filters, limits, highlights and masks.
    - [features/channels/lib/advanced-custom.ts] validates and edits the routes of a
      custom channel, kept as JSON text in the channel's form;
      [model-mapping-validation.ts] reads its lists and mappings of models.

    ** Files

    - [Prelude]: results, the state-and-error monad with its notations, laws and
      tactics, shared list lemmas.
    - [JsString], [JsNumber], [JsNumberFacts], [JsValue]: the language.  A string
      is a list of UTF-16 code units.  A number is an IEEE binary64 value in the
      representation of [SpecFloat], with exact rounding, parsing of decimal
      texts and shortest printing; no axiom on floating point is used.  [JsValue]
      has the JSON values, the calendar, and the class [Host] with what the
      browser alone knows: the time zone database, lower-casing outside ASCII
      and the clock.
    - [BillingTypes], [BillingParser], [BillingCompile], [BillingRuntime],
      [BillingStructure], [BillingDisplay], [BillingVisual],
      [BillingConditionDisplay]: one file per source file ([parser.ts] is split
      in two), one definition per function, methods of a class as operations of
      a state monad over a record of its fields.  A node object is its span:
      comparing spans is comparing objects because no two nodes of a parsed tree
      share one, which is proved.
    - [BillingSpans], [BillingCompileFacts], [BillingRuntimeFacts],
      [BillingPricing], [BillingDisplayFacts], [BillingVisualFacts]: the theorems
      on them.
    - [JsJson]: [JSON.parse], optional chaining on its values and their
      conversion to strings.  [JsJsonText]: [JSON.stringify] with its indentation,
      and the theorem that [JSON.parse] reads the text back.  [JsSchema]: the schemas
      of zod, whose parser is the class [SchemaParser].
    - [BillingRequestRules] (Module [RequestRules]): [billing-expr.ts], each regular
      expression as a scanner; [BillingRequestRulesFacts] has the theorems.
    - [BillingPrint]: texts and trees.  [print] writes a tree, [laid] says which
      texts have given tokens; the theorem of the file takes the parser back from
      a text to its tree, and is what the round trips of the forms rest on.
    - [BillingTaskForm] (Module [TaskForm]): [task-expr.ts]; [BillingTaskFormFacts]
      (tiers), [BillingTaskMatrixFacts] (matrix), [BillingTaskPreviewFacts] and
      [BillingTaskChargeFacts] (preview) have the theorems.
    - [JsRegExp] (Module [RegExp]): regular expressions as functions from a text to
      all matches in the order in which backtracking tries them.
    - [BillingTierForm] (Module [TierForm]): [tier-expr.ts], its regular expressions
      built from [RegExp]; [BillingTierFormFacts] (reading back) and
      [BillingTierChargeFacts] (the estimator) have the theorems.
    - [JsCollections]: maps, sets and stable sorting; the comparison
      [localeCompare], which depends on the user's locale, is its class
      [Collation], without laws: no theorem needs any.  [JsIntegers]: sums and
      differences of integers below [2 ^ 53] are exact.
    - [DashboardFlow] (Module [Flow]): [flow.ts]; a node or link object that the code
      mutates in place is a record that a step replaces in its map, and the
      palette of the chart library and the number format are the class
      [FlowDisplay].  [DashboardFlowFacts] (sums and conservation) and
      [DashboardRankFacts] (limits and highlights) have the theorems.
    - [ChannelCustom] (Modules [Custom] and [Mapping]): the two files on channels.
      The fields of a route are JavaScript values, since the text may be typed by
      hand, and a [TypeError] is the result [None]; [new URL] is the class
      [UrlParser].  [ChannelCustomFacts] has the theorems, on routes of the declared
      types.
    - [HttpStatusRules] (Module [StatusCodes]): model and theorems.
    - [AuthSession] (Module [Auth]): the store, the guards on responses, the
      entry points, and the refresh as a suspended process; [step] interleaves
      its lock, response and timer events with every other action on the
      session.  [AuthSessionFacts] has the theorems.
    - [HttpClient] (Module [Http]): the interceptors on top of that system; a call
      is suspended where the code awaits, and [client_step] interleaves replies and
      resumptions of any number of calls with the steps of the session.
      [HttpClientFacts] and [HttpClientProtocol] have the theorems.
    - [PlaygroundMessages] (Module [Playground]) and [PlaygroundFacts].
    - [PlaygroundStream] (Module [Stream]): the controller, its listeners as
      reactions to events that may come at any time and in any order.  The class
      [StreamClient] is what it asks of its callbacks; [PlaygroundStreamFacts]
      proves its theorems for every client.
    - [PlaygroundChat] (Module [Chat]): the hooks.  [chat_client] is the chat handler
      as a client of the controller; a [turn] is one turn of the event loop
      (a click, a stream event, a timer, a response, a render).  When React calls
      an updater is the parameter [eager], [Date.now()] the parameter [readings],
      the translation function [t].  [PlaygroundChatFacts] has the theorems.
    - [PlaygroundStorage] (Module [Storage]): schemas, storage, parameters, options and
      the state hook.  [localStorage] is a map of texts; whether it accepts another
      text is the parameter [accepts].  A [hook_event] is what can happen to the
      hook: a timeout, an updater that React calls, an effect, unmounting.
      [PlaygroundStorageFacts] and [PlaygroundParameterFacts] have the theorems.

    ** What the theorems show

    - Parsing ends with a tree or with one of the project's own errors, and its
      trees are well formed: spans nest, do not overlap and are unique, calls have
      the right arity, literals are canonical.  ([BillingSpans])
    - The stack traversal is post-order recursion with a depth limit; the type
      check, which keeps a map of types, accepts exactly the trees that have a type
      in the rules of the language ([has_type]); dependencies and request rules are
      exactly those of the tree; the cache is bounded and transparent.
      ([BillingCompileFacts])
    - Evaluation: results are finite and not negative, values have the inferred
      types, only the project's own errors are thrown, only the listed inputs
      are read, a fixed price is a literal scaled by request multipliers alone,
      a condition decided from the clock holds in every context, and an unknown
      zone reads as UTC.  ([BillingPricing])
    - Summaries agree with evaluation: the tier, price and cost shown are those
      charged.  ([BillingDisplayFacts])
    - The visual editor gives back an unedited source character for character,
      and the identities of its parts are distinct.  ([BillingVisualFacts])
    - The parser reads the texts of a tree, with or without superfluous blanks, as
      that tree, within its limits.  ([BillingPrint])
    - The task form reads back the tiers and the matrix it writes, for the numbers
      whose digits the parser accepts and within its limits; the combinations of a
      schema are all choices of values; the preview is the sum of its items and is
      what the evaluation of the written expression charges.
      ([BillingTaskFormFacts], [BillingTaskMatrixFacts], [BillingTaskPreviewFacts],
      [BillingTaskChargeFacts])
    - The token form reads back the tiers it writes, through its regular
      expressions, and its estimator charges the prices of the first tier whose
      conditions hold.  ([BillingTierFormFacts], [BillingTierChargeFacts])
    - The rule editor reads back the rules it writes, for the conditions that
      survive, and combining a base expression with rules is undone by splitting.
      ([BillingRequestRulesFacts])
    - Descriptions mention a zone only if every time function reads it, and the
      text helpers lose nothing.  ([BillingConditionDisplay], [BillingStructure])
    - The flow graph is the sum of the paths of its rows; flow is conserved at
      every node and every stage carries the usage of the rows shown; a limit keeps the largest
      nodes and bounds every stage; highlights follow the selected paths.
      ([DashboardFlowFacts], [DashboardRankFacts])
    - Custom routes: validation decides a declarative specification and names the
      first route that breaks it; a configuration survives the text of the editor;
      edits of one kind of route leave the others alone; the templates and defaults
      that the editor offers are valid.  ([ChannelCustomFacts])
    - Status code rules denote what was written and their normal form is stable.
    - The session: the store is consistent in every reachable state, a newer
      sign-in, rotation or sign-out always wins over a refresh under way, a
      refresh ends within 8 requests and leaves what its outcome says, the check
      at start-up is not taken for finished without a verdict, request headers
      carry a live token, and signing out reaches the other tabs.
      ([AuthSessionFacts])
    - The HTTP client: a request is sent at most twice and one with single-use
      authorization at most once, what goes out carries the current token, every
      call can settle, and a shared GET is forgotten when it settles; a first 401
      refreshes the session, the second, to the replay, ends it, and but for
      rotations that the caller accepts nothing else changes it.
      ([HttpClientFacts], [HttpClientProtocol])
    - The playground's messages: think tags follow a grammar, streaming shows what
      the whole response shows, stored conversations are repaired, edits resend
      what they should.  ([PlaygroundFacts])
    - The stream controller: at most one stream is open, a request's callbacks get
      updates and then at most one end, and those of a superseded request are not
      used again.  ([PlaygroundStreamFacts])
    - The playground as a whole: a request in progress always waits for something
      that ends it, a stop is final, chunks that wait have a timer that hands exactly
      them to React, and an answer streamed through controller, batches and React ends like
      one that came whole.  ([PlaygroundChatFacts])
    - The stored playground: nothing is written over the stored conversation before it
      has been read, afterwards the storage follows the screen, what is loaded keeps
      within the limits, settings come back, and what is entered for a parameter
      becomes a value of its control.  ([PlaygroundStorageFacts],
      [PlaygroundParameterFacts])

    Some theorems state where the code departs from its purpose.  Billing: the
    depth limits of compilation and evaluation differ by one
    ([depth_limits_disagree]); [+] on two dynamic operands is checked as a number
    and may be a string ([dynamic_plus_is_string]); the rule editor cannot read
    back a guarded condition on a parameter ([param_rule_lost]), and changes the
    operator of a range ([range_operator_changed]); the task form writes matrices
    that are too deep for the parser ([matrix_too_deep]); the token form reads a
    single price such as [1-2] as [NaN] ([malformed_price_lost]).  Status codes: a token with two
    dashes loses its tail ([extra_dash_ignored]).  Session: a late 401 to a replayed
    request clears a newer session ([late_reply_ends_new_session]).  Playground: a streamed chunk that
    repeats the text so far, or the text that waits in its batch, is dropped
    ([repeated_chunk_dropped], [batch_drops_repeat]); a closing think tag cut by a
    chunk boundary becomes reasoning ([cut_tag_becomes_reasoning]); a stop loses the
    batch that waits, when React defers the updater ([stop_drops_pending]); a numeric
    error code stops all saving of the conversation ([numeric_code_blocks_saving]), a
    conversation that grew too long is lost as a whole
    ([oversized_conversation_dropped]), and loading can shorten a text again and again
    ([collapse_again]).  Dashboard: masking labels changes the
    order of nodes of equal value ([masking_reorders]).  Channels: a hand-typed route
    whose path is a number passes the parser and makes the statistics throw
    ([number_path_throws]).

    ** Departures

    An object used as a dictionary is the list of its entries in insertion order:
    keys that are array indices, which JavaScript lists first, and names of
    [Object.prototype] are not treated apart.  Numbers of forms are numbers, as
    their types say.  Other tabs do not write to the storage of the playground while
    it is open.

    ** Bounds and fuel

    The parser recurses on the 128 nested calls the code allows, its loops on
    the length of the text, and a theorem of [BillingSpans] shows that this is
    enough.  Traversal uses twice the number of nodes.  [describeBillingCondition]
    and [readVisualCondition] recurse through [flattenBinary], so they take the
    size of the tree as fuel; the first never runs out, and the second satisfies
    the unbounded equation ([readVisualCondition_unfold]).  [json_value] takes the
    length of the text, of which every nested value uses at least one character.
    The loops of regular expressions (a repeated group, the matches of a global
    expression, the turns of [split], the search for section headings) take the
    length of the text too: every turn
    that the code makes on these expressions uses a character.  Unwrapping parentheses and the think-tag
    loop take the length of the text, with theorems on the result that a
    premature end would break.  Sorting is insertion sort, which is stable as
    [Array.prototype.sort] is.

    ** Not modelled

    The Go backend; React components; axios, i18next, BroadcastChannel and
    the Intl formatters (parameters or arbitrary inputs of the model); the price labels
    ([dynamic-price.ts], [price.ts]); [normalizeTierLabel] of [billing-expr.ts]; the
    tooltips and constant style of the flow chart; the rest of the
    channel forms (schemas, actions, rendering). *)

From stdpp Require Import base list option numbers.
From Stdlib Require Import ZArith Lia.

(** ** Results and the state-and-error monad

    The TypeScript code signals failure with [throw]; a computation that may
    throw is a value of [res].  Code that also mutates the fields of a class
    instance (parser, evaluator) is a function of type [st]: it takes the
    fields and returns a result with the new fields.  No code modelled here
    looks at the fields after an exception, so [Err] carries no state. *)

Inductive res (E A : Type) : Type :=
| Ok (a : A)
| Err (e : E).
Arguments Ok {E A} a.
Arguments Err {E A} e.

Definition st (E S A : Type) : Type := S -> res E (A * S).

Definition res_bind {E A B} (m : res E A) (f : A -> res E B) : res E B :=
  match m with
  | Ok a => f a
  | Err e => Err e
  end.

Definition st_ret {E S A} (a : A) : st E S A := fun s => Ok (a, s).

Definition st_throw {E S A} (e : E) : st E S A := fun _ => Err e.

Definition st_bind {E S A B} (m : st E S A) (f : A -> st E S B) : st E S B :=
  fun s => match m s with
           | Ok (a, s') => f a s'
           | Err e => Err e
           end.

Definition st_get {E S} : st E S S := fun s => Ok (s, s).

Definition st_put {E S} (s' : S) : st E S unit := fun _ => Ok (tt, s').

Definition st_modify {E S} (f : S -> S) : st E S unit := fun s => Ok (tt, f s).

(** A computation that only throws, run inside [st]. *)
Definition st_lift {E S A} (m : res E A) : st E S A :=
  fun s => match m with
           | Ok a => Ok (a, s)
           | Err e => Err e
           end.

Declare Scope js_monad_scope.
Delimit Scope js_monad_scope with jsm.

Notation "x <- m ;; k" := (st_bind m (fun x => k))
  (at level 100, m at next level, right associativity) : js_monad_scope.
Notation "m ;;; k" := (st_bind m (fun _ => k))
  (at level 100, right associativity) : js_monad_scope.
Notation "x <-- m ;; k" := (res_bind m (fun x => k))
  (at level 100, m at next level, right associativity) : js_monad_scope.

(** [Array.prototype.map] with a callback that may throw. *)
Definition res_mapM {E A B} (f : A -> res E B) : list A -> res E (list B) :=
  fix go l :=
    match l with
    | [] => Ok []
    | x :: l' => res_bind (f x) (fun y => res_bind (go l') (fun ys => Ok (y :: ys)))
    end.

(** [Array.prototype.forEach] over mutable fields. *)
Definition st_forM {E S A} (f : A -> st E S unit) : list A -> st E S unit :=
  fix go l :=
    match l with
    | [] => st_ret tt
    | x :: l' => st_bind (f x) (fun _ => go l')
    end.

Section Monad.
Context {E S : Type}.

Lemma st_bind_unfold {A B} (m : st E S A) (f : A -> st E S B) s :
  st_bind m f s = match m s with Ok (a, s') => f a s' | Err e => Err e end.
Proof. done. Qed.

Lemma st_bind_Ok {A B} (m : st E S A) (f : A -> st E S B) s r :
  st_bind m f s = Ok r <-> exists a s', m s = Ok (a, s') /\ f a s' = Ok r.
Proof.
  unfold st_bind. split.
  - destruct (m s) as [[a s']|e] eqn:Hm; [eauto | discriminate].
  - by intros (a & s' & -> & ?).
Qed.

Lemma st_bind_Err {A B} (m : st E S A) (f : A -> st E S B) s e :
  st_bind m f s = Err e <->
  m s = Err e \/ exists a s', m s = Ok (a, s') /\ f a s' = Err e.
Proof.
  unfold st_bind. split.
  - destruct (m s) as [[a s']|e'] eqn:Hm; [eauto | intros [= ->]; eauto].
  - by intros [-> | (a & s' & -> & ?)].
Qed.

Lemma st_lift_Ok {A} (m : res E A) (s : S) a s' :
  st_lift m s = Ok (a, s') <-> m = Ok a /\ s' = s.
Proof. unfold st_lift. destruct m; naive_solver. Qed.

Lemma st_lift_Err {A} (m : res E A) (s : S) e :
  @st_lift E S A m s = Err e <-> m = Err e.
Proof. unfold st_lift. destruct m; naive_solver. Qed.

Lemma res_bind_Ok {A B} (m : res E A) (f : A -> res E B) r :
  res_bind m f = Ok r <-> exists a, m = Ok a /\ f a = Ok r.
Proof. destruct m; naive_solver. Qed.

Lemma res_bind_Err {A B} (m : res E A) (f : A -> res E B) e :
  res_bind m f = Err e <-> m = Err e \/ exists a, m = Ok a /\ f a = Err e.
Proof. destruct m; naive_solver. Qed.

Lemma res_mapM_Ok {A B} (f : A -> res E B) l ys :
  res_mapM f l = Ok ys <-> Forall2 (fun x y => f x = Ok y) l ys.
Proof.
  revert ys. induction l as [|x l IH]; intros ys; simpl.
  - split; [intros [= <-]; constructor | by inversion 1].
  - rewrite res_bind_Ok. setoid_rewrite res_bind_Ok. setoid_rewrite IH. split.
    + intros (y & Hy & ys' & Hys & [= <-]). by constructor.
    + inversion 1; subst. eauto 6.
Qed.
End Monad.

(** Two computations are equal when they agree from every state. *)
Definition st_eq {E S A} : relation (st E S A) := pointwise_relation S eq.

#[global] Instance st_eq_equivalence {E S A} : Equivalence (@st_eq E S A).
Proof. unfold st_eq. apply _. Qed.

#[global] Instance st_bind_proper {E S A B} :
  Proper (st_eq ==> pointwise_relation A st_eq ==> st_eq) (@st_bind E S A B).
Proof.
  intros m1 m2 Hm f1 f2 Hf s. unfold st_bind. rewrite (Hm s).
  destruct (m2 s) as [[a s']|e]; [apply Hf|done].
Qed.

(** [m2] succeeds, with the same outcome, wherever [m1] succeeds. *)
Definition st_le {E S A} (m1 m2 : st E S A) : Prop := forall s r, m1 s = Ok r -> m2 s = Ok r.

#[global] Instance st_le_preorder {E S A} : PreOrder (@st_le E S A).
Proof. split; [by intros m s r|]. intros m1 m2 m3 H12 H23 s r Hr. by apply H23, H12. Qed.

#[global] Instance st_bind_le {E S A B} :
  Proper (st_le ==> pointwise_relation A st_le ==> st_le) (@st_bind E S A B).
Proof.
  intros m1 m2 Hm f1 f2 Hf s r (a & s' & Ha & Hr)%st_bind_Ok.
  apply st_bind_Ok. exists a, s'. split; [by apply Hm|by apply Hf].
Qed.

(** Take apart a hypothesis about a successful monadic computation. *)
Ltac st_inv1 :=
  match goal with
  | H : st_bind _ _ _ = Ok _ |- _ =>
      apply st_bind_Ok in H; destruct H as (? & ? & ? & H)
  | H : res_bind _ _ = Ok _ |- _ =>
      apply res_bind_Ok in H; destruct H as (? & ? & H)
  | H : st_ret _ _ = Ok _ |- _ => unfold st_ret in H; simplify_eq
  | H : st_throw _ _ = Ok _ |- _ => discriminate H
  | H : st_get _ = Ok _ |- _ => unfold st_get in H; simplify_eq
  | H : st_put _ _ = Ok _ |- _ => unfold st_put in H; simplify_eq
  | H : st_modify _ _ = Ok _ |- _ => unfold st_modify in H; simplify_eq
  | H : st_lift _ _ = Ok (_, _) |- _ =>
      apply st_lift_Ok in H; destruct H as [H ->]
  | H : Ok _ = Ok _ |- _ => simplify_eq
  | H : Err _ = Ok _ |- _ => discriminate H
  | H : Ok _ = Err _ |- _ => discriminate H
  | p : (_ * _)%type |- _ => destruct p
  end.
Ltac st_inv := repeat first [progress st_inv1 | progress (simplify_eq/=)].

(** Case analysis on the scrutinee of a [match] or [if] in a hypothesis. *)
Tactic Notation "case_in" hyp(H) :=
  match type of H with
  | context [match ?x with _ => _ end] => destruct x eqn:?
  end.

Lemma elem_of_concat_map {A B} (f : A -> list B) l x :
  x ∈ concat (map f l) <-> exists c, c ∈ l /\ x ∈ f c.
Proof.
  induction l as [|a l IH]; simpl.
  - split; [by intros ?%elem_of_nil | by intros (c & ?%elem_of_nil & _)].
  - rewrite elem_of_app, IH. setoid_rewrite elem_of_cons. naive_solver.
Qed.

Create HintDb js discriminated.
