(* ===== verification/JsString.v ===== *)
(** * JavaScript strings

    A JavaScript string is a sequence of UTF-16 code units; the sources index,
    slice and measure strings in code units.  Here: the type, the character
    classes of the regular expressions the sources use ([\s], [\d], [\w]) and
    the string operations of the language that the modelled code calls. *)

From stdpp Require Import base list numbers strings.
From Stdlib Require Import NArith Lia.
From Stdlib Require Ascii String.
From S2P Require Import Prelude.

Abbreviation jstr := (list N).

(** A string literal of the sources (all modelled literals are ASCII). *)
Definition js (s : string) : jstr := Ascii.N_of_ascii <$> String.list_ascii_of_string s.
Arguments js s%_string.

Definition jeqb (a b : jstr) : bool := bool_decide (a = b).

(** ** Character classes *)

(** [\s] of a regular expression without flags; also the set [trim] removes. *)
Definition is_space (c : N) : bool :=
  ((9 <=? c) && (c <=? 13) || (c =? 32) || (c =? 160) || (c =? 5760)
   || ((8192 <=? c) && (c <=? 8202)) || (c =? 8232) || (c =? 8233)
   || (c =? 8239) || (c =? 8287) || (c =? 12288) || (c =? 65279))%N.

(** [\d] *)
Definition is_digit (c : N) : bool := ((48 <=? c) && (c <=? 57))%N.

Definition is_upper (c : N) : bool := ((65 <=? c) && (c <=? 90))%N.
Definition is_lower (c : N) : bool := ((97 <=? c) && (c <=? 122))%N.

(** [[A-Za-z_]] *)
Definition is_name_start (c : N) : bool :=
  is_upper c || is_lower c || (c =? 95)%N.

(** [\w] *)
Definition is_word (c : N) : bool := is_name_start c || is_digit c.

(** [[\da-f]] with the [i] flag *)
Definition is_hex (c : N) : bool :=
  is_digit c || ((97 <=? c) && (c <=? 102))%N || ((65 <=? c) && (c <=? 70))%N.

Definition digit_val (c : N) : N := (c - 48)%N.

Definition hex_val (c : N) : N :=
  if is_digit c then (c - 48)%N
  else if (97 <=? c)%N then (c - 87)%N else (c - 55)%N.

(** ** Prefixes: the greedy match of a character class *)

Fixpoint span_while (p : N -> bool) (l : jstr) : jstr * jstr :=
  match l with
  | [] => ([], [])
  | c :: l' => if p c then let '(a, b) := span_while p l' in (c :: a, b) else ([], l)
  end.

Definition drop_spaces (l : jstr) : jstr := snd (span_while is_space l).

(** [s.trim()] *)
Definition trim (l : jstr) : jstr := rev (drop_spaces (rev (drop_spaces l))).

(** [s.startsWith(p)] *)
Fixpoint starts_with (p l : jstr) : bool :=
  match p, l with
  | [], _ => true
  | a :: p', b :: l' => N.eqb a b && starts_with p' l'
  | _, [] => false
  end.

(** [s.includes(p)] *)
Fixpoint includes (l p : jstr) : bool :=
  starts_with p l || match l with [] => false | _ :: l' => includes l' p end.

(** [s.slice(a, b)] with [0 <= a] and [0 <= b]. *)
Definition slice (s : jstr) (a b : nat) : jstr := take (b - a) (drop a s).

(** [s.split(sep)] for a one-character separator. *)
Fixpoint split_on (sep : N) (s : jstr) : list jstr :=
  match s with
  | [] => [[]]
  | c :: s' =>
      if (c =? sep)%N then [] :: split_on sep s'
      else match split_on sep s' with
           | p :: ps => (c :: p) :: ps
           | [] => [[c]]
           end
  end.

(** [parts.join(sep)] *)
Fixpoint join (sep : jstr) (l : list jstr) : jstr :=
  match l with
  | [] => []
  | [x] => x
  | x :: l' => x ++ sep ++ join sep l'
  end.

(** [a < b] on strings: lexicographic order of code units. *)
Fixpoint jltb (a b : jstr) : bool :=
  match a, b with
  | [], [] => false
  | [], _ :: _ => true
  | _ :: _, [] => false
  | x :: a', y :: b' => (x <? y)%N || ((x =? y)%N && jltb a' b')
  end.

Definition jleb (a b : jstr) : bool := negb (jltb b a).

(** ** Decimal digits *)

(** The decimal digits of a natural number, most significant first; [fuel]
    bounds their number and [N.size_nat] of the number always suffices. *)
Fixpoint digits_rev (fuel : nat) (n : N) : jstr :=
  match fuel with
  | O => []
  | S f =>
      let d := (48 + n mod 10)%N in
      if (n <? 10)%N then [d] else d :: digits_rev f (n / 10)%N
  end.

Definition N_digits (n : N) : jstr := rev (digits_rev (S (N.size_nat n)) n).

Definition digits_val (l : jstr) : N := foldl (fun a c => (10 * a + digit_val c)%N) 0%N l.

Definition nat_digits (n : nat) : jstr := N_digits (N.of_nat n).

(** [JSON.stringify] of a string: quotes, backslashes, control characters and
    lone surrogates are escaped. *)
Definition hex_digit (n : N) : N := if (n <? 10)%N then (48 + n)%N else (87 + n)%N.

Definition unicode_escape (c : N) : jstr :=
  js "\u" ++ [hex_digit (c / 4096 mod 16); hex_digit (c / 256 mod 16);
              hex_digit (c / 16 mod 16); hex_digit (c mod 16)]%N.

Definition is_lead (c : N) : bool := ((55296 <=? c) && (c <=? 56319))%N.
Definition is_trail (c : N) : bool := ((56320 <=? c) && (c <=? 57343))%N.

Fixpoint json_chars (l : jstr) : jstr :=
  match l with
  | [] => []
  | c :: l' =>
      if (c =? 8)%N then js "\b" ++ json_chars l'
      else if (c =? 9)%N then js "\t" ++ json_chars l'
      else if (c =? 10)%N then js "\n" ++ json_chars l'
      else if (c =? 12)%N then js "\f" ++ json_chars l'
      else if (c =? 13)%N then js "\r" ++ json_chars l'
      else if (c =? 34)%N then [92; 34]%N ++ json_chars l'
      else if (c =? 92)%N then js "\\" ++ json_chars l'
      else if (c <? 32)%N then unicode_escape c ++ json_chars l'
      else if is_lead c then
        match l' with
        | d :: l'' =>
            if is_trail d then c :: d :: json_chars l''
            else unicode_escape c ++ json_chars l'
        | [] => unicode_escape c
        end
      else if is_trail c then unicode_escape c ++ json_chars l'
      else c :: json_chars l'
  end.

Definition json_stringify (l : jstr) : jstr := [34%N] ++ json_chars l ++ [34%N].

(** ** Lemmas *)

Lemma jeqb_eq a b : jeqb a b = true <-> a = b.
Proof. unfold jeqb. by rewrite bool_decide_eq_true. Qed.

Lemma jeqb_neq a b : jeqb a b = false <-> a <> b.
Proof. unfold jeqb. by rewrite bool_decide_eq_false. Qed.

Lemma jeqb_refl a : jeqb a a = true.
Proof. by apply jeqb_eq. Qed.

Lemma span_while_app p l a b : span_while p l = (a, b) -> l = a ++ b.
Proof.
  revert a b. induction l as [|c l IH]; intros a b; simpl; [by intros [= <- <-]|].
  destruct (p c); [|by intros [= <- <-]].
  destruct (span_while p l) as [a' b'] eqn:Hs. intros [= <- <-].
  simpl. by rewrite (IH a' b').
Qed.

Lemma span_while_forall p l a b : span_while p l = (a, b) -> Forall (fun c => p c = true) a.
Proof.
  revert a b. induction l as [|c l IH]; intros a b; simpl; [intros [= <- <-]; constructor|].
  destruct (p c) eqn:Hp; [|intros [= <- <-]; constructor].
  destruct (span_while p l) as [a' b'] eqn:Hs. intros [= <- <-]. constructor; eauto.
Qed.

Lemma span_while_stop p l a b : span_while p l = (a, b) ->
  match b with c :: _ => p c = false | [] => True end.
Proof.
  revert a b. induction l as [|c l IH]; intros a b; simpl; [by intros [= <- <-]|].
  destruct (p c) eqn:Hp; [|by intros [= <- <-]].
  destruct (span_while p l) as [a' b'] eqn:Hs. intros [= <- <-]. by eapply IH.
Qed.

Lemma span_while_all p a b :
  Forall (fun c => p c = true) a ->
  match b with c :: _ => p c = false | [] => True end ->
  span_while p (a ++ b) = (a, b).
Proof.
  intros Ha Hb. induction Ha as [|c a Hc Ha IH]; simpl.
  - destruct b; [done|]. simpl. by rewrite Hb.
  - by rewrite Hc, IH.
Qed.

Lemma starts_with_app p l : starts_with p l = true <-> exists r, l = p ++ r.
Proof.
  revert l. induction p as [|a p IH]; intros l; simpl; [naive_solver|].
  destruct l as [|b l]; [naive_solver|].
  rewrite andb_true_iff, N.eqb_eq, IH. naive_solver.
Qed.

Lemma slice_length s a b : (a <= b)%nat -> (b <= length s)%nat ->
  length (slice s a b) = (b - a)%nat.
Proof. intros. unfold slice. rewrite length_take, length_drop. lia. Qed.

Lemma slice_full s : slice s 0 (length s) = s.
Proof. unfold slice. rewrite drop_0. rewrite take_ge; [done|lia]. Qed.

Lemma slice_app s a b c : (a <= b)%nat -> (b <= c)%nat ->
  slice s a b ++ slice s b c = slice s a c.
Proof.
  intros. unfold slice.
  replace (drop b s) with (drop (b - a) (drop a s)) by (rewrite drop_drop; f_equal; lia).
  rewrite take_take_drop. f_equal. lia.
Qed.

Lemma slice_slice s a b c d : (a + d <= b)%nat ->
  slice (slice s a b) c d = slice s (a + c) (a + d).
Proof.
  intros. unfold slice.
  replace (drop (a + c) s) with (drop c (drop a s)) by (rewrite drop_drop; f_equal; lia).
  destruct (decide (c <= d)%nat) as [Hcd|Hcd].
  - rewrite skipn_firstn_comm, firstn_firstn. f_equal. lia.
  - replace (d - c)%nat with 0%nat by lia.
    replace (a + d - (a + c))%nat with 0%nat by lia. done.
Qed.

Lemma split_on_none sep s : Forall (fun c => (c =? sep)%N = false) s -> split_on sep s = [s].
Proof. induction 1 as [|c s Hc Hs IH]; simpl; [done|]. by rewrite Hc, IH. Qed.

Lemma split_on_app sep s r : Forall (fun c => (c =? sep)%N = false) s ->
  split_on sep (s ++ sep :: r) = s :: split_on sep r.
Proof. induction 1 as [|c s Hc Hs IH]; simpl; [by rewrite N.eqb_refl|]. by rewrite Hc, IH. Qed.
