(* ===== verification/JsNumber.v ===== *)
(** * JavaScript numbers

    A JavaScript number is an IEEE 754 binary64 value.  It is represented by
    the [spec_float] of the standard library at precision 53 and maximal
    exponent 1024, in canonical form, with that library's exact arithmetic
    (round to nearest, ties to even).  On top of it: the operations of the
    language that the sources use, conversion of decimal literals
    ([Number(text)]) and conversion to text ([String(number)]). *)

From stdpp Require Import base list numbers strings.
From Stdlib Require Import ZArith SpecFloat Lia.
From S2P Require Import Prelude.
From S2P Require Import JsString.

#[local] Open Scope Z_scope.

Abbreviation f64 := spec_float.

Definition prec : Z := 53.
Definition emax : Z := 1024.

Definition fadd : f64 -> f64 -> f64 := SFadd prec emax.
Definition fsub : f64 -> f64 -> f64 := SFsub prec emax.
Definition fmul : f64 -> f64 -> f64 := SFmul prec emax.
Definition fdiv : f64 -> f64 -> f64 := SFdiv prec emax.
Definition fneg : f64 -> f64 := SFopp.
Definition fabs : f64 -> f64 := SFabs.

(** [a === b], [a < b], [a <= b] on numbers. *)
Definition feqb : f64 -> f64 -> bool := SFeqb.
Definition fltb : f64 -> f64 -> bool := SFltb.
Definition fleb : f64 -> f64 -> bool := SFleb.

Definition f64_of_Z (z : Z) : f64 := binary_normalize prec emax z 0 false.
Definition fzero : f64 := S754_zero false.

(** [Number.isFinite] *)
Definition is_finite (x : f64) : bool :=
  match x with
  | S754_zero _ | S754_finite _ _ _ => true
  | S754_infinity _ | S754_nan => false
  end.

(** The value truncated towards zero, and whether it was an integer. *)
Definition trunc_parts (m : positive) (e : Z) : Z * bool :=
  if 0 <=? e then (Z.shiftl (Zpos m) e, true)
  else (Z.shiftr (Zpos m) (- e), Z.shiftl (Z.shiftr (Zpos m) (- e)) (- e) =? Zpos m).

(** [Number.isInteger] *)
Definition is_integer (x : f64) : bool :=
  match x with
  | S754_zero _ => true
  | S754_finite _ m e => snd (trunc_parts m e)
  | _ => false
  end.

(** The integer a number truncates to ([0] for a number that is not finite). *)
Definition to_Z (x : f64) : Z :=
  match x with
  | S754_finite s m e => cond_Zopp s (fst (trunc_parts m e))
  | _ => 0
  end.

(** [Number.isSafeInteger] *)
Definition is_safe_integer (x : f64) : bool :=
  is_integer x && (Z.abs (to_Z x) <=? 2 ^ 53 - 1).

(** [Math.floor] and [Math.ceil]; a zero result keeps the sign of the operand. *)
Definition ffloor (x : f64) : f64 :=
  match x with
  | S754_finite s m e =>
      let '(q, exact) := trunc_parts m e in
      if exact then x
      else binary_normalize prec emax (if s then - (q + 1) else q) 0 s
  | _ => x
  end.

Definition fceil (x : f64) : f64 :=
  match x with
  | S754_finite s m e =>
      let '(q, exact) := trunc_parts m e in
      if exact then x
      else binary_normalize prec emax (if s then - q else q + 1) 0 s
  | _ => x
  end.

(** [Math.min] and [Math.max]; [-0] is smaller than [+0]. *)
Definition fmin (a b : f64) : f64 :=
  match a, b with
  | S754_nan, _ | _, S754_nan => S754_nan
  | S754_zero s, S754_zero t => S754_zero (s || t)
  | _, _ => if fltb b a then b else a
  end.

Definition fmax (a b : f64) : f64 :=
  match a, b with
  | S754_nan, _ | _, S754_nan => S754_nan
  | S754_zero s, S754_zero t => S754_zero (s && t)
  | _, _ => if fltb a b then b else a
  end.

(** [a % b]: the exact remainder of the truncated quotient, with the sign of
    the dividend. *)
Definition frem (a b : f64) : f64 :=
  match a, b with
  | S754_nan, _ | _, S754_nan => S754_nan
  | S754_infinity _, _ => S754_nan
  | _, S754_zero _ => S754_nan
  | _, S754_infinity _ => a
  | S754_zero _, _ => a
  | S754_finite s m e, S754_finite _ n d =>
      let g := Z.min e d in
      let r := Z.shiftl (Zpos m) (e - g) mod Z.shiftl (Zpos n) (d - g) in
      binary_normalize prec emax (cond_Zopp s r) g s
  end.

(** ** From decimal text to a number *)

(** Strip trailing zeros of a decimal mantissa. *)
Fixpoint strip_zeros (fuel : nat) (m : N) (e : Z) : N * Z :=
  match fuel with
  | O => (m, e)
  | S f => if (m =? 0)%N then (0%N, 0)
           else if (m mod 10 =? 0)%N then strip_zeros f (m / 10)%N (e + 1)
           else (m, e)
  end.

Definition strip (m : N) (e : Z) : N * Z := strip_zeros (S (N.size_nat m)) m e.

(** The number nearest to [num / den]. *)
Definition round_ratio (num den : positive) : f64 :=
  SFdiv prec emax (S754_finite false num 0) (S754_finite false den 0).

(** The number nearest to [m * 10 ^ e].  Beyond [10 ^ 400] the result is
    infinite and below [10 ^ -400] it is zero; these two tests only avoid
    computing huge powers of ten. *)
Definition dec_to_f64 (m : N) (e : Z) : f64 :=
  match strip m e with
  | (N0, _) => fzero
  | (Npos p, e') =>
      if 400 <? e' then S754_infinity false
      else if e' + Z.log2 (Zpos p) + 1 <? -400 then fzero
      else round_ratio (p * Z.to_pos (10 ^ Z.max 0 e')) (Z.to_pos (10 ^ Z.max 0 (- e')))
  end.

(** A match, at the start of the text, of the number pattern of the sources
    (digits with an optional fraction, or a fraction with at least one digit,
    then an optional exponent with at least one digit): its mantissa as
    an integer, its decimal exponent, whether it has no point and no exponent,
    and the text after it. *)
Record decimal := {
  dec_m : N;
  dec_e : Z;
  dec_integer : bool;
  dec_rest : jstr;
}.

Definition scan_exponent (l : jstr) : option (Z * jstr) :=
  match l with
  | c :: l1 =>
      if (c =? 101)%N || (c =? 69)%N then
        let '(neg, l2) :=
          match l1 with
          | d :: l2 => if (d =? 43)%N then (false, l2)
                       else if (d =? 45)%N then (true, l2) else (false, l1)
          | [] => (false, l1)
          end in
        let '(ds, l3) := span_while is_digit l2 in
        match ds with
        | [] => None
        | _ :: _ => Some ((if neg : bool then - Z.of_N (digits_val ds) else Z.of_N (digits_val ds)), l3)
        end
      else None
  | [] => None
  end.

Definition scan_fraction (l : jstr) : option (jstr * jstr) :=
  match l with
  | c :: l1 => if (c =? 46)%N then Some (span_while is_digit l1) else None
  | [] => None
  end.

Definition scan_decimal (l : jstr) : option decimal :=
  let '(ip, r1) := span_while is_digit l in
  let head :=
    match ip, scan_fraction r1 with
    | [], Some ([], _) => None
    | [], None => None
    | _, Some (fp, r2) => Some (fp, false, r2)
    | _, None => Some ([], true, r1)
    end in
  match head with
  | None => None
  | Some (fp, whole, r2) =>
      let m := digits_val (ip ++ fp) in
      let e := - Z.of_nat (length fp) in
      match scan_exponent r2 with
      | Some (x, r3) => Some {| dec_m := m; dec_e := e + x; dec_integer := false; dec_rest := r3 |}
      | None => Some {| dec_m := m; dec_e := e; dec_integer := whole; dec_rest := r2 |}
      end
  end.

(** The text of an unsigned decimal literal, as a number. *)
Definition decimal_value (d : decimal) : f64 := dec_to_f64 (dec_m d) (dec_e d).

(** Digits in a power-of-two radix, for [0x], [0o] and [0b] literals. *)
Definition radix_value (radix : N) (l : jstr) : option N :=
  foldl (fun acc c =>
           match acc with
           | None => None
           | Some a =>
               if is_hex c && (hex_val c <? radix)%N then Some (radix * a + hex_val c)%N
               else None
           end) (Some 0%N) l.

(** [Number(text)] *)
Definition number_of_string (s : jstr) : f64 :=
  let unsigned (l : jstr) : f64 :=
    if jeqb l (js "Infinity") then S754_infinity false
    else match scan_decimal l with
         | Some d => match dec_rest d with [] => decimal_value d | _ => S754_nan end
         | None => S754_nan
         end in
  let t := trim s in
  match t with
  | [] => fzero
  | 43%N :: l => unsigned l
  | 45%N :: l => fneg (unsigned l)
  | 48%N :: x :: ((_ :: _) as l) =>
      let radix := if (x =? 120)%N || (x =? 88)%N then Some 16%N
                   else if (x =? 111)%N || (x =? 79)%N then Some 8%N
                   else if (x =? 98)%N || (x =? 66)%N then Some 2%N else None in
      match radix with
      | Some r => match radix_value r l with
                  | Some n => f64_of_Z (Z.of_N n)
                  | None => S754_nan
                  end
      | None => unsigned t
      end
  | _ => unsigned t
  end.

(** ** From a number to decimal text *)

(** [m * 2 ^ e] as a fraction. *)
Definition ratio_num (m : positive) (e : Z) : Z := Zpos m * 2 ^ Z.max 0 e.
Definition ratio_den (e : Z) : Z := 2 ^ Z.max 0 (- e).

(** [p / q < 10 ^ n] *)
Definition below_pow10 (p q n : Z) : bool :=
  p * 10 ^ Z.max 0 (- n) <? q * 10 ^ Z.max 0 n.

(** The least [n >= n0] with [p / q < 10 ^ n], looking at a few candidates. *)
Fixpoint find_scale (fuel : nat) (p q n : Z) : Z :=
  match fuel with
  | O => n
  | S f => if below_pow10 p q n then n else find_scale f p q (n + 1)
  end.

(** The integers just below and just above [(p / q) * 10 ^ j], and which of the
    two is nearer ([Lt]: the lower one). *)
Definition neighbours (p q j : Z) : Z * comparison :=
  let p' := p * 10 ^ Z.max 0 j in
  let q' := q * 10 ^ Z.max 0 (- j) in
  (p' / q', Z.compare (2 * (p' mod q')) q').

(** Whether the decimal [s * 10 ^ e] reads back as [x]. *)
Definition reads_as (x : f64) (s e : Z) : bool :=
  (0 <? s) && match dec_to_f64 (Z.to_N s) e, x with
              | S754_finite false m1 e1, S754_finite false m2 e2 =>
                  (m1 =? m2)%positive && (e1 =? e2)
              | _, _ => false
              end.

(** The shortest decimal mantissa and exponent that read back as [x], the
    nearest one if there are two: tries 1, 2, ... 17 digits.  Seventeen digits
    always suffice; the exact decimal expansion stands in the last position. *)
Fixpoint shortest_from (fuel : nat) (k : Z) (x : f64) (p q n : Z) (exact : N * Z) : N * Z :=
  match fuel with
  | O => exact
  | S f =>
      let '(lo, near) := neighbours p q (k - n) in
      let lo_ok := reads_as x lo (n - k) in
      let hi_ok := reads_as x (lo + 1) (n - k) in
      let take_lo := match near with Lt => true | Eq => Z.even lo | Gt => false end in
      if lo_ok && (take_lo || negb hi_ok) then strip (Z.to_N lo) (n - k)
      else if hi_ok then strip (Z.to_N (lo + 1)) (n - k)
      else shortest_from f (k + 1) x p q n exact
  end.

(** The exact decimal expansion of [m * 2 ^ e]. *)
Definition exact_decimal (m : positive) (e : Z) : N * Z :=
  if 0 <=? e then strip (Z.to_N (Zpos m * 2 ^ e)) 0
  else strip (Z.to_N (Zpos m * 5 ^ (- e))) e.

Definition shortest (m : positive) (e : Z) : N * Z :=
  let p := ratio_num m e in
  let q := ratio_den e in
  let b := Zpos (digits2_pos m) + e - 1 in
  let n := find_scale 6 p q (b * 30103 / 100000 - 1) in
  shortest_from 17 1 (S754_finite false m e) p q n (exact_decimal m e).

Definition zeros (n : nat) : jstr := replicate n 48%N.

(** Layout of the decimal [s * 10 ^ e] by [Number::toString]. *)
Definition layout (s : N) (e : Z) : jstr :=
  let ds := N_digits s in
  let k := Z.of_nat (length ds) in
  let n := e + k in
  if (k <=? n) && (n <=? 21) then ds ++ zeros (Z.to_nat (n - k))
  else if (0 <? n) && (n <=? 21) then
    take (Z.to_nat n) ds ++ js "." ++ drop (Z.to_nat n) ds
  else if (-6 <? n) && (n <=? 0) then js "0." ++ zeros (Z.to_nat (- n)) ++ ds
  else
    let x := n - 1 in
    let mant := match ds with
                | d :: ((_ :: _) as l) => d :: js "." ++ l
                | _ => ds
                end in
    mant ++ js "e" ++ (if x <? 0 then js "-" else js "+") ++ N_digits (Z.to_N (Z.abs x)).

(** [String(number)] *)
Definition number_to_string (x : f64) : jstr :=
  match x with
  | S754_nan => js "NaN"
  | S754_infinity s => if s then js "-Infinity" else js "Infinity"
  | S754_zero _ => js "0"
  | S754_finite s m e =>
      let '(d, x10) := shortest m e in
      (if s then js "-" else []) ++ layout d x10
  end.

(** [x.toExponential()] split at its ["e"]: the mantissa text and the exponent. *)
Definition to_exponential (x : f64) : jstr * Z :=
  match x with
  | S754_finite s m e =>
      let '(d, x10) := shortest m e in
      let ds := N_digits d in
      ((if s then js "-" else [])
         ++ match ds with
            | c :: ((_ :: _) as l) => c :: js "." ++ l
            | _ => ds
            end,
       x10 + Z.of_nat (length ds) - 1)
  | _ => (js "0", 0)
  end.
