(* ===== verification/JsNumberFacts.v ===== *)
(** * Facts about JavaScript numbers

    Reading a decimal text back: a fraction equal to a binary64 value rounds to
    that value, [String(x)] is always read back as [x] by the number pattern of
    the sources, and the comparison facts the billing code relies on. *)

From stdpp Require Import base list numbers strings.
From Stdlib Require Import ZArith SpecFloat Lia.
From S2P Require Import Prelude.
From S2P Require Import JsString.
From S2P Require Import JsNumber.

#[local] Open Scope Z_scope.

(** ** Binary digits and exact shifts *)

Lemma digits2_pos_bounds m :
  2 ^ (Zpos (digits2_pos m) - 1) <= Zpos m < 2 ^ Zpos (digits2_pos m).
Proof.
  induction m as [m IH|m IH|]; simpl digits2_pos; [| |done].
  all: rewrite Pos2Z.inj_succ, Z.pow_succ_r by lia.
  all: replace (Z.succ (Zpos (digits2_pos m)) - 1)
         with (Z.succ (Zpos (digits2_pos m) - 1)) by lia.
  all: rewrite Z.pow_succ_r by lia.
  all: lia.
Qed.

Lemma digits2_pos_unique m d : 0 < d -> 2 ^ (d - 1) <= Zpos m < 2 ^ d -> Zpos (digits2_pos m) = d.
Proof.
  intros Hd [H1 H2]. pose proof (digits2_pos_bounds m) as [H3 H4].
  assert (Zpos (digits2_pos m) - 1 < d) by (apply (Z.pow_lt_mono_r_iff 2); lia).
  assert (d - 1 < Zpos (digits2_pos m)) by (apply (Z.pow_lt_mono_r_iff 2); lia).
  lia.
Qed.

Lemma Zdigits2_shift m k : 0 <= k ->
  Zdigits2 (Zpos m * 2 ^ k) = Zpos (digits2_pos m) + k.
Proof.
  intros Hk. pose proof (digits2_pos_bounds m) as [H1 H2].
  assert (0 < 2 ^ k) by lia.
  destruct (Zpos m * 2 ^ k) as [|p|p] eqn:Hp; [lia| |lia]. simpl.
  apply digits2_pos_unique; [lia|]. rewrite <- Hp.
  replace (Zpos (digits2_pos m) + k - 1) with (Zpos (digits2_pos m) - 1 + k) by lia.
  rewrite !Z.pow_add_r by lia. nia.
Qed.

Lemma iter_pos_nat {A} (f : A -> A) n x : iter_pos f n x = Nat.iter (Pos.to_nat n) f x.
Proof.
  revert x. induction n as [n IH|n IH|]; intros x; simpl iter_pos.
  - rewrite !IH, Pos2Nat.inj_xI. rewrite <- Nat.iter_add.
    replace (S (2 * Pos.to_nat n)) with ((Pos.to_nat n + Pos.to_nat n) + 1)%nat by lia.
    symmetry. apply Nat.iter_add.
  - rewrite !IH, Pos2Nat.inj_xO. rewrite <- Nat.iter_add.
    by replace (2 * Pos.to_nat n)%nat with (Pos.to_nat n + Pos.to_nat n)%nat by lia.
  - done.
Qed.

Lemma shr_1_exact m n :
  Nat.iter n shr_1 (Build_shr_record (Zpos m * 2 ^ Z.of_nat n) false false)
  = Build_shr_record (Zpos m) false false.
Proof.
  induction n as [|n IH]; [simpl; f_equal; lia|].
  rewrite Nat.iter_succ_r, <- IH. f_equal.
  rewrite Nat2Z.inj_succ, Z.pow_succ_r by lia.
  replace (Zpos m * (2 * 2 ^ Z.of_nat n)) with (2 * (Zpos m * 2 ^ Z.of_nat n)) by lia.
  assert (0 < Zpos m * 2 ^ Z.of_nat n) by lia.
  by destruct (Zpos m * 2 ^ Z.of_nat n).
Qed.

(** Shifting an exact multiple of a power of two back to a canonical mantissa
    loses nothing. *)
Lemma shr_fexp_exact m e k :
  0 <= k -> fexp prec emax (Zpos (digits2_pos m) + e) = e ->
  shr_fexp prec emax (Zpos m * 2 ^ k) (e - k) loc_Exact
  = (Build_shr_record (Zpos m) false false, e).
Proof.
  intros Hk Hc. unfold shr_fexp. rewrite Zdigits2_shift by done.
  replace (Zpos (digits2_pos m) + k + (e - k)) with (Zpos (digits2_pos m) + e) by lia.
  rewrite Hc. simpl. replace (e - (e - k)) with k by lia.
  destruct k as [|k|k]; [simpl; do 2 f_equal; lia | | lia].
  simpl shr. rewrite iter_pos_nat. f_equal; [|lia].
  rewrite <- (positive_nat_Z k). apply shr_1_exact.
Qed.

(** ** A fraction equal to a binary64 value rounds to it *)

(** The digits of a quotient are at most those of the fraction. *)
Lemma quotient_exponent num den m e :
  Zpos num * ratio_den e = ratio_num m e * Zpos den ->
  Zpos (digits2_pos num) - Zpos (digits2_pos den) <= Zpos (digits2_pos m) + e.
Proof.
  unfold ratio_den, ratio_num. intros Heq.
  pose proof (digits2_pos_bounds num) as [Hn1 _]. pose proof (digits2_pos_bounds den) as [_ Hd2].
  pose proof (digits2_pos_bounds m) as [_ Hm2].
  set (dn := Zpos (digits2_pos num)) in *. set (dd := Zpos (digits2_pos den)) in *.
  set (dm := Zpos (digits2_pos m)) in *.
  assert (2 ^ (dn - 1 + Z.max 0 (- e)) < 2 ^ (dm + Z.max 0 e + dd)) as Hlt.
  { rewrite !Z.pow_add_r by lia.
    assert (0 < 2 ^ Z.max 0 (- e)) by lia. assert (0 < 2 ^ Z.max 0 e) by lia.
    apply Z.le_lt_trans with (Zpos num * 2 ^ Z.max 0 (- e));
      [apply Z.mul_le_mono_nonneg_r; lia|].
    rewrite Heq. apply Z.mul_lt_mono_nonneg; try lia.
    apply Z.mul_lt_mono_pos_r; lia. }
  apply Z.pow_lt_mono_r_iff in Hlt; lia.
Qed.

(** The numerator scaled for the division is an exact multiple of the denominator. *)
Lemma scaled_quotient num den m e e' : e' <= e -> e' <= 0 ->
  Zpos num * ratio_den e = ratio_num m e * Zpos den ->
  Zpos num * 2 ^ (- e') = (Zpos m * 2 ^ (e - e')) * Zpos den.
Proof.
  unfold ratio_den, ratio_num. intros ? ? Heq. apply (Z.mul_reg_r _ _ (2 ^ Z.max 0 (- e))); [lia|].
  transitivity (Zpos num * 2 ^ Z.max 0 (- e) * 2 ^ (- e')); [lia|].
  rewrite Heq.
  transitivity (Zpos m * Zpos den * 2 ^ (Z.max 0 e + - e')); [rewrite Z.pow_add_r by lia; lia|].
  replace (Z.max 0 e + - e') with (e - e' + Z.max 0 (- e)) by lia.
  rewrite Z.pow_add_r by lia. lia.
Qed.

Lemma div_eucl_mul a b : 0 < b -> Z.div_eucl (a * b) b = (a, 0).
Proof.
  intros Hb. rewrite (surjective_pairing (Z.div_eucl _ _)).
  change (fst (Z.div_eucl ?x ?y)) with (x / y). change (snd (Z.div_eucl ?x ?y)) with (x mod y).
  by rewrite Z.div_mul, Z.mod_mul by lia.
Qed.

Lemma round_ratio_exact num den m e :
  bounded prec emax m e = true ->
  Zpos num * ratio_den e = ratio_num m e * Zpos den ->
  round_ratio num den = S754_finite false m e.
Proof.
  unfold bounded, canonical_mantissa.
  intros [Hc%Z.eqb_eq He%Z.leb_le]%andb_true_iff Heq.
  pose proof (quotient_exponent num den m e Heq) as Hexp.
  unfold round_ratio, SFdiv, SFdiv_core_binary. simpl Zdigits2.
  set (dn := Zpos (digits2_pos num)) in *. set (dd := Zpos (digits2_pos den)) in *.
  set (dm := Zpos (digits2_pos m)) in *.
  rewrite !Z.add_0_r. change (0 - 0) with 0.
  set (e' := Z.min (fexp prec emax (dn - dd)) 0).
  assert (He' : e' <= e /\ e' <= 0).
  { unfold e'. unfold fexp in *. lia. }
  assert (Hshift : match 0 - e' with
                   | Z0 => Zpos num | Zpos _ => Z.shiftl (Zpos num) (0 - e') | Zneg _ => 0
                   end = Zpos num * 2 ^ (- e')).
  { replace (0 - e') with (- e') by lia.
    destruct (- e') as [|p|p] eqn:Hp; [lia| |lia]. by rewrite Z.shiftl_mul_pow2 by lia. }
  rewrite Hshift, (scaled_quotient num den m e e'), div_eucl_mul by (lia || done).
  assert (new_location (Zpos den) 0 = loc_Exact) as ->.
  { unfold new_location, new_location_even, new_location_odd. by destruct (Z.even _). }
  simpl. unfold binary_round_aux.
  replace e' with (e - (e - e')) at 2 by lia.
  rewrite shr_fexp_exact by (lia || done). simpl.
  replace (Zpos m) with (Zpos m * 2 ^ 0) by lia.
  replace e with (e - 0) at 1 by lia.
  rewrite shr_fexp_exact by (lia || done). simpl.
  destruct (e <=? emax - prec) eqn:Hle; [done|].
  apply Z.leb_gt in Hle. lia.
Qed.

(** ** Trailing zeros of a decimal mantissa *)

Lemma strip_zeros_spec fuel m e m' e' :
  (0 < m)%N -> (m < 2 ^ N.of_nat fuel)%N ->
  strip_zeros fuel m e = (m', e') ->
  (m' mod 10 <> 0)%N /\ e <= e' /\ Z.of_N m = Z.of_N m' * 10 ^ (e' - e).
Proof.
  revert m e. induction fuel as [|fuel IH]; intros m e Hm Hf; simpl; [simpl in Hf; lia|].
  destruct (N.eqb_spec m 0); [lia|].
  destruct (N.eqb_spec (m mod 10) 0) as [Hz|Hz].
  - intros Hs. pose proof (N.div_mod m 10 ltac:(lia)) as Hdm.
    rewrite Nat2N.inj_succ, N.pow_succ_r' in Hf.
    apply IH in Hs as (H1 & H2 & H3); [|lia|].
    + split; [done|]. split; [lia|].
      replace (e' - e) with (Z.succ (e' - (e + 1))) by lia.
      rewrite Z.pow_succ_r by lia. rewrite Hz, N.add_0_r in Hdm. rewrite Hdm at 1.
      rewrite N2Z.inj_mul, H3. lia.
    + apply N.Div0.div_lt_upper_bound. lia.
  - intros [= <- <-]. split; [done|]. split; [lia|]. rewrite Z.sub_diag. lia.
Qed.

Lemma size_nat_bound m : (m < 2 ^ N.of_nat (S (N.size_nat m)))%N.
Proof.
  rewrite Nat2N.inj_succ, N.pow_succ_r'.
  destruct m as [|p]; [simpl; lia|].
  replace (N.of_nat (N.size_nat (Npos p))) with (N.size (Npos p)).
  - pose proof (N.size_gt (Npos p)). lia.
  - change (N.pos (Pos.size p) = N.of_nat (Pos.size_nat p)).
    induction p as [p IH|p IH|]; [| |done];
      change (Pos.size_nat _) with (S (Pos.size_nat p)); rewrite Nat2N.inj_succ, <- IH; done.
Qed.

Lemma strip_spec m e m' e' :
  (0 < m)%N -> strip m e = (m', e') ->
  (m' mod 10 <> 0)%N /\ e <= e' /\ Z.of_N m = Z.of_N m' * 10 ^ (e' - e).
Proof. intros Hm. by apply strip_zeros_spec, size_nat_bound. Qed.

(** The stripped form of a decimal is unique. *)
Lemma strip_unique m1 e1 m2 e2 :
  (m1 mod 10 <> 0)%N -> (m2 mod 10 <> 0)%N -> e1 <= e2 ->
  Z.of_N m1 = Z.of_N m2 * 10 ^ (e2 - e1) -> m1 = m2 /\ e1 = e2.
Proof.
  intros H1 H2 He Heq. destruct (Z.eq_dec e1 e2) as [->|Hne].
  - rewrite Z.sub_diag in Heq. lia.
  - exfalso. apply H1. apply N2Z.inj. rewrite N2Z.inj_mod, Heq.
    replace (e2 - e1) with (Z.succ (e2 - e1 - 1)) by lia.
    rewrite Z.pow_succ_r by lia.
    replace (Z.of_N m2 * (10 * 10 ^ (e2 - e1 - 1)))
      with (Z.of_N m2 * 10 ^ (e2 - e1 - 1) * 10) by lia.
    by rewrite Z.mod_mul.
Qed.

Lemma strip_scale m e j :
  (0 < m)%N -> 0 <= j -> strip (Z.to_N (Z.of_N m * 10 ^ j)) e = strip m (e + j).
Proof.
  intros Hm Hj. assert (0 < 10 ^ j) by lia.
  destruct (strip _ e) as [m1 e1] eqn:H1. destruct (strip m (e + j)) as [m2 e2] eqn:H2.
  apply strip_spec in H1 as (N1 & L1 & E1); [|nia].
  apply strip_spec in H2 as (N2 & L2 & E2); [|done].
  rewrite Z2N.id in E1 by nia. rewrite E2 in E1.
  assert (Z.of_N m2 * 10 ^ (e2 - e) = Z.of_N m1 * 10 ^ (e1 - e)) as Hq.
  { rewrite <- E1, <- Z.mul_assoc, <- Z.pow_add_r by lia. do 2 f_equal. lia. }
  destruct (Z.le_ge_cases e1 e2) as [Hle|Hle].
  - destruct (strip_unique m1 e1 m2 e2) as [-> ->]; try done.
    apply (Z.mul_reg_r _ _ (10 ^ (e1 - e))); [lia|].
    rewrite <- Hq, <- Z.mul_assoc, <- Z.pow_add_r by lia. do 2 f_equal. lia.
  - destruct (strip_unique m2 e2 m1 e1) as [-> ->]; try done.
    apply (Z.mul_reg_r _ _ (10 ^ (e2 - e))); [lia|].
    rewrite Hq, <- Z.mul_assoc, <- Z.pow_add_r by lia. do 2 f_equal. lia.
Qed.

Lemma mod10_pos s : (s mod 10 <> 0)%N -> (0 < s)%N.
Proof. intros H. destruct (N.eq_0_gt_0_cases s) as [->|]; [by destruct H|done]. Qed.

Lemma strip_idemp m e m' e' : (0 < m)%N -> strip m e = (m', e') -> strip m' e' = (m', e').
Proof.
  intros Hm Hs. pose proof Hs as (H1 & H2 & H3)%strip_spec; [|done].
  pose proof (mod10_pos m' H1).
  rewrite <- Hs. replace e' with (e + (e' - e)) at 1 by lia.
  rewrite <- strip_scale by lia. rewrite <- H3. by rewrite N2Z.id.
Qed.

Lemma dec_to_f64_strip m e m' e' :
  (0 < m)%N -> strip m e = (m', e') -> dec_to_f64 m' e' = dec_to_f64 m e.
Proof. intros Hm Hs. unfold dec_to_f64. by rewrite (strip_idemp _ _ _ _ Hm Hs), Hs. Qed.

(** ** The exact decimal expansion reads back *)

Lemma bounded_limits m e :
  bounded prec emax m e = true -> Zpos m < 2 ^ 53 /\ -1074 <= e <= 971.
Proof.
  unfold bounded, canonical_mantissa. intros [Hc%Z.eqb_eq He%Z.leb_le]%andb_true_iff.
  pose proof (digits2_pos_bounds m) as [_ H2]. unfold fexp, emin, prec, emax in *.
  split; [|lia]. eapply Z.lt_le_trans; [exact H2|]. apply Z.pow_le_mono_r; lia.
Qed.

Lemma scaled_up_not_lt p a b : 0 < a -> 0 < b -> ~ Zpos p * a * b < a.
Proof. intros. assert (a <= Zpos p * a) by nia. nia. Qed.

Lemma dec_to_f64_ratio s x m e :
  (s mod 10 <> 0)%N -> bounded prec emax m e = true ->
  Z.of_N s * 10 ^ Z.max 0 x * ratio_den e = ratio_num m e * 10 ^ Z.max 0 (- x) ->
  dec_to_f64 s x = S754_finite false m e.
Proof.
  intros Hs Hb Heq. pose proof (mod10_pos s Hs).
  assert (strip s x = (s, x)) as Hstrip.
  { destruct (strip s x) as [m' e'] eqn:Hst. pose proof Hst as (A & B & C)%strip_spec; [|done].
    by destruct (strip_unique s x m' e') as [-> ->]. }
  unfold dec_to_f64. rewrite Hstrip. destruct s as [|p]; [lia|]. simpl Z.of_N in *.
  pose proof (bounded_limits m e Hb) as [Hm He].
  unfold ratio_num, ratio_den in Heq.
  assert (0 < 2 ^ Z.max 0 e) by lia. assert (0 < 2 ^ Z.max 0 (- e)) by lia.
  destruct (Z.ltb_spec 400 x) as [Hx|Hx].
  { exfalso. rewrite (Z.max_r 0 x), (Z.max_l 0 (- x)), Z.pow_0_r in Heq by lia.
    assert (Zpos m * 2 ^ Z.max 0 e < 10 ^ x) as Hup.
    { apply Z.lt_le_trans with (2 ^ 53 * 2 ^ 971).
      - apply Z.lt_le_trans with (2 ^ 53 * 2 ^ Z.max 0 e).
        + by apply Z.mul_lt_mono_pos_r.
        + apply Z.mul_le_mono_nonneg_l; [done|]. apply Z.pow_le_mono_r; lia.
      - transitivity (10 ^ 400); [by vm_compute|]. apply Z.pow_le_mono_r; lia. }
    assert (0 < 10 ^ x) by (apply Z.pow_pos_nonneg; lia).
    rewrite Z.mul_1_r in Heq. rewrite <- Heq in Hup. by apply scaled_up_not_lt in Hup. }
  destruct (Z.ltb_spec (x + Z.log2 (Zpos p) + 1) (-400)) as [Hl|Hl].
  { exfalso. pose proof (Z.log2_spec (Zpos p) ltac:(lia)) as [_ HL].
    pose proof (Z.log2_nonneg (Zpos p)) as HL0.
    rewrite (Z.max_l 0 x), (Z.max_r 0 (- x)), Z.pow_0_r, Z.mul_1_r in Heq by lia.
    assert (Zpos p * 2 ^ Z.max 0 (- e) < 10 ^ (Z.succ (Z.log2 (Zpos p)) + 400)) as Hup.
    { rewrite Z.pow_add_r by lia. apply Z.mul_lt_mono_nonneg; [done| |by apply Z.lt_le_incl|].
      - eapply Z.lt_le_trans; [exact HL|]. apply Z.pow_le_mono_l; lia.
      - apply Z.le_lt_trans with (2 ^ 1074); [apply Z.pow_le_mono_r; lia | by vm_compute]. }
    assert (0 < 10 ^ (- x)) by (apply Z.pow_pos_nonneg; lia).
    assert (10 ^ (- x) < 10 ^ (Z.succ (Z.log2 (Zpos p)) + 400)) as Hlt.
    { rewrite Heq in Hup. apply Z.nle_gt. intros Hge.
      assert (Zpos m * 10 ^ (- x) * 2 ^ Z.max 0 e < 10 ^ (- x)) as Hc by lia.
      by apply scaled_up_not_lt in Hc. }
    apply Z.pow_lt_mono_r_iff in Hlt; lia. }
  apply round_ratio_exact; [done|]. unfold ratio_num, ratio_den.
  rewrite Pos2Z.inj_mul, !Z2Pos.id by lia. exact Heq.
Qed.

Lemma exact_decimal_reads m e s x :
  bounded prec emax m e = true -> exact_decimal m e = (s, x) ->
  (0 < s)%N /\ dec_to_f64 s x = S754_finite false m e.
Proof.
  intros Hb. unfold exact_decimal.
  destruct (Z.leb_spec 0 e) as [He|He]; intros Hs.
  - apply strip_spec in Hs as (H1 & H2 & H3); [|assert (0 < 2 ^ e) by lia; lia].
    rewrite Z2N.id, Z.sub_0_r in H3 by (assert (0 < 2 ^ e) by lia; lia).
    split; [by apply mod10_pos|]. apply dec_to_f64_ratio; [done..|].
    unfold ratio_num, ratio_den.
    rewrite (Z.max_r 0 x), (Z.max_r 0 e), (Z.max_l 0 (- e)), (Z.max_l 0 (- x)), H3 by lia. lia.
  - assert (0 < 5 ^ (- e)) by (apply Z.pow_pos_nonneg; lia).
    apply strip_spec in Hs as (H1 & H2 & H3); [|lia]. rewrite Z2N.id in H3 by lia.
    split; [by apply mod10_pos|]. apply dec_to_f64_ratio; [done..|].
    unfold ratio_num, ratio_den.
    rewrite (Z.max_l 0 e), (Z.max_r 0 (- e)), Z.pow_0_r, Z.mul_1_r by lia.
    apply (Z.mul_reg_r _ _ (5 ^ (- e))); [lia|].
    transitivity (Z.of_N s * 10 ^ (Z.max 0 x + - e)).
    { rewrite Z.pow_add_r by lia.
      assert (10 ^ (- e) = 2 ^ (- e) * 5 ^ (- e)) as -> by (by rewrite <- Z.pow_mul_l). lia. }
    transitivity (Zpos m * 5 ^ (- e) * 10 ^ Z.max 0 (- x)); [|lia].
    rewrite H3, <- Z.mul_assoc, <- Z.pow_add_r by lia. do 2 f_equal. lia.
Qed.

Lemma reads_as_dec m e s x :
  reads_as (S754_finite false m e) s x = true ->
  0 < s /\ dec_to_f64 (Z.to_N s) x = S754_finite false m e.
Proof.
  unfold reads_as. intros [H1%Z.ltb_lt H2]%andb_true_iff. split; [done|].
  destruct (dec_to_f64 (Z.to_N s) x) as [| | |[] m' e']; try done.
  apply andb_true_iff in H2 as [->%Pos.eqb_eq ->%Z.eqb_eq]. done.
Qed.

Lemma strip_reads m e a b s x :
  reads_as (S754_finite false m e) a b = true -> strip (Z.to_N a) b = (s, x) ->
  (0 < s)%N /\ dec_to_f64 s x = S754_finite false m e.
Proof.
  intros [Ha Hr]%reads_as_dec Hs.
  rewrite (dec_to_f64_strip (Z.to_N a) b s x) by (lia || done).
  split; [|done]. apply strip_spec in Hs as (Hs & _); [by apply mod10_pos|lia].
Qed.

Lemma shortest_from_reads fuel k m e p q n s x :
  bounded prec emax m e = true ->
  shortest_from fuel k (S754_finite false m e) p q n (exact_decimal m e) = (s, x) ->
  (0 < s)%N /\ dec_to_f64 s x = S754_finite false m e.
Proof.
  intros Hb. revert k. induction fuel as [|fuel IH]; intros k; cbn [shortest_from];
    [by apply exact_decimal_reads|].
  destruct (neighbours p q (k - n)) as [lo near].
  destruct (reads_as (S754_finite false m e) lo (n - k)) eqn:Hlo,
    (reads_as (S754_finite false m e) (lo + 1) (n - k)) eqn:Hhi; simpl;
    rewrite ?orb_true_r, ?orb_false_r; [case_match| | |]; eauto using strip_reads.
Qed.

(** The digits [String(x)] prints read back as [x]. *)
Lemma shortest_reads m e s x :
  bounded prec emax m e = true -> shortest m e = (s, x) ->
  (0 < s)%N /\ dec_to_f64 s x = S754_finite false m e.
Proof. apply shortest_from_reads. Qed.

(** ** Decimal digits of integers *)

Lemma digits_val_app a b :
  digits_val (a ++ b) = (digits_val a * 10 ^ N.of_nat (length b) + digits_val b)%N.
Proof.
  unfold digits_val. rewrite foldl_app. generalize (foldl (fun a c => (10 * a + digit_val c)%N) 0%N a).
  induction b as [|c b IH] using rev_ind; intros n; [simpl; lia|].
  rewrite !foldl_app. simpl. rewrite IH, length_app. simpl.
  replace (N.of_nat (length b + 1)) with (N.succ (N.of_nat (length b))) by lia.
  rewrite N.pow_succ_r'. lia.
Qed.

Lemma digits_rev_digit fuel n : Forall (fun c => is_digit c = true) (digits_rev fuel n).
Proof.
  revert n. induction fuel as [|fuel IH]; intros n; simpl; [constructor|].
  assert (is_digit (48 + n mod 10) = true).
  { unfold is_digit. rewrite andb_true_iff, !N.leb_le.
    pose proof (N.mod_lt n 10 ltac:(lia)) as Hr. generalize dependent (n mod 10)%N. lia. }
  destruct (n <? 10)%N; constructor; auto.
Qed.

Lemma N_digits_digit n : Forall (fun c => is_digit c = true) (N_digits n).
Proof. apply Forall_rev, digits_rev_digit. Qed.

Lemma digits_rev_val fuel n : (n < 2 ^ N.of_nat fuel)%N -> (0 < fuel)%nat ->
  digits_val (rev (digits_rev fuel n)) = n.
Proof.
  revert n. induction fuel as [|fuel IH]; intros n Hn Hf; [lia|]. simpl.
  pose proof (N.mod_lt n 10 ltac:(lia)). pose proof (N.div_mod n 10 ltac:(lia)).
  destruct (N.ltb_spec n 10) as [Hlt|Hge].
  - rewrite N.mod_small by done. unfold digits_val, digit_val. simpl. lia.
  - rewrite Nat2N.inj_succ, N.pow_succ_r' in Hn.
    assert (n / 10 < 2 ^ N.of_nat fuel)%N by (apply N.Div0.div_lt_upper_bound; lia).
    assert (0 < fuel)%nat by (destruct fuel; [simpl in *; lia|lia]).
    simpl. rewrite digits_val_app, IH by done.
    unfold digits_val, digit_val. simpl.
    generalize dependent (n mod 10)%N. generalize dependent (n / 10)%N. lia.
Qed.

Lemma digits_val_N_digits n : digits_val (N_digits n) = n.
Proof. apply digits_rev_val; [apply size_nat_bound|lia]. Qed.

Lemma N_digits_cons n : exists c l, N_digits n = c :: l.
Proof.
  unfold N_digits. destruct (rev (digits_rev (S (N.size_nat n)) n)) as [|c l] eqn:Hr; [|eauto].
  apply (f_equal (@length N)) in Hr. rewrite length_rev in Hr. simpl in Hr.
  destruct (n <? 10)%N; discriminate.
Qed.

Lemma zeros_digit n : Forall (fun c => is_digit c = true) (zeros n).
Proof. by apply Forall_replicate. Qed.

Lemma digits_val_zeros n : digits_val (zeros n) = 0%N.
Proof. unfold digits_val. induction n as [|n IH]; [done|]. exact IH. Qed.

#[export] Hint Resolve N_digits_digit zeros_digit Forall_app_2 : js.

(** ** Reading back the layout of [Number::toString] *)

(** What may follow the digits of a number: nothing, or an exponent. *)
Definition is_tail (t : jstr) : Prop :=
  match t with [] => True | c :: _ => c = 101%N end.

Lemma is_tail_stop t : is_tail t -> match t with c :: _ => is_digit c = false | [] => True end.
Proof. destruct t; simpl; [done|]. by intros ->. Qed.

Definition with_tail (m : N) (e : Z) (whole : bool) (t : jstr) : decimal :=
  match scan_exponent t with
  | Some (x, r) => {| dec_m := m; dec_e := e + x; dec_integer := false; dec_rest := r |}
  | None => {| dec_m := m; dec_e := e; dec_integer := whole; dec_rest := t |}
  end.

Lemma scan_decimal_whole ip t :
  ip <> [] -> Forall (fun c => is_digit c = true) ip -> is_tail t ->
  scan_decimal (ip ++ t) = Some (with_tail (digits_val ip) 0 true t).
Proof.
  intros Hne Hip Ht. unfold scan_decimal.
  rewrite span_while_all by (done || by apply is_tail_stop).
  assert (scan_fraction t = None) as ->.
  { destruct t as [|c t]; simpl in *; [done|]. by rewrite Ht. }
  destruct ip; [done|]. rewrite app_nil_r. unfold with_tail.
  by destruct (scan_exponent t) as [[]|].
Qed.

Lemma scan_decimal_point ip fp t :
  ip <> [] -> Forall (fun c => is_digit c = true) ip ->
  Forall (fun c => is_digit c = true) fp -> is_tail t ->
  scan_decimal (ip ++ js "." ++ fp ++ t)
  = Some (with_tail (digits_val (ip ++ fp)) (- Z.of_nat (length fp)) false t).
Proof.
  intros Hne Hip Hfp Ht. unfold scan_decimal.
  rewrite span_while_all by done.
  assert (scan_fraction (js "." ++ fp ++ t) = Some (fp, t)) as ->.
  { simpl. by rewrite span_while_all by (done || by apply is_tail_stop). }
  destruct ip; [done|]. unfold with_tail.
  by destruct (scan_exponent t) as [[]|].
Qed.

Definition exponent_text (x : Z) : jstr :=
  js "e" ++ (if x <? 0 then js "-" else js "+") ++ N_digits (Z.to_N (Z.abs x)).

Lemma scan_exponent_text x : scan_exponent (exponent_text x) = Some (x, []).
Proof.
  unfold exponent_text, scan_exponent. simpl.
  assert (Hsp : span_while is_digit (N_digits (Z.to_N (Z.abs x)))
                = (N_digits (Z.to_N (Z.abs x)), [])).
  { rewrite <- (app_nil_r (N_digits _)) at 1. by apply span_while_all; [apply N_digits_digit|]. }
  destruct (N_digits_cons (Z.to_N (Z.abs x))) as (c & l & Hc).
  destruct (Z.ltb_spec x 0); simpl; rewrite Hsp, Hc, <- Hc, digits_val_N_digits; do 2 f_equal; lia.
Qed.

(** [t] is a number text whose decimal value is [s * 10 ^ e]. *)
Definition reads_dec (t : jstr) (s : N) (e : Z) : Prop :=
  exists d, scan_decimal t = Some d /\ dec_rest d = [] /\
    strip (dec_m d) (dec_e d) = strip s e.

Lemma reads_dec_whole s e : (0 < s)%N -> 0 <= e ->
  reads_dec (N_digits s ++ zeros (Z.to_nat e)) s e.
Proof.
  intros Hs He. eexists. rewrite <- (app_nil_r (_ ++ _)).
  rewrite scan_decimal_whole; [|destruct (N_digits_cons s) as (? & ? & ->); done|auto with js|done].
  split; [done|]. split; [done|]. simpl.
  rewrite digits_val_app, digits_val_N_digits, digits_val_zeros. unfold zeros.
  change (strip s e) with (strip s (0 + e)).
  rewrite length_replicate, N.add_0_r, <- (strip_scale s 0 e) by done.
  f_equal. apply N2Z.inj. rewrite N2Z.inj_mul, N2Z.inj_pow, Z2N.id by lia.
  do 2 f_equal. lia.
Qed.

Lemma reads_dec_point s e n : n <> O -> (n < length (N_digits s))%nat ->
  e = Z.of_nat n - Z.of_nat (length (N_digits s)) ->
  reads_dec (take n (N_digits s) ++ js "." ++ drop n (N_digits s)) s e.
Proof.
  intros Hn Hl ->. pose proof (N_digits_digit s) as Hd. eexists.
  rewrite <- (app_nil_r (drop n _)). rewrite scan_decimal_point; [| | | |done].
  - split; [done|]. split; [done|]. simpl. rewrite take_drop, digits_val_N_digits, length_drop.
    f_equal. lia.
  - destruct (N_digits_cons s) as (? & ? & ->). by destruct n.
  - by apply Forall_take.
  - by apply Forall_drop.
Qed.

Lemma reads_dec_small s e j :
  e = - Z.of_nat j - Z.of_nat (length (N_digits s)) ->
  reads_dec (js "0." ++ zeros j ++ N_digits s) s e.
Proof.
  intros ->. eexists. change (js "0.") with (js "0" ++ js ".").
  rewrite <- (app_nil_r (zeros j ++ _)), <- (app_assoc (js "0")).
  rewrite scan_decimal_point by (auto with js || done || by repeat constructor).
  split; [done|]. split; [done|]. cbn [with_tail scan_exponent dec_m dec_e].
  rewrite digits_val_app, digits_val_app, digits_val_N_digits, digits_val_zeros.
  rewrite length_app. unfold zeros. rewrite length_replicate. simpl. f_equal. lia.
Qed.

Lemma reads_dec_exponent s e :
  let ds := N_digits s in
  reads_dec (match ds with d :: ((_ :: _) as l) => d :: js "." ++ l | _ => ds end
             ++ exponent_text (e + Z.of_nat (length ds) - 1)) s e.
Proof.
  intros ds. pose proof (N_digits_digit s) as Hd. pose proof (digits_val_N_digits s) as Hv.
  destruct (N_digits_cons s) as (c & l & Hc). fold ds in Hd, Hc, Hv. rewrite Hc in *.
  set (x := e + _ - 1). destruct l as [|c' l]; eexists.
  - rewrite scan_decimal_whole by done. unfold with_tail. rewrite scan_exponent_text.
    split; [done|]. split; [done|]. simpl dec_m. simpl dec_e. rewrite Hv. f_equal.
    unfold x. simpl. lia.
  - change ((c :: js "." ++ c' :: l) ++ ?t) with ([c] ++ js "." ++ (c' :: l) ++ t).
    inversion Hd. rewrite scan_decimal_point by (done || by repeat constructor).
    unfold with_tail. rewrite scan_exponent_text.
    split; [done|]. split; [done|]. simpl dec_m. simpl dec_e.
    change ([c] ++ c' :: l) with (c :: c' :: l). rewrite Hv. f_equal.
    unfold x. simpl length. lia.
Qed.

Lemma layout_scan s e : (0 < s)%N -> reads_dec (layout s e) s e.
Proof.
  intros Hs. unfold layout.
  destruct (N_digits_cons s) as (c & l & Hc).
  assert (Hk : 0 < Z.of_nat (length (N_digits s))) by (rewrite Hc; simpl; lia).
  case_match; [|case_match; [|case_match; [|apply reads_dec_exponent]]];
    rewrite ?andb_true_iff, ?andb_false_iff, ?Z.leb_le, ?Z.ltb_lt, ?Z.leb_gt, ?Z.ltb_ge in *.
  - replace (e + _ - _) with e by lia. apply reads_dec_whole; [done|lia].
  - apply reads_dec_point; lia.
  - apply reads_dec_small; lia.
Qed.

(** ** [String(x)] is read back by the number pattern *)

Definition is_num_char (c : N) : bool := is_digit c || (c =? 46)%N || (c =? 101)%N
  || (c =? 43)%N || (c =? 45)%N.

Lemma digits_num_chars l : Forall (fun c => is_digit c = true) l ->
  Forall (fun c => is_num_char c = true) l.
Proof. intros H. eapply Forall_impl; [exact H|]. intros c Hc. unfold is_num_char. by rewrite Hc. Qed.

Lemma N_digits_num n : Forall (fun c => is_num_char c = true) (N_digits n).
Proof. apply digits_num_chars, N_digits_digit. Qed.

Lemma zeros_num n : Forall (fun c => is_num_char c = true) (zeros n).
Proof. apply digits_num_chars, zeros_digit. Qed.

#[export] Hint Resolve N_digits_num zeros_num Forall_take Forall_drop Forall_nil_2 Forall_cons_2 : js.

Lemma layout_chars s e : Forall (fun c => is_num_char c = true) (layout s e).
Proof.
  unfold layout. pose proof (N_digits_num s) as Hd.
  repeat case_match; simpl; repeat (apply Forall_app_2 || apply Forall_cons_2); try done;
    auto with js; inversion_clear Hd as [|? ? ? Hd']; try done; by inversion_clear Hd'.
Qed.

Lemma layout_head s e : exists c l, layout s e = c :: l /\ is_digit c = true.
Proof.
  unfold layout. pose proof (N_digits_digit s) as Hd.
  destruct (N_digits_cons s) as (c & l & Hc). rewrite Hc in Hd |- *.
  inversion Hd; subst. set (k := Z.of_nat (length (c :: l))). case_match; [by eexists _, _|].
  case_match.
  - rewrite andb_true_iff, Z.ltb_lt in *. destruct (Z.to_nat (e + k)) eqn:?; [lia|].
    by eexists _, _.
  - case_match; [by eexists _, _|]. destruct l; by eexists _, _.
Qed.

Lemma num_char_not_space c : is_num_char c = true -> is_space c = false.
Proof.
  unfold is_num_char, is_digit, is_space. intros H.
  repeat match goal with
  | H : _ || _ = true |- _ => apply orb_true_iff in H as [H|H]
  | H : _ && _ = true |- _ => apply andb_true_iff in H as [? ?]
  end; rewrite ?N.leb_le, ?N.eqb_eq in *; subst; try done.
  repeat match goal with
  | |- _ || _ = false => apply orb_false_iff; split
  | |- _ && _ = false => apply andb_false_iff
  | |- (_ =? _)%N = false => apply N.eqb_neq; lia
  end; rewrite ?N.leb_gt; lia.
Qed.

Lemma drop_spaces_id l : match l with c :: _ => is_space c = false | [] => True end ->
  drop_spaces l = l.
Proof. destruct l as [|c l]; [done|]. unfold drop_spaces. simpl. by intros ->. Qed.

Lemma trim_id l : Forall (fun c => is_space c = false) l -> trim l = l.
Proof.
  intros Hl. unfold trim. rewrite (drop_spaces_id l) by (by destruct Hl).
  rewrite (drop_spaces_id (rev l)); [apply rev_involutive|].
  apply Forall_rev in Hl. by destruct Hl.
Qed.

(** The shape of a text that the unsigned number grammar accepts and that has
    no sign, blank or radix prefix. *)
Lemma number_of_string_plain l d :
  Forall (fun c => is_num_char c = true) l ->
  (exists c l', l = c :: l' /\ is_digit c = true) ->
  scan_decimal l = Some d -> dec_rest d = [] ->
  number_of_string l = decimal_value d.
Proof.
  intros Hl (c & l' & -> & Hc) Hs Hr. unfold number_of_string.
  rewrite trim_id by (eapply Forall_impl; [exact Hl|]; apply num_char_not_space).
  assert (jeqb (c :: l') (js "Infinity") = false) as Hinf.
  { apply jeqb_neq. intros [= -> _]. done. }
  rewrite Hinf, Hs, Hr.
  assert (c <> 43%N /\ c <> 45%N) as [H1 H2] by (split; by intros ->).
  assert (forall x, x ∈ l' -> (x =? 120)%N || (x =? 88)%N = false
            /\ (x =? 111)%N || (x =? 79)%N = false /\ (x =? 98)%N || (x =? 66)%N = false) as Hx.
  { intros x Hin. inversion_clear Hl as [|? ? _ Hl']. rewrite Forall_forall in Hl'.
    specialize (Hl' x Hin). unfold is_num_char, is_digit in Hl'.
    rewrite !orb_false_iff, !N.eqb_neq. repeat split; intros ->; done. }
  destruct (decide (c = 48%N)) as [->|H3].
  - destruct l' as [|x [|y l'']]; try done.
    destruct (Hx x) as (-> & -> & ->); [by left|done].
  - repeat (case_match; simplify_eq; try done).
Qed.

(** [Number(String(x)) = x] for a finite, non-negative number, and the number
    pattern of the sources accepts the whole of [String(x)]. *)
Lemma number_to_string_reads x :
  valid_binary prec emax x = true -> is_finite x = true -> fleb fzero x = true ->
  exists d, scan_decimal (number_to_string x) = Some d /\ dec_rest d = [] /\
    decimal_value d = SFabs x /\ number_of_string (number_to_string x) = SFabs x /\
    trim (number_to_string x) = number_to_string x.
Proof.
  destruct x as [b|b| |[] m e]; try done.
  { intros _ _ _. exists {| dec_m := 0; dec_e := 0; dec_integer := true; dec_rest := [] |}. done. }
  simpl valid_binary. intros Hb _ _.
  simpl. destruct (shortest m e) as [s x10] eqn:Hsh.
  destruct (shortest_reads m e s x10 Hb Hsh) as [Hs Hv].
  destruct (layout_scan s x10 Hs) as (d & Hd1 & Hd2 & Hd3).
  assert (decimal_value d = S754_finite false m e) as Hdv.
  { unfold decimal_value, dec_to_f64 in *. by rewrite Hd3. }
  exists d. split; [done|]. split; [done|]. split; [done|]. split.
  - rewrite <- Hdv. apply number_of_string_plain; [apply layout_chars| |done..].
    destruct (layout_head s x10) as (c & l & ? & ?). eauto.
  - apply trim_id. eapply Forall_impl; [apply layout_chars|]. apply num_char_not_space.
Qed.

(** ** Rounding yields canonical numbers *)

Lemma shr_1_div mrs : 0 <= shr_m mrs -> shr_m (shr_1 mrs) = shr_m mrs / 2.
Proof.
  destruct mrs as [m r s]. simpl. intros Hm. rewrite <- Z.div2_div.
  destruct m as [|[p|p|]|p]; try done; lia.
Qed.

Lemma shr_iter_div n mrs : 0 <= shr_m mrs ->
  shr_m (Nat.iter n shr_1 mrs) = shr_m mrs / 2 ^ Z.of_nat n.
Proof.
  intros Hm. induction n as [|n IH]; [simpl; by rewrite Z.div_1_r|].
  rewrite Nat2Z.inj_succ, Z.pow_succ_r by lia. simpl.
  rewrite shr_1_div, IH.
  - rewrite Z.div_div by lia. f_equal. lia.
  - rewrite IH. apply Z.div_pos; lia.
Qed.

Lemma shr_fexp_spec m e l : 0 <= m -> e <= fexp prec emax (Zdigits2 m + e) ->
  shr_m (fst (shr_fexp prec emax m e l)) = m / 2 ^ (fexp prec emax (Zdigits2 m + e) - e)
  /\ snd (shr_fexp prec emax m e l) = fexp prec emax (Zdigits2 m + e).
Proof.
  intros Hm He. unfold shr_fexp, shr.
  assert (shr_m (shr_record_of_loc m l) = m) as Hr by (by destruct l as [|[]]).
  set (n := fexp _ _ _ - e) in *. assert (0 <= n) by lia.
  destruct n as [|p|p] eqn:Hn; [|simpl|lia].
  - simpl. rewrite Hr. rewrite Z.div_1_r. lia.
  - rewrite iter_pos_nat, shr_iter_div, positive_nat_Z, Hr by lia. split; [done|lia].
Qed.

Lemma Zdigits2_spec m : 0 < m -> 2 ^ (Zdigits2 m - 1) <= m < 2 ^ Zdigits2 m.
Proof. destruct m; try lia. intros _. apply digits2_pos_bounds. Qed.

Lemma Zdigits2_unique m d : 0 < d -> 2 ^ (d - 1) <= m < 2 ^ d -> Zdigits2 m = d.
Proof.
  intros Hd [H1 H2]. assert (0 < 2 ^ (d - 1)) by (apply Z.pow_pos_nonneg; lia).
  destruct m; try lia. by apply digits2_pos_unique.
Qed.

Lemma Zdigits2_pos m : 0 < m -> 0 < Zdigits2 m.
Proof. destruct m; simpl; lia. Qed.

Lemma Zdigits2_div m n : 0 < m -> 0 <= n -> n < Zdigits2 m -> Zdigits2 (m / 2 ^ n) = Zdigits2 m - n.
Proof.
  intros Hm Hn Hlt. pose proof (Zdigits2_spec m Hm) as [H1 H2].
  apply Zdigits2_unique; [lia|]. split.
  - apply Z.div_le_lower_bound; [lia|]. rewrite <- Z.pow_add_r by lia.
    by replace (n + (Zdigits2 m - n - 1)) with (Zdigits2 m - 1) by lia.
  - apply Z.div_lt_upper_bound; [lia|]. rewrite <- Z.pow_add_r by lia.
    by replace (n + (Zdigits2 m - n)) with (Zdigits2 m) by lia.
Qed.

(** The mantissa [m] and exponent [e] are already at the exponent the format
    gives them, or the mantissa is zero. *)
Definition settled (m e : Z) : Prop := m = 0 \/ (0 < m /\ fexp prec emax (Zdigits2 m + e) = e).

Lemma shr_fexp_settled m e l : 0 < m -> e <= fexp prec emax (Zdigits2 m + e) ->
  let '(mrs, e') := shr_fexp prec emax m e l in
  settled (shr_m mrs) e' /\ (shr_m mrs = 0 -> e' = emin prec emax).
Proof.
  intros Hm He. destruct (shr_fexp_spec m e l ltac:(lia) He) as [H1 H2].
  destruct (shr_fexp prec emax m e l) as [mrs e']. simpl in *. subst e'.
  set (E := fexp prec emax (Zdigits2 m + e)) in *.
  pose proof (Zdigits2_pos m Hm). pose proof (Zdigits2_spec m Hm) as [B1 B2].
  destruct (Z.lt_ge_cases (E - e) (Zdigits2 m)) as [Hlt|Hge].
  - assert (Zdigits2 (shr_m mrs) = Zdigits2 m - (E - e)) as Hd
      by (rewrite H1; apply Zdigits2_div; lia).
    assert (0 < shr_m mrs).
    { destruct (shr_m mrs); simpl in *; try lia. rewrite H1 in *.
      exfalso. assert (0 <= m / 2 ^ (E - e)) by (apply Z.div_pos; lia). lia. }
    split; [|lia]. right. split; [done|]. rewrite Hd.
    by replace (Zdigits2 m - (E - e) + E) with (Zdigits2 m + e) by lia.
  - assert (shr_m mrs = 0) as Hz.
    { rewrite H1. apply Z.div_small. split; [lia|]. eapply Z.lt_le_trans; [exact B2|].
      apply Z.pow_le_mono_r; lia. }
    split; [by left|]. intros _. unfold E, fexp, prec in *. lia.
Qed.

Lemma round_step m e l : settled m e -> (m = 0 -> e = emin prec emax) ->
  let m' := round_nearest_even m l in
  0 <= m' /\ (0 < m' -> e <= fexp prec emax (Zdigits2 m' + e)).
Proof.
  intros Hs Hz.
  assert (Hcase : forall k, k = m \/ k = m + 1 ->
            0 <= k /\ (0 < k -> e <= fexp prec emax (Zdigits2 k + e))).
  { intros k Hk. destruct Hs as [->|[Hm Hc]].
    - specialize (Hz eq_refl). subst e. unfold fexp. lia.
    - split; [lia|]. intros _. rewrite <- Hc at 1. unfold fexp.
      assert (Zdigits2 m <= Zdigits2 k); [|lia].
      pose proof (Zdigits2_spec m Hm) as [A1 _].
      pose proof (Zdigits2_spec k ltac:(lia)) as [_ A2].
      assert (Zdigits2 m - 1 < Zdigits2 k); [|lia].
      pose proof (Zdigits2_pos k ltac:(lia)).
      apply (Z.pow_lt_mono_r_iff 2); lia. }
  apply Hcase. unfold round_nearest_even. repeat case_match; auto.
Qed.

Lemma binary_round_aux_valid s m e l :
  0 < m /\ e <= fexp prec emax (Zdigits2 m + e) \/ m = 0 /\ e = emin prec emax ->
  valid_binary prec emax (binary_round_aux prec emax s m e l) = true.
Proof.
  intros Hpre. unfold binary_round_aux.
  assert (let '(mrs, e') := shr_fexp prec emax m e l in
          settled (shr_m mrs) e' /\ (shr_m mrs = 0 -> e' = emin prec emax)) as H1.
  { destruct Hpre as [[Hm He]|[-> ->]]; [by apply shr_fexp_settled|].
    destruct l as [|[]]; split; by try left. }
  destruct (shr_fexp prec emax m e l) as [mrs e1]. destruct H1 as [Hs1 Hz1].
  destruct (round_step (shr_m mrs) e1 (loc_of_shr_record mrs) Hs1 Hz1) as [Hp Hle].
  set (m1 := round_nearest_even _ _) in *.
  destruct (Z.eq_dec m1 0) as [->|Hne].
  - assert (shr_m (fst (shr_fexp prec emax 0 e1 loc_Exact)) = 0) as Hz.
    { unfold shr_fexp, shr. simpl. case_match; try done.
      simpl. rewrite iter_pos_nat, shr_iter_div by done. apply Z.div_0_l. lia. }
    destruct (shr_fexp prec emax 0 e1 loc_Exact) as [mrs2 e2]. simpl in Hz. by rewrite Hz.
  - pose proof (shr_fexp_settled m1 e1 loc_Exact ltac:(lia) ltac:(apply Hle; lia)) as H2.
    destruct (shr_fexp prec emax m1 e1 loc_Exact) as [mrs2 e2]. destruct H2 as [Hs2 _].
    destruct (shr_m mrs2) as [|p|p] eqn:Hp2; [done| |by destruct Hs2 as [?|[? _]]; lia].
    destruct (e2 <=? emax - prec) eqn:Hle2; [|done]. simpl. unfold bounded, canonical_mantissa.
    rewrite Hle2, andb_true_r. apply Z.eqb_eq. by destruct Hs2 as [?|[_ ?]].
Qed.

Lemma round_ratio_valid num den : valid_binary prec emax (round_ratio num den) = true.
Proof.
  unfold round_ratio, SFdiv, SFdiv_core_binary. simpl Zdigits2. rewrite !Z.add_0_r.
  change (0 - 0) with 0.
  pose proof (digits2_pos_bounds num) as [Hn1 _]. pose proof (digits2_pos_bounds den) as [_ Hd2].
  set (dn := Zpos (digits2_pos num)) in *. set (dd := Zpos (digits2_pos den)) in *.
  set (e' := Z.min (fexp prec emax (dn - dd)) 0).
  assert (e' <= 0) by (unfold e'; lia).
  assert (match 0 - e' with
          | Z0 => Zpos num | Zpos _ => Z.shiftl (Zpos num) (0 - e') | Zneg _ => 0
          end = Zpos num * 2 ^ (- e')) as ->.
  { replace (0 - e') with (- e') by lia.
    destruct (- e') as [|p|p] eqn:Hp; [lia| |lia]. by rewrite Z.shiftl_mul_pow2 by lia. }
  rewrite (surjective_pairing (Z.div_eucl _ _)).
  change (fst (Z.div_eucl ?a ?b)) with (a / b).
  set (q := Zpos num * 2 ^ (- e') / Zpos den).
  assert (0 <= q) by (apply Z.div_pos; lia).
  assert (Hlow : 0 <= dn - dd - 1 - e' -> 2 ^ (dn - dd - 1 - e') <= q).
  { intros Hge. apply Z.div_le_lower_bound; [lia|].
    apply Z.le_trans with (2 ^ dd * 2 ^ (dn - dd - 1 - e')).
    - apply Z.mul_le_mono_nonneg_r; lia.
    - rewrite <- Z.pow_add_r by lia.
      replace (dd + (dn - dd - 1 - e')) with (dn - 1 + - e') by lia.
      rewrite Z.pow_add_r by lia. apply Z.mul_le_mono_nonneg_r; lia. }
  apply binary_round_aux_valid. destruct (Z.eq_dec q 0) as [Hq|Hq]; [right|left]; split; try lia.
  - destruct (Z.le_gt_cases 0 (dn - dd - 1 - e')) as [Hge|Hlt].
    + specialize (Hlow Hge). assert (0 < 2 ^ (dn - dd - 1 - e')) by lia. lia.
    + unfold e', fexp, emin, prec, emax in *. lia.
  - pose proof (Zdigits2_spec q ltac:(lia)) as [_ Hq2]. pose proof (Zdigits2_pos q ltac:(lia)).
    assert (dn - dd <= Zdigits2 q + e'); [|unfold e', fexp in *; lia].
    destruct (Z.le_gt_cases 0 (dn - dd - 1 - e')) as [Hge|Hlt]; [|lia].
    specialize (Hlow Hge).
    assert (dn - dd - 1 - e' < Zdigits2 q); [apply (Z.pow_lt_mono_r_iff 2); lia|lia].
Qed.

Lemma dec_to_f64_valid m e : valid_binary prec emax (dec_to_f64 m e) = true.
Proof.
  unfold dec_to_f64. destruct (strip m e) as [[|p] e']; [done|].
  repeat case_match; try done. apply round_ratio_valid.
Qed.

(** A literal is never negative. *)
Lemma dec_to_f64_nonneg m e : dec_to_f64 m e <> S754_nan -> fleb fzero (dec_to_f64 m e) = true.
Proof.
  unfold dec_to_f64. destruct (strip m e) as [[|p] e']; [done|].
  repeat case_match; try done. unfold round_ratio, SFdiv.
  destruct (SFdiv_core_binary _ _ _ _ _ _) as [[mz ez] lz]. unfold binary_round_aux. simpl xorb.
  repeat case_match; done.
Qed.

(** A literal is never the negative zero. *)
Lemma dec_to_f64_sign m e : dec_to_f64 m e <> S754_zero true.
Proof.
  unfold dec_to_f64. destruct (strip m e) as [[|p] e']; [done|].
  repeat case_match; try done. unfold round_ratio, SFdiv.
  destruct (SFdiv_core_binary _ _ _ _ _ _) as [[mz ez] lz]. unfold binary_round_aux. simpl xorb.
  repeat case_match; done.
Qed.

(** ** A number followed by other text *)

Lemma span_while_extend p l a b u : span_while p l = (a, b) ->
  match b ++ u with c :: _ => p c = false | [] => True end -> span_while p (l ++ u) = (a, b ++ u).
Proof.
  intros Hs Hu. rewrite (span_while_app _ _ _ _ Hs), <- app_assoc.
  apply span_while_all; [by apply (span_while_forall _ l a b)|done].
Qed.

(** Text after a number that does not continue it. *)
Definition ends_number (u : jstr) : Prop :=
  match u with [] => True | c :: _ => negb (is_digit c || (c =? 46)%N || (c =? 101)%N || (c =? 69)%N) = true end.

Lemma ends_number_head u : ends_number u ->
  match u with
  | c :: _ => is_digit c = false /\ (c =? 46)%N = false /\ (c =? 101)%N = false /\ (c =? 69)%N = false
  | [] => True
  end.
Proof. destruct u as [|c u]; [done|]. simpl. rewrite negb_true_iff, !orb_false_iff. tauto. Qed.

Lemma digit_stop u : ends_number u -> match u with c :: _ => is_digit c = false | [] => True end.
Proof. intros Hu%ends_number_head. destruct u; [done|]. tauto. Qed.

Lemma scan_exponent_stop u : ends_number u -> scan_exponent u = None.
Proof. intros Hu%ends_number_head. destruct u as [|c u]; [done|]. simpl. destruct Hu as (_ & _ & -> & ->). done. Qed.

Lemma scan_exponent_extend l x u : scan_exponent l = Some (x, []) -> ends_number u ->
  scan_exponent (l ++ u) = Some (x, u).
Proof.
  intros Hl Hu%ends_number_head. unfold scan_exponent in *. destruct l as [|c l]; [done|]. simpl.
  destruct ((c =? 101)%N || (c =? 69)%N); [|done].
  assert (forall ds r, (let '(ds, l3) := span_while is_digit r in
            match ds with [] => None | _ :: _ => Some (ds, l3) end) = Some (ds, []) ->
          span_while is_digit (r ++ u) = (ds, u) /\ ds <> []) as Hds.
  { intros ds r. destruct (span_while is_digit r) as [ds' r'] eqn:E.
    destruct ds' as [|d ds']; [done|]. intros [= <- ->]. split; [|done].
    apply (span_while_extend _ _ _ []); [done|]. destruct u as [|c0 u]; [done|]. simpl in *. by destruct Hu as (-> & _). }
  destruct l as [|d l]; [done|]. simpl.
  set (sg := if (d =? 43)%N then (false, l) else if (d =? 45)%N then (true, l) else (false, d :: l)) in *.
  set (sg' := if (d =? 43)%N then (false, l ++ u) else if (d =? 45)%N then (true, l ++ u) else (false, d :: l ++ u)).
  assert (sg' = (fst sg, snd sg ++ u)) as -> by (unfold sg, sg'; by repeat case_match).
  destruct sg as [ng l2]. simpl in *.
  destruct (span_while is_digit l2) as [ds r] eqn:E. destruct ds as [|d0 ds]; [done|].
  assert (r = []) as -> by (by destruct ng; simplify_eq).
  destruct (Hds (d0 :: ds) l2) as [-> _]; [by rewrite E|]. by destruct ng; simplify_eq.
Qed.

Lemma scan_decimal_extend l d u : scan_decimal l = Some d -> dec_rest d = [] -> ends_number u ->
  scan_decimal (l ++ u)
  = Some {| dec_m := dec_m d; dec_e := dec_e d; dec_integer := dec_integer d; dec_rest := u |}.
Proof.
  intros Hl Hr Hu. pose proof (ends_number_head u Hu) as Hh. unfold scan_decimal in *.
  destruct (span_while is_digit l) as [ip r1] eqn:E1.
  assert (span_while is_digit (l ++ u) = (ip, r1 ++ u)) as ->.
  { apply span_while_extend; [done|]. pose proof (span_while_stop _ _ _ _ E1) as Hs.
    destruct r1; [by apply digit_stop | done]. }
  assert (forall fp w r2, match scan_exponent r2 with
      | Some (x, r3) => Some {| dec_m := digits_val (ip ++ fp); dec_e := - Z.of_nat (length fp) + x; dec_integer := false; dec_rest := r3 |}
      | None => Some {| dec_m := digits_val (ip ++ fp); dec_e := - Z.of_nat (length fp); dec_integer := w; dec_rest := r2 |}
      end = Some d ->
    match scan_exponent (r2 ++ u) with
      | Some (x, r3) => Some {| dec_m := digits_val (ip ++ fp); dec_e := - Z.of_nat (length fp) + x; dec_integer := false; dec_rest := r3 |}
      | None => Some {| dec_m := digits_val (ip ++ fp); dec_e := - Z.of_nat (length fp); dec_integer := w; dec_rest := r2 ++ u |}
      end = Some {| dec_m := dec_m d; dec_e := dec_e d; dec_integer := dec_integer d; dec_rest := u |}) as Hexp.
  { intros fp w r2. destruct (scan_exponent r2) as [[x r3]|] eqn:Ee; intros [= <-]; simpl in *; subst.
    - by rewrite (scan_exponent_extend _ _ _ Ee Hu).
    - change ([] ++ u) with u. by rewrite (scan_exponent_stop u Hu). }
  destruct (scan_fraction r1) as [[fp r2]|] eqn:Ef.
  - assert (scan_fraction (r1 ++ u) = Some (fp, r2 ++ u)) as ->.
    { destruct r1 as [|c r1]; [done|]. simpl in *. destruct (c =? 46)%N; [|done]. f_equal.
      simplify_eq. apply span_while_extend; [congruence|].
      pose proof (span_while_stop is_digit r1 fp r2 ltac:(congruence)) as Hs.
      destruct r2; [by apply digit_stop | done]. }
    destruct ip as [|i ip]; [destruct fp; [done|]|]; by apply Hexp.
  - assert (scan_fraction (r1 ++ u) = None) as ->.
    { destruct r1 as [|c r1]; simpl in *; [|by destruct (c =? 46)%N].
      destruct u as [|c u]; [done|]. simpl. by destruct Hh as (_ & -> & _). }
    destruct ip as [|i ip]; [done|]. by apply Hexp.
Qed.

(** ** Blanks *)

Lemma drop_spaces_split l : exists a, l = a ++ drop_spaces l /\ drop_spaces (drop_spaces l) = drop_spaces l /\
  Forall (fun c => is_space c = true) a.
Proof.
  unfold drop_spaces. destruct (span_while is_space l) as [a b] eqn:E. exists a. cbn [snd].
  split; [by apply (span_while_app is_space)|]. split; [|by eapply span_while_forall].
  pose proof (span_while_stop _ _ _ _ E) as Hb. destruct b as [|c b]; [done|]. simpl. by rewrite Hb.
Qed.

Lemma trim_solid c l : is_space c = false -> trim (c :: l) <> [].
Proof.
  intros Hc. unfold trim. rewrite (drop_spaces_id (c :: l)) by done.
  destruct (drop_spaces_split (rev (c :: l))) as (a & Ha & _ & Hsp). intros E. apply (f_equal (@rev N)) in E.
  rewrite rev_involutive in E. cbn [rev] in *. rewrite E, app_nil_r in Ha. rewrite Forall_forall in Hsp.
  rewrite (Hsp c) in Hc; [done|]. rewrite <- Ha. apply elem_of_app. right. by left.
Qed.
