(* ===== verification/BillingTypes.v ===== *)
(** * Billing expressions: syntax trees, diagnostics and traversal

    Model of [billing-expression/types.ts].  The sources store operator and
    function names as strings; the parser only ever stores a key of its
    [PRECEDENCE] table, one of [! + -], or a key of [BILLING_FUNCTIONS], so the
    model uses the enumerations below.  A node object is identified by its
    source span; [BillingSpans] proves that no two nodes of a parsed tree share
    a span. *)

From stdpp Require Import base list numbers strings.
From Stdlib Require Import SpecFloat Lia.
From S2P Require Import Prelude.
From S2P Require Import JsString.
From S2P Require Import JsNumber.

#[local] Open Scope jsm.

(** ** Names *)

Inductive TokenVariable :=
| Vp | Vc | Vlen | Vcr | Vcc | Vcc1h | Vimg | Vimg_o | Vai | Vao.

Inductive TimeFunction := Fhour | Fminute | Fweekday | Fmonth | Fday.

Inductive fname :=
| Ftier | Ffixed | Fparam | Fheader | Fhas | Fu
| Ftime (t : TimeFunction)
| Fmin | Fmax | Fabs | Fceil | Ffloor.

#[global] Instance TokenVariable_eq_dec : EqDecision TokenVariable.
Proof. solve_decision. Defined.
#[global] Instance TimeFunction_eq_dec : EqDecision TimeFunction.
Proof. solve_decision. Defined.
#[global] Instance fname_eq_dec : EqDecision fname.
Proof. solve_decision. Defined.

Definition TOKEN_VARIABLES : list (jstr * TokenVariable) :=
  [(js "p", Vp); (js "c", Vc); (js "len", Vlen); (js "cr", Vcr); (js "cc", Vcc);
   (js "cc1h", Vcc1h); (js "img", Vimg); (js "img_o", Vimg_o); (js "ai", Vai); (js "ao", Vao)].

Definition TIME_FUNCTIONS : list (jstr * TimeFunction) :=
  [(js "hour", Fhour); (js "minute", Fminute); (js "weekday", Fweekday);
   (js "month", Fmonth); (js "day", Fday)].

(** Function names with their number of arguments. *)
Definition BILLING_FUNCTIONS : list (jstr * (fname * nat)) :=
  [(js "tier", (Ftier, 2%nat)); (js "fixed", (Ffixed, 1%nat)); (js "param", (Fparam, 1%nat));
   (js "header", (Fheader, 1%nat)); (js "has", (Fhas, 2%nat)); (js "u", (Fu, 1%nat));
   (js "hour", (Ftime Fhour, 1%nat)); (js "minute", (Ftime Fminute, 1%nat));
   (js "weekday", (Ftime Fweekday, 1%nat)); (js "month", (Ftime Fmonth, 1%nat));
   (js "day", (Ftime Fday, 1%nat)); (js "min", (Fmin, 2%nat)); (js "max", (Fmax, 2%nat));
   (js "abs", (Fabs, 1%nat)); (js "ceil", (Fceil, 1%nat)); (js "floor", (Ffloor, 1%nat))].

(** Property access on a table: [Object.hasOwn(table, key)] and [table[key]]. *)
Fixpoint assoc {A} (key : jstr) (table : list (jstr * A)) : option A :=
  match table with
  | [] => None
  | (k, a) :: t => if jeqb key k then Some a else assoc key t
  end.

(** The inverse lookup: the name under which a value is stored. *)
Fixpoint assoc_name {A} `{EqDecision A} (a : A) (table : list (jstr * A)) : jstr :=
  match table with
  | [] => []
  | (k, b) :: t => if decide (a = b) then k else assoc_name a t
  end.

Definition variable_name (v : TokenVariable) : jstr := assoc_name v TOKEN_VARIABLES.
Definition time_name (t : TimeFunction) : jstr := assoc_name t TIME_FUNCTIONS.
Definition function_arity (f : fname) : nat :=
  match f with
  | Ftier | Fhas | Fmin | Fmax => 2
  | _ => 1
  end.
Definition function_name (f : fname) : jstr := assoc_name (f, function_arity f) BILLING_FUNCTIONS.

Definition is_time_function (f : fname) : bool :=
  match f with Ftime _ => true | _ => false end.

(** ** Syntax trees *)

Inductive unop := Unot | Uplus | Uminus.

Inductive binop :=
| Bor | Band | Beq | Bne | Blt | Ble | Bgt | Bge | Badd | Bsub | Bmul | Bdiv | Bmod.

#[global] Instance unop_eq_dec : EqDecision unop.
Proof. solve_decision. Defined.
#[global] Instance binop_eq_dec : EqDecision binop.
Proof. solve_decision. Defined.

(** [value] of a literal; a number literal carries its [integer] flag. *)
Inductive litval :=
| LNull
| LBool (b : bool)
| LNum (n : f64) (integer : bool)
| LStr (s : jstr).

Record span := mkspan { sp_start : nat; sp_end : nat }.

#[global] Instance span_eq_dec : EqDecision span.
Proof. solve_decision. Defined.

Inductive ExpressionNode :=
| Literal (sp : span) (value : litval)
| Var (sp : span) (name : TokenVariable)
| Call (sp : span) (name : fname) (args : list ExpressionNode)
| Unary (sp : span) (operator : unop) (operand : ExpressionNode)
| Binary (sp : span) (operator : binop) (left right : ExpressionNode)
| Conditional (sp : span) (condition yes no : ExpressionNode).

Definition node_span (n : ExpressionNode) : span :=
  match n with
  | Literal sp _ | Var sp _ | Call sp _ _ | Unary sp _ _ | Binary sp _ _ _
  | Conditional sp _ _ _ => sp
  end.

Definition node_start (n : ExpressionNode) : nat := sp_start (node_span n).
Definition node_end (n : ExpressionNode) : nat := sp_end (node_span n).

(** [a === b] on nodes of one tree. *)
Definition same_node (a b : ExpressionNode) : bool := bool_decide (node_span a = node_span b).

(** The children in the order [visitExpression] collects them. *)
Definition node_children (n : ExpressionNode) : list ExpressionNode :=
  match n with
  | Call _ _ args => args
  | Unary _ _ operand => [operand]
  | Binary _ _ l r => [l; r]
  | Conditional _ c y n => [c; y; n]
  | _ => []
  end.

(** ** Diagnostics *)

Inductive DiagnosticCode := Dsyntax | Dunsupported | Dmissing_context | Dtype | Dnumber | Dlimit.

#[global] Instance DiagnosticCode_eq_dec : EqDecision DiagnosticCode.
Proof. solve_decision. Defined.

Record ExpressionDiagnostic := {
  code : DiagnosticCode;
  detail : jstr;
  position : option nat;
}.

(** A thrown value: the project's own error, an error raised by the language
    itself (with its message), or the marker of an exhausted recursion budget of
    the model, which no run of the parser produces. *)
Inductive exn :=
| BillingExpressionError (d : ExpressionDiagnostic)
| NativeError (message : jstr)
| OutOfFuel.

Definition throw_at {S A} (c : DiagnosticCode) (d : jstr) (p : nat) : st exn S A :=
  st_throw (BillingExpressionError {| code := c; detail := d; position := Some p |}).

Definition throw {S A} (c : DiagnosticCode) (d : jstr) : st exn S A :=
  st_throw (BillingExpressionError {| code := c; detail := d; position := None |}).

(** Reading a property of [undefined]. *)
Definition type_error {S A} : st exn S A := st_throw (NativeError (js "TypeError")).

Inductive FailureStatus := FUnsupported | FInvalid | FMissing_context.

Record ExpressionFailure := {
  status : FailureStatus;
  diagnostic : ExpressionDiagnostic;
}.

Definition expressionFailure (error : exn) : ExpressionFailure :=
  let d := match error with
           | BillingExpressionError d => d
           | NativeError m => {| code := Dsyntax; detail := m; position := None |}
           | OutOfFuel => {| code := Dsyntax; detail := []; position := None |}
           end in
  let s := match code d with
           | Dmissing_context => FMissing_context
           | Dunsupported | Dlimit => FUnsupported
           | _ => FInvalid
           end in
  {| status := s; diagnostic := d |}.

(** ** Traversal *)

Record entry := { en_node : ExpressionNode; en_visited : bool; en_depth : nat }.

Section Visit.
Context {S : Type} (visitor : ExpressionNode -> st exn S unit).

(** The [while] loop of [visitExpression]; the head of the list is the top of
    the stack. *)
Fixpoint visit_loop (fuel : nat) (stack : list entry) : st exn S unit :=
  match fuel with
  | O => st_throw OutOfFuel
  | Datatypes.S fuel' =>
      match stack with
      | [] => st_ret tt
      | e :: rest =>
          if Nat.ltb 256 (en_depth e) then throw Dlimit (js "expression depth")
          else if en_visited e then
            visitor (en_node e) ;;; visit_loop fuel' rest
          else
            visit_loop fuel'
              (((fun c => {| en_node := c; en_visited := false;
                             en_depth := Datatypes.S (en_depth e) |}) <$> node_children (en_node e))
               ++ {| en_node := en_node e; en_visited := true; en_depth := en_depth e |} :: rest)
      end
  end.

(** The specification: post-order recursion with a depth limit. *)
Fixpoint visit_rec (depth : nat) (n : ExpressionNode) : st exn S unit :=
  if Nat.ltb 256 depth then throw Dlimit (js "expression depth")
  else
    match n with
    | Call _ _ args => st_forM (visit_rec (Datatypes.S depth)) args
    | Unary _ _ a => visit_rec (Datatypes.S depth) a
    | Binary _ _ a b => visit_rec (Datatypes.S depth) a ;;; visit_rec (Datatypes.S depth) b
    | Conditional _ a b c =>
        visit_rec (Datatypes.S depth) a ;;; visit_rec (Datatypes.S depth) b ;;;
        visit_rec (Datatypes.S depth) c
    | _ => st_ret tt
    end ;;; visitor n.
End Visit.

(** The number of nodes of a tree. *)
Fixpoint node_size (n : ExpressionNode) : nat :=
  S match n with
    | Call _ _ args => list_sum (map node_size args)
    | Unary _ _ a => node_size a
    | Binary _ _ a b => node_size a + node_size b
    | Conditional _ a b c => node_size a + (node_size b + node_size c)
    | _ => 0
    end.

(** Every node is pushed and popped twice: [2 * node_size] iterations, and one
    more to find the stack empty. *)
Definition visitExpression {S} (n : ExpressionNode) (visitor : ExpressionNode -> st exn S unit)
    : st exn S unit :=
  visit_loop visitor (2 * node_size n + 1)
    [{| en_node := n; en_visited := false; en_depth := 0 |}].

(** [set.add(x)] on an insertion-ordered set. *)
Definition set_add {A} `{EqDecision A} (x : A) (s : list A) : list A :=
  if decide (x ∈ s) then s else s ++ [x].

Record dependencies := {
  dep_variables : list TokenVariable;
  dep_functions : list fname;
}.

Definition collect_dependency (n : ExpressionNode) : st exn dependencies unit :=
  st_modify (fun d =>
    match n with
    | Var _ v => {| dep_variables := set_add v (dep_variables d);
                         dep_functions := dep_functions d |}
    | Call _ f _ => {| dep_variables := dep_variables d;
                       dep_functions := set_add f (dep_functions d) |}
    | _ => d
    end).

Definition expressionDependencies (n : ExpressionNode) : res exn dependencies :=
  match visitExpression n collect_dependency {| dep_variables := []; dep_functions := [] |} with
  | Ok (_, d) => Ok d
  | Err e => Err e
  end.

(** ** Induction over trees *)

Section Induction.
Context (P : ExpressionNode -> Prop).
Hypothesis HLit : forall sp v, P (Literal sp v).
Hypothesis HVar : forall sp v, P (Var sp v).
Hypothesis HCall : forall sp f args, Forall P args -> P (Call sp f args).
Hypothesis HUn : forall sp o a, P a -> P (Unary sp o a).
Hypothesis HBin : forall sp o a b, P a -> P b -> P (Binary sp o a b).
Hypothesis HCond : forall sp a b c, P a -> P b -> P c -> P (Conditional sp a b c).

Fixpoint node_ind' (n : ExpressionNode) : P n :=
  match n with
  | Literal sp v => HLit sp v
  | Var sp v => HVar sp v
  | Call sp f args =>
      HCall sp f args
        ((fix go l : Forall P l :=
            match l with
            | [] => Forall_nil_2 P
            | x :: l' => Forall_cons_2 P x l' (node_ind' x) (go l')
            end) args)
  | Unary sp o a => HUn sp o a (node_ind' a)
  | Binary sp o a b => HBin sp o a b (node_ind' a) (node_ind' b)
  | Conditional sp a b c => HCond sp a b c (node_ind' a) (node_ind' b) (node_ind' c)
  end.

(** The same, with one case: the property holds of a node when it holds of
    its children. *)
Lemma node_children_ind :
  (forall n, Forall P (node_children n) -> P n) -> forall n, P n.
Proof using Type.
  clear. intros H n. revert n. fix IH 1. intros n. apply H. destruct n as [| |sp f args| | |]; simpl.
  - constructor.
  - constructor.
  - induction args as [|a args IHa]; constructor; [apply IH|exact IHa].
  - repeat constructor; apply IH.
  - repeat constructor; apply IH.
  - repeat constructor; apply IH.
Qed.
End Induction.

(** All nodes of a tree in post-order. *)
Fixpoint postorder (n : ExpressionNode) : list ExpressionNode :=
  match n with
  | Call _ _ args => concat (map postorder args)
  | Unary _ _ a => postorder a
  | Binary _ _ a b => postorder a ++ postorder b
  | Conditional _ a b c => postorder a ++ postorder b ++ postorder c
  | _ => []
  end ++ [n].

(** The depth of the deepest node, the root being at depth 0. *)
Fixpoint node_depth (n : ExpressionNode) : nat :=
  match n with
  | Call _ _ args => list_max (map (fun a => S (node_depth a)) args)
  | Unary _ _ a => S (node_depth a)
  | Binary _ _ a b => Nat.max (S (node_depth a)) (S (node_depth b))
  | Conditional _ a b c =>
      Nat.max (S (node_depth a)) (Nat.max (S (node_depth b)) (S (node_depth c)))
  | _ => 0
  end.

Lemma postorder_unfold n : postorder n = concat (map postorder (node_children n)) ++ [n].
Proof. destruct n; simpl; rewrite ?app_nil_r, ?app_assoc; done. Qed.

Lemma node_size_unfold n : node_size n = S (list_sum (map node_size (node_children n))).
Proof. destruct n; simpl; lia. Qed.

Lemma node_depth_child n c : c ∈ node_children n -> S (node_depth c) <= node_depth n.
Proof.
  destruct n; simpl; rewrite ?list_elem_of_In; simpl; intros H; try (intuition; subst; lia).
  pose proof (list_max_le (map (fun a => S (node_depth a)) args)
                (list_max (map (fun a => S (node_depth a)) args))) as [Hl _].
  specialize (Hl (le_n _)). rewrite Forall_forall in Hl.
  apply Hl. rewrite list_elem_of_In. by apply in_map with (f := fun a => S (node_depth a)).
Qed.

Lemma postorder_self n : n ∈ postorder n.
Proof. rewrite postorder_unfold, elem_of_app, list_elem_of_singleton. auto. Qed.

Lemma postorder_trans n m k : m ∈ postorder n -> k ∈ postorder m -> k ∈ postorder n.
Proof.
  revert m k. induction n as [n IH] using node_children_ind. intros m k.
  rewrite (postorder_unfold n), !elem_of_app, !list_elem_of_singleton. intros [Hm| ->] Hk.
  - left. apply elem_of_concat_map. apply elem_of_concat_map in Hm as (c & Hc & Hm).
    exists c. split; [done|]. rewrite Forall_forall in IH. by eapply IH.
  - by rewrite postorder_unfold, elem_of_app, list_elem_of_singleton in Hk.
Qed.

(** ** The explicit stack implements post-order recursion *)

Section VisitFacts.
Context {S : Type} (visitor : ExpressionNode -> st exn S unit).

Lemma st_forM_app {A} (f : A -> st exn S unit) l1 l2 s :
  st_forM f (l1 ++ l2) s = st_bind (st_forM f l1) (fun _ => st_forM f l2) s.
Proof.
  revert s. induction l1 as [|x l1 IH]; intros s; [done|]. simpl. unfold st_bind in *.
  destruct (f x s) as [[[] s']|e]; [apply IH|done].
Qed.

Lemma visit_rec_unfold d n s :
  visit_rec visitor d n s =
  if Nat.ltb 256 d then throw Dlimit (js "expression depth") s
  else st_bind (st_forM (visit_rec visitor (Datatypes.S d)) (node_children n))
         (fun _ => visitor n) s.
Proof.
  destruct n; cbn [visit_rec node_children]; destruct (Nat.ltb 256 d); try done;
    cbn [st_forM]; unfold st_bind, st_ret;
    repeat match goal with |- context [visit_rec visitor ?d ?a ?s] =>
      destruct (visit_rec visitor d a s) as [[[] ?]|?] end; done.
Qed.

(** Processing one fresh entry on top of the stack runs the recursion on it
    and continues with the rest. *)
Lemma visit_loop_entry n d fuel rest s :
  visit_loop visitor (2 * node_size n + fuel)
    ({| en_node := n; en_visited := false; en_depth := d |} :: rest) s
  = st_bind (visit_rec visitor d n) (fun _ => visit_loop visitor fuel rest) s.
Proof.
  revert d fuel rest s. induction n as [n IH] using node_children_ind. intros d fuel rest s.
  unfold st_bind at 1. rewrite visit_rec_unfold, node_size_unfold.
  replace (2 * Datatypes.S (list_sum (map node_size (node_children n))) + fuel)
    with (Datatypes.S (2 * list_sum (map node_size (node_children n)) + Datatypes.S fuel)) by lia.
  cbn [visit_loop en_depth en_visited en_node]. destruct (Nat.ltb 256 d) eqn:Hd; [done|].
  set (top := {| en_node := n; en_visited := true; en_depth := d |}).
  assert (Hch : forall l s, Forall (fun n => forall d fuel rest s,
      visit_loop visitor (2 * node_size n + fuel)
        ({| en_node := n; en_visited := false; en_depth := d |} :: rest) s
      = st_bind (visit_rec visitor d n) (fun _ => visit_loop visitor fuel rest) s) l ->
    visit_loop visitor (2 * list_sum (map node_size l) + Datatypes.S fuel)
      (((fun c => {| en_node := c; en_visited := false; en_depth := Datatypes.S d |}) <$> l)
         ++ top :: rest) s
    = st_bind (st_forM (visit_rec visitor (Datatypes.S d)) l)
        (fun _ => visit_loop visitor (Datatypes.S fuel) (top :: rest)) s).
  { clear -Hd. intros l. induction l as [|c l IHl]; intros s Hl; [done|].
    inversion_clear Hl as [|? ? Hc Hl']. cbn [map fmap list_fmap app].
    change (list_sum (node_size c :: map node_size l))
      with (node_size c + list_sum (map node_size l)).
    replace (2 * (node_size c + list_sum (map node_size l)) + Datatypes.S fuel)
      with (2 * node_size c + (2 * list_sum (map node_size l) + Datatypes.S fuel)) by lia.
    rewrite Hc. cbn [st_forM]. unfold st_bind.
    destruct (visit_rec visitor (Datatypes.S d) c s) as [[[] s']|e]; [|done].
    by apply IHl. }
  rewrite Hch by done. unfold st_bind.
  destruct (st_forM _ (node_children n) s) as [[[] s']|e]; [|done]. subst top.
  cbn [visit_loop en_depth en_visited en_node]. rewrite Hd. unfold st_bind.
  by destruct (visitor n s') as [[[] s'']|e].
Qed.

Lemma visitExpression_rec n s : visitExpression n visitor s = visit_rec visitor 0 n s.
Proof.
  unfold visitExpression. rewrite visit_loop_entry. unfold st_bind.
  by destruct (visit_rec visitor 0 n s) as [[[] s']|e].
Qed.
End VisitFacts.
