(* ===== verification/BillingParser.v ===== *)
(** * Billing expressions: the lexer and the parser

    Model of the class [BillingParser] of [billing-expression/parser.ts].  The
    mutable fields [cursor], [count] and [current] are the state of the monad;
    [source] is an argument.  The field [depth] grows by one for every nested
    call of [expression] and shrinks when the call returns, so it is the number
    of calls in progress: the model recurses on the number of calls that are
    still allowed, [128 - depth]. *)

From stdpp Require Import base list numbers strings.
From Stdlib Require Import SpecFloat Lia.
From S2P Require Import Prelude.
From S2P Require Import JsString.
From S2P Require Import JsNumber.
From S2P Require Import BillingTypes.

#[local] Open Scope jsm.

(** ** Lexemes *)

Inductive LexKind := Knumber | Kstring | Ksymbol | Kname | Kend.

#[global] Instance LexKind_eq_dec : EqDecision LexKind.
Proof. solve_decision. Defined.

(** [value] of a lexeme, with the [integer] flag of a number. *)
Inductive lexval :=
| NoValue
| NumValue (n : f64) (integer : bool)
| StrValue (s : jstr).

Record Lexeme := {
  kind : LexKind;
  text : jstr;
  lex_start : nat;
  lex_end : nat;
  value : lexval;
}.

Definition PRECEDENCE : list (jstr * (binop * nat)) :=
  [(js "||", (Bor, 1%nat)); (js "&&", (Band, 2%nat)); (js "==", (Beq, 3%nat));
   (js "!=", (Bne, 3%nat)); (js "<", (Blt, 4%nat)); (js "<=", (Ble, 4%nat));
   (js ">", (Bgt, 4%nat)); (js ">=", (Bge, 4%nat)); (js "+", (Badd, 5%nat));
   (js "-", (Bsub, 5%nat)); (js "*", (Bmul, 6%nat)); (js "/", (Bdiv, 6%nat));
   (js "%", (Bmod, 6%nat))].

Record pstate := { cursor : nat; count : nat; current : Lexeme }.

(** The state before the first lexeme is read. *)
Record lstate := { l_cursor : nat; l_count : nat }.

(** ** The lexer *)

Definition escapes : list (jstr * jstr) :=
  [(js "n", [10%N]); (js "r", [13%N]); (js "t", [9%N]); (js "b", [8%N]); (js "f", [12%N]);
   (js "v", [11%N]); (js "\", js "\"); ([34%N], [34%N]); (js "'", js "'"); (js "/", js "/")].

(** How the loop over the characters of a string literal ends: with the closing
    quote, by [break], or by throwing on an unknown escape. *)
Inductive scan_result :=
| Closed (value : jstr) (cursor : nat)
| Unterminated
| BadEscape (position : nat).

(** [rest] is the source from [cursor] on. *)
Fixpoint scan_string (quote : N) (rest : jstr) (cursor : nat) (value : jstr) : scan_result :=
  match rest with
  | [] => Unterminated
  | char :: rest1 =>
      if (char =? quote)%N then Closed value (S cursor)
      else if (char =? 10)%N || (char =? 13)%N then Unterminated
      else if negb (char =? 92)%N then scan_string quote rest1 (S cursor) (value ++ [char])
      else
        match rest1 with
        | [] => BadEscape (S cursor)
        | escaped :: rest2 =>
            match assoc [escaped] escapes with
            | Some c => scan_string quote rest2 (S (S cursor)) (value ++ c)
            | None =>
                if (escaped =? 117)%N then
                  match rest2 with
                  | a :: b :: c :: d :: rest3 =>
                      if is_hex a && is_hex b && is_hex c && is_hex d then
                        scan_string quote rest3 (6 + cursor)
                          (value ++ [4096 * hex_val a + 256 * hex_val b + 16 * hex_val c + hex_val d]%N)
                      else Unterminated
                  | _ => Unterminated
                  end
                else if (escaped =? 120)%N then
                  match rest2 with
                  | a :: b :: rest3 =>
                      if is_hex a && is_hex b then
                        scan_string quote rest3 (4 + cursor) (value ++ [16 * hex_val a + hex_val b]%N)
                      else Unterminated
                  | _ => Unterminated
                  end
                else BadEscape (S cursor)
            end
        end
  end.

(** A match of the operator pattern at the start of [rest]: its length. *)
Definition two_char_operators : list jstr :=
  [js "&&"; js "||"; js "=="; js "!="; js "<="; js ">="].

Definition one_char_operators : jstr := js "+-*/%<>()!?:,".

Definition scan_operator (rest : jstr) : option nat :=
  if existsb (fun op => starts_with op rest) two_char_operators then Some 2%nat
  else match rest with
       | c :: _ => if existsb (N.eqb c) one_char_operators then Some 1%nat else None
       | [] => None
       end.

Definition bare (k : LexKind) (t : jstr) (a b : nat) : Lexeme :=
  {| kind := k; text := t; lex_start := a; lex_end := b; value := NoValue |}.

Definition next (source : jstr) : st exn lstate Lexeme :=
  s <- st_get ;;
  let count := S (l_count s) in
  if Nat.ltb (100 * 100) count then throw Dlimit (js "expression tokens")
  else
    let blanks := fst (span_while is_space (drop (l_cursor s) source)) in
    let start := (l_cursor s + length blanks)%nat in
    let rest := drop start source in
    let finish (lx : Lexeme) : st exn lstate Lexeme :=
      st_put {| l_cursor := lex_end lx; l_count := count |} ;;; st_ret lx in
    match rest with
    | [] => finish (bare Kend [] start start)
    | first :: rest1 =>
        match scan_decimal rest with
        | Some d =>
            let number := take (length rest - length (dec_rest d)) rest in
            let v := decimal_value d in
            if negb (is_finite v) then throw_at Dnumber number start
            else if dec_integer d && negb (is_safe_integer v) then
              throw_at Dunsupported (js "integer precision") start
            else finish {| kind := Knumber; text := number; lex_start := start;
                           lex_end := (start + length number)%nat;
                           value := NumValue v (dec_integer d) |}
        | None =>
            if (first =? 34)%N || (first =? 39)%N then
              match scan_string first rest1 (S start) [] with
              | Closed v c => finish {| kind := Kstring; text := slice source start c;
                                        lex_start := start; lex_end := c; value := StrValue v |}
              | Unterminated => throw_at Dsyntax (js "unterminated string") start
              | BadEscape p => throw_at Dunsupported (js "string escape") p
              end
            else if is_name_start first then
              let name := first :: fst (span_while is_word rest1) in
              finish (bare Kname name start (start + length name)%nat)
            else
              match scan_operator rest with
              | Some n => finish (bare Ksymbol (take n rest) start (start + n)%nat)
              | None => throw_at Dunsupported [first] start
              end
        end
    end.

(** ** The parser *)

(** The version prefix [v<digits>:] after optional blanks: its digits and the
    length of the whole match. *)
Definition version_prefix (source : jstr) : option (jstr * nat) :=
  let '(blanks, r0) := span_while is_space source in
  match r0 with
  | v :: r1 =>
      if (v =? 118)%N then
        let '(ds, r2) := span_while is_digit r1 in
        match ds, r2 with
        | _ :: _, colon :: _ =>
            if (colon =? 58)%N then Some (ds, (length blanks + 2 + length ds)%nat) else None
        | _, _ => None
        end
      else None
  | [] => None
  end.

(** The constructor: checks, then reads the first lexeme. *)
Definition new_parser (source : jstr) : res exn pstate :=
  let start (c : nat) :=
    match next source {| l_cursor := c; l_count := 0 |} with
    | Ok (lx, s) => Ok {| cursor := l_cursor s; count := l_count s; current := lx |}
    | Err e => Err e
    end in
  if Nat.ltb (Nat.pow 2 16) (length source) then
    Err (BillingExpressionError {| code := Dlimit; detail := js "expression length"; position := None |})
  else
    match version_prefix source with
    | Some (ds, n) =>
        if jeqb ds (js "1") then start n
        else Err (BillingExpressionError {| code := Dunsupported; detail := take n source; position := None |})
    | None => start 0%nat
    end.

Section Parser.
Context (source : jstr).

Definition parser (A : Type) : Type := st exn pstate A.

Definition take_lexeme : parser Lexeme := fun s =>
  match next source {| l_cursor := cursor s; l_count := count s |} with
  | Ok (lx, s') =>
      Ok (current s, {| cursor := l_cursor s'; count := l_count s'; current := lx |})
  | Err e => Err e
  end.

Definition is_text (t : jstr) : parser bool := s <- st_get ;; st_ret (jeqb (text (current s)) t).

Definition expect (t : jstr) : parser Lexeme :=
  s <- st_get ;;
  if jeqb (text (current s)) t then take_lexeme
  else throw_at Dsyntax (js "expected " ++ t) (lex_start (current s)).

(** [{ ...node, start, end }] *)
Definition with_span (n : ExpressionNode) (sp : span) : ExpressionNode :=
  match n with
  | Literal _ v => Literal sp v
  | Var _ v => Var sp v
  | Call _ f args => Call sp f args
  | Unary _ o a => Unary sp o a
  | Binary _ o a b => Binary sp o a b
  | Conditional _ a b c => Conditional sp a b c
  end.

Section Open.
(** [expression], one nesting level further down. *)
Context (expression : nat -> parser ExpressionNode).

(** The loop that reads the arguments of a call. *)
Fixpoint arguments (fuel : nat) (args : list ExpressionNode) : parser (list ExpressionNode) :=
  match fuel with
  | O => st_throw OutOfFuel
  | S f =>
      close <- is_text (js ")") ;;
      if close : bool then st_ret args
      else
        arg <- expression 0%nat ;;
        comma <- is_text (js ",") ;;
        if negb comma then st_ret (args ++ [arg])
        else take_lexeme ;;; arguments f (args ++ [arg])
  end.

Definition unary_operator (t : jstr) : option unop :=
  if jeqb t (js "!") then Some Unot
  else if jeqb t (js "+") then Some Uplus
  else if jeqb t (js "-") then Some Uminus else None.

Definition call_node (token : Lexeme) : parser ExpressionNode :=
  match assoc (text token) BILLING_FUNCTIONS with
  | None => throw_at Dunsupported (text token) (lex_start token)
  | Some (f, arity) =>
      take_lexeme ;;;
      args <- arguments (S (length source)) [] ;;
      close <- expect (js ")") ;;
      if negb (Nat.eqb (length args) arity) then throw_at Dtype (text token) (lex_start token)
      else st_ret (Call (mkspan (lex_start token) (lex_end close)) f args)
  end.

(** [primary] on a lexeme that is neither a number nor a string. *)
Definition primary_symbol (token : Lexeme) : parser ExpressionNode :=
  let sp := mkspan (lex_start token) (lex_end token) in
  if jeqb (text token) (js "(") then
    inner <- expression 0%nat ;;
    close <- expect (js ")") ;;
    st_ret (with_span inner (mkspan (lex_start token) (lex_end close)))
  else
    match unary_operator (text token) with
    | Some op =>
        operand <- expression 7%nat ;;
        st_ret (Unary (mkspan (lex_start token) (node_end operand)) op operand)
    | None =>
        if negb (bool_decide (kind token = Kname)) then
          throw_at Dsyntax (text token) (lex_start token)
        else if jeqb (text token) (js "nil") then st_ret (Literal sp LNull)
        else if jeqb (text token) (js "true") || jeqb (text token) (js "false") then
          st_ret (Literal sp (LBool (jeqb (text token) (js "true"))))
        else
          open <- is_text (js "(") ;;
          if negb open then
            match assoc (text token) TOKEN_VARIABLES with
            | Some v => st_ret (Var sp v)
            | None => throw_at Dunsupported (text token) (lex_start token)
            end
          else call_node token
    end.

Definition primary : parser ExpressionNode :=
  token <- take_lexeme ;;
  let sp := mkspan (lex_start token) (lex_end token) in
  match kind token, value token with
  | Knumber, NumValue n i => st_ret (Literal sp (LNum n i))
  | Kstring, StrValue v => st_ret (Literal sp (LStr v))
  | _, _ => primary_symbol token
  end.

(** The loop that reads operators of at least the given precedence. *)
Fixpoint operators (fuel : nat) (minimum : nat) (left : ExpressionNode) : parser ExpressionNode :=
  match fuel with
  | O => st_throw OutOfFuel
  | S f =>
      s <- st_get ;;
      match assoc (text (current s)) PRECEDENCE with
      | Some (op, p) =>
          if Nat.leb minimum p then
            take_lexeme ;;;
            right <- expression (S p) ;;
            operators f minimum
              (Binary (mkspan (node_start left) (node_end right)) op left right)
          else st_ret left
      | None => st_ret left
      end
  end.

Definition expression_body (minimum : nat) : parser ExpressionNode :=
  first <- primary ;;
  left <- operators (S (length source)) minimum first ;;
  question <- is_text (js "?") ;;
  if Nat.eqb minimum 0 && question then
    take_lexeme ;;;
    yes <- expression 0%nat ;;
    expect (js ":") ;;;
    no <- expression 0%nat ;;
    st_ret (Conditional (mkspan (node_start left) (node_end no)) left yes no)
  else st_ret left.
End Open.

(** [allowed] is [128 - depth]. *)
Fixpoint expression (allowed : nat) (minimum : nat) : parser ExpressionNode :=
  match allowed with
  | O => throw Dlimit (js "expression depth")
  | S allowed' => expression_body (expression allowed') minimum
  end.

Definition parse_whole : parser ExpressionNode :=
  node <- expression 128 0 ;;
  s <- st_get ;;
  if bool_decide (kind (current s) = Kend) then st_ret node
  else throw_at Dunsupported (text (current s)) (lex_start (current s)).
End Parser.

(** [new BillingParser(source).parse()] *)
Definition parse (source : jstr) : res exn ExpressionNode :=
  p <-- new_parser source ;;
  match parse_whole source p with
  | Ok (n, _) => Ok n
  | Err e => Err e
  end.
