(* ===== verification/BillingSpans.v ===== *)
(** * Billing expressions: what the parser guarantees about its trees

    Every run of the parser ends without exhausting the recursion budget of the
    model, and the tree it returns is well formed: spans are non-empty, lie in
    the source, nest strictly and never repeat; calls have the arity of the
    function table; number literals are canonical, finite, non-negative and,
    when flagged [integer], safe integers. *)

From stdpp Require Import base list numbers strings.
From Stdlib Require Import SpecFloat Lia.
From S2P Require Import Prelude.
From S2P Require Import JsString.
From S2P Require Import JsNumber.
From S2P Require Import JsNumberFacts.
From S2P Require Import BillingTypes.
From S2P Require Import BillingParser.

#[local] Open Scope jsm.

(** ** A small program logic for the parser *)

(** One of the project's own errors: neither an error of the language nor the
    exhausted-budget marker. *)
Definition billing_error (e : exn) : Prop :=
  match e with BillingExpressionError _ => True | _ => False end.

(** From state [s], [m] either returns with [Q] or throws one of the project's
    own errors. *)
Definition hoare {S A} (m : st exn S A) (s : S) (Q : A -> S -> Prop) : Prop :=
  match m s with
  | Ok (a, s') => Q a s'
  | Err e => billing_error e
  end.

Lemma hoare_bind {S A B} (m : st exn S A) (f : A -> st exn S B) s Q :
  hoare m s (fun a s' => hoare (f a) s' Q) -> hoare (st_bind m f) s Q.
Proof. unfold hoare, st_bind. destruct (m s) as [[a s']|e]; done. Qed.

Lemma hoare_ret {S A} (a : A) (s : S) (Q : A -> S -> Prop) : Q a s -> hoare (st_ret a) s Q.
Proof. done. Qed.

Lemma hoare_get {S} (s : S) (Q : S -> S -> Prop) : Q s s -> hoare st_get s Q.
Proof. done. Qed.

Lemma hoare_throw_at {S A} c d p (s : S) (Q : A -> S -> Prop) : hoare (throw_at c d p) s Q.
Proof. done. Qed.

Lemma hoare_throw {S A} c d (s : S) (Q : A -> S -> Prop) : hoare (throw c d) s Q.
Proof. done. Qed.

Lemma hoare_conseq {S A} (m : st exn S A) s (P Q : A -> S -> Prop) :
  hoare m s P -> (forall a s', P a s' -> Q a s') -> hoare m s Q.
Proof. unfold hoare. destruct (m s) as [[a s']|e]; auto. Qed.

Create HintDb parser discriminated.
#[export] Hint Resolve hoare_ret hoare_get hoare_throw_at hoare_throw : parser.

(** ** Lexemes *)

Definition num_ok (n : f64) (integer : bool) : Prop :=
  valid_binary prec emax n = true /\ is_finite n = true /\ fleb fzero n = true /\
  n <> S754_zero true /\ (integer = true -> is_safe_integer n = true).

Definition lexval_ok (lx : Lexeme) : Prop :=
  match value lx with
  | NumValue n i => num_ok n i
  | _ => True
  end.

(** The lexeme was read from the source at or after position [from]. *)
Definition lexeme_ok (source : jstr) (from : nat) (lx : Lexeme) : Prop :=
  from <= lex_start lx /\ lex_end lx <= length source /\
  text lx = slice source (lex_start lx) (lex_end lx) /\ lexval_ok lx /\
  match kind lx with
  | Kend => lex_start lx = lex_end lx
  | _ => lex_start lx < lex_end lx
  end.

Lemma lexeme_ok_le source from lx : lexeme_ok source from lx -> lex_start lx <= lex_end lx.
Proof. unfold lexeme_ok. destruct (kind lx); lia. Qed.

Lemma slice_drop source a n : slice source a (a + n) = take n (drop a source).
Proof. unfold slice. f_equal. lia. Qed.

Lemma scan_exponent_rest l x r : scan_exponent l = Some (x, r) -> exists p, l = p ++ r.
Proof.
  unfold scan_exponent. destruct l as [|c l1]; [done|].
  destruct (_ || _); [|done].
  destruct (match l1 with [] => _ | _ => _ end) as [neg l2] eqn:E.
  assert (exists q, l1 = q ++ l2) as (q & Hq).
  { destruct l1 as [|d l1]; [simplify_eq; by exists []|].
    repeat case_match; simplify_eq; (by exists [d]) || by exists []. }
  destruct (span_while is_digit l2) as [ds l3] eqn:Hs. apply span_while_app in Hs.
  destruct ds as [|d0 ds]; intros [= _ <-]. exists (c :: q ++ d0 :: ds).
  subst. simpl. by rewrite <- app_assoc.
Qed.

(** A number match is a non-empty prefix of the text. *)
Lemma scan_decimal_rest l d : scan_decimal l = Some d ->
  exists p, l = p ++ dec_rest d /\ p <> [].
Proof.
  unfold scan_decimal. destruct (span_while is_digit l) as [ip r1] eqn:Hs.
  apply span_while_app in Hs. subst l.
  assert (Hfr : forall fp r2, scan_fraction r1 = Some (fp, r2) -> exists c, r1 = c :: fp ++ r2).
  { intros fp r2. unfold scan_fraction. destruct r1 as [|c r1]; [done|]. case_match; [|done].
    intros [= Hsp]. apply span_while_app in Hsp as ->. eauto. }
  match goal with |- match ?h with _ => _ end = _ -> _ => destruct h as [[[fp whole] r2]|] eqn:Hh end;
    [|done].
  assert (exists q, ip ++ r1 = q ++ r2 /\ q <> []) as (q & Hq & Hne).
  { destruct ip as [|i ip], (scan_fraction r1) as [[fp' r2']|] eqn:Hf;
      try (destruct (Hfr _ _ eq_refl) as [c ->]); simplify_eq.
    - destruct fp'; simplify_eq. exists (c :: n :: fp'). done.
    - exists (i :: ip ++ c :: fp). split; [|done]. simpl. by rewrite <- app_assoc.
    - exists (i :: ip). done. }
  rewrite Hq. destruct (scan_exponent r2) as [[x r3]|] eqn:He; intros [= <-]; simpl.
  - apply scan_exponent_rest in He as [p ->]. exists (q ++ p). rewrite <- app_assoc.
    split; [done|]. by destruct q.
  - eauto.
Qed.

Lemma decimal_num_ok d : is_finite (decimal_value d) = true ->
  (dec_integer d && negb (is_safe_integer (decimal_value d)) = false) ->
  num_ok (decimal_value d) (dec_integer d).
Proof.
  intros Hf Hi. split; [apply dec_to_f64_valid|]. split; [done|]. split; [|split].
  - apply dec_to_f64_nonneg. intros Heq. unfold decimal_value in Hf. by rewrite Heq in Hf.
  - apply dec_to_f64_sign.
  - intros Hd. rewrite Hd in Hi. simpl in Hi. by destruct (is_safe_integer _).
Qed.

Lemma scan_string_closed q rest c v v' c' : scan_string q rest c v = Closed v' c' ->
  c < c' <= c + length rest.
Proof.
  remember (length rest) as n eqn:Hn. revert rest Hn c v.
  induction n as [n IH] using lt_wf_ind. intros rest -> c v.
  destruct rest as [|ch r1]; cbn [scan_string]; [done|].
  destruct (ch =? q)%N; [intros [= _ <-]; simpl; lia|].
  destruct (_ || _); [done|]. destruct (negb _).
  { intros Hs. apply (IH (length r1)) in Hs; simpl; lia. }
  destruct r1 as [|e r2]; [done|]. destruct (assoc [e] escapes).
  { intros Hs. apply (IH (length r2)) in Hs; simpl; lia. }
  destruct (e =? 117)%N.
  { destruct r2 as [|? [|? [|? [|? r3]]]]; try done. case_match; [|done].
    intros Hs. apply (IH (length r3)) in Hs; simpl in *; lia. }
  destruct (e =? 120)%N; [|done].
  destruct r2 as [|? [|? r3]]; try done. case_match; [|done].
  intros Hs. apply (IH (length r3)) in Hs; simpl in *; lia.
Qed.

Lemma scan_operator_bounds rest n : scan_operator rest = Some n -> 0 < n <= length rest.
Proof.
  unfold scan_operator. case_match eqn:Hex.
  - intros [= <-]. apply existsb_exists in Hex as (op & Hin & Hst).
    apply starts_with_app in Hst as [r ->]. rewrite length_app.
    assert (length op = 2) as ->; [|lia]. simpl in Hin. intuition; by subst.
  - destruct rest; [done|]. case_match; intros [= <-]. simpl. lia.
Qed.

Lemma next_spec source s : l_cursor s <= length source ->
  hoare (next source) s (fun lx s' => lexeme_ok source (l_cursor s) lx /\ l_cursor s' = lex_end lx).
Proof.
  intros Hc. unfold next. apply hoare_bind, hoare_get.
  destruct (Nat.ltb _ _); [auto with parser|].
  destruct (span_while is_space (drop (l_cursor s) source)) as [blanks r0] eqn:Hb. simpl fst.
  apply span_while_app in Hb.
  assert (Hr : drop (l_cursor s + length blanks) source = r0).
  { rewrite <- drop_drop, Hb. apply drop_app_length. }
  set (start := l_cursor s + length blanks) in *. rewrite Hr.
  assert (Hlen : start + length r0 = length source).
  { apply (f_equal length) in Hb. rewrite length_drop, length_app in Hb. unfold start. lia. }
  assert (Hsl : forall n, slice source start (start + n) = take n r0).
  { intros n. by rewrite slice_drop, Hr. }
  assert (Hfin : forall lx, lexeme_ok source (l_cursor s) lx -> hoare
    (st_put {| l_cursor := lex_end lx; l_count := S (l_count s) |} ;;; st_ret lx) s
    (fun lx s' => lexeme_ok source (l_cursor s) lx /\ l_cursor s' = lex_end lx)) by done.
  assert (Hst : l_cursor s <= start) by (unfold start; lia).
  destruct r0 as [|first rest1]; [apply Hfin|].
  { unfold lexeme_ok, lexval_ok. simpl. rewrite <- Hlen. simpl. rewrite Nat.add_0_r.
    unfold slice. rewrite Nat.sub_diag. repeat split; lia || done. }
  destruct (scan_decimal (first :: rest1)) as [d|] eqn:Hd.
  { apply scan_decimal_rest in Hd as (p & Hp & Hne).
    assert (take (length (first :: rest1) - length (dec_rest d)) (first :: rest1) = p) as ->.
    { rewrite Hp, length_app. replace (_ - _) with (length p) by lia. apply take_app_length. }
    destruct (is_finite (decimal_value d)) eqn:Hf; simpl; [|auto with parser].
    destruct (dec_integer d && _) eqn:Hi; [auto with parser|]. apply Hfin.
    assert (length p <= length (first :: rest1)) by (rewrite Hp, length_app; lia).
    assert (0 < length p) by (destruct p; simpl; [done|lia]).
    unfold lexeme_ok, lexval_ok. simpl in *. rewrite Hsl, Hp, take_app_length.
    pose proof (decimal_num_ok d Hf Hi) as (? & ? & ? & ? & ?). repeat split; lia || done. }
  destruct (_ || _).
  { destruct (scan_string first rest1 (S start) []) as [v c| |p] eqn:Hs; [|auto with parser..].
    apply scan_string_closed in Hs. apply Hfin. unfold lexeme_ok, lexval_ok. simpl in *.
    repeat split; lia. }
  destruct (is_name_start first).
  { destruct (span_while is_word rest1) as [w r2] eqn:Hw. apply span_while_app in Hw. simpl fst.
    apply Hfin. unfold lexeme_ok, lexval_ok. simpl in *. rewrite Hsl. simpl. subst rest1.
    rewrite take_app_length, length_app in *. repeat split; lia. }
  destruct (scan_operator (first :: rest1)) as [n|] eqn:Ho; [|auto with parser].
  apply scan_operator_bounds in Ho. apply Hfin. unfold lexeme_ok, lexval_ok. simpl in *.
  rewrite Hsl. repeat split; lia.
Qed.

(** ** Well-formed trees *)

(** The nodes of [l] lie in order, without overlap, between [lo] and [hi]. *)
Fixpoint chain (lo hi : nat) (l : list ExpressionNode) : Prop :=
  match l with
  | [] => lo <= hi
  | n :: l' => lo <= node_start n /\ chain (node_end n) hi l'
  end.

Definition local_ok (n : ExpressionNode) : Prop :=
  match n with
  | Call _ f args => length args = function_arity f
  | Literal _ (LNum x i) => num_ok x i
  | _ => True
  end.

Inductive wf_node (n : ExpressionNode) : Prop :=
| wf_intro :
    node_start n < node_end n ->
    chain (node_start n) (node_end n) (node_children n) ->
    Forall (fun c => node_span c <> node_span n) (node_children n) ->
    local_ok n ->
    Forall wf_node (node_children n) ->
    wf_node n.

Lemma chain_mono lo lo' hi hi' l : lo' <= lo -> hi <= hi' -> chain lo hi l -> chain lo' hi' l.
Proof.
  revert lo lo'. induction l as [|n l IH]; simpl; intros lo lo' H1 H2; [lia|].
  intros [H3 H4]. split; [lia|]. by apply (IH (node_end n)).
Qed.

Lemma chain_snoc lo mid hi l n :
  chain lo mid l -> mid <= node_start n -> node_end n <= hi -> chain lo hi (l ++ [n]).
Proof.
  revert lo. induction l as [|m l IH]; simpl; intros lo Hc H1 H2; [lia|].
  destruct Hc as [Hc1 Hc2]. split; [done|]. by apply IH.
Qed.

Lemma chain_bounds lo hi l : Forall (fun n => node_start n <= node_end n) l -> chain lo hi l ->
  lo <= hi /\ Forall (fun n => lo <= node_start n /\ node_end n <= hi) l.
Proof.
  revert lo. induction l as [|n l IH]; simpl; intros lo Hl Hc; [split; [done|constructor]|].
  inversion_clear Hl as [|? ? Hn Hl']. destruct Hc as [H1 H2].
  destruct (IH _ Hl' H2) as [H3 H4]. split; [lia|]. constructor; [lia|].
  eapply Forall_impl; [exact H4|]. simpl. lia.
Qed.

Lemma wf_span n : wf_node n -> node_start n < node_end n.
Proof. by inversion 1. Qed.

(** A child of a well-formed node lies within it and is strictly shorter. *)
Lemma wf_child n c : wf_node n -> c ∈ node_children n ->
  wf_node c /\ node_start n <= node_start c /\ node_end c <= node_end n /\
  node_end c - node_start c < node_end n - node_start n.
Proof.
  intros [H1 H2 H3 H4 H5] Hc. rewrite Forall_forall in H3, H5.
  pose proof (H5 c Hc) as Hwf. pose proof (wf_span c Hwf).
  apply chain_bounds in H2 as [_ Hb].
  - rewrite Forall_forall in Hb. specialize (Hb c Hc) as [Hb1 Hb2].
    split; [done|]. split; [done|]. split; [done|].
    specialize (H3 c Hc). unfold node_start, node_end in *.
    destruct (node_span c) as [a b], (node_span n) as [a' b']. simpl in *.
    destruct (decide (a = a')), (decide (b = b')); subst; lia || done.
  - apply Forall_forall. intros x Hx. pose proof (wf_span x (H5 x Hx)). lia.
Qed.

Lemma wf_with_span n a b : wf_node n -> a < node_start n -> node_end n < b ->
  wf_node (with_span n (mkspan a b)).
Proof.
  intros [H1 H2 H3 H4 H5] Ha Hb.
  assert (node_children (with_span n (mkspan a b)) = node_children n) as Hch by (by destruct n).
  assert (node_span (with_span n (mkspan a b)) = mkspan a b) as Hsp by (by destruct n).
  constructor; unfold node_start, node_end; rewrite ?Hch, ?Hsp; simpl.
  - lia.
  - eapply chain_mono; [..|exact H2]; lia.
  - apply Forall_forall. intros c Hc Heq%(f_equal sp_start). simpl in Heq.
    destruct (wf_child n c) as (_ & Hs & _); [by constructor|done|]. unfold node_start in *. lia.
  - by destruct n.
  - done.
Qed.

(** ** The parser *)

Section ParserSpec.
Context (source : jstr).

Definition inv (s : pstate) : Prop :=
  lexeme_ok source 0 (current s) /\ cursor s = lex_end (current s).

(** What parsing from [s] to [s'] does for the node [n] it returns. *)
Definition parsed (s : pstate) (n : ExpressionNode) (s' : pstate) : Prop :=
  inv s' /\ wf_node n /\ node_start n = lex_start (current s) /\
  node_end n <= lex_start (current s').

Definition taken (s : pstate) (tok : Lexeme) (s' : pstate) : Prop :=
  tok = current s /\ inv s' /\ lex_end tok <= lex_start (current s').

Lemma take_spec s : inv s -> hoare (take_lexeme source) s (taken s).
Proof.
  intros [Hok Hcur]. unfold take_lexeme, hoare.
  pose proof (next_spec source {| l_cursor := cursor s; l_count := count s |}) as Hn.
  unfold hoare in Hn. simpl in Hn. rewrite Hcur in Hn |- *.
  specialize (Hn ltac:(apply Hok)).
  destruct (next source _) as [[lx s']|e]; [|done]. destruct Hn as [(H1 & H2) H3].
  split; [done|]. split; [|done]. split; [|done]. simpl. unfold lexeme_ok. split; [lia|done].
Qed.

Lemma expect_spec t s : inv s ->
  hoare (expect source t) s (fun tok s' => taken s tok s' /\ text tok = t).
Proof.
  intros Hi. unfold expect. apply hoare_bind, hoare_get.
  destruct (jeqb _ t) eqn:Ht; [|auto with parser]. apply jeqb_eq in Ht.
  eapply hoare_conseq; [by apply take_spec|]. intros tok s' Hs. split; [done|].
  by destruct Hs as [-> _].
Qed.

Lemma is_text_spec t s (Q : bool -> pstate -> Prop) :
  Q (jeqb (text (current s)) t) s -> hoare (is_text t) s Q.
Proof. done. Qed.

(** A lexeme with a non-empty text is non-empty in the source. *)
Lemma lexeme_nonempty lx from c t : lexeme_ok source from lx -> text lx = c :: t ->
  lex_start lx < lex_end lx.
Proof.
  intros (H1 & H2 & H3 & _ & H4) Ht. destruct (kind lx); try done.
  rewrite H4 in H3. unfold slice in H3. rewrite Nat.sub_diag, take_0 in H3. congruence.
Qed.

Section OpenSpec.
Context (expr : nat -> parser ExpressionNode).
Hypothesis expr_spec : forall m s, inv s -> hoare (expr m) s (parsed s).

Lemma arguments_spec fuel args lo s :
  inv s -> length source < fuel + lex_start (current s) ->
  Forall wf_node args -> chain lo (lex_start (current s)) args ->
  hoare (arguments source expr fuel args) s
    (fun args' s' => inv s' /\ Forall wf_node args' /\ chain lo (lex_start (current s')) args').
Proof.
  revert args s. induction fuel as [|fuel IH]; intros args s Hi Hf Hwf Hch.
  { destruct Hi as [Hok _]. pose proof (lexeme_ok_le _ _ _ Hok). destruct Hok as (_ & ? & _). lia. }
  cbn [arguments]. apply hoare_bind, is_text_spec. case_match; [by apply hoare_ret|].
  apply hoare_bind. eapply hoare_conseq; [by apply expr_spec|].
  intros arg s1 (Hi1 & Hw1 & Hs1 & He1). pose proof (wf_span _ Hw1).
  assert (Forall wf_node (args ++ [arg])) by (apply Forall_app_2; auto).
  assert (chain lo (lex_start (current s1)) (args ++ [arg]))
    by (eapply chain_snoc; [exact Hch|lia..]).
  apply hoare_bind, is_text_spec. destruct (jeqb _ (js ",")) eqn:Hcomma; simpl;
    [|by apply hoare_ret].
  apply jeqb_eq in Hcomma. apply hoare_bind.
  eapply hoare_conseq; [by apply take_spec|]. intros tok s2 (-> & Hi2 & He2).
  pose proof (lexeme_nonempty _ _ _ _ (proj1 Hi1) Hcomma).
  apply IH; [done|lia|done|]. eapply chain_mono; [..|done]; lia.
Qed.

Lemma operators_spec fuel m left s :
  inv s -> length source < fuel + lex_start (current s) ->
  wf_node left -> node_end left <= lex_start (current s) ->
  hoare (operators source expr fuel m left) s
    (fun n s' => inv s' /\ wf_node n /\ node_start n = node_start left /\
                 node_end n <= lex_start (current s')).
Proof.
  revert left s. induction fuel as [|fuel IH]; intros left s Hi Hf Hwf He.
  { destruct Hi as [Hok _]. pose proof (lexeme_ok_le _ _ _ Hok). destruct Hok as (_ & ? & _). lia. }
  cbn [operators]. apply hoare_bind, hoare_get.
  destruct (assoc _ PRECEDENCE) as [[op p]|] eqn:Hop; [|by apply hoare_ret].
  destruct (Nat.leb m p); [|by apply hoare_ret].
  assert (lex_start (current s) < lex_end (current s)) as Hne.
  { destruct (text (current s)) as [|c t] eqn:Ht; [done|].
    by eapply lexeme_nonempty; [apply Hi|]. }
  apply hoare_bind. eapply hoare_conseq; [by apply take_spec|]. intros tok s1 (-> & Hi1 & He1).
  apply hoare_bind. eapply hoare_conseq; [by apply expr_spec|].
  intros right s2 (Hi2 & Hw2 & Hs2 & He2).
  pose proof (wf_span _ Hwf). pose proof (wf_span _ Hw2).
  eapply hoare_conseq; [apply IH|].
  - done.
  - lia.
  - constructor; unfold node_start, node_end in *; simpl; auto.
    + lia.
    + unfold node_start, node_end. lia.
    + repeat constructor; intros Heq; rewrite Heq in *; simpl in *; lia.
  - done.
  - done.
Qed.

(** The facts about the position of the parser that a step gives. *)
Lemma call_spec tok s :
  inv s -> lexeme_ok source 0 tok -> lex_end tok <= lex_start (current s) ->
  lex_start tok < lex_end tok ->
  hoare (call_node source expr tok) s
    (fun n s' => inv s' /\ wf_node n /\ node_start n = lex_start tok /\
                 node_end n <= lex_start (current s')).
Proof.
  intros Hi Hok Hle Hlt. unfold call_node.
  destruct (assoc (text tok) BILLING_FUNCTIONS) as [[f arity]|] eqn:Hf; [|auto with parser].
  assert (arity = function_arity f) as ->.
  { clear -Hf. revert Hf. unfold BILLING_FUNCTIONS. cbn [assoc].
    repeat (case_match; [by intros [= <- <-]|]). done. }
  apply hoare_bind. eapply hoare_conseq; [by apply take_spec|]. intros open s1 (-> & Hi1 & He1).
  pose proof (lexeme_ok_le _ _ _ (proj1 Hi)).
  apply hoare_bind. eapply hoare_conseq.
  { apply (arguments_spec _ _ (lex_end tok)); [done|lia|constructor|simpl; lia]. }
  intros args s2 (Hi2 & Hw & Hch).
  apply hoare_bind. eapply hoare_conseq; [by apply expect_spec|].
  intros close s3 [(-> & Hi3 & He3) Htext].
  pose proof (lexeme_nonempty _ _ _ _ (proj1 Hi2) Htext).
  destruct (Nat.eqb_spec (length args) (function_arity f)); simpl; [|auto with parser].
  apply hoare_ret. split; [done|]. split; [|done].
  pose proof (chain_bounds (lex_end tok) (lex_start (current s2)) args) as Hb.
  assert (Forall (fun n => node_start n <= node_end n) args) as Hargs.
  { eapply Forall_impl; [exact Hw|]. intros x ?%wf_span. lia. }
  destruct (Hb Hargs Hch) as [Hb1 Hb2].
  constructor; unfold node_start, node_end; simpl; auto.
  - lia.
  - eapply chain_mono; [..|exact Hch]; lia.
  - eapply Forall_impl; [exact Hb2|]. intros c [Hc1 Hc2] Heq%(f_equal sp_start).
    simpl in Heq. unfold node_start in Hc1. lia.
Qed.

Lemma wf_leaf n a b : node_span n = mkspan a b -> node_children n = [] -> a < b ->
  local_ok n -> wf_node n.
Proof.
  intros Hsp Hch Hlt Hl. constructor; unfold node_start, node_end; rewrite ?Hsp, ?Hch; simpl;
    try done; lia || constructor.
Qed.

Lemma primary_symbol_spec s s1 : taken s (current s) s1 -> inv s ->
  hoare (primary_symbol source expr (current s)) s1 (parsed s).
Proof.
  intros (_ & Hi1 & He1) Hi. set (tok := current s) in *.
  pose proof (proj1 Hi) as Hok. fold tok in Hok.
  pose proof Hok as (_ & _ & _ & _ & Hkind). unfold primary_symbol.
  destruct (jeqb (text tok) (js "(")) eqn:Hopen.
  { apply jeqb_eq in Hopen. pose proof (lexeme_nonempty _ _ _ _ Hok Hopen).
    apply hoare_bind. eapply hoare_conseq; [by apply expr_spec|].
    intros inner s2 (Hi2 & Hw2 & Hs2 & He2).
    apply hoare_bind. eapply hoare_conseq; [by apply expect_spec|].
    intros close s3 [(-> & Hi3 & He3) Hct]. pose proof (lexeme_nonempty _ _ _ _ (proj1 Hi2) Hct).
    apply hoare_ret. split; [done|]. split; [apply wf_with_span; [done|lia..]|].
    unfold node_start, node_end. destruct inner; simpl; done. }
  destruct (unary_operator (text tok)) as [op|] eqn:Hun.
  { assert (lex_start tok < lex_end tok).
    { destruct (text tok) as [|c t] eqn:Ht; [done|]. by eapply lexeme_nonempty. }
    apply hoare_bind. eapply hoare_conseq; [by apply expr_spec|].
    intros operand s2 (Hi2 & Hw2 & Hs2 & He2). pose proof (wf_span _ Hw2).
    apply hoare_ret. split; [done|]. split; [|done].
    constructor; unfold node_start, node_end in *; simpl; auto; [lia|unfold node_start, node_end; lia|].
    repeat constructor. intros Heq. rewrite Heq in *. simpl in *. lia. }
  destruct (kind tok) eqn:Hk; try apply hoare_throw_at.
  rewrite bool_decide_eq_true_2 by done. cbn [negb].
  assert (Hleaf : forall n, node_span n = mkspan (lex_start tok) (lex_end tok) ->
    node_children n = [] -> local_ok n -> parsed s n s1).
  { intros n Hsp Hch Hl. unfold parsed, node_start, node_end. rewrite Hsp. simpl.
    split; [done|]. split; [|done]. by eapply wf_leaf. }
  destruct (jeqb _ (js "nil")); [by apply hoare_ret, Hleaf|].
  destruct (_ || _); [by apply hoare_ret, Hleaf|].
  apply hoare_bind, is_text_spec. destruct (jeqb (text (current s1)) _); cbn [negb].
  { by apply call_spec. }
  destruct (assoc _ TOKEN_VARIABLES) as [v|]; [|auto with parser]. by apply hoare_ret, Hleaf.
Qed.

Lemma primary_spec s : inv s -> hoare (primary source expr) s (parsed s).
Proof.
  intros Hi. unfold primary. apply hoare_bind.
  eapply hoare_conseq; [by apply take_spec|]. intros tok s1 Hst. pose proof Hst as (-> & Hi1 & He1).
  pose proof (primary_symbol_spec s s1 Hst Hi) as Hrest.
  pose proof (proj1 Hi) as (_ & _ & _ & Hval & Hkind). unfold lexval_ok in Hval.
  destruct (kind (current s)), (value (current s)) as [|x i|v]; try exact Hrest;
    apply hoare_ret; (split; [done|]; split; [by eapply wf_leaf|done]).
Qed.

Lemma expression_body_spec m s : inv s -> hoare (expression_body source expr m) s (parsed s).
Proof.
  intros Hi. unfold expression_body. apply hoare_bind.
  eapply hoare_conseq; [by apply primary_spec|]. intros first s1 (Hi1 & Hw1 & Hs1 & He1).
  apply hoare_bind. eapply hoare_conseq; [apply operators_spec; [done|lia|done..]|].
  intros left s2 (Hi2 & Hw2 & Hs2 & He2). apply hoare_bind, is_text_spec.
  destruct (Nat.eqb m 0 && _) eqn:Hq.
  2: { apply hoare_ret. split; [done|]. split; [done|]. split; [congruence|done]. }
  apply andb_true_iff in Hq as [_ Hq%jeqb_eq].
  pose proof (lexeme_nonempty _ _ _ _ (proj1 Hi2) Hq).
  apply hoare_bind. eapply hoare_conseq; [by apply take_spec|]. intros tok s3 (-> & Hi3 & He3).
  apply hoare_bind. eapply hoare_conseq; [by apply expr_spec|].
  intros yes s4 (Hi4 & Hw4 & Hs4 & He4).
  apply hoare_bind. eapply hoare_conseq; [by apply expect_spec|].
  intros colon s5 [(-> & Hi5 & He5) Hct]. pose proof (lexeme_nonempty _ _ _ _ (proj1 Hi4) Hct).
  apply hoare_bind. eapply hoare_conseq; [by apply expr_spec|].
  intros no s6 (Hi6 & Hw6 & Hs6 & He6).
  pose proof (wf_span _ Hw2). pose proof (wf_span _ Hw4). pose proof (wf_span _ Hw6).
  apply hoare_ret. split; [done|]. split; [|split; [unfold node_start in *; simpl; congruence|done]].
  constructor; unfold node_start, node_end in *; simpl; auto.
  - lia.
  - unfold node_start, node_end. lia.
  - repeat constructor; intros Heq; rewrite Heq in *; simpl in *; lia.
Qed.
End OpenSpec.

Lemma expression_spec allowed m s : inv s -> hoare (expression source allowed m) s (parsed s).
Proof.
  revert m s. induction allowed as [|allowed IH]; intros m s Hi; [apply hoare_throw|].
  cbn [expression]. by apply expression_body_spec.
Qed.
End ParserSpec.

Lemma version_prefix_bound source ds n : version_prefix source = Some (ds, n) -> n <= length source.
Proof.
  unfold version_prefix. destruct (span_while is_space source) as [b r0] eqn:Hb.
  apply span_while_app in Hb. destruct r0 as [|v r1]; [done|]. case_match; [|done].
  destruct (span_while is_digit r1) as [d r2] eqn:Hd. apply span_while_app in Hd.
  destruct d as [|d0 d]; [done|]. destruct r2 as [|c r2]; [done|]. case_match; [|done].
  intros [= <- <-]. subst. rewrite !length_app. simpl. rewrite length_app. simpl. lia.
Qed.

Lemma new_parser_spec source :
  match new_parser source with
  | Ok p => inv source p
  | Err e => billing_error e
  end.
Proof.
  unfold new_parser. destruct (Nat.ltb _ _); [done|].
  assert (Hstart : forall c, c <= length source ->
    match (match next source {| l_cursor := c; l_count := 0 |} with
           | Ok (lx, s) => Ok {| cursor := l_cursor s; count := l_count s; current := lx |}
           | Err e => Err e
           end) with
    | Ok p => inv source p | Err e => billing_error e end).
  { intros c Hc. pose proof (next_spec source {| l_cursor := c; l_count := 0 |} Hc) as Hn.
    unfold hoare in Hn. destruct (next _ _) as [[lx s]|e]; [|done].
    destruct Hn as [(_ & Hn) Hn']. split; [|done]. split; [lia|done]. }
  destruct (version_prefix source) as [[ds n]|] eqn:Hv.
  - apply version_prefix_bound in Hv. destruct (jeqb ds _); [by apply Hstart|done].
  - apply Hstart. lia.
Qed.

Lemma parse_spec source :
  match parse source with
  | Ok n => wf_node n /\ node_end n <= length source
  | Err e => billing_error e
  end.
Proof.
  unfold parse. pose proof (new_parser_spec source) as Hp.
  destruct (new_parser source) as [p|e]; [|done]. simpl.
  assert (hoare (parse_whole source) p (fun n _ => wf_node n /\ node_end n <= length source)) as Hw.
  { unfold parse_whole. apply hoare_bind. eapply hoare_conseq; [by apply expression_spec|].
    intros n s (Hi & Hwf & _ & He). apply hoare_bind, hoare_get. case_match; [|apply hoare_throw_at].
    apply hoare_ret. split; [done|]. destruct Hi as [Hok _].
    pose proof (lexeme_ok_le _ _ _ Hok). destruct Hok as (_ & ? & _). lia. }
  unfold hoare in Hw. destruct (parse_whole source p) as [[n s]|e]; done.
Qed.

(** ** Spans never repeat *)

Lemma wf_descendant n m : wf_node n -> m ∈ postorder n ->
  wf_node m /\ node_start n <= node_start m /\ node_end m <= node_end n /\
  (m = n \/ node_end m - node_start m < node_end n - node_start n).
Proof.
  revert m. induction n as [n IH] using node_children_ind. intros m Hn.
  rewrite postorder_unfold, elem_of_app, list_elem_of_singleton, elem_of_concat_map.
  intros [(c & Hc & Hm)| ->].
  - destruct (wf_child n c Hn Hc) as (Hw & H1 & H2 & H3). rewrite Forall_forall in IH.
    destruct (IH c Hc m Hw Hm) as (Hw' & H4 & H5 & H6). split; [done|].
    split; [lia|]. split; [lia|]. right. destruct H6 as [->|]; lia.
  - eauto using Nat.le_refl.
Qed.

Lemma chain_spans_nodup lo hi l :
  chain lo hi l -> Forall wf_node l ->
  Forall (fun c => NoDup (node_span <$> postorder c)) l ->
  NoDup (node_span <$> concat (map postorder l)) /\
  Forall (fun m => lo <= node_start m) (concat (map postorder l)).
Proof.
  revert lo. induction l as [|c l IH]; intros lo Hc Hw Hn; simpl.
  { split; constructor. }
  inversion_clear Hw as [|? ? Hwc Hwl]. inversion_clear Hn as [|? ? Hnc Hnl].
  destruct Hc as [Hlo Hc]. destruct (IH _ Hc Hwl Hnl) as [IH1 IH2]. split.
  - rewrite fmap_app. apply NoDup_app. split; [done|]. split; [|done].
    intros sp Hsp1 Hsp2. apply list_elem_of_fmap in Hsp1 as (a & -> & Ha).
    apply list_elem_of_fmap in Hsp2 as (b & Hab & Hb).
    destruct (wf_descendant c a Hwc Ha) as (Hwa & _ & Ha2 & _).
    rewrite Forall_forall in IH2. specialize (IH2 b Hb). pose proof (wf_span a Hwa).
    unfold node_start, node_end in *. rewrite Hab in *. lia.
  - apply Forall_app. split.
    + apply Forall_forall. intros a Ha. destruct (wf_descendant c a Hwc Ha) as (_ & ? & _). lia.
    + eapply Forall_impl; [exact IH2|]. pose proof (wf_span c Hwc). simpl. lia.
Qed.

Lemma wf_spans_nodup n : wf_node n -> NoDup (node_span <$> postorder n).
Proof.
  induction n as [n IH] using node_children_ind. intros Hn.
  pose proof Hn as [H1 H2 H3 H4 H5]. rewrite postorder_unfold, fmap_app.
  destruct (chain_spans_nodup _ _ _ H2 H5) as [Hnd _].
  { rewrite Forall_forall in *. auto. }
  apply NoDup_app. split; [done|]. split; [|apply NoDup_singleton].
  intros sp Hsp Hn'%list_elem_of_singleton. subst sp.
  apply list_elem_of_fmap in Hsp as (m & Hm & Hin).
  apply elem_of_concat_map in Hin as (c & Hc & Hin).
  destruct (wf_child n c Hn Hc) as (Hwc & _ & _ & Hlt).
  destruct (wf_descendant c m Hwc Hin) as (_ & _ & _ & Hle).
  unfold node_start, node_end in *. rewrite Hm in *. destruct Hle as [->|]; lia.
Qed.

Lemma NoDup_fmap_inj {A B} (f : A -> B) (l : list A) a b :
  NoDup (f <$> l) -> a ∈ l -> b ∈ l -> f a = f b -> a = b.
Proof.
  induction l as [|x l IH]; simpl; [by intros _ ?%elem_of_nil|].
  rewrite NoDup_cons, !elem_of_cons. intros [Hx Hn] [->|Ha] [->|Hb] Hf; auto.
  - destruct Hx. rewrite Hf. by apply list_elem_of_fmap_2.
  - destruct Hx. rewrite <- Hf. by apply list_elem_of_fmap_2.
Qed.

(** Comparing spans identifies the node objects of a well-formed tree. *)
Lemma same_node_eq n a b : wf_node n -> a ∈ postorder n -> b ∈ postorder n ->
  same_node a b = true <-> a = b.
Proof.
  intros Hn Ha Hb. unfold same_node. rewrite bool_decide_eq_true. split; [|by intros ->].
  apply NoDup_fmap_inj with (postorder n); [by apply wf_spans_nodup|done..].
Qed.

(** ** Properties *)

(** C38: parsing always ends, within loops that never run longer than the text
    is: on every source text the lexer and the parser either return a tree,
    which is well formed and lies in the text (non-empty spans, children inside
    their parent in order and without overlap, the arity of the function table,
    canonical finite non-negative number literals), or throw a
    [BillingExpressionError]; they never run into an error of the language
    itself. *)
Theorem parse_no_fuel (source : jstr) :
  (exists n, parse source = Ok n /\ wf_node n /\ node_end n <= length source) \/
  (exists d, parse source = Err (BillingExpressionError d)).
Proof.
  pose proof (parse_spec source) as H. destruct (parse source) as [n|[d| |]]; try done; eauto.
Qed.

(** The tree of a source text is well formed: every node spans a non-empty
    part of the text, its children lie inside it in order and without overlap
    and are strictly shorter, every call has the arity of the function table,
    and every number literal is a canonical finite non-negative number, a safe
    integer when it is flagged as an integer. *)
Theorem parse_wf (source : jstr) (n : ExpressionNode) :
  parse source = Ok n -> wf_node n /\ node_end n <= length source.
Proof. intros H. pose proof (parse_spec source) as Hs. by rewrite H in Hs. Qed.

Lemma parse_wf_witness :
  wf_node (Binary (mkspan 0 5) Bmul (Var (mkspan 0 1) Vp)
             (Literal (mkspan 4 5) (LNum (f64_of_Z 2) true))) /\ 5 <= length (js "p * 2").
Proof. apply (parse_wf (js "p * 2")). vm_compute. reflexivity. Defined.

(** No two nodes of a parsed tree have the same span, so comparing spans is
    comparing node objects. *)
Theorem parse_spans_unique (source : jstr) (n : ExpressionNode) :
  parse source = Ok n -> NoDup (node_span <$> postorder n).
Proof.
  intros H. apply wf_spans_nodup. pose proof (parse_spec source) as Hs.
  rewrite H in Hs. apply Hs.
Qed.

Lemma parse_spans_unique_witness :
  NoDup [mkspan 0 1; mkspan 4 5; mkspan 0 5].
Proof.
  apply (parse_spans_unique (js "p * 2")
           (Binary (mkspan 0 5) Bmul (Var (mkspan 0 1) Vp)
             (Literal (mkspan 4 5) (LNum (f64_of_Z 2) true)))).
  vm_compute. reflexivity.
Defined.
