(* ===== verification/BillingCompile.v ===== *)
(** * Billing expressions: static checks and compilation

    Model of the second half of [billing-expression/parser.ts]: the type check,
    the collection of request rules, the check of fixed-price trees,
    [compileBillingExpression] and its cache of 128 entries. *)

From stdpp Require Import base list numbers strings gmap.
From Stdlib Require Import SpecFloat Lia.
From S2P Require Import Prelude.
From S2P Require Import JsString.
From S2P Require Import JsNumber.
From S2P Require Import BillingTypes.
From S2P Require Import BillingParser.

#[local] Open Scope jsm.

(** ** Type checking *)

Inductive ExpressionType := Tnumber | Tstring | Tboolean | Tnil | Tdynamic.

#[global] Instance ExpressionType_eq_dec : EqDecision ExpressionType.
Proof. solve_decision. Defined.

Definition type_name (t : ExpressionType) : jstr :=
  match t with
  | Tnumber => js "number"
  | Tstring => js "string"
  | Tboolean => js "boolean"
  | Tnil => js "nil"
  | Tdynamic => js "dynamic"
  end.

(** [types.get(child)] is [actual]. *)
Definition requireType (child : ExpressionNode) (actual : option ExpressionType)
    (expected : ExpressionType) : res exn unit :=
  if decide (actual = Some expected \/ actual = Some Tdynamic) then Ok tt
  else Err (BillingExpressionError
              {| code := Dtype; detail := type_name expected ++ js " operand";
                 position := Some (node_start child) |}).

(** [requireType(args[i], expected)] *)
Definition require_arg (args : list ExpressionNode) (ts : list (option ExpressionType)) (i : nat)
    (expected : ExpressionType) : res exn unit :=
  match args !! i, ts !! i with
  | Some a, Some t => requireType a t expected
  | _, _ => Err (NativeError (js "TypeError"))
  end.

Definition require_args (args : list ExpressionNode) (ts : list (option ExpressionType))
    (expected : ExpressionType) : res exn unit :=
  (fix go l :=
     match l with
     | [] => Ok tt
     | (a, t) :: l' => _ <-- requireType a t expected ;; go l'
     end) (zip args ts).

(** The type of a call, given the types of its arguments. *)
Definition call_type (f : fname) (args : list ExpressionNode) (ts : list (option ExpressionType))
    : res exn ExpressionType :=
  match f with
  | Fparam | Fu => _ <-- require_arg args ts 0 Tstring ;; Ok Tdynamic
  | Fheader => _ <-- require_arg args ts 0 Tstring ;; Ok Tstring
  | Ftime _ => _ <-- require_arg args ts 0 Tstring ;; Ok Tnumber
  | Fhas => _ <-- require_arg args ts 1 Tstring ;; Ok Tboolean
  | Ftier =>
      _ <-- require_arg args ts 0 Tstring ;; _ <-- require_arg args ts 1 Tnumber ;; Ok Tnumber
  | Ffixed | Fmin | Fmax | Fabs | Fceil | Ffloor =>
      _ <-- require_args args ts Tnumber ;; Ok Tnumber
  end.

Definition binary_type (o : binop) (a b : ExpressionNode) (ta tb : option ExpressionType)
    : res exn ExpressionType :=
  match o with
  | Band | Bor => _ <-- requireType a ta Tboolean ;; _ <-- requireType b tb Tboolean ;; Ok Tboolean
  | Beq | Bne | Blt | Ble | Bgt | Bge => Ok Tboolean
  | Badd | Bsub | Bmul | Bdiv | Bmod =>
      if decide (o = Badd /\ ta = Some Tstring /\ tb = Some Tstring) then Ok Tstring
      else _ <-- requireType a ta Tnumber ;; _ <-- requireType b tb Tnumber ;; Ok Tnumber
  end.

(** The body of the visitor of [checkExpressionTypes]: the type of a node from
    what [types.get] answers for its children. *)
Definition type_rule (n : ExpressionNode) (ts : list (option ExpressionType)) : res exn ExpressionType :=
  match n, ts with
  | Literal _ LNull, _ => Ok Tnil
  | Literal _ (LNum _ _), _ => Ok Tnumber
  | Literal _ (LStr _), _ => Ok Tstring
  | Literal _ (LBool _), _ => Ok Tboolean
  | Var _ _, _ => Ok Tnumber
  | Unary _ o a, [ta] =>
      let result := match o with Unot => Tboolean | _ => Tnumber end in
      _ <-- requireType a ta result ;; Ok result
  | Conditional _ c _ _, [tc; ty; tn] =>
      _ <-- requireType c tc Tboolean ;;
      Ok (if decide (ty = tn) then default Tdynamic ty else Tdynamic)
  | Binary _ o a b, [ta; tb] => binary_type o a b ta tb
  | Call _ f args, _ => call_type f args ts
  | _, _ => Err (NativeError (js "TypeError"))
  end.

(** The key of a node in [types], a map keyed by node objects. *)
Definition node_key (n : ExpressionNode) : nat * nat := (node_start n, node_end n).

Definition type_visitor (n : ExpressionNode) : st exn (gmap (nat * nat) ExpressionType) unit :=
  fun types =>
    t <-- type_rule n ((fun c => types !! node_key c) <$> node_children n) ;;
    Ok (tt, <[node_key n := t]> types).

Definition checkExpressionTypes (ast : ExpressionNode) : res exn unit :=
  match visitExpression ast type_visitor ∅ with
  | Ok _ => Ok tt
  | Err e => Err e
  end.

(** ** Request rules *)

Record RequestRule := {
  rule_node : ExpressionNode;
  rule_condition : ExpressionNode;
  rule_multiplier : f64;
  rule_cond : jstr;
}.

Definition is_request_probe (f : fname) : bool :=
  match f with
  | Fparam | Fheader | Ftime _ => true
  | _ => false
  end.

(** [node.kind === 'literal' && typeof node.value === 'number'] *)
Definition number_literal (n : ExpressionNode) : option f64 :=
  match n with
  | Literal _ (LNum x _) => Some x
  | _ => None
  end.

Definition fone : f64 := f64_of_Z 1.

Definition rule_visitor (source : jstr) (n : ExpressionNode) : st exn (list RequestRule) unit :=
  match n with
  | Conditional _ c y no =>
      match number_literal y, number_literal no with
      | Some m, Some k =>
          if feqb k fone then
            d <- st_lift (expressionDependencies c) ;;
            if existsb is_request_probe (dep_functions d) then
              st_modify (fun rules =>
                rules ++ [{| rule_node := n; rule_condition := c; rule_multiplier := m;
                             rule_cond := slice source (node_start c) (node_end c) |}])
            else st_ret tt
          else st_ret tt
      | _, _ => st_ret tt
      end
  | _ => st_ret tt
  end.

Definition collect_rules (source : jstr) (ast : ExpressionNode) : res exn (list RequestRule) :=
  match visitExpression ast (rule_visitor source) [] with
  | Ok (_, rules) => Ok rules
  | Err e => Err e
  end.

(** ** Fixed prices *)

Definition has_function (f : fname) (d : dependencies) : bool := bool_decide (f ∈ dep_functions d).

Definition containsPricingMarker (n : ExpressionNode) : res exn bool :=
  d <-- expressionDependencies n ;; Ok (has_function Ftier d || has_function Ffixed d).

Definition fixed_tree_error (n : ExpressionNode) : exn :=
  BillingExpressionError
    {| code := Dtype;
       detail := js "Use tier(name, fixed(amount)) with a finite, non-negative numeric literal; combine pricing branches only with conditions and request multipliers.";
       position := Some (node_start n) |}.

Definition million : f64 := f64_of_Z (10 ^ 6).

(** The last test of [validateFixedPricingTree]: a [tier] call whose label has no
    marker and whose price is a literal fixed amount or has no marker. *)
Definition validate_tier (n : ExpressionNode) : res exn unit :=
  match n with
  | Call _ Ftier [label; price] =>
      marked <-- containsPricingMarker label ;;
      if marked : bool then Err (fixed_tree_error n)
      else
        match price with
        | Call _ Ffixed [amount] =>
            match number_literal amount with
            | Some x => if fleb fzero x && is_finite (fmul x million) then Ok tt
                        else Err (fixed_tree_error n)
            | None => Err (fixed_tree_error n)
            end
        | Call _ Ffixed _ => Err (NativeError (js "TypeError"))
        | _ => inner <-- containsPricingMarker price ;;
               if inner : bool then Err (fixed_tree_error n) else Ok tt
        end
  | Call _ Ftier _ => Err (NativeError (js "TypeError"))
  | _ => Err (fixed_tree_error n)
  end.

(** [factor] is a request multiplier that may scale a price. *)
Definition scaling_rule (rules : list RequestRule) (factor : ExpressionNode) : res exn bool :=
  match List.find (fun r => same_node (rule_node r) factor) rules with
  | Some r =>
      if fleb fzero (rule_multiplier r) then
        marked <-- containsPricingMarker (rule_condition r) ;; Ok (negb marked)
      else Ok false
  | None => Ok false
  end.

Fixpoint validateFixedPricingTree (rules : list RequestRule) (n : ExpressionNode) : res exn unit :=
  match n with
  | Conditional _ c y no =>
      marked <-- containsPricingMarker c ;;
      if negb marked then
        _ <-- validateFixedPricingTree rules y ;; validateFixedPricingTree rules no
      else validate_tier n
  | Binary _ Bmul l r =>
      by_right <-- scaling_rule rules r ;;
      if by_right : bool then validateFixedPricingTree rules l
      else
        by_left <-- scaling_rule rules l ;;
        if by_left : bool then validateFixedPricingTree rules r else validate_tier n
  | _ => validate_tier n
  end.

(** ** Compilation *)

Record CompiledBillingExpression := {
  c_source : jstr;
  c_ast : ExpressionNode;
  c_variables : list TokenVariable;
  c_functions : list fname;
  c_rules : list RequestRule;
}.

Inductive CompilationResult :=
| Ready (c : CompiledBillingExpression)
| NotReady (f : ExpressionFailure).

(** The [try] block. *)
Definition compile_source (source : jstr) : res exn CompiledBillingExpression :=
  ast <-- parse source ;;
  _ <-- checkExpressionTypes ast ;;
  d <-- expressionDependencies ast ;;
  rules <-- collect_rules source ast ;;
  _ <-- (if has_function Ffixed d then validateFixedPricingTree rules ast else Ok tt) ;;
  Ok {| c_source := source; c_ast := ast; c_variables := dep_variables d;
        c_functions := dep_functions d; c_rules := rules |}.

(** [compileBillingExpression] on a source that is not cached. *)
Definition compile (source : jstr) : CompilationResult :=
  match compile_source source with
  | Ok c => Ready c
  | Err e => NotReady (expressionFailure e)
  end.

(** [compiledCache]: a [Map], oldest entry first. *)
Abbreviation cache := (list (jstr * CompilationResult)).

(** [compileBillingExpression] *)
Definition compileBillingExpression (source : jstr) (c : cache) : CompilationResult * cache :=
  match assoc source c with
  | Some r => (r, c)
  | None =>
      let result := compile source in
      let c' := if Nat.leb 128 (length c) then tail c else c in
      (result, c' ++ [(source, result)])
  end.
