(* ===== verification/BillingCompileFacts.v ===== *)
(** * Billing expressions: what compilation guarantees

    The stack traversal is post-order visiting under a depth bound; the map-based
    type check is the recursive type inference; dependencies and request rules
    are exactly what the tree contains; the cache is bounded and transparent. *)

From stdpp Require Import base list numbers strings gmap.
From Stdlib Require Import SpecFloat Lia.
From S2P Require Import Prelude.
From S2P Require Import JsString.
From S2P Require Import JsNumber.
From S2P Require Import JsNumberFacts.
From S2P Require Import BillingTypes.
From S2P Require Import BillingParser.
From S2P Require Import BillingSpans.
From S2P Require Import BillingCompile.

#[local] Open Scope jsm.

(** ** Traversal as iteration over the post-order list *)

Lemma st_forM_concat {S A} (f : A -> st exn S unit) (ls : list (list A)) s :
  st_forM f (concat ls) s = st_forM (fun l => st_forM f l) ls s.
Proof.
  revert s. induction ls as [|l ls IH]; intros s; [done|]. simpl. rewrite st_forM_app.
  unfold st_bind. destruct (st_forM f l s) as [[[] s']|e]; [apply IH|done].
Qed.

Lemma st_forM_ext {S A} (f g : A -> st exn S unit) l s :
  (forall x s, x ∈ l -> f x s = g x s) -> st_forM f l s = st_forM g l s.
Proof.
  revert s. induction l as [|x l IH]; intros s H; [done|]. simpl. unfold st_bind.
  rewrite H by (by left). destruct (g x s) as [[[] s']|e]; [|done].
  apply IH. intros y s'' Hy. apply H. by right.
Qed.

Lemma st_forM_map {S A B} (f : B -> st exn S unit) (g : A -> B) l s :
  st_forM f (map g l) s = st_forM (fun x => f (g x)) l s.
Proof.
  revert s. induction l as [|x l IH]; intros s; [done|]. simpl. unfold st_bind.
  destruct (f (g x) s) as [[[] s']|e]; [apply IH|done].
Qed.

Lemma visit_rec_postorder {S} (v : ExpressionNode -> st exn S unit) d n s :
  d + node_depth n <= 256 -> visit_rec v d n s = st_forM v (postorder n) s.
Proof.
  revert d s. induction n as [n IH] using node_children_ind. intros d s Hd.
  rewrite visit_rec_unfold, postorder_unfold, st_forM_app.
  destruct (Nat.ltb_spec 256 d) as [?|_]; [lia|]. unfold st_bind.
  rewrite st_forM_concat, st_forM_map.
  rewrite (st_forM_ext _ (fun c => st_forM v (postorder c))).
  - destruct (st_forM _ (node_children n) s) as [[[] s']|e]; [|done].
    simpl. unfold st_bind, st_ret. by destruct (v n s') as [[[] s'']|e].
  - intros c s' Hc. rewrite Forall_forall in IH. apply IH; [done|].
    pose proof (node_depth_child n c Hc). lia.
Qed.

Lemma st_forM_elem_Ok {S A} (f : A -> st exn S unit) l s r x :
  st_forM f l s = Ok r -> x ∈ l -> exists s1 r1, f x s1 = Ok r1.
Proof.
  revert s. induction l as [|y l IH]; intros s; [by intros _ ?%elem_of_nil|].
  simpl. intros (a & s' & H1 & H2)%st_bind_Ok [->|Hx]%elem_of_cons; eauto.
Qed.

Lemma node_depth_attained n : node_children n = [] /\ node_depth n = 0 \/
  exists c, c ∈ node_children n /\ node_depth n = S (node_depth c).
Proof.
  destruct n as [| |sp f args|sp o a|sp o a b|sp a b c]; simpl; auto.
  - induction args as [|a args IH]; [by left|]. right. simpl.
    destruct (Nat.max_spec (S (node_depth a)) (list_max (map (fun a => S (node_depth a)) args)))
      as [[Hlt ->]|[Hle ->]].
    + destruct IH as [[-> ?]|(c & Hc & ->)]; [simpl in Hlt; lia|]. exists c. split; [by right|done].
    + exists a. split; [by left|done].
  - right. exists a. split; [by left|done].
  - right. destruct (Nat.max_spec (node_depth a) (node_depth b)) as [[? ->]|[? ->]];
      eexists; (split; [|done]); set_solver.
  - right. destruct (Nat.max_spec (node_depth b) (node_depth c)) as [[? ->]|[? ->]];
      match goal with |- context [Nat.max ?x ?y] => destruct (Nat.max_spec x y) as [[? ->]|[? ->]] end;
      eexists; (split; [|done]); set_solver.
Qed.

Lemma visit_rec_depth {S} (v : ExpressionNode -> st exn S unit) d n s r :
  visit_rec v d n s = Ok r -> d + node_depth n <= 256.
Proof.
  revert d s r. induction n as [n IH] using node_children_ind. intros d s r.
  rewrite visit_rec_unfold. destruct (Nat.ltb_spec 256 d) as [?|?]; [done|].
  intros (a & s' & H1 & _)%st_bind_Ok.
  destruct (node_depth_attained n) as [[_ ->]|(c & Hc & ->)]; [lia|].
  destruct (st_forM_elem_Ok _ _ _ _ _ H1 Hc) as (s1 & r1 & H2).
  rewrite Forall_forall in IH. apply (IH c Hc) in H2. lia.
Qed.

(** ** Dependencies *)

Lemma set_add_elem {A} `{EqDecision A} (x y : A) s : y ∈ set_add x s <-> y = x \/ y ∈ s.
Proof. unfold set_add. case_decide; set_solver. Qed.

Definition uses_variable (n : ExpressionNode) (v : TokenVariable) : Prop :=
  exists sp, Var sp v ∈ postorder n.

Definition uses_function (n : ExpressionNode) (f : fname) : Prop :=
  exists sp args, Call sp f args ∈ postorder n.

Lemma collect_dependency_spec l d0 : exists d,
  st_forM collect_dependency l d0 = Ok (tt, d) /\
  (forall v, v ∈ dep_variables d <-> v ∈ dep_variables d0 \/ exists sp, Var sp v ∈ l) /\
  (forall f, f ∈ dep_functions d <-> f ∈ dep_functions d0 \/ exists sp args, Call sp f args ∈ l).
Proof.
  revert d0. induction l as [|n l IH]; intros d0; simpl.
  - exists d0. split; [done|]. split; intros x; set_solver.
  - unfold st_bind, collect_dependency, st_modify at 1.
    match goal with |- context [st_forM _ l ?d] => destruct (IH d) as (d' & H1 & H2 & H3) end.
    exists d'. split; [exact H1|]. split; intros x; [rewrite H2|rewrite H3]; clear H1 H2 H3;
      destruct n; simpl; rewrite ?set_add_elem; setoid_rewrite elem_of_cons; naive_solver.
Qed.

Lemma expressionDependencies_spec n : node_depth n <= 256 -> exists d,
  expressionDependencies n = Ok d /\
  (forall v, v ∈ dep_variables d <-> uses_variable n v) /\
  (forall f, f ∈ dep_functions d <-> uses_function n f).
Proof.
  intros Hd. unfold expressionDependencies. rewrite visitExpression_rec, visit_rec_postorder by lia.
  destruct (collect_dependency_spec (postorder n) {| dep_variables := []; dep_functions := [] |})
    as (d & -> & H2 & H3).
  exists d. split; [done|]. unfold uses_variable, uses_function. simpl in *.
  split; intros x; [rewrite H2|rewrite H3]; set_solver.
Qed.

(** ** Type checking is recursive type inference *)

(** The specification: types bottom-up, without a table. *)
Fixpoint infer (n : ExpressionNode) : res exn ExpressionType :=
  ts <-- match n with
         | Call _ _ args => res_mapM infer args
         | Unary _ _ a => ta <-- infer a ;; Ok [ta]
         | Binary _ _ a b => ta <-- infer a ;; tb <-- infer b ;; Ok [ta; tb]
         | Conditional _ a b c =>
             ta <-- infer a ;; tb <-- infer b ;; tc <-- infer c ;; Ok [ta; tb; tc]
         | _ => Ok []
         end ;;
  type_rule n (Some <$> ts).

Lemma infer_unfold n :
  infer n = res_bind (res_mapM infer (node_children n)) (fun ts => type_rule n (Some <$> ts)).
Proof.
  destruct n; cbn [infer node_children res_mapM]; try done;
    repeat match goal with |- context [infer ?a] => destruct (infer a) end; done.
Qed.

Section TypeCheck.
Abbreviation types := (gmap (nat * nat) ExpressionType).

Definition keys (l : list ExpressionNode) : list (nat * nat) := node_key <$> l.

(** Visiting [n] from the table [m] records the inferred type of [n] and
    touches only keys of its own nodes. *)
Definition visited_as (n : ExpressionNode) (m : types) (r : res exn (unit * types)) : Prop :=
  match infer n with
  | Ok t => exists m', r = Ok (tt, m') /\ m' !! node_key n = Some t /\
              (forall k, k ∉ keys (postorder n) -> m' !! k = m !! k)
  | Err e => r = Err e
  end.

Lemma visit_children_types l m :
  NoDup (keys (concat (map postorder l))) ->
  Forall (fun c => forall m, NoDup (keys (postorder c)) ->
            visited_as c m (st_forM type_visitor (postorder c) m)) l ->
  match res_mapM infer l with
  | Ok ts => exists m', st_forM (fun c => st_forM type_visitor (postorder c)) l m = Ok (tt, m') /\
      ((fun c => m' !! node_key c) <$> l) = Some <$> ts /\
      (forall k, k ∉ keys (concat (map postorder l)) -> m' !! k = m !! k)
  | Err e => st_forM (fun c => st_forM type_visitor (postorder c)) l m = Err e
  end.
Proof.
  revert m. induction l as [|c l IH]; intros m Hnd Hl; simpl; [by exists m|].
  inversion_clear Hl as [|? ? Hc Hl']. unfold keys in Hnd. simpl in Hnd. rewrite fmap_app in Hnd.
  apply NoDup_app in Hnd as (Hnd1 & Hdisj & Hnd2). specialize (Hc m Hnd1).
  unfold visited_as in Hc. destruct (infer c) as [t|e]; simpl.
  2: { unfold st_bind. by rewrite Hc. }
  destruct Hc as (m1 & Hr & Ht & Hframe). unfold st_bind. rewrite Hr.
  specialize (IH m1 Hnd2 Hl'). destruct (res_mapM infer l) as [ts|e]; simpl; [|done].
  destruct IH as (m2 & Hr2 & Hts & Hframe2). exists m2. split; [done|]. split.
  - cbn [fmap list_fmap]. f_equal; [|exact Hts]. rewrite Hframe2; [done|].
    apply Hdisj. apply list_elem_of_fmap_2, postorder_self.
  - intros k Hk. unfold keys in Hk. cbn [map concat] in Hk. rewrite fmap_app, elem_of_app in Hk.
    rewrite Hframe2 by tauto. apply Hframe. tauto.
Qed.

Lemma visit_types n m : NoDup (keys (postorder n)) ->
  visited_as n m (st_forM type_visitor (postorder n) m).
Proof.
  revert m. induction n as [n IH] using node_children_ind. intros m Hnd.
  rewrite postorder_unfold in Hnd |- *. unfold keys in Hnd. rewrite fmap_app in Hnd.
  apply NoDup_app in Hnd as (Hnd1 & Hdisj & _).
  unfold visited_as. rewrite infer_unfold. rewrite st_forM_app, st_bind_unfold.
  rewrite st_forM_concat, st_forM_map.
  pose proof (visit_children_types (node_children n) m Hnd1 IH) as Hch.
  destruct (res_mapM infer (node_children n)) as [ts|e]; simpl; [|by rewrite Hch].
  destruct Hch as (m1 & -> & Hts & Hframe). unfold st_bind, type_visitor. rewrite Hts.
  destruct (type_rule n (Some <$> ts)) as [t|e]; simpl; [|done].
  eexists. split; [done|]. split; [by rewrite lookup_insert_eq|].
  intros k Hk. unfold keys in Hk. rewrite postorder_unfold, fmap_app, elem_of_app in Hk. simpl in Hk.
  rewrite lookup_insert_ne by set_solver. apply Hframe. tauto.
Qed.
End TypeCheck.

Lemma keys_nodup n : wf_node n -> NoDup (keys (postorder n)).
Proof.
  intros Hn. apply wf_spans_nodup in Hn. revert Hn. generalize (postorder n). intros l.
  induction l as [|a l IH]; [by constructor|]. unfold keys. simpl. rewrite !NoDup_cons.
  intros [Ha Hn]. split; [|by apply IH]. intros Hin. apply Ha.
  apply list_elem_of_fmap in Hin as (b & Hb & Hin). apply list_elem_of_fmap. exists b.
  split; [|done]. unfold node_key, node_start, node_end in Hb.
  destruct (node_span a), (node_span b). simpl in Hb. congruence.
Qed.

Lemma checkExpressionTypes_infer n : wf_node n -> node_depth n <= 256 ->
  checkExpressionTypes n = res_bind (infer n) (fun _ => Ok tt).
Proof.
  intros Hn Hd. unfold checkExpressionTypes. rewrite visitExpression_rec, visit_rec_postorder by lia.
  pose proof (visit_types n ∅ (keys_nodup n Hn)) as Hv. unfold visited_as in Hv.
  destruct (infer n) as [t|e]; simpl; [|by rewrite Hv]. by destruct Hv as (m' & -> & _).
Qed.

Lemma checkExpressionTypes_depth n : checkExpressionTypes n = Ok tt -> node_depth n <= 256.
Proof.
  unfold checkExpressionTypes. rewrite visitExpression_rec.
  destruct (visit_rec type_visitor 0 n ∅) as [r|] eqn:H; [|done].
  intros _. by apply visit_rec_depth in H.
Qed.

(** ** The typing relation *)

(** A value of type [t] may stand where [expected] is asked for: what a request
    or a request field holds is only known when the expression runs. *)
Definition usable (t expected : ExpressionType) : Prop := t = expected \/ t = Tdynamic.

(** The types of the language, rule by rule, independently of the checker. *)
Inductive has_type : ExpressionNode -> ExpressionType -> Prop :=
| T_null sp : has_type (Literal sp LNull) Tnil
| T_bool sp b : has_type (Literal sp (LBool b)) Tboolean
| T_num sp x i : has_type (Literal sp (LNum x i)) Tnumber
| T_str sp s : has_type (Literal sp (LStr s)) Tstring
| T_var sp v : has_type (Var sp v) Tnumber
| T_not sp a t :
    has_type a t -> usable t Tboolean -> has_type (Unary sp Unot a) Tboolean
| T_sign sp o a t :
    o ∈ [Uplus; Uminus] -> has_type a t -> usable t Tnumber -> has_type (Unary sp o a) Tnumber
| T_logic sp o a b ta tb :
    o ∈ [Band; Bor] -> has_type a ta -> has_type b tb ->
    usable ta Tboolean -> usable tb Tboolean -> has_type (Binary sp o a b) Tboolean
| T_compare sp o a b ta tb :
    o ∈ [Beq; Bne; Blt; Ble; Bgt; Bge] -> has_type a ta -> has_type b tb ->
    has_type (Binary sp o a b) Tboolean
| T_concat sp a b :
    has_type a Tstring -> has_type b Tstring -> has_type (Binary sp Badd a b) Tstring
| T_arithmetic sp o a b ta tb :
    o ∈ [Badd; Bsub; Bmul; Bdiv; Bmod] -> has_type a ta -> has_type b tb ->
    usable ta Tnumber -> usable tb Tnumber -> has_type (Binary sp o a b) Tnumber
| T_same sp c a b tc t :
    has_type c tc -> usable tc Tboolean -> has_type a t -> has_type b t ->
    has_type (Conditional sp c a b) t
| T_mixed sp c a b tc ta tb :
    has_type c tc -> usable tc Tboolean -> has_type a ta -> has_type b tb -> ta <> tb ->
    has_type (Conditional sp c a b) Tdynamic
| T_probe sp f a t :
    f ∈ [Fparam; Fu] -> has_type a t -> usable t Tstring -> has_type (Call sp f [a]) Tdynamic
| T_header sp a t :
    has_type a t -> usable t Tstring -> has_type (Call sp Fheader [a]) Tstring
| T_time sp f a t :
    has_type a t -> usable t Tstring -> has_type (Call sp (Ftime f) [a]) Tnumber
| T_has sp a b ta tb :
    has_type a ta -> has_type b tb -> usable tb Tstring -> has_type (Call sp Fhas [a; b]) Tboolean
| T_tier sp a b ta tb :
    has_type a ta -> has_type b tb -> usable ta Tstring -> usable tb Tnumber ->
    has_type (Call sp Ftier [a; b]) Tnumber
| T_math1 sp f a t :
    f ∈ [Ffixed; Fabs; Fceil; Ffloor] -> has_type a t -> usable t Tnumber ->
    has_type (Call sp f [a]) Tnumber
| T_math2 sp f a b ta tb :
    f ∈ [Fmin; Fmax] -> has_type a ta -> has_type b tb ->
    usable ta Tnumber -> usable tb Tnumber -> has_type (Call sp f [a; b]) Tnumber.

Lemma requireType_usable c t e r :
  requireType c (Some t) e = Ok r <-> usable t e.
Proof.
  unfold requireType, usable. destruct r. case_decide as H; split; try done.
  - intros _. naive_solver.
  - intros [->| ->]; destruct H; auto.
Qed.

Lemma requireType_Ok c t e : usable t e -> requireType c (Some t) e = Ok tt.
Proof. by rewrite requireType_usable. Qed.

Ltac use_types :=
  cbn; unfold require_arg, require_args; cbn;
  repeat (rewrite requireType_Ok by done; cbn); try done.

Lemma has_type_infer n t : has_type n t -> infer n = Ok t.
Proof.
  induction 1; rewrite infer_unfold; cbn [node_children res_mapM];
    repeat match goal with H : infer _ = Ok _ |- _ => rewrite H; clear H end;
    repeat match goal with H : _ ∈ _ :: _ |- _ => apply elem_of_cons in H as [->|H] end;
    try (exfalso; by eapply not_elem_of_nil); use_types.
  - destruct ta, tb; try done; unfold usable in *; naive_solver.
  - by rewrite decide_True.
  - rewrite decide_False; [done|]. congruence.
Qed.

(** A diagnostic with the code [c]. *)
Definition fault (c : DiagnosticCode) (e : exn) : Prop :=
  exists d, e = BillingExpressionError d /\ code d = c.

Lemma requireType_cases c t e :
  requireType c t e = Ok tt /\ (forall t', t = Some t' -> usable t' e) \/
  exists x, requireType c t e = Err x /\ fault Dtype x.
Proof.
  destruct t as [t|]; unfold requireType; case_decide as H.
  - left. split; [done|]. intros t' [= <-]. unfold usable. naive_solver.
  - right. unfold fault. eauto.
  - by destruct H.
  - right. unfold fault. eauto.
Qed.

Ltac require_cases :=
  repeat match goal with
  | |- context [requireType ?c ?t ?e] =>
      let H := fresh "H" in let x := fresh "x" in let Hx := fresh "Hx" in
      destruct (requireType_cases c t e) as [[-> H]|(x & -> & Hx)]; cbn -[decide]
  end.

(** With an operand for each type, a node is rejected only with a type error. *)
Lemma type_rule_fault n ts e : local_ok n -> length ts = length (node_children n) ->
  type_rule n ts = Err e -> fault Dtype e.
Proof.
  intros Hl Hts. destruct n as [sp [| | |]|sp v|sp f args|sp o a|sp o a b|sp a b c]; simpl in Hl, Hts;
    [done..| | | |].
  - assert (length ts = function_arity f) as Ha by congruence. revert Hts. clear Hl.
    destruct f; simpl in Ha;
      (destruct ts as [|t1 [|t2 [|]]]; try done); clear Ha; intros Hargs;
      (destruct args as [|a1 [|a2 [|]]]; try done); cbn;
      unfold require_arg, require_args; cbn; require_cases; by intros [= <-].
  - destruct ts as [|ta [|]]; try done. cbn. require_cases; by intros [= <-].
  - destruct ts as [|ta [|tb [|]]]; try done. cbn. unfold binary_type.
    destruct o; try case_decide; require_cases; by intros [= <-].
  - destruct ts as [|ta [|tb [|tc [|]]]]; try done. cbn. require_cases; by intros [= <-].
Qed.

Lemma res_mapM_Err {A B} (f : A -> res exn B) l e :
  res_mapM f l = Err e -> exists x, x ∈ l /\ f x = Err e.
Proof.
  induction l as [|x l IH]; simpl; [done|]. destruct (f x) as [b|e'] eqn:Hx; simpl.
  - destruct (res_mapM f l); [done|]. intros [= ->]. destruct IH as (y & ? & ?); [done|].
    exists y. split; [by right|done].
  - intros [= ->]. exists x. split; [by left|done].
Qed.

Lemma infer_fault n e : wf_node n -> infer n = Err e -> fault Dtype e.
Proof.
  revert e. induction n as [n IH] using node_children_ind. intros e [_ _ _ Hl Hc].
  rewrite infer_unfold. rewrite Forall_forall in IH, Hc.
  destruct (res_mapM infer (node_children n)) as [ts|e'] eqn:Hts; simpl.
  - apply type_rule_fault; [done|]. apply res_mapM_Ok, Forall2_length in Hts.
    by rewrite length_fmap.
  - intros [= ->]. apply res_mapM_Err in Hts as (c & Hin & He). eapply IH; eauto.
Qed.

Ltac take_usable :=
  repeat match goal with H : forall t', Some ?t = Some t' -> _ |- _ => specialize (H t eq_refl) end.

Ltac split_types :=
  repeat match goal with
  | H : Forall2 _ [] _ |- _ => apply Forall2_nil_inv_l in H
  | H : Forall2 _ (_ :: _) _ |- _ =>
      let t := fresh "t" in let ts := fresh "ts" in
      apply Forall2_cons_inv_l in H as (t & ts & ? & ? & ?)
  end; subst.

Lemma infer_has_type n t : wf_node n -> infer n = Ok t -> has_type n t.
Proof.
  revert t. induction n as [n IH] using node_children_ind. intros t [_ _ _ Hl Hc].
  rewrite infer_unfold. intros (ts & Hts & Ht)%res_bind_Ok. apply res_mapM_Ok in Hts.
  assert (Forall2 has_type (node_children n) ts) as Hch.
  { clear Ht. revert IH Hc. induction Hts; intros IH Hc; constructor;
      inversion_clear IH; inversion_clear Hc; auto. }
  clear IH Hc Hts.
  destruct n as [sp [| | |]|sp v|sp f args|sp o a|sp o a b|sp a b c]; simpl in Hl, Hch;
    [inversion Hch; subst; simplify_eq/=; constructor..| | | |].
  - destruct f; simpl in Hl;
      (destruct args as [|a1 [|a2 [|]]]; try done); clear Hl; split_types; revert Ht; cbn;
      unfold require_arg, require_args; cbn; require_cases; intros Hq; simplify_eq/=; take_usable;
      econstructor; eauto; set_solver.
  - split_types. revert Ht. cbn. require_cases; intros Hq; simplify_eq/=; take_usable.
    destruct o; econstructor; eauto; set_solver.
  - split_types. revert Ht. cbn. unfold binary_type.
    destruct o; try case_decide; require_cases; intros Hq; simplify_eq/=; take_usable;
      first [by eapply T_logic; eauto; set_solver
            |by eapply T_compare; eauto; set_solver
            |by eapply T_arithmetic; eauto; set_solver
            |naive_solver eauto using T_concat].
  - split_types. revert Ht. cbn -[decide]. require_cases; try case_decide; intros Hq; simplify_eq/=; take_usable.
    + by eapply T_same.
    + eapply T_mixed; eauto. congruence.
Qed.

Lemma has_type_unique n t t' : has_type n t -> has_type n t' -> t = t'.
Proof. intros ?%has_type_infer ?%has_type_infer. congruence. Qed.

(** A visit fails with what the visitor throws or at the depth limit. *)
Lemma visit_rec_fault {S} (v : ExpressionNode -> st exn S unit) (P : exn -> Prop) d n s e :
  (forall m s e, m ∈ postorder n -> v m s = Err e -> P e) ->
  visit_rec v d n s = Err e -> P e \/ fault Dlimit e.
Proof.
  revert d s e. induction n as [n IH] using node_children_ind. intros d s e Hv.
  rewrite visit_rec_unfold. destruct (Nat.ltb_spec 256 d) as [?|_].
  { intros [= <-]. right. by eexists. }
  assert (forall l s e, (forall c, c ∈ l -> c ∈ node_children n) ->
            st_forM (visit_rec v (Datatypes.S d)) l s = Err e -> P e \/ fault Dlimit e) as Hl.
  { intros l. induction l as [|c l IHl]; intros s1 e1 Hin; simpl; [done|]. unfold st_bind.
    destruct (visit_rec v (Datatypes.S d) c s1) as [[[] s2]|e2] eqn:Hc.
    - apply IHl. intros x Hx. apply Hin. by right.
    - intros [= ->]. rewrite Forall_forall in IH. eapply IH; [|intros m s' e' Hm|exact Hc].
      + apply Hin. by left.
      + apply Hv. rewrite postorder_unfold, elem_of_app, elem_of_concat_map. left.
        exists c. split; [apply Hin; by left|done]. }
  unfold st_bind. destruct (st_forM _ _ s) as [[[] s']|e'] eqn:Hch.
  - intros He. left. eapply Hv; [apply postorder_self|exact He].
  - intros [= ->]. by eapply Hl.
Qed.

Lemma checkExpressionTypes_fault n e : wf_node n -> checkExpressionTypes n = Err e ->
  fault Dtype e \/ fault Dlimit e /\ 256 < node_depth n.
Proof.
  intros Hn He. destruct (Nat.le_gt_cases (node_depth n) 256) as [Hd|Hd].
  - rewrite checkExpressionTypes_infer in He by done. left.
    destruct (infer n) as [t|e'] eqn:Hi; simplify_eq/=. by eapply infer_fault.
  - unfold checkExpressionTypes in He. rewrite visitExpression_rec in He.
    destruct (visit_rec _ _ _ _) as [r|e'] eqn:Hv; simplify_eq.
    apply (visit_rec_fault _ (fault Dtype)) in Hv as [?|?]; [by left|by right|].
    intros m s e' Hm He. unfold type_visitor in He.
    destruct (type_rule _ _) as [t|e1] eqn:Ht; simplify_eq/=.
    apply type_rule_fault in Ht; [done| |by rewrite length_fmap].
    destruct (wf_descendant n m Hn Hm) as [[] _]. done.
Qed.

(** ** Request rules *)

(** The rule a node stands for, if it is a request rule. *)
Definition rule_of (source : jstr) (n : ExpressionNode) : option RequestRule :=
  match n with
  | Conditional _ c y no =>
      match number_literal y, number_literal no, expressionDependencies c with
      | Some m, Some k, Ok d =>
          if feqb k fone && existsb is_request_probe (dep_functions d) then
            Some {| rule_node := n; rule_condition := c; rule_multiplier := m;
                    rule_cond := slice source (node_start c) (node_end c) |}
          else None
      | _, _, _ => None
      end
  | _ => None
  end.

Lemma rule_visitor_spec source n rules : node_depth n <= 256 ->
  rule_visitor source n rules = Ok (tt, rules ++ option_list (rule_of source n)).
Proof.
  intros Hd. destruct n as [| | | | |sp c y no]; simpl; try (by rewrite app_nil_r).
  destruct (number_literal y) as [m|]; [|by rewrite app_nil_r].
  destruct (number_literal no) as [k|]; [|by rewrite app_nil_r].
  destruct (expressionDependencies_spec c) as (d & Hd' & _); [simpl in Hd; lia|].
  rewrite Hd'. destruct (feqb k fone); simpl; [|by rewrite app_nil_r].
  unfold st_bind, st_lift. destruct (existsb _ _); simpl; [done|by rewrite app_nil_r].
Qed.

Lemma postorder_depth n m : m ∈ postorder n -> node_depth m <= node_depth n.
Proof.
  revert m. induction n as [n IH] using node_children_ind. intros m.
  rewrite postorder_unfold, elem_of_app, list_elem_of_singleton, elem_of_concat_map.
  intros [(c & Hc & Hm)| ->]; [|done]. rewrite Forall_forall in IH.
  specialize (IH c Hc m Hm). pose proof (node_depth_child n c Hc). lia.
Qed.

Lemma st_forM_rules source l rules : Forall (fun n => node_depth n <= 256) l ->
  st_forM (rule_visitor source) l rules = Ok (tt, rules ++ omap (rule_of source) l).
Proof.
  revert rules. induction l as [|n l IH]; intros rules Hl; simpl.
  { unfold st_ret. by rewrite app_nil_r. }
  inversion_clear Hl. unfold st_bind. rewrite rule_visitor_spec by done. rewrite IH by done.
  rewrite <- app_assoc. by destruct (rule_of source n).
Qed.

Lemma collect_rules_spec source n : node_depth n <= 256 ->
  collect_rules source n = Ok (omap (rule_of source) (postorder n)).
Proof.
  intros Hd. unfold collect_rules. rewrite visitExpression_rec, visit_rec_postorder by lia.
  rewrite st_forM_rules; [done|]. apply Forall_forall. intros m Hm.
  pose proof (postorder_depth n m Hm). lia.
Qed.

Lemma rule_of_node source n r : rule_of source n = Some r -> rule_node r = n.
Proof. unfold rule_of. intros. repeat case_match; simplify_eq; done. Qed.

(** ** Compiled expressions *)

(** What [status: 'ready'] stands for. *)
Record compiled_ok (source : jstr) (c : CompiledBillingExpression) : Prop := {
  co_source : c_source c = source;
  co_parse : parse source = Ok (c_ast c);
  co_wf : wf_node (c_ast c);
  co_depth : node_depth (c_ast c) <= 256;
  co_type : exists t, infer (c_ast c) = Ok t;
  co_variables : forall v, v ∈ c_variables c <-> uses_variable (c_ast c) v;
  co_functions : forall f, f ∈ c_functions c <-> uses_function (c_ast c) f;
  co_rules : c_rules c = omap (rule_of source) (postorder (c_ast c));
  co_fixed : Ffixed ∈ c_functions c -> validateFixedPricingTree (c_rules c) (c_ast c) = Ok tt;
}.

Lemma compile_source_ok source c : compile_source source = Ok c -> compiled_ok source c.
Proof.
  unfold compile_source. intros (ast & Hp & H)%res_bind_Ok.
  apply res_bind_Ok in H as ([] & Ht & H). apply res_bind_Ok in H as (d & Hd & H).
  apply res_bind_Ok in H as (rules & Hr & H). apply res_bind_Ok in H as ([] & Hf & H).
  simplify_eq. pose proof (parse_spec source) as Hs. rewrite Hp in Hs. destruct Hs as [Hw _].
  pose proof (checkExpressionTypes_depth ast Ht) as Hdep.
  rewrite checkExpressionTypes_infer in Ht by done. apply res_bind_Ok in Ht as (t & Ht & _).
  destruct (expressionDependencies_spec ast Hdep) as (d' & Hd' & Hv & Hfn).
  rewrite collect_rules_spec in Hr by done.
  assert (d' = d) as -> by congruence. simplify_eq.
  constructor; simpl; eauto. intros Hin. unfold has_function in Hf.
  by rewrite bool_decide_eq_true_2 in Hf.
Qed.

Lemma compile_ready_ok source c : compile source = Ready c -> compiled_ok source c.
Proof.
  unfold compile. destruct (compile_source source) eqn:H; [|done]. intros [= <-].
  by apply compile_source_ok.
Qed.

(** ** The cache *)

(** At most 128 entries, no source twice, and every entry is what compiling its
    source gives. *)
Definition cache_ok (c : cache) : Prop :=
  length c <= 128 /\ NoDup (fst <$> c) /\ Forall (fun kr => snd kr = compile (fst kr)) c.

Lemma assoc_elem {A} k (l : list (jstr * A)) a : assoc k l = Some a -> (k, a) ∈ l.
Proof.
  induction l as [|[k' a'] l IH]; simpl; [done|]. destruct (jeqb k k') eqn:Hk.
  - apply jeqb_eq in Hk as ->. intros [= ->]. by left.
  - intros H. right. auto.
Qed.

Lemma assoc_None {A} k (l : list (jstr * A)) : assoc k l = None -> k ∉ (fst <$> l).
Proof.
  induction l as [|[k' a'] l IH]; simpl; [by intros _ ?%elem_of_nil|].
  destruct (jeqb k k') eqn:Hk; [done|]. apply jeqb_neq in Hk.
  intros H [?|?]%elem_of_cons; [done|]. by apply IH.
Qed.

Lemma cache_ok_insert c source : cache_ok c -> assoc source c = None ->
  cache_ok ((if Nat.leb 128 (length c) then tail c else c) ++ [(source, compile source)]).
Proof.
  intros (Hl & Hn & Hf) Ha%assoc_None.
  assert (Hsub : exists l, length l < 128 /\ NoDup (fst <$> l) /\
            Forall (fun kr => snd kr = compile (fst kr)) l /\ ~ source ∈ (fst <$> l) /\
            (if Nat.leb 128 (length c) then tail c else c) = l).
  { destruct (Nat.leb_spec 128 (length c)) as [Hge|Hlt]; [|by exists c].
    destruct c as [|e c]; [simpl in Hge; lia|]. exists c. simpl in *.
    inversion_clear Hn. inversion_clear Hf. split; [lia|]. split; [done|]. split; [done|].
    split; [|done]. set_solver. }
  destruct Hsub as (l & H1 & H2 & H3 & H4 & ->). split; [rewrite length_app; simpl; lia|].
  split; [|apply Forall_app; split; [done|by constructor]].
  rewrite fmap_app. apply NoDup_app. split; [done|]. split; [|apply NoDup_singleton].
  simpl. set_solver.
Qed.

(** ** Properties *)

(** The explicit stack of [visitExpression] implements recursive post-order
    traversal with the depth limit of 256, errors included, for every visitor
    and every state. *)
Theorem visitExpression_postorder {S} (n : ExpressionNode)
    (visitor : ExpressionNode -> st exn S unit) (s : S) :
  visitExpression n visitor s =
    (if Nat.leb (node_depth n) 256 then st_forM visitor (postorder n) s
     else visit_rec visitor 0 n s) /\
  (node_depth n > 256 -> forall r, visitExpression n visitor s <> Ok r).
Proof.
  rewrite visitExpression_rec. split.
  - destruct (Nat.leb_spec (node_depth n) 256); [by apply visit_rec_postorder|done].
  - intros Hd r Hr%visit_rec_depth. lia.
Qed.

(** C36: on a well-formed tree (every parsed tree is one), the type check accepts
    exactly the trees that have a type in the rules of the language
    ([has_type]: one rule per operator and function, with [dynamic], the type of
    a request field, usable anywhere) and are at most 256 levels deep, and the
    type is unique; any other tree is refused with a diagnostic of code
    [type], or of code [limit] when it is deeper than 256 levels. *)
Theorem checkExpressionTypes_correct (n : ExpressionNode) :
  wf_node n ->
  (checkExpressionTypes n = Ok tt <-> node_depth n <= 256 /\ exists t, has_type n t) /\
  (forall t t', has_type n t -> has_type n t' -> t = t') /\
  (forall e, checkExpressionTypes n = Err e ->
     fault Dtype e \/ fault Dlimit e /\ 256 < node_depth n).
Proof.
  intros Hn. split; [split|split].
  - intros Hc. pose proof (checkExpressionTypes_depth n Hc) as Hd. split; [done|].
    rewrite checkExpressionTypes_infer in Hc by done.
    apply res_bind_Ok in Hc as (t & Ht & _). exists t. by apply infer_has_type.
  - intros [Hd [t Ht%has_type_infer]]. rewrite checkExpressionTypes_infer by done. by rewrite Ht.
  - eauto using has_type_unique.
  - eauto using checkExpressionTypes_fault.
Qed.

Definition parsed_or (source : jstr) : ExpressionNode :=
  match parse source with Ok n => n | Err _ => Var (mkspan 0 1) Vp end.

Lemma parsed_wf source : wf_node (parsed_or source).
Proof.
  unfold parsed_or. pose proof (parse_spec source) as Hs. destruct (parse source); [apply Hs|].
  by eapply wf_leaf; [| |apply Nat.lt_0_1|].
Qed.

Lemma checkExpressionTypes_correct_witness :
  checkExpressionTypes (parsed_or (js "len <= 200 && header('x') + 'y' == 'zy' ? tier('a', p * 3) : tier('b', min(p, c) / 2)"))
    = Ok tt /\
  ~ (exists t, has_type (parsed_or (js "p + 'x'")) t).
Proof.
  split.
  - apply (checkExpressionTypes_correct
      (parsed_or (js "len <= 200 && header('x') + 'y' == 'zy' ? tier('a', p * 3) : tier('b', min(p, c) / 2)"))).
    + apply parsed_wf.
    + split; [apply Nat.leb_le; vm_compute; reflexivity|]. exists Tnumber.
      apply infer_has_type; [apply parsed_wf|vm_compute; reflexivity].
  - intros Ht.
    assert (checkExpressionTypes (parsed_or (js "p + 'x'")) = Ok tt) as Hc.
    { apply (checkExpressionTypes_correct (parsed_or (js "p + 'x'"))).
      - apply parsed_wf.
      - split; [apply Nat.leb_le; vm_compute; reflexivity|exact Ht]. }
    vm_compute in Hc. discriminate.
Defined.

(** Compiling through the cache returns what compiling from scratch returns,
    whatever was compiled before, and keeps the cache within 128 entries with
    no source twice. *)
Theorem compile_cache_transparent (source : jstr) (c : cache) :
  cache_ok c ->
  fst (compileBillingExpression source c) = compile source /\
  cache_ok (snd (compileBillingExpression source c)).
Proof.
  intros Hc. unfold compileBillingExpression. destruct (assoc source c) as [r|] eqn:Ha; simpl.
  - split; [|done]. apply assoc_elem in Ha. destruct Hc as (_ & _ & Hf).
    rewrite Forall_forall in Hf. by apply (Hf _ Ha).
  - split; [done|]. by apply cache_ok_insert.
Qed.

Lemma compile_cache_transparent_witness :
  fst (compileBillingExpression (js "p") []) = compile (js "p").
Proof.
  apply (compile_cache_transparent (js "p") []).
  split; [simpl; lia|]. split; constructor.
Defined.

(** A compiled expression lists exactly the token variables and functions
    its tree uses, and its request rules are exactly the conditionals of the
    tree, in post-order, with a number literal, the fallback literal 1 and a
    condition that probes the request or the time. *)
Theorem compile_dependencies (source : jstr) (c : CompiledBillingExpression) :
  compile source = Ready c ->
  (forall v, v ∈ c_variables c <-> uses_variable (c_ast c) v) /\
  (forall f, f ∈ c_functions c <-> uses_function (c_ast c) f) /\
  c_rules c = omap (rule_of source) (postorder (c_ast c)).
Proof. intros [? ? ? ? ? ? ? ? ?]%compile_ready_ok. done. Qed.

Lemma compile_dependencies_witness :
  exists c, compile (js "tier('a', p * 2)") = Ready c /\ uses_variable (c_ast c) Vp.
Proof.
  eexists. split; [vm_compute; reflexivity|].
  match goal with |- uses_variable (c_ast ?c) _ =>
    destruct (compile_dependencies (js "tier('a', p * 2)") c) as (H & _ & _);
      [vm_compute; reflexivity|] end.
  apply H. left.
Defined.
