(* ===== verification/JsValue.v ===== *)
(** * JavaScript values, dates and the host environment

    The dynamically typed values the evaluator receives (request bodies, token
    counts, task usage), the calendar fields of a date in UTC, and the host
    services that are data of the browser rather than code: the time zone
    database behind [Intl.DateTimeFormat], lower-casing outside ASCII, and the
    clock. *)

From stdpp Require Import base list numbers strings.
From Stdlib Require Import ZArith SpecFloat Lia.
From S2P Require Import Prelude.
From S2P Require Import JsString.
From S2P Require Import JsNumber.

(** A JSON value or [undefined]; an object lists its own properties in the order
    of [Object.entries]. *)
Inductive jsval :=
| JUndefined
| JNull
| JBool (b : bool)
| JNum (n : f64)
| JStr (s : jstr)
| JArr (items : list jsval)
| JObj (entries : list (jstr * jsval)).

(** [value == null] *)
Definition is_nullish (v : jsval) : bool :=
  match v with JUndefined | JNull => true | _ => false end.

(** [value ?? null] *)
Definition or_null (v : jsval) : jsval := if is_nullish v then JNull else v.

(** [value !== null && typeof value === 'object'] *)
Definition is_object (v : jsval) : bool :=
  match v with JArr _ | JObj _ => true | _ => false end.

(** [a === b] on values of which none is an object. *)
Definition strict_eq (a b : jsval) : bool :=
  match a, b with
  | JUndefined, JUndefined | JNull, JNull => true
  | JBool x, JBool y => Bool.eqb x y
  | JNum x, JNum y => feqb x y
  | JStr x, JStr y => jeqb x y
  | _, _ => false
  end.

Section ValueInduction.
Context (P : jsval -> Prop).
Hypothesis HArr : forall l, Forall P l -> P (JArr l).
Hypothesis HObj : forall l, Forall (fun kv => P (snd kv)) l -> P (JObj l).
Hypothesis HAtom : forall v, is_object v = false -> P v.

Lemma jsval_ind' v : P v.
Proof using HArr HObj HAtom.
  revert v. fix IH 1. intros [| |b|n|s|items|entries]; try (by apply HAtom).
  - apply HArr. induction items as [|v l IHl]; constructor; [apply IH|exact IHl].
  - apply HObj. induction entries as [|[key v] l IHl]; constructor; [apply IH|exact IHl].
Qed.
End ValueInduction.

(** ** The host *)

(** The values of the parts of [formatToParts] that the sources read. *)
Record zone_parts := {
  part_hour : jstr;
  part_minute : jstr;
  part_weekday : jstr;
  part_month : jstr;
  part_day : jstr;
}.

Class Host := {
  (** [new Intl.DateTimeFormat('en-US', { timeZone, ... }).resolvedOptions().timeZone];
      [None] when the constructor rejects the zone. *)
  resolved_zone : jstr -> option jstr;
  (** [formatToParts] of an accepted zone at a time value. *)
  format_parts : jstr -> Z -> zone_parts;
  (** [toLowerCase] of a string that is not all ASCII. *)
  lower_unicode : jstr -> jstr;
  (** The time value of [new Date()]. *)
  clock : Z;
}.

Definition ascii_lower (c : N) : N := if is_upper c then (c + 32)%N else c.

(** [s.toLowerCase()] *)
Definition to_lower `{Host} (s : jstr) : jstr :=
  if forallb (fun c => c <? 128)%N s then ascii_lower <$> s else lower_unicode s.

(** ** Dates in UTC

    A time value counts milliseconds since 1970-01-01T00:00:00Z. *)

#[local] Open Scope Z_scope.

Definition ms_per_day : Z := 86400000.

Definition getUTCHours (t : Z) : Z := t / 3600000 mod 24.
Definition getUTCMinutes (t : Z) : Z := t / 60000 mod 60.
Definition getUTCDay (t : Z) : Z := (4 + t / ms_per_day) mod 7.

(** The proleptic Gregorian calendar, with years that start on 1 March: the day
    of the 400-year era, its year, the day of that year and its month. *)
Definition era (z : Z) : Z := z / 146097.
Definition day_of_era (z : Z) : Z := z mod 146097.
Definition year_of_era (doe : Z) : Z :=
  (doe - doe / 1460 + doe / 36524 - doe / 146096) / 365.
Definition day_of_year (doe : Z) : Z :=
  let y := year_of_era doe in doe - (365 * y + y / 4 - y / 100).
Definition march_month (doy : Z) : Z := (5 * doy + 2) / 153.

(** Days between 0000-03-01 and 1970-01-01. *)
Definition epoch_shift : Z := 719468.

(** The date of a day of the year [y] that starts in March. *)
Definition of_march (y doy : Z) : Z * Z * Z :=
  let mp := march_month doy in
  let m := if mp <? 10 then mp + 3 else mp - 9 in
  (y + (if m <=? 2 then 1 else 0), m, doy - (153 * mp + 2) / 5 + 1).

(** Year, month and day of a day counted from 0000-03-01. *)
Definition civil_of_day (z : Z) : Z * Z * Z :=
  of_march (year_of_era (day_of_era z) + 400 * era z) (day_of_year (day_of_era z)).

Definition civil (t : Z) : Z * Z * Z := civil_of_day (t / ms_per_day + epoch_shift).

Definition getUTCMonth (t : Z) : Z := snd (fst (civil t)) - 1.
Definition getUTCDate (t : Z) : Z := snd (civil t).

(** ** The calendar *)

Definition is_leap (y : Z) : bool := (y mod 4 =? 0) && (negb (y mod 100 =? 0) || (y mod 400 =? 0)).

Definition month_length (y m : Z) : Z :=
  if m =? 2 then (if is_leap y then 29 else 28)
  else if (m =? 4) || (m =? 6) || (m =? 9) || (m =? 11) then 30 else 31.

(** The date after a date. *)
Definition next_date (d : Z * Z * Z) : Z * Z * Z :=
  let '(y, m, d) := d in
  if d <? month_length y m then (y, m, d + 1)
  else if m <? 12 then (y, m + 1, 1) else (y + 1, 1, 1).

Lemma day_of_era_range z : 0 <= day_of_era z < 146097.
Proof. unfold day_of_era. apply Z.mod_pos_bound. lia. Qed.

Lemma doy_range doe : 0 <= doe < 146097 -> 0 <= day_of_year doe <= 365.
Proof. unfold day_of_year, year_of_era. intros. Z.div_mod_to_equations; lia. Qed.

Lemma yoe_range doe : 0 <= doe < 146097 -> 0 <= year_of_era doe <= 399.
Proof. unfold year_of_era. intros. Z.div_mod_to_equations; lia. Qed.

(** The first day of a year of the era. *)
Definition year_start (y : Z) : Z := 365 * y + y / 4 - y / 100.

Lemma yoe_char doe y : 0 <= doe < 146097 -> 0 <= y <= 399 ->
  y <= year_of_era doe <-> year_start y <= doe.
Proof. unfold year_of_era, year_start. intros. Z.div_mod_to_equations; lia. Qed.

Lemma is_leap_era y k : is_leap (y + 400 * k) = is_leap y.
Proof.
  unfold is_leap. replace (y + 400 * k) with (y + (100 * k) * 4) at 1 by lia.
  replace (y + 400 * k) with (y + (4 * k) * 100) at 1 by lia.
  replace (y + 400 * k) with (y + k * 400) at 1 by lia. by rewrite !Z.mod_add.
Qed.

Lemma year_length y : 0 <= y < 399 ->
  year_start (y + 1) - year_start y = if is_leap (y + 1) then 366 else 365.
Proof.
  unfold is_leap, year_start. intros.
  destruct (Z.eqb_spec ((y + 1) mod 4) 0), (Z.eqb_spec ((y + 1) mod 100) 0),
    (Z.eqb_spec ((y + 1) mod 400) 0); simpl; Z.div_mod_to_equations; lia.
Qed.

(** One day later within an era: the same year, or the first day of the next. *)
Lemma day_of_era_succ doe : 0 <= doe < 146096 ->
  year_of_era (doe + 1) = year_of_era doe /\ day_of_year (doe + 1) = day_of_year doe + 1 /\
  day_of_year doe < (if is_leap (year_of_era doe + 1) then 365 else 364) \/
  year_of_era (doe + 1) = year_of_era doe + 1 /\ day_of_year (doe + 1) = 0 /\
  day_of_year doe = (if is_leap (year_of_era doe + 1) then 365 else 364).
Proof.
  intros Hd. pose proof (yoe_range doe ltac:(lia)). pose proof (yoe_range (doe + 1) ltac:(lia)).
  pose proof (yoe_char doe (year_of_era doe) ltac:(lia) ltac:(lia)) as [H1 _].
  pose proof (yoe_char (doe + 1) (year_of_era doe) ltac:(lia) ltac:(lia)) as [_ H2].
  pose proof (yoe_char doe (year_of_era (doe + 1)) ltac:(lia) ltac:(lia)) as H3.
  pose proof (yoe_char (doe + 1) (year_of_era (doe + 1)) ltac:(lia) ltac:(lia)) as [H4 _].
  unfold day_of_year. fold (year_start (year_of_era doe)). fold (year_start (year_of_era (doe + 1))).
  destruct (Z.eq_dec (year_of_era (doe + 1)) (year_of_era doe)) as [He|Hne].
  { left. rewrite He. split; [done|]. split; [lia|].
    destruct (Z.eq_dec (year_of_era doe) 399) as [->|].
    - change (year_start 399) with 145731. change (if is_leap (399 + 1) then 365 else 364) with 365. lia.
    - pose proof (year_length (year_of_era doe) ltac:(lia)) as Hl.
      pose proof (yoe_char (doe + 1) (year_of_era doe + 1) ltac:(lia) ltac:(lia)) as Hc5.
      destruct (is_leap (year_of_era doe + 1)); lia. }
  right. assert (year_of_era doe < 399) by lia.
  pose proof (year_length (year_of_era doe) ltac:(lia)) as Hl.
  pose proof (yoe_char doe (year_of_era doe + 1) ltac:(lia) ltac:(lia)) as Hc5.
  assert (year_of_era (doe + 1) = year_of_era doe + 1) as He.
  { destruct (Z.le_gt_cases (year_of_era (doe + 1)) (year_of_era doe + 1)); [lia|].
    pose proof (year_length (year_of_era doe + 1) ltac:(lia)) as Hl2.
    pose proof (yoe_char (doe + 1) (year_of_era doe + 1 + 1) ltac:(lia) ltac:(lia)) as Hc6.
    destruct (is_leap (year_of_era doe + 1 + 1)); lia. }
  rewrite He in *. destruct (is_leap _); lia.
Qed.

(** Lengths of the months counted from March. *)
Lemma march_month_succ doy : 0 <= doy < 365 ->
  let mp := march_month doy in
  let first m := (153 * m + 2) / 5 in
  march_month (doy + 1) = mp /\ doy - first mp + 1 <
     (if mp =? 11 then 29 else if (mp =? 1) || (mp =? 3) || (mp =? 6) || (mp =? 8) then 30 else 31) \/
  march_month (doy + 1) = mp + 1 /\ doy + 1 = first (mp + 1) /\ mp < 11 /\
  doy - first mp + 1 =
     (if (mp =? 1) || (mp =? 3) || (mp =? 6) || (mp =? 8) then 30 else 31).
Proof.
  intros H mp first. subst mp first. unfold march_month.
  assert ((5 * doy + 2) / 153 ∈ [0;1;2;3;4;5;6;7;8;9;10;11]) as Hm.
  { assert (0 <= (5 * doy + 2) / 153 <= 11) by (Z.div_mod_to_equations; lia).
    rewrite !elem_of_cons. lia. }
  rewrite !elem_of_cons, elem_of_nil in Hm. cbv beta.
  destruct Hm as [Hm|[Hm|[Hm|[Hm|[Hm|[Hm|[Hm|[Hm|[Hm|[Hm|[Hm|[Hm|[]]]]]]]]]]]]]; rewrite Hm; simpl;
    Z.div_mod_to_equations; lia.
Qed.

Lemma era_succ z :
  (day_of_era (z + 1) = day_of_era z + 1 /\ era (z + 1) = era z) \/
  (day_of_era (z + 1) = 0 /\ era (z + 1) = era z + 1 /\ day_of_era z = 146096).
Proof. unfold day_of_era, era. Z.div_mod_to_equations. lia. Qed.

Lemma triple_eq (a b c a' b' c' : Z) : a = a' -> b = b' -> c = c' -> (a, b, c) = (a', b', c').
Proof. by intros -> -> ->. Qed.

Ltac march_case :=
  repeat match goal with |- context [?a <? ?b] => destruct (Z.ltb_spec a b) end;
  try (exfalso; lia); apply triple_eq; lia.

Lemma of_march_succ y doy : 0 <= doy < (if is_leap (y + 1) then 365 else 364) ->
  of_march y (doy + 1) = next_date (of_march y doy).
Proof.
  intros Hd. assert (0 <= doy < 365) as Hd' by (destruct (is_leap (y + 1)); lia).
  pose proof (march_month_succ doy Hd') as Hs. cbv zeta in Hs.
  assert (0 <= march_month doy <= 11) as Hmp by (unfold march_month; Z.div_mod_to_equations; lia).
  unfold of_march, next_date, month_length.
  set (mp := march_month doy) in *. set (first := (153 * mp + 2) / 5) in *.
  assert (mp = 11 -> doy - first + 1 < if is_leap (y + 1) then 29 else 28) as Hfeb.
  { intros ->. subst first. change ((153 * 11 + 2) / 5) with 337. destruct (is_leap (y + 1)); lia. }
  destruct (Z.ltb_spec mp 10).
  - assert (mp ∈ [0;1;2;3;4;5;6;7;8;9]) as Hm by (rewrite !elem_of_cons; lia).
    rewrite !elem_of_cons, elem_of_nil in Hm. clearbody mp.
    destruct Hs as [[-> Hlt]|(-> & Heq & _ & Hlen)]; [|rewrite <- Heq];
      destruct Hm as [Hm|[Hm|[Hm|[Hm|[Hm|[Hm|[Hm|[Hm|[Hm|[Hm|[]]]]]]]]]]]; subst mp; simpl in *;
      subst first; march_case.
  - assert (mp = 10 \/ mp = 11) as [Hm|Hm] by lia; clearbody mp; subst mp; simpl in *;
      destruct Hs as [[-> Hlt]|(-> & Heq & ? & Hlen)]; try lia; simpl;
      subst first; march_case.
Qed.

Lemma of_march_last y doy : doy = (if is_leap (y + 1) then 365 else 364) ->
  next_date (of_march y doy) = of_march (y + 1) 0.
Proof.
  intros ->. unfold next_date, of_march, month_length.
  destruct (is_leap (y + 1)) eqn:Hl.
  - change (march_month 365) with 11. change (march_month 0) with 0.
    change (365 - (153 * 11 + 2) / 5 + 1) with 29. change (if 11 <? 10 then 11 + 3 else 11 - 9) with 2.
    change (if 2 <=? 2 then 1 else 0) with 1. change (2 =? 2) with true. cbv iota. rewrite Hl.
    rewrite Z.ltb_irrefl. change (if 0 <? 10 then 0 + 3 else 0 - 9) with 3.
    change (if 3 <=? 2 then 1 else 0) with 0. apply triple_eq; reflexivity || lia.
  - change (march_month 364) with 11. change (march_month 0) with 0.
    change (364 - (153 * 11 + 2) / 5 + 1) with 28. change (if 11 <? 10 then 11 + 3 else 11 - 9) with 2.
    change (if 2 <=? 2 then 1 else 0) with 1. change (2 =? 2) with true. cbv iota. rewrite Hl.
    rewrite Z.ltb_irrefl. change (if 0 <? 10 then 0 + 3 else 0 - 9) with 3.
    change (if 3 <=? 2 then 1 else 0) with 0. apply triple_eq; reflexivity || lia.
Qed.

(** Consecutive days have consecutive dates. *)
Lemma civil_of_day_succ z : civil_of_day (z + 1) = next_date (civil_of_day z).
Proof.
  pose proof (day_of_era_range z) as Hr. pose proof (day_of_era_range (z + 1)) as Hr'.
  pose proof (doy_range _ Hr) as Hdoy. unfold civil_of_day.
  assert (Hleap : forall e, is_leap (year_of_era e + 400 * era z + 1) = is_leap (year_of_era e + 1)).
  { intros e. rewrite <- (is_leap_era (year_of_era e + 1) (era z)). f_equal. lia. }
  destruct (era_succ z) as [[He ->]|(-> & -> & ->)]; rewrite ?He in *.
  - destruct (day_of_era_succ (day_of_era z) ltac:(lia)) as [(-> & -> & Hl)|(-> & -> & Hl)].
    + apply of_march_succ. rewrite Hleap. lia.
    + rewrite of_march_last by (by rewrite Hleap). f_equal. lia.
  - rewrite of_march_last by (by rewrite Hleap). f_equal. change (year_of_era 146096) with 399.
    change (year_of_era 0) with 0. lia.
Qed.
