(* ===== verification/BillingRuntime.v ===== *)
(** * Billing expressions: evaluation

    Model of [billing-expression/runtime.ts]: request paths, the Go-style text
    of a request value, time zones, the class [BillingRuntime] and the two
    entry points.  The mutable fields of the class are the state of the monad;
    its constructor arguments are the [Section] variables. *)

From stdpp Require Import base list numbers strings.
From Stdlib Require Import ZArith SpecFloat Lia.
From S2P Require Import Prelude.
From S2P Require Import JsString.
From S2P Require Import JsNumber.
From S2P Require Import JsValue.
From S2P Require Import BillingTypes.
From S2P Require Import BillingParser.
From S2P Require Import BillingCompile.

#[local] Open Scope jsm.

Definition fail_ {A} (c : DiagnosticCode) (d : jstr) : res exn A :=
  Err (BillingExpressionError {| code := c; detail := d; position := None |}).

(** ** Request paths *)

(** The characters of other GJSON path syntax. *)
Definition gjson_special (c : N) : bool := bool_decide (c ∈ js "*?[]()|@!").

(** The loop that splits the path: [rest] from index [i] on, [part] the current
    part and [parts] the finished ones. *)
Fixpoint split_path (path rest part : jstr) (parts : list jstr) : res exn (list jstr) :=
  match rest with
  | [] => Ok (parts ++ [part])
  | char :: rest1 =>
      if (char =? 92)%N then
        match rest1 with
        | [] => fail_ Dunsupported path
        | next :: rest2 => split_path path rest2 (part ++ [next]) parts
        end
      else if (char =? 46)%N then split_path path rest1 [] (parts ++ [part])
      else if gjson_special char then fail_ Dunsupported path
      else split_path path rest1 (part ++ [char]) parts
  end.

(** [/^\d+$/.test(key)] *)
Definition all_digits (key : jstr) : bool :=
  match key with [] => false | _ => forallb is_digit key end.

(** [Number.isSafeInteger(index) ? value[index] : undefined] *)
Definition array_get (items : list jsval) (key : jstr) : jsval :=
  let index := number_of_string key in
  if is_safe_integer index then
    if (to_Z index <? Z.of_nat (length items))%Z
    then default JUndefined (items !! Z.to_nat (to_Z index)) else JUndefined
  else JUndefined.

(** The loop that follows the parts. *)
Fixpoint follow_path (path : jstr) (parts : list jstr) (value : jsval) : res exn jsval :=
  match parts with
  | [] => Ok (or_null value)
  | key :: parts' =>
      match value with
      | JArr items =>
          if jeqb key (js "#") then
            match parts' with
            | [] => Ok (JNum (f64_of_Z (Z.of_nat (length items))))
            | _ => fail_ Dunsupported path
            end
          else if all_digits key then follow_path path parts' (array_get items key)
          else Ok JNull
      | JObj entries =>
          match assoc key entries with
          | Some v => follow_path path parts' v
          | None => Ok JNull
          end
      | _ => Ok JNull
      end
  end.

Definition readRequestPath (body : jsval) (rawPath : jstr) : res exn jsval :=
  let path := trim rawPath in
  match path with
  | [] => Ok JNull
  | _ => parts <-- split_path path path [] [] ;; follow_path path parts body
  end.

(** ** The text of a request value *)

(** [entries.sort(([a], [b]) => (a < b ? -1 : Number(a > b)))] *)
Fixpoint insert_entry {A} (x : jstr * A) (l : list (jstr * A)) : list (jstr * A) :=
  match l with
  | [] => [x]
  | y :: l' => if jleb (fst x) (fst y) then x :: l else y :: insert_entry x l'
  end.

Definition sort_entries {A} (l : list (jstr * A)) : list (jstr * A) := foldr insert_entry [] l.

(** [Math.abs(exponent).toString().padStart(2, '0')] *)
Definition pad2 (n : N) : jstr := if (n <? 10)%N then js "0" ++ N_digits n else N_digits n.

Definition billing_number (n : f64) : res exn jstr :=
  if negb (is_finite n) then fail_ Dnumber (js "request number")
  else
    match n with
    | S754_zero true => Ok (js "-0")
    | _ =>
        let '(mantissa, exponent) := to_exponential n in
        if (6 <=? exponent)%Z || (exponent <? -4)%Z then
          Ok (mantissa ++ js "e" ++ (if (exponent <? 0)%Z then js "-" else js "+")
                ++ pad2 (Z.to_N (Z.abs exponent)))
        else Ok (number_to_string n)
    end.

Fixpoint billingString (depth : nat) (value : jsval) : res exn jstr :=
  if Nat.ltb 128 depth then fail_ Dlimit (js "request value depth")
  else
    match value with
    | JUndefined | JNull => Ok (js "<nil>")
    | JArr items =>
        texts <-- res_mapM (billingString (S depth)) items ;;
        Ok (js "[" ++ join (js " ") texts ++ js "]")
    | JObj entries =>
        texts <-- res_mapM (fun '(key, item) => text <-- item ;; Ok (key ++ js ":" ++ text))
                    (sort_entries
                       (map (fun '(key, item) => (key, billingString (S depth) item)) entries)) ;;
        Ok (js "map[" ++ join (js " ") texts ++ js "]")
    | JNum n => billing_number n
    | JStr s => Ok s
    | JBool b => Ok (if b then js "true" else js "false")
    end.

(** ** Time *)

(** [Record<TimeFunction, number>] *)
Abbreviation time_values := (TimeFunction -> f64).

(** One component of the zone pattern: an upper-case letter, then letters,
    digits and [_ + -]. *)
Definition zone_char (c : N) : bool := is_word c || (c =? 43)%N || (c =? 45)%N.

(** The zone pattern of [timeInBillingZone]: components separated by slashes;
    [at_start] when the next character begins a component. *)
Fixpoint zone_pattern (at_start : bool) (l : jstr) : bool :=
  match l with
  | [] => negb at_start
  | c :: l' =>
      if at_start then is_upper c && zone_pattern false l'
      else if (c =? 47)%N then zone_pattern true l'
      else zone_char c && zone_pattern false l'
  end.

Definition weekday_names : list jstr :=
  [js "Sun"; js "Mon"; js "Tue"; js "Wed"; js "Thu"; js "Fri"; js "Sat"].

(** [list.indexOf(x)] *)
Fixpoint index_of_from (i : Z) (x : jstr) (l : list jstr) : Z :=
  match l with
  | [] => -1
  | y :: l' => if jeqb x y then i else index_of_from (i + 1) x l'
  end.

Definition index_of (x : jstr) (l : list jstr) : Z := index_of_from 0 x l.

Section Runtime.
Context `{Host}.

(** The [try] block: the formatter of an accepted zone, by the zone's name. *)
Definition zone_formatter (timezone : jstr) : option jstr :=
  if negb (zone_pattern true timezone) then None
  else
    match resolved_zone timezone with
    | None => None
    | Some resolved =>
        if jeqb (to_lower resolved) (to_lower timezone) && negb (jeqb resolved timezone)
        then None else Some timezone
    end.

Definition utc_values (t : Z) : time_values := fun f =>
  f64_of_Z match f with
           | Fhour => getUTCHours t
           | Fminute => getUTCMinutes t
           | Fweekday => getUTCDay t
           | Fmonth => getUTCMonth t + 1
           | Fday => getUTCDate t
           end.

Definition part_values (parts : zone_parts) : time_values := fun f =>
  match f with
  | Fhour => number_of_string (part_hour parts)
  | Fminute => number_of_string (part_minute parts)
  | Fweekday => f64_of_Z (index_of (part_weekday parts) weekday_names)
  | Fmonth => number_of_string (part_month parts)
  | Fday => number_of_string (part_day parts)
  end.

(** [zone.trim() || 'UTC'] *)
Definition billing_zone (zone : jstr) : jstr :=
  match trim zone with [] => js "UTC" | z => z end.

(** A date is its time value; [None] is an invalid date. *)
Definition timeInBillingZone (now : option Z) (zone : jstr) : res exn time_values :=
  match now with
  | None => fail_ Dtype (js "simulation time")
  | Some t =>
      let timezone := billing_zone zone in
      if jeqb timezone (js "Local") then fail_ Dunsupported (js "server Local timezone")
      else
        match zone_formatter timezone with
        | None => Ok (utc_values t)
        | Some z => Ok (part_values (format_parts z t))
        end
  end.
End Runtime.

(** ** The evaluator's data *)

Record RuntimeValue := { rv_value : jsval; rv_integer : bool }.

Definition plain (v : jsval) : RuntimeValue := {| rv_value := v; rv_integer := false |}.

Inductive BillingUnit := Utoken | Urequest.

Record BillingRequestRule := { cond : jstr; multiplier : f64; matched : bool }.

Record BillingRequest := {
  body : jsval;
  headers : option (list (jstr * jsval));
}.

Record BillingSimulationContext := {
  tokens : option (list (jstr * jsval));
  request : option BillingRequest;
  usage : option (list (jstr * jsval));
  (** [None]: not given; [Some None]: an invalid date. *)
  ctx_now : option (option Z);
}.

(** The fields an evaluation changes. *)
Record rstate := {
  requestRules : list BillingRequestRule;
  matchedTier : jstr;
  billingUnit : BillingUnit;
  fixedPrice : option f64;
  timeValues : list (jstr * time_values);
  rt_depth : nat;
}.

Abbreviation M := (st exn rstate).

Definition set_depth (d : nat) (s : rstate) : rstate :=
  {| requestRules := requestRules s; matchedTier := matchedTier s; billingUnit := billingUnit s;
     fixedPrice := fixedPrice s; timeValues := timeValues s; rt_depth := d |}.

Definition set_rules (r : list BillingRequestRule) (s : rstate) : rstate :=
  {| requestRules := r; matchedTier := matchedTier s; billingUnit := billingUnit s;
     fixedPrice := fixedPrice s; timeValues := timeValues s; rt_depth := rt_depth s |}.

Definition set_tier (name : jstr) (s : rstate) : rstate :=
  {| requestRules := requestRules s; matchedTier := name; billingUnit := billingUnit s;
     fixedPrice := fixedPrice s; timeValues := timeValues s; rt_depth := rt_depth s |}.

Definition set_fixed (amount : f64) (s : rstate) : rstate :=
  {| requestRules := requestRules s; matchedTier := matchedTier s; billingUnit := Urequest;
     fixedPrice := Some amount; timeValues := timeValues s; rt_depth := rt_depth s |}.

Definition add_time (zone : jstr) (v : time_values) (s : rstate) : rstate :=
  {| requestRules := requestRules s; matchedTier := matchedTier s; billingUnit := billingUnit s;
     fixedPrice := fixedPrice s; timeValues := timeValues s ++ [(zone, v)];
     rt_depth := rt_depth s |}.

Definition mark_matched (r : BillingRequestRule) : BillingRequestRule :=
  {| cond := cond r; multiplier := multiplier r; matched := true |}.

Definition binop_name (o : binop) : jstr :=
  match List.find (fun e => bool_decide (fst (snd e) = o)) PRECEDENCE with
  | Some e => fst e
  | None => []
  end.

(** ** The evaluator *)

Section Evaluator.
Context `{Host}.

(** [new Map().set(key, value)] *)
Fixpoint map_set {A} (key : jstr) (value : A) (m : list (jstr * A)) : list (jstr * A) :=
  match m with
  | [] => [(key, value)]
  | (k, v) :: m' => if jeqb key k then (k, value) :: m' else (k, v) :: map_set key value m'
  end.

(** The loop of the constructor over the request headers. *)
Fixpoint load_headers (entries : list (jstr * jsval)) (m : list (jstr * jstr))
    : res exn (list (jstr * jstr)) :=
  match entries with
  | [] => Ok m
  | (name, rawValue) :: entries' =>
      match rawValue with
      | JStr raw =>
          let key := to_lower (trim name) in
          let value := trim raw in
          load_headers entries'
            (match key, value with
             | [], _ | _, [] => m
             | _, _ => map_set key value m
             end)
      | _ => fail_ Dtype (js "request header")
      end
  end.

Variable compiled : CompiledBillingExpression.
Variable context : BillingSimulationContext.
(** The field [headers], built by the constructor. *)
Variable header_map : list (jstr * jstr).

(** [this.now] *)
Definition now : option Z := default (Some clock) (ctx_now context).

(** The state the constructor leaves. *)
Definition initial_state : rstate :=
  {| requestRules := (fun r => {| cond := rule_cond r; multiplier := rule_multiplier r;
                                  matched := false |}) <$> c_rules compiled;
     matchedTier := [];
     billingUnit := Utoken;
     fixedPrice := None;
     timeValues := [];
     rt_depth := 0 |}.

(** The checks of [evaluate] on a computed value. *)
Definition check_value (n : ExpressionNode) (v : RuntimeValue) : M RuntimeValue :=
  match rv_value v with
  | JNum x =>
      if negb (is_finite x) then throw_at Dnumber (js "non-finite result") (node_start n)
      else if rv_integer v && negb (is_safe_integer x)
      then throw_at Dunsupported (js "integer precision") (node_start n)
      else st_ret v
  | _ => st_ret v
  end.

(** [this.requestRules[i].matched = true] for the rule of node [n]. *)
Definition mark_rule (n : ExpressionNode) : M unit :=
  match list_find (fun r => same_node (rule_node r) n = true) (c_rules compiled) with
  | Some (i, _) => st_modify (fun s => set_rules (alter mark_matched i (requestRules s)) s)
  | None => st_ret tt
  end.

Definition variable_value (sp : span) (v : TokenVariable) : M RuntimeValue :=
  match t ← tokens context; assoc (variable_name v) t with
  | None | Some JUndefined => throw_at Dmissing_context (variable_name v) (sp_start sp)
  | Some (JNum x) =>
      if fltb x fzero then throw_at Dnumber (variable_name v) (sp_start sp)
      else st_ret (plain (JNum x))
  | Some _ => throw_at Dnumber (variable_name v) (sp_start sp)
  end.

(** Comparison of two numbers or of two strings. *)
Definition compare_values (o : binop) (a b : jsval) : option bool :=
  match o, a, b with
  | Blt, JNum x, JNum y => Some (fltb x y)
  | Ble, JNum x, JNum y => Some (fleb x y)
  | Bgt, JNum x, JNum y => Some (fltb y x)
  | Bge, JNum x, JNum y => Some (fleb y x)
  | Blt, JStr x, JStr y => Some (jltb x y)
  | Ble, JStr x, JStr y => Some (jleb x y)
  | Bgt, JStr x, JStr y => Some (jltb y x)
  | Bge, JStr x, JStr y => Some (jleb y x)
  | _, _, _ => None
  end.

Definition arithmetic (sp : span) (o : binop) (x y : f64) (integer : bool) : M RuntimeValue :=
  match o with
  | Badd => st_ret {| rv_value := JNum (fadd x y); rv_integer := integer |}
  | Bsub => st_ret {| rv_value := JNum (fsub x y); rv_integer := integer |}
  | Bmul => st_ret {| rv_value := JNum (fmul x y); rv_integer := integer |}
  | Bdiv => st_ret (plain (JNum (fdiv x y)))
  | Bmod =>
      if integer then st_ret {| rv_value := JNum (frem x y); rv_integer := true |}
      else throw_at Dtype (js "integer modulo") (sp_start sp)
  | _ => throw_at Dunsupported (binop_name o) (sp_start sp)
  end.

(** The part of [binary] after both operands are evaluated. *)
Definition apply_binary (sp : span) (o : binop) (left right : RuntimeValue) : M RuntimeValue :=
  let a := rv_value left in
  let b := rv_value right in
  match o with
  | Beq | Bne =>
      if negb (strict_eq a JNull) && negb (strict_eq b JNull) && (is_object a || is_object b)
      then throw_at Dunsupported (js "object comparison") (sp_start sp)
      else
        let equal := strict_eq a b in
        st_ret (plain (JBool (match o with Beq => equal | _ => negb equal end)))
  | _ =>
      match o, a, b with
      | Badd, JStr x, JStr y => st_ret (plain (JStr (x ++ y)))
      | _, _, _ =>
          match compare_values o a b with
          | Some r => st_ret (plain (JBool r))
          | None =>
              match a, b with
              | JNum x, JNum y => arithmetic sp o x y (rv_integer left && rv_integer right)
              | _, _ => throw_at Dtype (binop_name o) (sp_start sp)
              end
          end
      end
  end.

(** The end of [call]: the cached or computed values of a zone. *)
Definition time_lookup (f : TimeFunction) (zone : jstr) : M RuntimeValue :=
  s <- st_get ;;
  match assoc zone (timeValues s) with
  | Some values => st_ret {| rv_value := JNum (values f); rv_integer := true |}
  | None =>
      values <- st_lift (timeInBillingZone now zone) ;;
      st_modify (add_time zone values) ;;;
      st_ret {| rv_value := JNum (values f); rv_integer := true |}
  end.

Section Recursion.
(** The recursive occurrences of the method [evaluate]. *)
Variable evaluate : ExpressionNode -> M RuntimeValue.

Definition boolean (n : ExpressionNode) : M bool :=
  r <- evaluate n ;;
  match rv_value r with
  | JBool b => st_ret b
  | _ => throw_at Dtype (js "boolean condition") (node_start n)
  end.

Definition numeric (n : ExpressionNode) : M (f64 * bool) :=
  r <- evaluate n ;;
  match rv_value r with
  | JNum x => st_ret (x, rv_integer r)
  | _ => throw_at Dtype (js "numeric operand") (node_start n)
  end.

Definition string_ (n : ExpressionNode) : M jstr :=
  r <- evaluate n ;;
  match rv_value r with
  | JStr s => st_ret s
  | _ => throw_at Dtype (js "string argument") (node_start n)
  end.

Definition binary (sp : span) (o : binop) (left right : ExpressionNode) : M RuntimeValue :=
  match o with
  | Band =>
      a <- boolean left ;;
      if a : bool then b <- boolean right ;; st_ret (plain (JBool b))
      else st_ret (plain (JBool false))
  | Bor =>
      a <- boolean left ;;
      if a : bool then st_ret (plain (JBool true))
      else b <- boolean right ;; st_ret (plain (JBool b))
  | _ =>
      l <- evaluate left ;;
      r <- evaluate right ;;
      apply_binary sp o l r
  end.

Definition time_call (f : TimeFunction) (arg : ExpressionNode) : M RuntimeValue :=
  text <- string_ arg ;; time_lookup f (trim text).

(** The calls of one argument. *)
Definition call1 (sp : span) (f : fname) (a : ExpressionNode) : M RuntimeValue :=
  match f with
  | Ffixed =>
      amount <- numeric a ;;
      st_modify (set_fixed (fst amount)) ;;;
      st_ret (plain (JNum (fmul (fst amount) million)))
  | Fparam =>
      path <- string_ a ;;
      match request context with
      | None => throw_at Dmissing_context (js "request body") (sp_start sp)
      | Some r => v <- st_lift (readRequestPath (body r) path) ;; st_ret (plain v)
      end
  | Fheader =>
      text <- string_ a ;;
      match request context with
      | None => throw_at Dmissing_context (js "request headers") (sp_start sp)
      | Some _ => st_ret (plain (JStr (default [] (assoc (to_lower (trim text)) header_map))))
      end
  | Fu =>
      name <- string_ a ;;
      match usage context with
      | None => throw_at Dmissing_context (js "task usage") (sp_start sp)
      | Some u => st_ret (plain (default JNull (assoc name u)))
      end
  | Fabs => x <- numeric a ;; st_ret (plain (JNum (fabs (fst x))))
  | Ffloor => x <- numeric a ;; st_ret (plain (JNum (ffloor (fst x))))
  | Fceil => x <- numeric a ;; st_ret (plain (JNum (fceil (fst x))))
  | Ftime t => time_call t a
  | Ftier | Fhas | Fmin | Fmax => type_error
  end.

(** The calls of two arguments. *)
Definition call2 (sp : span) (f : fname) (a b : ExpressionNode) : M RuntimeValue :=
  match f with
  | Ftier =>
      name <- string_ a ;;
      value <- numeric b ;;
      st_modify (set_tier name) ;;;
      st_ret (plain (JNum (fst value)))
  | Fhas =>
      source <- evaluate a ;;
      substring <- string_ b ;;
      if is_nullish (rv_value source) then st_ret (plain (JBool false))
      else
        match substring with
        | [] => st_ret (plain (JBool false))
        | _ =>
            text <- st_lift (billingString 0 (rv_value source)) ;;
            st_ret (plain (JBool (includes text substring)))
        end
  | Fmin => x <- numeric a ;; y <- numeric b ;; st_ret (plain (JNum (fmin (fst x) (fst y))))
  | Fmax => x <- numeric a ;; y <- numeric b ;; st_ret (plain (JNum (fmax (fst x) (fst y))))
  | _ => call1 sp f a
  end.

Definition call (sp : span) (f : fname) (args : list ExpressionNode) : M RuntimeValue :=
  match args with
  | [] => type_error
  | [a] => call1 sp f a
  | a :: b :: _ => call2 sp f a b
  end.

Definition unary (o : unop) (a : ExpressionNode) : M RuntimeValue :=
  match o with
  | Unot => b <- boolean a ;; st_ret (plain (JBool (negb b)))
  | Uminus =>
      x <- numeric a ;; st_ret {| rv_value := JNum (fneg (fst x)); rv_integer := snd x |}
  | Uplus => x <- numeric a ;; st_ret {| rv_value := JNum (fst x); rv_integer := snd x |}
  end.

Definition literal_value (v : litval) : RuntimeValue :=
  match v with
  | LNull => plain JNull
  | LBool b => plain (JBool b)
  | LNum x i => {| rv_value := JNum x; rv_integer := i |}
  | LStr s => plain (JStr s)
  end.

Definition evaluateNode (n : ExpressionNode) : M RuntimeValue :=
  match n with
  | Literal _ v => st_ret (literal_value v)
  | Var sp v => variable_value sp v
  | Conditional _ c yes no =>
      condition <- boolean c ;;
      (if condition : bool then mark_rule n else st_ret tt) ;;;
      (if condition : bool then evaluate yes else evaluate no)
  | Unary _ o a => unary o a
  | Binary sp o l r => binary sp o l r
  | Call sp f args => call sp f args
  end.
End Recursion.

Fixpoint evaluate (n : ExpressionNode) : M RuntimeValue :=
  s <- st_get ;;
  let d := S (rt_depth s) in
  if Nat.ltb 256 d then throw Dlimit (js "evaluation depth")
  else
    st_put (set_depth d s) ;;;
    value <- evaluateNode evaluate n ;;
    checked <- check_value n value ;;
    st_modify (fun s => set_depth (Nat.pred (rt_depth s)) s) ;;;
    st_ret checked.
End Evaluator.

(** ** Entry points *)

Inductive BillingEvaluationResult :=
| Success (cost : f64) (unit_ : BillingUnit) (price : option f64) (tier : jstr)
    (rules : list BillingRequestRule)
| Failure (f : ExpressionFailure).

Section Entry.
Context `{Host}.

(** [new BillingRuntime(compiled, context).evaluate(node)] *)
Definition run_node (compiled : CompiledBillingExpression) (context : BillingSimulationContext)
    (n : ExpressionNode) : res exn (RuntimeValue * rstate) :=
  hs <-- load_headers (default [] (r ← request context; headers r)) [] ;;
  evaluate compiled context hs n (initial_state compiled).

Definition evaluateBillingCondition (compiled : CompiledBillingExpression) (n : ExpressionNode)
    (now : option Z) : option bool :=
  match run_node compiled
          {| tokens := None; request := None; usage := None; ctx_now := Some now |} n with
  | Ok (v, _) => match rv_value v with JBool b => Some b | _ => None end
  | Err _ => None
  end.

(** [typeof value === 'number' && Number.isFinite(value) && !(value < 0)] *)
Definition billable (v : jsval) : option f64 :=
  match v with
  | JNum x => if is_finite x && negb (fltb x fzero) then Some x else None
  | _ => None
  end.

Fixpoint check_tokens (entries : list (jstr * jsval)) : res exn unit :=
  match entries with
  | [] => Ok tt
  | (name, value) :: entries' =>
      match billable value with
      | Some _ => check_tokens entries'
      | None => fail_ Dnumber name
      end
  end.

(** The [try] block of [evaluateBillingExpression]. *)
Definition evaluate_compiled (compiled : CompiledBillingExpression)
    (context : BillingSimulationContext) : res exn BillingEvaluationResult :=
  _ <-- check_tokens (default [] (tokens context)) ;;
  r <-- run_node compiled context (c_ast compiled) ;;
  let '(v, s) := r in
  match billable (rv_value v) with
  | Some cost =>
      Ok (Success cost (billingUnit s) (fixedPrice s) (matchedTier s) (requestRules s))
  | None => fail_ Dnumber (js "billing result")
  end.

Definition evaluateBillingExpression (compiled : CompilationResult)
    (context : BillingSimulationContext) : BillingEvaluationResult :=
  match compiled with
  | NotReady f => Failure f
  | Ready c =>
      match evaluate_compiled c context with
      | Ok r => r
      | Err e => Failure (expressionFailure e)
      end
  end.
End Entry.
