(* ===== verification/BillingRuntimeFacts.v ===== *)
(** * Billing expressions: what evaluation guarantees

    Evaluation of a compiled expression only throws the project's own errors,
    returns a value of the type the compiler inferred, keeps numbers finite and
    flagged integers safe, reads only the inputs the compiler lists, marks rules
    monotonically, and charges a fixed price only from a literal scaled by
    request multipliers. *)

From stdpp Require Import base list numbers strings gmap.
From Stdlib Require Import ZArith SpecFloat Lia.
From S2P Require Import Prelude.
From S2P Require Import JsString.
From S2P Require Import JsNumber.
From S2P Require Import JsNumberFacts.
From S2P Require Import JsValue.
From S2P Require Import BillingTypes.
From S2P Require Import BillingParser.
From S2P Require Import BillingSpans.
From S2P Require Import BillingCompile.
From S2P Require Import BillingCompileFacts.
From S2P Require Import BillingRuntime.

#[local] Open Scope jsm.

(** ** A program logic with postconditions for both outcomes *)

Section Wp.
Context {S : Type}.

Definition wp {A} (m : st exn S A) (s : S) (Q : A -> S -> Prop) (E : exn -> Prop) : Prop :=
  match m s with
  | Ok (a, s') => Q a s'
  | Err e => E e
  end.

Lemma wp_bind {A B} (m : st exn S A) (f : A -> st exn S B) s Q E :
  wp m s (fun a s' => wp (f a) s' Q E) E -> wp (st_bind m f) s Q E.
Proof. unfold wp, st_bind. destruct (m s) as [[a s']|e]; done. Qed.

Lemma wp_ret {A} (a : A) s (Q : A -> S -> Prop) E : Q a s -> wp (st_ret a) s Q E.
Proof. done. Qed.

Lemma wp_get s (Q : S -> S -> Prop) E : Q s s -> wp st_get s Q E.
Proof. done. Qed.

Lemma wp_modify f s (Q : unit -> S -> Prop) E : Q tt (f s) -> wp (st_modify f) s Q E.
Proof. done. Qed.

Lemma wp_lift {A} (r : res exn A) s (Q : A -> S -> Prop) (E : exn -> Prop) :
  match r with Ok a => Q a s | Err e => E e end -> wp (st_lift r) s Q E.
Proof. unfold wp, st_lift. by destruct r. Qed.

Lemma wp_throw_at {A} c d p s (Q : A -> S -> Prop) (E : exn -> Prop) :
  E (BillingExpressionError {| code := c; detail := d; position := Some p |}) ->
  wp (throw_at c d p) s Q E.
Proof. done. Qed.

Lemma wp_conseq {A} (m : st exn S A) s (P Q : A -> S -> Prop) (E F : exn -> Prop) :
  wp m s P E -> (forall a s', P a s' -> Q a s') -> (forall e, E e -> F e) -> wp m s Q F.
Proof. unfold wp. destruct (m s) as [[a s']|e]; auto. Qed.
End Wp.

(** ** Values *)

Definition kind_of (v : jsval) : option ExpressionType :=
  match v with
  | JNum _ => Some Tnumber
  | JStr _ => Some Tstring
  | JBool _ => Some Tboolean
  | JNull => Some Tnil
  | _ => None
  end.

(** The value has the static type [t]; [dynamic] says nothing.  The compiler
    types [+] as a number unless both operands are statically strings, but two
    dynamic operands may turn out to be strings, which [+] concatenates: only
    [strict] typing rules this out. *)
Definition has_type (strict : bool) (t : ExpressionType) (v : jsval) : Prop :=
  match t with
  | Tdynamic => True
  | Tnumber => kind_of v = Some Tnumber \/ strict = false /\ kind_of v = Some Tstring
  | _ => kind_of v = Some t
  end.

(** No [+] of the tree has two operands of dynamic type. *)
Definition plus_static (n : ExpressionNode) : Prop :=
  forall sp a b, Binary sp Badd a b ∈ postorder n -> ~ (infer a = Ok Tdynamic /\ infer b = Ok Tdynamic).

(** A number that [evaluate] returns. *)
Definition number_ok (v : RuntimeValue) : Prop :=
  forall x, rv_value v = JNum x ->
    is_finite x = true /\ (rv_integer v = true -> is_safe_integer x = true).

(** ** How the state evolves *)

Definition rule_grows (r r' : BillingRequestRule) : Prop :=
  cond r' = cond r /\ multiplier r' = multiplier r /\ (matched r = true -> matched r' = true).

#[global] Instance rule_grows_refl : Reflexive rule_grows.
Proof. by intros r. Qed.
#[global] Instance rule_grows_trans : Transitive rule_grows.
Proof. intros a b c (? & ? & ?) (? & ? & ?). repeat split; [congruence..|auto]. Qed.

(** What an evaluation of a tree whose calls include [uses] may change. *)
Record evolves (uses : fname -> Prop) (s s' : rstate) : Prop := {
  ev_depth : rt_depth s' = rt_depth s;
  ev_rules : Forall2 rule_grows (requestRules s) (requestRules s');
  ev_fixed : ~ uses Ffixed -> fixedPrice s' = fixedPrice s /\ billingUnit s' = billingUnit s;
  ev_tier : ~ uses Ftier -> matchedTier s' = matchedTier s;
  ev_unit : (billingUnit s = Urequest <-> is_Some (fixedPrice s)) ->
            (billingUnit s' = Urequest <-> is_Some (fixedPrice s'));
}.

#[global] Instance evolves_refl uses : Reflexive (evolves uses).
Proof. intros s. by constructor. Qed.

#[global] Instance evolves_trans uses : Transitive (evolves uses).
Proof.
  intros s1 s2 s3 [A1 A2 A3 A4 A5] [B1 B2 B3 B4 B5]. constructor; [congruence|..]; try tauto.
  - by etrans.
  - intros Hf. destruct (A3 Hf), (B3 Hf). split; congruence.
  - intros Hf. rewrite B4, A4; done.
Qed.

Lemma evolves_weaken (u u' : fname -> Prop) s s' :
  (forall f, u f -> u' f) -> evolves u s s' -> evolves u' s s'.
Proof. intros Hu [A1 A2 A3 A4 A5]. constructor; [done|done| | |done]; eauto. Qed.

(** ** Errors *)

Definition depth_error : exn :=
  BillingExpressionError {| code := Dlimit; detail := js "evaluation depth"; position := None |}.

(** The errors of an evaluation that may nest [k] calls deep. *)
Definition expected (k : nat) (e : exn) : Prop :=
  (exists d, e = BillingExpressionError d) /\ (k < 256 -> e <> depth_error).

Lemma expected_mono k k' e : k <= k' -> expected k e -> expected k' e.
Proof. intros Hk [H1 H2]. split; [done|]. intros. apply H2. lia. Qed.

Lemma expected_at k c d p :
  expected k (BillingExpressionError {| code := c; detail := d; position := Some p |}).
Proof. split; [eauto|]. intros _. unfold depth_error. congruence. Qed.

Lemma expected_code k c d p : c <> Dlimit ->
  expected k (BillingExpressionError {| code := c; detail := d; position := p |}).
Proof. intros. split; [eauto|]. intros _. unfold depth_error. congruence. Qed.

Create HintDb runtime discriminated.
#[export] Hint Resolve expected_at : runtime.

Lemma uses_function_child n c f : c ∈ node_children n -> uses_function c f -> uses_function n f.
Proof.
  intros Hc (sp & args & Hin). exists sp, args. eapply postorder_trans; [|done].
  rewrite postorder_unfold, elem_of_app. left. apply elem_of_concat_map.
  exists c. split; [done|apply postorder_self].
Qed.

Lemma uses_variable_child n c v : c ∈ node_children n -> uses_variable c v -> uses_variable n v.
Proof.
  intros Hc (sp & Hin). exists sp. eapply postorder_trans; [|done].
  rewrite postorder_unfold, elem_of_app. left. apply elem_of_concat_map.
  exists c. split; [done|apply postorder_self].
Qed.

Lemma uses_self sp f args : uses_function (Call sp f args) f.
Proof. exists sp, args. apply postorder_self. Qed.

(** ** Helper computations only throw the project's errors *)

Definition res_ok {A} (k : nat) (r : res exn A) : Prop :=
  match r with Ok _ => True | Err e => expected k e end.

Lemma split_path_ok k path rest part parts : res_ok k (split_path path rest part parts).
Proof.
  remember (length rest) as len eqn:Hlen. revert rest part parts Hlen.
  induction len as [len IH] using (well_founded_induction lt_wf). intros rest part parts ->.
  destruct rest as [|c rest]; simpl; [done|].
  destruct (c =? 92)%N.
  { destruct rest as [|d rest]; [by apply expected_code|]. apply (IH (length rest)); simpl; lia. }
  destruct (c =? 46)%N; [apply (IH (length rest)); simpl; lia|].
  destruct (gjson_special c); [by apply expected_code|]. apply (IH (length rest)); simpl; lia.
Qed.

Lemma follow_path_ok k path parts v : res_ok k (follow_path path parts v).
Proof.
  revert v. induction parts as [|key parts IH]; intros v; simpl; [done|].
  destruct v; try done.
  - destruct (jeqb key (js "#")); [destruct parts; [done|by apply expected_code]|].
    destruct (all_digits key); [apply IH|done].
  - destruct (assoc key entries); [apply IH|done].
Qed.

Lemma readRequestPath_ok k b p : res_ok k (readRequestPath b p).
Proof.
  unfold readRequestPath. destruct (trim p) as [|c l] eqn:Hp; [done|].
  pose proof (split_path_ok k (c :: l) (c :: l) [] []) as Hs.
  destruct (split_path (c :: l) (c :: l) [] []); [apply follow_path_ok|done].
Qed.

Lemma billing_number_ok k n : res_ok k (billing_number n).
Proof.
  unfold billing_number. destruct (negb (is_finite n)); [by apply expected_code|].
  destruct (to_exponential n) as [m e]. 
  assert (forall b : bool, res_ok k (if b then Ok (m ++ js "e" ++ (if (e <? 0)%Z then js "-" else js "+")
    ++ pad2 (Z.to_N (Z.abs e))) else Ok (number_to_string n))) as Hb by by intros [].
  by destruct n as [[]| | |].
Qed.

Lemma res_mapM_ok {A B} k (f : A -> res exn B) l :
  Forall (fun x => res_ok k (f x)) l -> res_ok k (res_mapM f l).
Proof.
  induction 1 as [|x l Hx Hl IH]; simpl; [done|].
  destruct (f x); simpl; [|done]. destruct (res_mapM f l); done.
Qed.

Lemma insert_entry_perm {A} (x : jstr * A) l : insert_entry x l ≡ₚ x :: l.
Proof.
  induction l as [|y l IH]; simpl; [done|]. destruct (jleb _ _); [done|].
  rewrite IH. apply Permutation_swap.
Qed.

Lemma sort_entries_perm {A} (l : list (jstr * A)) : sort_entries l ≡ₚ l.
Proof. induction l as [|x l IH]; simpl; [done|]. by rewrite insert_entry_perm, IH. Qed.

Lemma billingString_ok k d v : res_ok k (billingString d v).
Proof.
  revert d. induction v as [l Hl|l Hl|v Hv] using jsval_ind'; intros d.
  - cbn [billingString]. destruct (Nat.ltb 128 d); [split; [by eauto|unfold depth_error; done]|].
    assert (res_ok k (res_mapM (billingString (S d)) l)) as Hm.
    { apply res_mapM_ok. eapply Forall_impl; [exact Hl|]. auto. }
    destruct (res_mapM (billingString (S d)) l); done.
  - cbn [billingString]. destruct (Nat.ltb 128 d); [split; [by eauto|unfold depth_error; done]|].
    match goal with |- context [res_mapM ?f ?l] => assert (res_ok k (res_mapM f l)) as Hm end.
    { apply res_mapM_ok. rewrite sort_entries_perm. apply Forall_map.
      eapply Forall_impl; [exact Hl|]. intros [key w] Hw. simpl in *. specialize (Hw (S d)).
      destruct (billingString (S d) w); done. }
    match goal with |- context [res_mapM ?f ?l] => destruct (res_mapM f l) end; done.
  - destruct v; try discriminate; cbn [billingString];
      (destruct (Nat.ltb 128 d); [split; [by eauto|unfold depth_error; done]|]); try done.
    apply billing_number_ok.
Qed.

(** ** Evaluation *)

Section Evaluation.
Context `{Host} (compiled : CompiledBillingExpression) (context : BillingSimulationContext)
  (header_map : list (jstr * jstr)).

Abbreviation eval := (evaluate compiled context header_map).

Lemma evaluate_unfold n s :
  eval n s =
  if Nat.ltb 256 (S (rt_depth s)) then Err depth_error
  else match evaluateNode compiled context header_map eval n (set_depth (S (rt_depth s)) s) with
       | Ok (v, s1) =>
           match check_value n v s1 with
           | Ok (v', s2) => Ok (v', set_depth (Nat.pred (rt_depth s2)) s2)
           | Err e => Err e
           end
       | Err e => Err e
       end.
Proof.
  destruct n; cbn [evaluate]; unfold st_bind, st_get, st_put, st_modify, st_ret;
    destruct (Nat.ltb 256 (S (rt_depth s))); try done;
    match goal with |- context [evaluateNode ?a ?b ?c ?d ?e ?f] =>
      destruct (evaluateNode a b c d e f) as [[v s1]|er] end; try done;
    by match goal with |- context [check_value ?n ?v ?s] =>
      destruct (check_value n v s) as [[v' s2]|e'] end.
Qed.

Context (strict : bool).

(** [n] evaluates, from states of depth [D], to a value of type [t]. *)
Definition runs (D K : nat) (U : fname -> Prop) (n : ExpressionNode) (t : ExpressionType) : Prop :=
  forall s, rt_depth s = D ->
    wp (eval n) s
       (fun v s' => has_type strict t (rv_value v) /\ number_ok v /\ evolves U s s')
       (expected K).

Section Calls.
Context (K : nat) (U : fname -> Prop) (s0 : rstate).
Abbreviation D := (rt_depth s0).

Lemma eval_ok n t s : runs D K U n t -> evolves U s0 s ->
  wp (eval n) s
     (fun v s' => has_type strict t (rv_value v) /\ number_ok v /\ evolves U s0 s')
     (expected K).
Proof.
  intros Hr He. eapply wp_conseq; [apply Hr; by rewrite (ev_depth _ _ _ He)| |done].
  intros v s' (Ht & Hn & He'). split; [done|]. split; [done|]. by etrans.
Qed.

Lemma boolean_ok n t s : runs D K U n t -> evolves U s0 s ->
  wp (boolean eval n) s (fun _ s' => evolves U s0 s') (expected K).
Proof.
  intros Hr He. apply wp_bind. eapply wp_conseq; [by eapply eval_ok| |done].
  intros v s' (_ & _ & He'). destruct (rv_value v); try apply wp_throw_at, expected_at. done.
Qed.

Lemma string_ok n t s : runs D K U n t -> evolves U s0 s ->
  wp (string_ eval n) s (fun _ s' => evolves U s0 s') (expected K).
Proof.
  intros Hr He. apply wp_bind. eapply wp_conseq; [by eapply eval_ok| |done].
  intros v s' (_ & _ & He'). destruct (rv_value v); try apply wp_throw_at, expected_at. done.
Qed.

Lemma numeric_ok n t s : runs D K U n t -> evolves U s0 s ->
  wp (numeric eval n) s
     (fun x s' => number_ok {| rv_value := JNum (fst x); rv_integer := snd x |} /\ evolves U s0 s')
     (expected K).
Proof.
  intros Hr He. apply wp_bind. eapply wp_conseq; [by eapply eval_ok| |done].
  intros v s' (_ & Hn & He').
  destruct (rv_value v) eqn:Hv; try apply wp_throw_at, expected_at.
  split; [|done]. intros x [= <-]. by apply Hn.
Qed.

(** The remaining goals of a method: a value of the right type. *)
Definition returns (t : ExpressionType) (m : M RuntimeValue) (s : rstate) : Prop :=
  wp m s (fun v s' => has_type strict t (rv_value v) /\ evolves U s0 s') (expected K).

Lemma returns_throw t c d p s : returns t (throw_at c d p) s.
Proof. apply wp_throw_at, expected_at. Qed.

Lemma returns_bool b s : evolves U s0 s -> returns Tboolean (st_ret (plain (JBool b))) s.
Proof. done. Qed.

Lemma returns_num x i s : evolves U s0 s ->
  returns Tnumber (st_ret {| rv_value := JNum x; rv_integer := i |}) s.
Proof. intros. split; [by left|done]. Qed.

Lemma arithmetic_ok sp o x y i s : evolves U s0 s -> returns Tnumber (arithmetic sp o x y i) s.
Proof.
  intros He. unfold arithmetic.
  destruct o; try apply returns_throw; try (by apply returns_num).
  destruct i; [by apply returns_num|apply returns_throw].
Qed.

Lemma plus_type a b ta tb t : binary_type Badd a b (Some ta) (Some tb) = Ok t ->
  ta = Tstring /\ tb = Tstring /\ t = Tstring \/
  t = Tnumber /\ (ta = Tnumber \/ ta = Tdynamic) /\ (tb = Tnumber \/ tb = Tdynamic).
Proof.
  cbn [binary_type]. case_decide as Hd; [intros; naive_solver|].
  unfold requireType. repeat case_decide; simpl; naive_solver.
Qed.

Lemma plus_ok sp a b ta tb t l r s :
  binary_type Badd a b (Some ta) (Some tb) = Ok t ->
  (strict = true -> ~ (ta = Tdynamic /\ tb = Tdynamic)) ->
  has_type strict ta (rv_value l) -> has_type strict tb (rv_value r) ->
  evolves U s0 s -> returns t (apply_binary sp Badd l r) s.
Proof.
  intros Ht Hst Hl Hr He. unfold apply_binary.
  apply plus_type in Ht as [(-> & -> & ->)|(-> & Ha & Hb)].
  - simpl in Hl, Hr. destruct (rv_value l), (rv_value r); simplify_eq/=. by split.
  - destruct (rv_value l) eqn:Hvl, (rv_value r) eqn:Hvr; simpl;
      try apply returns_throw; try (by apply returns_num).
    split; [|done]. right. split; [|done]. destruct strict; [|done].
    simpl in Hl, Hr. destruct Ha as [-> | ->], Hb as [-> | ->]; naive_solver.
Qed.

Lemma apply_binary_ok sp o a b ta tb t l r s :
  binary_type o a b (Some ta) (Some tb) = Ok t -> o <> Band -> o <> Bor -> o <> Badd ->
  evolves U s0 s -> returns t (apply_binary sp o l r) s.
Proof.
  intros Ht Hand Hor Hadd He. unfold apply_binary.
  assert (t = Tnumber /\ (o = Bsub \/ o = Bmul \/ o = Bdiv \/ o = Bmod) \/
          t = Tboolean /\ (o = Beq \/ o = Bne \/ o = Blt \/ o = Ble \/ o = Bgt \/ o = Bge)) as Hto.
  { destruct o; try done; cbn [binary_type] in Ht; simplify_eq; auto 10;
      (destruct (decide _) as [[? _]|_] in Ht; [done|]; st_inv; auto 10). }
  destruct Hto as [[-> Ho]|[-> Ho]].
  - destruct Ho as [->|[->|[->| ->]]]; destruct (rv_value l), (rv_value r); cbn [compare_values];
      first [apply returns_throw | by apply arithmetic_ok].
  - destruct Ho as [->|[->|Ho]];
      [destruct (_ && _); [apply returns_throw|by apply returns_bool]..|].
    destruct Ho as [->|[->|[->| ->]]]; destruct (rv_value l), (rv_value r); simpl;
      first [by apply returns_bool | apply returns_throw].
Qed.

Lemma evolves_fixed x s : U Ffixed -> evolves U s0 s -> evolves U s0 (set_fixed x s).
Proof.
  intros HU He. etrans; [done|]. by constructor.
Qed.

Lemma evolves_tier x s : U Ftier -> evolves U s0 s -> evolves U s0 (set_tier x s).
Proof. intros HU He. etrans; [done|]. by constructor. Qed.

Lemma evolves_time z v s : evolves U s0 s -> evolves U s0 (add_time z v s).
Proof. intros He. etrans; [done|]. by constructor. Qed.

Lemma evolves_mark i s : evolves U s0 s ->
  evolves U s0 (set_rules (alter mark_matched i (requestRules s)) s).
Proof.
  intros He. etrans; [done|]. constructor; try done. simpl.
  generalize (requestRules s). intros l. revert i. induction l as [|r l IH]; intros i; [done|].
  destruct i; constructor; first [apply IH | by split | reflexivity].
Qed.

(** The first operations of a method: evaluate an operand, continue. *)
Lemma returns_string {t m n tn s} : runs D K U n tn -> evolves U s0 s ->
  (forall x s', evolves U s0 s' -> returns t (m x) s') -> returns t (st_bind (string_ eval n) m) s.
Proof. intros Hr He Hm. apply wp_bind. eapply wp_conseq; [by eapply string_ok|auto|auto]. Qed.

Lemma returns_numeric {t m n tn s} : runs D K U n tn -> evolves U s0 s ->
  (forall x s', evolves U s0 s' -> returns t (m x) s') -> returns t (st_bind (numeric eval n) m) s.
Proof.
  intros Hr He Hm. apply wp_bind. eapply wp_conseq; [by eapply numeric_ok| |auto].
  intros x s' [_ He']. by apply Hm.
Qed.

Lemma returns_boolean {t m n tn s} : runs D K U n tn -> evolves U s0 s ->
  (forall x s', evolves U s0 s' -> returns t (m x) s') -> returns t (st_bind (boolean eval n) m) s.
Proof. intros Hr He Hm. apply wp_bind. eapply wp_conseq; [by eapply boolean_ok|auto|auto]. Qed.

Lemma returns_eval {t m n tn s} : runs D K U n tn -> evolves U s0 s ->
  (forall x s', has_type strict tn (rv_value x) -> evolves U s0 s' -> returns t (m x) s') ->
  returns t (st_bind (eval n) m) s.
Proof.
  intros Hr He Hm. apply wp_bind. eapply wp_conseq; [by eapply eval_ok| |auto].
  intros x s' (Ht & _ & He'). by apply Hm.
Qed.

Lemma returns_lift {A t m s} (r : res exn A) : res_ok K r -> (forall x, returns t (m x) s) ->
  returns t (st_bind (st_lift r) m) s.
Proof. intros Hr Hm. apply wp_bind, wp_lift. destruct r; [apply Hm|done]. Qed.

Lemma returns_modify {t m s} f : returns t m (f s) -> returns t (st_modify f ;;; m) s.
Proof. intros Hm. by apply wp_bind, wp_modify. Qed.

Lemma returns_get {t m s} : returns t (m s) s -> returns t (st_bind st_get m) s.
Proof. intros Hm. by apply wp_bind, wp_get. Qed.

Lemma time_call_ok f a ta s : runs D K U a ta -> evolves U s0 s ->
  returns Tnumber (time_call context eval f a) s.
Proof.
  intros Ha He. eapply returns_string; [done..|]. intros z s1 He1.
  apply returns_get. destruct (assoc (trim z) (timeValues s1)); [by apply returns_num|].
  apply returns_lift.
  - unfold timeInBillingZone. destruct (now context); [|by apply expected_code].
    destruct (jeqb _ _); [by apply expected_code|]. by destruct (zone_formatter _).
  - intros v. by apply returns_modify, returns_num, evolves_time.
Qed.

Lemma call1_ok sp f a ta t s : function_arity f = 1 -> call_type f [a] [Some ta] = Ok t ->
  U f -> runs D K U a ta -> evolves U s0 s ->
  returns t (call1 context header_map eval sp f a) s.
Proof.
  intros Har Ht HU Ha He. destruct f; try discriminate; cbn [call_type] in Ht; st_inv;
    try (eapply returns_numeric; [done..|]; intros y s' He'; by apply returns_num).
  - eapply returns_numeric; [done..|]. intros y s' He'.
    apply returns_modify, returns_num. by apply evolves_fixed.
  - eapply returns_string; [done..|]. intros y s' He'.
    destruct (request context); [|apply returns_throw].
    apply returns_lift; [apply readRequestPath_ok|done].
  - eapply returns_string; [done..|]. intros y s' He'.
    destruct (request context); [done|apply returns_throw].
  - eapply returns_string; [done..|]. intros y s' He'.
    destruct (usage context); [done|apply returns_throw].
  - by eapply time_call_ok.
Qed.

Lemma call2_ok sp f a b ta tb t s : function_arity f = 2 ->
  call_type f [a; b] [Some ta; Some tb] = Ok t ->
  U f -> runs D K U a ta -> runs D K U b tb -> evolves U s0 s ->
  returns t (call2 context header_map eval sp f a b) s.
Proof.
  intros Har Ht HU Ha Hb He. destruct f; try discriminate; cbn [call_type] in Ht; st_inv.
  - eapply returns_string; [done..|]. intros y s' He'. eapply returns_numeric; [done..|].
    intros z s'' He''. apply returns_modify, returns_num. by apply evolves_tier.
  - eapply returns_eval; [done..|]. intros y s' _ He'. eapply returns_string; [done..|].
    intros z s'' He''. destruct (is_nullish _); [by apply returns_bool|].
    destruct z; [by apply returns_bool|]. apply returns_lift; [apply billingString_ok|].
    intros. by apply returns_bool.
  - do 2 (eapply returns_numeric; [done..|]; intros ? ? ?). by apply returns_num.
  - do 2 (eapply returns_numeric; [done..|]; intros ? ? ?). by apply returns_num.
Qed.

Lemma unary_ok o a ta t s sp : type_rule (Unary sp o a) [Some ta] = Ok t ->
  runs D K U a ta -> evolves U s0 s -> returns t (unary eval o a) s.
Proof.
  intros Ht Ha He. cbn [type_rule] in Ht. destruct o; st_inv; cbn [unary].
  - eapply returns_boolean; [done..|]. intros. by apply returns_bool.
  - eapply returns_numeric; [done..|]. intros. by apply returns_num.
  - eapply returns_numeric; [done..|]. intros. by apply returns_num.
Qed.

Lemma binary_ok sp o a b ta tb t s : binary_type o a b (Some ta) (Some tb) = Ok t ->
  (strict = true -> o = Badd -> ~ (ta = Tdynamic /\ tb = Tdynamic)) ->
  runs D K U a ta -> runs D K U b tb -> evolves U s0 s -> returns t (binary eval sp o a b) s.
Proof.
  intros Ht Hp Ha Hb He. destruct (decide (o = Band \/ o = Bor)) as [[-> | ->]|Ho].
  1,2: cbn [binary_type] in Ht; st_inv; eapply returns_boolean; [done..|];
       intros [] s1 He1; try (by apply returns_bool);
       (eapply returns_boolean; [done..|]; intros; by apply returns_bool).
  assert (binary eval sp o a b =
          (l <- eval a ;; r <- eval b ;; apply_binary sp o l r)) as -> by (destruct o; naive_solver).
  eapply returns_eval; [done..|]. intros l s1 Hl He1.
  eapply returns_eval; [done..|]. intros r s2 Hr He2.
  destruct (decide (o = Badd)) as [->|Hadd].
  - eapply plus_ok; eauto.
  - eapply apply_binary_ok; naive_solver.
Qed.

Lemma conditional_ok n c y no tc ty tn s : runs D K U c tc -> runs D K U y ty -> runs D K U no tn ->
  evolves U s0 s ->
  returns (if decide (ty = tn) then ty else Tdynamic)
    (condition <- boolean eval c ;;
     (if condition : bool then mark_rule compiled n else st_ret tt) ;;;
     (if condition : bool then eval y else eval no)) s.
Proof.
  intros Hc Hy Hn He. eapply returns_boolean; [done..|]. intros b s1 He1.
  assert (forall e te s', runs D K U e te -> (te = ty \/ te = tn) -> evolves U s0 s' ->
    returns (if decide (ty = tn) then ty else Tdynamic) (eval e) s') as Hbr.
  { intros e te s' Hr Hte He'. unfold returns. eapply wp_conseq; [by eapply eval_ok| |done].
    intros v s'' (Ht & _ & He''). split; [|done]. case_decide; naive_solver. }
  apply wp_bind. destruct b; [|by eapply Hbr; eauto].
  unfold mark_rule. destruct (list_find _ _) as [[i r]|]; [|by eapply Hbr; eauto].
  eapply Hbr; [exact Hy|by left|by apply evolves_mark].
Qed.
End Calls.

Lemma check_value_ok K n v s :
  wp (check_value n v) s (fun v' s' => v' = v /\ s' = s /\ number_ok v) (expected K).
Proof.
  unfold check_value, number_ok. destruct (rv_value v) eqn:Hv; try (by repeat split).
  destruct (is_finite n0) eqn:Hf; simpl; [|apply wp_throw_at, expected_at].
  destruct (rv_integer v) eqn:Hi; simpl; [|repeat split; intros; simplify_eq; done].
  destruct (is_safe_integer n0) eqn:Hs; [|apply wp_throw_at, expected_at].
  repeat split; intros; simplify_eq; done.
Qed.

Lemma variable_value_ok K U sp v s : returns K U s Tnumber (variable_value context sp v) s.
Proof.
  unfold variable_value. destruct (tokens context ≫= _) as [[]|]; try apply returns_throw.
  destruct (fltb n fzero); [apply returns_throw|]. by apply returns_num.
Qed.

(** What is known of the children while their parent is evaluated. *)
Definition children_run (n : ExpressionNode) (s : rstate) (K : nat) : Prop :=
  Forall (fun c => forall t, infer c = Ok t ->
            runs (rt_depth s) K (uses_function n) c t) (node_children n).

Lemma call_ok sp f args t s K : wf_node (Call sp f args) -> infer (Call sp f args) = Ok t ->
  children_run (Call sp f args) s K ->
  returns K (uses_function (Call sp f args)) s t (call context header_map eval sp f args) s.
Proof.
  intros [_ _ _ Har _] Ht Hch. simpl in Har. rewrite infer_unfold in Ht.
  apply res_bind_Ok in Ht as (ts & Hts & Ht). cbn [node_children type_rule] in Hts, Ht.
  apply res_mapM_Ok in Hts. unfold children_run in Hch. cbn [node_children] in Hch.
  pose proof (uses_self sp f args) as HU. revert HU Hch.
  generalize (uses_function (Call sp f args)). intros U HU Hch.
  destruct args as [|a [|b [|? ?]]]; [by destruct f| | |by destruct f].
  - inversion Hts as [|? ta ? ? Ha Hn]; subst. inversion Hn; subst.
    inversion_clear Hch as [|? ? Hca _]. eapply call1_ok; [done|exact Ht|by eauto..|reflexivity].
  - inversion Hts as [|? ta ? ? Ha Hn]; subst. inversion Hn as [|? tb ? ? Hb Hn']; subst.
    inversion Hn'; subst. inversion_clear Hch as [|? ? Hca Hch'].
    inversion_clear Hch' as [|? ? Hcb _]. eapply call2_ok; [done|exact Ht|by eauto..|reflexivity].
Qed.

Lemma evaluateNode_ok n t s K : wf_node n -> infer n = Ok t -> (strict = true -> plus_static n) ->
  children_run n s K ->
  returns K (uses_function n) s t (evaluateNode compiled context header_map eval n) s.
Proof.
  intros Hw Ht Hp Hch. destruct n as [sp v|sp v|sp f args|sp o a|sp o a b|sp c y no]; cbn [evaluateNode].
  - destruct v; cbn in Ht; simplify_eq; (split; [first [by left|done]|reflexivity]).
  - cbn in Ht. simplify_eq. apply variable_value_ok.
  - by apply call_ok.
  - cbn [infer] in Ht. apply res_bind_Ok in Ht as (ts & Hts & Ht).
    apply res_bind_Ok in Hts as (ta & Hta & [= <-]). inversion_clear Hch as [|? ? Ha _].
    eapply unary_ok; [exact Ht|by apply Ha|reflexivity].
  - cbn [infer] in Ht. apply res_bind_Ok in Ht as (ts & Hts & Ht).
    apply res_bind_Ok in Hts as (ta & Hta & Hts). apply res_bind_Ok in Hts as (tb & Htb & [= <-]).
    inversion_clear Hch as [|? ? Ha Hch']. inversion_clear Hch' as [|? ? Hb _].
    eapply binary_ok; [exact Ht| |by apply Ha|by apply Hb|reflexivity].
    intros Hs ->. intros [-> ->]. eapply (Hp Hs sp a b); [apply postorder_self|done].
  - cbn [infer] in Ht. st_inv. inversion_clear Hch as [|? ? Hc Hch'].
    inversion_clear Hch' as [|? ? Hy Hch'']. inversion_clear Hch'' as [|? ? Hn _].
    eapply wp_conseq; [eapply conditional_ok;
      [by apply Hc|by apply Hy|by apply Hn|reflexivity]| |done].
    intros v s' [Hv He]. split; [|done]. revert Hv. repeat case_decide; simplify_eq; done.
Qed.

Lemma evaluate_runs n t D : wf_node n -> infer n = Ok t -> (strict = true -> plus_static n) ->
  runs D (D + node_depth n) (uses_function n) n t.
Proof.
  revert t D. induction n as [n IH] using node_children_ind. intros t D Hw Ht Hp s Hs.
  unfold wp. rewrite evaluate_unfold. destruct (Nat.ltb_spec 256 (S (rt_depth s))).
  { split; [by eauto|]. intros; lia. }
  set (s1 := set_depth (S (rt_depth s)) s).
  assert (children_run n s1 (D + node_depth n)) as Hch.
  { rewrite Forall_forall in IH. apply Forall_forall. intros c Hc tc Htc.
    destruct (wf_child n c Hw Hc) as [Hwc _]. pose proof (node_depth_child n c Hc).
    intros s' Hs'. eapply wp_conseq; [eapply (IH c Hc tc (S D)); eauto|..].
    - intros Hst sp a b Hin. eapply (Hp Hst sp a b). eapply postorder_trans; [|exact Hin].
      rewrite postorder_unfold, elem_of_app, elem_of_concat_map. left. eauto using postorder_self.
    - rewrite Hs'. simpl. lia.
    - intros v s'' (? & ? & He). split; [done|]. split; [done|].
      eapply evolves_weaken; [|done]. intros f. by apply uses_function_child.
    - intros e. apply expected_mono. lia. }
  pose proof (evaluateNode_ok n t s1 (D + node_depth n) Hw Ht Hp Hch) as He.
  unfold returns, wp in He. destruct (evaluateNode _ _ _ _ n s1) as [[v s2]|e]; [|done].
  destruct He as [Hv He]. pose proof (check_value_ok (D + node_depth n) n v s2) as Hc.
  unfold wp in Hc. destruct (check_value n v s2) as [[v' s3]|e]; [|done].
  destruct Hc as (-> & -> & Hn). split; [done|]. split; [done|].
  destruct He as [E1 E2 E3 E4 E5]. constructor; simpl in *; try done. by rewrite E1.
Qed.
End Evaluation.

(** ** Evaluation reads only the inputs the tree mentions *)

Section Agreement.
Context `{Host} (compiled : CompiledBillingExpression).
Context (ctx1 ctx2 : BillingSimulationContext) (hm1 hm2 : list (jstr * jstr)).

Definition token_of (ctx : BillingSimulationContext) (v : TokenVariable) : option jsval :=
  t ← tokens ctx; assoc (variable_name v) t.

(** The contexts agree on the variables [V] and on what the functions [F] read. *)
Record agree (V : TokenVariable -> Prop) (F : fname -> Prop) : Prop := {
  ag_tokens : forall v, V v -> token_of ctx1 v = token_of ctx2 v;
  ag_body : F Fparam -> body <$> request ctx1 = body <$> request ctx2;
  ag_headers : F Fheader ->
    (is_Some (request ctx1) <-> is_Some (request ctx2)) /\ (forall k, assoc k hm1 = assoc k hm2);
  ag_usage : F Fu -> usage ctx1 = usage ctx2;
  ag_now : forall t, F (Ftime t) -> now ctx1 = now ctx2;
}.

Lemma agree_weaken V V' F F' : (forall v, V v -> V' v) -> (forall f, F f -> F' f) ->
  agree V' F' -> agree V F.
Proof. intros HV HF [A1 A2 A3 A4 A5]. constructor; eauto. Qed.

Abbreviation eval1 := (evaluate compiled ctx1 hm1).
Abbreviation eval2 := (evaluate compiled ctx2 hm2).

Lemma boolean_ext n : st_eq (eval1 n) (eval2 n) -> st_eq (boolean eval1 n) (boolean eval2 n).
Proof. intros Hn. unfold boolean. by rewrite Hn. Qed.
Lemma numeric_ext n : st_eq (eval1 n) (eval2 n) -> st_eq (numeric eval1 n) (numeric eval2 n).
Proof. intros Hn. unfold numeric. by rewrite Hn. Qed.
Lemma string_ext n : st_eq (eval1 n) (eval2 n) -> st_eq (string_ eval1 n) (string_ eval2 n).
Proof. intros Hn. unfold string_. by rewrite Hn. Qed.

Ltac st_ext := repeat (apply st_bind_proper;
  [first [by apply numeric_ext | by apply string_ext | by apply boolean_ext | done] | intros ?]);
  try done.

Lemma call1_ext V F sp f a : F f -> agree V F -> st_eq (eval1 a) (eval2 a) ->
  st_eq (call1 ctx1 hm1 eval1 sp f a) (call1 ctx2 hm2 eval2 sp f a).
Proof.
  intros Hf [A1 A2 A3 A4 A5] Ha. destruct f; cbn [call1]; try done;
    try (by rewrite numeric_ext); try (unfold time_call, time_lookup); rewrite string_ext by done.
  - apply st_bind_proper; [done|]. intros path s. specialize (A2 Hf).
    destruct (request ctx1), (request ctx2); simplify_eq/=; [|done]. congruence.
  - apply st_bind_proper; [done|]. intros text s. destruct (A3 Hf) as [Hr Hk].
    rewrite Hk. destruct (request ctx1), (request ctx2); try done; exfalso;
      eapply is_Some_None; apply Hr; eauto.
  - by rewrite A4.
  - by rewrite (A5 t).
Qed.

Lemma evaluate_agree n : agree (uses_variable n) (uses_function n) -> st_eq (eval1 n) (eval2 n).
Proof.
  induction n as [n IH] using node_children_ind. intros Hag s.
  assert (Forall (fun c => st_eq (eval1 c) (eval2 c)) (node_children n)) as Hch.
  { rewrite Forall_forall in *. intros c Hc. apply IH; [done|]. eapply agree_weaken; [| |done].
    - intros v. by apply uses_variable_child.
    - intros f. by apply uses_function_child. }
  clear IH. rewrite !evaluate_unfold. destruct (Nat.ltb _ _); [done|].
  enough (st_eq (evaluateNode compiled ctx1 hm1 eval1 n) (evaluateNode compiled ctx2 hm2 eval2 n))
    as He by by rewrite (He _).
  destruct n as [| sp v|sp f args|sp o a|sp o a b|sp c y no]; cbn [evaluateNode node_children] in *.
  - done.
  - unfold variable_value. pose proof (ag_tokens _ _ Hag v) as Hv. unfold token_of in Hv.
    rewrite Hv; [done|]. exists sp. apply postorder_self.
  - pose proof (uses_self sp f args) as Hf.
    destruct args as [|a [|b args]]; cbn [call]; [done|..]; inversion_clear Hch as [|? ? Ha Hch'].
    { by eapply call1_ext. }
    inversion_clear Hch' as [|? ? Hb _].
    destruct f; cbn [call2]; try (by eapply call1_ext).
    all: st_ext.
  - inversion_clear Hch as [|? ? Ha _].
    destruct o; cbn [unary]; st_ext.
  - inversion_clear Hch as [|? ? Ha Hch']. inversion_clear Hch' as [|? ? Hb _].
    destruct o; cbn [binary]; st_ext; by case_match; st_ext.
  - inversion_clear Hch as [|? ? Hc Hch']. inversion_clear Hch' as [|? ? Hy Hch''].
    inversion_clear Hch'' as [|? ? Hn _]. 
    st_ext; by case_match.
Qed.
End Agreement.

(** ** A condition that the clock alone decides *)

Section ClockOnly.
Context `{Host} (compiled : CompiledBillingExpression).
Context (ctx : BillingSimulationContext) (hm : list (jstr * jstr)).

(** The context [evaluateBillingCondition] builds. *)
Definition clock_context (t : option Z) : BillingSimulationContext :=
  {| tokens := None; request := None; usage := None; ctx_now := Some t |}.

Abbreviation eval0 := (evaluate compiled (clock_context (now ctx)) []).
Abbreviation eval1 := (evaluate compiled ctx hm).

Lemma boolean_le n : st_le (eval0 n) (eval1 n) -> st_le (boolean eval0 n) (boolean eval1 n).
Proof. intros Hn. by apply st_bind_le. Qed.
Lemma numeric_le n : st_le (eval0 n) (eval1 n) -> st_le (numeric eval0 n) (numeric eval1 n).
Proof. intros Hn. by apply st_bind_le. Qed.
Lemma string_le n : st_le (eval0 n) (eval1 n) -> st_le (string_ eval0 n) (string_ eval1 n).
Proof. intros Hn. by apply st_bind_le. Qed.

Ltac st_mono := repeat (apply st_bind_le;
  [first [by apply numeric_le | by apply string_le | by apply boolean_le | done] | intros ?]);
  try done.

Lemma call1_le sp f a : st_le (eval0 a) (eval1 a) ->
  st_le (call1 (clock_context (now ctx)) [] eval0 sp f a) (call1 ctx hm eval1 sp f a).
Proof. intros Ha. destruct f; cbn [call1]; try unfold time_call, time_lookup; st_mono. Qed.

(** What the clock decides, every context with that clock decides the same. *)
Lemma evaluate_clock n : st_le (eval0 n) (eval1 n).
Proof.
  induction n as [n Hch] using node_children_ind. intros s r.
  rewrite !evaluate_unfold. destruct (Nat.ltb _ _); [done|].
  enough (st_le (evaluateNode compiled (clock_context (now ctx)) [] eval0 n)
                (evaluateNode compiled ctx hm eval1 n)) as He.
  { destruct (evaluateNode _ _ [] _ _ _) as [[v s1]|e] eqn:H1; [|done]. by rewrite (He _ _ H1). }
  destruct n as [| sp v|sp f args|sp o a|sp o a b|sp c y no]; cbn [evaluateNode node_children] in *.
  - done.
  - done.
  - destruct args as [|a [|b args]]; cbn [call]; [done|..]; inversion_clear Hch as [|? ? Ha Hch'].
    { by apply call1_le. }
    inversion_clear Hch' as [|? ? Hb _].
    destruct f; cbn [call2]; try (by apply call1_le); st_mono.
  - inversion_clear Hch as [|? ? Ha _]. destruct o; cbn [unary]; st_mono.
  - inversion_clear Hch as [|? ? Ha Hch']. inversion_clear Hch' as [|? ? Hb _].
    destruct o; cbn [binary]; st_mono; by case_match; st_mono.
  - inversion_clear Hch as [|? ? Hc Hch']. inversion_clear Hch' as [|? ? Hy Hch''].
    inversion_clear Hch'' as [|? ? Hn _]. st_mono; by case_match.
Qed.
End ClockOnly.
