(* ===== verification/BillingPricing.v ===== *)
(** * Billing expressions: prices

    What a successful evaluation of a compiled expression charges.  A fixed
    price is a literal of the expression, scaled only by the multipliers of
    request rules. *)

From stdpp Require Import base list numbers strings gmap.
From Stdlib Require Import ZArith SpecFloat Lia.
From S2P Require Import Prelude.
From S2P Require Import JsString.
From S2P Require Import JsNumber.
From S2P Require Import JsNumberFacts.
From S2P Require Import JsValue.
From S2P Require Import BillingTypes.
From S2P Require Import BillingParser.
From S2P Require Import BillingSpans.
From S2P Require Import BillingCompile.
From S2P Require Import BillingCompileFacts.
From S2P Require Import BillingRuntime.
From S2P Require Import BillingRuntimeFacts.

#[local] Open Scope jsm.

(** ** Subtrees of a compiled expression *)

Lemma infer_sub n m t : infer n = Ok t -> m ∈ postorder n -> exists t', infer m = Ok t'.
Proof.
  revert m t. induction n as [n IH] using node_children_ind. intros m t Ht.
  rewrite postorder_unfold, elem_of_app, list_elem_of_singleton, elem_of_concat_map.
  intros [(c & Hc & Hm)| ->]; [|by eauto]. rewrite infer_unfold in Ht.
  apply res_bind_Ok in Ht as (ts & Hts & _). apply res_mapM_Ok in Hts.
  apply list_elem_of_lookup in Hc as (i & Hi). destruct (Forall2_lookup_l _ _ _ _ _ Hts Hi) as (tc & _ & Htc).
  rewrite Forall_forall in IH. eapply IH; [by eapply list_elem_of_lookup_2|done|done].
Qed.

(** A subtree of a checked expression. *)
Definition checked (n : ExpressionNode) : Prop :=
  wf_node n /\ node_depth n <= 256 /\ exists t, infer n = Ok t.

Lemma checked_sub n m : checked n -> m ∈ postorder n -> checked m.
Proof.
  intros (Hw & Hd & t & Ht) Hm. split; [by apply (wf_descendant n m)|].
  split; [pose proof (postorder_depth n m Hm); lia|by eapply infer_sub].
Qed.

Lemma postorder_child n c : c ∈ node_children n -> c ∈ postorder n.
Proof.
  intros Hc. rewrite postorder_unfold, elem_of_app, elem_of_concat_map. left.
  eauto using postorder_self.
Qed.

Lemma checked_child n c : checked n -> c ∈ node_children n -> checked c.
Proof. intros Hn Hc. eapply checked_sub; [done|by apply postorder_child]. Qed.

Lemma compiled_checked source c : compiled_ok source c -> checked (c_ast c).
Proof. intros [_ _ Hw Hd Ht _ _ _ _]. exact (conj Hw (conj Hd Ht)). Qed.

Section Prices.
Context `{Host} (compiled : CompiledBillingExpression) (context : BillingSimulationContext)
  (header_map : list (jstr * jstr)).

Abbreviation eval := (evaluate compiled context header_map).

Lemma eval_evolves n s v s' : checked n -> eval n s = Ok (v, s') ->
  evolves (uses_function n) s s'.
Proof.
  intros (Hw & _ & t & Ht) He.
  pose proof (evaluate_runs compiled context header_map false n t (rt_depth s) Hw Ht ltac:(done) s
    eq_refl) as Hr.
  unfold wp in Hr. rewrite He in Hr. tauto.
Qed.

Lemma evaluate_inv n s v s' : eval n s = Ok (v, s') ->
  exists s1, evaluateNode compiled context header_map eval n (set_depth (S (rt_depth s)) s) = Ok (v, s1)
    /\ s' = set_depth (Nat.pred (rt_depth s1)) s1.
Proof.
  rewrite evaluate_unfold. destruct (Nat.ltb _ _); [done|].
  destruct (evaluateNode _ _ _ _ _ _) as [[v1 s1]|e]; [|done].
  pose proof (check_value_ok 0 n v1 s1) as Hc. unfold wp in Hc.
  destruct (check_value n v1 s1) as [[v2 s2]|e]; [|done]. destruct Hc as (-> & -> & _).
  intros [= <- <-]. eauto.
Qed.

(** The fields a price is read from. *)
Definition same_price (s s' : rstate) : Prop :=
  fixedPrice s' = fixedPrice s /\ billingUnit s' = billingUnit s.

#[local] Instance same_price_trans : Transitive same_price.
Proof. intros a b c [? ?] [? ?]. split; congruence. Qed.

Lemma same_price_depth d s : same_price s (set_depth d s).
Proof. done. Qed.

Lemma eval_same_price n s v s' : checked n -> ~ uses_function n Ffixed -> eval n s = Ok (v, s') ->
  same_price s s'.
Proof. intros Hn Hu He. by apply (ev_fixed _ _ _ (eval_evolves _ _ _ _ Hn He)). Qed.

Lemma marker_free n : checked n -> containsPricingMarker n = Ok false ->
  ~ uses_function n Ftier /\ ~ uses_function n Ffixed.
Proof.
  intros (_ & Hd & _). unfold containsPricingMarker.
  destruct (expressionDependencies_spec n Hd) as (d & -> & _ & Hf). simpl.
  intros [= Hb]. apply orb_false_iff in Hb as [H1 H2]. unfold has_function in *.
  apply bool_decide_eq_false in H1, H2. by rewrite <- !Hf.
Qed.

(** [x] is [base] times multipliers of request rules, where a rule that does
    not match multiplies by one. *)
Inductive scaled (rules : list RequestRule) (base : f64) : f64 -> Prop :=
| scaled_base : scaled rules base base
| scaled_right x m r : r ∈ rules -> m = rule_multiplier r \/ feqb m fone = true ->
    scaled rules base x -> scaled rules base (fmul x m)
| scaled_left x m r : r ∈ rules -> m = rule_multiplier r \/ feqb m fone = true ->
    scaled rules base x -> scaled rules base (fmul m x).

Section Tree.
Context (source : jstr).
Hypothesis Hok : compiled_ok source compiled.

Abbreviation rules := (c_rules compiled).

Lemma rule_in_tree r : r ∈ rules -> rule_node r ∈ postorder (c_ast compiled) /\
  rule_of source (rule_node r) = Some r.
Proof using Hok.
  rewrite (co_rules _ _ Hok). intros (n & Hn & Hr)%list_elem_of_omap.
  rewrite (rule_of_node _ _ _ Hr). done.
Qed.

Lemma literal_value_inv n x s v s' : number_literal n = Some x -> eval n s = Ok (v, s') ->
  rv_value v = JNum x /\ same_price s s'.
Proof using Type.
  clear Hok. intros Hl (s1 & Hn & ->)%evaluate_inv. destruct n as [sp l| | | | |]; try done.
  destruct l; simplify_eq/=. by injection Hn as <- <-.
Qed.

Lemma scaling_rule_inv f : f ∈ postorder (c_ast compiled) -> scaling_rule rules f = Ok true ->
  exists r, r ∈ rules /\ rule_node r = f /\ containsPricingMarker (rule_condition r) = Ok false.
Proof using Hok.
  intros Hf. unfold scaling_rule. destruct (List.find _ rules) as [r|] eqn:Hfind; [|done].
  apply List.find_some in Hfind as [Hr%list_elem_of_In Hs].
  destruct (fleb _ _); [|done]. intros (b & Hb & [= Hnb])%res_bind_Ok.
  exists r. split; [done|]. destruct (rule_in_tree r Hr) as [Hn _].
  split; [by apply (same_node_eq (c_ast compiled)); [apply Hok|..]|]. by destruct b.
Qed.

(** A request multiplier evaluates to its multiplier or to one and leaves
    the price alone. *)
Lemma scaling_eval f r s v s' : r ∈ rules -> rule_node r = f ->
  containsPricingMarker (rule_condition r) = Ok false -> eval f s = Ok (v, s') ->
  exists m, rv_value v = JNum m /\ (m = rule_multiplier r \/ feqb m fone = true) /\ same_price s s'.
Proof using Hok.
  intros Hr <- Hm He. destruct (rule_in_tree r Hr) as [Hn Hof].
  pose proof (checked_sub _ _ (compiled_checked _ _ Hok) Hn) as Hck.
  destruct (rule_node r) as [| | | | |sp c y no] eqn:Hrn; simpl in Hof; try done.
  destruct (number_literal y) as [my|] eqn:Hy; [|done].
  destruct (number_literal no) as [k|] eqn:Hno; [|done].
  destruct (expressionDependencies c) as [d|]; [|done].
  destruct (feqb k fone && _) eqn:Hk; [|done]. apply andb_true_iff in Hk as [Hk _].
  injection Hof as <-. simpl in Hm |- *.
  assert (Hc : checked c) by (eapply checked_child; [done|by left]).
  destruct (marker_free c Hc Hm) as [_ Hfree].
  apply evaluate_inv in He as (s1 & Hnode & ->). cbn [evaluateNode] in Hnode.
  apply st_bind_Ok in Hnode as (b & s2 & Hb & Hnode).
  apply st_bind_Ok in Hb as (vc & s3 & Hvc & Hb).
  pose proof (eval_same_price c _ _ _ Hc Hfree Hvc) as Hp. change (same_price s s3) in Hp.
  destruct (rv_value vc); try done. injection Hb as <- <-.
  apply st_bind_Ok in Hnode as (u & s4 & Hmark & Hbr).
  assert (same_price s s4) as Hp4.
  { destruct b0; [|by injection Hmark as <- <-]. unfold mark_rule in Hmark.
    destruct (list_find _ _) as [[i r']|]; injection Hmark as <- <-; [|done]. exact Hp. }
  destruct b0.
  - destruct (literal_value_inv y my _ _ _ Hy Hbr) as [Hv Hp1].
    exists my. split; [done|]. split; [by left|]. by etrans.
  - destruct (literal_value_inv no k _ _ _ Hno Hbr) as [Hv Hp1].
    exists k. split; [done|]. split; [by right|]. by etrans.
Qed.

Lemma validate_tier_inv n : validate_tier n = Ok tt ->
  exists sp label price, n = Call sp Ftier [label; price] /\
    containsPricingMarker label = Ok false /\
    (containsPricingMarker price = Ok false \/
     exists sp1 amount x, price = Call sp1 Ffixed [amount] /\ number_literal amount = Some x /\
       fleb fzero x = true /\ is_finite (fmul x million) = true).
Proof using Type.
  clear. intros Hv. unfold validate_tier in Hv. destruct n as [| |sp f args| | |]; try done.
  destruct f; try done. destruct args as [|label [|price [|? ?]]]; try done.
  apply res_bind_Ok in Hv as (m & Hm & Hv). destruct m; [done|].
  exists sp, label, price. split; [done|]. split; [done|].
  assert (forall m, containsPricingMarker price = Ok m -> (if m : bool then Err (fixed_tree_error
    (Call sp Ftier [label; price])) else Ok tt) = Ok tt -> containsPricingMarker price = Ok false)
    as Hinner by by intros [].
  destruct price as [| |sp1 f1 args1| | |];
    try (apply res_bind_Ok in Hv as (m & Hm' & Hv); left; by eapply Hinner).
  destruct (decide (f1 = Ffixed)) as [->|Hne].
  - right. destruct args1 as [|amount [|? ?]]; try done.
    destruct (number_literal amount) as [x|] eqn:Hx; [|done].
    destruct (_ && _) eqn:Hb; [|done]. apply andb_true_iff in Hb as [? ?].
    by exists sp1, amount, x.
  - destruct f1; try done; apply res_bind_Ok in Hv as (m & Hm' & Hv); left; by eapply Hinner.
Qed.

(** What evaluating a pricing tree does: a number, and the price fields
    either untouched or set from a literal of the tree. *)
Definition priced (n : ExpressionNode) (s : rstate) (v : RuntimeValue) (s' : rstate) : Prop :=
  exists x, rv_value v = JNum x /\
    (same_price s s' \/
     exists sp amount a, Call sp Ffixed [amount] ∈ postorder n /\ number_literal amount = Some a /\
       fleb fzero a = true /\ fixedPrice s' = Some a /\ billingUnit s' = Urequest /\
       scaled rules (fmul a million) x).

Lemma priced_sub n c s v s' : c ∈ postorder n -> priced c s v s' -> priced n s v s'.
Proof using Type.
  clear. intros Hc (x & Hv & Hp). exists x. split; [done|].
  destruct Hp as [Hp|(sp & am & a & Hin & Hp)]; [by left|]. right. exists sp, am, a.
  split; [by eapply postorder_trans|done].
Qed.

Lemma fixed_eval sp amount a s v s' : number_literal amount = Some a ->
  eval (Call sp Ffixed [amount]) s = Ok (v, s') ->
  rv_value v = JNum (fmul a million) /\ fixedPrice s' = Some a /\ billingUnit s' = Urequest.
Proof using Type.
  clear. intros Ha (s1 & Hn & ->)%evaluate_inv. cbn [evaluateNode call call1] in Hn.
  apply st_bind_Ok in Hn as (xi & s2 & Hx & Hn). apply st_bind_Ok in Hx as (va & s3 & Hva & Hx).
  destruct (literal_value_inv _ _ _ _ _ Ha Hva) as [Hv _]. rewrite Hv in Hx.
  injection Hx as <- <-. injection Hn as <- <-. done.
Qed.

Lemma tier_eval n s v s' : checked n -> validate_tier n = Ok tt -> eval n s = Ok (v, s') ->
  priced n s v s'.
Proof using Type.
  clear Hok. intros Hck (sp & label & price & -> & Hl & Hp)%validate_tier_inv
    (s1 & Hn & ->)%evaluate_inv. cbn [evaluateNode call call2] in Hn.
  assert (Hcl : checked label) by (apply (checked_child _ _ Hck); by left).
  assert (Hcp : checked price) by (apply (checked_child _ _ Hck); right; by left).
  apply st_bind_Ok in Hn as (name & s2 & Hname & Hn). apply st_bind_Ok in Hname as (vl & s3 & Hvl & Hname).
  destruct (marker_free _ Hcl Hl) as [_ Hfl].
  pose proof (eval_same_price label _ _ _ Hcl Hfl Hvl) as Hs3. change (same_price s s3) in Hs3.
  destruct (rv_value vl); try done. injection Hname as <- <-.
  apply st_bind_Ok in Hn as (xi & s4 & Hx & Hn). apply st_bind_Ok in Hx as (vp & s5 & Hvp & Hx).
  injection Hn as <- <-. destruct (rv_value vp) as [| | |x| | |] eqn:Hv; try done.
  injection Hx as <- <-. exists x. split; [done|].
  destruct Hp as [Hp|(sp1 & amount & a & -> & Ha & Hnn & _)].
  - left. destruct (marker_free _ Hcp Hp) as [_ Hfp].
    pose proof (eval_same_price price _ _ _ Hcp Hfp Hvp). by etrans.
  - right. destruct (fixed_eval _ _ _ _ _ _ Ha Hvp) as (Hx & Hf & Hu). simplify_eq.
    exists sp1, amount, a. split; [apply postorder_child; right; by left|].
    repeat split; try done. rewrite Hv in Hx. injection Hx as ->. constructor.
Qed.

Lemma mul_eval sp l r s v s' : eval (Binary sp Bmul l r) s = Ok (v, s') ->
  exists s0 s1 s2 vl vr x y, eval l s0 = Ok (vl, s1) /\ eval r s1 = Ok (vr, s2) /\
    same_price s s0 /\ same_price s2 s' /\
    rv_value vl = JNum x /\ rv_value vr = JNum y /\ rv_value v = JNum (fmul x y).
Proof using Type.
  clear. intros (s1 & Hn & ->)%evaluate_inv. cbn [evaluateNode binary] in Hn.
  apply st_bind_Ok in Hn as (vl & s2 & Hl & Hn). apply st_bind_Ok in Hn as (vr & s3 & Hr & Hn).
  unfold apply_binary in Hn.
  destruct (rv_value vl) eqn:Hvl, (rv_value vr) eqn:Hvr; simpl in Hn; try done.
  injection Hn as <- <-. eexists _, s2, s3, vl, vr, n, n0.
  split; [exact Hl|]. by repeat split.
Qed.

Lemma priced_frame n s s0 v s1 s' : same_price s s0 -> same_price s1 s' ->
  priced n s0 v s1 -> priced n s v s'.
Proof using Type.
  clear. intros H0 H1 (x & Hv & Hp). exists x. split; [done|].
  destruct Hp as [Hp|(sp & am & a & A1 & A2 & A3 & A4 & A5 & A6)].
  - left. by repeat (etrans; [done|]).
  - right. destruct H1. exists sp, am, a. repeat split; try done; congruence.
Qed.

Lemma priced_scale n s v s' w x m r : priced n s v s' -> rv_value v = JNum x ->
  r ∈ rules -> m = rule_multiplier r \/ feqb m fone = true ->
  rv_value w = JNum (fmul x m) \/ rv_value w = JNum (fmul m x) -> priced n s w s'.
Proof using Type.
  clear. intros (x' & Hv & Hp) Hx Hr Hm Hw. assert (x' = x) as -> by congruence.
  destruct Hp as [Hp|(sp & am & a & A1 & A2 & A3 & A4 & A5 & A6)].
  - destruct Hw; (eexists; split; [done|by left]).
  - destruct Hw; (eexists; split; [done|]; right; exists sp, am, a; repeat split; try done);
      [by eapply scaled_right|by eapply scaled_left].
Qed.

Lemma conditional_eval sp c y no s v s' : checked (Conditional sp c y no) ->
  containsPricingMarker c = Ok false -> eval (Conditional sp c y no) s = Ok (v, s') ->
  exists n s0 s1, (n = y \/ n = no) /\ same_price s s0 /\ eval n s0 = Ok (v, s1) /\ same_price s1 s'.
Proof using Type.
  clear Hok. intros Hck Hm (s1 & Hn & ->)%evaluate_inv. cbn [evaluateNode] in Hn.
  assert (Hc : checked c) by (apply (checked_child _ _ Hck); by left).
  destruct (marker_free c Hc Hm) as [_ Hfree].
  apply st_bind_Ok in Hn as (b & s2 & Hb & Hn). apply st_bind_Ok in Hb as (vc & s3 & Hvc & Hb).
  pose proof (eval_same_price c _ _ _ Hc Hfree Hvc) as Hp. change (same_price s s3) in Hp.
  destruct (rv_value vc); try done. injection Hb as -> <-.
  apply st_bind_Ok in Hn as (u & s4 & Hmark & Hbr).
  assert (same_price s s4) as Hp4.
  { destruct b; [|by injection Hmark as <- <-]. unfold mark_rule in Hmark.
    destruct (list_find _ _) as [[i r']|]; injection Hmark as <- <-; [|done]. exact Hp. }
  exists (if b then y else no), s4, s1.
  split; [by destruct b; auto|]. split; [done|]. split; [by destruct b|done].
Qed.

Lemma fixed_tree_eval n s v s' : n ∈ postorder (c_ast compiled) ->
  validateFixedPricingTree rules n = Ok tt -> eval n s = Ok (v, s') -> priced n s v s'.
Proof using Hok.
  revert s v s'. induction n as [sp l|sp x|sp f args _|sp o a _|sp o a b IHa IHb|sp c y no _ IHy IHn]
    using node_ind'; intros s v s' Hin Hv He;
    pose proof (checked_sub _ _ (compiled_checked _ _ Hok) Hin) as Hck;
    try (by apply tier_eval).
  all: assert (Hsub : forall c n, c ∈ node_children n -> n ∈ postorder (c_ast compiled) ->
         c ∈ postorder (c_ast compiled))
         by (intros; eapply postorder_trans; [done|by apply postorder_child]).
  - assert (Hia : a ∈ postorder (c_ast compiled)) by (refine (Hsub _ _ _ Hin); by left).
    assert (Hib : b ∈ postorder (c_ast compiled)) by (refine (Hsub _ _ _ Hin); right; by left).
    destruct (decide (o = Bmul)) as [->|Ho]; [|apply tier_eval; try done; by destruct o].
    cbn [validateFixedPricingTree] in Hv. apply res_bind_Ok in Hv as (br & Hbr & Hv).
    destruct (mul_eval _ _ _ _ _ _ He)
      as (s0 & s1 & s2 & vl & vr & x & y & Hl & Hr & P0 & P2 & Hx & Hy & Hz).
    destruct br; [|apply res_bind_Ok in Hv as (bl & Hbl & Hv); destruct bl; [|by apply tier_eval]].
    + destruct (scaling_rule_inv b Hib Hbr) as (r & Hrin & Hrn & Hrm).
      destruct (scaling_eval b r _ _ _ Hrin Hrn Hrm Hr) as (m & Hm & Hmm & Hsp).
      assert (y = m) as -> by congruence.
      eapply priced_sub; [apply postorder_child; by left|].
      eapply priced_frame; [exact P0|by etrans|]. eapply priced_scale; eauto.
    + destruct (scaling_rule_inv a Hia Hbl) as (r & Hrin & Hrn & Hrm).
      destruct (scaling_eval a r _ _ _ Hrin Hrn Hrm Hl) as (m & Hm & Hmm & Hsp).
      assert (x = m) as -> by congruence.
      eapply priced_sub; [apply postorder_child; right; by left|].
      eapply priced_frame; [by etrans|exact P2|]. eapply priced_scale; eauto.
  - cbn [validateFixedPricingTree] in Hv. apply res_bind_Ok in Hv as (mk & Hmk & Hv).
    destruct mk; [by apply tier_eval|]. apply res_bind_Ok in Hv as ([] & Hvy & Hvn).
    destruct (conditional_eval _ _ _ _ _ _ _ Hck Hmk He) as (n & s0 & s1 & Hn & P0 & Hbr & P1).
    assert (n ∈ node_children (Conditional sp c y no)) as Hch
      by (destruct Hn as [-> | ->]; simpl; set_solver).
    eapply priced_sub; [by apply postorder_child|]. eapply priced_frame; [done|done|].
    destruct Hn as [-> | ->]; eauto.
Qed.
End Tree.
End Prices.

(** ** Whole evaluations *)

Section Results.
Context `{Host} (source : jstr) (c : CompiledBillingExpression)
  (ctx : BillingSimulationContext).
Hypothesis Hc : compile source = Ready c.

Lemma run_node_inv n v s : run_node c ctx n = Ok (v, s) ->
  exists hm, evaluate c ctx hm n (initial_state c) = Ok (v, s).
Proof using Type. clear. intros (hm & _ & He)%res_bind_Ok. eauto. Qed.

Lemma success_inv cost u price tier rules :
  evaluateBillingExpression (Ready c) ctx = Success cost u price tier rules ->
  exists v s, run_node c ctx (c_ast c) = Ok (v, s) /\ billable (rv_value v) = Some cost /\
    u = billingUnit s /\ price = fixedPrice s /\ tier = matchedTier s /\ rules = requestRules s.
Proof using Type.
  clear. unfold evaluateBillingExpression, evaluate_compiled.
  destruct (check_tokens _); [|done]. simpl.
  destruct (run_node c ctx (c_ast c)) as [[v s]|e]; [|done]. simpl.
  destruct (billable (rv_value v)) eqn:Hb; [|done]. intros [= <- <- <- <- <-]. eauto 10.
Qed.

Lemma run_root v s : run_node c ctx (c_ast c) = Ok (v, s) ->
  evolves (uses_function (c_ast c)) (initial_state c) s.
Proof using Hc.
  intros (hm & He)%run_node_inv. apply (eval_evolves c ctx hm _ _ v); [|done].
  by eapply compiled_checked, compile_ready_ok.
Qed.
End Results.

Lemma billable_spec v x : billable v = Some x ->
  v = JNum x /\ is_finite x = true /\ fltb x fzero = false.
Proof.
  unfold billable. destruct v; try done. destruct (is_finite n && _) eqn:Hb; [|done].
  intros [= <-]. apply andb_true_iff in Hb as [? ?%negb_true_iff]. done.
Qed.

Lemma load_headers_err `{Host} hs m e : load_headers hs m = Err e ->
  e = BillingExpressionError {| code := Dtype; detail := js "request header"; position := None |}.
Proof.
  revert m. induction hs as [|[name raw] hs IH]; intros m; simpl; [done|].
  destruct raw; try (by intros [= <-]). apply IH.
Qed.

(** ** Properties *)

(** A host whose time zone database knows UTC only. *)
Definition utc_host : Host :=
  {| resolved_zone := fun z => if jeqb z (js "UTC") then Some z else None;
     format_parts := fun _ _ => {| part_hour := js "12"; part_minute := js "30";
                                   part_weekday := js "Mon"; part_month := js "1";
                                   part_day := js "5" |};
     lower_unicode := id;
     clock := 0%Z |}.

Definition sample_context : BillingSimulationContext :=
  {| tokens := Some [(js "p", JNum (f64_of_Z 1000))];
     request := Some {| body := JObj [(js "size", JStr (js "4k"))]; headers := None |};
     usage := Some [(js "a", JStr (js "x")); (js "b", JStr (js "y"))];
     ctx_now := Some (Some 0%Z) |}.

Definition sample_fixed : jstr := js "tier('img', fixed(0.5)) * (param('size') == '4k' ? 3 : 1)".

(** The compiled form of a source that compiles. *)
Definition compiled_or (source : jstr) : CompiledBillingExpression :=
  match compile source with
  | Ready c => c
  | NotReady _ => {| c_source := []; c_ast := Var (mkspan 0 1) Vp; c_variables := [];
                     c_functions := []; c_rules := [] |}
  end.

(** C1: a successful evaluation of a compiled expression returns a finite cost
    that is not negative, a fixed price exactly when the billing unit is the
    request, and the request rules of the expression in order with their
    multipliers; without a call of [fixed] the unit is the token, and without a
    call of [tier] no tier is matched. *)
Theorem evaluation_result `{Host} (source : jstr) (c : CompiledBillingExpression)
    (ctx : BillingSimulationContext) cost u price tier rules :
  compile source = Ready c ->
  evaluateBillingExpression (Ready c) ctx = Success cost u price tier rules ->
  is_finite cost = true /\ fltb cost fzero = false /\
  (u = Urequest <-> is_Some price) /\
  Forall2 (fun r r' => cond r' = rule_cond r /\ multiplier r' = rule_multiplier r) (c_rules c) rules /\
  (Ffixed ∉ c_functions c -> u = Utoken) /\ (Ftier ∉ c_functions c -> tier = []).
Proof.
  intros Hc (v & s & Hr & Hb & -> & -> & -> & ->)%success_inv.
  pose proof (run_root source c ctx Hc v s Hr) as [_ E2 E3 E4 E5].
  apply compile_ready_ok in Hc. apply billable_spec in Hb as (_ & Hf & Hn).
  split; [done|]. split; [done|]. split; [apply E5; simpl; split; [done|by intros [? ?]]|]. split.
  - simpl in E2. rewrite Forall2_fmap_l in E2. eapply Forall2_impl; [exact E2|].
    intros r r' (? & ? & _). done.
  - rewrite !(co_functions _ _ Hc). split; intros Hu; [by destruct (E3 Hu)|by apply E4].
Qed.

Lemma evaluation_result_witness :
  Utoken = Urequest <-> is_Some (@None f64).
Proof.
  apply (@evaluation_result utc_host (js "p * 2") (compiled_or (js "p * 2")) sample_context
           (f64_of_Z 2000) Utoken None [] []); vm_compute; reflexivity.
Defined.

(** C30: a fixed price is never computed: when a compiled expression charges per
    request, the fixed price is a non-negative number literal written in a
    [fixed] call of the expression, and the cost is a million times that literal
    multiplied only by the multipliers of request rules (or by one where a rule
    did not match). *)
Theorem fixed_price_scaled `{Host} (source : jstr) (c : CompiledBillingExpression)
    (ctx : BillingSimulationContext) cost u a tier rules :
  compile source = Ready c ->
  evaluateBillingExpression (Ready c) ctx = Success cost u (Some a) tier rules ->
  u = Urequest /\ fleb fzero a = true /\
  (exists sp amount, Call sp Ffixed [amount] ∈ postorder (c_ast c) /\ number_literal amount = Some a) /\
  scaled (c_rules c) (fmul a million) cost.
Proof.
  intros Hc (v & s & Hr & Hb & -> & Hp & -> & ->)%success_inv.
  pose proof (run_root source c ctx Hc v s Hr) as [_ _ E3 _ _].
  pose proof (compile_ready_ok _ _ Hc) as Hok. apply billable_spec in Hb as (Hv & _ & _).
  assert (Hf : Ffixed ∈ c_functions c).
  { destruct (decide (Ffixed ∈ c_functions c)) as [|Hno]; [done|].
    rewrite (co_functions _ _ Hok) in Hno. destruct (E3 Hno) as [Hfp _]. simpl in Hfp. congruence. }
  apply run_node_inv in Hr as (hm & He).
  pose proof (fixed_tree_eval c ctx hm source Hok _ _ _ _ (postorder_self _) (co_fixed _ _ Hok Hf) He)
    as (x & Hx & [[Hs _]|(sp & am & q & Hin & Hlit & Hnn & Hpr & Hu & Hsc)]).
  - simpl in Hs. congruence.
  - assert (q = a) as -> by congruence. assert (x = cost) as -> by congruence. eauto 10.
Qed.

Lemma fixed_price_scaled_witness :
  fleb fzero (f64_of_Z 1) = true.
Proof.
  apply (@fixed_price_scaled utc_host (js "tier('img', fixed(1))")
           (compiled_or (js "tier('img', fixed(1))")) sample_context
           (f64_of_Z 1000000) Urequest (f64_of_Z 1) (js "img") []); vm_compute; reflexivity.
Defined.

(** C29: evaluating a compiled expression returns a value of the type the
    compiler inferred: booleans, strings and nil exactly; where the compiler
    says number, a number, unless a [+] of the expression has two operands of
    dynamic type.  Every number is finite and every number flagged as an integer
    is a safe integer. *)
Theorem evaluation_typed `{Host} (source : jstr) (c : CompiledBillingExpression)
    (ctx : BillingSimulationContext) t v s :
  compile source = Ready c -> infer (c_ast c) = Ok t -> run_node c ctx (c_ast c) = Ok (v, s) ->
  has_type false t (rv_value v) /\ (plus_static (c_ast c) -> has_type true t (rv_value v)) /\
  number_ok v.
Proof.
  intros Hc Ht (hm & He)%run_node_inv. apply compile_ready_ok in Hc.
  assert (forall strict, (strict = true -> plus_static (c_ast c)) ->
    has_type strict t (rv_value v) /\ number_ok v) as Hr.
  { intros strict Hs. pose proof (evaluate_runs c ctx hm strict _ t 0 (co_wf _ _ Hc) Ht Hs
      (initial_state c) eq_refl) as Hw. unfold wp in Hw. rewrite He in Hw. tauto. }
  destruct (Hr false ltac:(done)). split; [done|]. split; [|done]. intros Hp. by apply Hr.
Qed.

Lemma evaluation_typed_witness :
  has_type true Tboolean (JBool true).
Proof.
  apply (@evaluation_typed utc_host (js "p > 2") (compiled_or (js "p > 2")) sample_context
           Tboolean (plain (JBool true)) (initial_state (compiled_or (js "p > 2"))));
    [vm_compute; reflexivity..|].
  intros sp a b Hin [_ Hb]. vm_compute in Hin. repeat (apply elem_of_cons in Hin as [Hin|Hin]; [done|]).
  by apply elem_of_nil in Hin.
Defined.

(** The type the compiler infers for [+] is not the type of its value when
    both operands are dynamic: the expression is checked as a number and
    evaluates to a concatenation of strings. *)
Theorem dynamic_plus_is_string :
  infer (c_ast (compiled_or (js "u('a') + u('b')"))) = Ok Tnumber /\
  rv_value <$> (match run_node (H := utc_host) (compiled_or (js "u('a') + u('b')")) sample_context
                        (c_ast (compiled_or (js "u('a') + u('b')"))) with
                | Ok (v, _) => Some v
                | Err _ => None
                end) = Some (JStr (js "xy")).
Proof. split; vm_compute; reflexivity. Qed.

(** Evaluating a compiled expression fails only with the project's own
    errors, never with a native error such as reading a missing argument, and
    never with the evaluation-depth error when the tree is less than 256 levels
    deep. *)
Theorem evaluation_errors `{Host} (source : jstr) (c : CompiledBillingExpression)
    (ctx : BillingSimulationContext) e :
  compile source = Ready c -> run_node c ctx (c_ast c) = Err e ->
  (exists d, e = BillingExpressionError d) /\ (node_depth (c_ast c) < 256 -> e <> depth_error).
Proof.
  intros Hc [He|(hm & _ & He)]%res_bind_Err.
  { apply load_headers_err in He as ->. split; [eauto|]. intros _. unfold depth_error. congruence. }
  apply compile_ready_ok in Hc. destruct (co_type _ _ Hc) as [t Ht].
  pose proof (evaluate_runs c ctx hm false _ t 0 (co_wf _ _ Hc) Ht ltac:(done)
    (initial_state c) eq_refl) as Hw. unfold wp in Hw. rewrite He in Hw. exact Hw.
Qed.

Lemma evaluation_errors_witness :
  exists d, BillingExpressionError {| code := Dmissing_context; detail := js "c"; position := Some 0 |}
            = BillingExpressionError d.
Proof.
  apply (@evaluation_errors utc_host (js "c") (compiled_or (js "c")) sample_context);
    vm_compute; reflexivity.
Defined.

(** A sum of [n + 1] ones. *)
Fixpoint ones (n : nat) : jstr :=
  match n with
  | O => js "1"
  | S n' => js "1+" ++ ones n'
  end.

(** The depth limits of compilation and evaluation differ by one: a sum of
    257 ones is 256 levels deep, compiles, and cannot be evaluated in any
    context, while a sum of 256 ones evaluates. *)
Theorem depth_limits_disagree :
  (exists c, compile (ones 256) = Ready c /\ node_depth (c_ast c) = 256 /\
     run_node (H := utc_host) c sample_context (c_ast c) = Err depth_error) /\
  (exists c, compile (ones 255) = Ready c /\ node_depth (c_ast c) = 255 /\
     evaluateBillingExpression (H := utc_host) (Ready c) sample_context
     = Success (f64_of_Z 256) Utoken None [] []).
Proof.
  split; [exists (compiled_or (ones 256))|exists (compiled_or (ones 255))]; vm_compute; auto.
Qed.

(** C34: an evaluation reads only the inputs the compiled expression lists: two
    contexts whose token counts and headers are acceptable, and which agree on
    the listed variables and on what the listed functions read, give the same
    result. *)
Theorem evaluation_reads_dependencies `{Host} (source : jstr) (c : CompiledBillingExpression)
    (ctx1 ctx2 : BillingSimulationContext) hm1 hm2 :
  compile source = Ready c ->
  check_tokens (default [] (tokens ctx1)) = Ok tt -> check_tokens (default [] (tokens ctx2)) = Ok tt ->
  load_headers (default [] (r ← request ctx1; headers r)) [] = Ok hm1 ->
  load_headers (default [] (r ← request ctx2; headers r)) [] = Ok hm2 ->
  agree ctx1 ctx2 hm1 hm2 (.∈ c_variables c) (.∈ c_functions c) ->
  evaluateBillingExpression (Ready c) ctx1 = evaluateBillingExpression (Ready c) ctx2.
Proof.
  intros Hc Ht1 Ht2 Hh1 Hh2 Hag. apply compile_ready_ok in Hc.
  unfold evaluateBillingExpression, evaluate_compiled, run_node. rewrite Ht1, Ht2, Hh1, Hh2. simpl.
  rewrite (evaluate_agree c ctx1 ctx2 hm1 hm2 (c_ast c)); [done|].
  eapply agree_weaken; [| |exact Hag]; intros x Hx; by apply Hc.
Qed.

Definition other_context : BillingSimulationContext :=
  {| tokens := Some [(js "p", JNum (f64_of_Z 1000)); (js "cr", JNum (f64_of_Z 7))];
     request := None; usage := None; ctx_now := None |}.

Lemma evaluation_reads_dependencies_witness :
  evaluateBillingExpression (H := utc_host) (Ready (compiled_or (js "p * 2"))) sample_context
  = evaluateBillingExpression (H := utc_host) (Ready (compiled_or (js "p * 2"))) other_context.
Proof.
  apply (@evaluation_reads_dependencies utc_host (js "p * 2") _ sample_context other_context [] []);
    [vm_compute; reflexivity..|].
  constructor.
  - intros v Hv. vm_compute in Hv. apply list_elem_of_singleton in Hv as ->. vm_compute. reflexivity.
  - intros Hf. vm_compute in Hf. by apply elem_of_nil in Hf.
  - intros Hf. vm_compute in Hf. by apply elem_of_nil in Hf.
  - intros Hf. vm_compute in Hf. by apply elem_of_nil in Hf.
  - intros t Hf. vm_compute in Hf. by apply elem_of_nil in Hf.
Defined.

(** A condition that [evaluateBillingCondition] decides from the clock alone
    has that value in every simulation at that time: whatever tokens, request
    and usage the context holds, evaluating the condition returns the same
    boolean. *)
Theorem condition_sound `{Host} (c : CompiledBillingExpression) (n : ExpressionNode)
    (ctx : BillingSimulationContext) hm b :
  load_headers (default [] (r ← request ctx; headers r)) [] = Ok hm ->
  evaluateBillingCondition c n (now ctx) = Some b ->
  exists v s, run_node c ctx n = Ok (v, s) /\ rv_value v = JBool b.
Proof.
  intros Hh. unfold evaluateBillingCondition, run_node. rewrite Hh. simpl.
  fold (clock_context (now ctx)).
  destruct (evaluate c (clock_context (now ctx)) [] n (initial_state c)) as [[v s]|e] eqn:He; [|done].
  intros Hb. apply (evaluate_clock c ctx hm) in He. exists v, s. split; [done|].
  destruct (rv_value v); congruence.
Qed.

Lemma condition_sound_witness :
  exists v s, run_node (H := utc_host) (compiled_or (js "hour('UTC') < 13")) sample_context
      (c_ast (compiled_or (js "hour('UTC') < 13"))) = Ok (v, s) /\ rv_value v = JBool true.
Proof. apply (@condition_sound utc_host) with (hm := []); vm_compute; reflexivity. Defined.

(** The range of a calendar field. *)
Definition in_range (f : TimeFunction) (k : Z) : Prop :=
  match f with
  | Fhour => 0 <= k <= 23
  | Fminute => 0 <= k <= 59
  | Fweekday => 0 <= k <= 6
  | Fmonth => 1 <= k <= 12
  | Fday => 1 <= k <= 31
  end%Z.

Lemma civil_ranges t : (1 <= getUTCMonth t + 1 <= 12 /\ 1 <= getUTCDate t <= 31)%Z.
Proof.
  unfold getUTCMonth, getUTCDate, civil, civil_of_day, of_march.
  set (z := (t / ms_per_day + epoch_shift)%Z).
  pose proof (doy_range _ (day_of_era_range z)) as Hd.
  assert (0 <= march_month (day_of_year (day_of_era z)) <= 11)%Z as Hm
    by (unfold march_month; Z.div_mod_to_equations; lia).
  cbn [fst snd]. split.
  - destruct (Z.ltb_spec (march_month (day_of_year (day_of_era z))) 10); lia.
  - unfold march_month. Z.div_mod_to_equations; lia.
Qed.

(** In a zone the host does not know, the time functions read UTC: every
    field is an integer of its range, the date is the Gregorian date (day 0 is
    1 January 1970 and a day later is the next date of the calendar, leap years
    included), and the weekday advances with the day. *)
Theorem unknown_zone_is_utc `{Host} (t : Z) (zone : jstr) :
  billing_zone zone <> js "Local" -> zone_formatter (billing_zone zone) = None ->
  timeInBillingZone (Some t) zone = Ok (utc_values t) /\
  (forall f, exists k, utc_values t f = f64_of_Z k /\ in_range f k) /\
  civil 0 = (1970, 1, 1)%Z /\ civil (t + ms_per_day) = next_date (civil t) /\
  getUTCDay (t + ms_per_day) = ((getUTCDay t + 1) mod 7)%Z.
Proof.
  intros Hl Hf. unfold timeInBillingZone. rewrite Hf. apply jeqb_neq in Hl as ->.
  split; [done|]. split.
  - pose proof (civil_ranges t). intros f. destruct f; (eexists; split; [done|]); simpl; try tauto;
      unfold getUTCHours, getUTCMinutes, getUTCDay; Z.div_mod_to_equations; lia.
  - split; [done|]. assert ((t + ms_per_day) / ms_per_day = t / ms_per_day + 1)%Z as Hd
      by (unfold ms_per_day; Z.div_mod_to_equations; lia).
    unfold civil, getUTCDay. rewrite Hd. split.
    + rewrite <- civil_of_day_succ. f_equal. lia.
    + rewrite Z.add_mod_idemp_l by done. f_equal. lia.
Qed.

Lemma unknown_zone_is_utc_witness :
  timeInBillingZone (H := utc_host) (Some 1700000000000%Z) (js "Mars/Base")
  = Ok (utc_values 1700000000000).
Proof.
  apply (@unknown_zone_is_utc utc_host); [vm_compute; congruence|vm_compute; reflexivity].
Defined.
