(* ===== verification/BillingStructure.v ===== *)
(** * Billing expressions: structural helpers on source text

    Model of [billing-expression/structure.ts].  Both helpers scan the text with
    an index, skipping string literals and counting brackets; the model scans
    the list of code units. *)

From stdpp Require Import base list numbers strings.
From Stdlib Require Import ZArith Lia.
From S2P Require Import Prelude.
From S2P Require Import JsString.
From S2P Require Import JsNumberFacts.

(** [quote] of the scanning loops: the code unit that closes the literal. *)
Abbreviation quote_state := (option N).

Definition is_quote (c : N) : bool := (c =? 34)%N || (c =? 39)%N.
Definition is_open (c : N) : bool := (c =? 40)%N || (c =? 91)%N || (c =? 123)%N.
Definition is_close (c : N) : bool := (c =? 41)%N || (c =? 93)%N || (c =? 125)%N.

(** ** splitExpressionAtTopLevel *)

(** The loop: [rest] is the source from [i] on, [current] the text from [start]
    to [i], [skip] the number of positions the loop still passes over without
    looking ([i++] after a backslash, [i += operator.length - 1] after an
    operator; those of an operator belong to no part).  [None] when a [?] at
    depth 0 makes the function return early. *)
Fixpoint split_loop (operator rest current : jstr) (parts : list jstr) (depth : Z)
    (quote : quote_state) (skip : nat) (keep : bool) : option (list jstr) :=
  match rest with
  | [] => Some (parts ++ [trim current])
  | char :: rest' =>
      match skip with
      | S skip' =>
          split_loop operator rest' (if keep then current ++ [char] else current) parts depth quote
            skip' keep
      | O =>
          match quote with
          | Some q =>
              if (char =? 92)%N then split_loop operator rest' (current ++ [char]) parts depth quote 1 true
              else if (char =? q)%N then
                split_loop operator rest' (current ++ [char]) parts depth None 0 true
              else split_loop operator rest' (current ++ [char]) parts depth quote 0 true
          | None =>
              if is_quote char then
                split_loop operator rest' (current ++ [char]) parts depth (Some char) 0 true
              else
                let depth' := (if is_open char then depth + 1
                               else if is_close char then depth - 1 else depth)%Z in
                if negb (depth' =? 0)%Z then
                  split_loop operator rest' (current ++ [char]) parts depth' None 0 true
                else if (char =? 63)%N then None
                else if starts_with operator rest then
                  split_loop operator rest' [] (parts ++ [trim current]) depth' None
                    (Nat.pred (length operator)) false
                else split_loop operator rest' (current ++ [char]) parts depth' None 0 true
          end
      end
  end.

(** [parts.filter(Boolean)] *)
Definition non_empty (s : jstr) : bool := match s with [] => false | _ => true end.

Definition splitExpressionAtTopLevel (source operator : jstr) : list jstr :=
  match split_loop operator source [] [] 0 None 0 true with
  | Some parts => List.filter non_empty parts
  | None => [trim source]
  end.

(** ** unwrapExpressionParens *)

(** The inner loop: the text after the first position at which the depth is 0
    again, if there is one; [skip] as above. *)
Fixpoint matching_paren (rest : jstr) (depth : Z) (quote : quote_state) (skip : bool) : option jstr :=
  match rest with
  | [] => None
  | char :: rest' =>
      if skip then matching_paren rest' depth quote false
      else
        match quote with
        | Some q =>
            if (char =? 92)%N then matching_paren rest' depth quote true
            else if (char =? q)%N then matching_paren rest' depth None false
            else matching_paren rest' depth quote false
        | None =>
            if is_quote char then matching_paren rest' depth (Some char) false
            else
              let depth' := (if (char =? 40)%N then depth + 1
                             else if (char =? 41)%N then depth - 1 else depth)%Z in
              if (depth' =? 0)%Z then Some rest'
              else matching_paren rest' depth' None false
        end
  end.

Definition starts_paren (s : jstr) : bool := match s with c :: _ => (c =? 40)%N | [] => false end.
Definition ends_paren (s : jstr) : bool :=
  match last s with Some c => (c =? 41)%N | None => false end.

(** The condition of the [while] loop with the [break]: [closesAtEnd]. *)
Definition wrapped (s : jstr) : bool :=
  starts_paren s && ends_paren s
  && match matching_paren s 0 None false with Some [] => true | _ => false end.

(** [expression.slice(1, -1)] *)
Definition inside (s : jstr) : jstr := slice s 1 (length s - 1).

Fixpoint unwrap_loop (fuel : nat) (expression : jstr) : jstr :=
  match fuel with
  | O => expression
  | S f => if wrapped expression then unwrap_loop f (trim (inside expression)) else expression
  end.

(** Every round removes two characters, so the length of the source is enough. *)
Definition unwrapExpressionParens (source : jstr) : jstr :=
  unwrap_loop (length source) (trim source).

(** ** Trimming *)

Definition spaces (l : jstr) : Prop := Forall (fun c => is_space c = true) l.

Lemma drop_spaces_app l : exists a, spaces a /\ l = a ++ drop_spaces l.
Proof.
  unfold drop_spaces. destruct (span_while is_space l) as [a b] eqn:H. exists a.
  split; [by eapply span_while_forall|by apply span_while_app in H].
Qed.

Lemma trim_app l : exists a b, spaces a /\ spaces b /\ l = a ++ trim l ++ b.
Proof.
  unfold trim. destruct (drop_spaces_app l) as (a & Ha & H1).
  destruct (drop_spaces_app (rev (drop_spaces l))) as (b & Hb & H2).
  exists a, (rev b). split; [done|]. split; [by apply Forall_rev|].
  rewrite H1 at 1. f_equal. rewrite <- (rev_involutive (drop_spaces l)) at 1. rewrite H2 at 1.
  by rewrite rev_app_distr.
Qed.

Lemma drop_spaces_head l : match drop_spaces l with c :: _ => is_space c = false | [] => True end.
Proof.
  unfold drop_spaces. destruct (span_while is_space l) as [a b] eqn:H. by eapply span_while_stop.
Qed.

Lemma drop_spaces_idem l : drop_spaces (drop_spaces l) = drop_spaces l.
Proof. apply drop_spaces_id, drop_spaces_head. Qed.

(** The first and the last character of a trimmed text are not spaces. *)
Lemma trim_head l : match trim l with c :: _ => is_space c = false | [] => True end.
Proof.
  unfold trim. pose proof (drop_spaces_head l) as Hh.
  destruct (drop_spaces_app (rev (drop_spaces l))) as (b & Hb & H2).
  destruct (rev (drop_spaces (rev (drop_spaces l)))) as [|c r] eqn:Hr; [done|].
  assert (drop_spaces l = (c :: r) ++ rev b) as Hd.
  { rewrite <- (rev_involutive (drop_spaces l)), H2 at 1. by rewrite rev_app_distr, Hr. }
  rewrite Hd in Hh. exact Hh.
Qed.

Lemma trim_idem l : trim (trim l) = trim l.
Proof.
  unfold trim at 1. rewrite (drop_spaces_id (trim l)) by apply trim_head.
  unfold trim. by rewrite rev_involutive, drop_spaces_idem.
Qed.

Lemma spaces_app_inv a c b : spaces (a ++ c :: b) -> is_space c = true.
Proof. intros H. apply Forall_app in H as [_ H]. by inversion H. Qed.

(** A text with a character that is not a space is not empty when trimmed. *)
Lemma trim_non_empty l c : c ∈ l -> is_space c = false -> non_empty (trim l) = true.
Proof.
  intros Hc Hs. destruct (trim_app l) as (a & b & Ha & Hb & Hl).
  destruct (trim l) as [|d t] eqn:Ht; [|done].
  rewrite Hl in Hc. apply elem_of_app in Hc as [Hc|Hc]; simpl in Hc.
  - unfold spaces in Ha. rewrite Forall_forall in Ha. rewrite Ha in Hs; done.
  - unfold spaces in Hb. rewrite Forall_forall in Hb. rewrite Hb in Hs; done.
Qed.

(** ** Splitting loses nothing *)

Lemma join_cons sep p ps : ps <> [] -> join sep (p :: ps) = p ++ sep ++ join sep ps.
Proof. by destruct ps. Qed.

Lemma split_loop_spec operator rest current parts depth quote skip keep out :
  operator <> [] -> (keep = false -> current = []) ->
  split_loop operator rest current parts depth quote skip keep = Some out ->
  exists ps, ps <> [] /\ out = parts ++ (trim <$> ps) /\
    current ++ (if keep then rest else drop skip rest) = join operator ps.
Proof.
  intros Hop. revert current parts depth quote skip keep.
  induction rest as [|char rest IH]; intros current parts depth quote skip keep Hk.
  { simpl. intros [= <-]. exists [current]. split; [done|]. split; [done|].
    by destruct keep; rewrite ?drop_nil, app_nil_r. }
  assert (Hnext : forall d q k, (exists out', split_loop operator rest (current ++ [char]) parts d q k true
      = Some out' /\ out' = out) -> (keep = true \/ skip = 0%nat) ->
    exists ps, ps <> [] /\ out = parts ++ (trim <$> ps) /\
      current ++ (if keep then char :: rest else drop skip (char :: rest)) = join operator ps).
  { intros d q k (out' & Hs & ->) Hkeep. apply IH in Hs as (ps & Hps & Ho & Hj); [|done].
    exists ps. split; [done|]. split; [done|]. rewrite <- Hj, <- app_assoc.
    destruct Hkeep as [-> | ->]; [done|]. by destruct keep. }
  cbn [split_loop]. destruct skip as [|skip].
  2: { destruct keep.
       - intros Hs. eapply Hnext; eauto.
       - intros Hs. apply IH in Hs as (ps & Hps & Ho & Hj); [|done]. by exists ps. }
  destruct quote as [q|].
  { destruct (char =? 92)%N; [|destruct (char =? q)%N]; intros Hs; eapply Hnext; eauto. }
  destruct (is_quote char); [intros Hs; eapply Hnext; eauto|]. cbv zeta.
  destruct (negb _); [intros Hs; eapply Hnext; eauto|].
  destruct (char =? 63)%N; [done|].
  destruct (starts_with operator (char :: rest)) eqn:Hsw; [|intros Hs; eapply Hnext; eauto].
  intros Hs. apply IH in Hs as (ps & Hps & Ho & Hj); [|done].
  apply starts_with_app in Hsw as [r Hr]. destruct operator as [|o op]; [done|].
  injection Hr as -> Hr. subst rest. simpl in Hj. rewrite drop_app_length in Hj.
  exists (current :: ps). split; [done|]. split; [by rewrite Ho, <- app_assoc|].
  rewrite join_cons, <- Hj by done. by destruct keep.
Qed.

Lemma split_loop_question operator rest current parts depth quote skip keep :
  split_loop operator rest current parts depth quote skip keep = None -> 63%N ∈ rest.
Proof.
  revert current parts depth quote skip keep. induction rest as [|char rest IH]; [done|].
  intros current parts depth quote skip keep. cbn [split_loop]. cbv zeta.
  destruct skip; [|intros ?%IH; by right]. destruct quote.
  - destruct (char =? 92)%N; [|destruct (char =? _)%N]; intros ?%IH; by right.
  - destruct (is_quote char); [intros ?%IH; by right|].
    destruct (negb _); [intros ?%IH; by right|].
    destruct (char =? 63)%N eqn:Hc; [apply N.eqb_eq in Hc as ->; left|].
    destruct (starts_with _ _); intros ?%IH; by right.
Qed.

(** ** Unwrapping *)

(** [post] closes the parentheses that [pre] opens; both hold nothing else but
    spaces. *)
Inductive wrapping : jstr -> jstr -> Prop :=
| wrapping_nil : wrapping [] []
| wrapping_paren pre post : wrapping pre post -> wrapping ([40%N] ++ pre) (post ++ [41%N])
| wrapping_spaces a pre post b : spaces a -> spaces b -> wrapping pre post ->
    wrapping (a ++ pre) (post ++ b).

Lemma wrapped_inside s : wrapped s = true -> s = [40%N] ++ inside s ++ [41%N] /\ (2 <= length s)%nat.
Proof.
  unfold wrapped, starts_paren, ends_paren, inside. intros Hw.
  apply andb_true_iff in Hw as [Hw _]. apply andb_true_iff in Hw as [H1 H2].
  destruct s as [|c s]; [done|]. apply N.eqb_eq in H1 as ->.
  destruct (last (40%N :: s)) as [d|] eqn:Hl; [|done]. apply N.eqb_eq in H2 as ->.
  apply last_Some in Hl as [l Hl]. destruct l as [|e l]; [done|]. injection Hl as <- ->.
  rewrite length_cons, length_app. cbn [length]. split; [|lia].
  unfold slice. change (drop 1 (40%N :: l ++ [41%N])) with (l ++ [41%N]).
  replace (S (length l + 1) - 1 - 1)%nat with (length l) by lia.
  by rewrite take_app_length.
Qed.

Lemma trim_length l : (length (trim l) <= length l)%nat.
Proof.
  destruct (trim_app l) as (a & b & _ & _ & Hl). rewrite Hl at 2. rewrite !length_app. lia.
Qed.

Lemma unwrap_loop_spec fuel s : (length s <= fuel)%nat -> trim s = s ->
  wrapped (unwrap_loop fuel s) = false /\ trim (unwrap_loop fuel s) = unwrap_loop fuel s /\
  exists pre post, wrapping pre post /\ s = pre ++ unwrap_loop fuel s ++ post.
Proof.
  revert s. induction fuel as [|fuel IH]; intros s Hlen Ht; simpl.
  { destruct s; [|simpl in Hlen; lia]. split; [done|]. split; [done|].
    exists [], []. split; [constructor|done]. }
  destruct (wrapped s) eqn:Hw.
  2: { split; [done|]. split; [done|]. exists [], []. split; [constructor|].
       by rewrite app_nil_r. }
  apply wrapped_inside in Hw as [Hs Hl2].
  destruct (IH (trim (inside s))) as (H1 & H2 & pre & post & Hwr & Heq).
  { pose proof (trim_length (inside s)). rewrite Hs, !length_app in Hlen. simpl in Hlen. lia. }
  { apply trim_idem. }
  split; [done|]. split; [done|]. destruct (trim_app (inside s)) as (a & b & Ha & Hb & Hi).
  exists ([40%N] ++ a ++ pre), ((post ++ b) ++ [41%N]). split.
  - by apply wrapping_paren, wrapping_spaces.
  - rewrite Hs at 1. rewrite Hi, Heq at 1. by rewrite <- !app_assoc.
Qed.

(** ** Properties *)

(** Splitting at an operator loses nothing: the source is some pieces joined
    with the operator, and the result is those pieces trimmed, without the empty
    ones, in order. *)
Theorem split_lossless (source operator : jstr) :
  operator <> [] ->
  exists pieces, source = join operator pieces /\
    splitExpressionAtTopLevel source operator = List.filter non_empty (trim <$> pieces).
Proof.
  intros Hop. unfold splitExpressionAtTopLevel.
  destruct (split_loop operator source [] [] 0 None 0 true) as [parts|] eqn:Hs.
  - apply split_loop_spec in Hs as (ps & _ & -> & Hj); [|done..]. exists ps. by rewrite <- Hj.
  - apply split_loop_question in Hs. exists [source]. split; [done|]. simpl.
    by rewrite (trim_non_empty source 63%N Hs eq_refl).
Qed.

Lemma split_lossless_witness :
  exists pieces, js "a && (b && c) && 'x && y'" = join (js "&&") pieces /\
    splitExpressionAtTopLevel (js "a && (b && c) && 'x && y'") (js "&&")
    = List.filter non_empty (trim <$> pieces).
Proof. apply split_lossless. vm_compute. congruence. Defined.

(** Unwrapping terminates with a trimmed text that no pair of parentheses
    encloses any more; what it removed is spaces and matching parentheses
    around the text. *)
Theorem unwrap_spec (source : jstr) :
  let result := unwrapExpressionParens source in
  wrapped result = false /\ trim result = result /\
  unwrapExpressionParens result = result /\
  exists pre post, wrapping pre post /\ source = pre ++ result ++ post.
Proof.
  intros result.
  destruct (unwrap_loop_spec (length source) (trim source)) as (H1 & H2 & pre & post & Hw & He).
  { apply trim_length. }
  { apply trim_idem. }
  fold (unwrapExpressionParens source) in H1, H2, He. fold result in H1, H2, He.
  split; [done|]. split; [done|]. split.
  - unfold unwrapExpressionParens. rewrite H2. destruct (length result); [done|].
    simpl. by rewrite H1.
  - destruct (trim_app source) as (a & b & Ha & Hb & Hs). exists (a ++ pre), (post ++ b).
    split; [by apply wrapping_spaces|]. rewrite Hs, He at 1. by rewrite <- !app_assoc.
Qed.
