(* ===== verification/BillingDisplay.v ===== *)
(** * Billing expressions: tier summaries

    Model of [billing-expression/display.ts]: the summaries of token tiers,
    time-dependent tiers and task tiers that the pricing pages show.  A summary
    is [None] ([null] in the code) unless the whole expression has the expected
    shape. *)

From stdpp Require Import base list numbers strings.
From Stdlib Require Import ZArith SpecFloat Lia.
From S2P Require Import Prelude.
From S2P Require Import JsString.
From S2P Require Import JsNumber.
From S2P Require Import JsValue.
From S2P Require Import BillingTypes.
From S2P Require Import BillingParser.
From S2P Require Import BillingCompile.
From S2P Require Import BillingRuntime.

(** ** Data *)

Record TokenTierCondition := {
  tc_var : TokenVariable;
  tc_op : binop;
  tc_value : f64;
}.

Record TokenTier := {
  tt_unit : option BillingUnit;
  tt_fixedPrice : option f64;
  tt_label : jstr;
  tt_conditions : list TokenTierCondition;
  tt_prices : list (TokenVariable * f64);
}.

Record TimeTokenTier := {
  tm_tier : TokenTier;
  tm_conditionText : jstr;
  tm_timeConditions : list (ExpressionNode * bool);
}.

(** ** Token tiers *)

Fixpoint flattenBinary (n : ExpressionNode) (operator : binop) : list ExpressionNode :=
  match n with
  | Binary _ o l r =>
      if decide (o = operator) then flattenBinary l operator ++ flattenBinary r operator else [n]
  | _ => [n]
  end.

Definition is_order (o : binop) : bool :=
  match o with Blt | Ble | Bgt | Bge => true | _ => false end.

Definition is_tier_variable (v : TokenVariable) : bool :=
  match v with Vp | Vc | Vlen => true | _ => false end.

(** One round of the loop of [tokenConditions]. *)
Definition tokenCondition (part : ExpressionNode) : option TokenTierCondition :=
  match part with
  | Binary _ o (Var _ v) r =>
      match number_literal r with
      | Some x =>
          if is_order o && is_tier_variable v && negb (fltb x fzero)
          then Some {| tc_var := v; tc_op := o; tc_value := x |} else None
      | None => None
      end
  | _ => None
  end.

Definition tokenConditions (n : ExpressionNode) : option (list TokenTierCondition) :=
  mapM tokenCondition (flattenBinary n Band).

(** A negated zero literal counts as the price [-0]. *)
Definition nonnegativePriceLiteral (n : ExpressionNode) : option f64 :=
  match n with
  | Literal _ (LNum x _) => if fleb fzero x then Some x else None
  | Unary _ Uminus (Literal _ (LNum x _)) => if feqb x fzero then Some (S754_zero true) else None
  | _ => None
  end.

(** [node.args[0].kind === 'literal' && typeof node.args[0].value === 'string'] *)
Definition string_literal (n : ExpressionNode) : option jstr :=
  match n with
  | Literal _ (LStr s) => Some s
  | _ => None
  end.

(** The loop of [tokenTier] over the terms. *)
Fixpoint token_terms (terms : list ExpressionNode) (prices : list (TokenVariable * f64))
    : option (list (TokenVariable * f64)) :=
  match terms with
  | [] => Some prices
  | Binary _ Bmul (Var _ v) r :: terms' =>
      match nonnegativePriceLiteral r with
      | Some x =>
          if bool_decide (v = Vlen) || bool_decide (v ∈ prices.*1) then None
          else token_terms terms' (prices ++ [(v, x)])
      | None => None
      end
  | _ => None
  end.

Definition tokenTier (n : ExpressionNode) (conditions : list TokenTierCondition) : option TokenTier :=
  match n with
  | Call _ Ftier (label :: body :: _) =>
      match string_literal label with
      | None => None
      | Some l =>
          let token_body :=
            match token_terms (flattenBinary body Badd) [] with
            | Some (p :: ps) =>
                Some {| tt_unit := None; tt_fixedPrice := None; tt_label := l;
                        tt_conditions := conditions; tt_prices := p :: ps |}
            | _ => None
            end in
          match body with
          | Call _ Ffixed (amount :: _) =>
              match number_literal amount with
              | Some x => Some {| tt_unit := Some Urequest; tt_fixedPrice := Some x; tt_label := l;
                                  tt_conditions := conditions; tt_prices := [] |}
              | None => token_body
              end
          | _ => token_body
          end
      end
  | _ => None
  end.

Fixpoint readTokenTierChain (n : ExpressionNode) : option (list TokenTier) :=
  match n with
  | Conditional _ c yes no =>
      conditions ← tokenConditions c;
      tier ← tokenTier yes conditions;
      rest ← readTokenTierChain no;
      Some (tier :: rest)
  | _ => fallback ← tokenTier n []; Some [fallback]
  end.

(** ** Time-dependent tiers *)

Definition is_clock_function (f : fname) : bool :=
  match f with
  | Ftime _ | Fmin | Fmax | Fabs | Fceil | Ffloor => true
  | _ => false
  end.

Definition isTimeCondition (n : ExpressionNode) : res exn bool :=
  res_bind (expressionDependencies n) (fun d =>
    Ok (bool_decide (dep_variables d = []) && existsb is_time_function (dep_functions d)
        && forallb is_clock_function (dep_functions d))).

Definition time_text (source : jstr) (entry : ExpressionNode * bool) : jstr :=
  let text := slice source (node_start (fst entry)) (node_end (fst entry)) in
  if snd entry then js "(" ++ text ++ js ")" else js "!(" ++ text ++ js ")".

(** [`${condition.var} ${condition.op} ${condition.value}`] *)
Definition condition_text (c : TokenTierCondition) : jstr :=
  variable_name (tc_var c) ++ js " " ++ binop_name (tc_op c) ++ js " " ++ number_to_string (tc_value c).

Definition time_tiers (source : jstr) (path : list (ExpressionNode * bool)) (tiers : list TokenTier)
    : list TimeTokenTier :=
  (fun tier =>
     {| tm_tier := tier;
        tm_timeConditions := path;
        tm_conditionText :=
          join (js " && ")
            (join (js " && ") (time_text source <$> path) :: (condition_text <$> tt_conditions tier))
     |}) <$> tiers.

(** The last part of [timeTierBranches]: a leaf of the tree of time conditions. *)
Definition time_leaf (source : jstr) (n : ExpressionNode) (path : list (ExpressionNode * bool))
    : res exn (option (list TimeTokenTier)) :=
  Ok (match readTokenTierChain n, path with
      | Some tiers, _ :: _ => Some (time_tiers source path tiers)
      | _, _ => None
      end).

Fixpoint timeTierBranches (source : jstr) (n : ExpressionNode) (path : list (ExpressionNode * bool))
    : res exn (option (list TimeTokenTier)) :=
  match n with
  | Conditional _ c yes no =>
      res_bind (isTimeCondition c) (fun time =>
        if time : bool then
          res_bind (timeTierBranches source yes (path ++ [(c, true)])) (fun y =>
          res_bind (timeTierBranches source no (path ++ [(c, false)])) (fun n' =>
            Ok (match y, n' with
                | Some ys, Some ns => Some (ys ++ ns)
                | _, _ => None
                end)))
        else time_leaf source n path)
  | _ => time_leaf source n path
  end.

Section TimePricing.
Context `{Host}.

(** [tier.timeConditions.every(...)] *)
Definition tier_current (compiled : CompiledBillingExpression) (now : option Z) (tier : TimeTokenTier)
    : bool :=
  forallb (fun entry => bool_decide
             (evaluateBillingCondition compiled (fst entry) now = Some (snd entry)))
    (tm_timeConditions tier).

(** [now] is [None] when no date is given. *)
Definition readTimeTokenPricing (compilation : CompilationResult) (now : option (option Z))
    : res exn (option (list TimeTokenTier * list TimeTokenTier)) :=
  match compilation with
  | NotReady _ => Ok None
  | Ready compiled =>
      res_bind (timeTierBranches (c_source compiled) (c_ast compiled) []) (fun tiers =>
        Ok (match tiers with
            | None => None
            | Some ts =>
                Some (ts, match now with
                          | Some t => List.filter (tier_current compiled t) ts
                          | None => []
                          end)
            end))
  end.
End TimePricing.

(** ** Task tiers *)

Inductive BillingUsageUnit := USsecond | UScount | UStoken | UScredit.
Inductive BillingUsageFieldType := FTnumber | FTboolean.

#[global] Instance BillingUsageUnit_eq_dec : EqDecision BillingUsageUnit.
Proof. solve_decision. Defined.

#[global] Instance BillingUsageFieldType_eq_dec : EqDecision BillingUsageFieldType.
Proof. solve_decision. Defined.

Record BillingUsageFieldSchema := {
  uf_type : option BillingUsageFieldType;
  uf_unit : option BillingUsageUnit;
  uf_enum : option (list jstr);
}.

Abbreviation BillingUsageSchema := (list (jstr * BillingUsageFieldSchema)).

Record TaskTier := {
  tk_label : jstr;
  tk_conditions : list (jstr * jstr);
  tk_constant : f64;
  tk_unitPrices : list (jstr * f64);
}.

(** [u('field')] *)
Definition usage_field (n : ExpressionNode) : option jstr :=
  match n with
  | Call _ Fu (arg :: _) => string_literal arg
  | _ => None
  end.

(** One round of the loop of [taskConditions]. *)
Definition taskCondition (schema : BillingUsageSchema) (includeBoolean : bool) (term : ExpressionNode)
    : option (jstr * jstr) :=
  match term with
  | Binary _ Beq l (Literal _ value) =>
      match usage_field l with
      | None => None
      | Some field =>
          let definition := assoc field schema in
          match definition, value with
          | Some {| uf_type := Some FTboolean |}, LBool b =>
              if includeBoolean then Some (field, if b then js "true" else js "false") else None
          | Some {| uf_type := Some FTboolean |}, _ => None
          | Some d, LStr s =>
              match uf_enum d with
              | Some e => if bool_decide (s ∈ e) then Some (field, s) else None
              | None => None
              end
          | _, _ => None
          end
      end
  | _ => None
  end.

Definition taskConditions (n : ExpressionNode) (schema : BillingUsageSchema) (includeBoolean : bool)
    : option (list (jstr * jstr)) :=
  mapM (taskCondition schema includeBoolean) (flattenBinary n Band).

(** [u('field') * price], with the field and the price. *)
Definition unit_term (term : ExpressionNode) : option (jstr * f64) :=
  match term with
  | Binary _ Bmul l r =>
      field ← usage_field l; price ← nonnegativePriceLiteral r; Some (field, price)
  | _ => None
  end.

(** The term without its division by a million, and whether it had one. *)
Definition unscale (term : ExpressionNode) : option (ExpressionNode * bool) :=
  match term with
  | Binary _ Bdiv l r =>
      match number_literal r with
      | Some x => if feqb x million then Some (l, true) else None
      | None => None
      end
  | _ => Some (term, false)
  end.

(** [definition?.type === 'number' && definition.unit && !Object.hasOwn(unitPrices, field)
     && (definition.unit === 'token') === scaled] *)
Definition unit_accepted (schema : BillingUsageSchema) (field : jstr) (scaled : bool)
    (unitPrices : list (jstr * f64)) : bool :=
  match assoc field schema with
  | Some d =>
      match uf_type d, uf_unit d with
      | Some FTnumber, Some u =>
          negb (bool_decide (field ∈ unitPrices.*1)) && Bool.eqb (bool_decide (u = UStoken)) scaled
      | _, _ => false
      end
  | None => false
  end.

(** The loop of [taskTier]; [constant] is set when [hasConstant] is. *)
Fixpoint task_terms (schema : BillingUsageSchema) (terms : list ExpressionNode) (constant : option f64)
    (unitPrices : list (jstr * f64)) : option (option f64 * list (jstr * f64)) :=
  match terms with
  | [] => Some (constant, unitPrices)
  | term :: terms' =>
      match nonnegativePriceLiteral term with
      | Some literal =>
          match constant with
          | Some _ => None
          | None => task_terms schema terms' (Some literal) unitPrices
          end
      | None =>
          '(body, scaled) ← unscale term;
          '(field, price) ← unit_term body;
          if unit_accepted schema field scaled unitPrices
          then task_terms schema terms' constant (unitPrices ++ [(field, price)]) else None
      end
  end.

Definition taskTier (n : ExpressionNode) (conditions : list (jstr * jstr))
    (schema : BillingUsageSchema) : option TaskTier :=
  match n with
  | Call _ Ftier (label :: body :: _) =>
      l ← string_literal label;
      '(constant, unitPrices) ← task_terms schema (flattenBinary body Badd) None [];
      match unitPrices with
      | [] => None
      | _ => Some {| tk_label := l; tk_conditions := conditions;
                     tk_constant := default fzero constant; tk_unitPrices := unitPrices |}
      end
  | _ => None
  end.

Fixpoint readTaskTierChain (n : ExpressionNode) (schema : BillingUsageSchema) (includeBoolean : bool)
    : option (list TaskTier) :=
  match n with
  | Conditional _ c yes no =>
      conditions ← taskConditions c schema includeBoolean;
      tier ← taskTier yes conditions schema;
      rest ← readTaskTierChain no schema includeBoolean;
      Some (tier :: rest)
  | _ => fallback ← taskTier n [] schema; Some [fallback]
  end.
