(* ===== verification/BillingDisplayFacts.v ===== *)
(** * Billing expressions: summaries agree with evaluation

    A token tier summary names the tier, the price and the cost that the
    evaluator arrives at; a time-dependent summary shows as current exactly the
    tiers of the branch the evaluator takes. *)

From stdpp Require Import base list numbers strings gmap.
From Stdlib Require Import ZArith SpecFloat Lia.
From S2P Require Import Prelude.
From S2P Require Import JsString.
From S2P Require Import JsNumber.
From S2P Require Import JsNumberFacts.
From S2P Require Import JsValue.
From S2P Require Import BillingTypes.
From S2P Require Import BillingParser.
From S2P Require Import BillingSpans.
From S2P Require Import BillingCompile.
From S2P Require Import BillingCompileFacts.
From S2P Require Import BillingRuntime.
From S2P Require Import BillingRuntimeFacts.
From S2P Require Import BillingPricing.
From S2P Require Import BillingDisplay.

#[local] Open Scope jsm.

(** ** Flattening *)

Lemma flattenBinary_sub n o m : m ∈ flattenBinary n o -> m ∈ postorder n.
Proof.
  induction n as [| | | |sp p a b IHa IHb|] using node_ind'; cbn [flattenBinary];
    try (rewrite list_elem_of_singleton; intros ->; apply postorder_self).
  destruct (decide (p = o)).
  - rewrite elem_of_app. rewrite postorder_unfold. cbn [node_children map concat].
    rewrite !elem_of_app. intuition.
  - rewrite list_elem_of_singleton. intros ->. apply postorder_self.
Qed.

Section Agree.
Context `{Host} (compiled : CompiledBillingExpression) (context : BillingSimulationContext)
  (header_map : list (jstr * jstr)).

Abbreviation eval := (evaluate compiled context header_map).
Abbreviation deeper s := (set_depth (S (rt_depth s)) s).

Lemma shallower s : set_depth (Nat.pred (rt_depth (deeper s))) (deeper s) = s.
Proof. by destruct s. Qed.

(** ** Literals, variables and operators *)

Lemma eval_literal sp l s v s' : eval (Literal sp l) s = Ok (v, s') -> v = literal_value l /\ s' = s.
Proof.
  intros (s1 & Hn & ->)%evaluate_inv. injection Hn as <- <-. by rewrite shallower.
Qed.

Lemma eval_var sp v s r s' : eval (Var sp v) s = Ok (r, s') ->
  exists x, token_of context v = Some (JNum x) /\ r = plain (JNum x) /\ s' = s.
Proof.
  intros (s1 & Hn & ->)%evaluate_inv. cbn [evaluateNode] in Hn. unfold variable_value in Hn.
  unfold token_of. destruct (tokens context ≫= _) as [[]|]; try done.
  destruct (fltb n fzero); [done|]. injection Hn as <- <-. rewrite shallower. eauto.
Qed.

Lemma eval_price n x s v s' : checked n -> nonnegativePriceLiteral n = Some x ->
  eval n s = Ok (v, s') -> rv_value v = JNum x /\ s' = s.
Proof.
  intros Hck Hp He. destruct n as [sp l| | |sp o a| |]; try done; simpl in Hp.
  - destruct l; try done. destruct (fleb fzero n); [|done]. simplify_eq.
    by apply eval_literal in He as [-> ->].
  - destruct o; try done. destruct a as [sp1 l| | | | |]; try done. destruct l as [| |y i|]; try done.
    destruct (feqb y fzero) eqn:Hy; [|done]. simplify_eq.
    assert (checked (Literal sp1 (LNum y i))) as ([_ _ _ Hok _] & _)
      by (apply (checked_child _ _ Hck); by left).
    destruct Hok as (_ & _ & _ & Hs & _).
    apply evaluate_inv in He as (s1 & Hn & ->). cbn [evaluateNode unary] in Hn.
    apply st_bind_Ok in Hn as (xi & s2 & Hx & Hn). apply st_bind_Ok in Hx as (va & s3 & Hva & Hx).
    apply eval_literal in Hva as [-> ->]. injection Hx as <- <-. injection Hn as <- <-.
    rewrite shallower. split; [|done]. simpl.
    destruct y as [[]|[]| |[] ? ?]; try congruence; done.
Qed.

Lemma apply_binary_state sp o l r s v s' : apply_binary sp o l r s = Ok (v, s') -> s' = s.
Proof.
  unfold apply_binary, arithmetic, throw_at, st_throw, st_ret. intros Hn.
  repeat case_match; by simplify_eq.
Qed.

(** An operator other than [&&] and [||] whose operands leave the state alone. *)
Lemma eval_operator sp o l r s v s' : o <> Band -> o <> Bor ->
  eval (Binary sp o l r) s = Ok (v, s') ->
  exists vl s1 vr s2, eval l (deeper s) = Ok (vl, s1) /\ eval r s1 = Ok (vr, s2) /\
    apply_binary sp o vl vr s2 = Ok (v, s2) /\ s' = set_depth (Nat.pred (rt_depth s2)) s2.
Proof.
  intros Ha Ho (s0 & Hn & ->)%evaluate_inv. cbn [evaluateNode] in Hn.
  assert (binary eval sp o l r = (a <- eval l ;; b <- eval r ;; apply_binary sp o a b)) as Hb
    by (destruct o; naive_solver).
  rewrite Hb in Hn. apply st_bind_Ok in Hn as (vl & s1 & Hl & Hn).
  apply st_bind_Ok in Hn as (vr & s2 & Hr & Hn).
  pose proof (apply_binary_state _ _ _ _ _ _ _ Hn) as ->. by exists vl, s1, vr, s2.
Qed.

(** ** Conditions *)

(** The condition holds for the token counts of the context. *)
Definition condition_holds (c : TokenTierCondition) : bool :=
  match token_of context (tc_var c) with
  | Some v => default false (compare_values (tc_op c) v (JNum (tc_value c)))
  | None => false
  end.

Definition tier_holds (t : TokenTier) : bool := forallb condition_holds (tt_conditions t).

Lemma eval_condition n c s v s' : tokenCondition n = Some c -> eval n s = Ok (v, s') ->
  rv_value v = JBool (condition_holds c) /\ s' = s.
Proof.
  intros Hc He. destruct n as [| | | |sp o l r|]; try done. destruct l as [|spv x| | | |]; try done.
  simpl in Hc. destruct (number_literal r) as [y|] eqn:Hr; [|done].
  destruct (is_order o && is_tier_variable x && _) eqn:Hb; [|done]. simplify_eq.
  apply andb_true_iff in Hb as [Hb _]. apply andb_true_iff in Hb as [Ho _].
  apply eval_operator in He as (vl & s1 & vr & s2 & Hl & Hrr & Ha & ->); [|by destruct o..].
  apply eval_var in Hl as (z & Hz & -> & ->). destruct r as [spl l| | | | |]; try done.
  destruct l; simplify_eq/=. apply eval_literal in Hrr as [-> ->]. rewrite shallower.
  split; [|done]. unfold condition_holds. simpl. rewrite Hz.
  destruct o; try done; simpl in Ha; by injection Ha as <-.
Qed.

Lemma eval_conditions n cs s b s' : tokenConditions n = Some cs -> boolean eval n s = Ok (b, s') ->
  b = forallb condition_holds cs /\ s' = s.
Proof.
  unfold tokenConditions. rewrite mapM_Some. revert cs s b s'.
  induction n as [| | | |sp o l r IHl IHr|] using node_ind'; intros cs s b s' Hcs He;
    try (cbn [flattenBinary] in Hcs; inversion Hcs; simplify_eq; done).
  cbn [flattenBinary] in Hcs. destruct (decide (o = Band)) as [->|Ho].
  - apply Forall2_app_inv_l in Hcs as (c1 & c2 & H1 & H2 & ->). rewrite forallb_app.
    apply st_bind_Ok in He as (v & s1 & He & Hb). apply evaluate_inv in He as (s2 & Hn & ->).
    cbn [evaluateNode binary] in Hn. apply st_bind_Ok in Hn as (bl & s3 & Hl & Hn).
    destruct (IHl _ _ _ _ H1 Hl) as [-> ->]. destruct (forallb condition_holds c1); simpl.
    + apply st_bind_Ok in Hn as (br & s4 & Hr & Hn). destruct (IHr _ _ _ _ H2 Hr) as [-> ->].
      injection Hn as <- <-. injection Hb as <- <-. by destruct s.
    + injection Hn as <- <-. injection Hb as <- <-. by destruct s.
  - inversion Hcs as [|? c ? ? Hc Hnil]; subst. inversion Hnil; subst. simpl. rewrite andb_true_r.
    apply st_bind_Ok in He as (v & s1 & He & Hb).
    destruct (eval_condition _ _ _ _ _ Hc He) as [Hv ->]. rewrite Hv in Hb. by injection Hb as <- <-.
Qed.

(** ** Prices *)

Definition term_value (p : TokenVariable * f64) : option f64 :=
  match token_of context (fst p) with
  | Some (JNum x) => Some (fmul x (snd p))
  | _ => None
  end.

Definition float_sum (xs : list f64) : f64 :=
  match xs with
  | [] => fzero
  | x :: xs' => foldl fadd x xs'
  end.

(** What the price list of a tier charges for the tokens of the context. *)
Definition token_cost (prices : list (TokenVariable * f64)) : option f64 :=
  float_sum <$> mapM term_value prices.

Lemma float_sum_snoc xs x : xs <> [] -> float_sum (xs ++ [x]) = fadd (float_sum xs) x.
Proof. destruct xs; [done|]. intros _. simpl. by rewrite foldl_app. Qed.

Definition is_term (t : ExpressionNode) (p : TokenVariable * f64) : Prop :=
  exists sp spv r, t = Binary sp Bmul (Var spv (fst p)) r /\ nonnegativePriceLiteral r = Some (snd p).

Lemma token_terms_inv terms acc out : token_terms terms acc = Some out ->
  exists ps, out = acc ++ ps /\ Forall2 is_term terms ps.
Proof.
  revert acc. induction terms as [|t terms IH]; intros acc; simpl.
  { intros [= <-]. exists []. by rewrite app_nil_r. }
  destruct t as [| | | |sp o l r|]; try done. destruct o, l; try done.
  destruct (nonnegativePriceLiteral r) as [x|] eqn:Hr; [|done].
  destruct (_ || _); [done|]. intros (ps & -> & Hf)%IH. exists ((name, x) :: ps).
  split; [by rewrite <- app_assoc|]. constructor; [|done]. by exists sp, sp0, r.
Qed.

Lemma eval_term t p s v s' : checked t -> is_term t p -> eval t s = Ok (v, s') ->
  exists x, term_value p = Some x /\ rv_value v = JNum x /\ s' = s.
Proof.
  intros Hck (sp & spv & r & -> & Hr) He. apply eval_operator in He
    as (vl & s1 & vr & s2 & Hl & Hrr & Ha & ->); [|done..].
  apply eval_var in Hl as (z & Hz & -> & ->).
  apply (eval_price r (snd p)) in Hrr as [Hv ->]; [|apply (checked_child _ _ Hck); right; by left|done].
  unfold term_value. rewrite Hz, shallower. unfold apply_binary in Ha. rewrite Hv in Ha. simpl in Ha.
  injection Ha as <-. eauto.
Qed.

(** Sums are written without parentheses: no [+] is a right operand of [+]. *)
Definition plain_sums (n : ExpressionNode) : Prop :=
  forall sp a sp' b c, Binary sp Badd a (Binary sp' Badd b c) ∉ postorder n.

Lemma plain_sums_sub n m : plain_sums n -> m ∈ postorder n -> plain_sums m.
Proof. intros Hn Hm sp a sp' b c Hin. eapply Hn, postorder_trans; eauto. Qed.

Lemma flattenBinary_nonnil n o : flattenBinary n o <> [].
Proof.
  induction n as [| | | |sp p a b IHa IHb|] using node_ind'; cbn [flattenBinary]; try done.
  destruct (decide (p = o)); [|done]. intros [Ha _]%app_nil. done.
Qed.

Lemma eval_sum n ps s v s' : checked n -> Forall2 is_term (flattenBinary n Badd) ps ->
  eval n s = Ok (v, s') ->
  s' = s /\ (plain_sums n -> exists x, token_cost ps = Some x /\ rv_value v = JNum x).
Proof.
  revert ps s v s'. induction n as [sp k|sp k| |sp o a IHa|sp o l r IHl IHr|sp a b c IHa IHb IHc] using node_ind';
    intros ps s v s' Hck Hps He; cbn [flattenBinary] in Hps;
    try (inversion Hps as [|? p ? ? Hp Hnil]; subst; inversion Hnil; subst;
         destruct Hp as (? & ? & ? & ? & _); done).
  assert (Hsub : forall c, c ∈ [l; r] -> c ∈ postorder (Binary sp o l r))
    by (intros c Hc; by apply postorder_child).
  destruct (decide (o = Badd)) as [->|Ho].
  - apply Forall2_app_inv_l in Hps as (p1 & p2 & H1 & H2 & ->).
    apply eval_operator in He as (vl & s1 & vr & s2 & Hl & Hr & Ha & ->); [|done..].
    apply (IHl p1) in Hl as [-> Hvl]; [|apply (checked_child _ _ Hck); by left|done].
    apply (IHr p2) in Hr as [-> Hvr]; [|apply (checked_child _ _ Hck); right; by left|done].
    rewrite shallower. split; [done|]. intros Hpl.
    destruct Hvl as (x & Hx & Hvl); [by eapply plain_sums_sub; [done|]; apply Hsub; left|].
    destruct Hvr as (y & Hy & Hvr); [by eapply plain_sums_sub; [done|]; apply Hsub; right; left|].
    assert (flattenBinary r Badd = [r]) as Hfr.
    { destruct r as [| | | |sp' o' a b|]; try done. cbn [flattenBinary].
      destruct (decide (o' = Badd)) as [->|]; [|done]. exfalso. eapply Hpl, postorder_self. }
    rewrite Hfr in H2. inversion H2 as [|? p ? ? Hp Hnil]; subst. inversion Hnil; subst.
    unfold token_cost in *. apply fmap_Some in Hx as (xs & Hxs & ->).
    apply fmap_Some in Hy as (ys & Hys & ->). apply mapM_Some in Hxs. apply mapM_Some in Hys.
    inversion Hys as [|? y ? ? Hpy Hnil']; subst. inversion Hnil'; subst.
    exists (fadd (float_sum xs) y). split.
    + apply fmap_Some. exists (xs ++ [y]). split; [|symmetry; apply float_sum_snoc].
      * apply mapM_Some, Forall2_app; [done|]. by constructor.
      * intros ->. inversion Hxs; subst. inversion H1 as [Hnil2|]. by eapply flattenBinary_nonnil.
    + unfold apply_binary in Ha. rewrite Hvl, Hvr in Ha. simpl in Ha. by injection Ha as <-.
  - inversion Hps as [|? p ? ? Hp Hnil]; subst. inversion Hnil; subst.
    destruct (eval_term _ _ _ _ _ Hck Hp He) as (x & Hx & Hv & ->). split; [done|]. intros _.
    exists x. split; [|done]. unfold token_cost. simpl. by rewrite Hx.
Qed.

(** ** Tiers *)

(** The evaluator's outcome [v], [s'] is the one the summary [t] shows. *)
Definition tier_outcome (t : TokenTier) (plain : Prop) (s : rstate) (v : RuntimeValue) (s' : rstate)
    : Prop :=
  matchedTier s' = tt_label t /\
  match tt_fixedPrice t with
  | Some x => fixedPrice s' = Some x /\ rv_value v = JNum (fmul x million)
  | None => fixedPrice s' = fixedPrice s /\
            (plain -> exists x, token_cost (tt_prices t) = Some x /\ rv_value v = JNum x)
  end.

(** A [tier] call: its parts, and what remains to be known of its price. *)
Lemma eval_tier sp label price l s v s' : string_literal label = Some l ->
  eval (Call sp Ftier [label; price]) s = Ok (v, s') ->
  exists s1 vp s2, eval price s1 = Ok (vp, s2) /\ fixedPrice s1 = fixedPrice s /\
    rv_value v = rv_value vp /\ matchedTier s' = l /\ fixedPrice s' = fixedPrice s2.
Proof.
  intros Hl (s1 & Hn & ->)%evaluate_inv. cbn [evaluateNode call call2] in Hn.
  apply st_bind_Ok in Hn as (name & s2 & Hname & Hn).
  apply st_bind_Ok in Hname as (vl & s3 & Hvl & Hname). destruct label as [spl k| | | | |]; try done.
  destruct k; simplify_eq/=. apply eval_literal in Hvl as [-> ->]. injection Hname as <- <-.
  apply st_bind_Ok in Hn as (x & s4 & Hx & Hn). apply st_bind_Ok in Hx as (vp & s5 & Hvp & Hx).
  destruct (rv_value vp) eqn:Hv; try done. injection Hx as <- <-. injection Hn as <- <-.
  eexists _, vp, s5. split; [exact Hvp|]. by rewrite Hv.
Qed.

Lemma tokenTier_eval n cs t s v s' : checked n -> tokenTier n cs = Some t ->
  eval n s = Ok (v, s') -> tier_outcome t (plain_sums n) s v s' /\ tt_conditions t = cs.
Proof.
  intros Hck Ht He. destruct n as [| |sp f args| | |]; try done. destruct f; try done.
  pose proof Hck as ([_ _ _ Har _] & _). destruct args as [|label [|body [|? ?]]]; try done.
  simpl in Ht. destruct (string_literal label) as [l|] eqn:Hl; [|done].
  destruct (eval_tier _ _ _ _ _ _ _ Hl He) as (s1 & vp & s2 & Hvp & Hf1 & Hv & Hm & Hf2).
  assert (Hcb : checked body) by (apply (checked_child _ _ Hck); right; by left).
  assert (Htok : forall p ps, token_terms (flattenBinary body Badd) [] = Some (p :: ps) ->
    tier_outcome {| tt_unit := None; tt_fixedPrice := None; tt_label := l; tt_conditions := cs;
                    tt_prices := p :: ps |} (plain_sums (Call sp Ftier [label; body])) s v s').
  { intros p ps Hps. apply token_terms_inv in Hps as (ps' & Heq & Hf). simpl in Heq. subst ps'.
    destruct (eval_sum body _ _ _ _ Hcb Hf Hvp) as [-> Hval]. split; [done|]. simpl.
    split; [congruence|]. intros Hpl. destruct Hval as (x & Hx & Hvx); [|exists x; split; congruence].
    eapply plain_sums_sub; [done|]. apply postorder_child. right. by left. }
  assert (Htok' : match token_terms (flattenBinary body Badd) [] with
    | Some (p :: ps) => Some {| tt_unit := None; tt_fixedPrice := None; tt_label := l;
                                tt_conditions := cs; tt_prices := p :: ps |}
    | _ => None end = Some t -> tier_outcome t (plain_sums (Call sp Ftier [label; body])) s v s' /\
           tt_conditions t = cs).
  { destruct (token_terms _ _) as [[|p ps]|] eqn:Hps; try done. intros [= <-]. split; [by apply Htok|done]. }
  destruct body as [| |sp1 f1 args1| | |]; try (by apply Htok').
  destruct f1; try (by apply Htok'). destruct args1 as [|amount rest]; [by apply Htok'|].
  destruct (number_literal amount) as [x|] eqn:Hx; [|by apply Htok'].
  injection Ht as <-. split; [|done]. pose proof Hcb as ([_ _ _ Harb _] & _).
  destruct rest as [|? ?]; [|done]. split; [done|]. simpl.
  destruct (fixed_eval compiled context header_map _ _ _ _ _ _ Hx Hvp) as (Hvx & Hfx & _).
  split; congruence.
Qed.

(** The first tier whose conditions hold. *)
Lemma chain_eval n tiers s v s' : checked n -> readTokenTierChain n = Some tiers ->
  eval n s = Ok (v, s') ->
  exists t, List.find tier_holds tiers = Some t /\ tier_outcome t (plain_sums n) s v s'.
Proof.
  revert tiers s v s'. induction n as [sp k|sp k|sp f args|sp o a|sp o a b|sp c y no _ _ IHn] using node_ind';
    intros tiers s v s' Hck Ht He.
  6: { cbn [readTokenTierChain] in Ht. apply bind_Some in Ht as (cs & Hcs & Ht).
       apply bind_Some in Ht as (t & Hty & Ht). apply bind_Some in Ht as (rest & Hrest & [= <-]).
       apply evaluate_inv in He as (s1 & Hn & ->). cbn [evaluateNode] in Hn.
       apply st_bind_Ok in Hn as (b & s2 & Hb & Hn).
       destruct (eval_conditions c cs _ _ _ Hcs Hb) as [-> ->].
       apply st_bind_Ok in Hn as (u & s3 & Hmark & Hbr).
       assert (fixedPrice s3 = fixedPrice s) as Hf3.
       { destruct (forallb _ cs); [|by injection Hmark as <- <-]. unfold mark_rule in Hmark.
         by destruct (list_find _ _) as [[i r]|]; injection Hmark as <- <-. }
       assert (Hpl : forall m, m ∈ [c; y; no] -> plain_sums (Conditional sp c y no) -> plain_sums m)
         by (intros m Hm Hp; eapply plain_sums_sub; [done|by apply postorder_child]).
       assert (Hout : forall m t', m ∈ [c; y; no] -> tier_outcome t' (plain_sums m) s3 v s1 ->
         tier_outcome t' (plain_sums (Conditional sp c y no)) s v
           (set_depth (Nat.pred (rt_depth s1)) s1)).
       { intros m t' Hm [Hl Ho]. split; [done|]. revert Ho.
         destruct (tt_fixedPrice t'); simpl; [done|]. rewrite Hf3. intros [? Hc]. split; [done|].
         intros Hp. apply Hc. by apply (Hpl m). }
       cbn [List.find]. unfold tier_holds at 1.
       assert (tt_conditions t = cs) as Htc.
       { revert Hty. unfold tokenTier. repeat case_match; intros; by simplify_eq. }
       rewrite Htc. destruct (forallb condition_holds cs).
       - exists t. split; [done|]. apply (Hout y); [right; by left|].
         apply (tokenTier_eval y cs t); [apply (checked_child _ _ Hck); right; by left|done|done].
       - destruct (IHn rest _ _ _ ltac:(apply (checked_child _ _ Hck); right; right; by left) Hrest Hbr)
           as (t' & Hfind & Ht'). exists t'. split; [done|]. apply (Hout no); [|done].
         right. right. by left. }
  all: cbn [readTokenTierChain] in Ht; apply bind_Some in Ht as (t & Hty & [= <-]);
    destruct (tokenTier_eval _ _ _ _ _ _ Hck Hty He) as [Ho Hc]; exists t; (split; [|done]);
    cbn [List.find]; unfold tier_holds; by rewrite Hc.
Qed.
End Agree.

(** ** The value of a node does not depend on the state

    Two evaluations of a node in the same context agree whatever was evaluated
    before, as long as the second one starts no deeper: the only field that is
    read, the cache of time values, holds what computing them again gives. *)

Section Simulation.
Context `{Host} (compiled : CompiledBillingExpression) (context : BillingSimulationContext)
  (header_map : list (jstr * jstr)).

Abbreviation eval := (evaluate compiled context header_map).

Definition cache_sound (s : rstate) : Prop :=
  forall z v, assoc z (timeValues s) = Some v -> timeInBillingZone (now context) z = Ok v.

Definition related (s1 s2 : rstate) : Prop :=
  cache_sound s1 /\ cache_sound s2 /\ rt_depth s2 <= rt_depth s1.

Definition sim {A} (m1 m2 : M A) : Prop :=
  forall s1 s2 a s1', related s1 s2 -> m1 s1 = Ok (a, s1') ->
    exists s2', m2 s2 = Ok (a, s2') /\ related s1' s2'.

Lemma sim_bind {A B} (m1 m2 : M A) (f1 f2 : A -> M B) :
  sim m1 m2 -> (forall a, sim (f1 a) (f2 a)) -> sim (st_bind m1 f1) (st_bind m2 f2).
Proof.
  intros Hm Hf s1 s2 b s1' Hr (a & s3 & Ha & Hb)%st_bind_Ok.
  destruct (Hm _ _ _ _ Hr Ha) as (s4 & Ha' & Hr'). destruct (Hf a _ _ _ _ Hr' Hb) as (s5 & Hb' & Hr'').
  exists s5. split; [|done]. apply st_bind_Ok. eauto.
Qed.

Lemma sim_ret {A} (a : A) : sim (st_ret a) (st_ret a).
Proof. intros s1 s2 b s1' Hr [= <- <-]. exists s2. done. Qed.

Lemma sim_throw {A} c d p : sim (@throw_at _ A c d p) (throw_at c d p).
Proof. done. Qed.

Lemma sim_lift {A} (r : res exn A) : sim (st_lift r) (st_lift r).
Proof. intros s1 s2 a s1' Hr. unfold st_lift. destruct r; [|done]. intros [= <- <-]. eauto. Qed.

Lemma sim_modify f : (forall s1 s2, related s1 s2 -> related (f s1) (f s2)) ->
  sim (st_modify f) (st_modify f).
Proof. intros Hf s1 s2 a s1' Hr [= <- <-]. exists (f s2). split; [done|by apply Hf]. Qed.

Lemma assoc_snoc {A} k z (l : list (jstr * A)) v w : assoc k (l ++ [(z, v)]) = Some w ->
  assoc k l = Some w \/ k = z /\ w = v.
Proof.
  induction l as [|[k' v'] l IH]; simpl; [|by destruct (jeqb k k'); auto].
  destruct (jeqb k z) eqn:Hk; [|done]. apply jeqb_eq in Hk. intros [= ->]. auto.
Qed.

Lemma cache_sound_add z v s : cache_sound s -> timeInBillingZone (now context) z = Ok v ->
  cache_sound (add_time z v s).
Proof. intros Hs Hv k w Hk. apply assoc_snoc in Hk as [Hk|[-> ->]]; [by apply Hs|done]. Qed.

Definition time_value (values : time_values) (f : TimeFunction) : RuntimeValue :=
  {| rv_value := JNum (values f); rv_integer := true |}.

Lemma time_lookup_inv f z s r s' : cache_sound s -> time_lookup context f z s = Ok (r, s') ->
  exists v, timeInBillingZone (now context) z = Ok v /\ r = time_value v f /\ cache_sound s' /\
    rt_depth s' = rt_depth s.
Proof.
  intros Hs. unfold time_lookup, st_bind, st_get, st_lift, st_modify, st_ret.
  destruct (assoc z (timeValues s)) as [v|] eqn:Hv.
  - intros [= <- <-]. exists v. split; [by apply Hs|done].
  - destruct (timeInBillingZone (now context) z) as [v|e] eqn:Ht; [|done]. intros [= <- <-].
    exists v. split; [done|]. split; [done|]. split; [by apply cache_sound_add|done].
Qed.

Lemma time_lookup_Ok f z s v : cache_sound s -> timeInBillingZone (now context) z = Ok v ->
  exists s', time_lookup context f z s = Ok (time_value v f, s') /\ cache_sound s' /\
    rt_depth s' = rt_depth s.
Proof.
  intros Hs Ht. unfold time_lookup, st_bind, st_get, st_lift, st_modify, st_ret.
  destruct (assoc z (timeValues s)) as [w|] eqn:Hw.
  - apply Hs in Hw. assert (v = w) as -> by congruence. eauto.
  - rewrite Ht. eexists. split; [done|]. split; [by apply cache_sound_add|done].
Qed.

Lemma sim_time_lookup f z : sim (time_lookup context f z) (time_lookup context f z).
Proof.
  intros s1 s2 r s1' (H1 & H2 & Hd) Hr.
  destruct (time_lookup_inv _ _ _ _ _ H1 Hr) as (v & Hv & -> & H1' & Hd1).
  destruct (time_lookup_Ok f z s2 v H2 Hv) as (s2' & Hs2 & H2' & Hd2).
  exists s2'. split; [done|]. split; [done|]. split; [done|lia].
Qed.

Lemma sim_boolean a : sim (eval a) (eval a) -> sim (boolean eval a) (boolean eval a).
Proof. intros Ha. apply sim_bind; [done|]. intros r. destruct (rv_value r); apply sim_throw || apply sim_ret. Qed.
Lemma sim_numeric a : sim (eval a) (eval a) -> sim (numeric eval a) (numeric eval a).
Proof. intros Ha. apply sim_bind; [done|]. intros r. destruct (rv_value r); apply sim_throw || apply sim_ret. Qed.
Lemma sim_string a : sim (eval a) (eval a) -> sim (string_ eval a) (string_ eval a).
Proof. intros Ha. apply sim_bind; [done|]. intros r. destruct (rv_value r); apply sim_throw || apply sim_ret. Qed.

(** A computation that never looks at the state. *)
Lemma sim_pure {A} (m : M A) : (forall s a s', m s = Ok (a, s') -> s' = s) ->
  (forall s s' a, m s = Ok (a, s) -> m s' = Ok (a, s')) -> sim m m.
Proof.
  intros H1 H2 s1 s2 a s1' Hr Hm. pose proof (H1 _ _ _ Hm) as ->. exists s2. split; [by eapply H2|done].
Qed.

Lemma sim_apply_binary sp o l r : sim (apply_binary sp o l r) (apply_binary sp o l r).
Proof.
  apply sim_pure; [intros s a s'; apply apply_binary_state|]. intros s s' a.
  unfold apply_binary, arithmetic, throw_at, st_throw, st_ret.
  repeat case_match; intros; by simplify_eq.
Qed.

Lemma sim_variable sp v : sim (variable_value context sp v) (variable_value context sp v).
Proof.
  unfold variable_value. destruct (tokens context ≫= _) as [[]|]; try apply sim_throw.
  destruct (fltb n fzero); [apply sim_throw|apply sim_ret].
Qed.

Lemma sim_check n v : sim (check_value n v) (check_value n v).
Proof. unfold check_value. repeat case_match; apply sim_throw || apply sim_ret. Qed.

Lemma sim_mark n : sim (mark_rule compiled n) (mark_rule compiled n).
Proof.
  unfold mark_rule. destruct (list_find _ _) as [[i r]|]; [|apply sim_ret].
  by apply sim_modify.
Qed.

Ltac sim_steps := repeat first
  [ apply sim_ret | apply sim_throw | apply sim_lift | by apply sim_numeric | by apply sim_string
  | by apply sim_boolean | apply sim_apply_binary | apply sim_time_lookup | apply sim_mark
  | by (apply sim_modify) | done
  | apply sim_bind; [|intros ?] | case_match ].

Lemma sim_call1 sp f a : sim (eval a) (eval a) ->
  sim (call1 context header_map eval sp f a) (call1 context header_map eval sp f a).
Proof. intros Ha. unfold call1, time_call. destruct f; sim_steps. Qed.

Lemma evaluate_sim n : sim (eval n) (eval n).
Proof.
  induction n as [n Hch] using node_children_ind.
  enough (sim (evaluateNode compiled context header_map eval n)
              (evaluateNode compiled context header_map eval n)) as He.
  { intros s1 s2 v s1' (H1 & H2 & Hd). rewrite !evaluate_unfold.
    destruct (Nat.ltb_spec 256 (S (rt_depth s1))); [done|].
    destruct (Nat.ltb_spec 256 (S (rt_depth s2))); [lia|].
    destruct (evaluateNode _ _ _ _ n (set_depth (S (rt_depth s1)) s1)) as [[w s3]|e] eqn:Hn; [|done].
    assert (related (set_depth (S (rt_depth s1)) s1) (set_depth (S (rt_depth s2)) s2)) as Hrel
      by (split; [done|]; split; [done|]; simpl; lia).
    destruct (He _ _ _ _ Hrel Hn) as (s4 & -> & Hr).
    destruct (check_value n w s3) as [[w' s5]|e] eqn:Hc; [|done]. intros [= <- <-].
    destruct (sim_check n w _ _ _ _ Hr Hc) as (s6 & -> & Hs3 & Hs4 & Hd').
    eexists. split; [done|]. split; [done|]. split; [done|]. simpl. lia. }
  destruct n as [sp l|sp v|sp f args|sp o a|sp o a b|sp c y no]; cbn [evaluateNode node_children] in *.
  - apply sim_ret.
  - apply sim_variable.
  - destruct args as [|a [|b args]]; cbn [call]; [done|..]; inversion_clear Hch as [|? ? Ha Hch'].
    { by apply sim_call1. }
    inversion_clear Hch' as [|? ? Hb _]. unfold call2. destruct f; try (by apply sim_call1); sim_steps.
  - inversion_clear Hch as [|? ? Ha _]. destruct o; cbn [unary]; sim_steps.
  - inversion_clear Hch as [|? ? Ha Hch']. inversion_clear Hch' as [|? ? Hb _].
    destruct o; cbn [binary]; sim_steps.
  - inversion_clear Hch as [|? ? Hc Hch']. inversion_clear Hch' as [|? ? Hy Hch''].
    inversion_clear Hch'' as [|? ? Hn _]. sim_steps.
Qed.
End Simulation.

(** ** Time-dependent tiers *)

Lemma time_condition_functions c : node_depth c <= 256 -> isTimeCondition c = Ok true ->
  (forall v, ~ uses_variable c v) /\ (forall f, uses_function c f -> is_clock_function f = true).
Proof.
  intros Hd. unfold isTimeCondition. destruct (expressionDependencies_spec c Hd) as (d & -> & Hv & Hf).
  simpl. intros [= Hb]. apply andb_true_iff in Hb as [Hb Hall].
  apply andb_true_iff in Hb as [Hnil _]. apply bool_decide_eq_true in Hnil. split.
  - intros v. rewrite <- Hv, Hnil. by intros ?%elem_of_nil.
  - intros f. rewrite <- Hf. intros Hin. apply forallb_forall with (x := f) in Hall; [done|].
    by apply list_elem_of_In.
Qed.

Section TimeTiers.
Context `{Host} (compiled : CompiledBillingExpression) (context : BillingSimulationContext)
  (header_map : list (jstr * jstr)).

Abbreviation eval := (evaluate compiled context header_map).

(** The evaluator and the summary decide a time condition alike. *)
Lemma condition_decided c s b s' : checked c -> isTimeCondition c = Ok true ->
  cache_sound context s -> boolean eval c s = Ok (b, s') ->
  evaluateBillingCondition compiled c (now context) = Some b /\ cache_sound context s'.
Proof.
  intros (_ & Hd & _) Hc Hs (v & s1 & He & Hb)%st_bind_Ok.
  destruct (time_condition_functions c Hd Hc) as [Hv Hf].
  destruct (rv_value v) eqn:Hrv; try done. injection Hb as <- <-.
  assert (agree context (clock_context (now context)) header_map [] (uses_variable c) (uses_function c))
    as Hag.
  { constructor; [intros x Hx; by destruct (Hv x)|..]; try (intros Hx; apply Hf in Hx; done).
    done. }
  pose proof He as He0. rewrite (evaluate_agree compiled _ _ _ _ c Hag s) in He.
  assert (related (clock_context (now context)) s (initial_state compiled)) as Hrel
    by (split; [exact Hs|split; [done|simpl; lia]]).
  destruct (evaluate_sim compiled (clock_context (now context)) [] c _ _ _ _ Hrel He) as (s2 & He2 & Hr2).
  split; [|apply Hr2]. unfold evaluateBillingCondition, run_node. simpl.
  fold (clock_context (now context)). by rewrite He2, Hrv.
Qed.

Abbreviation current := (tier_current compiled (now context)).

Definition path_current (path : list (ExpressionNode * bool)) : bool :=
  forallb (fun entry => bool_decide
    (evaluateBillingCondition compiled (fst entry) (now context) = Some (snd entry))) path.

Lemma time_leaf_inv n path source ts : time_leaf source n path = Ok (Some ts) ->
  exists tiers, readTokenTierChain n = Some tiers /\ ts = time_tiers source path tiers.
Proof.
  unfold time_leaf. destruct (readTokenTierChain n); [|done]. destruct path; [done|].
  intros [= <-]. eauto.
Qed.

(** Every tier of a branch carries the conditions that lead to the branch. *)
Lemma branch_path source n path ts t : timeTierBranches source n path = Ok (Some ts) -> t ∈ ts ->
  exists rest, tm_timeConditions t = path ++ rest.
Proof.
  assert (Hleaf : forall n path ts t, time_leaf source n path = Ok (Some ts) -> t ∈ ts ->
    exists rest, tm_timeConditions t = path ++ rest).
  { intros m p l x Hl Hx. destruct (time_leaf_inv _ _ _ _ Hl) as (tiers & _ & ->). apply list_elem_of_fmap in Hx as (y & -> & _).
    exists []. by rewrite app_nil_r. }
  revert path ts t. induction n as [| | | | |sp c y no _ IHy IHn] using node_ind';
    intros path ts t; cbn [timeTierBranches]; try apply Hleaf.
  intros (b & _ & Hb)%res_bind_Ok. destruct b; [|by eapply Hleaf].
  apply res_bind_Ok in Hb as (ys & Hys & Hb). apply res_bind_Ok in Hb as (ns & Hns & Hb).
  destruct ys as [ys|], ns as [ns|]; try done. injection Hb as <-.
  intros [Ht|Ht]%elem_of_app;
    [destruct (IHy _ _ _ Hys Ht) as [rest ->]|destruct (IHn _ _ _ Hns Ht) as [rest ->]];
    rewrite <- app_assoc; eauto.
Qed.

Lemma filter_none {A} (f : A -> bool) l : (forall x, x ∈ l -> f x = false) -> List.filter f l = [].
Proof.
  induction l as [|x l IH]; intros Hl; [done|]. simpl. rewrite Hl by by left.
  apply IH. intros y Hy. apply Hl. by right.
Qed.

Lemma filter_all {A} (f : A -> bool) l : (forall x, x ∈ l -> f x = true) -> List.filter f l = l.
Proof.
  induction l as [|x l IH]; intros Hl; [done|]. simpl. rewrite Hl by by left.
  f_equal. apply IH. intros y Hy. apply Hl. by right.
Qed.

(** A branch behind a condition that does not hold has no current tier. *)
Lemma branch_not_current source n path ts : timeTierBranches source n path = Ok (Some ts) ->
  path_current path = false -> List.filter current ts = [].
Proof.
  intros Hts Hp. apply filter_none. intros t Ht. destruct (branch_path _ _ _ _ _ Hts Ht) as [rest Hr].
  unfold tier_current. rewrite Hr, forallb_app. unfold path_current in Hp. by rewrite Hp.
Qed.

Lemma leaf_current source n path ts s v s' : checked n ->
  time_leaf source n path = Ok (Some ts) -> path_current path = true -> eval n s = Ok (v, s') ->
  exists t, List.find (tier_holds context) (tm_tier <$> List.filter current ts) = Some t /\
    tier_outcome context t (plain_sums n) s v s'.
Proof.
  intros Hck Hl Hp He. destruct (time_leaf_inv _ _ _ _ Hl) as (tiers & Ht & ->).
  destruct (chain_eval _ _ _ _ _ _ _ _ Hck Ht He) as (t & Hf & Ho). exists t. split; [|done].
  rewrite filter_all.
  - unfold time_tiers. rewrite <- list_fmap_compose.
    replace (compose tm_tier _) with (fun t : TokenTier => t); [by rewrite list_fmap_id|].
    done.
  - intros x (y & -> & _)%list_elem_of_fmap. exact Hp.
Qed.

Lemma path_current_snoc path c b :
  path_current (path ++ [(c, b)]) =
  path_current path && bool_decide (evaluateBillingCondition compiled c (now context) = Some b).
Proof. unfold path_current. rewrite forallb_app. simpl. by rewrite andb_true_r. Qed.

Lemma current_select source c y no path ys ns b : path_current path = true ->
  evaluateBillingCondition compiled c (now context) = Some b ->
  timeTierBranches source y (path ++ [(c, true)]) = Ok (Some ys) ->
  timeTierBranches source no (path ++ [(c, false)]) = Ok (Some ns) ->
  path_current (path ++ [(c, b)]) = true /\
  List.filter current (ys ++ ns) = List.filter current (if b then ys else ns).
Proof.
  intros Hp Hb Hy Hn. rewrite path_current_snoc, Hp. rewrite bool_decide_eq_true_2 by done.
  split; [done|]. rewrite List.filter_app. destruct b.
  - rewrite (branch_not_current _ _ _ _ Hn); [by rewrite app_nil_r|].
    rewrite path_current_snoc, Hp, bool_decide_eq_false_2; [done|]. by rewrite Hb.
  - rewrite (branch_not_current _ _ _ _ Hy); [done|].
    rewrite path_current_snoc, Hp, bool_decide_eq_false_2; [done|]. by rewrite Hb.
Qed.

Lemma tier_outcome_frame t (P Q : Prop) s s1 v s2 d : (Q -> P) -> fixedPrice s1 = fixedPrice s ->
  tier_outcome context t P s1 v s2 -> tier_outcome context t Q s v (set_depth d s2).
Proof.
  intros HPQ Hf [Hl Ho]. split; [done|]. revert Ho. destruct (tt_fixedPrice t); simpl; [done|].
  rewrite Hf. naive_solver.
Qed.

(** The tier the evaluator charges is the first current tier whose token
    conditions hold. *)
Lemma branch_current source n path ts s v s' : checked n -> cache_sound context s ->
  timeTierBranches source n path = Ok (Some ts) -> path_current path = true ->
  eval n s = Ok (v, s') ->
  exists t, List.find (tier_holds context) (tm_tier <$> List.filter current ts) = Some t /\
    tier_outcome context t (plain_sums n) s v s'.
Proof.
  revert path ts s v s'. induction n as [sp k|sp k|sp f args|sp o a|sp o a b|sp c y no _ IHy IHn]
    using node_ind'; intros path ts s v s' Hck Hs Hts Hp He;
    try (by eapply (leaf_current source)).
  cbn [timeTierBranches] in Hts. apply res_bind_Ok in Hts as (time & Htime & Hts).
  destruct time; [|by eapply (leaf_current source)].
  apply res_bind_Ok in Hts as (ys & Hys & Hts). apply res_bind_Ok in Hts as (ns & Hns & Hts).
  destruct ys as [ys|], ns as [ns|]; try done. injection Hts as <-.
  assert (Hcc : checked c) by (apply (checked_child _ _ Hck); by left).
  apply evaluate_inv in He as (s1 & Hn & ->). cbn [evaluateNode] in Hn.
  apply st_bind_Ok in Hn as (b & s2 & Hb & Hn). apply st_bind_Ok in Hn as (u & s3 & Hmark & Hbr).
  destruct (condition_decided c (set_depth (S (rt_depth s)) s) b s2 Hcc Htime Hs Hb) as [Hdec Hs2].
  destruct (current_select source c y no path ys ns b Hp Hdec Hys Hns) as [Hpb ->].
  assert (fixedPrice s3 = fixedPrice s /\ cache_sound context s3) as [Hf3 Hs3].
  { apply st_bind_Ok in Hb as (vc & s4 & Hvc & Hb). destruct (rv_value vc); try done.
    injection Hb as -> <-. destruct Hcc as (Hw & Hd & Ht).
    destruct (time_condition_functions c Hd Htime) as [_ Hfn].
    assert (fixedPrice s4 = fixedPrice s) as Hf4.
    { assert (Hnf : ~ uses_function c Ffixed) by (intros Hu%Hfn; done).
      pose proof (eval_same_price compiled context header_map c _ _ _
        (conj Hw (conj Hd Ht)) Hnf Hvc) as [Hf4 _]. exact Hf4. }
    destruct b; [|by injection Hmark as <- <-]. unfold mark_rule in Hmark.
    by destruct (list_find _ _) as [[i r]|]; injection Hmark as <- <-. }
  destruct b.
  - destruct (IHy _ _ _ _ _ ltac:(apply (checked_child _ _ Hck); right; by left) Hs3 Hys Hpb Hbr)
      as (t & Hfind & Ho).
    exists t. split; [done|]. eapply tier_outcome_frame; [|exact Hf3|exact Ho].
    intros Hpl. eapply plain_sums_sub; [done|]. apply postorder_child. right. by left.
  - destruct (IHn _ _ _ _ _ ltac:(apply (checked_child _ _ Hck); right; right; by left) Hs3 Hns Hpb Hbr)
      as (t & Hfind & Ho).
    exists t. split; [done|]. eapply tier_outcome_frame; [|exact Hf3|exact Ho].
    intros Hpl. eapply plain_sums_sub; [done|]. apply postorder_child. right. right. by left.
Qed.
End TimeTiers.

(** ** Properties *)

(** What a summary tier says about a successful evaluation. *)
Definition shows (ctx : BillingSimulationContext) (t : TokenTier) (plain : Prop) (cost : f64)
    (price : option f64) (tier : jstr) : Prop :=
  tier = tt_label t /\ price = tt_fixedPrice t /\
  match tt_fixedPrice t with
  | Some x => cost = fmul x million
  | None => plain -> token_cost ctx (tt_prices t) = Some cost
  end.

Lemma shows_outcome ctx t P c s v cost : tier_outcome ctx t P (initial_state c) v s ->
  billable (rv_value v) = Some cost -> shows ctx t P cost (fixedPrice s) (matchedTier s).
Proof.
  intros [Hl Ho] (Hv & _ & _)%billable_spec. split; [done|].
  destruct (tt_fixedPrice t); simpl in Ho.
  - destruct Ho as [-> Hx]. split; [done|]. congruence.
  - destruct Ho as [-> Hx]. split; [done|]. intros Hp. destruct (Hx Hp) as (x & -> & Hvx). congruence.
Qed.

(** C2: the token tier summary of an expression shows what is charged: when an
    expression that is a chain of tiers evaluates, the matched tier, the fixed
    price and the cost are those of the first listed tier whose conditions hold
    for the token counts (the cost of a token tier being the sum, in the listed
    order, of count times price, for sums written without parentheses). *)
Theorem token_summary_correct `{Host} (source : jstr) (c : CompiledBillingExpression)
    (ctx : BillingSimulationContext) tiers cost u price tier rules :
  compile source = Ready c -> readTokenTierChain (c_ast c) = Some tiers ->
  evaluateBillingExpression (Ready c) ctx = Success cost u price tier rules ->
  exists t, List.find (tier_holds ctx) tiers = Some t /\
    shows ctx t (plain_sums (c_ast c)) cost price tier.
Proof.
  intros Hc Ht (v & s & Hr & Hb & -> & -> & -> & ->)%success_inv.
  apply run_node_inv in Hr as (hm & He). apply compile_ready_ok in Hc.
  destruct (chain_eval c ctx hm _ _ _ _ _ (compiled_checked _ _ Hc) Ht He) as (t & Hf & Ho).
  exists t. split; [done|]. by eapply shows_outcome.
Qed.

Definition sample_tiers : jstr :=
  js "p <= 200 ? tier('small', p * 2 + c * 3) : tier('large', p * 4)".

Lemma token_summary_correct_witness :
  exists t, List.find (tier_holds sample_context)
      (default [] (readTokenTierChain (c_ast (compiled_or sample_tiers)))) = Some t /\
    shows sample_context t (plain_sums (c_ast (compiled_or sample_tiers))) (f64_of_Z 4000) None (js "large").
Proof.
  apply (@token_summary_correct utc_host sample_tiers (compiled_or sample_tiers) sample_context
           (default [] (readTokenTierChain (c_ast (compiled_or sample_tiers))))
           (f64_of_Z 4000) Utoken None (js "large") []); vm_compute; reflexivity.
Defined.

(** The tiers a time-dependent summary marks as current contain what is
    charged at that time: when the expression evaluates at the time of the
    summary, the first current tier whose token conditions hold is the tier
    that is matched, with its price and cost. *)
Theorem current_tiers_correct `{Host} (source : jstr) (c : CompiledBillingExpression)
    (ctx : BillingSimulationContext) tiers currentTiers cost u price tier rules :
  compile source = Ready c ->
  readTimeTokenPricing (Ready c) (Some (now ctx)) = Ok (Some (tiers, currentTiers)) ->
  evaluateBillingExpression (Ready c) ctx = Success cost u price tier rules ->
  exists t, List.find (tier_holds ctx) (tm_tier <$> currentTiers) = Some t /\
    shows ctx t (plain_sums (c_ast c)) cost price tier.
Proof.
  intros Hc Ht (v & s & Hr & Hb & -> & -> & -> & ->)%success_inv.
  apply run_node_inv in Hr as (hm & He). apply compile_ready_ok in Hc.
  apply res_bind_Ok in Ht as (ts & Hts & Ht). destruct ts as [ts|]; [|done]. injection Ht as <- <-.
  assert (Hcs : cache_sound ctx (initial_state c)) by by intros z w.
  destruct (branch_current c ctx hm _ _ _ _ _ _ _ (compiled_checked _ _ Hc) Hcs Hts eq_refl He)
    as (t & Hf & Ho).
  exists t. split; [done|]. by eapply shows_outcome.
Qed.

Definition sample_time_tiers : jstr :=
  js "hour('UTC') >= 9 ? tier('day', p * 4) : tier('night', p * 2)".

Definition sample_current : list TimeTokenTier * list TimeTokenTier :=
  match readTimeTokenPricing (H := utc_host) (Ready (compiled_or sample_time_tiers)) (Some (Some 0%Z)) with
  | Ok (Some r) => r
  | _ => ([], [])
  end.

Lemma current_tiers_correct_witness :
  exists t, List.find (tier_holds sample_context) (tm_tier <$> snd sample_current) = Some t /\
    shows sample_context t (plain_sums (c_ast (compiled_or sample_time_tiers))) (f64_of_Z 4000) None
      (js "day").
Proof.
  apply (@current_tiers_correct utc_host sample_time_tiers (compiled_or sample_time_tiers)
           sample_context (fst sample_current) (snd sample_current)
           (f64_of_Z 4000) Utoken None (js "day") []); vm_compute; reflexivity.
Defined.
