(* ===== verification/BillingVisual.v ===== *)
(** * Billing expressions: the visual editor's document

    Model of [billing-expression/visual.ts]: reading an expression into a tree
    of tiers and branches that a form can edit, and writing the tree back while
    reusing the spans of the source that were not touched.  An [origin] is a
    node of the tree of [document.source]; [===] on origins compares spans. *)

From stdpp Require Import base list numbers strings.
From Stdlib Require Import ZArith SpecFloat Lia.
From S2P Require Import Prelude.
From S2P Require Import JsString.
From S2P Require Import JsNumber.
From S2P Require Import JsValue.
From S2P Require Import BillingTypes.
From S2P Require Import BillingParser.
From S2P Require Import BillingCompile.
From S2P Require Import BillingRuntime.
From S2P Require Import BillingDisplay.

(** ** Documents *)

Inductive VisualProbe := ProbeVar (v : TokenVariable) | ProbeTime (t : TimeFunction).

Definition probe_name (p : VisualProbe) : jstr :=
  match p with
  | ProbeVar v => variable_name v
  | ProbeTime t => time_name t
  end.

Inductive VisualCondition :=
| VComparison (id : jstr) (origin : option ExpressionNode) (probe : VisualProbe) (timezone : jstr)
    (operator : binop) (value : jstr)
| VAll (id : jstr) (origin : option ExpressionNode) (children : list VisualCondition)
| VAny (id : jstr) (origin : option ExpressionNode) (children : list VisualCondition)
| VNot (id : jstr) (origin : option ExpressionNode) (child : VisualCondition).

Record VisualPrice := {
  vp_variable : TokenVariable;
  vp_value : jstr;
  vp_origin : option ExpressionNode;
}.

Inductive VisualPricingNode :=
| VTier (id : jstr) (origin : option ExpressionNode) (label : jstr) (prices : list VisualPrice)
    (unit_ : BillingUnit) (fixedPrice : jstr)
| VBranch (id : jstr) (origin : option ExpressionNode) (condition : VisualCondition)
    (yes no : VisualPricingNode).

Record VisualBillingDocument := { vd_source : jstr; vd_root : VisualPricingNode }.
Record VisualBillingIssue := { vi_id : jstr; vi_message : jstr }.

Inductive VisualBillingSerialization :=
| SerOk (source : jstr)
| SerIssues (issues : list VisualBillingIssue).

Definition condition_origin (c : VisualCondition) : option ExpressionNode :=
  match c with
  | VComparison _ o _ _ _ _ | VAll _ o _ | VAny _ o _ | VNot _ o _ => o
  end.

Definition pricing_id (n : VisualPricingNode) : jstr :=
  match n with VTier id _ _ _ _ _ => id | VBranch id _ _ _ _ => id end.

(** ** New identities *)

(** [nextId] is the module's counter. *)
Definition visualNodeId (nextId : N) : jstr * N := (js "draft-" ++ N_digits (nextId + 1), (nextId + 1)%N).

Definition createEmptyVisualCondition (nextId : N) : VisualCondition * N :=
  let '(id, nextId') := visualNodeId nextId in
  (VComparison id None (ProbeTime Fhour) (js "Asia/Shanghai") Bge [], nextId').

(** ** Reading *)

Definition span_id (prefix : jstr) (n : ExpressionNode) : jstr :=
  prefix ++ nat_digits (node_start n) ++ js "-" ++ nat_digits (node_end n).

Definition is_comparison (o : binop) : bool :=
  match o with Blt | Ble | Bgt | Bge | Beq | Bne => true | _ => false end.

(** The probe of a comparison, and its time zone. *)
Definition read_probe (n : ExpressionNode) : option (VisualProbe * jstr) :=
  match n with
  | Var _ v => if is_tier_variable v then Some (ProbeVar v, []) else None
  | Call _ (Ftime t) (arg :: _) => zone ← string_literal arg; Some (ProbeTime t, zone)
  | _ => None
  end.

(** The recursion goes through the flattened operands; [fuel] bounds its depth
    and the number of nodes suffices (see [readVisualCondition_unfold]). *)
Fixpoint read_condition (fuel : nat) (n : ExpressionNode) : option VisualCondition :=
  match fuel with
  | O => None
  | S f =>
      let id := span_id (js "condition-") n in
      match n with
      | Unary _ Unot operand => child ← read_condition f operand; Some (VNot id (Some n) child)
      | Binary _ Band _ _ =>
          children ← mapM (read_condition f) (flattenBinary n Band); Some (VAll id (Some n) children)
      | Binary _ Bor _ _ =>
          children ← mapM (read_condition f) (flattenBinary n Bor); Some (VAny id (Some n) children)
      | Binary _ o l r =>
          if is_comparison o then
            x ← number_literal r;
            '(probe, timezone) ← read_probe l;
            Some (VComparison id (Some n) probe timezone o (number_to_string x))
          else None
      | _ => None
      end
  end.

Definition readVisualCondition (n : ExpressionNode) : option VisualCondition :=
  read_condition (node_size n) n.

(** The loop of [readVisualPricing] over the terms. *)
Fixpoint read_prices (terms : list ExpressionNode) (prices : list VisualPrice)
    : option (list VisualPrice) :=
  match terms with
  | [] => Some prices
  | (Binary _ Bmul (Var _ v) r as term) :: terms' =>
      match number_literal r with
      | Some x =>
          if bool_decide (v = Vlen) || fltb x fzero || bool_decide (v ∈ vp_variable <$> prices)
          then None
          else read_prices terms'
                 (prices ++ [{| vp_variable := v; vp_value := number_to_string x;
                                vp_origin := Some term |}])
      | None => None
      end
  | _ => None
  end.

(** [String(value)] of a literal. *)
Definition literal_text (v : litval) : jstr :=
  match v with
  | LNull => js "null"
  | LBool b => if b then js "true" else js "false"
  | LNum x _ => number_to_string x
  | LStr s => s
  end.

(** A [tier] call with the label [label] and the price [body]. *)
Definition read_tier (n : ExpressionNode) (label : jstr) (body : ExpressionNode)
    : option VisualPricingNode :=
  let id := span_id (js "pricing-") n in
  match body with
  | Call _ Ffixed (Literal _ v :: _) =>
      Some (VTier id (Some n) label [] Urequest (literal_text v))
  | _ => prices ← read_prices (flattenBinary body Badd) [];
         Some (VTier id (Some n) label prices Utoken [])
  end.

Fixpoint readVisualPricing (n : ExpressionNode) : option VisualPricingNode :=
  match n with
  | Conditional _ c y no =>
      match readVisualCondition c, readVisualPricing y, readVisualPricing no with
      | Some condition, Some yes, Some no' =>
          Some (VBranch (span_id (js "pricing-") n) (Some n) condition yes no')
      | _, _, _ => None
      end
  | Call _ Ftier (label :: body :: _) => l ← string_literal label; read_tier n l body
  | _ => None
  end.

(** ** Writing *)

(** [s.slice(a)] and [s.slice(0, b)] for indices that may be negative. *)
Definition slice_index (s : jstr) (i : Z) : nat :=
  if (i <? 0)%Z then Z.to_nat (Z.of_nat (length s) + i) else Z.to_nat i.
Definition slice_from (s : jstr) (a : Z) : jstr := drop (slice_index s a) s.
Definition slice_to (s : jstr) (b : Z) : jstr := take (slice_index s b) s.

Definition source_of (source : jstr) (n : ExpressionNode) : jstr :=
  slice source (node_start n) (node_end n).

(** [patches.sort((a, b) => b.node.start - a.node.start)] *)
Fixpoint insert_patch (p : ExpressionNode * jstr) (l : list (ExpressionNode * jstr))
    : list (ExpressionNode * jstr) :=
  match l with
  | [] => [p]
  | q :: l' => if Nat.leb (node_start (fst q)) (node_start (fst p)) then p :: l else q :: insert_patch p l'
  end.

Definition sort_patches (l : list (ExpressionNode * jstr)) : list (ExpressionNode * jstr) :=
  foldr insert_patch [] l.

(** One round of the loop of [patchSource]. *)
Definition apply_patch (origin : ExpressionNode) (result : jstr) (p : ExpressionNode * jstr) : jstr :=
  let base := Z.of_nat (node_start origin) in
  slice_to result (Z.of_nat (node_start (fst p)) - base) ++ snd p
  ++ slice_from result (Z.of_nat (node_end (fst p)) - base).

Definition patchSource (source : jstr) (origin : ExpressionNode)
    (patches : list (ExpressionNode * jstr)) : jstr :=
  foldl (apply_patch origin) (source_of source origin) (sort_patches patches).

(** The pattern test and the conversion of [parseNonNegativeNumber]. *)
Definition parseNonNegativeNumber (value : jstr) : option f64 :=
  match scan_decimal (trim value) with
  | Some d =>
      match dec_rest d with
      | [] => let number := number_of_string value in
              if is_finite number && fleb fzero number then Some number else None
      | _ => None
      end
  | None => None
  end.

(** [origin === node] *)
Definition same_origin (o : option ExpressionNode) (n : ExpressionNode) : bool :=
  match o with
  | Some m => same_node m n
  | None => false
  end.

Definition TIME_DOMAINS (t : TimeFunction) : Z * Z :=
  match t with
  | Fhour => (0, 23)
  | Fminute => (0, 59)
  | Fweekday => (0, 6)
  | Fmonth => (1, 12)
  | Fday => (1, 31)
  end%Z.

(** [valid] of a comparison. *)
Definition valid_value (probe : VisualProbe) (operator : binop) (value : option f64) : bool :=
  match value with
  | None => false
  | Some x =>
      match probe with
      | ProbeVar _ => true
      | ProbeTime t =>
          let '(lo, hi) := TIME_DOMAINS t in
          is_integer x && fleb (f64_of_Z lo) x
          && fleb x (f64_of_Z (hi + (match operator with Blt => 1 | _ => 0 end)))
      end
  end.

Abbreviation issues := (list VisualBillingIssue).

Definition invalid_value : jstr := js "Enter a valid condition value.".
Definition invalid_zone : jstr := js "Choose a valid IANA timezone.".
Definition empty_group : jstr := js "Add at least one condition to this group.".
Definition invalid_price : jstr := js "Enter a finite, non-negative price.".
Definition no_price : jstr := js "Include at least one price variable.".
Definition not_visual : jstr :=
  js "This expression cannot be edited visually without losing information.".

Definition push (id message : jstr) (acc : issues) : issues := acc ++ [{| vi_id := id; vi_message := message |}].

(** The zone the origin of a comparison was written with: [null], or the value
    of the first argument of the call on its left. *)
Definition original_zone (origin : option ExpressionNode) : option litval :=
  match origin with
  | Some (Binary _ _ (Call _ _ (Literal _ v :: _)) _) => Some v
  | _ => None
  end.

(** [oldProbe.args[0].value === node.timezone] *)
Definition literal_is (v : litval) (s : jstr) : bool :=
  match v with LStr t => jeqb t s | _ => false end.

(** [value === literal.value] where [value] is a number or [null]. *)
Definition number_is (value : option f64) (v : litval) : bool :=
  match value, v with
  | Some x, LNum y _ => feqb x y
  | None, LNull => true
  | _, _ => false
  end.

(** [probeText]: the source of the old probe when it still fits. *)
Definition probe_text (source : jstr) (old : ExpressionNode) (probe : VisualProbe) (timezone text : jstr)
    : jstr :=
  match old, probe with
  | Var _ v, ProbeVar w => if decide (v = w) then source_of source old else text
  | Call _ (Ftime t) (Literal _ z :: _), ProbeTime t' =>
      if bool_decide (t = t') && literal_is z timezone then source_of source old else text
  | _, _ => text
  end.

Section Write.
Context `{Host}.

(** The issue of a changed time zone the host does not know. *)
Definition zone_issues (id : jstr) (origin : option ExpressionNode) (probe : VisualProbe)
    (timezone : jstr) (acc : issues) : issues :=
  match probe with
  | ProbeVar _ => acc
  | ProbeTime _ =>
      let unchanged := match original_zone origin with
                       | Some v => literal_is v timezone
                       | None => false
                       end in
      if unchanged then acc
      else match trim timezone with
           | [] => push id invalid_zone acc
           | z => match resolved_zone z with
                  | Some _ => acc
                  | None => push id invalid_zone acc
                  end
           end
  end.

Definition write_comparison (source id : jstr) (origin : option ExpressionNode) (probe : VisualProbe)
    (timezone : jstr) (operator : binop) (value : jstr) (acc : issues) : jstr * issues :=
  let number := parseNonNegativeNumber value in
  let acc1 := if valid_value probe operator number then acc else push id invalid_value acc in
  let acc2 := zone_issues id origin probe timezone acc1 in
  let text := match probe with
              | ProbeTime t => time_name t ++ js "(" ++ json_stringify timezone ++ js ")"
              | ProbeVar v => variable_name v
              end in
  let fresh := js "(" ++ text ++ js " " ++ binop_name operator ++ js " " ++ value ++ js ")" in
  match origin with
  | Some (Binary _ o l r as node) =>
      if decide (o = operator) then
        let valueText :=
          match r with
          | Literal _ v => if number_is number v then source_of source r else value
          | _ => value
          end in
        (patchSource source node
           [(l, probe_text source l probe timezone text); (r, valueText)], acc2)
      else (fresh, acc2)
  | _ => (fresh, acc2)
  end.

(** The children of a group are the operands of its origin. *)
Definition group_unchanged (original : list ExpressionNode) (children : list VisualCondition) : bool :=
  Nat.eqb (length original) (length children)
  && forallb (fun '(child, c) => same_origin (condition_origin c) child) (zip original children).

Definition write_group (source : jstr) (operator : binop) (origin : option ExpressionNode)
    (children : list VisualCondition) (texts : list jstr) : jstr :=
  let fresh := js "(" ++ join (js " " ++ binop_name operator ++ js " ")
                           ((fun t => js "(" ++ t ++ js ")") <$> texts) ++ js ")" in
  match origin with
  | Some (Binary _ o _ _ as node) =>
      if decide (o = operator) then
        let original := flattenBinary node operator in
        if group_unchanged original children then patchSource source node (zip original texts)
        else fresh
      else fresh
  | _ => fresh
  end.

(** [children.map((child) => writeVisualCondition(child, source, issues))] *)
Definition write_list (write : VisualCondition -> issues -> jstr * issues)
    : list VisualCondition -> issues -> list jstr * issues :=
  fix go l acc :=
    match l with
    | [] => ([], acc)
    | c :: l' =>
        let '(t, acc1) := write c acc in
        let '(ts, acc2) := go l' acc1 in
        (t :: ts, acc2)
    end.

Fixpoint writeVisualCondition (source : jstr) (node : VisualCondition) (acc : issues) : jstr * issues :=
  match node with
  | VNot _ origin child =>
      let '(text, acc1) := writeVisualCondition source child acc in
      match origin with
      | Some (Unary _ _ operand as n) =>
          if same_origin (condition_origin child) operand
          then (patchSource source n [(operand, text)], acc1)
          else (js "!(" ++ text ++ js ")", acc1)
      | _ => (js "!(" ++ text ++ js ")", acc1)
      end
  | VAll id origin children =>
      let acc1 := match children with [] => push id empty_group acc | _ => acc end in
      let '(texts, acc2) := write_list (writeVisualCondition source) children acc1 in
      (write_group source Band origin children texts, acc2)
  | VAny id origin children =>
      let acc1 := match children with [] => push id empty_group acc | _ => acc end in
      let '(texts, acc2) := write_list (writeVisualCondition source) children acc1 in
      (write_group source Bor origin children texts, acc2)
  | VComparison id origin probe timezone operator value =>
      write_comparison source id origin probe timezone operator value acc
  end.

Definition visualConditionExpression (node : VisualCondition) (source : jstr) : option jstr :=
  match writeVisualCondition source node [] with
  | (expression, []) => Some expression
  | _ => None
  end.

(** [labelText] of a tier whose origin has the label [node]. *)
Definition label_text (source : jstr) (node : ExpressionNode) (label : jstr) : jstr :=
  match node with
  | Literal _ v => if literal_is v label then source_of source node else json_stringify label
  | _ => json_stringify label
  end.

Definition fixed_text (source : jstr) (price : ExpressionNode) (value : option f64) (fixedPrice : jstr)
    : jstr :=
  match price with
  | Call _ Ffixed (Literal _ v as amount :: _) =>
      patchSource source price
        [(amount, if number_is value v then source_of source amount else fixedPrice)]
  | _ => js "fixed(" ++ fixedPrice ++ js ")"
  end.

Definition write_fixed (source id : jstr) (origin : option ExpressionNode) (label fixedPrice : jstr)
    (acc : issues) : jstr * issues :=
  let value := parseNonNegativeNumber fixedPrice in
  let ok := match value with Some x => is_finite (fmul x million) | None => false end in
  let acc1 := if ok then acc else push (id ++ js ":fixed") invalid_price acc in
  match origin with
  | Some (Call _ Ftier (l :: price :: _) as node) =>
      (patchSource source node
         [(l, label_text source l label); (price, fixed_text source price value fixedPrice)], acc1)
  | _ => (js "tier(" ++ json_stringify label ++ js ", fixed(" ++ fixedPrice ++ js "))", acc1)
  end.

(** One round of the loop over the prices: the term, its patch, the issues. *)
Definition write_price (source id : jstr) (price : VisualPrice) (acc : issues)
    : jstr * option (ExpressionNode * jstr) * issues :=
  let value := parseNonNegativeNumber (vp_value price) in
  let acc1 := match value with
              | Some _ => acc
              | None => push (id ++ js ":" ++ variable_name (vp_variable price)) invalid_price acc
              end in
  match vp_origin price with
  | Some (Binary _ _ _ (Literal _ v as r) as node) =>
      let text := if number_is value v then source_of source r else vp_value price in
      (patchSource source node [(r, text)], Some (r, text), acc1)
  | _ => (variable_name (vp_variable price) ++ js " * " ++ vp_value price, None, acc1)
  end.

Fixpoint write_prices (source id : jstr) (prices : list VisualPrice) (acc : issues)
    : list jstr * list (ExpressionNode * jstr) * issues :=
  match prices with
  | [] => ([], [], acc)
  | p :: prices' =>
      let '(term, patch, acc1) := write_price source id p acc in
      let '(terms, patches, acc2) := write_prices source id prices' acc1 in
      (term :: terms, option_list patch ++ patches, acc2)
  end.

Definition prices_unchanged (original : list ExpressionNode) (prices : list VisualPrice) : bool :=
  Nat.eqb (length original) (length prices)
  && forallb (fun '(term, p) => same_origin (vp_origin p) term) (zip original prices).

Definition write_tokens (source id : jstr) (origin : option ExpressionNode) (label : jstr)
    (prices : list VisualPrice) (acc : issues) : jstr * issues :=
  let acc1 := match prices with [] => push id no_price acc | _ => acc end in
  let '(terms, valuePatches, acc2) := write_prices source id prices acc1 in
  match origin with
  | Some (Call _ Ftier (l :: body :: _) as node) =>
      let labelText := label_text source l label in
      if prices_unchanged (flattenBinary body Badd) prices
      then (patchSource source node ((l, labelText) :: valuePatches), acc2)
      else (patchSource source node [(l, labelText); (body, join (js " + ") terms)], acc2)
  | _ => (js "tier(" ++ json_stringify label ++ js ", " ++ join (js " + ") terms ++ js ")", acc2)
  end.

Fixpoint writeVisualPricing (source : jstr) (node : VisualPricingNode) (acc : issues) : jstr * issues :=
  match node with
  | VBranch _ origin condition yes no =>
      let '(c, acc1) := writeVisualCondition source condition acc in
      let '(y, acc2) := writeVisualPricing source yes acc1 in
      let '(n, acc3) := writeVisualPricing source no acc2 in
      match origin with
      | Some (Conditional _ oc oy on as o) => (patchSource source o [(oc, c); (oy, y); (on, n)], acc3)
      | _ => (js "(" ++ c ++ js ") ? (" ++ y ++ js ") : (" ++ n ++ js ")", acc3)
      end
  | VTier id origin label prices Urequest fixedPrice => write_fixed source id origin label fixedPrice acc
  | VTier id origin label prices Utoken _ => write_tokens source id origin label prices acc
  end.

Definition serializeVisualBillingDocument (document : VisualBillingDocument)
    : VisualBillingSerialization :=
  let '(body, acc) := writeVisualPricing (vd_source document) (vd_root document) [] in
  match acc with
  | _ :: _ => SerIssues acc
  | [] =>
      match compile (vd_source document) with
      | NotReady _ => SerIssues (push (pricing_id (vd_root document)) not_visual [])
      | Ready original =>
          let source := take (node_start (c_ast original)) (vd_source document) ++ body
                        ++ drop (node_end (c_ast original)) (vd_source document) in
          match compile source with
          | NotReady _ => SerIssues (push (pricing_id (vd_root document)) invalid_value [])
          | Ready _ => SerOk source
          end
      end
  end.

Definition parseVisualBillingDocument (source : jstr) : option VisualBillingDocument :=
  match compile source with
  | NotReady _ => None
  | Ready compiled =>
      root ← readVisualPricing (c_ast compiled);
      let document := {| vd_source := source; vd_root := root |} in
      match serializeVisualBillingDocument document with
      | SerOk _ => Some document
      | SerIssues _ => None
      end
  end.
End Write.
