(* ===== verification/BillingVisualFacts.v ===== *)
(** * Billing expressions: editing visually loses nothing

    Writing a document that was read from a source and not edited gives back
    that source, character for character; the identities of the parts of a
    document are distinct. *)

From stdpp Require Import base list numbers strings gmap.
From Stdlib Require Import ZArith SpecFloat Lia.
From S2P Require Import Prelude.
From S2P Require Import JsString.
From S2P Require Import JsNumber.
From S2P Require Import JsNumberFacts.
From S2P Require Import JsValue.
From S2P Require Import BillingTypes.
From S2P Require Import BillingParser.
From S2P Require Import BillingSpans.
From S2P Require Import BillingCompile.
From S2P Require Import BillingCompileFacts.
From S2P Require Import BillingRuntime.
From S2P Require Import BillingRuntimeFacts.
From S2P Require Import BillingPricing.
From S2P Require Import BillingDisplay.
From S2P Require Import BillingDisplayFacts.
From S2P Require Import BillingVisual.

(** ** Reading conditions *)

Lemma flattenBinary_size n o m : m ∈ flattenBinary n o -> node_size m <= node_size n.
Proof.
  induction n as [| | | |sp p a b IHa IHb|] using node_ind'; cbn [flattenBinary];
    try (rewrite list_elem_of_singleton; by intros ->).
  destruct (decide (p = o)); [|rewrite list_elem_of_singleton; by intros ->].
  rewrite elem_of_app. cbn [node_size]. intros [Hm|Hm]; [apply IHa in Hm|apply IHb in Hm]; lia.
Qed.

Lemma flattenBinary_smaller sp o l r m : m ∈ flattenBinary (Binary sp o l r) o ->
  node_size m < node_size (Binary sp o l r).
Proof.
  cbn [flattenBinary]. rewrite decide_True by done. rewrite elem_of_app. cbn [node_size].
  intros [Hm|Hm]; apply flattenBinary_size in Hm; lia.
Qed.

Lemma mapM_ext_elem {A B} (f g : A -> option B) l : (forall x, x ∈ l -> f x = g x) ->
  mapM f l = mapM g l.
Proof.
  induction l as [|x l IH]; intros Hl; [done|]. simpl. rewrite Hl by by left.
  destruct (g x); simpl; [|done]. rewrite IH; [done|]. intros y Hy. apply Hl. by right.
Qed.

(** More fuel than nodes changes nothing. *)
Lemma read_condition_fuel f1 f2 n : node_size n <= f1 -> node_size n <= f2 ->
  read_condition f1 n = read_condition f2 n.
Proof.
  revert f2 n. induction f1 as [|f1 IH]; intros f2 n H1 H2.
  { pose proof (node_size_unfold n). lia. }
  destruct f2 as [|f2]; [pose proof (node_size_unfold n); lia|].
  cbn [read_condition]. destruct n as [| | |sp o a|sp o l r|]; try done.
  - destruct o; try done. rewrite (IH f2); [done|cbn [node_size] in *; lia..].
  - destruct o; try done.
    + rewrite (mapM_ext_elem _ (read_condition f2)); [done|]. intros m Hm%flattenBinary_smaller.
      apply IH; lia.
    + rewrite (mapM_ext_elem _ (read_condition f2)); [done|]. intros m Hm%flattenBinary_smaller.
      apply IH; lia.
Qed.

Lemma readVisualCondition_unfold n :
  readVisualCondition n =
  let id := span_id (js "condition-") n in
  match n with
  | Unary _ Unot operand => child ← readVisualCondition operand; Some (VNot id (Some n) child)
  | Binary _ Band _ _ =>
      children ← mapM readVisualCondition (flattenBinary n Band); Some (VAll id (Some n) children)
  | Binary _ Bor _ _ =>
      children ← mapM readVisualCondition (flattenBinary n Bor); Some (VAny id (Some n) children)
  | Binary _ o l r =>
      if is_comparison o then
        x ← number_literal r;
        '(probe, timezone) ← read_probe l;
        Some (VComparison id (Some n) probe timezone o (number_to_string x))
      else None
  | _ => None
  end.
Proof.
  unfold readVisualCondition at 1. destruct (node_size n) as [|f] eqn:Hf.
  { pose proof (node_size_unfold n). lia. }
  cbn [read_condition]. cbv zeta. destruct n as [| | |sp o a|sp o l r|]; try done.
  - destruct o; try done. unfold readVisualCondition. rewrite (read_condition_fuel f (node_size a));
      [done|cbn [node_size] in Hf; lia..].
  - destruct o; try done;
      (erewrite mapM_ext_elem; [done|]; intros m Hm%flattenBinary_smaller;
       apply read_condition_fuel; cbn [node_size] in *; lia).
Qed.

Lemma readVisualCondition_origin n c : readVisualCondition n = Some c -> condition_origin c = Some n.
Proof.
  rewrite readVisualCondition_unfold. cbv zeta.
  destruct n as [| | |sp o a|sp o l r|]; try done; destruct o; try done; simpl;
    intros Hc; repeat (apply bind_Some in Hc as (? & _ & Hc)); try (by simplify_eq);
    by case_match; simplify_eq.
Qed.

(** ** Patching with the original text *)

Section Source.
Context (source : jstr).

(** A node of the tree of [source]. *)
Definition located (n : ExpressionNode) : Prop := checked n /\ node_end n <= length source.

Lemma located_sub n m : located n -> m ∈ postorder n -> located m.
Proof.
  intros [Hc He] Hm. split; [by eapply checked_sub|].
  destruct Hc as [Hw _]. destruct (wf_descendant n m Hw Hm) as (_ & _ & ? & _). lia.
Qed.

(** [m] lies within [n]. *)
Definition within (n m : ExpressionNode) : Prop :=
  node_start n <= node_start m /\ node_start m <= node_end m /\ node_end m <= node_end n.

Lemma within_sub n m : located n -> m ∈ postorder n -> within n m.
Proof.
  intros [[Hw _] _] Hm. destruct (wf_descendant n m Hw Hm) as (Hwm & ? & ? & _).
  pose proof (wf_span m Hwm). unfold within. lia.
Qed.

Lemma slice_index_nonneg s a b : (a <= b)%nat ->
  slice_index s (Z.of_nat b - Z.of_nat a) = (b - a)%nat.
Proof. intros. unfold slice_index. destruct (Z.ltb_spec (Z.of_nat b - Z.of_nat a) 0); lia. Qed.

Lemma apply_patch_same o m : within o m -> node_end o <= length source ->
  apply_patch o (source_of source o) (m, source_of source m) = source_of source o.
Proof.
  intros (H1 & H2 & H3) Hl. unfold apply_patch, slice_to, slice_from, source_of. cbn [fst snd].
  rewrite !slice_index_nonneg by lia.
  replace (take (node_start m - node_start o) (slice source (node_start o) (node_end o)))
    with (slice source (node_start o) (node_start m)).
  2: { unfold slice. rewrite firstn_firstn. f_equal. lia. }
  replace (drop (node_end m - node_start o) (slice source (node_start o) (node_end o)))
    with (slice source (node_end m) (node_end o)).
  2: { unfold slice. rewrite skipn_firstn_comm, drop_drop. f_equal; [|f_equal]; lia. }
  rewrite app_assoc, slice_app by lia. apply slice_app; lia.
Qed.

Lemma insert_patch_perm p l : insert_patch p l ≡ₚ p :: l.
Proof.
  induction l as [|q l IH]; simpl; [done|]. destruct (Nat.leb _ _); [done|].
  rewrite IH. apply Permutation_swap.
Qed.

Lemma sort_patches_perm l : sort_patches l ≡ₚ l.
Proof. induction l as [|p l IH]; simpl; [done|]. by rewrite insert_patch_perm, IH. Qed.

(** Patching parts of a node with their own source changes nothing. *)
Lemma patchSource_same o patches : node_end o <= length source ->
  Forall (fun p => within o (fst p) /\ snd p = source_of source (fst p)) patches ->
  patchSource source o patches = source_of source o.
Proof.
  intros Hl Hp. unfold patchSource. rewrite <- (sort_patches_perm patches) in Hp.
  induction Hp as [|[m t] l [Hw Ht] Hf IH]; [done|]. simpl in *. subst t.
  by rewrite apply_patch_same.
Qed.

Lemma patch_sub o patches : located o ->
  Forall (fun p => fst p ∈ postorder o /\ snd p = source_of source (fst p)) patches ->
  patchSource source o patches = source_of source o.
Proof.
  intros Ho Hp. apply patchSource_same; [apply Ho|]. eapply Forall_impl; [exact Hp|].
  intros p [Hin Ht]. split; [by apply within_sub|done].
Qed.

(** ** Numbers *)

Lemma literal_number_ok n x : located n -> number_literal n = Some x ->
  parseNonNegativeNumber (number_to_string x) = Some x /\
  exists sp i, n = Literal sp (LNum x i) /\ number_is (Some x) (LNum x i) = true.
Proof.
  intros [(Hw & _) _] Hn. destruct n as [sp l| | | | |]; try done. destruct l as [| |y i|]; simplify_eq/=.
  destruct Hw as [_ _ _ (Hv & Hf & Hnn & Hz & _) _].
  destruct (number_to_string_reads x Hv Hf Hnn) as (d & Hd & Hr & _ & Hnum & Ht).
  assert (SFabs x = x) as Hx by (destruct x as [[]|[]| |[]]; done).
  split.
  - unfold parseNonNegativeNumber. rewrite Ht, Hd, Hr, Hnum, Hx. by rewrite Hf, Hnn.
  - exists sp, i. split; [done|]. simpl. unfold feqb, SFeqb.
    destruct x as [[]|[]| |[] m e]; try done; simpl; by rewrite Z.compare_refl, Pos.compare_cont_refl.
Qed.
End Source.

(** ** Writing an unedited document *)

Section Unedited.
Context `{Host} (source : jstr).

Abbreviation text := (source_of source).
Abbreviation located := (located source).

Lemma same_node_refl n : same_node n n = true.
Proof. unfold same_node. by apply bool_decide_eq_true. Qed.

Lemma forallb_zip_same {A B} (f : A * B -> bool) (l : list A) (k : list B) :
  Forall2 (fun a b => f (a, b) = true) l k ->
  Nat.eqb (length l) (length k) && forallb f (zip l k) = true.
Proof.
  intros Hf. rewrite (Forall2_length _ _ _ Hf), Nat.eqb_refl. simpl.
  induction Hf as [|a b l k Hab _ IH]; [done|]. simpl. by rewrite Hab.
Qed.

Lemma probe_text_same n probe zone t : read_probe n = Some (probe, zone) ->
  probe_text source n probe zone t = text n.
Proof.
  destruct n as [|sp v|sp f args| | |]; try done; cbn [read_probe].
  - destruct (is_tier_variable v); [|done]. intros [= <- <-]. simpl. by rewrite decide_True.
  - destruct f; try done. destruct args as [|a args]; [done|].
    intros (z & Hz & [= <- <-])%bind_Some. destruct a as [spa l| | | | |]; try done.
    destruct l; simplify_eq/=. by rewrite bool_decide_eq_true_2, jeqb_refl.
Qed.

Lemma comparison_same sp o l r id probe zone x acc : located (Binary sp o l r) ->
  number_literal r = Some x -> read_probe l = Some (probe, zone) ->
  fst (write_comparison source id (Some (Binary sp o l r)) probe zone o (number_to_string x) acc)
  = text (Binary sp o l r).
Proof.
  intros Hloc Hx Hp. unfold write_comparison. rewrite decide_True by done. cbn [fst].
  assert (Hr : located r) by (eapply located_sub; [done|apply postorder_child; right; by left]).
  destruct (literal_number_ok source r x Hr Hx) as (Hparse & spr & i & -> & Hnum).
  rewrite Hparse, Hnum. apply patch_sub; [done|].
  constructor; [|constructor; [|constructor]]; cbn [fst snd].
  - split; [apply postorder_child; by left|]. by apply probe_text_same.
  - split; [apply postorder_child; right; by left|done].
Qed.

(** Writing what was read gives the source of the node. *)
Definition writes_same (n : ExpressionNode) (c : VisualCondition) : Prop :=
  forall acc, fst (writeVisualCondition source c acc) = text n.

Lemma write_list_same ns cs acc : Forall2 writes_same ns cs ->
  fst (write_list (writeVisualCondition source) cs acc) = text <$> ns.
Proof.
  intros Hf. revert acc. induction Hf as [|n c ns cs Hc Hf IH]; intros acc; [done|]. simpl.
  specialize (Hc acc). destruct (writeVisualCondition source c acc) as [t acc1].
  specialize (IH acc1). destruct (write_list _ cs acc1) as [ts acc2]. simpl in *. by subst.
Qed.

Lemma group_same sp o l r cs : located (Binary sp o l r) ->
  mapM readVisualCondition (flattenBinary (Binary sp o l r) o) = Some cs ->
  write_group source o (Some (Binary sp o l r)) cs
    (text <$> flattenBinary (Binary sp o l r) o) = text (Binary sp o l r).
Proof.
  intros Hloc Hcs. apply mapM_Some in Hcs. unfold write_group. rewrite decide_True by done.
  unfold group_unchanged. rewrite forallb_zip_same.
  - apply patch_sub; [done|]. apply Forall_forall. intros [m t] Hin.
    rewrite zip_with_fmap_r in Hin. apply elem_of_lookup_zip_with in Hin as (i & x & y & Heq & H1 & H2).
    simplify_eq. cbn [fst snd]. split; [|done].
    eapply flattenBinary_sub, list_elem_of_lookup_2; done.
  - eapply Forall2_impl; [exact Hcs|]. intros n c Hc. simpl.
    rewrite (readVisualCondition_origin n c Hc). apply same_node_refl.
Qed.

Lemma condition_same n c : located n -> readVisualCondition n = Some c -> writes_same n c.
Proof.
  remember (node_size n) as size eqn:Hsize. revert n c Hsize.
  induction size as [size IH] using (well_founded_induction lt_wf). intros n c -> Hloc Hc.
  assert (Hgroup : forall sp o l r cs, n = Binary sp o l r ->
    mapM readVisualCondition (flattenBinary n o) = Some cs -> Forall2 writes_same (flattenBinary n o) cs).
  { intros sp o l r cs -> Hcs. apply mapM_Some in Hcs. apply Forall2_same_length_lookup_2.
    { by eapply Forall2_length. }
    intros i m d Hm Hd. pose proof (list_elem_of_lookup_2 _ _ _ Hm) as Hin.
    eapply (IH (node_size m)); [by eapply flattenBinary_smaller|done| |].
    - eapply located_sub; [done|]. by eapply flattenBinary_sub.
    - by eapply (Forall2_lookup_lr _ _ _ _ _ _ Hcs). }
  rewrite readVisualCondition_unfold in Hc. cbv zeta in Hc.
  destruct n as [| | |sp o a|sp o l r|]; try done.
  - destruct o; try done. apply bind_Some in Hc as (d & Hd & [= <-]). intros acc. simpl.
    assert (Ha : located a) by (eapply located_sub; [done|apply postorder_child; by left]).
    pose proof (IH (node_size a) ltac:(simpl; lia) a d eq_refl Ha Hd acc) as Hw.
    destruct (writeVisualCondition source d acc) as [t acc1]. simpl in Hw. subst t.
    rewrite (readVisualCondition_origin _ _ Hd). simpl. rewrite same_node_refl. simpl.
    apply patch_sub; [done|]. constructor; [|constructor]. split; [apply postorder_child; by left|done].
  - destruct (decide (o = Band \/ o = Bor)) as [Ho|Ho].
    + assert (exists cs, mapM readVisualCondition (flattenBinary (Binary sp o l r) o) = Some cs /\
        forall acc, exists acc1, fst (writeVisualCondition source c acc) =
          write_group source o (Some (Binary sp o l r)) cs
            (fst (write_list (writeVisualCondition source) cs acc1))) as (cs & Hcs & Hw).
      { destruct Ho as [-> | ->]; apply bind_Some in Hc as (cs & Hcs & [= <-]); exists cs;
          (split; [done|]); intros acc; simpl; eexists;
          (destruct (write_list _ cs _) as [ts acc2] eqn:Hl; simpl; by rewrite Hl). }
      intros acc. destruct (Hw acc) as (acc1 & ->).
      rewrite (write_list_same (flattenBinary (Binary sp o l r) o)) by (by eapply Hgroup).
      by apply group_same.
    + assert ((x ← number_literal r; '(probe, timezone) ← read_probe l;
        Some (VComparison (span_id (js "condition-") (Binary sp o l r)) (Some (Binary sp o l r))
                probe timezone o (number_to_string x))) = Some c) as Hcmp.
      { destruct o; try done; destruct Ho; auto. }
      apply bind_Some in Hcmp as (x & Hx & Hcmp). apply bind_Some in Hcmp as ([probe zone] & Hp & [= <-]).
      intros acc. by apply comparison_same.
Qed.

(** ** Tiers *)

Lemma label_same label l : string_literal label = Some l -> label_text source label l = text label.
Proof.
  destruct label as [sp v| | | | |]; try done. destruct v; try done. intros [= <-]. simpl.
  by rewrite jeqb_refl.
Qed.

(** A price that was read from a term [u * x]. *)
Definition read_from (term : ExpressionNode) (p : VisualPrice) : Prop :=
  exists sp l r x, term = Binary sp Bmul l r /\ number_literal r = Some x /\
    vp_value p = number_to_string x /\ vp_origin p = Some term.

Lemma read_prices_inv terms acc out : read_prices terms acc = Some out ->
  exists ps, out = acc ++ ps /\ Forall2 read_from terms ps.
Proof.
  revert acc. induction terms as [|t terms IH]; intros acc; simpl.
  { intros [= <-]. exists []. by rewrite app_nil_r. }
  destruct t as [| | | |sp o l r|]; try done. destruct o, l; try done.
  destruct (number_literal r) as [x|] eqn:Hr; [|done].
  destruct (_ || _); [done|]. intros (ps & -> & Hf)%IH.
  eexists (_ :: ps). split; [by rewrite <- app_assoc|]. constructor; [|done].
  by exists sp, (Var sp0 name), r, x.
Qed.

Lemma write_prices_same id n terms ps acc : located n -> Forall (fun t => t ∈ postorder n) terms ->
  Forall2 read_from terms ps ->
  Forall (fun p => fst p ∈ postorder n /\ snd p = text (fst p))
    (snd (fst (write_prices source id ps acc))).
Proof.
  intros Hn Hin Hf. revert acc. induction Hf as [|t p terms ps Hp Hf IH]; intros acc; [constructor|].
  inversion_clear Hin as [|? ? Ht Hin']. simpl.
  destruct Hp as (sp & l & r & x & -> & Hx & Hv & Ho).
  assert (Hrn : r ∈ postorder n)
    by (eapply postorder_trans; [exact Ht|apply postorder_child; right; by left]).
  destruct (literal_number_ok source r x) as (Hparse & spr & i & -> & Hnum);
    [by eapply located_sub|done|].
  unfold write_price. rewrite Hv, Ho, Hparse, Hnum. simpl.
  destruct (write_prices source id ps acc) as [[ts patches] acc2] eqn:Hw. simpl.
  constructor; [done|]. specialize (IH Hin' acc). by rewrite Hw in IH.
Qed.

Lemma prices_unchanged_same terms ps : Forall2 read_from terms ps -> prices_unchanged terms ps = true.
Proof.
  intros Hf. apply forallb_zip_same. eapply Forall2_impl; [exact Hf|].
  intros t p (? & ? & ? & ? & _ & _ & _ & Ho). simpl. rewrite Ho. apply same_node_refl.
Qed.

Lemma tokens_same sp label body args l ps id acc : located (Call sp Ftier (label :: body :: args)) ->
  string_literal label = Some l -> Forall2 read_from (flattenBinary body Badd) ps ->
  fst (write_tokens source id (Some (Call sp Ftier (label :: body :: args))) l ps acc)
  = text (Call sp Ftier (label :: body :: args)).
Proof.
  intros Hloc Hl Hps. unfold write_tokens.
  match goal with |- context [write_prices source id ps ?a] => set (acc1 := a) end.
  pose proof (write_prices_same id (Call sp Ftier (label :: body :: args))
    (flattenBinary body Badd) ps acc1 Hloc) as Hw.
  destruct (write_prices source id ps acc1) as [[ts patches] acc2].
  rewrite prices_unchanged_same by done. simpl. apply patch_sub; [done|]. constructor.
  - split; [apply postorder_child; by left|]. by apply label_same.
  - eapply Hw; [|done]. apply Forall_forall. intros t Ht%flattenBinary_sub.
    eapply postorder_trans; [|exact Ht]. apply postorder_child. right. by left.
Qed.

(** The amount of a checked [fixed] call is a number. *)
Lemma fixed_amount_number sp spa v args : located (Call sp Ffixed (Literal spa v :: args)) ->
  exists x i, v = LNum x i.
Proof.
  intros [(_ & _ & t & Ht) _]. rewrite infer_unfold in Ht. apply res_bind_Ok in Ht as (ts & Hts & Ht).
  apply res_mapM_Ok in Hts. inversion Hts as [|? t1 ? ? H1 _]; subst.
  destruct v; cbn in H1; simplify_eq; eauto;
    cbn [type_rule call_type] in Ht; apply res_bind_Ok in Ht as (u & Hu & _);
    cbn [fmap list_fmap require_args zip zip_with] in Hu; by apply res_bind_Ok in Hu as (w & Hw & _).
Qed.

Lemma fixed_same sp label spb spa v rest args l id acc :
  let body := Call spb Ffixed (Literal spa v :: rest) in
  located (Call sp Ftier (label :: body :: args)) -> string_literal label = Some l ->
  fst (write_fixed source id (Some (Call sp Ftier (label :: body :: args))) l (literal_text v) acc)
  = text (Call sp Ftier (label :: body :: args)).
Proof.
  intros body Hloc Hl. assert (Hb : located body)
    by (eapply located_sub; [done|apply postorder_child; right; by left]).
  destruct (fixed_amount_number _ _ _ _ Hb) as (x & i & ->).
  assert (Hla : located (Literal spa (LNum x i)))
    by (eapply located_sub; [exact Hb|apply postorder_child; by left]).
  destruct (literal_number_ok source _ x Hla eq_refl) as (Hparse & spr & j & [= <- <-] & Hnum).
  unfold write_fixed. cbn [literal_text]. rewrite Hparse. cbn [fst body].
  apply patch_sub; [done|]. constructor; [|constructor; [|constructor]]; cbn [fst snd].
  - split; [apply postorder_child; by left|]. by apply label_same.
  - split; [apply postorder_child; right; by left|]. subst body. cbn [fixed_text]. rewrite Hnum.
    apply patch_sub; [done|]. constructor; [|constructor]. split; [|done]. apply postorder_child. by left.
Qed.

Lemma pricing_same n v : located n -> readVisualPricing n = Some v ->
  forall acc, fst (writeVisualPricing source v acc) = text n.
Proof.
  revert v. induction n as [sp k|sp k|sp f args _|sp o a|sp o a b|sp c y no _ IHy IHn] using node_ind';
    intros v Hloc Hv acc; try done.
  - destruct f; try done. destruct args as [|label [|body args]]; try done.
    cbn [readVisualPricing] in Hv. apply bind_Some in Hv as (l & Hl & Hv).
    assert (Htok : (prices ← read_prices (flattenBinary body Badd) [];
      Some (VTier (span_id (js "pricing-") (Call sp Ftier (label :: body :: args)))
        (Some (Call sp Ftier (label :: body :: args))) l prices Utoken [])) = Some v ->
      fst (writeVisualPricing source v acc) = text (Call sp Ftier (label :: body :: args))).
    { intros (ps & Hps & [= <-])%bind_Some. apply read_prices_inv in Hps as (ps' & -> & Hf).
      by apply tokens_same. }
    unfold read_tier in Hv. destruct body as [| |spb fb argsb| | |]; try (by apply Htok).
    destruct fb; try (by apply Htok). destruct argsb as [|amount rest]; [by apply Htok|].
    destruct amount as [spa va| | | | |]; try (by apply Htok). injection Hv as <-.
    cbn [writeVisualPricing]. by apply fixed_same.
  - cbn [readVisualPricing] in Hv. destruct (readVisualCondition c) as [vc|] eqn:Hc; [|done].
    destruct (readVisualPricing y) as [vy|] eqn:Hy; [|done].
    destruct (readVisualPricing no) as [vn|] eqn:Hn; [|done]. injection Hv as <-.
    assert (Hsub : forall m, m ∈ [c; y; no] -> m ∈ postorder (Conditional sp c y no))
      by (intros m Hm; by apply postorder_child).
    cbn [writeVisualPricing].
    pose proof (condition_same c vc (located_sub _ _ _ Hloc (Hsub c ltac:(left))) Hc acc) as Ec.
    destruct (writeVisualCondition source vc acc) as [tc acc1].
    pose proof (IHy vy (located_sub _ _ _ Hloc (Hsub y ltac:(right; left))) eq_refl acc1) as Ey.
    destruct (writeVisualPricing source vy acc1) as [ty acc2].
    pose proof (IHn vn (located_sub _ _ _ Hloc (Hsub no ltac:(right; right; left))) eq_refl acc2) as En.
    destruct (writeVisualPricing source vn acc2) as [tn acc3]. simpl in *. subst.
    apply patch_sub; [done|]. repeat constructor; cbn [fst snd]; try done;
      apply Hsub; set_solver.
Qed.
End Unedited.

Lemma compiled_located source c : compile source = Ready c -> located source (c_ast c).
Proof.
  intros Hc%compile_ready_ok. split; [by eapply compiled_checked|].
  pose proof (parse_spec source) as Hp. rewrite (co_parse _ _ Hc) in Hp. apply Hp.
Qed.

(** ** Properties *)

(** C3: the visual editor loses nothing: every expression that it opens is
    written back, if nothing was edited, as exactly the source it was read from,
    with its spacing, its parentheses, its spelling of numbers and labels. *)
Theorem visual_roundtrip `{Host} (source : jstr) (document : VisualBillingDocument) :
  parseVisualBillingDocument source = Some document ->
  serializeVisualBillingDocument document = SerOk source.
Proof.
  unfold parseVisualBillingDocument. destruct (compile source) as [c|] eqn:Hc; [|done].
  intros (root & Hroot & Hs)%bind_Some. simpl in Hs.
  destruct (serializeVisualBillingDocument {| vd_source := source; vd_root := root |}) as [s|] eqn:Hser;
    [|done]. injection Hs as <-. rewrite Hser. f_equal. revert Hser.
  unfold serializeVisualBillingDocument. cbn [vd_source vd_root].
  pose proof (compiled_located _ _ Hc) as Hloc.
  pose proof (pricing_same source (c_ast c) root Hloc Hroot []) as Hw.
  destruct (writeVisualPricing source root []) as [body acc]. simpl in Hw. subst body.
  destruct acc; [|done]. rewrite Hc. unfold source_of.
  assert (take (node_start (c_ast c)) source ++ slice source (node_start (c_ast c)) (node_end (c_ast c))
          ++ drop (node_end (c_ast c)) source = source) as ->.
  { destruct Hloc as [[Hwf _] Hle]. pose proof (wf_span _ Hwf).
    replace (take (node_start (c_ast c)) source) with (slice source 0 (node_start (c_ast c)))
      by (unfold slice; rewrite drop_0; f_equal; lia).
    rewrite app_assoc, slice_app by lia. unfold slice. rewrite drop_0, Nat.sub_0_r. apply take_drop. }
  rewrite Hc. congruence.
Qed.

Definition sample_document : jstr :=
  js " (p  >  2.50 && !(c <= 1e3)) ? tier( 'a' , p*2.500+ (c * .5)) : (tier('b', fixed( 1.0 )))".

Lemma visual_roundtrip_witness :
  exists document, parseVisualBillingDocument (H := utc_host) sample_document = Some document /\
    serializeVisualBillingDocument (H := utc_host) document = SerOk sample_document.
Proof.
  eexists. split; [vm_compute; reflexivity|].
  apply (@visual_roundtrip utc_host sample_document). vm_compute. reflexivity.
Defined.

(** ** Identities *)

Fixpoint condition_ids (c : VisualCondition) : list jstr :=
  match c with
  | VComparison id _ _ _ _ _ => [id]
  | VAll id _ cs | VAny id _ cs => id :: concat (map condition_ids cs)
  | VNot id _ c => id :: condition_ids c
  end.

Fixpoint pricing_ids (v : VisualPricingNode) : list jstr :=
  match v with
  | VTier id _ _ _ _ _ => [id]
  | VBranch id _ c y n => id :: condition_ids c ++ pricing_ids y ++ pricing_ids n
  end.

(** The identity of a node in a document: [true] for a condition. *)
Definition node_id (p : bool * ExpressionNode) : jstr :=
  span_id (if fst p then js "condition-" else js "pricing-") (snd p).

(** The identities are those of distinct nodes among [nodes]. *)
Definition ids_of (ids : list jstr) (nodes : list ExpressionNode) : Prop :=
  exists l, ids = node_id <$> l /\ l.*2 ⊆+ nodes.

Lemma ids_of_app i1 i2 n1 n2 : ids_of i1 n1 -> ids_of i2 n2 -> ids_of (i1 ++ i2) (n1 ++ n2).
Proof.
  intros (l1 & -> & H1) (l2 & -> & H2). exists (l1 ++ l2). split; [by rewrite fmap_app|].
  rewrite fmap_app. by apply submseteq_app.
Qed.

Lemma ids_of_weaken ids n1 n2 : n1 ⊆+ n2 -> ids_of ids n1 -> ids_of ids n2.
Proof. intros Hn (l & -> & Hl). exists l. split; [done|]. by etrans. Qed.

Lemma ids_of_self b n ids nodes : ids_of ids nodes -> ids_of (node_id (b, n) :: ids) (nodes ++ [n]).
Proof.
  intros Hi. apply ids_of_weaken with ([n] ++ nodes).
  - rewrite Permutation_app_comm. done.
  - apply (ids_of_app [node_id (b, n)]); [|done]. exists [(b, n)]. done.
Qed.

Lemma flattenBinary_postorder n o : concat (map postorder (flattenBinary n o)) ⊆+ postorder n.
Proof.
  induction n as [| | | |sp p a b IHa IHb|] using node_ind'; cbn [flattenBinary];
    try (cbn [map concat]; by rewrite app_nil_r).
  destruct (decide (p = o)); [|cbn [map concat]; by rewrite app_nil_r].
  rewrite map_app, concat_app. cbn [postorder].
  etrans; [by apply submseteq_app|]. by apply submseteq_inserts_r.
Qed.

Lemma flattenBinary_below sp o l r :
  concat (map postorder (flattenBinary (Binary sp o l r) o)) ⊆+ postorder l ++ postorder r.
Proof.
  cbn [flattenBinary]. rewrite decide_True by done. rewrite map_app, concat_app.
  apply submseteq_app; apply flattenBinary_postorder.
Qed.

Lemma group_ids ns cs : Forall2 (fun n c => ids_of (condition_ids c) (postorder n)) ns cs ->
  ids_of (concat (map condition_ids cs)) (concat (map postorder ns)).
Proof.
  induction 1 as [|n c ns cs Hc _ IH]; [by exists []|]. by apply ids_of_app.
Qed.

Lemma condition_ids_of n c : readVisualCondition n = Some c -> ids_of (condition_ids c) (postorder n).
Proof.
  remember (node_size n) as size eqn:Hsize. revert n c Hsize.
  induction size as [size IH] using (well_founded_induction lt_wf). intros n c -> Hc.
  rewrite readVisualCondition_unfold in Hc. cbv zeta in Hc.
  assert (Hgroup : forall sp o l r cs, n = Binary sp o l r ->
    mapM readVisualCondition (flattenBinary n o) = Some cs ->
    ids_of (node_id (true, n) :: concat (map condition_ids cs)) (postorder n)).
  { intros sp o l r cs -> Hcs. cbn [postorder]. apply ids_of_self.
    eapply ids_of_weaken; [apply flattenBinary_below|]. apply group_ids.
    apply mapM_Some in Hcs. apply Forall2_same_length_lookup_2; [by eapply Forall2_length|].
    intros i m d Hm Hd. eapply (IH (node_size m)); [|done|by eapply (Forall2_lookup_lr _ _ _ _ _ _ Hcs)].
    eapply flattenBinary_smaller, list_elem_of_lookup_2. done. }
  destruct n as [| | |sp o a|sp o l r|]; try done.
  - destruct o; try done. apply bind_Some in Hc as (d & Hd & [= <-]).
    cbn [condition_ids postorder]. apply (ids_of_self true). apply (IH (node_size a)); [simpl; lia|done|done].
  - destruct (decide (o = Band \/ o = Bor)) as [[-> | ->]|Ho];
      [apply bind_Some in Hc as (cs & Hcs & [= <-]); by eapply Hgroup..|].
    assert (condition_ids c = [node_id (true, Binary sp o l r)]) as ->.
    { destruct o; try done; try (by destruct Ho; auto); simpl in Hc;
        apply bind_Some in Hc as (x & _ & Hc); apply bind_Some in Hc as ([? ?] & _ & [= <-]); done. }
    cbn [postorder]. apply ids_of_self. exists []. split; [done|]. apply submseteq_nil_l.
Qed.

Lemma pricing_ids_of n v : readVisualPricing n = Some v -> ids_of (pricing_ids v) (postorder n).
Proof.
  revert v. induction n as [sp k|sp k|sp f args _|sp o a|sp o a b|sp c y no _ IHy IHn] using node_ind';
    intros v Hv; try done.
  - destruct f; try done. destruct args as [|label [|body args]]; try done.
    cbn [readVisualPricing] in Hv. apply bind_Some in Hv as (l & _ & Hv).
    assert (pricing_ids v = [node_id (false, Call sp Ftier (label :: body :: args))]) as ->.
    { revert Hv. unfold read_tier. repeat case_match; intros Hv;
        repeat (apply bind_Some in Hv as (? & _ & Hv)); by simplify_eq. }
    cbn [postorder]. apply ids_of_self. exists []. split; [done|]. apply submseteq_nil_l.
  - cbn [readVisualPricing] in Hv. destruct (readVisualCondition c) as [vc|] eqn:Hc; [|done].
    destruct (readVisualPricing y) as [vy|]; [|done].
    destruct (readVisualPricing no) as [vn|]; [|done]. injection Hv as <-.
    cbn [pricing_ids postorder]. apply (ids_of_self false).
    apply ids_of_app; [by apply condition_ids_of|]. apply ids_of_app; auto.
Qed.

Lemma nat_digits_inj a b c d : nat_digits a ++ js "-" ++ nat_digits b = nat_digits c ++ js "-" ++ nat_digits d ->
  a = c /\ b = d.
Proof.
  intros He. assert (forall n r, span_while is_digit (nat_digits n ++ js "-" ++ r) = (nat_digits n, js "-" ++ r)) as Hs.
  { intros n r. apply span_while_all; [apply N_digits_digit|done]. }
  pose proof (Hs a (nat_digits b)) as H1. rewrite He, Hs in H1. injection H1 as H1 H2.
  assert (forall m n, nat_digits m = nat_digits n -> m = n) as Hinj.
  { intros m n Hmn. apply (f_equal digits_val) in Hmn. unfold nat_digits in Hmn.
    rewrite !digits_val_N_digits in Hmn. lia. }
  split; apply Hinj; congruence.
Qed.

Lemma node_id_span p q : node_id p = node_id q -> node_span (snd p) = node_span (snd q).
Proof.
  destruct p as [b n], q as [b' m]. unfold node_id, span_id. cbn [fst snd]. intros He.
  assert (b = b') as <- by (by destruct b, b'). apply app_inv_head in He.
  apply nat_digits_inj in He as [Hs He']. unfold node_start, node_end in *.
  destruct (node_span n), (node_span m). simpl in *. by subst.
Qed.

(** In a document read from a source, no two tiers, branches or conditions
    have the same identity, so an issue reported for an identity points at one
    part of the form. *)
Theorem visual_ids_unique `{Host} (source : jstr) (document : VisualBillingDocument) :
  parseVisualBillingDocument source = Some document -> NoDup (pricing_ids (vd_root document)).
Proof.
  unfold parseVisualBillingDocument. destruct (compile source) as [c|] eqn:Hc; [|done].
  intros (root & Hroot & Hs)%bind_Some. simpl in Hs.
  destruct (serializeVisualBillingDocument _) as [s|]; [|done]. injection Hs as <-. simpl.
  destruct (pricing_ids_of _ _ Hroot) as (l & -> & Hl). apply compile_ready_ok in Hc.
  pose proof (wf_spans_nodup _ (co_wf _ _ Hc)) as Hn.
  assert (NoDup ((fun p : bool * ExpressionNode => node_span (snd p)) <$> l)) as Hnd.
  { change (NoDup (compose node_span snd <$> l)). rewrite list_fmap_compose.
    apply (fmap_submseteq node_span), submseteq_Permutation in Hl as [k Hk].
    rewrite Hk in Hn. by apply NoDup_app in Hn as [? _]. }
  clear -Hnd. induction l as [|p l IH]; [constructor|]. cbn [fmap list_fmap] in *.
  inversion_clear Hnd as [|? ? Hp Hnd']. constructor; [|by apply IH].
  intros (q & Hq & Hin)%list_elem_of_fmap. apply Hp. apply node_id_span in Hq. rewrite Hq.
  apply list_elem_of_fmap. by exists q.
Qed.

Lemma visual_ids_unique_witness :
  exists document, parseVisualBillingDocument (H := utc_host) sample_document = Some document /\
    NoDup (pricing_ids (vd_root document)).
Proof.
  eexists. split; [vm_compute; reflexivity|].
  apply (@visual_ids_unique utc_host sample_document). vm_compute. reflexivity.
Defined.
