(* ===== verification/BillingConditionDisplay.v ===== *)
(** * Billing expressions: conditions in words

    Model of [billing-expression/condition-display.ts].  Translation and the
    formatting of weekdays and numbers by locale belong to i18next and to the
    host; they are the fields of [Presentation]. *)

From stdpp Require Import base list numbers strings.
From Stdlib Require Import ZArith SpecFloat Lia.
From S2P Require Import Prelude.
From S2P Require Import JsString.
From S2P Require Import JsNumber.
From S2P Require Import JsValue.
From S2P Require Import BillingTypes.
From S2P Require Import BillingParser.
From S2P Require Import BillingCompile.
From S2P Require Import BillingRuntime.
From S2P Require Import BillingRuntimeFacts.
From S2P Require Import BillingPricing.
From S2P Require Import BillingSpans.
From S2P Require Import BillingCompileFacts.
From S2P Require Import BillingDisplay.
From S2P Require Import BillingDisplayFacts.
From S2P Require Import BillingVisual.
From S2P Require Import BillingVisualFacts.

Class Presentation := {
  (** [t(key, options)] *)
  translate_key : jstr -> list (jstr * jsval) -> jstr;
  (** [new Intl.DateTimeFormat(locale, { weekday: 'short', timeZone: 'UTC' }).format(date)];
      [None] when an unknown locale makes it throw. *)
  weekday_short : jstr -> Z -> option jstr;
  (** [number.toLocaleString(locale)] *)
  locale_number : jstr -> f64 -> option jstr;
}.

(** A host call that throws a [RangeError] where it has no result. *)
Definition or_range_error {A} (r : option A) : res exn A :=
  match r with
  | Some a => Ok a
  | None => Err (NativeError (js "RangeError"))
  end.

Inductive DescriptionKind := Kcalendar | Kclock | Kcombined.

#[global] Instance DescriptionKind_eq_dec : EqDecision DescriptionKind.
Proof. solve_decision. Defined.

Record Description := {
  ds_text : jstr;
  ds_kind : DescriptionKind;
  ds_timezone : jstr;
  ds_disjunction : bool;
}.

Record TimeComparison := {
  cmp_name : TimeFunction;
  cmp_timezone : jstr;
  cmp_operator : binop;
  cmp_value : f64;
}.

Definition DOMAINS (t : TimeFunction) : f64 * f64 :=
  match t with
  | Fhour => (f64_of_Z 0, f64_of_Z 24)
  | Fminute => (f64_of_Z 0, f64_of_Z 60)
  | Fweekday => (f64_of_Z 0, f64_of_Z 7)
  | Fmonth => (f64_of_Z 1, f64_of_Z 13)
  | Fday => (f64_of_Z 1, f64_of_Z 32)
  end.

Definition is_range_operator (o : binop) : bool :=
  match o with Beq | Bge | Bgt | Ble | Blt => true | _ => false end.

Definition timeComparison (n : ExpressionNode) : option TimeComparison :=
  match n with
  | Binary _ o (Call _ (Ftime f) (arg :: _)) r =>
      zone ← string_literal arg;
      x ← number_literal r;
      if is_range_operator o && is_integer x then
        Some {| cmp_name := f; cmp_timezone := billing_zone zone; cmp_operator := o; cmp_value := x |}
      else None
  | _ => None
  end.

(** One round of the loop of [describeTimeRange]. *)
Definition narrow (range : f64 * f64) (c : TimeComparison) : f64 * f64 :=
  let '(lo, hi) := range in
  let next := fadd (cmp_value c) fone in
  match cmp_operator c with
  | Bge => (fmax lo (cmp_value c), hi)
  | Bgt => (fmax lo next, hi)
  | Blt => (lo, fmin hi (cmp_value c))
  | Ble => (lo, fmin hi next)
  | Beq => (fmax lo (cmp_value c), fmin hi next)
  | _ => range
  end.

(** [String(x).padStart(2, '0')] *)
Definition pad_start2 (s : jstr) : jstr := zeros (2 - length s) ++ s.

(** The key ["{{start}}–{{end}}"], which has an en dash. *)
Definition range_key : jstr := js "{{start}}" ++ [8211%N] ++ js "{{end}}".

(** [locale === 'zhCN' ? 'zh-CN' : locale] *)
Definition intl_locale (locale : jstr) : jstr :=
  if jeqb locale (js "zhCN") then js "zh-CN" else locale.

(** [Date.UTC(2026, 0, 4 + day)]; 4 January 2026 is day 20457 of the epoch. *)
Definition january_2026 (day : f64) : Z := (20457 + to_Z day) * ms_per_day.

#[local] Open Scope jsm.

Section Describe.
Context `{Presentation}.
(** The translation function in use. *)
Variable t : jstr -> list (jstr * jsval) -> jstr.
Variable locale : jstr.

Definition range_text (f : TimeFunction) (lo hi : f64) : res exn jstr :=
  let last := fsub hi fone in
  let single := feqb lo last in
  match f with
  | Fhour =>
      Ok (t range_key
            [(js "start", JStr (pad_start2 (number_to_string lo) ++ js ":00"));
             (js "end", JStr (pad_start2 (number_to_string hi) ++ js ":00"))])
  | Fweekday =>
      from <-- or_range_error (weekday_short (intl_locale locale) (january_2026 lo)) ;;
      to <-- or_range_error (weekday_short (intl_locale locale) (january_2026 last)) ;;
      Ok (if single then from else t range_key [(js "start", JStr from); (js "end", JStr to)])
  | _ =>
      let label := match f with Fminute => js "Minute" | Fmonth => js "Month" | _ => js "Day" end in
      let values := if single then number_to_string lo
                    else t range_key [(js "start", JNum lo); (js "end", JNum last)] in
      Ok (t label [] ++ js ": " ++ values)
  end.

Definition describeTimeRange (first : TimeComparison) (rest : list TimeComparison)
    : res exn (option Description) :=
  let '(lo, hi) := foldl narrow (DOMAINS (cmp_name first)) (first :: rest) in
  if fleb hi lo then Ok None
  else
    text <-- range_text (cmp_name first) lo hi ;;
    Ok (Some {| ds_text := text;
                ds_kind := match cmp_name first with Fhour => Kclock | _ => Kcalendar end;
                ds_timezone := cmp_timezone first;
                ds_disjunction := false |}).

(** A comparison of a token count with a number literal. *)
Definition variable_comparison (n : ExpressionNode) : option (TokenVariable * binop * f64) :=
  match n with
  | Binary _ o (Var _ v) r =>
      if is_order o || bool_decide (o = Beq) || bool_decide (o = Bne)
      then x ← number_literal r; Some (v, o, x) else None
  | _ => None
  end.

Definition variable_label (v : TokenVariable) : option jstr :=
  match v with
  | Vp => Some (js "Input")
  | Vc => Some (js "Output")
  | Vlen => Some (js "Full input length")
  | _ => None
  end.

Definition describe_variable (v : TokenVariable) (o : binop) (x : f64) : res exn (option Description) :=
  match variable_label v with
  | None => Ok None
  | Some label =>
      number <-- or_range_error (locale_number (intl_locale locale) x) ;;
      Ok (Some {| ds_text := t label [] ++ js " " ++ binop_name o ++ js " " ++ number;
                  ds_kind := Kcombined; ds_timezone := []; ds_disjunction := false |})
  end.

(** The map [ranges], oldest key first; a key is a function with a zone. *)
Abbreviation range_map := (list ((TimeFunction * jstr) * (TimeComparison * list TimeComparison))).

Fixpoint add_range (c : TimeComparison) (m : range_map) : range_map :=
  match m with
  | [] => [((cmp_name c, cmp_timezone c), (c, []))]
  | (k, (first, rest)) :: m' =>
      if decide (k = (cmp_name c, cmp_timezone c)) then (k, (first, rest ++ [c])) :: m'
      else (k, (first, rest)) :: add_range c m'
  end.

(** [if (!description) return null; parts.push(description)] for a list. *)
Fixpoint all_described {A} (f : A -> res exn (option Description)) (l : list A)
    : res exn (option (list Description)) :=
  match l with
  | [] => Ok (Some [])
  | x :: l' =>
      d <-- f x ;;
      match d with
      | None => Ok None
      | Some d' => ds <-- all_described f l' ;; Ok (cons d' <$> ds)
      end
  end.

(** [[...new Set(parts.map((part) => part.timezone).filter(Boolean))]] *)
Definition zones (parts : list Description) : list jstr :=
  foldl (fun acc z => match z with [] => acc | _ => set_add z acc end) [] (ds_timezone <$> parts).

Definition parenthesize (conjunction : bool) (d : Description) : jstr :=
  if conjunction && ds_disjunction d then js "(" ++ ds_text d ++ js ")" else ds_text d.

Definition has_kind (k : DescriptionKind) (d : Description) : bool := bool_decide (ds_kind d = k).

Definition of_kind (k : DescriptionKind) (parts : list Description) : list Description :=
  List.filter (has_kind k) parts.

(** [parts.length === 2 && calendars.length === 1 && clocks.length === 1] *)
Definition calendar_and_clock (conjunction : bool) (parts : list Description) : bool :=
  conjunction && Nat.eqb (length parts) 2 && Nat.eqb (length (of_kind Kcalendar parts)) 1
  && Nat.eqb (length (of_kind Kclock parts)) 1.

(** [calendars[0].text] *)
Definition first_text (parts : list Description) : jstr :=
  match parts with d :: _ => ds_text d | [] => [] end.

(** The end of [describeBillingCondition]: one description from the parts. *)
Definition combine (conjunction : bool) (parts : list Description) : option Description :=
  let zs := zones parts in
  let timezone := default [] (head zs) in
  let clocks := of_kind Kclock parts in
  match parts with
  | [] => None
  | first :: rest =>
      if Nat.ltb 1 (length zs) then None
      else
        match rest with
        | [] => Some first
        | _ =>
            if calendar_and_clock conjunction parts then
              Some {| ds_text := first_text (of_kind Kcalendar parts) ++ js " " ++ first_text clocks;
                      ds_kind := Kcombined; ds_timezone := ds_timezone first; ds_disjunction := false |}
            else
              let separator := if conjunction then js "{{first}} and {{second}}"
                               else js "{{first}} or {{second}}" in
              let text := foldl (fun acc part =>
                            t separator [(js "first", JStr acc);
                                         (js "second", JStr (parenthesize conjunction part))])
                          (parenthesize conjunction first) rest in
              Some {| ds_text := text;
                      ds_kind := if Nat.eqb (length clocks) (length parts) then Kclock else Kcombined;
                      ds_timezone := timezone; ds_disjunction := negb conjunction |}
        end
  end.

(** The loop over the operands of [&&]: the descriptions of the operands that
    are not time comparisons, then one for each time range. *)
Fixpoint split_operands (nodes : list ExpressionNode) (ranges : range_map) (others : list ExpressionNode)
    : range_map * list ExpressionNode :=
  match nodes with
  | [] => (ranges, others)
  | part :: nodes' =>
      match timeComparison part with
      | Some c => split_operands nodes' (add_range c ranges) others
      | None => split_operands nodes' ranges (others ++ [part])
      end
  end.

Definition describe_ranges (ranges : range_map) : res exn (option (list Description)) :=
  all_described (fun '(_, (first, rest)) => describeTimeRange first rest) ranges.

Definition describe_and (describe : ExpressionNode -> res exn (option Description))
    (nodes : list ExpressionNode) : res exn (option Description) :=
  let '(ranges, others) := split_operands nodes [] [] in
  parts <-- all_described describe others ;;
  match parts with
  | None => Ok None
  | Some ps =>
      rs <-- describe_ranges ranges ;;
      match rs with
      | None => Ok None
      | Some rs' => Ok (combine true (ps ++ rs'))
      end
  end.

Definition describe_or (describe : ExpressionNode -> res exn (option Description))
    (nodes : list ExpressionNode) : res exn (option Description) :=
  parts <-- all_described describe nodes ;;
  match parts with
  | None => Ok None
  | Some ps => Ok (combine false ps)
  end.

(** [description] with the text of its complement. *)
Definition outside (d : Description) : Description :=
  {| ds_text := t (js "Outside these times: {{condition}}") [(js "condition", JStr (ds_text d))];
     ds_kind := Kcombined; ds_timezone := ds_timezone d; ds_disjunction := ds_disjunction d |}.

(** The recursion goes through flattened operands; [fuel] bounds its depth. *)
Fixpoint describe (fuel : nat) (n : ExpressionNode) : res exn (option Description) :=
  match fuel with
  | O => Err OutOfFuel
  | S f =>
      match n with
      | Unary _ Unot operand => d <-- describe f operand ;; Ok (outside <$> d)
      | _ =>
          match variable_comparison n, timeComparison n, n with
          | Some (v, o, x), _, _ => describe_variable v o x
          | None, Some c, _ => describeTimeRange c []
          | None, None, Binary _ Band _ _ => describe_and (describe f) (flattenBinary n Band)
          | None, None, Binary _ Bor _ _ => describe_or (describe f) (flattenBinary n Bor)
          | None, None, _ => Ok None
          end
      end
  end.

Definition describeBillingCondition (n : ExpressionNode) : res exn (option Description) :=
  describe (node_size n) n.
End Describe.

Section Format.
Context `{Presentation}.

(** [(key, options) => t(key, { ...options, interpolation: { escapeValue: false } })] *)
Definition plain_translate (key : jstr) (options : list (jstr * jsval)) : jstr :=
  translate_key key (options ++ [(js "interpolation", JObj [(js "escapeValue", JBool false)])]).

Definition formatBillingCondition (compilation : CompilationResult) (locale : jstr) : option jstr :=
  match compilation with
  | NotReady _ => None
  | Ready compiled =>
      match describeBillingCondition plain_translate locale (c_ast compiled) with
      | Ok (Some d) =>
          match ds_timezone d with
          | [] => Some (ds_text d)
          | zone => Some (plain_translate (js "{{condition}} ({{timezone}})")
                            [(js "condition", JStr (ds_text d)); (js "timezone", JStr zone)])
          end
      | Ok None | Err _ => None
      end
  end.
End Format.

(** ** Facts *)

Lemma flatten_cover n o m : m ∈ postorder n ->
  (exists p, p ∈ flattenBinary n o /\ m ∈ postorder p) \/ (exists sp a b, m = Binary sp o a b).
Proof.
  induction n as [| | | |sp p a b IHa IHb|] using node_ind'; cbn [flattenBinary]; intros Hm;
    try (left; eexists; split; [by apply list_elem_of_singleton|done]).
  destruct (decide (p = o)) as [->|].
  - cbn [postorder] in Hm. rewrite !elem_of_app, list_elem_of_singleton in Hm.
    destruct Hm as [[Hm|Hm]| ->]; [|..|by eauto].
    + destruct (IHa Hm) as [(q & Hq & Hin)|]; [|by right]. left. exists q. by rewrite elem_of_app; auto.
    + destruct (IHb Hm) as [(q & Hq & Hin)|]; [|by right]. left. exists q. by rewrite elem_of_app; auto.
  - left. eexists. split; [by apply list_elem_of_singleton|done].
Qed.

Lemma billing_zone_nonempty z : billing_zone z <> [].
Proof. unfold billing_zone. by destruct (trim z). Qed.

Lemma zones_spec parts :
  NoDup (zones parts) /\ forall z, z ∈ zones parts <-> z <> [] /\ z ∈ ds_timezone <$> parts.
Proof.
  unfold zones. set (step := fun acc z => match z with [] => acc | _ => set_add z acc end).
  assert (forall l acc, NoDup acc -> NoDup (foldl step acc l) /\
    forall z, z ∈ foldl step acc l <-> z ∈ acc \/ z <> [] /\ z ∈ l) as Hgen.
  { induction l as [|z l IH]; intros acc Hnd; simpl.
    { split; [done|]. intros z. rewrite elem_of_nil. tauto. }
    assert (NoDup (step acc z)) as Hs.
    { subst step. simpl. destruct z; [done|]. unfold set_add. case_decide; [done|].
      apply NoDup_app. split; [done|]. split; [|apply NoDup_singleton].
      intros y Hy Hy'%list_elem_of_singleton. by subst. }
    destruct (IH _ Hs) as [H1 H2]. split; [done|]. intros y. rewrite H2, elem_of_cons.
    assert (y ∈ step acc z <-> y ∈ acc \/ (z <> [] /\ y = z)) as ->; [|naive_solver].
    subst step. simpl. destruct z as [|c z]; [naive_solver|]. unfold set_add. case_decide.
    - naive_solver.
    - rewrite elem_of_app, list_elem_of_singleton. naive_solver. }
  destruct (Hgen (ds_timezone <$> parts) [] (NoDup_nil_2 )) as [H1 H2]. split; [done|].
  intros z. rewrite H2, elem_of_nil. tauto.
Qed.

Lemma all_described_inv {A} (f : A -> res exn (option Description)) l ds :
  all_described f l = Ok (Some ds) -> Forall2 (fun x d => f x = Ok (Some d)) l ds.
Proof.
  revert ds. induction l as [|x l IH]; intros ds; simpl; [intros [= <-]; constructor|].
  intros (d & Hd & Hrest)%res_bind_Ok. destruct d as [d|]; [|done].
  apply res_bind_Ok in Hrest as (ds' & Hds & Hrest). destruct ds' as [ds'|]; [|done].
  injection Hrest as <-. constructor; auto.
Qed.

(** Every time comparison among the operands is in a range of its zone; the
    others are kept. *)
Definition in_ranges (c : TimeComparison)
    (m : list ((TimeFunction * jstr) * (TimeComparison * list TimeComparison))) : Prop :=
  exists e, e ∈ m /\ cmp_timezone (fst (snd e)) = cmp_timezone c.

Lemma add_range_spec c m : (forall e, e ∈ m -> fst e = (cmp_name (fst (snd e)), cmp_timezone (fst (snd e)))) ->
  (forall e, e ∈ add_range c m -> fst e = (cmp_name (fst (snd e)), cmp_timezone (fst (snd e)))) /\
  in_ranges c (add_range c m) /\ (forall d, in_ranges d m -> in_ranges d (add_range c m)).
Proof.
  induction m as [|[k [first rest]] m IH]; intros Hm; simpl.
  - split; [by intros e ->%list_elem_of_singleton|]. split; [|by intros d (e & ?%elem_of_nil & _)].
    eexists. split; [by apply list_elem_of_singleton|done].
  - assert (k = (cmp_name first, cmp_timezone first)) as Hk by (apply (Hm (k, (first, rest))); by left).
    destruct (decide (k = (cmp_name c, cmp_timezone c))) as [Heq|Hne].
    + split; [intros e [->|He]%elem_of_cons; [done|apply Hm; by right]|]. split.
      * eexists. split; [by left|]. simpl. congruence.
      * intros d (e & [->|He]%elem_of_cons & Hz).
        -- eexists. split; [by left|exact Hz].
        -- exists e. split; [by right|done].
    + destruct IH as (I1 & (e & He & Hz) & I3); [intros e He; apply Hm; by right|]. split; [|split].
      * intros e' [->|He']%elem_of_cons; [done|by apply I1].
      * exists e. split; [by right|done].
      * intros d (e' & [->|He']%elem_of_cons & Hz').
        -- eexists. split; [by left|exact Hz'].
        -- destruct (I3 d) as (e'' & ? & ?); [by exists e'|]. exists e''. split; [by right|done].
Qed.

Lemma split_operands_spec nodes m others m' others' :
  (forall e, e ∈ m -> fst e = (cmp_name (fst (snd e)), cmp_timezone (fst (snd e)))) ->
  split_operands nodes m others = (m', others') ->
  (forall d, in_ranges d m -> in_ranges d m') /\ (forall p, p ∈ others -> p ∈ others') /\
  (forall p, p ∈ others' -> p ∈ others \/ p ∈ nodes) /\
  (forall p, p ∈ nodes -> match timeComparison p with
                          | Some c => in_ranges c m'
                          | None => p ∈ others'
                          end).
Proof.
  revert m others. induction nodes as [|q nodes IH]; intros m others Hm; simpl.
  { intros [= <- <-]. repeat split; auto. by intros p ?%elem_of_nil. }
  destruct (timeComparison q) as [c|] eqn:Hq; intros Hs.
  - destruct (add_range_spec c m Hm) as (A1 & A2 & A3).
    destruct (IH _ _ A1 Hs) as (I1 & I2 & I3 & I4). repeat split; auto.
    + intros p Hp. destruct (I3 p Hp); [by left|right; by right].
    + intros p [->|Hp]%elem_of_cons; [rewrite Hq; auto|by apply I4].
  - destruct (IH _ _ Hm Hs) as (I1 & I2 & I3 & I4). repeat split; auto.
    + intros p Hp. apply I2, elem_of_app. by left.
    + intros p Hp. destruct (I3 p Hp) as [Hp'|]; [|right; by right].
      apply elem_of_app in Hp' as [|Hp']; [by left|]. apply list_elem_of_singleton in Hp' as ->.
      right. by left.
    + intros p [->|Hp]%elem_of_cons; [|by apply I4]. rewrite Hq. apply I2, elem_of_app. right.
      by apply list_elem_of_singleton.
Qed.

Section DescribeFacts.
Context `{Presentation} (t : jstr -> list (jstr * jsval) -> jstr) (locale : jstr).

(** Every time function of the tree reads the zone of the description. *)
Definition zone_of (n : ExpressionNode) (zone : jstr) : Prop :=
  forall sp f args, Call sp (Ftime f) args ∈ postorder n ->
    exists spz z rest, args = Literal spz (LStr z) :: rest /\ billing_zone z = zone.

(** A description of a single time range has a zone. *)
Definition kind_ok (d : Description) : Prop := ds_kind d = Kcombined \/ ds_timezone d <> [].

Lemma describeTimeRange_inv first rest d : describeTimeRange t locale first rest = Ok (Some d) ->
  ds_timezone d = cmp_timezone first.
Proof.
  unfold describeTimeRange. destruct (foldl _ _ _) as [lo hi]. destruct (fleb hi lo); [done|].
  intros (txt & _ & [= <-])%res_bind_Ok. done.
Qed.

Lemma timeComparison_inv n c : wf_node n -> timeComparison n = Some c ->
  zone_of n (cmp_timezone c) /\ cmp_timezone c <> [].
Proof.
  intros Hw Hc. destruct n as [| | | |sp o l r|]; try done. destruct l as [| |spl f args| | |]; try done.
  destruct f; try done. destruct args as [|a args]; [done|]. cbn [timeComparison] in Hc.
  apply bind_Some in Hc as (z & Hz & Hc). apply bind_Some in Hc as (x & Hx & Hc).
  destruct (_ && _); [|done]. injection Hc as <-. simpl. split; [|apply billing_zone_nonempty].
  assert (wf_node (Call spl (Ftime t0) (a :: args))) as [_ _ _ Har _]
    by (apply (wf_child _ _ Hw); by left).
  destruct args; [|done]. destruct a as [spa k| | | | |]; try done. destruct k; simplify_eq/=.
  destruct r as [spr k| | | | |]; try done.
  intros sp' f' args' Hin. cbn [postorder map concat app] in Hin.
  rewrite !elem_of_cons, elem_of_nil in Hin. destruct Hin as [?|[?|[?|[?|[]]]]]; simplify_eq. eauto.
Qed.

Lemma variable_comparison_inv n q : variable_comparison n = Some q -> forall zone, zone_of n zone.
Proof.
  intros Hq zone. destruct n as [| | | |sp o l r|]; try done. destruct l as [|spl v| | | |]; try done.
  cbn [variable_comparison] in Hq. destruct (_ || _); [|done]. apply bind_Some in Hq as (x & Hx & _).
  destruct r as [spr k| | | | |]; try done. intros sp' f' args' Hin. cbn [postorder app] in Hin.
  rewrite !elem_of_cons, elem_of_nil in Hin. destruct Hin as [?|[?|[?|[]]]]; simplify_eq.
Qed.

(** Combining keeps the only zone of the parts. *)
Lemma combine_zone conj parts d : combine t conj parts = Some d -> Forall kind_ok parts ->
  kind_ok d /\ (forall p, p ∈ parts -> ds_timezone p <> [] -> ds_timezone d = ds_timezone p).
Proof.
  intros Hc Hk. destruct (zones_spec parts) as [_ Hz]. unfold combine in Hc.
  destruct parts as [|first rest] eqn:Hp; [done|]. rewrite <- Hp in *.
  destruct (Nat.ltb_spec 1 (length (zones parts))) as [|Hlen]; [done|].
  assert (forall p, p ∈ parts -> ds_timezone p <> [] -> zones parts = [ds_timezone p]) as Hone.
  { intros p Hin Hne. assert (ds_timezone p ∈ zones parts) as Hin'
      by (apply Hz; split; [done|]; by apply list_elem_of_fmap_2).
    destruct (zones parts) as [|z [|? ?]]; [by apply elem_of_nil in Hin'| |simpl in Hlen; lia].
    by apply list_elem_of_singleton in Hin' as ->. }
  destruct rest as [|second rest].
  { injection Hc as <-. rewrite Hp in *. inversion_clear Hk. split; [done|].
    by intros p ->%list_elem_of_singleton _. }
  assert (Hgeneral : ds_timezone d = default [] (head (zones parts)) ->
    (ds_kind d <> Kcombined -> Forall (fun p => ds_timezone p <> []) parts) ->
    kind_ok d /\ (forall p, p ∈ parts -> ds_timezone p <> [] -> ds_timezone d = ds_timezone p)).
  { intros Ht Hkind. split.
    - destruct (decide (ds_kind d = Kcombined)) as [|Hn]; [by left|right].
      specialize (Hkind Hn). rewrite Forall_forall in Hkind.
      assert (first ∈ parts) as Hf by (rewrite Hp; by left). rewrite Ht, (Hone first Hf (Hkind _ Hf)).
      by apply Hkind.
    - intros p Hin Hne. by rewrite Ht, (Hone p Hin Hne). }
  destruct (calendar_and_clock conj parts) eqn:Hcc; injection Hc as <-.
  - assert (ds_timezone first <> []) as Hf.
    { rewrite Hp in Hk, Hcc. inversion_clear Hk as [|? ? [Hkf|] _]; [|done].
      unfold calendar_and_clock, of_kind, has_kind in Hcc. simpl in Hcc. rewrite Hkf in Hcc.
      rewrite !bool_decide_eq_false_2 in Hcc by done. exfalso. revert Hcc. destruct conj; [|done].
      destruct rest; [|done]. simpl. by destruct (ds_kind second). }
    split; [by left|]. intros p Hin Hne. simpl.
    assert (first ∈ parts) as Hfin by (rewrite Hp; by left).
    pose proof (Hone p Hin Hne). pose proof (Hone first Hfin Hf). congruence.
  - apply Hgeneral; [done|]. simpl. destruct (Nat.eqb_spec (length (of_kind Kclock parts)) (length parts))
      as [Hlc|]; [|done]. intros _. clear -Hlc Hk. unfold of_kind in Hlc.
    induction Hk as [|p l Hp Hl IH]; [constructor|]. simpl in Hlc. unfold has_kind at 1 in Hlc.
    pose proof (List.filter_length_le (has_kind Kclock) l).
    case_bool_decide as Hclk; simpl in Hlc; [|lia]. constructor; [|apply IH; lia].
    destruct Hp; [congruence|done].
Qed.

(** The zone of a tree with time functions is not empty. *)
Lemma zone_of_or n z z' : zone_of n z -> (z <> [] -> z' = z) -> zone_of n z'.
Proof.
  intros Hz Hzz sp f args Hin. destruct (Hz sp f args Hin) as (spz & y & rest & -> & Hy).
  exists spz, y, rest. split; [done|]. rewrite Hzz; [done|]. rewrite <- Hy. apply billing_zone_nonempty.
Qed.

Definition described_ok (n : ExpressionNode) (d : Description) : Prop :=
  zone_of n (ds_timezone d) /\ kind_ok d.

Lemma described_list f ns ds : (forall n d, n ∈ ns -> f n = Ok (Some d) -> described_ok n d) ->
  all_described f ns = Ok (Some ds) ->
  Forall kind_ok ds /\ (forall n, n ∈ ns -> exists d, d ∈ ds /\ zone_of n (ds_timezone d)).
Proof.
  intros Hf Hd%all_described_inv. induction Hd as [|n d ns ds Hnd _ IH].
  { split; [constructor|]. by intros n ?%elem_of_nil. }
  destruct IH as [I1 I2]; [intros m e Hm; apply Hf; by right|].
  destruct (Hf n d) as [Hz Hk]; [by left|done|]. split; [by constructor|].
  intros m [->|Hm]%elem_of_cons; [exists d; split; [by left|done]|].
  destruct (I2 m Hm) as (e & He & ?). exists e. split; [by right|done].
Qed.

Lemma described_ranges m rs : describe_ranges t locale m = Ok (Some rs) ->
  (forall e, e ∈ m -> cmp_timezone (fst (snd e)) <> []) ->
  Forall kind_ok rs /\ (forall c, in_ranges c m -> exists d, d ∈ rs /\ ds_timezone d = cmp_timezone c).
Proof.
  intros Hd%all_described_inv Hm. induction Hd as [|[k [first rest]] d m rs He _ IH].
  { split; [constructor|]. by intros c (e & ?%elem_of_nil & _). }
  apply describeTimeRange_inv in He. destruct IH as [I1 I2]; [intros e Hin; apply Hm; by right|].
  split.
  - constructor; [|done]. right. rewrite He. apply (Hm (k, (first, rest))). by left.
  - intros c (e & [->|Hin]%elem_of_cons & Hz).
    + exists d. split; [by left|]. simpl in Hz. congruence.
    + destruct (I2 c) as (d' & Hd' & ?); [by exists e|]. exists d'. split; [by right|done].
Qed.

(** Ranges only hold comparisons of the operands. *)
Lemma ranges_nonempty nodes m others m' others' : Forall wf_node nodes ->
  (forall e, e ∈ m -> cmp_timezone (fst (snd e)) <> []) ->
  split_operands nodes m others = (m', others') ->
  forall e, e ∈ m' -> cmp_timezone (fst (snd e)) <> [].
Proof.
  intros Hw. revert m others. induction Hw as [|q nodes Hq Hw IH]; intros m others Hm; simpl.
  { intros [= <- <-]. done. }
  destruct (timeComparison q) as [c|] eqn:Hc; apply IH; [|done].
  destruct (timeComparison_inv q c Hq Hc) as [_ Hz]. clear -Hm Hz.
  induction m as [|[k [first rest]] m IHm]; simpl.
  - by intros e ->%list_elem_of_singleton.
  - assert (cmp_timezone first <> []) by (apply (Hm (k, (first, rest))); by left).
    destruct (decide _); intros e1 [->|He]%elem_of_cons; try done; [apply Hm; by right|].
    apply IHm; [|done]. intros e' He'. apply Hm. by right.
Qed.

(** The zone of a group is the zone of each of its operands. *)
Lemma zone_of_parts n o (parts : list Description) d :
  (forall p, p ∈ parts -> ds_timezone p <> [] -> ds_timezone d = ds_timezone p) ->
  (forall m, m ∈ flattenBinary n o -> exists p, p ∈ parts /\ zone_of m (ds_timezone p)) ->
  zone_of n (ds_timezone d).
Proof.
  intros Hd Hm sp f args Hin.
  destruct (flatten_cover n o _ Hin) as [(m & Hmo & Hin')|(? & ? & ? & ?)]; [|done].
  destruct (Hm m Hmo) as (p & Hp & Hz). by eapply (zone_of_or m _ _ Hz (Hd p Hp)).
Qed.

Lemma describe_or_ok f n d :
  (forall m e, m ∈ flattenBinary n Bor -> f m = Ok (Some e) -> described_ok m e) ->
  describe_or t f (flattenBinary n Bor) = Ok (Some d) -> described_ok n d.
Proof.
  intros Hf (parts & Hps & Hc)%res_bind_Ok. destruct parts as [ps|]; [|done]. injection Hc as Hcomb.
  destruct (described_list _ _ _ Hf Hps) as [Hk Hz].
  destruct (combine_zone _ _ _ Hcomb Hk) as [Hkd Hzd]. split; [|done]. by eapply zone_of_parts.
Qed.

Lemma describe_and_ok f n d : wf_node n ->
  (forall m e, m ∈ flattenBinary n Band -> f m = Ok (Some e) -> described_ok m e) ->
  describe_and t locale f (flattenBinary n Band) = Ok (Some d) -> described_ok n d.
Proof.
  intros Hw Hf. unfold describe_and.
  destruct (split_operands (flattenBinary n Band) [] []) as [ranges others] eqn:Hs.
  intros (parts & Hps & Hr)%res_bind_Ok. destruct parts as [ps|]; [|done].
  apply res_bind_Ok in Hr as (rs & Hrs & Hr). destruct rs as [rs|]; [|done]. injection Hr as Hcomb.
  destruct (split_operands_spec _ [] [] _ _ ltac:(by intros e ?%elem_of_nil) Hs) as (_ & _ & S3 & S4).
  assert (forall p, p ∈ others -> p ∈ flattenBinary n Band) as Hoth
    by (intros p Hp; destruct (S3 p Hp) as [Hnil|]; [by apply elem_of_nil in Hnil|done]).
  destruct (described_list f others ps) as [Hk1 Hz1]; [by eauto|done|].
  assert (Forall wf_node (flattenBinary n Band)) as Hwf.
  { apply Forall_forall. intros p Hp. apply (wf_descendant _ p Hw). by eapply flattenBinary_sub. }
  destruct (described_ranges ranges rs Hrs) as [Hk2 Hz2].
  { eapply (ranges_nonempty _ [] []); [exact Hwf| |exact Hs]. by intros e ?%elem_of_nil. }
  destruct (combine_zone _ _ _ Hcomb) as [Hkd Hzd]; [by apply Forall_app|]. split; [|done].
  eapply zone_of_parts; [exact Hzd|]. intros m Hm. specialize (S4 m Hm).
  destruct (timeComparison m) as [c|] eqn:Hcm.
  - rewrite Forall_forall in Hwf. destruct (timeComparison_inv m c (Hwf m Hm) Hcm) as [Hzm _].
    destruct (Hz2 c S4) as (e & He & Hez). exists e. rewrite Hez. split; [|done].
    apply elem_of_app. by right.
  - destruct (Hz1 m S4) as (e & He & Hze). exists e. split; [|done]. apply elem_of_app. by left.
Qed.

Lemma describe_zone fuel n d : wf_node n -> describe t locale fuel n = Ok (Some d) -> described_ok n d.
Proof.
  revert n d. induction fuel as [|fuel IH]; intros n d Hw Hd; [done|].
  assert (Hparts : forall o m e, m ∈ flattenBinary n o -> describe t locale fuel m = Ok (Some e) ->
    described_ok m e).
  { intros o m e Hm. apply IH. apply (wf_descendant n m Hw). by eapply flattenBinary_sub. }
  cbn [describe] in Hd.
  destruct n as [| | |sp o a|sp o l r|]; try done.
  { destruct o; try done. apply res_bind_Ok in Hd as (e & He & Hd). destruct e as [e|]; [|done].
    injection Hd as <-. destruct (IH a e) as [Hz _]; [apply (wf_child _ _ Hw); by left|done|].
    split; [|by left]. intros sp' f args Hin. cbn [postorder] in Hin.
    rewrite elem_of_app, list_elem_of_singleton in Hin. destruct Hin as [Hin|]; [by eapply Hz|done]. }
  destruct (variable_comparison (Binary sp o l r)) as [[[v op] x]|] eqn:Hvar.
  { unfold describe_variable in Hd. destruct (variable_label v); [|done].
    apply res_bind_Ok in Hd as (num & _ & [= <-]). split; [by eapply variable_comparison_inv|by left]. }
  destruct (timeComparison (Binary sp o l r)) as [c|] eqn:Hc.
  { destruct (timeComparison_inv _ c Hw Hc) as [Hz Hne]. apply describeTimeRange_inv in Hd.
    split; [by rewrite Hd|]. right. by rewrite Hd. }
  destruct o; try done.
  - eapply describe_or_ok; [|exact Hd]. apply Hparts.
  - eapply describe_and_ok; [done| |exact Hd]. apply Hparts.
Qed.

(** ** The recursion never runs out of fuel *)

Lemma all_described_fuel {A} (f : A -> res exn (option Description)) l :
  (forall x, x ∈ l -> f x <> Err OutOfFuel) -> all_described f l <> Err OutOfFuel.
Proof.
  induction l as [|x l IH]; intros Hl; simpl; [done|].
  pose proof (Hl x ltac:(by left)) as Hx. destruct (f x) as [[d|]|e]; simpl; [|done|congruence].
  pose proof (IH ltac:(intros y Hy; apply Hl; by right)) as Hr.
  destruct (all_described f l) as [[]|e]; simpl; congruence.
Qed.

Lemma describeTimeRange_fuel c rest : describeTimeRange t locale c rest <> Err OutOfFuel.
Proof.
  unfold describeTimeRange. destruct (foldl _ _ _) as [lo hi]. destruct (fleb hi lo); [done|].
  unfold range_text. destruct (cmp_name c); simpl; try done.
  destruct (weekday_short _ _); simpl; [|done]. by destruct (weekday_short _ _).
Qed.

Lemma describe_fuel fuel n : node_size n <= fuel -> describe t locale fuel n <> Err OutOfFuel.
Proof.
  revert n. induction fuel as [|fuel IH]; intros n Hn; [pose proof (node_size_unfold n); lia|].
  cbn [describe]. destruct n as [| | |sp o a|sp o l r|]; try done.
  { destruct o; try done. pose proof (IH a ltac:(simpl in Hn; lia)) as Ha.
    destruct (describe t locale fuel a) as [[]|e]; simpl; congruence. }
  destruct (variable_comparison (Binary sp o l r)) as [[[v op] x]|].
  { unfold describe_variable. destruct (variable_label v); [|done]. by destruct (locale_number _ _). }
  destruct (timeComparison (Binary sp o l r)) as [c|]; [apply describeTimeRange_fuel|].
  assert (Hsub : forall m, m ∈ flattenBinary (Binary sp o l r) o -> describe t locale fuel m <> Err OutOfFuel).
  { intros m Hm%flattenBinary_smaller. apply IH. lia. }
  destruct o; try done.
  - unfold describe_or. pose proof (all_described_fuel _ _ Hsub) as Ha.
    destruct (all_described _ _) as [[]|e]; simpl; congruence.
  - unfold describe_and. destruct (split_operands _ [] []) as [ranges others] eqn:Hs.
    destruct (split_operands_spec _ [] [] _ _ ltac:(by intros e ?%elem_of_nil) Hs) as (_ & _ & S3 & _).
    pose proof (all_described_fuel (describe t locale fuel) others) as Ha.
    destruct (all_described _ others) as [[ps|]|e]; simpl; [|done|].
    + pose proof (all_described_fuel (fun '(_, (first, rest)) => describeTimeRange t locale first rest) ranges)
        as Hr.
      unfold describe_ranges. destruct (all_described _ ranges) as [[]|e]; simpl; [done..|].
      intros [= ->]. apply Hr; [|done]. intros [k [first rest]] _. apply describeTimeRange_fuel.
    + intros [= ->]. apply Ha; [|done]. intros x Hx. apply Hsub.
      destruct (S3 x Hx) as [Hnil|]; [by apply elem_of_nil in Hnil|done].
Qed.
End DescribeFacts.

(** ** Properties *)

(** A condition that is shown in words mentions one time zone: when the
    description has a zone, every time function of the condition reads exactly
    that zone (an empty zone counting as UTC); when it has none, the condition
    has no time function. *)
Theorem description_one_zone `{Presentation} (source locale : jstr) (c : CompiledBillingExpression)
    (d : Description) (t : jstr -> list (jstr * jsval) -> jstr) :
  compile source = Ready c -> describeBillingCondition t locale (c_ast c) = Ok (Some d) ->
  forall sp f args, Call sp (Ftime f) args ∈ postorder (c_ast c) ->
    exists spz z rest, args = Literal spz (LStr z) :: rest /\ billing_zone z = ds_timezone d.
Proof.
  intros Hc%compile_ready_ok Hd. by apply (describe_zone t locale (node_size (c_ast c)) (c_ast c) d (co_wf _ _ Hc)).
Qed.

Definition plain_presentation : Presentation :=
  {| translate_key := fun k _ => k;
     weekday_short := fun _ _ => Some (js "Sun");
     locale_number := fun _ x => Some (number_to_string x) |}.

Definition sample_condition : jstr := js "hour('UTC') >= 9 && hour(' UTC') < 18 && weekday('') > 0".

Lemma description_one_zone_witness :
  exists d, describeBillingCondition (H := plain_presentation) (fun k _ => k) (js "en")
      (c_ast (compiled_or sample_condition)) = Ok (Some d) /\
    forall sp f args, Call sp (Ftime f) args ∈ postorder (c_ast (compiled_or sample_condition)) ->
      exists spz z rest, args = Literal spz (LStr z) :: rest /\ billing_zone z = ds_timezone d.
Proof.
  eexists. split; [vm_compute; reflexivity|].
  apply (@description_one_zone plain_presentation sample_condition (js "en")
           (compiled_or sample_condition) _ (fun k _ => k)); vm_compute; reflexivity.
Defined.

(** Describing a condition never exhausts the recursion budget of the model:
    [describeBillingCondition] returns a description, no description, or the
    error of a host call. *)
Theorem description_terminates `{Presentation} (n : ExpressionNode) (locale : jstr)
    (t : jstr -> list (jstr * jsval) -> jstr) :
  describeBillingCondition t locale n <> Err OutOfFuel.
Proof. by apply describe_fuel. Qed.
