(* ===== verification/JsJson.v ===== *)
(** * JSON.parse

    [JSON.parse] and the property reads the sources make on its result, and
    [JSON.stringify] of a number.  [JSON.stringify] of a string is
    [json_stringify] of [JsString].  A parser takes the rest of the text and
    returns a value with the text after it; [None] is the [SyntaxError].

    The recursion on values is bounded by the length of the text, which every
    nested value shortens: the exhaustion of the bound is never reached before the
    text ends. *)

From stdpp Require Import base list numbers strings.
From Stdlib Require Import ZArith SpecFloat Lia.
From S2P Require Import Prelude.
From S2P Require Import JsString.
From S2P Require Import JsNumber.
From S2P Require Import JsNumberFacts.
From S2P Require Import JsValue.

(** ** Tokens *)

Definition json_space (c : N) : bool := ((c =? 9) || (c =? 10) || (c =? 13) || (c =? 32))%N.

Definition json_ws (l : jstr) : jstr := snd (span_while json_space l).

Definition hex4 (a b c d : N) : option N :=
  if is_hex a && is_hex b && is_hex c && is_hex d
  then Some (4096 * hex_val a + 256 * hex_val b + 16 * hex_val c + hex_val d)%N else None.

(** The character an escape of one letter stands for. *)
Definition json_escape (c : N) : option N :=
  if (c =? 34)%N || (c =? 92)%N || (c =? 47)%N then Some c
  else if (c =? 98)%N then Some 8%N
  else if (c =? 102)%N then Some 12%N
  else if (c =? 110)%N then Some 10%N
  else if (c =? 114)%N then Some 13%N
  else if (c =? 116)%N then Some 9%N
  else None.

(** The text after the opening quote. *)
Fixpoint json_string (l : jstr) : option (jstr * jstr) :=
  match l with
  | [] => None
  | c :: l' =>
      if (c =? 34)%N then Some ([], l')
      else if (c <? 32)%N then None
      else if (c =? 92)%N then
        match l' with
        | [] => None
        | e :: l'' =>
            if (e =? 117)%N then
              match l'' with
              | h1 :: h2 :: h3 :: h4 :: l3 =>
                  match hex4 h1 h2 h3 h4, json_string l3 with
                  | Some u, Some (s, r) => Some (u :: s, r)
                  | _, _ => None
                  end
              | _ => None
              end
            else
              match json_escape e, json_string l'' with
              | Some u, Some (s, r) => Some (u :: s, r)
              | _, _ => None
              end
        end
      else match json_string l' with
           | Some (s, r) => Some (c :: s, r)
           | None => None
           end
  end.

(** No leading zero, at least one digit. *)
Definition json_int (ip : jstr) : bool :=
  match ip with
  | [] => false
  | [_] => true
  | c :: _ => negb (c =? 48)%N
  end.

(** A point is followed by a digit. *)
Definition json_point (r : jstr) : bool :=
  match r with
  | c :: r' => if (c =? 46)%N then match r' with d :: _ => is_digit d | [] => false end else true
  | [] => true
  end.

Definition json_unsigned (l : jstr) : option (f64 * jstr) :=
  let '(ip, r) := span_while is_digit l in
  if json_int ip && json_point r then
    match scan_decimal l with
    | Some d => Some (decimal_value d, dec_rest d)
    | None => None
    end
  else None.

Definition json_number (l : jstr) : option (f64 * jstr) :=
  match l with
  | c :: l' =>
      if (c =? 45)%N then
        match json_unsigned l' with Some (x, r) => Some (fneg x, r) | None => None end
      else json_unsigned l
  | [] => None
  end.

(** ** Objects *)

(** A property name that is an array index: these come first in the order of
    [Object.entries], in increasing order. *)
Definition index_key (k : jstr) : option N :=
  if forallb is_digit k && jeqb k (N_digits (digits_val k)) && (digits_val k <? 4294967295)%N
  then Some (digits_val k) else None.

Definition key_before (k1 k2 : jstr) : bool :=
  match index_key k1, index_key k2 with
  | Some a, Some b => (a <? b)%N
  | Some _, None => true
  | None, _ => false
  end.

(** [object[key] = value] on an own property or a new one. *)
Fixpoint obj_set (entries : list (jstr * jsval)) (k : jstr) (v : jsval) : list (jstr * jsval) :=
  match entries with
  | [] => [(k, v)]
  | (k', v') :: rest =>
      if jeqb k' k then (k, v) :: rest
      else if key_before k k' && negb (existsb (fun e => jeqb e.1 k) rest) then (k, v) :: entries
      else (k', v') :: obj_set rest k v
  end.

Fixpoint obj_get (entries : list (jstr * jsval)) (k : jstr) : jsval :=
  match entries with
  | [] => JUndefined
  | (k', v) :: rest => if jeqb k' k then v else obj_get rest k
  end.

(** ** Values *)

Section Elements.
Context (value : jstr -> option (jsval * jstr)).

(** The elements after an opening bracket that does not close at once. *)
Fixpoint json_elements (turns : nat) (l : jstr) : option (list jsval * jstr) :=
  match turns with
  | O => None
  | S turns' =>
      '(v, r) ← value l;
      match json_ws r with
      | c :: r' =>
          if (c =? 44)%N then '(vs, r'') ← json_elements turns' r'; Some (v :: vs, r'')
          else if (c =? 93)%N then Some ([v], r')
          else None
      | [] => None
      end
  end.

(** The members after an opening brace that does not close at once, in the order
    of the text. *)
Fixpoint json_members (turns : nat) (l : jstr) : option (list (jstr * jsval) * jstr) :=
  match turns with
  | O => None
  | S turns' =>
      match json_ws l with
      | q :: l1 =>
          if (q =? 34)%N then
            '(k, r) ← json_string l1;
            match json_ws r with
            | c :: r1 =>
                if (c =? 58)%N then
                  '(v, r2) ← value r1;
                  match json_ws r2 with
                  | d :: r3 =>
                      if (d =? 44)%N then '(ms, r4) ← json_members turns' r3; Some ((k, v) :: ms, r4)
                      else if (d =? 125)%N then Some ([(k, v)], r3)
                      else None
                  | [] => None
                  end
                else None
            | [] => None
            end
          else None
      | [] => None
      end
  end.
End Elements.

Definition json_word (w : string) (v : jsval) (l : jstr) : option (jsval * jstr) :=
  if starts_with (js w) l then Some (v, drop (length (js w)) l) else None.

Fixpoint json_value (fuel : nat) (l : jstr) : option (jsval * jstr) :=
  match fuel with
  | O => None
  | S fuel' =>
      let t := json_ws l in
      match t with
      | [] => None
      | c :: r =>
          if (c =? 34)%N then '(s, r') ← json_string r; Some (JStr s, r')
          else if (c =? 91)%N then
            match json_ws r with
            | d :: r' =>
                if (d =? 93)%N then Some (JArr [], r')
                else '(vs, r'') ← json_elements (json_value fuel') (length r) r; Some (JArr vs, r'')
            | [] => None
            end
          else if (c =? 123)%N then
            match json_ws r with
            | d :: r' =>
                if (d =? 125)%N then Some (JObj [], r')
                else '(ms, r'') ← json_members (json_value fuel') (length r) r;
                     Some (JObj (foldl (fun o m => obj_set o m.1 m.2) [] ms), r'')
            | [] => None
            end
          else if (c =? 116)%N then json_word "true" (JBool true) t
          else if (c =? 102)%N then json_word "false" (JBool false) t
          else if (c =? 110)%N then json_word "null" JNull t
          else '(x, r') ← json_number t; Some (JNum x, r')
      end
  end.

(** [JSON.parse(text)] *)
Definition json_parse (text : jstr) : option jsval :=
  '(v, r) ← json_value (S (length text)) text;
  match json_ws r with [] => Some v | _ => None end.

(** ** Property reads *)

(** [value.key]: reading a property of [null] or [undefined] throws.  The keys
    the sources read are own properties of objects, or positions. *)
Definition prop (v : jsval) (k : jstr) : option jsval :=
  match v with
  | JUndefined | JNull => None
  | JObj entries => Some (obj_get entries k)
  | JArr _ | JStr _ | JBool _ | JNum _ => Some JUndefined
  end.

(** [value?.key] *)
Definition opt_prop (v : jsval) (k : jstr) : jsval := default JUndefined (prop v k).

(** [value?.[0]] *)
Definition opt_first (v : jsval) : jsval :=
  match v with
  | JArr (x :: _) => x
  | JStr (c :: _) => JStr [c]
  | JObj entries => obj_get entries (js "0")
  | _ => JUndefined
  end.

(** [Boolean(value)] *)
Definition truthy (v : jsval) : bool :=
  match v with
  | JUndefined | JNull => false
  | JBool b => b
  | JNum x => negb (feqb x fzero) && feqb x x
  | JStr s => match s with [] => false | _ => true end
  | JArr _ | JObj _ => true
  end.

(** [String(value)] *)
Fixpoint text_of (v : jsval) : jstr :=
  match v with
  | JUndefined => js "undefined"
  | JNull => js "null"
  | JBool b => if b then js "true" else js "false"
  | JNum x => number_to_string x
  | JStr s => s
  | JArr items =>
      join (js ",") ((fun item => if is_nullish item then [] else text_of item) <$> items)
  | JObj _ => js "[object Object]"
  end.

(** [JSON.stringify(x)] on a number *)
Definition json_number_text (x : f64) : jstr := if is_finite x then number_to_string x else js "null".

(** JSON text written with single quotes for its double quotes. *)
Definition single_quoted (s : string) : jstr := (fun c => if (c =? 39)%N then 34%N else c) <$> js s.

Example json_example :
  json_parse (single_quoted "{'a': [1, -2.5e1, true], 'b' : {'c': 'x\u0041\n'}, 'a' : null}") =
  Some (JObj [(js "a", JNull); (js "b", JObj [(js "c", JStr [120; 65; 10]%N)])]).
Proof. vm_compute. reflexivity. Qed.

Example json_rejects :
  (json_parse <$> [js "01"; js "1."; js "[1,]"; js "{a:1}"; js "nul"; js "1 2"]) = replicate 6 None.
Proof. vm_compute. reflexivity. Qed.

(** ** Reading back a string *)

(** The text between the quotes of a JSON string, piece by piece, and its value. *)
Inductive json_body : jstr -> jstr -> Prop :=
| body_nil : json_body [] []
| body_plain c text s : (32 <=? c)%N = true -> (c =? 34)%N = false -> (c =? 92)%N = false ->
    json_body text s -> json_body (c :: text) (c :: s)
| body_escape e c text s : json_escape e = Some c -> json_body text s -> json_body (92%N :: e :: text) (c :: s)
| body_unicode h1 h2 h3 h4 c text s : hex4 h1 h2 h3 h4 = Some c -> json_body text s ->
    json_body (92%N :: 117%N :: h1 :: h2 :: h3 :: h4 :: text) (c :: s).

Lemma hex_digit_hex n : (n < 16)%N -> is_hex (hex_digit n) = true /\ hex_val (hex_digit n) = n.
Proof.
  intros Hn. destruct n as [|p]; [done|]. do 4 (destruct p as [p|p|]; [| |done]); lia.
Qed.

Lemma hex4_escape c : (c < 65536)%N ->
  hex4 (hex_digit (c / 4096 mod 16)) (hex_digit (c / 256 mod 16)) (hex_digit (c / 16 mod 16)) (hex_digit (c mod 16))
  = Some c.
Proof.
  intros Hc. unfold hex4.
  destruct (hex_digit_hex (c / 4096 mod 16)) as [-> ->]; [by apply N.mod_lt|].
  destruct (hex_digit_hex (c / 256 mod 16)) as [-> ->]; [by apply N.mod_lt|].
  destruct (hex_digit_hex (c / 16 mod 16)) as [-> ->]; [by apply N.mod_lt|].
  destruct (hex_digit_hex (c mod 16)) as [-> ->]; [by apply N.mod_lt|]. simpl. f_equal.
  change 4096%N with (16 * (16 * 16))%N at 2. change 256%N with (16 * 16)%N at 2. rewrite <- !N.Div0.div_div.
  assert (c / 16 / 16 / 16 < 16)%N by (do 3 (apply N.Div0.div_lt_upper_bound; simpl); lia).
  rewrite (N.mod_small (c / 16 / 16 / 16)) by done.
  pose proof (N.div_mod c 16). pose proof (N.div_mod (c / 16) 16). pose proof (N.div_mod (c / 16 / 16) 16). lia.
Qed.

Lemma body_unicode_escape c text s : (c < 65536)%N -> json_body text s ->
  json_body (unicode_escape c ++ text) (c :: s).
Proof. intros Hc Hb. unfold unicode_escape. simpl. by apply body_unicode; [apply hex4_escape|]. Qed.

Lemma json_chars_body v : json_body (json_chars v) v.
Proof.
  induction v as [v IH] using (induction_ltof1 _ (@length N)). unfold ltof in IH.
  destruct v as [|c v]; [constructor|]. simpl.
  assert (json_body (json_chars v) v) as Hv by (apply IH; simpl; lia).
  destruct (N.eqb_spec c 8) as [->|H8]; [by apply body_escape|].
  destruct (N.eqb_spec c 9) as [->|H9]; [by apply body_escape|].
  destruct (N.eqb_spec c 10) as [->|H10]; [by apply body_escape|].
  destruct (N.eqb_spec c 12) as [->|H12]; [by apply body_escape|].
  destruct (N.eqb_spec c 13) as [->|H13]; [by apply body_escape|].
  destruct (N.eqb_spec c 34) as [->|H34]; [by apply body_escape|].
  destruct (N.eqb_spec c 92) as [->|H92]; [by apply body_escape|].
  destruct (N.ltb_spec c 32) as [H|H]; [apply (body_unicode_escape c (json_chars v)); [lia | done]|].
  assert (forall d, is_trail d = true -> (32 <=? d)%N = true /\ (d =? 34)%N = false /\ (d =? 92)%N = false
            /\ (d < 65536)%N) as Htrail.
  { unfold is_trail. intros d [? ?]%andb_true_iff. rewrite N.leb_le, !N.eqb_neq in *. lia. }
  assert (is_lead c = true -> (c < 65536)%N) as Hlead.
  { unfold is_lead. intros [? ?]%andb_true_iff. rewrite !N.leb_le in *. lia. }
  assert ((32 <=? c)%N = true /\ (c =? 34)%N = false /\ (c =? 92)%N = false) as (P1 & P2 & P3)
    by (rewrite N.leb_le, !N.eqb_neq; lia).
  destruct (is_lead c) eqn:El; [destruct v as [|d v]; [|destruct (is_trail d) eqn:Ed]|destruct (is_trail c) eqn:Et].
  - apply (body_unicode_escape c []); [auto | constructor].
  - destruct (Htrail d Ed) as (? & ? & ? & _). apply body_plain; [done..|]. apply body_plain; [done..|].
    apply IH. simpl. lia.
  - apply (body_unicode_escape c (json_chars (d :: v))); auto.
  - destruct (Htrail c Et) as (_ & _ & _ & ?). by apply (body_unicode_escape c (json_chars v)).
  - by apply body_plain.
Qed.

Lemma json_string_body text s r : json_body text s -> json_string (text ++ 34%N :: r) = Some (s, r).
Proof.
  induction 1 as [|c text s H1 H2 H3 _ IH|e c text s He _ IH|h1 h2 h3 h4 c text s Hh _ IH].
  - done.
  - simpl. rewrite H2, H3, IH. assert ((c <? 32)%N = false) as -> by (apply N.ltb_ge; by apply N.leb_le in H1). done.
  - simpl. destruct (N.eqb_spec e 117) as [->|_]; [done|]. by rewrite He, IH.
  - simpl. by rewrite Hh, IH.
Qed.

(** [JSON.parse(JSON.stringify(s)) === s] *)
Lemma json_parse_stringify s : json_parse (json_stringify s) = Some (JStr s).
Proof.
  unfold json_parse, json_stringify. cbn [app length json_value].
  change (json_ws (34%N :: json_chars s ++ [34%N])) with (34%N :: json_chars s ++ [34%N]). simpl.
  by rewrite (json_string_body (json_chars s) s []) by apply json_chars_body.
Qed.
