(* ===== verification/HttpStatusRules.v ===== *)
(** * HTTP status code rules

    Model of [lib/http-status-code-rules.ts]: the parser of the rules that say
    which upstream status codes disable a channel or make a request be retried.
    Codes are three-digit numbers, so the numbers of the model are naturals;
    [parseInt] of longer digit strings only matters through the bound 599. *)

From stdpp Require Import base list numbers strings sorting.
From Stdlib Require Import ZArith Lia.
From S2P Require Import Prelude.
From S2P Require Import JsString.
From S2P Require Import JsNumber.
From S2P Require Import JsNumberFacts.
From S2P Require Import BillingStructure.

Module StatusCodes.

Record StatusCodeRange := { range_start : N; range_end : N }.

Record ParsedHttpStatusCodeRules := {
  ok : bool;
  ranges : list StatusCodeRange;
  tokens : list jstr;
  normalized : jstr;
  invalidTokens : list jstr;
}.

(** [/^\d+$/.test(s)] *)
Definition isNumber (s : jstr) : bool := match s with [] => false | _ => forallb is_digit s end.

Definition isValidCode (code : N) : bool := ((100 <=? code) && (code <=? 599))%N.

Definition parseToken (token : jstr) : option StatusCodeRange :=
  let cleaned := List.filter (fun c => negb (is_space c)) (trim token) in
  match cleaned with
  | [] => None
  | _ =>
      if existsb (N.eqb 45) cleaned then
        match split_on 45 cleaned with
        | a :: b :: _ =>
            if isNumber a && isNumber b then
              let start := digits_val a in
              let stop := digits_val b in
              if isValidCode start && isValidCode stop && (start <=? stop)%N
              then Some {| range_start := start; range_end := stop |} else None
            else None
        | _ => None
        end
      else if isNumber cleaned then
        let code := digits_val cleaned in
        if isValidCode code then Some {| range_start := code; range_end := code |} else None
      else None
  end.

(** [sort((a, b) => a.start !== b.start ? a.start - b.start : a.end - b.end)] *)
Definition range_leb (a b : StatusCodeRange) : bool :=
  ((range_start a <? range_start b)
   || ((range_start a =? range_start b) && (range_end a <=? range_end b)))%N.

Fixpoint insert_range (x : StatusCodeRange) (l : list StatusCodeRange) : list StatusCodeRange :=
  match l with
  | [] => [x]
  | y :: l' => if range_leb x y then x :: l else y :: insert_range x l'
  end.

Definition sort_ranges (l : list StatusCodeRange) : list StatusCodeRange := foldr insert_range [] l.

(** The reducer; [merged] is kept with its last element first. *)
Definition merge_step (merged : list StatusCodeRange) (current : StatusCodeRange) : list StatusCodeRange :=
  match merged with
  | [] => [current]
  | last :: before =>
      if (range_end last + 1 <? range_start current)%N then current :: merged
      else {| range_start := range_start last;
              range_end := N.max (range_end last) (range_end current) |} :: before
  end.

Definition mergeRanges (l : list StatusCodeRange) : list StatusCodeRange :=
  rev (foldl merge_step [] (sort_ranges l)).

(** The rule text of a range. *)
Definition status_range_text (r : StatusCodeRange) : jstr :=
  if (range_start r =? range_end r)%N then N_digits (range_start r)
  else N_digits (range_start r) ++ js "-" ++ N_digits (range_end r).

(** [raw.replaceAll(/[，]/g, ',')]: the full-width comma is U+FF0C. *)
Definition sanitize (raw : jstr) : jstr := (fun c => if (c =? 65292)%N then 44%N else c) <$> raw.

Definition segments (raw : jstr) : list jstr :=
  List.filter non_empty (trim <$> split_on 44 (sanitize raw)).

(** [input] is [(input ?? '').toString()]. *)
Definition parseHttpStatusCodeRules (input : jstr) : ParsedHttpStatusCodeRules :=
  let raw := trim input in
  match raw with
  | [] => {| ok := true; ranges := []; tokens := []; normalized := []; invalidTokens := [] |}
  | _ =>
      let invalid := List.filter (fun s => match parseToken s with Some _ => false | None => true end)
                       (segments raw) in
      match invalid with
      | _ :: _ =>
          {| ok := false; ranges := []; tokens := []; normalized := raw; invalidTokens := invalid |}
      | [] =>
          let merged := mergeRanges (omap parseToken (segments raw)) in
          let ts := status_range_text <$> merged in
          {| ok := true; ranges := merged; tokens := ts; normalized := join (js ",") ts;
             invalidTokens := [] |}
      end
  end.

(** ** Ranges *)

Definition covers (r : StatusCodeRange) (code : N) : Prop := (range_start r <= code <= range_end r)%N.

Definition covered (l : list StatusCodeRange) (code : N) : Prop := exists r, r ∈ l /\ covers r code.

(** Only the set of the ranges matters. *)
#[global] Instance covered_proper : Proper ((≡ₚ) ==> eq ==> iff) covered.
Proof. intros l k Hlk code _ <-. unfold covered. by setoid_rewrite Hlk. Qed.

Definition range_ok (r : StatusCodeRange) : Prop :=
  (100 <= range_start r /\ range_start r <= range_end r /\ range_end r <= 599)%N.

(** Ascending, with a gap of at least one code between neighbours. *)
Fixpoint separated (l : list StatusCodeRange) : Prop :=
  match l with
  | a :: ((b :: _) as l') => (range_end a + 1 < range_start b)%N /\ separated l'
  | _ => True
  end.

Lemma parseToken_ok s r : parseToken s = Some r -> range_ok r.
Proof.
  unfold parseToken. destruct (List.filter _ _) as [|c cl] eqn:Hc; [done|]. rewrite <- Hc. clear Hc.
  destruct (existsb _ _).
  - destruct (split_on 45 _) as [|a [|b ps]]; try done. destruct (isNumber a && isNumber b); [|done].
    destruct (isValidCode _ && _ && _) eqn:Hv; [|done]. intros [= <-].
    unfold isValidCode in Hv. rewrite !andb_true_iff, !N.leb_le in Hv. unfold range_ok. cbn [range_start range_end]. lia.
  - destruct (isNumber _); [|done]. destruct (isValidCode _) eqn:Hv; [|done]. intros [= <-].
    unfold isValidCode in Hv. rewrite !andb_true_iff, !N.leb_le in Hv. unfold range_ok. cbn [range_start range_end]. lia.
Qed.

Lemma insert_range_perm x l : insert_range x l ≡ₚ x :: l.
Proof.
  induction l as [|y l IH]; simpl; [done|]. destruct (range_leb x y); [done|].
  rewrite IH. apply Permutation_swap.
Qed.

Lemma sort_ranges_perm l : sort_ranges l ≡ₚ l.
Proof. induction l as [|x l IH]; simpl; [done|]. by rewrite insert_range_perm, IH. Qed.

(** Ordered by [start]. *)
Definition start_le (a b : StatusCodeRange) : Prop := (range_start a <= range_start b)%N.

Lemma insert_range_sorted x l : Sorted start_le l -> Sorted start_le (insert_range x l).
Proof.
  induction l as [|y l IH]; intros Hs; simpl; [by repeat constructor|].
  destruct (range_leb x y) eqn:Hle; unfold range_leb in Hle.
  - rewrite orb_true_iff, andb_true_iff, N.ltb_lt, N.eqb_eq in Hle.
    constructor; [done|]. constructor. unfold start_le. lia.
  - apply orb_false_iff in Hle as [Hlt%N.ltb_ge _]. inversion_clear Hs as [|? ? Hs' Hhd]. constructor; [auto|].
    destruct l as [|z l]; simpl; [constructor; unfold start_le; lia|].
    destruct (range_leb x z); constructor; [unfold start_le; lia|by inversion Hhd].
Qed.

Lemma sort_ranges_sorted l : Sorted start_le (sort_ranges l).
Proof. induction l as [|x l IH]; [constructor|]. by apply insert_range_sorted. Qed.

(** The reducer's accumulator, last range first. *)
Fixpoint separated_rev (l : list StatusCodeRange) : Prop :=
  match l with
  | b :: ((a :: _) as l') => (range_end a + 1 < range_start b)%N /\ separated_rev l'
  | _ => True
  end.

Lemma separated_rev_spec l : separated_rev l -> separated (rev l).
Proof.
  induction l as [|b l IH]; [done|]. simpl. destruct l as [|a l]; [done|]. intros [Hab Hs].
  specialize (IH Hs). simpl rev in *. revert IH. rewrite <- app_assoc. simpl.
  generalize (rev l). intros k. induction k as [|x k IHk]; simpl.
  - intros _. split; [done|exact I].
  - destruct k as [|y k]; simpl in *; intros [? ?]; (split; [done|]); by apply IHk.
Qed.

Lemma merge_step_spec acc x : separated_rev acc -> Forall range_ok acc -> range_ok x ->
  (forall r, head acc = Some r -> start_le r x) ->
  separated_rev (merge_step acc x) /\ Forall range_ok (merge_step acc x) /\
  (forall r, head (merge_step acc x) = Some r -> start_le r x) /\
  (forall code, covered (merge_step acc x) code <-> covered acc code \/ covers x code).
Proof.
  intros Hs Hok Hx Hhd. destruct acc as [|last before]; simpl.
  { split; [done|]. split; [by constructor|]. split; [by intros r [= <-]; unfold start_le; lia|].
    intros code. unfold covered. setoid_rewrite list_elem_of_singleton. setoid_rewrite elem_of_nil.
    naive_solver. }
  inversion_clear Hok as [|? ? Hl Hb]. specialize (Hhd last eq_refl). unfold start_le in *.
  destruct (N.ltb_spec (range_end last + 1) (range_start x)) as [Hlt|Hge].
  - split; [by split|]. split; [constructor; [done|by constructor]|]. split; [intros r [= <-]; lia|].
    intros code. unfold covered. setoid_rewrite (elem_of_cons (last :: before)). split.
    + intros (r & [->|Hr] & Hcr); eauto.
    + intros [(r & Hr & Hcr)|Hcx]; eauto.
  - unfold range_ok in *. split; [by destruct before|]. split; [constructor; [simpl; lia|done]|].
    split; [intros r [= <-]; simpl; lia|].
    assert (forall code, covers {| range_start := range_start last;
        range_end := N.max (range_end last) (range_end x) |} code <-> covers last code \/ covers x code) as Hc.
    { intros code. unfold covers. simpl. lia. }
    intros code. unfold covered. setoid_rewrite elem_of_cons. split.
    + intros (r & [->|Hr] & Hcr); [apply Hc in Hcr as [?|?]; eauto|eauto].
    + intros [(r & [->|Hr] & Hcr)|Hcx]; [|by eauto|]; eexists; (split; [by left|]); apply Hc; auto.
Qed.

Lemma merge_fold l acc : Sorted start_le l -> Forall range_ok l -> separated_rev acc -> Forall range_ok acc ->
  (forall r x, head acc = Some r -> head l = Some x -> start_le r x) ->
  separated_rev (foldl merge_step acc l) /\ Forall range_ok (foldl merge_step acc l) /\
  (forall code, covered (foldl merge_step acc l) code <-> covered acc code \/ covered l code).
Proof.
  revert acc. induction l as [|x l IH]; intros acc Hl Hokl Hs Hok Hhd; simpl.
  { split; [done|]. split; [done|]. intros code. unfold covered at 3. setoid_rewrite elem_of_nil. naive_solver. }
  inversion_clear Hl as [|? ? Hl' Hx]. inversion_clear Hokl as [|? ? Hokx Hokl'].
  destruct (merge_step_spec acc x Hs Hok Hokx) as (M1 & M2 & M3 & M4); [intros r Hr; by apply Hhd|].
  destruct (IH (merge_step acc x)) as (I1 & I2 & I3); [done..| |].
  { intros r y Hr Hy. apply M3 in Hr. destruct l as [|z l]; [done|]. simplify_eq/=.
    inversion_clear Hx as [|? ? Hxy]. unfold start_le in *. lia. }
  split; [done|]. split; [done|]. intros code. rewrite I3, M4. unfold covered.
  setoid_rewrite elem_of_cons. naive_solver.
Qed.

Lemma mergeRanges_spec l : Forall range_ok l ->
  separated (mergeRanges l) /\ Forall range_ok (mergeRanges l) /\
  (forall code, covered (mergeRanges l) code <-> covered l code).
Proof.
  intros Hok. unfold mergeRanges.
  destruct (merge_fold (sort_ranges l) []) as (M1 & M2 & M3); try done.
  - apply sort_ranges_sorted.
  - by rewrite sort_ranges_perm.
  - split; [by apply separated_rev_spec|]. split; [by apply Forall_rev|]. intros code.
    rewrite <- Permutation_rev, M3, sort_ranges_perm. split; [|by right].
    intros [(r & Hr%elem_of_nil & _)|]; done.
Qed.


(** ** Reading back what was written *)

Lemma sort_separated l : Forall range_ok l -> separated l -> sort_ranges l = l.
Proof.
  induction l as [|a l IH]; intros Hok Hs; [done|]. inversion_clear Hok as [|? ? Ha Hl]. simpl.
  destruct l as [|b l]; [done|]. destruct Hs as [Hab Hs]. rewrite IH by done. simpl.
  unfold range_ok in Ha. unfold range_leb. destruct (N.ltb_spec (range_start a) (range_start b)); [done|lia].
Qed.

Lemma separated_last acc a x l : separated (rev (a :: acc) ++ x :: l) ->
  (range_end a + 1 < range_start x)%N.
Proof.
  simpl. rewrite <- app_assoc. simpl. generalize (rev acc). intros k.
  induction k as [|y k IHk]; simpl; [by intros [? _]|]. destruct k; simpl in *; intros [_ ?]; auto.
Qed.

Lemma merge_separated l acc : separated (rev acc ++ l) -> foldl merge_step acc l = rev l ++ acc.
Proof.
  revert acc. induction l as [|x l IH]; intros acc Hs; [done|]. simpl.
  assert (merge_step acc x = x :: acc) as ->.
  { destruct acc as [|a acc]; [done|]. apply separated_last in Hs. simpl.
    destruct (N.ltb_spec (range_end a + 1) (range_start x)); [done|lia]. }
  rewrite IH by (simpl; by rewrite <- app_assoc). by rewrite <- app_assoc.
Qed.

Lemma mergeRanges_separated l : Forall range_ok l -> separated l -> mergeRanges l = l.
Proof.
  intros Hok Hs. unfold mergeRanges. rewrite sort_separated, merge_separated by done.
  by rewrite app_nil_r, rev_involutive.
Qed.

Lemma split_on_join sep ts : ts <> [] -> Forall (Forall (fun c => (c =? sep)%N = false)) ts ->
  split_on sep (join [sep] ts) = ts.
Proof.
  intros Hne Hts. induction Hts as [|t ts Ht Hts IH]; [done|].
  destruct ts as [|u ts]; [by apply split_on_none|].
  change (join [sep] (t :: u :: ts)) with (t ++ sep :: join [sep] (u :: ts)).
  rewrite split_on_app by done. by rewrite IH.
Qed.

(** The characters of a rule text. *)
Definition rule_char (c : N) : bool := is_digit c || (c =? 45)%N.

Lemma rule_char_plain c : rule_char c = true ->
  is_space c = false /\ (c =? 44)%N = false /\ (c =? 65292)%N = false.
Proof.
  unfold rule_char, is_digit, is_space. intros Hc. rewrite orb_true_iff, andb_true_iff in Hc.
  rewrite !N.leb_le, N.eqb_eq in Hc.
  rewrite !orb_false_iff, !andb_false_iff, !N.leb_gt, !N.eqb_neq. lia.
Qed.

Lemma range_text_chars r : Forall (fun c => rule_char c = true) (status_range_text r).
Proof.
  assert (forall n, Forall (fun c => rule_char c = true) (N_digits n)) as Hd.
  { intros n. eapply Forall_impl; [apply N_digits_digit|]. intros c Hc. simpl in Hc.
    unfold rule_char. by rewrite Hc. }
  unfold status_range_text. destruct (_ =? _)%N; [done|]. apply Forall_app. split; [done|].
  constructor; [done|apply Hd].
Qed.

Lemma plain_text s : Forall (fun c => rule_char c = true) s ->
  trim s = s /\ List.filter (fun c => negb (is_space c)) s = s.
Proof.
  intros Hs. split.
  - apply trim_id. eapply Forall_impl; [exact Hs|]. intros c Hc. by apply rule_char_plain.
  - induction Hs as [|c s Hc Hs IH]; simpl; [done|]. destruct (rule_char_plain c Hc) as [-> _].
    simpl. by rewrite IH.
Qed.

Lemma N_digits_isNumber n : isNumber (N_digits n) = true.
Proof.
  destruct (N_digits_cons n) as (c & l & He). unfold isNumber. rewrite He, <- He.
  apply forallb_forall. intros x Hx%list_elem_of_In. pose proof (N_digits_digit n) as Hd.
  rewrite Forall_forall in Hd. by apply Hd.
Qed.

Lemma digit_not_dash n : Forall (fun c => (c =? 45)%N = false) (N_digits n).
Proof.
  eapply Forall_impl; [apply N_digits_digit|]. intros c Hc. unfold is_digit in Hc.
  rewrite andb_true_iff, !N.leb_le in Hc. apply N.eqb_neq. lia.
Qed.

Lemma existsb_dash s : Forall (fun c => (c =? 45)%N = false) s -> existsb (N.eqb 45) s = false.
Proof.
  induction 1 as [|c s Hc Hs IH]; [done|]. cbn [existsb]. by rewrite IH, N.eqb_sym, Hc.
Qed.

Lemma parseToken_text r : range_ok r -> parseToken (status_range_text r) = Some r.
Proof.
  intros Hr. unfold parseToken. destruct (plain_text (status_range_text r) (range_text_chars r)) as [-> ->].
  destruct r as [a b]. unfold range_ok in Hr. cbn [range_start range_end] in Hr.
  unfold status_range_text. cbn [range_start range_end].
  assert (forall n, (100 <= n <= 599)%N -> isValidCode n = true) as Hv.
  { intros n Hn. unfold isValidCode. apply andb_true_iff. rewrite !N.leb_le. lia. }
  destruct (N.eqb_spec a b) as [<-|Hne].
  - destruct (N_digits_cons a) as (c & l & He). rewrite He, <- He.
    rewrite existsb_dash by apply digit_not_dash. rewrite N_digits_isNumber, digits_val_N_digits.
    rewrite Hv by lia. done.
  - destruct (N_digits_cons a) as (c & l & He).
    replace (N_digits a ++ js "-" ++ N_digits b) with (c :: l ++ js "-" ++ N_digits b) at 1
      by by rewrite He.
    rewrite existsb_app. cbn [existsb app js]. 
    assert (existsb (N.eqb 45) (js "-" ++ N_digits b) = true) as -> by done.
    rewrite orb_true_r. change (js "-" ++ N_digits b) with (45%N :: N_digits b).
    rewrite split_on_app by apply digit_not_dash.
    rewrite split_on_none by apply digit_not_dash.
    rewrite !N_digits_isNumber, !digits_val_N_digits, !Hv by lia. simpl.
    destruct (N.leb_spec a b); [done|lia].
Qed.

Lemma join_chars ts : Forall (Forall (fun c => rule_char c = true)) ts ->
  Forall (fun c => is_space c = false /\ (c =? 65292)%N = false) (join (js ",") ts).
Proof.
  induction 1 as [|t ts Ht Hts IH]; [constructor|].
  assert (Forall (fun c => is_space c = false /\ (c =? 65292)%N = false) t) as Ht'.
  { eapply Forall_impl; [exact Ht|]. intros c Hc. destruct (rule_char_plain c Hc) as (? & _ & ?). done. }
  destruct ts as [|u ts]; [done|]. change (join (js ",") (t :: u :: ts)) with
    (t ++ js "," ++ join (js ",") (u :: ts)).
  apply Forall_app. split; [done|]. apply Forall_app. split; [|done]. by repeat constructor.
Qed.

(** The rules in normal form are read as they are. *)
Lemma segments_normal l : l <> [] ->
  segments (join (js ",") (status_range_text <$> l)) = status_range_text <$> l /\
  trim (join (js ",") (status_range_text <$> l)) = join (js ",") (status_range_text <$> l).
Proof.
  intros Hne.
  assert (Forall (Forall (fun c => rule_char c = true)) (status_range_text <$> l)) as Hch.
  { apply Forall_fmap, Forall_forall. intros r _. apply range_text_chars. }
  pose proof (join_chars _ Hch) as Hj. split.
  - unfold segments, sanitize.
    assert ((fun c => if (c =? 65292)%N then 44%N else c) <$> join (js ",") (status_range_text <$> l)
            = join (js ",") (status_range_text <$> l)) as ->.
    { clear -Hj. induction Hj as [|c s [_ Hc] Hs IH]; [done|]. cbn [fmap list_fmap]. by rewrite Hc, IH. }
    change (js ",") with [44%N]. rewrite split_on_join.
    + clear -Hch. induction l as [|r l IH]; [done|]. cbn [fmap list_fmap] in *.
      inversion_clear Hch as [|? ? Hr Hl]. destruct (plain_text _ Hr) as [-> _]. simpl.
      rewrite IH by done. destruct (status_range_text r) as [|c s] eqn:Hrt; [|done]. exfalso.
      unfold status_range_text in Hrt. destruct (N_digits_cons (range_start r)) as (c & k & He).
      rewrite He in Hrt. by destruct (_ =? _)%N.
    + by destruct l.
    + eapply Forall_impl; [exact Hch|]. intros t Ht. eapply Forall_impl; [exact Ht|].
      intros c Hc. by apply rule_char_plain.
  - apply trim_id. eapply Forall_impl; [exact Hj|]. by intros c [? _].
Qed.

Lemma parse_normal l : Forall range_ok l -> separated l ->
  parseHttpStatusCodeRules (join (js ",") (status_range_text <$> l)) =
  {| ok := true; ranges := l; tokens := status_range_text <$> l;
     normalized := join (js ",") (status_range_text <$> l); invalidTokens := [] |}.
Proof.
  intros Hok Hs. destruct l as [|r l]; [done|].
  destruct (segments_normal (r :: l)) as [Hseg Htrim]; [done|].
  unfold parseHttpStatusCodeRules. rewrite Htrim, Hseg.
  assert (join (js ",") (status_range_text <$> r :: l) <> []) as Hne.
  { cbn [fmap list_fmap join]. intros Hnil. destruct (N_digits_cons (range_start r)) as (c & k & He).
    assert (status_range_text r = []) as Hrt by (destruct (status_range_text <$> l); [done|by apply app_nil in Hnil as [? _]]).
    unfold status_range_text in Hrt. rewrite He in Hrt. by destruct (_ =? _)%N. }
  assert (omap parseToken (status_range_text <$> r :: l) = r :: l /\
          List.filter (fun s => match parseToken s with Some _ => false | None => true end)
            (status_range_text <$> r :: l) = []) as [Ho Hf].
  { clear -Hok. induction Hok as [|x k Hx Hk [IH1 IH2]]; [done|]. cbn [fmap list_fmap omap list_omap List.filter].
    rewrite parseToken_text by done. split; [by f_equal|done]. }
  rewrite Hf, Ho, mergeRanges_separated by done.
  destruct (join (js ",") (status_range_text <$> r :: l)) eqn:Hj; [done|]. done.
Qed.

(** ** Properties *)

(** Accepted rules denote what was written: the ranges are ascending and
    leave at least one code between neighbours, lie within 100 to 599, and cover
    a code exactly when one of the segments of the input covers it; rules are
    rejected exactly when a segment is not a code or a range of codes. *)
Theorem rules_correct (input : jstr) :
  let result := parseHttpStatusCodeRules input in
  (ok result = true <-> Forall (fun s => is_Some (parseToken s)) (segments (trim input))) /\
  (ok result = true ->
   separated (ranges result) /\ Forall range_ok (ranges result) /\
   forall code, covered (ranges result) code <->
     exists s r, s ∈ segments (trim input) /\ parseToken s = Some r /\ covers r code).
Proof.
  intros result. subst result. unfold parseHttpStatusCodeRules.
  assert (Hinv : List.filter (fun s => match parseToken s with Some _ => false | None => true end)
      (segments (trim input)) = [] <-> Forall (fun s => is_Some (parseToken s)) (segments (trim input))).
  { generalize (segments (trim input)). intros l. induction l as [|s l IH]; [done|]. simpl.
    rewrite Forall_cons, <- IH. destruct (parseToken s) as [r|]; [split; [by eauto|by intros [_ ?]]|].
    split; [done|]. by intros [[? ?] _]. }
  assert (Hcov : forall code, covered (omap parseToken (segments (trim input))) code <->
     exists s r, s ∈ segments (trim input) /\ parseToken s = Some r /\ covers r code).
  { intros code. unfold covered. setoid_rewrite list_elem_of_omap. naive_solver. }
  destruct (trim input) as [|c raw] eqn:Hraw.
  { split; [split; [by intros _; constructor|done]|]. intros _. split; [done|]. split; [constructor|].
    intros code. rewrite <- Hcov. done. }
  rewrite <- Hraw in *. clear Hraw.
  destruct (List.filter _ (segments (trim input))) as [|s l].
  - split; [by rewrite <- Hinv|]. intros _. simpl.
    destruct (mergeRanges_spec (omap parseToken (segments (trim input)))) as (M1 & M2 & M3).
    { apply Forall_forall. intros r (s & _ & Hs)%list_elem_of_omap. by eapply parseToken_ok. }
    split; [done|]. split; [done|]. intros code. by rewrite M3, Hcov.
  - split; [|done]. rewrite <- Hinv. done.
Qed.

(** The normal form is stable: parsing the normalized text of accepted rules
    gives the same ranges, tokens and normalized text again. *)
Theorem rules_roundtrip (input : jstr) :
  ok (parseHttpStatusCodeRules input) = true ->
  parseHttpStatusCodeRules (normalized (parseHttpStatusCodeRules input))
  = parseHttpStatusCodeRules input.
Proof.
  unfold parseHttpStatusCodeRules at 1 3 4. destruct (trim input) as [|c raw]; [done|].
  destruct (List.filter _ _) as [|s l]; [|done]. intros _. cbn [normalized].
  destruct (mergeRanges_spec (omap parseToken (segments (c :: raw)))) as (M1 & M2 & _).
  { apply Forall_forall. intros r (s & _ & Hs)%list_elem_of_omap. by eapply parseToken_ok. }
  by apply parse_normal.
Qed.

Lemma rules_roundtrip_witness :
  parseHttpStatusCodeRules (normalized (parseHttpStatusCodeRules (js "500, 429,501-503 ,404")))
  = parseHttpStatusCodeRules (js "500, 429,501-503 ,404").
Proof. apply rules_roundtrip. vm_compute. reflexivity. Defined.

(** A token with two dashes is accepted and the text after the second dash
    is dropped. *)
Theorem extra_dash_ignored :
  parseToken (js "400-404-500") = Some {| range_start := 400; range_end := 404 |} /\
  tokens (parseHttpStatusCodeRules (js "400-404-500")) = [js "400-404"].
Proof. split; vm_compute; reflexivity. Qed.

End StatusCodes.
