(* ===== verification/AuthSession.v ===== *)
(** * The login session: store, refresh and its races

    Model of [stores/auth-store.ts], [lib/auth-session.ts], the cookie reader of
    [lib/session-hint.ts] and the publisher of [lib/auth-session-sync.ts].

    A refresh is an asynchronous process: it waits for a browser lock, for
    responses and for timers, and while it waits other code may sign in, rotate
    or sign out.  The store, the epoch counter and the published events are the
    [world]; [refresh] is the suspended process, and [step] interleaves the
    process with the actions of the rest of the application. *)

From stdpp Require Import base list numbers strings.
From Stdlib Require Import ZArith SpecFloat Lia.
From S2P Require Import Prelude.
From S2P Require Import JsString.
From S2P Require Import JsNumber.
From S2P Require Import JsValue.
From S2P Require Import BillingTypes.

Module Auth.

(** ** Data *)

Record AuthUser := { au_id : f64; au_username : jstr; au_role : f64; au_fields : list (jstr * jsval) }.

Record LoginSession := {
  sid : jstr;
  current : bool;
  login_method : jstr;
  ip : jstr;
  user_agent : jstr;
  created_at : f64;
  last_active_at : f64;
  expires_at : f64;
}.

Record AuthBundle := {
  access_token : jstr;
  token_type : jstr;
  access_expires_at : f64;
  b_user : AuthUser;
  b_session : LoginSession;
}.

Inductive AuthBootstrapState := Bidle | Bchecking | Bcomplete.

#[global] Instance AuthBootstrapState_eq_dec : EqDecision AuthBootstrapState.
Proof. solve_decision. Defined.

(** ** The store *)

Record AuthState := {
  user : option AuthUser;
  accessToken : option jstr;
  accessExpiresAt : option f64;
  session : option LoginSession;
  pendingLoginVerification : option jsval;
  bootstrapState : AuthBootstrapState;
}.

Definition initial_store : AuthState :=
  {| user := None; accessToken := None; accessExpiresAt := None; session := None;
     pendingLoginVerification := None; bootstrapState := Bidle |}.

Definition setBundle (b : AuthBundle) (s : AuthState) : AuthState :=
  {| user := Some (b_user b); accessToken := Some (access_token b);
     accessExpiresAt := Some (access_expires_at b); session := Some (b_session b);
     pendingLoginVerification := None; bootstrapState := Bcomplete |}.

(** [state.auth.user?.id === user?.id] *)
Definition same_user (a b : option AuthUser) : bool :=
  match a, b with
  | Some x, Some y => feqb (au_id x) (au_id y)
  | None, None => true
  | _, _ => false
  end.

Definition setUser (u : option AuthUser) (s : AuthState) : AuthState :=
  {| user := u; accessToken := accessToken s; accessExpiresAt := accessExpiresAt s; session := session s;
     pendingLoginVerification :=
       if same_user (user s) u then pendingLoginVerification s else None;
     bootstrapState := bootstrapState s |}.

Definition setPendingLoginVerification (p : option jsval) (s : AuthState) : AuthState :=
  {| user := user s; accessToken := accessToken s; accessExpiresAt := accessExpiresAt s;
     session := session s; pendingLoginVerification := p; bootstrapState := bootstrapState s |}.

Definition setBootstrapState (b : AuthBootstrapState) (s : AuthState) : AuthState :=
  {| user := user s; accessToken := accessToken s; accessExpiresAt := accessExpiresAt s;
     session := session s; pendingLoginVerification := pendingLoginVerification s; bootstrapState := b |}.

Definition reset (b : AuthBootstrapState) (s : AuthState) : AuthState :=
  {| user := None; accessToken := None; accessExpiresAt := None; session := None;
     pendingLoginVerification := None; bootstrapState := b |}.

(** ** Reading responses *)

(** [value.key] of a record. *)
Definition get (v : jsval) (key : jstr) : jsval :=
  match v with
  | JObj entries => default JUndefined (assoc key entries)
  | _ => JUndefined
  end.

Definition isRecord (v : jsval) : bool := is_object v.

Definition as_string (v : jsval) : option jstr := match v with JStr s => Some s | _ => None end.
Definition as_number (v : jsval) : option f64 := match v with JNum x => Some x | _ => None end.
Definition as_boolean (v : jsval) : option bool := match v with JBool b => Some b | _ => None end.

(** [typeof v === 'string' && v.length > 0] *)
Definition as_text (v : jsval) : option jstr := match v with JStr ((_ :: _) as s) => Some s | _ => None end.

(** The type guards return the value they accept, as a record. *)
Definition isAuthUser (v : jsval) : option AuthUser :=
  if isRecord v then
    id ← as_number (get v (js "id"));
    username ← as_string (get v (js "username"));
    role ← as_number (get v (js "role"));
    if is_integer id && fltb fzero id then
      Some {| au_id := id; au_username := username; au_role := role;
              au_fields := match v with JObj e => e | _ => [] end |}
    else None
  else None.

Definition isLoginSession (v : jsval) : option LoginSession :=
  if isRecord v then
    s ← as_text (get v (js "sid"));
    c ← as_boolean (get v (js "current"));
    m ← as_string (get v (js "login_method"));
    i ← as_string (get v (js "ip"));
    a ← as_string (get v (js "user_agent"));
    ca ← as_number (get v (js "created_at"));
    la ← as_number (get v (js "last_active_at"));
    ea ← as_number (get v (js "expires_at"));
    Some {| sid := s; current := c; login_method := m; ip := i; user_agent := a; created_at := ca;
            last_active_at := la; expires_at := ea |}
  else None.

Definition hasValidTokenFields (v : jsval) : option (jstr * jstr * f64) :=
  token ← as_text (get v (js "access_token"));
  kind ← as_text (get v (js "token_type"));
  expires ← as_number (get v (js "access_expires_at"));
  if is_finite expires && fltb fzero expires then Some (token, kind, expires) else None.

Definition isAuthBundle (v : jsval) : option AuthBundle :=
  if isRecord v then
    '(token, kind, expires) ← hasValidTokenFields v;
    u ← isAuthUser (get v (js "user"));
    s ← isLoginSession (get v (js "session"));
    Some {| access_token := token; token_type := kind; access_expires_at := expires;
            b_user := u; b_session := s |}
  else None.

Record AuthTokenRotation := {
  rot_token : jstr;
  rot_type : jstr;
  rot_expires : f64;
  rot_session : LoginSession;
}.

Definition isAuthTokenRotation (v : jsval) : option AuthTokenRotation :=
  if isRecord v then
    '(token, kind, expires) ← hasValidTokenFields v;
    s ← isLoginSession (get v (js "session"));
    if jeqb kind (js "Bearer") && current s then
      Some {| rot_token := token; rot_type := kind; rot_expires := expires; rot_session := s |}
    else None
  else None.

(** ** Actions on the world *)

(** The kind and session of a published [AuthSessionSyncEvent]. *)
Inductive event := Authenticated (sid : jstr) | SignedOut (sid : jstr).

#[global] Instance event_eq_dec : EqDecision event.
Proof. solve_decision. Defined.

Record world := {
  store : AuthState;
  authEpoch : nat;
  published : list event;
}.

Definition set_store (s : AuthState) (w : world) : world :=
  {| store := s; authEpoch := authEpoch w; published := published w |}.

Definition session_sid (s : AuthState) : option jstr := sid <$> session s.

(** [publishAuthSessionEvent]: nothing is published for an empty identifier. *)
Definition publish (e : jstr -> event) (id : jstr) (w : world) : world :=
  match id with
  | [] => w
  | _ => {| store := store w; authEpoch := authEpoch w; published := published w ++ [e id] |}
  end.

Definition applyAuthBundle (b : AuthBundle) (synchronizeTabs : bool) (w : world) : world :=
  let previousSID := session_sid (store w) in
  let w1 := {| store := setBundle b (store w); authEpoch := S (authEpoch w); published := published w |} in
  if synchronizeTabs && negb (bool_decide (previousSID = Some (sid (b_session b))))
  then publish Authenticated (sid (b_session b)) w1 else w1.

Inductive rotation_error := InvalidRotation | NoActiveSession | SessionMismatch.

Definition applyAuthRotation (v : jsval) (w : world) : res rotation_error world :=
  match isAuthTokenRotation v with
  | None => Err InvalidRotation
  | Some r =>
      match user (store w), session (store w) with
      | Some u, Some s =>
          if jeqb (sid (rot_session r)) (sid s) then
            Ok (applyAuthBundle
                  {| access_token := rot_token r; token_type := rot_type r;
                     access_expires_at := rot_expires r; b_user := u; b_session := rot_session r |} false w)
          else Err SessionMismatch
      | _, _ => Err NoActiveSession
      end
  end.

Definition clearAuthentication (synchronizeTabs : bool) (b : AuthBootstrapState) (w : world) : world :=
  let id := session_sid (store w) in
  let w1 := {| store := reset b (store w); authEpoch := S (authEpoch w); published := published w |} in
  match id with
  | Some i => if synchronizeTabs then publish SignedOut i w1 else w1
  | None => w1
  end.

(** ** The refresh process *)

Inductive RefreshOutcome :=
| OAuthenticated (b : AuthBundle)
| OAnonymous
| OTransientError (superseded : bool)
| OOutOfSync (code : jstr).

Record AuthRefreshHTTPResponse := { r_status : Z; r_data : jsval }.

Definition refreshRaceDelays : list Z := [80; 200; 500]%Z.

(** A suspended refresh: waiting for the lock, for the response to a request
    sent with [expectedSID], or for a timer; or ended, with an outcome or with
    the exception of a rejected lock request.  [epoch] is the value of
    [authEpoch] when the refresh began. *)
Inductive refresh :=
| WaitLock (epoch : nat)
| WaitResponse (epoch raceAttempt : nat) (allowMismatchRetry : bool) (expectedSID : option jstr)
| WaitTimer (epoch raceAttempt : nat) (allowMismatchRetry : bool) (delay : Z)
| Done (outcome : RefreshOutcome)
| Rejected.

(** [run(raceAttempt, allowMismatchRetry)] up to its first [await]. *)
Definition run (epoch raceAttempt : nat) (allowMismatchRetry : bool) (w : world) : refresh :=
  if Nat.eqb (authEpoch w) epoch
  then WaitResponse epoch raceAttempt allowMismatchRetry (session_sid (store w))
  else Done (OTransientError true).

Definition RACE : jstr := js "AUTH_REFRESH_RACE".
Definition MISMATCH : jstr := js "AUTH_SESSION_MISMATCH".

(** [clear] of the runtime that [runRefresh] builds. *)
Definition clear (synchronizeTabs : bool) (b : AuthBootstrapState) (w : world) : world :=
  if negb synchronizeTabs && bool_decide (b = Bidle) then set_store (reset Bidle (store w)) w
  else clearAuthentication synchronizeTabs b w.

(** [responseData?.data] parsed, when [responseData?.success === true]. *)
Definition response_bundle (r : AuthRefreshHTTPResponse) : option AuthBundle :=
  if isRecord (r_data r) then
    match get (r_data r) (js "success") with
    | JBool true => isAuthBundle (get (r_data r) (js "data"))
    | _ => None
    end
  else None.

Definition response_code (r : AuthRefreshHTTPResponse) : option jstr :=
  if isRecord (r_data r) then as_string (get (r_data r) (js "code")) else None.

(** The rest of [run], after the response. *)
Definition on_response (epoch raceAttempt : nat) (allowMismatchRetry : bool)
    (r : AuthRefreshHTTPResponse) (w : world) : world * refresh :=
  if negb (Nat.eqb (authEpoch w) epoch) then (w, Done (OTransientError true))
  else
    let code := response_code r in
    match response_bundle r with
    | Some b => (applyAuthBundle b false w, Done (OAuthenticated b))
    | None =>
        if (r_status r =? 409)%Z && bool_decide (code = Some RACE) then
          match refreshRaceDelays !! raceAttempt with
          | Some delay => (w, WaitTimer epoch (S raceAttempt) allowMismatchRetry delay)
          | None => (clear false Bcomplete w, Done (OOutOfSync RACE))
          end
        else if (r_status r =? 409)%Z && bool_decide (code = Some MISMATCH) then
          if allowMismatchRetry then
            let w1 := clear false Bidle w in (w1, run epoch 0 false w1)
          else (clear false Bcomplete w, Done (OOutOfSync MISMATCH))
        else if (r_status r =? 401)%Z then (clear true Bcomplete w, Done OAnonymous)
        else if (r_status r =? 0)%Z || (500 <=? r_status r)%Z || (r_status r =? 429)%Z then
          (set_store (setBootstrapState Bidle (store w)) w, Done (OTransientError false))
        else
          (clear false Bcomplete w,
           Done (OOutOfSync (default (js "AUTH_INVALID_REFRESH_RESPONSE") code)))
    end.

(** [performRefreshWithBrowserLock] up to its first [await]; [locks] tells whether
    the browser has [navigator.locks].  The [try] block returns the promise of the
    lock without awaiting it, so a rejected lock request does not reach [catch]. *)
Definition performRefreshWithBrowserLock (locks : bool) (refreshEpoch : nat) (w : world) : refresh :=
  if locks then WaitLock refreshEpoch else run refreshEpoch 0 true w.

(** [refreshAuthentication]: one refresh at a time; [p] is [refreshPromise]. *)
Definition refreshAuthentication (locks : bool) (p : option refresh) (w : world) : refresh :=
  match p with
  | Some r => r
  | None => performRefreshWithBrowserLock locks (authEpoch w) w
  end.

(** ** Entry points *)

Inductive headers_error := RequestFailed | SessionExpired.

Section Clock.
(** [Date.now()], and whether the browser has [navigator.locks]. *)
Context (clock_ms : Z) (locks : bool).

Definition now_seconds : f64 := ffloor (fdiv (f64_of_Z clock_ms) (f64_of_Z 1000)).

(** A non-empty token with an expiry that is neither [null], 0 nor NaN. *)
Definition live_token (s : AuthState) (after : f64) : option (jstr * f64) :=
  match accessToken s, accessExpiresAt s with
  | Some ((_ :: _) as t), Some x =>
      if feqb x fzero || negb (feqb x x) then None
      else if fltb after x then Some (t, x) else None
  | _, _ => None
  end.

Definition currentValidAuthBundle (s : AuthState) : option AuthBundle :=
  match user s, session s, live_token s now_seconds with
  | Some u, Some l, Some (t, x) =>
      Some {| access_token := t; token_type := js "Bearer"; access_expires_at := x;
              b_user := u; b_session := l |}
  | _, _, _ => None
  end.

(** The outcome, or a refresh to wait for. *)
Definition resolveAuthentication (p : option refresh) (w : world) : world * (RefreshOutcome + refresh) :=
  match currentValidAuthBundle (store w) with
  | Some b => (set_store (setBootstrapState Bcomplete (store w)) w, inl (OAuthenticated b))
  | None =>
      let stale := match user (store w), session (store w) with Some _, Some _ => true | _, _ => false end in
      if bool_decide (bootstrapState (store w) = Bcomplete) && negb stale
      then (w, inl OAnonymous)
      else
        let w1 := set_store (setBootstrapState Bchecking (store w)) w in
        (w1, inr (refreshAuthentication locks p w1))
  end.

Definition bootstrapAuthentication (hint : bool) (p : option refresh) (w : world)
    : world * (RefreshOutcome + refresh) :=
  match currentValidAuthBundle (store w), hint, user (store w), session (store w) with
  | None, false, None, None => (w, inl OAnonymous)
  | _, _, _, _ => resolveAuthentication p w
  end.

Definition getCommonHeaders (s : AuthState) : list (jstr * jstr) :=
  [(js "Content-Type", js "application/json")]
  ++ match accessToken s with
     | Some ((_ :: _) as t) => [(js "Authorization", js "Bearer " ++ t)]
     | _ => []
     end.

(** [getFreshAuthHeaders] up to its [await]: the headers, or a refresh. *)
Definition fresh_start (p : option refresh) (w : world) : list (jstr * jstr) + refresh :=
  match live_token (store w) (fadd now_seconds (f64_of_Z 60)) with
  | Some _ => inl (getCommonHeaders (store w))
  | None => inr (refreshAuthentication locks p w)
  end.

(** The rest, once the refresh has ended with [outcome]. *)
Definition fresh_finish (outcome : RefreshOutcome) (w : world) : res headers_error (list (jstr * jstr)) :=
  match outcome with
  | OAuthenticated _ => Ok (getCommonHeaders (store w))
  | _ => match live_token (store w) now_seconds with
         | Some _ => Ok (getCommonHeaders (store w))
         | None => Err (match outcome with OTransientError _ => RequestFailed | _ => SessionExpired end)
         end
  end.
End Clock.

(** ** The session hint *)

Definition SESSION_HINT_COOKIE_NAME : jstr := js "new_api_has_session".

(** The loop of [readCookie] over the parts between semicolons. *)
Fixpoint read_cookie_parts (parts : list jstr) (name : jstr) : option jstr :=
  match parts with
  | [] => None
  | part :: parts' =>
      let '(key, rest) := span_while (fun c => negb (c =? 61)%N) part in
      match rest with
      | [] => read_cookie_parts parts' name
      | _ :: value =>
          if jeqb (trim key) name then Some (trim value) else read_cookie_parts parts' name
      end
  end.

Definition readCookie (cookieHeader name : jstr) : option jstr :=
  read_cookie_parts (split_on 59%N cookieHeader) name.

(** [document] is [None] when there is no DOM. *)
Definition hasSessionHint (document : option jstr) : bool :=
  match document with
  | None => true
  | Some cookie => bool_decide (readCookie cookie SESSION_HINT_COOKIE_NAME <> None)
  end.

(** ** Events between tabs *)

Definition event_kind (e : event) : jstr :=
  match e with Authenticated _ => js "authenticated" | SignedOut _ => js "signed_out" end.
Definition event_sid (e : event) : jstr := match e with Authenticated i | SignedOut i => i end.

(** The object that [publishAuthSessionEvent] posts. *)
Definition event_value (source nonce : jstr) (timestamp : f64) (e : event) : jsval :=
  JObj [(js "kind", JStr (event_kind e)); (js "sid", JStr (event_sid e)); (js "source", JStr source);
        (js "nonce", JStr nonce); (js "timestamp", JNum timestamp)].

(** An accepted event with its source and time. *)
Definition isAuthSessionSyncEvent (v : jsval) : option (event * jstr * f64) :=
  if isRecord v then
    kind ← as_string (get v (js "kind"));
    id ← as_text (get v (js "sid"));
    source ← as_string (get v (js "source"));
    _ ← as_string (get v (js "nonce"));
    timestamp ← as_number (get v (js "timestamp"));
    if jeqb kind (js "authenticated") then Some (Authenticated id, source, timestamp)
    else if jeqb kind (js "signed_out") then Some (SignedOut id, source, timestamp)
    else None
  else None.

(** The event [deliver] passes to the listener of a tab with its own
    [authSyncSource], at the time [date]. *)
Definition deliver (authSyncSource : jstr) (date : f64) (v : jsval) : option event :=
  '(e, source, timestamp) ← isAuthSessionSyncEvent v;
  if negb (jeqb source authSyncSource) && fltb (fabs (fsub date timestamp)) (f64_of_Z 60000)
  then Some e else None.

(** The root component's listener: the new world, and whether the page reloads. *)
Definition on_event (e : event) (w : world) : world * bool :=
  let currentSID := session_sid (store w) in
  match e with
  | Authenticated i =>
      if bool_decide (currentSID = Some i) then (w, false)
      else match currentSID with
           | Some (_ :: _) => (clearAuthentication false Bcomplete w, true)
           | _ => (w, true)
           end
  | SignedOut i =>
      match currentSID with
      | Some ((_ :: _) as c) => if jeqb i c then (clearAuthentication false Bcomplete w, false) else (w, false)
      | _ => (w, false)
      end
  end.

(** ** Interleavings *)

(** The world with [refreshPromise]. *)
Record system := Sys { sys_world : world; refreshPromise : option refresh }.

Inductive label :=
(* the application *)
| SignIn (value : jsval)
| Rotate (value : jsval)
| SignOut (synchronizeTabs : bool)
| Receive (e : event)
| SetUser (u : option AuthUser)
| SetPending (p : option jsval)
| Refresh (locks : bool)
| Bootstrap (resolve : bool) (clock_ms : Z) (locks : bool) (document : option jstr)
(* the refresh *)
| LockGranted
| LockRejected
| Response (r : AuthRefreshHTTPResponse)
| Timer
| Settle.

(** The steps of the refresh itself. *)
Definition internal (l : label) : bool :=
  match l with LockGranted | LockRejected | Response _ | Timer | Settle => true | _ => false end.

(** [resolveAuthentication] when [resolve], else [bootstrapAuthentication]. *)
Definition authenticate (resolve : bool) (clock_ms : Z) (locks : bool) (document : option jstr)
    (p : option refresh) (w : world) : world * (RefreshOutcome + refresh) :=
  if resolve then resolveAuthentication clock_ms locks p w
  else bootstrapAuthentication clock_ms locks (hasSessionHint document) p w.

Inductive step : system -> label -> system -> Prop :=
| step_sign_in w p v b :
    isAuthBundle v = Some b -> step (Sys w p) (SignIn v) (Sys (applyAuthBundle b true w) p)
| step_rotate w p v w' :
    applyAuthRotation v w = Ok w' -> step (Sys w p) (Rotate v) (Sys w' p)
| step_sign_out w p sync :
    step (Sys w p) (SignOut sync) (Sys (clearAuthentication sync Bcomplete w) p)
| step_receive w p e :
    step (Sys w p) (Receive e) (Sys (fst (on_event e w)) p)
| step_set_user w p u :
    step (Sys w p) (SetUser u) (Sys (set_store (setUser u (store w)) w) p)
| step_set_pending w p v :
    step (Sys w p) (SetPending v) (Sys (set_store (setPendingLoginVerification v (store w)) w) p)
| step_refresh w p locks :
    step (Sys w p) (Refresh locks) (Sys w (Some (refreshAuthentication locks p w)))
| step_known w p resolve clock_ms locks document w' o :
    authenticate resolve clock_ms locks document p w = (w', inl o) ->
    step (Sys w p) (Bootstrap resolve clock_ms locks document) (Sys w' p)
| step_unknown w p resolve clock_ms locks document w' r :
    authenticate resolve clock_ms locks document p w = (w', inr r) ->
    step (Sys w p) (Bootstrap resolve clock_ms locks document) (Sys w' (Some r))
| step_lock w e :
    step (Sys w (Some (WaitLock e))) LockGranted (Sys w (Some (run e 0 true w)))
| step_lock_rejected w e :
    step (Sys w (Some (WaitLock e))) LockRejected (Sys w (Some Rejected))
| step_response w e a m x r w' p' :
    on_response e a m r w = (w', p') ->
    step (Sys w (Some (WaitResponse e a m x))) (Response r) (Sys w' (Some p'))
| step_timer w e a m d :
    step (Sys w (Some (WaitTimer e a m d))) Timer (Sys w (Some (run e a m w)))
| step_done w o :
    step (Sys w (Some (Done o))) Settle (Sys w None)
| step_rejected w :
    step (Sys w (Some Rejected)) Settle (Sys w None).

Inductive exec : system -> list label -> system -> Prop :=
| exec_nil s : exec s [] s
| exec_cons s l s' ls s'' : step s l s' -> exec s' ls s'' -> exec s (l :: ls) s''.

Definition initial_system : system :=
  Sys {| store := initial_store; authEpoch := 0; published := [] |} None.

End Auth.
