(* ===== verification/AuthSessionFacts.v ===== *)
(** * Properties of the login session

    Invariants of the store over every interleaving, the races between a refresh
    and the rest of the application, the bound on the requests of a refresh, what
    each outcome leaves behind, and the entry points. *)

From stdpp Require Import base list numbers strings.
From Stdlib Require Import ZArith SpecFloat Lia.
From S2P Require Import Prelude.
From S2P Require Import JsString.
From S2P Require Import JsNumber.
From S2P Require Import JsNumberFacts.
From S2P Require Import JsValue.
From S2P Require Import BillingTypes.
From S2P Require Import AuthSession.

Module AuthFacts.
Import Auth.

(** ** Inversion of actions *)

Ltac auth_unfold :=
  unfold applyAuthBundle, clearAuthentication, clear, publish, set_store, setBundle, setUser,
    setPendingLoginVerification, setBootstrapState, reset in *.

Ltac case_match_all := repeat (case_match; simplify_eq/=; try done).

Ltac step_inv :=
  match goal with H : step _ _ _ |- _ => inversion H; subst; clear H end.

Lemma option_bind_Some {A B} (m : option A) (f : A -> option B) y :
  m ≫= f = Some y -> exists x, m = Some x /\ f x = Some y.
Proof. by destruct m; [eauto | discriminate]. Qed.

Ltac guards :=
  repeat match goal with
    | H : mbind _ _ = Some _ |- _ =>
        let x := fresh "x" in let E := fresh "E" in
        apply option_bind_Some in H as (x & E & H)
    | H : (if ?b then _ else _) = Some _ |- _ =>
        let E := fresh "E" in destruct b eqn:E; [|discriminate]
    | H : Some _ = Some _ |- _ => inversion H; subst; clear H
    end.

Lemma as_text_nonempty v s : as_text v = Some s -> s <> [].
Proof.
  destruct v as [| | | |[|c s']| |]; simpl; intros H; try discriminate.
  by injection H as <-.
Qed.

Lemma isLoginSession_sid v s : isLoginSession v = Some s -> sid s <> [].
Proof. unfold isLoginSession. intros H. guards. simpl. by eapply as_text_nonempty. Qed.

(** What the token checks promise of a token and its expiry. *)
Definition token_ok (t : jstr) (x : f64) : Prop :=
  t <> [] /\ is_finite x = true /\ fltb fzero x = true.

Lemma hasValidTokenFields_ok v t k x : hasValidTokenFields v = Some (t, k, x) -> token_ok t x.
Proof.
  unfold hasValidTokenFields. intros H. guards.
  match goal with H : _ && _ = true |- _ => apply andb_true_iff in H as [? ?] end.
  split_and!; [by eapply as_text_nonempty | done | done].
Qed.

Definition bundle_ok (b : AuthBundle) : Prop :=
  token_ok (access_token b) (access_expires_at b) /\ sid (b_session b) <> [].

Lemma isAuthBundle_ok v b : isAuthBundle v = Some b -> bundle_ok b.
Proof.
  unfold isAuthBundle, bundle_ok. intros H. guards. destruct x as [[t k] x]. guards. simpl.
  eauto using hasValidTokenFields_ok, isLoginSession_sid.
Qed.

Lemma isAuthTokenRotation_ok v r :
  isAuthTokenRotation v = Some r -> token_ok (rot_token r) (rot_expires r) /\ sid (rot_session r) <> [].
Proof.
  unfold isAuthTokenRotation. intros H. guards. destruct x as [[t k] x]. guards. simpl.
  eauto using hasValidTokenFields_ok, isLoginSession_sid.
Qed.

(** ** The store invariant *)

(** A token, its expiry and its session are present together, and then they
    have passed the checks of a response. *)
Definition store_ok (s : AuthState) : Prop :=
  match accessToken s, accessExpiresAt s, session s with
  | Some t, Some x, Some l => token_ok t x /\ sid l <> []
  | None, None, None => True
  | _, _, _ => False
  end.

Lemma store_ok_set_user u s : store_ok s -> store_ok (setUser u s).
Proof. done. Qed.
Lemma store_ok_set_pending p s : store_ok s -> store_ok (setPendingLoginVerification p s).
Proof. done. Qed.
Lemma store_ok_set_bootstrap b s : store_ok s -> store_ok (setBootstrapState b s).
Proof. done. Qed.
Lemma store_ok_reset b s : store_ok (reset b s).
Proof. done. Qed.

Lemma store_publish e i w : store (publish e i w) = store w.
Proof. by destruct i. Qed.
Lemma epoch_publish e i w : authEpoch (publish e i w) = authEpoch w.
Proof. by destruct i. Qed.

Lemma store_applyAuthBundle b sync w : store (applyAuthBundle b sync w) = setBundle b (store w).
Proof. unfold applyAuthBundle. case_match; [apply store_publish | done]. Qed.
Lemma epoch_applyAuthBundle b sync w : authEpoch (applyAuthBundle b sync w) = S (authEpoch w).
Proof. unfold applyAuthBundle. case_match; [apply epoch_publish | done]. Qed.
Lemma store_clearAuthentication sync b w : store (clearAuthentication sync b w) = reset b (store w).
Proof. unfold clearAuthentication. repeat case_match; try done; apply store_publish. Qed.
Lemma epoch_clearAuthentication sync b w : authEpoch (clearAuthentication sync b w) = S (authEpoch w).
Proof. unfold clearAuthentication. repeat case_match; try done; apply epoch_publish. Qed.

Create HintDb auth.
Create Rewrite HintDb auth.
#[export] Hint Rewrite store_publish epoch_publish store_applyAuthBundle epoch_applyAuthBundle
  store_clearAuthentication epoch_clearAuthentication : auth.
#[export] Hint Resolve store_ok_set_user store_ok_set_pending store_ok_set_bootstrap store_ok_reset : auth.

Lemma store_ok_bundle b s : bundle_ok b -> store_ok (setBundle b s).
Proof. done. Qed.

(** The epoch a refresh began in. *)
Definition refresh_epoch (p : refresh) : option nat :=
  match p with
  | WaitLock e | WaitResponse e _ _ _ | WaitTimer e _ _ _ => Some e
  | Done _ | Rejected => None
  end.

Definition refresh_ok (w : world) (p : option refresh) : Prop :=
  forall r e, p = Some r -> refresh_epoch r = Some e -> (e <= authEpoch w)%nat.

Definition sys_ok (s : system) : Prop :=
  store_ok (store (sys_world s)) /\ refresh_ok (sys_world s) (refreshPromise s).

Lemma refresh_ok_mono w w' p : (authEpoch w <= authEpoch w')%nat -> refresh_ok w p -> refresh_ok w' p.
Proof. intros Hle Hok r e H1 H2. specialize (Hok r e H1 H2). lia. Qed.

Lemma run_epoch e a m w e' : refresh_epoch (run e a m w) = Some e' -> e' = authEpoch w.
Proof. unfold run. case_match eqn:E; [|done]. apply Nat.eqb_eq in E. by intros [= <-]. Qed.

Lemma run_ok e a m w w' : authEpoch w = authEpoch w' -> refresh_ok w' (Some (run e a m w)).
Proof. intros Heq r e' [= <-] He. apply run_epoch in He. lia. Qed.

Lemma refreshAuthentication_ok locks p w : refresh_ok w p -> refresh_ok w (Some (refreshAuthentication locks p w)).
Proof.
  intros Hok r e [= <-] He. destruct p as [r|]; simpl in *; [by eapply Hok|].
  destruct locks; simpl in *; [by simplify_eq | by apply run_epoch in He; lia].
Qed.

Lemma store_ok_clear sync b w : store_ok (store (clear sync b w)).
Proof. unfold clear. case_match; [done|]. by rewrite store_clearAuthentication. Qed.

Lemma epoch_clear sync b w : (authEpoch w <= authEpoch (clear sync b w))%nat.
Proof. unfold clear. case_match; [done|]. rewrite epoch_clearAuthentication. lia. Qed.

Lemma epoch_clear_idle w : authEpoch (clear false Bidle w) = authEpoch w.
Proof. done. Qed.

Lemma response_bundle_ok r b : response_bundle r = Some b -> bundle_ok b.
Proof. unfold response_bundle. intros H. case_match_all. by eapply isAuthBundle_ok. Qed.

(** The ways [on_response] ends, on a refresh that is still current. *)
Inductive responded (e a : nat) (m : bool) (r : AuthRefreshHTTPResponse) (w : world) :
    world -> refresh -> Prop :=
| responded_bundle b : response_bundle r = Some b ->
    responded e a m r w (applyAuthBundle b false w) (Done (OAuthenticated b))
| responded_race d : refreshRaceDelays !! a = Some d ->
    responded e a m r w w (WaitTimer e (S a) m d)
| responded_mismatch : m = true ->
    responded e a m r w (clear false Bidle w) (WaitResponse e 0 false None)
| responded_out code : responded e a m r w (clear false Bcomplete w) (Done (OOutOfSync code))
| responded_anonymous : r_status r = 401%Z ->
    responded e a m r w (clear true Bcomplete w) (Done OAnonymous)
| responded_transient :
    (r_status r = 0 \/ r_status r = 429 \/ 500 <= r_status r)%Z ->
    responded e a m r w (set_store (setBootstrapState Bidle (store w)) w) (Done (OTransientError false)).

Lemma on_response_current a m r w w' p :
  on_response (authEpoch w) a m r w = (w', p) -> responded (authEpoch w) a m r w w' p.
Proof.
  unfold on_response. rewrite Nat.eqb_refl. simpl.
  destruct (response_bundle r) as [b|] eqn:Eb; [by intros [= <- <-]; constructor|].
  case_match; [by case_match; intros [= <- <-]; constructor|].
  case_match; [case_match; intros [= <- <-]|].
  - unfold run. rewrite epoch_clear_idle, Nat.eqb_refl. by constructor.
  - constructor.
  - case_match eqn:E401; [intros [= <- <-]; constructor; lia|].
    case_match eqn:Et; intros [= <- <-]; constructor.
    apply orb_true_iff in Et as [[?%Z.eqb_eq|?%Z.leb_le]%orb_true_iff|?%Z.eqb_eq]; lia.
Qed.

Lemma on_response_superseded e a m r w :
  authEpoch w <> e -> on_response e a m r w = (w, Done (OTransientError true)).
Proof. intros H. unfold on_response. by rewrite (proj2 (Nat.eqb_neq _ _) H). Qed.

Lemma on_response_ok e a m r w w' p :
  on_response e a m r w = (w', p) -> store_ok (store w) ->
  store_ok (store w') /\ (authEpoch w <= authEpoch w')%nat /\ refresh_ok w' (Some p).
Proof.
  destruct (decide (authEpoch w = e)) as [<-|Hne].
  - intros H Hok. apply on_response_current in H. inversion H; subst.
    + autorewrite with auth. split_and!; [eauto using store_ok_bundle, response_bundle_ok | lia | by intros ? ? [= <-]].
    + split_and!; [done | done | by intros ? ? [= <-] [= <-]].
    + split_and!; [done | done | by intros ? ? [= <-] [= <-]].
    + split_and!; [apply store_ok_clear | apply epoch_clear | by intros ? ? [= <-]].
    + split_and!; [apply store_ok_clear | apply epoch_clear | by intros ? ? [= <-]].
    + split_and!; [done | done | by intros ? ? [= <-]].
  - intros H Hok. rewrite on_response_superseded in H by done. simplify_eq.
    split_and!; [done | done | by intros ? ? [= <-]].
Qed.

Lemma authenticate_world resolve c locks d p w w' o :
  authenticate resolve c locks d p w = (w', o) ->
  exists b, w' = set_store (setBootstrapState b (store w)) w.
Proof.
  assert (Hid : w = set_store (setBootstrapState (bootstrapState (store w)) (store w)) w) by by destruct w as [[]].
  unfold authenticate, bootstrapAuthentication, resolveAuthentication. intros H. case_match_all; eauto.
Qed.

Lemma authenticate_refresh resolve c locks d p w w' r :
  authenticate resolve c locks d p w = (w', inr r) -> r = refreshAuthentication locks p w'.
Proof. unfold authenticate, bootstrapAuthentication, resolveAuthentication. intros H. case_match_all. Qed.

Lemma epoch_on_event e w : (authEpoch w <= authEpoch (fst (on_event e w)))%nat.
Proof. unfold on_event. repeat case_match; simpl; autorewrite with auth; lia. Qed.

Lemma store_ok_on_event e w : store_ok (store w) -> store_ok (store (fst (on_event e w))).
Proof. intros. unfold on_event. repeat case_match; simpl; autorewrite with auth; auto with auth. Qed.

Lemma applyAuthRotation_ok v w w' :
  applyAuthRotation v w = Ok w' -> store_ok (store w') /\ authEpoch w' = S (authEpoch w).
Proof.
  unfold applyAuthRotation. intros H. destruct (isAuthTokenRotation v) as [r|] eqn:Er; [|done].
  apply isAuthTokenRotation_ok in Er as [??]. case_match_all.
Qed.

(** No step takes the epoch back. *)
Lemma step_epoch s l s' : step s l s' -> (authEpoch (sys_world s) <= authEpoch (sys_world s'))%nat.
Proof.
  intros Hs. step_inv; simpl; try lia; autorewrite with auth; try lia.
  - match goal with H : applyAuthRotation _ _ = _ |- _ => apply applyAuthRotation_ok in H as [_ ->] end. lia.
  - apply epoch_on_event.
  - match goal with H : authenticate _ _ _ _ _ _ = _ |- _ => apply authenticate_world in H as [? ->] end. done.
  - match goal with H : authenticate _ _ _ _ _ _ = _ |- _ => apply authenticate_world in H as [? ->] end. done.
  - destruct (decide (authEpoch w = e)) as [<-|Hne].
    + match goal with H : on_response _ _ _ _ _ = _ |- _ => apply on_response_current in H; inversion H; subst end;
        autorewrite with auth; try done; try apply epoch_clear; lia.
    + match goal with H : on_response _ _ _ _ _ = _ |- _ => rewrite on_response_superseded in H by done end.
      by simplify_eq.
Qed.

Lemma step_ok s l s' : step s l s' -> sys_ok s -> sys_ok s'.
Proof.
  intros Hs [Hst Hp]. pose proof (step_epoch _ _ _ Hs) as Hep. unfold sys_ok.
  step_inv; simpl in *; autorewrite with auth;
    try (split; [auto with auth | eapply refresh_ok_mono; [|exact Hp]; done]).
  - eauto using store_ok_bundle, isAuthBundle_ok.
  - match goal with H : applyAuthRotation _ _ = _ |- _ => by apply applyAuthRotation_ok in H as [? _] end.
  - by apply store_ok_on_event.
  - split; [done | by apply refreshAuthentication_ok].
  - match goal with H : authenticate _ _ _ _ _ _ = _ |- _ => apply authenticate_world in H as [? ->] end. done.
  - match goal with H : authenticate _ _ _ _ _ _ = _ |- _ =>
      pose proof (authenticate_refresh _ _ _ _ _ _ _ _ H) as ->; apply authenticate_world in H as [? ->] end.
    split; [done | by apply refreshAuthentication_ok].
  - split; [done | by apply run_ok].
  - split; [done | by intros ? ? [= <-]].
  - edestruct on_response_ok as (? & _ & ?); [eassumption..|]. done.
  - split; [done | by apply run_ok].
  - split; [done | by intros ? ?].
  - split; [done | by intros ? ?].
Qed.

Lemma exec_ok s ls s' : exec s ls s' -> sys_ok s -> sys_ok s'.
Proof. induction 1; eauto using step_ok. Qed.

Lemma initial_ok : sys_ok initial_system.
Proof. split; [done | by intros ? ?]. Qed.

Lemma exec_app s ls s' ls' s'' : exec s ls s' -> exec s' ls' s'' -> exec s (ls ++ ls') s''.
Proof. induction 1; simpl; eauto using exec. Qed.

(** ** Races *)

(** The refresh, if there is one, began before the last sign-in, rotation or
    sign-out. *)
Definition stale (s : system) : Prop :=
  forall r e, refreshPromise s = Some r -> refresh_epoch r = Some e -> (e < authEpoch (sys_world s))%nat.

Lemma run_stale e a m w : (e < authEpoch w)%nat -> run e a m w = Done (OTransientError true).
Proof. intros H. unfold run. by rewrite (proj2 (Nat.eqb_neq _ _)) by lia. Qed.

Lemma stale_step s l s' :
  stale s -> internal l = true -> step s l s' -> sys_world s' = sys_world s /\ stale s'.
Proof.
  intros Hst Hl Hs. inversion Hs; subst; try discriminate; simpl.
  - assert (e < authEpoch w)%nat by (by eapply Hst). rewrite run_stale by done. split; [done | by intros ? ? [= <-]].
  - split; [done | by intros ? ? [= <-]].
  - assert (e < authEpoch w)%nat by (by eapply Hst).
    rewrite on_response_superseded in * by lia. simplify_eq. split; [done | by intros ? ? [= <-]].
  - assert (e < authEpoch w)%nat by (by eapply Hst). rewrite run_stale by done. split; [done | by intros ? ? [= <-]].
  - split; [done | by intros ? ?].
  - split; [done | by intros ? ?].
Qed.

Lemma stale_exec s ls s' :
  exec s ls s' -> stale s -> Forall (fun l => internal l = true) ls -> sys_world s' = sys_world s.
Proof.
  induction 1 as [|s l s1 ls s2 Hs _ IH]; [done|]. intros Hst Hls. inversion Hls; subst.
  destruct (stale_step s l s1) as [<- Hst']; [done..|]. by apply IH.
Qed.

(** The actions that replace or remove the session of this tab. *)
Definition supersedes (l : label) : bool :=
  match l with SignIn _ | Rotate _ | SignOut _ => true | _ => false end.

Lemma supersedes_epoch s l s' : step s l s' -> supersedes l = true ->
  authEpoch (sys_world s') = S (authEpoch (sys_world s)) /\ refreshPromise s' = refreshPromise s.
Proof.
  intros Hs Hl. step_inv; try discriminate; simpl; autorewrite with auth; try done.
  split; [|done]. by eapply applyAuthRotation_ok.
Qed.

Lemma supersedes_stale s l s' : sys_ok s -> step s l s' -> supersedes l = true -> stale s'.
Proof.
  intros [_ Hok] Hs Hl r e. destruct (supersedes_epoch s l s') as [-> ->]; [done..|].
  intros Hr He. specialize (Hok r e Hr He). lia.
Qed.

(** ** How long a refresh lasts *)

Fixpoint count (p : label -> bool) (ls : list label) : nat :=
  match ls with [] => 0 | l :: ls' => (if p l then 1 else 0) + count p ls' end.

Definition is_response (l : label) : bool := match l with Response _ => true | _ => false end.

(** The requests and the steps a refresh may still make. *)
Definition requests_left (r : refresh) : nat :=
  match r with
  | WaitLock _ => 8
  | WaitResponse _ a m _ | WaitTimer _ a m _ => (4 - a) + (if m then 4 else 0)
  | Done _ | Rejected => 0
  end.

Definition steps_left (r : refresh) : nat :=
  match r with
  | WaitLock _ => 15
  | WaitResponse _ a m _ => 7 - 2 * a + (if m then 7 else 0)
  | WaitTimer _ a m _ => 8 - 2 * a + (if m then 7 else 0)
  | Done _ | Rejected => 0
  end.

(** [raceAttempt] never passes the end of [refreshRaceDelays]. *)
Definition attempt_ok (r : refresh) : Prop :=
  match r with WaitResponse _ a _ _ | WaitTimer _ a _ _ => (a <= 3)%nat | _ => True end.

Lemma run_bounds e a m w : (a <= 3)%nat ->
  attempt_ok (run e a m w) /\ (requests_left (run e a m w) <= (4 - a) + (if m then 4 else 0))%nat /\
  (steps_left (run e a m w) <= 7 - 2 * a + (if m then 7 else 0))%nat.
Proof. intros. unfold run. case_match; simpl; split_and!; lia || done. Qed.

Lemma on_response_bounds e a m r w w' p :
  on_response e a m r w = (w', p) -> (a <= 3)%nat ->
  attempt_ok p /\ (requests_left p < (4 - a) + (if m then 4 else 0))%nat /\
  (steps_left p < 7 - 2 * a + (if m then 7 else 0))%nat.
Proof.
  intros H Ha. destruct (decide (authEpoch w = e)) as [<-|Hne].
  - apply on_response_current in H. inversion H; subst; simpl; try (split_and!; lia || done).
    match goal with H : refreshRaceDelays !! a = _ |- _ => apply lookup_lt_Some in H; simpl in H end.
    split_and!; lia.
  - rewrite on_response_superseded in H by done. simplify_eq. simpl. split_and!; lia || done.
Qed.

Lemma external_refresh s l s' r :
  step s l s' -> internal l = false -> refreshPromise s = Some r -> refreshPromise s' = Some r.
Proof.
  intros Hs Hl Hr. step_inv; simpl in *; simplify_eq; try done.
  by match goal with H : authenticate _ _ _ _ _ _ = _ |- _ => apply authenticate_refresh in H as -> end.
Qed.

Lemma step_bounds s l s' r :
  step s l s' -> l <> Settle -> refreshPromise s = Some r -> attempt_ok r ->
  exists r', refreshPromise s' = Some r' /\ attempt_ok r' /\
    ((if is_response l then 1 else 0) + requests_left r' <= requests_left r)%nat /\
    ((if internal l then 1 else 0) + steps_left r' <= steps_left r)%nat.
Proof.
  intros Hs Hl Hr Ha. destruct (internal l) eqn:Ei.
  - step_inv; try discriminate; simpl in Hr; simplify_eq; simpl in Ha |- *;
      (eexists; split; [done|]).
    + destruct (run_bounds e 0 true w) as (? & ? & ?); [lia|]. split_and!; [done|lia|lia].
    + simpl. split_and!; [done|lia|lia].
    + edestruct on_response_bounds as (? & ? & ?); [eassumption..|]. split_and!; [done|lia|lia].
    + destruct (run_bounds e a m w) as (? & ? & ?); [lia|]. split_and!; [done|lia|lia].
  - exists r. rewrite (external_refresh s l s' r) by done. destruct l; try discriminate; done.
Qed.

Lemma exec_bounds s ls s' r :
  exec s ls s' -> Settle ∉ ls -> refreshPromise s = Some r -> attempt_ok r ->
  (count is_response ls <= requests_left r)%nat /\ (count internal ls <= steps_left r)%nat /\
  exists r', refreshPromise s' = Some r'.
Proof.
  intros Hx. revert r. induction Hx as [s|s l s1 ls s2 Hs _ IH]; intros r Hls Hr Ha; simpl; [split_and!; eauto; lia|].
  apply not_elem_of_cons in Hls as [Hl Hls].
  destruct (step_bounds s l s1 r) as (r1 & Hr1 & Ha1 & ? & ?); [done..|].
  destruct (IH r1) as (? & ? & ?); [done..|]. split_and!; [lia | lia | done].
Qed.

(** A refresh that has not settled can always take a step. *)
Lemma refresh_enabled w r : exists l s', internal l = true /\ step (Sys w (Some r)) l s'.
Proof.
  destruct r as [e|e a m x|e a m d|o|].
  - exists LockGranted. eexists. split; [done | constructor].
  - exists (Response {| r_status := 0; r_data := JUndefined |}).
    destruct (on_response e a m {| r_status := 0; r_data := JUndefined |} w) as [w' p] eqn:E.
    eexists. split; [done | by constructor].
  - exists Timer. eexists. split; [done | constructor].
  - exists Settle. eexists. split; [done | constructor].
  - exists Settle. eexists. split; [done | constructor].
Qed.

Lemma start_bounds locks w :
  let r := performRefreshWithBrowserLock locks (authEpoch w) w in
  attempt_ok r /\ (requests_left r <= 8)%nat /\ (steps_left r <= 15)%nat.
Proof.
  destruct locks; simpl; [split_and!; lia || done|].
  destruct (run_bounds (authEpoch w) 0 true w) as (? & ? & ?); [lia|]. split_and!; lia || done.
Qed.

(** ** What a refresh leaves behind *)

(** [w'] is what a refresh that began in [w] may leave with outcome [o]. *)
Definition outcome_spec (w : world) (o : RefreshOutcome) (w' : world) : Prop :=
  match o with
  | OAuthenticated b =>
      bundle_ok b /\ store w' = setBundle b (store w) /\ published w' = published w
  | OAnonymous =>
      store w' = reset Bcomplete (store w) /\
      (published w' = published w \/
       exists i, session_sid (store w) = Some i /\ published w' = published w ++ [SignedOut i])
  | OTransientError superseded =>
      superseded = false /\ published w' = published w /\
      (store w' = setBootstrapState Bidle (store w) \/ store w' = reset Bidle (store w))
  | OOutOfSync _ => store w' = reset Bcomplete (store w) /\ published w' = published w
  end.

(** The world of a refresh that waits: as it began, or with the session removed
    by a mismatch. *)
Definition waiting_spec (w w' : world) : Prop :=
  authEpoch w' = authEpoch w /\ published w' = published w /\
  (store w' = store w \/ store w' = reset Bidle (store w)).

Definition quiet (w : world) (s : system) : Prop :=
  match refreshPromise s with
  | Some (WaitLock e) => e = authEpoch w /\ sys_world s = w
  | Some (WaitResponse e _ _ _ | WaitTimer e _ _ _) => e = authEpoch w /\ waiting_spec w (sys_world s)
  | Some (Done o) => outcome_spec w o (sys_world s)
  | Some Rejected => sys_world s = w
  | None => True
  end.

Lemma waiting_refl w : waiting_spec w w.
Proof. split_and!; eauto. Qed.

Lemma run_current e a m w : authEpoch w = e -> run e a m w = WaitResponse e a m (session_sid (store w)).
Proof. intros <-. unfold run. by rewrite Nat.eqb_refl. Qed.

Lemma waiting_reset b w w' : waiting_spec w w' -> reset b (store w') = reset b (store w).
Proof. done. Qed.

Lemma published_clear_complete w : published (clear false Bcomplete w) = published w.
Proof. unfold clear, clearAuthentication. simpl. by case_match. Qed.

Lemma published_sign_out w :
  published (clear true Bcomplete w) = published w \/
  exists i, session_sid (store w) = Some i /\ published (clear true Bcomplete w) = published w ++ [SignedOut i].
Proof.
  unfold clear, clearAuthentication. simpl. destruct (session_sid (store w)) as [[|c i]|]; simpl; eauto.
Qed.

Lemma published_applyAuthBundle_quiet b w : published (applyAuthBundle b false w) = published w.
Proof. done. Qed.

Lemma response_quiet w a m r w1 w2 p :
  waiting_spec w w1 -> on_response (authEpoch w) a m r w1 = (w2, p) -> quiet w (Sys w2 (Some p)).
Proof.
  intros Hw H. pose proof Hw as (He & Hpub & Hst). rewrite <- He in H. apply on_response_current in H.
  unfold quiet. inversion H; subst; simpl.
  - split_and!; [by eapply response_bundle_ok | done | done].
  - by rewrite He.
  - split; [done|]. split_and!; [done | done | by right].
  - split; [by unfold clear; simpl; rewrite store_clearAuthentication | by rewrite published_clear_complete].
  - split; [by unfold clear; simpl; rewrite store_clearAuthentication|].
    destruct (published_sign_out w1) as [->|(i & Hi & ->)]; rewrite Hpub; [by left|].
    destruct Hst as [Hst|Hst]; rewrite Hst in Hi; [right; by eauto | done].
  - split_and!; [done | done |]. destruct Hst as [->| ->]; [by left | by right].
Qed.

Lemma quiet_step w s l s' : quiet w s -> step s l s' -> internal l = true -> quiet w s'.
Proof.
  intros Hq Hs Hl. step_inv; try discriminate; unfold quiet in Hq |- *; simpl in *.
  - destruct Hq as [-> ->]. rewrite run_current by done. eauto using waiting_refl.
  - by destruct Hq as [_ ->].
  - destruct Hq as [-> Hq]. by eapply response_quiet.
  - destruct Hq as [-> Hq]. by rewrite run_current by apply Hq.
  - done.
  - done.
Qed.

Lemma quiet_exec w s ls s' :
  exec s ls s' -> quiet w s -> Forall (fun l => internal l = true) ls -> quiet w s'.
Proof.
  induction 1 as [|s l s1 ls s2 Hs _ IH]; [done|]. intros Hq Hls. inversion Hls; subst.
  apply IH; [by eapply quiet_step | done].
Qed.

Lemma quiet_start locks w :
  quiet w (Sys w (Some (performRefreshWithBrowserLock locks (authEpoch w) w))).
Proof.
  destruct locks; [done|]. unfold quiet. simpl. rewrite run_current by done. eauto using waiting_refl.
Qed.

(** ** Entry points *)

Lemma live_token_Some s c x t : live_token s c = Some (t, x) ->
  accessToken s = Some t /\ accessExpiresAt s = Some x /\ t <> [] /\ fltb c x = true.
Proof. unfold live_token. intros H. case_match_all. Qed.

(** The headers of a request with a token. *)
Definition bearer (t : jstr) : list (jstr * jstr) :=
  [(js "Content-Type", js "application/json"); (js "Authorization", js "Bearer " ++ t)].

Lemma headers_of_token s t : accessToken s = Some t -> t <> [] -> getCommonHeaders s = bearer t.
Proof. intros H Ht. unfold getCommonHeaders. rewrite H. by destruct t. Qed.

Lemma live_token_reset b s c : live_token (reset b s) c = None.
Proof. done. Qed.

Lemma live_token_set_bootstrap b s c : live_token (setBootstrapState b s) c = live_token s c.
Proof. done. Qed.

(** A session that only a server answer, a sign-in or a sign-out has touched. *)
Definition undecided (s : system) : Prop :=
  let st := store (sys_world s) in
  accessToken st = None /\ session st = None /\ bootstrapState st <> Bcomplete.

(** The labels that tell whether someone is signed in. *)
Definition verdict (l : label) : bool :=
  match l with SignIn _ | SignOut _ | Response _ => true | _ => false end.

Lemma undecided_bundle c s : accessToken s = None -> currentValidAuthBundle c s = None.
Proof. intros H. unfold currentValidAuthBundle, live_token. rewrite H. by repeat case_match. Qed.

Lemma authenticate_undecided resolve c locks d p w w' o :
  accessToken (store w) = None -> session (store w) = None -> bootstrapState (store w) <> Bcomplete ->
  authenticate resolve c locks d p w = (w', o) -> bootstrapState (store w') <> Bcomplete.
Proof.
  intros Ht Hs Hb. unfold authenticate, bootstrapAuthentication, resolveAuthentication.
  rewrite undecided_bundle, bool_decide_false by done. intros H. case_match_all.
Qed.

Lemma on_event_no_session e w : session (store w) = None -> fst (on_event e w) = w.
Proof. intros H. unfold on_event, session_sid. rewrite H. simpl. by repeat case_match. Qed.

Lemma undecided_step s l s' : undecided s -> step s l s' -> verdict l = false -> undecided s'.
Proof.
  intros (Ht & Hs & Hb) Hst Hl. unfold undecided. step_inv; try discriminate; simpl in *; try done.
  - match goal with H : applyAuthRotation _ _ = _ |- _ =>
      unfold applyAuthRotation in H; rewrite Hs in H; by case_match_all end.
  - by rewrite on_event_no_session.
  - match goal with H : authenticate _ _ _ _ _ _ = _ |- _ =>
      pose proof (authenticate_undecided _ _ _ _ _ _ _ _ Ht Hs Hb H); apply authenticate_world in H as [b ->] end.
    done.
  - match goal with H : authenticate _ _ _ _ _ _ = _ |- _ =>
      pose proof (authenticate_undecided _ _ _ _ _ _ _ _ Ht Hs Hb H); apply authenticate_world in H as [b ->] end.
    done.
Qed.

Lemma undecided_exec s ls s' :
  exec s ls s' -> undecided s -> Forall (fun l => verdict l = false) ls -> undecided s'.
Proof.
  induction 1 as [|s l s1 ls s2 Hs _ IH]; [done|]. intros Hu Hls. inversion Hls; subst.
  apply IH; [by eapply undecided_step | done].
Qed.

(** ** Cookies *)

(** A cookie name or value as a server may set it. *)
Definition cookie_text (s : jstr) : Prop :=
  Forall (fun c => c <> 59%N /\ c <> 61%N /\ is_space c = false) s.

Definition cookie_pair (c : jstr * jstr) : jstr := c.1 ++ 61%N :: c.2.

(** [document.cookie]: the pairs separated by a semicolon and a space. *)
Definition document_cookie (cs : list (jstr * jstr)) : jstr := join (js "; ") (cookie_pair <$> cs).

Lemma cookie_trim s : cookie_text s -> trim s = s /\ trim (32%N :: s) = s.
Proof.
  intros Hs. assert (trim s = s) as E by (apply trim_id; by eapply Forall_impl; [exact Hs | intros ? (_ & _ & ?)]).
  split; [done|]. rewrite <- E at 2. unfold trim, drop_spaces. simpl. by destruct (span_while is_space s).
Qed.

(** One turn of the loop, on a part with or without its leading blank. *)
Lemma read_cookie_part pad c ps name :
  pad = [] \/ pad = [32%N] -> cookie_text c.1 -> cookie_text c.2 ->
  read_cookie_parts ((pad ++ cookie_pair c) :: ps) name
  = if jeqb name c.1 then Some c.2 else read_cookie_parts ps name.
Proof.
  intros Hpad Hk Hv. unfold cookie_pair. rewrite app_assoc. cbn [read_cookie_parts].
  rewrite (span_while_all _ (pad ++ c.1) (61%N :: c.2)).
  - rewrite (proj1 (cookie_trim _ Hv)).
    assert (trim (pad ++ c.1) = c.1) as -> by (destruct Hpad as [->| ->]; by apply cookie_trim).
    unfold jeqb. by rewrite (bool_decide_ext (c.1 = name) (name = c.1)).
  - apply Forall_app; split; [by destruct Hpad as [->| ->]; repeat constructor|].
    eapply Forall_impl; [exact Hk|]. intros x (_ & Hx & _). by rewrite (proj2 (N.eqb_neq _ _) Hx).
  - done.
Qed.

Lemma cookie_pair_no_semicolon c : cookie_text c.1 -> cookie_text c.2 ->
  Forall (fun x => (x =? 59)%N = false) (cookie_pair c).
Proof.
  intros Hk Hv. apply Forall_app; split; [|constructor; [done|]];
    (eapply Forall_impl; [eassumption | by intros ? (?%N.eqb_neq & _)]).
Qed.

Definition cookies_ok (cs : list (jstr * jstr)) : Prop :=
  Forall (fun c => cookie_text c.1 /\ cookie_text c.2) cs.

Lemma read_cookie_list pad cs name : pad = [] \/ pad = [32%N] -> cookies_ok cs ->
  read_cookie_parts (split_on 59%N (pad ++ document_cookie cs)) name = assoc name cs.
Proof.
  intros Hpad Hcs. revert pad Hpad. induction Hcs as [|c cs [Hk Hv] Hcs IH]; intros pad Hpad.
  - destruct Hpad as [->| ->]; done.
  - assert (Forall (fun x => (x =? 59)%N = false) (pad ++ cookie_pair c)) as Hns.
    { apply Forall_app; split; [by destruct Hpad as [->| ->]; repeat constructor | by apply cookie_pair_no_semicolon]. }
    unfold document_cookie. destruct cs as [|c' cs].
    + simpl. rewrite split_on_none, read_cookie_part by done. by destruct c.
    + change (join (js "; ") (cookie_pair <$> c :: c' :: cs))
        with (cookie_pair c ++ 59%N :: [32%N] ++ document_cookie (c' :: cs)).
      rewrite app_assoc, split_on_app, read_cookie_part by done.
      rewrite IH by eauto. by destruct c.
Qed.

(** ** Example values *)

Definition example_session : jsval :=
  JObj [(js "sid", JStr (js "s1")); (js "current", JBool true); (js "login_method", JStr (js "password"));
        (js "ip", JStr (js "::1")); (js "user_agent", JStr (js "ua")); (js "created_at", JNum (f64_of_Z 10));
        (js "last_active_at", JNum (f64_of_Z 20)); (js "expires_at", JNum (f64_of_Z 9000))].

Definition example_tokens : list (jstr * jsval) :=
  [(js "access_token", JStr (js "tok")); (js "token_type", JStr (js "Bearer"));
   (js "access_expires_at", JNum (f64_of_Z 5000)); (js "session", example_session)].

Definition example_bundle : jsval :=
  JObj ((js "user", JObj [(js "id", JNum (f64_of_Z 7)); (js "username", JStr (js "ann")); (js "role", JNum (f64_of_Z 1))])
        :: example_tokens).

Definition accepted : AuthRefreshHTTPResponse :=
  {| r_status := 200; r_data := JObj [(js "success", JBool true); (js "data", example_bundle)] |}.

Definition conflict (code : jstr) : AuthRefreshHTTPResponse :=
  {| r_status := 409; r_data := JObj [(js "code", JStr code)] |}.

Definition world0 : world := sys_world initial_system.

(** The world after an example sign-in. *)
Definition world1 : world :=
  match isAuthBundle example_bundle with Some b => applyAuthBundle b true world0 | None => world0 end.

Lemma sign_in_example p : step (Sys world0 p) (SignIn example_bundle) (Sys world1 p).
Proof. by constructor. Qed.

(** ** Theorems *)

(** C39: in every reachable state of every interleaving of sign-ins, rotations,
    sign-outs, events of other tabs, user edits and refreshes, the store holds a
    token, an expiry and a session together or none of them, and those it holds
    passed the response checks: a non-empty token, a finite positive expiry and a
    non-empty session identifier. *)
Theorem session_store_invariant ls s :
  exec initial_system ls s -> store_ok (store (sys_world s)).
Proof. intros Hx. by apply (exec_ok _ _ _ Hx initial_ok). Qed.

Lemma session_store_invariant_witness :
  store_ok (store world1).
Proof.
  apply (session_store_invariant [SignIn example_bundle] (Sys world1 None)).
  eapply exec_cons; [apply sign_in_example | constructor].
Defined.

(** C4: a sign-in, a rotation or a sign-out that happens while a refresh is under
    way wins: whatever lock, responses and timers the refresh still gets, it
    leaves the store, the epoch and the published events as that action left
    them. *)
Theorem newer_session_wins ls s l s1 ls' s2 :
  exec initial_system ls s -> step s l s1 -> supersedes l = true ->
  exec s1 ls' s2 -> Forall (fun l => internal l = true) ls' ->
  sys_world s2 = sys_world s1.
Proof.
  intros Hx Hs Hl Hx' Hls. eapply stale_exec; [done | | done].
  eapply supersedes_stale; [by apply (exec_ok _ _ _ Hx initial_ok) | done..].
Qed.

Lemma newer_session_wins_witness :
  sys_world (Sys world1 (Some (Done (OTransientError true)))) = world1.
Proof.
  apply (newer_session_wins [Refresh false] (Sys world0 (Some (WaitResponse 0 0 true None)))
           (SignIn example_bundle) (Sys world1 (Some (WaitResponse 0 0 true None)))
           [Response {| r_status := 401; r_data := JUndefined |}]).
  - eapply exec_cons; [apply (step_refresh _ None false) | constructor].
  - apply sign_in_example.
  - reflexivity.
  - eapply exec_cons; [by constructor | constructor].
  - by repeat constructor.
Defined.

(** C35: a refresh ends.  Between its start and its end it sends at most 8 requests
    and takes at most 15 steps, whatever the server answers and whatever else
    the application does meanwhile; and until it has ended some step of it is
    enabled. *)
Theorem refresh_ends locks w ls s :
  exec (Sys w (Some (performRefreshWithBrowserLock locks (authEpoch w) w))) ls s ->
  Settle ∉ ls ->
  (count is_response ls <= 8)%nat /\ (count internal ls <= 15)%nat /\
  exists l s', internal l = true /\ step s l s'.
Proof.
  intros Hx Hls. destruct (start_bounds locks w) as (Ha & ? & ?).
  destruct (exec_bounds _ _ _ _ Hx Hls eq_refl Ha) as (? & ? & r & Hr). split_and!; [lia | lia |].
  destruct s as [ws ps]. simpl in Hr. subst ps. apply refresh_enabled.
Qed.

(** The bound is reached: three races, a mismatch, and three races again. *)
Definition race_run : list label := [Response (conflict RACE); Timer].
Definition longest_run : list label :=
  [LockGranted] ++ race_run ++ race_run ++ race_run ++ [Response (conflict MISMATCH)]
  ++ race_run ++ race_run ++ race_run ++ [Response (conflict MISMATCH)].

Lemma refresh_ends_witness :
  (count is_response longest_run = 8)%nat /\ (count internal longest_run <= 15)%nat.
Proof.
  split; [reflexivity|].
  refine (proj1 (proj2 (refresh_ends true world0 longest_run
    (Sys (clear false Bcomplete (clear false Bidle world0)) (Some (Done (OOutOfSync MISMATCH)))) _ _))).
  - repeat first [apply exec_nil | eapply exec_cons; [constructor; vm_compute; reflexivity | ]].
  - vm_compute. intros H. repeat (inversion H as [|? ? ? H']; subst; clear H; rename H' into H).
Defined.

(** The outcome of a refresh that nothing interferes with tells what it left
    behind.  Authenticated: the store holds exactly the checked bundle, nothing is
    published.  Anonymous: the store is empty, the check complete, and the only
    event published is the sign-out of the session the refresh began with.
    Transient: nothing published, the session kept (or dropped, after a mismatch)
    and the check open again; never reported as superseded.  Out of sync: the
    store is empty, the check complete, nothing published. *)
Theorem refresh_outcome locks w ls w' o :
  exec (Sys w (Some (performRefreshWithBrowserLock locks (authEpoch w) w))) ls (Sys w' (Some (Done o))) ->
  Forall (fun l => internal l = true) ls ->
  outcome_spec w o w'.
Proof. intros Hx Hls. apply (quiet_exec w _ _ _ Hx (quiet_start locks w) Hls). Qed.

Lemma refresh_outcome_witness :
  outcome_spec world1 OAnonymous (clear true Bcomplete world1) /\
  published (clear true Bcomplete world1) = [Authenticated (js "s1"); SignedOut (js "s1")].
Proof.
  split; [|reflexivity].
  apply (refresh_outcome true world1 [LockGranted; Response {| r_status := 401; r_data := JUndefined |}]).
  - repeat first [apply exec_nil | eapply exec_cons; [constructor; vm_compute; reflexivity | ]].
  - by repeat constructor.
Defined.

(** A rotation replaces the token and nothing else: when it succeeds the user
    and the session identifier stay, requests carry the new token, no event is
    published, and a refresh under way is superseded. *)
Theorem rotation_keeps_session v w w' :
  applyAuthRotation v w = Ok w' ->
  user (store w') = user (store w) /\ session_sid (store w') = session_sid (store w) /\
  published w' = published w /\ authEpoch w' = S (authEpoch w) /\
  exists r, isAuthTokenRotation v = Some r /\ accessToken (store w') = Some (rot_token r) /\
    getCommonHeaders (store w') = bearer (rot_token r).
Proof.
  unfold applyAuthRotation. intros H. destruct (isAuthTokenRotation v) as [r|] eqn:Er; [|done].
  pose proof (isAuthTokenRotation_ok _ _ Er) as [[Ht _] _].
  destruct (user (store w)) as [u|] eqn:Eu; [|done]. destruct (session (store w)) as [l|] eqn:El; [|done].
  destruct (jeqb (sid (rot_session r)) (sid l)) eqn:Es; [|done]. apply jeqb_eq in Es. simplify_eq.
  split_and!; [done | | done | done |].
  - unfold session_sid. rewrite store_applyAuthBundle, El. simpl. by rewrite Es.
  - exists r. split_and!; [done | done | by apply headers_of_token].
Qed.

Lemma rotation_keeps_session_witness :
  exists w', applyAuthRotation (JObj example_tokens) world1 = Ok w' /\ user (store w') = user (store world1).
Proof. eexists. split; [reflexivity|]. by eapply (rotation_keeps_session (JObj example_tokens)). Defined.

(** Before any server answer, sign-in or sign-out the bootstrap check is not
    recorded as complete, whatever the session hint said; resolving
    authentication then always reaches the server. *)
Theorem bootstrap_needs_verdict ls s clock_ms locks :
  exec initial_system ls s -> Forall (fun l => verdict l = false) ls ->
  bootstrapState (store (sys_world s)) <> Bcomplete /\
  resolveAuthentication clock_ms locks (refreshPromise s) (sys_world s)
  = (let w := set_store (setBootstrapState Bchecking (store (sys_world s))) (sys_world s) in
     (w, inr (refreshAuthentication locks (refreshPromise s) w))).
Proof.
  intros Hx Hls. destruct (undecided_exec _ _ _ Hx ltac:(done) Hls) as (Ht & Hs & Hb).
  split; [done|]. unfold resolveAuthentication. by rewrite undecided_bundle, bool_decide_false.
Qed.

Lemma bootstrap_needs_verdict_witness :
  bootstrapState (store world0) <> Bcomplete.
Proof.
  apply (bootstrap_needs_verdict [Bootstrap false 0 true (Some [])] (Sys world0 None) 0%Z true).
  - eapply exec_cons; [by eapply step_known | constructor].
  - by repeat constructor.
Defined.

(** The headers for a request that cannot be replayed.  Taken at once they
    carry a token that lives for more than a minute.  Taken after a refresh that
    nothing interfered with, they carry the token of the new bundle, or, when the
    refresh failed for a transient reason, the still valid token the refresh
    began with; an expired session is reported only when the store is empty. *)
Theorem fresh_headers clock_ms locks w :
  match fresh_start clock_ms locks None w with
  | inl headers =>
      exists t x, accessToken (store w) = Some t /\ accessExpiresAt (store w) = Some x /\
        fltb (fadd (now_seconds clock_ms) (f64_of_Z 60)) x = true /\ headers = bearer t
  | inr r => forall ls w' o,
      exec (Sys w (Some r)) ls (Sys w' (Some (Done o))) -> Forall (fun l => internal l = true) ls ->
      match fresh_finish clock_ms o w' with
      | Ok headers => exists t, t <> [] /\ headers = bearer t /\
          ((exists b, o = OAuthenticated b /\ t = access_token b) \/
           (o = OTransientError false /\ accessToken (store w) = Some t /\
            exists x, accessExpiresAt (store w) = Some x /\ fltb (now_seconds clock_ms) x = true))
      | Err SessionExpired => accessToken (store w') = None /\ session (store w') = None
      | Err RequestFailed => o = OTransientError false /\ live_token (store w') (now_seconds clock_ms) = None
      end
  end.
Proof.
  unfold fresh_start.
  destruct (live_token (store w) (fadd (now_seconds clock_ms) (f64_of_Z 60))) as [[t x]|] eqn:El.
  { apply live_token_Some in El as (Et & Ex & Hne & Hlt). eauto 10 using headers_of_token. }
  intros ls w' o Hx Hls.
  pose proof (quiet_exec w _ _ _ Hx (quiet_start locks w) Hls) as Hq. unfold quiet in Hq. simpl in Hq.
  unfold fresh_finish. destruct o as [b| |sup|code]; simpl in Hq.
  - destruct Hq as ([[Ht _] _] & -> & _). exists (access_token b). split_and!; [done | by apply headers_of_token | eauto].
  - destruct Hq as [-> _]. by rewrite live_token_reset.
  - destruct Hq as (-> & _ & Hst). destruct (live_token (store w') (now_seconds clock_ms)) as [[t x]|] eqn:El'; [|done].
    destruct Hst as [Hst|Hst]; rewrite Hst in El'; [|done]. apply live_token_Some in El' as (Et & Ex & Hne & Hlt).
    exists t. rewrite Hst. split_and!; [done | by apply headers_of_token | right; eauto].
  - destruct Hq as [-> _]. by rewrite live_token_reset.
Qed.

Lemma fresh_headers_witness :
  exists headers, fresh_finish 4990000 (OTransientError false)
    (set_store (setBootstrapState Bidle (store world1)) world1) = Ok headers /\
  exists t, headers = bearer t.
Proof.
  eexists. split; [vm_compute; reflexivity|].
  destruct (fresh_headers 4990000 false world1
    [Response {| r_status := 503; r_data := JUndefined |}]
    (set_store (setBootstrapState Bidle (store world1)) world1) (OTransientError false)) as (t & _ & H & _).
  - repeat first [apply exec_nil | eapply exec_cons; [constructor; vm_compute; reflexivity | ]].
  - by repeat constructor.
  - exists t. exact H.
Defined.

(** Signing out in one tab signs out the other tabs of that session and no
    others.  The one event it publishes passes the checks of every tab with
    another source that gets it within a minute; a tab on the same session then
    drops it and marks the check complete, a tab on another session or on none is
    left as it is, and the event is not published again. *)
Theorem sign_out_reaches_tabs w w' l source nonce t tab now :
  session (store w) = Some l -> sid l <> [] ->
  source <> tab -> fltb (fabs (fsub now t)) (f64_of_Z 60000) = true ->
  exists e, published (clearAuthentication true Bcomplete w) = published w ++ [e] /\
    deliver tab now (event_value source nonce t e) = Some e /\
    published (fst (on_event e w')) = published w' /\
    (session_sid (store w') = Some (sid l) -> store (fst (on_event e w')) = reset Bcomplete (store w')) /\
    (session_sid (store w') <> Some (sid l) -> on_event e w' = (w', false)).
Proof.
  intros Hl Hne Hsrc Hnow. exists (SignedOut (sid l)).
  assert (exists c i, sid l = c :: i) as (c & i & Ei) by (destruct (sid l); [done | eauto]).
  assert (on_event (SignedOut (sid l)) w' = if decide (session_sid (store w') = Some (sid l))
            then (clearAuthentication false Bcomplete w', false) else (w', false)) as Hev.
  { unfold on_event. destruct (session_sid (store w')) as [[|c' i']|] eqn:Es; try by rewrite decide_False by congruence.
    unfold jeqb. case_bool_decide; [by rewrite decide_True by congruence | by rewrite decide_False by congruence]. }
  split_and!.
  - unfold clearAuthentication, session_sid. rewrite Hl. simpl. by rewrite Ei.
  - unfold deliver.
    assert (isAuthSessionSyncEvent (event_value source nonce t (SignedOut (sid l)))
            = Some (SignedOut (sid l), source, t)) as -> by (rewrite Ei; reflexivity).
    cbn [mbind option_bind]. by rewrite (proj2 (jeqb_neq source tab) Hsrc), Hnow.
  - rewrite Hev. case_decide; [|done]. unfold clearAuthentication. simpl. by case_match.
  - intros H. rewrite Hev, decide_True by done. apply store_clearAuthentication.
  - intros H. by rewrite Hev, decide_False.
Qed.

Lemma sign_out_reaches_tabs_witness :
  exists e, published (clearAuthentication true Bcomplete world1) = published world1 ++ [e] /\
    deliver (js "b") (f64_of_Z 30000) (event_value (js "a") (js "n") fzero e) = Some e.
Proof.
  destruct (session (store world1)) as [l|] eqn:El; [|discriminate].
  destruct (sign_out_reaches_tabs world1 world0 l (js "a") (js "n") fzero (js "b") (f64_of_Z 30000) El)
    as (e & H1 & H2 & _).
  - vm_compute in El. injection El as <-. discriminate.
  - discriminate.
  - reflexivity.
  - exists e. split; [exact H1 | exact H2].
Defined.

(** Reading a cookie inverts [document.cookie]: for names and values free of
    blanks, semicolons and equals signs, [readCookie] gives the value of the
    first cookie with the name, or nothing; the hint is seen exactly when its
    cookie is set. *)
Theorem cookie_roundtrip cs name :
  cookies_ok cs ->
  readCookie (document_cookie cs) name = assoc name cs /\
  (hasSessionHint (Some (document_cookie cs)) = true <-> is_Some (assoc SESSION_HINT_COOKIE_NAME cs)).
Proof.
  intros Hcs. assert (forall n, readCookie (document_cookie cs) n = assoc n cs) as H.
  { intros n. unfold readCookie. apply (read_cookie_list [] cs n); auto. }
  split; [done|]. unfold hasSessionHint. rewrite H, bool_decide_eq_true.
  by rewrite not_eq_None_Some.
Qed.

Lemma cookie_roundtrip_witness :
  readCookie (document_cookie [(js "a", js "1"); (SESSION_HINT_COOKIE_NAME, js "1")]) SESSION_HINT_COOKIE_NAME
  = Some (js "1").
Proof.
  refine (eq_trans (proj1 (cookie_roundtrip _ _ _)) _); [|reflexivity].
  repeat constructor; discriminate.
Defined.

(** A rejected lock request is not handled by the [catch] of
    [performRefreshWithBrowserLock]: the check stays open. *)
Theorem lock_rejection_stays_checking clock_ms :
  exists s, exec initial_system [Bootstrap true clock_ms true None; LockRejected; Settle] s /\
    bootstrapState (store (sys_world s)) = Bchecking.
Proof.
  eexists. split; [|shelve].
  eapply exec_cons; [by eapply (step_unknown _ _ true)|].
  eapply exec_cons; [apply step_lock_rejected|]. eapply exec_cons; [apply step_rejected | constructor].
  Unshelve. done.
Qed.

End AuthFacts.
