(* ===== verification/HttpClient.v ===== *)
(** * HTTP client

    Model of [lib/http-client.ts] on top of the session: the interceptors of the
    shared axios instance and the sharing of GET requests in flight.

    axios runs the request interceptor, sends, and runs the response interceptor
    with the reply; [api.request] from an interceptor does so again with the same
    configuration, and its outcome becomes that of the first call, so a call and
    its replay are one record here.  Header names are compared as axios compares
    them: callers give them in the spelling used here. *)

From stdpp Require Import base list numbers strings gmap.
From Stdlib Require Import ZArith SpecFloat Lia.
From S2P Require Import Prelude.
From S2P Require Import JsString.
From S2P Require Import JsNumber.
From S2P Require Import JsValue.
From S2P Require Import AuthSession.

Module Http.
Import Auth.

(** ** Configurations and calls *)

Record ApiRequestConfig := {
  headers : gmap jstr jstr;
  skipErrorHandler : bool;
  skipAuthRefresh : bool;
  authRetry : bool;
  acceptAuthRotation : bool;
  singleUseAuthorization : bool;
}.

Definition set_headers (h : gmap jstr jstr) (c : ApiRequestConfig) : ApiRequestConfig :=
  {| headers := h; skipErrorHandler := skipErrorHandler c; skipAuthRefresh := skipAuthRefresh c;
     authRetry := authRetry c; acceptAuthRotation := acceptAuthRotation c;
     singleUseAuthorization := singleUseAuthorization c |}.

(** [config.skipAuthRefresh = true] *)
Definition skip_refresh (c : ApiRequestConfig) : ApiRequestConfig :=
  {| headers := headers c; skipErrorHandler := skipErrorHandler c; skipAuthRefresh := true;
     authRetry := authRetry c; acceptAuthRotation := acceptAuthRotation c;
     singleUseAuthorization := singleUseAuthorization c |}.

(** [config.authRetry = true] *)
Definition mark_retry (c : ApiRequestConfig) : ApiRequestConfig :=
  {| headers := headers c; skipErrorHandler := skipErrorHandler c; skipAuthRefresh := skipAuthRefresh c;
     authRetry := true; acceptAuthRotation := acceptAuthRotation c;
     singleUseAuthorization := singleUseAuthorization c |}.

(** Where a call is.  The outcome of an awaited refresh is [None] when the refresh
    threw. *)
Inductive phase :=
| Preparing
| Prepared (outcome : option RefreshOutcome)
| Sent
| AwaitingRefresh
| Refreshed (outcome : option RefreshOutcome)
| Resolved (data : jsval)
| Failed.

(** [call_key]: the key of a shared GET. *)
Record api_call := { call_config : ApiRequestConfig; call_phase : phase; call_key : option jstr }.

(** [wire]: the requests sent, by call, with their headers.  [notices]: the calls
    that told the user that the session expired.  [redirects]: the navigations to
    the sign-in page. *)
Record http_client := {
  http_session : system;
  issued : list api_call;
  wire : list (nat * gmap jstr jstr);
  inFlightGet : gmap jstr nat;
  pathname : jstr;
  notices : list nat;
  redirects : nat;
}.

Definition initial_client (path : jstr) : http_client :=
  {| http_session := initial_system; issued := []; wire := []; inFlightGet := ∅; pathname := path;
     notices := []; redirects := 0 |}.

Definition set_session (s : system) (k : http_client) : http_client :=
  {| http_session := s; issued := issued k; wire := wire k; inFlightGet := inFlightGet k; pathname := pathname k;
     notices := notices k; redirects := redirects k |}.

Definition set_issued (l : list api_call) (k : http_client) : http_client :=
  {| http_session := http_session k; issued := l; wire := wire k; inFlightGet := inFlightGet k; pathname := pathname k;
     notices := notices k; redirects := redirects k |}.

Definition set_in_flight (m : gmap jstr nat) (k : http_client) : http_client :=
  {| http_session := http_session k; issued := issued k; wire := wire k; inFlightGet := m; pathname := pathname k;
     notices := notices k; redirects := redirects k |}.

(** The fields of the session. *)
Definition session_world (k : http_client) : world := sys_world (http_session k).
Definition set_world (w : world) (k : http_client) : http_client := set_session (Sys w (refreshPromise (http_session k))) k.
Definition set_promise (r : refresh) (k : http_client) : http_client := set_session (Sys (session_world k) (Some r)) k.
Definition access_token_of (k : http_client) : option jstr := accessToken (store (session_world k)).

(** ** Steps of a call *)

Definition update_call (i : nat) (c : ApiRequestConfig) (p : phase) (k : http_client) : http_client :=
  set_issued (alter (fun x => {| call_config := c; call_phase := p; call_key := call_key x |}) i (issued k)) k.

(** The call settles, and the [finally] of a shared GET forgets its key. *)
Definition settle_call (i : nat) (c : ApiRequestConfig) (p : phase) (k : http_client) : http_client :=
  let k1 := update_call i c p k in
  match issued k !! i with
  | Some {| call_key := Some key |} => set_in_flight (delete key (inFlightGet k1)) k1
  | _ => k1
  end.

Definition AUTHORIZATION : jstr := js "Authorization".
Definition bearer_token (token : jstr) : jstr := js "Bearer " ++ token.

(** The headers with the token of the session, when there is one. *)
Definition authorized (token : option jstr) (h : gmap jstr jstr) : gmap jstr jstr :=
  match token with Some ((_ :: _) as t) => <[AUTHORIZATION := bearer_token t]> h | _ => h end.

(** The request goes out. *)
Definition dispatch (i : nat) (c : ApiRequestConfig) (k : http_client) : http_client :=
  let k1 := update_call i c Sent k in
  {| http_session := http_session k1; issued := issued k1; wire := wire k1 ++ [(i, headers c)];
     inFlightGet := inFlightGet k1; pathname := pathname k1; notices := notices k1; redirects := redirects k1 |}.

Definition with_headers (l : list (jstr * jstr)) (c : ApiRequestConfig) : ApiRequestConfig :=
  set_headers (foldl (fun h e => <[e.1 := e.2]> h) (headers c) l) c.

(** The test of the request interceptor. *)
Definition single_use (c : ApiRequestConfig) : bool :=
  singleUseAuthorization c || bool_decide (is_Some (headers c !! js "X-Security-Proof")).

(** The request interceptor, up to its [await]. *)
Definition request_interceptor (clock_ms : Z) (locks : bool) (i : nat) (c : ApiRequestConfig) (k : http_client) : http_client :=
  if single_use c then
    let c' := skip_refresh c in
    match fresh_start clock_ms locks (refreshPromise (http_session k)) (session_world k) with
    | inl l => dispatch i (with_headers l c') k
    | inr r => update_call i c' Preparing (set_promise r k)
    end
  else dispatch i (set_headers (authorized (access_token_of k) (headers c)) c) k.

(** Its rest. *)
Definition prepared (clock_ms : Z) (i : nat) (c : ApiRequestConfig) (outcome : option RefreshOutcome) (k : http_client) : http_client :=
  match outcome with
  | Some o =>
      match fresh_finish clock_ms o (session_world k) with
      | Ok l => dispatch i (with_headers l c) k
      | Err _ => settle_call i c Failed k
      end
  | None => settle_call i c Failed k
  end.

Definition redirectToSignIn (k : http_client) : http_client :=
  if jeqb (pathname k) (js "/sign-in") then k
  else {| http_session := http_session k; issued := issued k; wire := wire k; inFlightGet := inFlightGet k;
          pathname := pathname k; notices := notices k; redirects := S (redirects k) |}.

(** [handleServerError], unless the caller handles errors. *)
Definition notify (i : nat) (c : ApiRequestConfig) (k : http_client) : http_client :=
  if skipErrorHandler c then k
  else {| http_session := http_session k; issued := issued k; wire := wire k; inFlightGet := inFlightGet k;
          pathname := pathname k; notices := notices k ++ [i]; redirects := redirects k |}.

(** The first response interceptor. *)
Definition on_success (i : nat) (c : ApiRequestConfig) (data : jsval) (k : http_client) : http_client :=
  if acceptAuthRotation c && match get data (js "success") with JBool true => true | _ => false end then
    match applyAuthRotation (get data (js "data")) (session_world k) with
    | Ok w => settle_call i c (Resolved data) (set_world w k)
    | Err _ => settle_call i c Failed k
    end
  else settle_call i c (Resolved data) k.

(** The second, up to its [await]; [status] is that of the response if there is
    one. *)
Definition on_failure (locks : bool) (i : nat) (c : ApiRequestConfig) (status : option Z) (k : http_client) : http_client :=
  if bool_decide (status = Some 401%Z) then
    if negb (skipAuthRefresh c) && negb (authRetry c) then
      update_call i (mark_retry c) AwaitingRefresh
        (set_promise (refreshAuthentication locks (refreshPromise (http_session k)) (session_world k)) k)
    else if authRetry c then
      settle_call i c Failed
        (redirectToSignIn (notify i c (set_world (clearAuthentication false Bcomplete (session_world k)) k)))
    else settle_call i c Failed (notify i c k)
  else settle_call i c Failed k.

(** Its rest; [api.request(config)] begins with the request interceptor. *)
Definition refreshed (clock_ms : Z) (locks : bool) (i : nat) (c : ApiRequestConfig) (outcome : option RefreshOutcome)
    (k : http_client) : http_client :=
  match outcome with
  | Some (OAuthenticated _) =>
      request_interceptor clock_ms locks i (set_headers (authorized (access_token_of k) (headers c)) c) k
  | Some OAnonymous | Some (OOutOfSync _) => settle_call i c Failed (redirectToSignIn (notify i c k))
  | Some (OTransientError _) | None => settle_call i c Failed k
  end.

(** ** Calls of the application *)

(** [api.request(config)] and its shorthands, with the index of the call. *)
Definition api_request (clock_ms : Z) (locks : bool) (c : ApiRequestConfig) (key : option jstr) (k : http_client)
    : http_client * nat :=
  let i := length (issued k) in
  (request_interceptor clock_ms locks i c
     (set_issued (issued k ++ [{| call_config := c; call_phase := Preparing; call_key := key |}]) k), i).

(** [params] is the text of the parameters. *)
Definition get_key (k : http_client) (url params : jstr) : jstr :=
  match session_sid (store (session_world k)) with Some ((_ :: _) as s) => s | _ => js "anonymous" end
  ++ js ":" ++ url ++ js "?" ++ params.

Definition api_get (clock_ms : Z) (locks : bool) (url params : jstr) (disableDuplicate : bool) (c : ApiRequestConfig)
    (k : http_client) : http_client * nat :=
  if disableDuplicate then api_request clock_ms locks c None k
  else
    let key := get_key k url params in
    match inFlightGet k !! key with
    | Some existingRequest => (k, existingRequest)
    | None =>
        let '(k', request) := api_request clock_ms locks c (Some key) (set_in_flight (<[key := length (issued k)]> (inFlightGet k)) k) in
        (k', request)
    end.

(** ** Events *)

Inductive reply := Success (data : jsval) | Failure (status : option Z).

Inductive client_event :=
| Request (clock_ms : Z) (locks : bool) (c : ApiRequestConfig)
| Get (clock_ms : Z) (locks : bool) (url params : jstr) (disableDuplicate : bool) (c : ApiRequestConfig)
| Reply (locks : bool) (i : nat) (r : reply)
| Resume (clock_ms : Z) (locks : bool) (i : nat).

Definition react (e : client_event) (k : http_client) : http_client :=
  match e with
  | Request clock_ms locks c => fst (api_request clock_ms locks c None k)
  | Get clock_ms locks url params disableDuplicate c => fst (api_get clock_ms locks url params disableDuplicate c k)
  | Reply locks i r =>
      match issued k !! i with
      | Some {| call_config := c; call_phase := Sent |} =>
          match r with Success data => on_success i c data k | Failure status => on_failure locks i c status k end
      | _ => k
      end
  | Resume clock_ms locks i =>
      match issued k !! i with
      | Some {| call_config := c; call_phase := Prepared o |} => prepared clock_ms i c o k
      | Some {| call_config := c; call_phase := Refreshed o |} => refreshed clock_ms locks i c o k
      | _ => k
      end
  end.

(** The promise of the refresh settles: the calls that await it can go on. *)
Definition refresh_result (s : system) : option RefreshOutcome :=
  match refreshPromise s with Some (Done o) => Some o | _ => None end.

Definition resumable (o : option RefreshOutcome) (x : api_call) : api_call :=
  {| call_config := call_config x;
     call_phase := match call_phase x with Preparing => Prepared o | AwaitingRefresh => Refreshed o | p => p end;
     call_key := call_key x |}.

Inductive client_label := OfSession (l : label) | OfClient (e : client_event).

(** The session's own steps, the settling of its refresh, and the client's. *)
Inductive client_step : http_client -> client_label -> http_client -> Prop :=
| cs_session k l s :
    step (http_session k) l s -> l <> Settle -> client_step k (OfSession l) (set_session s k)
| cs_settle k s :
    step (http_session k) Settle s ->
    client_step k (OfSession Settle)
      (set_session s (set_issued (resumable (refresh_result (http_session k)) <$> issued k) k))
| cs_client k e : client_step k (OfClient e) (react e k).

Inductive client_exec : http_client -> list client_label -> http_client -> Prop :=
| ce_nil k : client_exec k [] k
| ce_cons k l k' ls k'' : client_step k l k' -> client_exec k' ls k'' -> client_exec k (l :: ls) k''.

End Http.
