(* ===== verification/HttpClientFacts.v ===== *)
(** * Properties of the HTTP client

    How often a request is sent, and with what token; that calls settle; the sharing
    of GET requests. *)

From stdpp Require Import base list numbers strings gmap.
From Stdlib Require Import ZArith SpecFloat Lia.
From S2P Require Import Prelude.
From S2P Require Import JsString.
From S2P Require Import JsNumber.
From S2P Require Import JsValue.
From S2P Require Import AuthSession.
From S2P Require Import AuthSessionFacts.
From S2P Require Import HttpClient.

Module HttpFacts.
Import Auth.
Import AuthFacts.
Import Http.

(** ** Frames *)

Lemma session_update_call i c p k : http_session (update_call i c p k) = http_session k.
Proof. done. Qed.
Lemma session_settle_call i c p k : http_session (settle_call i c p k) = http_session k.
Proof. unfold settle_call. by repeat case_match. Qed.
Lemma session_dispatch i c k : http_session (dispatch i c k) = http_session k.
Proof. done. Qed.
Lemma session_notify i c k : http_session (notify i c k) = http_session k.
Proof. unfold notify. by case_match. Qed.
Lemma session_redirect k : http_session (redirectToSignIn k) = http_session k.
Proof. unfold redirectToSignIn. by case_match. Qed.

Create Rewrite HintDb http.
#[export] Hint Rewrite session_update_call session_settle_call session_dispatch session_notify session_redirect : http.

(** ** The calls *)

Definition settled_phase (p : phase) : bool := match p with Resolved _ | Failed => true | _ => false end.
Definition waiting_phase (p : phase) : bool := match p with Preparing | AwaitingRefresh => true | _ => false end.
Definition unsettled (x : api_call) : Prop := settled_phase (call_phase x) = false.

(** How often call [i] was sent. *)
Definition sends (i : nat) (k : http_client) : nat := length (filter (fun e => e.1 = i) (wire k)).

(** What a phase says of the number of requests sent. *)
Definition phase_ok (n : nat) (c : ApiRequestConfig) (p : phase) : Prop :=
  match p with
  | Preparing | Prepared _ => n = 0%nat /\ skipAuthRefresh c = true
  | Sent => (1 <= n <= 2)%nat /\ (authRetry c = false -> n = 1%nat) /\ (skipAuthRefresh c = true -> n = 1%nat)
            /\ (single_use c = true -> skipAuthRefresh c = true)
  | AwaitingRefresh | Refreshed _ =>
      n = 1%nat /\ authRetry c = true /\ skipAuthRefresh c = false /\ single_use c = false
  | Resolved _ | Failed => (n <= 2)%nat /\ (skipAuthRefresh c = true -> (n <= 1)%nat)
                           /\ (single_use c = true -> skipAuthRefresh c = true)
  end.

(** The invariant, but for the phase of one call that is about to be set. *)
Record inv_but (but : option nat) (k : http_client) : Prop := {
  i_phase : forall i x, but <> Some i -> issued k !! i = Some x ->
    phase_ok (sends i k) (call_config x) (call_phase x) /\
    (waiting_phase (call_phase x) = true -> is_Some (refreshPromise (http_session k)));
  i_wire : forall e, e ∈ wire k -> (e.1 < length (issued k))%nat;
  i_keys : forall key i, inFlightGet k !! key = Some i <->
    exists x, issued k !! i = Some x /\ call_key x = Some key /\ unsettled x;
}.

Abbreviation inv := (inv_but None).

Lemma inv_forget i k : inv k -> inv_but (Some i) k.
Proof. intros [H1 H2 H3]. split; [|done..]. intros j x _. by apply H1. Qed.

Lemma inv_session but s k : inv_but but k ->
  (is_Some (refreshPromise (http_session k)) -> is_Some (refreshPromise s)) -> inv_but but (set_session s k).
Proof.
  intros [H1 H2 H3] Hp. split; [|done..]. intros i x Hi Hx. destruct (H1 i x Hi Hx) as [Ho Hw]. split; [done|]. eauto.
Qed.

Lemma inv_notify but i c k : inv_but but k -> inv_but but (notify i c k).
Proof. intros [H1 H2 H3]. unfold notify. by case_match. Qed.

Lemma inv_redirect but k : inv_but but k -> inv_but but (redirectToSignIn k).
Proof. intros [H1 H2 H3]. unfold redirectToSignIn. by case_match. Qed.

Lemma lookup_update_call i c p k j y : issued (update_call i c p k) !! j = Some y ->
  (j <> i /\ issued k !! j = Some y) \/
  (j = i /\ exists x, issued k !! i = Some x /\ y = {| call_config := c; call_phase := p; call_key := call_key x |}).
Proof.
  unfold update_call. simpl. destruct (decide (j = i)) as [->|Hne]; [|rewrite list_lookup_alter_ne by (by intros ->); by left].
  rewrite list_lookup_alter_eq. destruct (issued k !! i) as [x|]; [|done]. intros [= <-]. right. split; [done|]. by exists x.
Qed.

Lemma length_update_call i c p k : length (issued (update_call i c p k)) = length (issued k).
Proof. apply length_alter. Qed.

Lemma lookup_updated i c p k x : issued k !! i = Some x ->
  issued (update_call i c p k) !! i = Some {| call_config := c; call_phase := p; call_key := call_key x |}.
Proof. intros Hx. unfold update_call. simpl. by rewrite list_lookup_alter_eq, Hx. Qed.

(** A call moves to another phase. *)
Lemma update_inv i c p k x : inv_but (Some i) k -> issued k !! i = Some x -> unsettled x -> settled_phase p = false ->
  phase_ok (sends i k) c p -> (waiting_phase p = true -> is_Some (refreshPromise (http_session k))) ->
  inv (update_call i c p k).
Proof.
  intros [H1 H2 H3] Hx Hu Hp Hok Hw. split.
  - intros j y _ [[Hne Hy]|(-> & x' & _ & ->)]%lookup_update_call; [|done]. apply H1; [congruence | done].
  - intros e He. rewrite length_update_call. by apply H2.
  - intros key j. change (inFlightGet (update_call i c p k)) with (inFlightGet k). rewrite H3.
    destruct (decide (j = i)) as [->|Hne].
    + rewrite (lookup_updated i c p k x Hx), Hx. split; intros (y & [= <-] & Hk & _); (eexists; split; [reflexivity | by split]).
    + unfold update_call. simpl. by rewrite list_lookup_alter_ne.
Qed.

Lemma settle_inv i c p k x : inv_but (Some i) k -> issued k !! i = Some x -> unsettled x -> settled_phase p = true ->
  phase_ok (sends i k) c p -> inv (settle_call i c p k).
Proof.
  intros [H1 H2 H3] Hx Hu Hp Hok. pose proof (lookup_updated i c p k x Hx) as Hx'.
  assert (forall m, (forall key j, m !! key = Some j <-> inFlightGet k !! key = Some j /\ call_key x <> Some key) ->
            inv (set_in_flight m (update_call i c p k))) as Hgoal.
  { intros m Hm. split.
    - intros j y _ [[Hne Hy]|(-> & x' & _ & ->)]%lookup_update_call.
      + destruct (H1 j y ltac:(congruence) Hy) as [? ?]. by split.
      + split; [done|]. by destruct p.
    - intros e He. change (issued (set_in_flight m ?k')) with (issued k'). rewrite length_update_call. by apply H2.
    - intros key j. rewrite Hm, H3. change (issued (set_in_flight m ?k')) with (issued k'). split.
      + intros [(y & Hy & Hk & Huy) Hne]. exists y. split_and!; try done. unfold update_call. simpl.
        rewrite list_lookup_alter_ne; [done|]. intros ->. congruence.
      + intros (y & [[Hne Hy]|(-> & x' & _ & ->)]%lookup_update_call & Hk & Huy).
        * split; [by exists y|]. intros Hkx. apply Hne.
          assert (inFlightGet k !! key = Some i) as Ei by (apply H3; by exists x).
          assert (inFlightGet k !! key = Some j) as Ej by (apply H3; by exists y). congruence.
        * unfold unsettled in Huy. simpl in Huy. congruence. }
  unfold settle_call. rewrite Hx. destruct x as [cx px [key|]].
  - apply Hgoal. intros key' j. rewrite lookup_delete_Some. simpl. split; intros [? ?]; split; congruence.
  - assert (update_call i c p k = set_in_flight (inFlightGet k) (update_call i c p k)) as -> by done.
    apply Hgoal. intros key' j. simpl. by split; [|intros [? _]].
Qed.

Lemma sends_dispatch i c k j : sends j (dispatch i c k) = if decide (j = i) then S (sends j k) else sends j k.
Proof.
  unfold sends. simpl. rewrite filter_app, length_app, filter_cons, filter_nil. simpl.
  destruct (decide (i = j)), (decide (j = i)); try congruence; simpl; lia.
Qed.

Lemma dispatch_inv i c k x : inv_but (Some i) k -> issued k !! i = Some x -> unsettled x ->
  phase_ok (S (sends i k)) c Sent -> inv (dispatch i c k).
Proof.
  intros [H1 H2 H3] Hx Hu Hok. split.
  - intros j y _ Hy. rewrite sends_dispatch. apply lookup_update_call in Hy as [[Hne Hy]|(-> & x' & _ & ->)].
    + rewrite decide_False by done. apply H1; [congruence | done].
    + by rewrite decide_True.
  - intros e. simpl. rewrite length_alter, elem_of_app, list_elem_of_singleton. intros [He| ->]; [by apply H2|].
    simpl. by eapply lookup_lt_Some.
  - intros key j. change (inFlightGet (dispatch i c k)) with (inFlightGet k). rewrite H3.
    destruct (decide (j = i)) as [->|Hne].
    + change (issued (dispatch i c k)) with (issued (update_call i c Sent k)).
      rewrite (lookup_updated i c Sent k x Hx), Hx. split; intros (y & [= <-] & Hk & _); (eexists; split; [reflexivity | by split]).
    + unfold dispatch, update_call. simpl. by rewrite list_lookup_alter_ne.
Qed.
(** ** Reactions keep the invariant *)

Lemma single_use_authorized t c : single_use (set_headers (authorized t (headers c)) c) = single_use c.
Proof.
  unfold single_use, authorized. simpl. f_equal. destruct t as [[|? ?]|]; [done| |done]. by rewrite lookup_insert_ne.
Qed.

Lemma interceptor_inv clock locks i c k x : inv_but (Some i) k -> issued k !! i = Some x -> unsettled x ->
  sends i k = 0%nat \/
    (sends i k = 1%nat /\ authRetry c = true /\ skipAuthRefresh c = false /\ single_use c = false) ->
  inv (request_interceptor clock locks i c k).
Proof.
  intros Hi Hx Hu Hn. unfold request_interceptor. destruct (single_use c) eqn:Es.
  - destruct Hn as [Hn|(_ & _ & _ & ?)]; [|done]. destruct (fresh_start _ _ _ _) as [l|r].
    + apply (dispatch_inv i _ k x); [done..|]. simpl. rewrite Hn. split_and!; [lia | lia | done | done | done].
    + apply (update_inv i _ _ _ x); [by apply inv_session | done | done | done | by split | done].
  - apply (dispatch_inv i _ k x); [done..|]. cbn [phase_ok]. rewrite single_use_authorized, Es. simpl.
    destruct Hn as [->|(-> & -> & -> & _)]; split_and!; done || lia.
Qed.

Lemma phase_settled n c p q : settled_phase p = false -> settled_phase q = true -> phase_ok n c p -> phase_ok n c q.
Proof.
  intros Hp Hq Hok. assert (phase_ok n c Failed) as Hf.
  { destruct p; simpl in *; try done.
    - destruct Hok as [-> ->]. split_and!; done || lia.
    - destruct Hok as [-> ->]. split_and!; done || lia.
    - destruct Hok as (? & ? & Hs & ?). split_and!; [lia | intros Hk; rewrite Hs by done; lia | done].
    - destruct Hok as (-> & _ & -> & ->). split_and!; done || lia.
    - destruct Hok as (-> & _ & -> & ->). split_and!; done || lia. }
  by destruct q.
Qed.

(** A call settles from the phase it is in. *)
Lemma call_settles_inv k k' i x q : inv k -> issued k !! i = Some x -> settled_phase (call_phase x) = false ->
  settled_phase q = true -> inv k' -> issued k' = issued k -> wire k' = wire k ->
  inv (settle_call i (call_config x) q k').
Proof.
  intros Hk Hx Hp Hq Hk' Ei Ew. apply (settle_inv i _ q k' x); [by apply inv_forget | by rewrite Ei | done | done|].
  unfold sends. rewrite Ew. fold (sends i k). destruct (i_phase None k Hk i x ltac:(done) Hx) as [Hok _].
  by eapply phase_settled.
Qed.

Lemma issued_notify i c k : issued (notify i c k) = issued k /\ wire (notify i c k) = wire k.
Proof. unfold notify. by case_match. Qed.
Lemma issued_redirect k : issued (redirectToSignIn k) = issued k /\ wire (redirectToSignIn k) = wire k.
Proof. unfold redirectToSignIn. by case_match. Qed.

(** The settlement of a call after a change of the session, a notice and a
    navigation. *)
Ltac settles Hk Hx :=
  match goal with
  | |- inv (settle_call ?i ?c ?q ?k') =>
      eapply (call_settles_inv _ k' i {| call_config := c; call_phase := _; call_key := _ |}); [exact Hk | exact Hx | done | done
        | repeat first [apply inv_redirect | apply inv_notify | (apply inv_session; [|done])]; exact Hk
        | rewrite ?(proj1 (issued_redirect _)), ?(proj1 (issued_notify _ _ _)); done
        | rewrite ?(proj2 (issued_redirect _)), ?(proj2 (issued_notify _ _ _)); done]
  end.

Lemma reply_inv locks i r k : inv k -> inv (react (Reply locks i r) k).
Proof.
  intros Hk. cbn [react]. destruct (issued k !! i) as [[c [] key]|] eqn:Hx; try done.
  destruct r as [data|status].
  - unfold on_success. destruct (_ && _); [|settles Hk Hx].
    destruct (applyAuthRotation _ _) as [w|]; settles Hk Hx.
  - unfold on_failure. case_bool_decide; [|settles Hk Hx].
    destruct (skipAuthRefresh c) eqn:Es, (authRetry c) eqn:Er; simpl; try settles Hk Hx.
    destruct (i_phase None k Hk i _ ltac:(done) Hx) as [(Hn & H1 & _ & Hs) _]. simpl in *.
    apply (update_inv i _ _ _ {| call_config := c; call_phase := Sent; call_key := key |}); try done.
    + apply inv_session; [by apply inv_forget | done].
    + change (sends i (set_promise _ k)) with (sends i k). simpl. split_and!; [by apply H1 | done | done|].
      destruct (single_use c) eqn:E; [by rewrite Hs in Es|]. exact E.
Qed.

Lemma resume_inv clock locks i k : inv k -> inv (react (Resume clock locks i) k).
Proof.
  intros Hk. cbn [react]. destruct (issued k !! i) as [[c [|o| | |o| |] key]|] eqn:Hx; try done.
  - unfold prepared. destruct o as [o|]; [|settles Hk Hx]. destruct (fresh_finish _ _ _) as [l|]; [|settles Hk Hx].
    destruct (i_phase None k Hk i _ ltac:(done) Hx) as [[Hn Hs] _]. simpl in *.
    apply (dispatch_inv i _ k {| call_config := c; call_phase := Prepared (Some o); call_key := key |});
      [by apply inv_forget | done | done|]. simpl. rewrite Hn. split_and!; done || lia.
  - unfold refreshed. destruct o as [[]|]; try settles Hk Hx.
    destruct (i_phase None k Hk i _ ltac:(done) Hx) as [(Hn & Hr & Hs & Hu) _]. simpl in *.
    eapply interceptor_inv; [by apply inv_forget | exact Hx | done|]. right. by rewrite single_use_authorized.
Qed.

(** A new call, before its interceptor runs. *)
Lemma append_inv (c : ApiRequestConfig) (key : option jstr) (m : gmap jstr nat) k : inv k ->
  m = (match key with Some t => <[t := length (issued k)]> (inFlightGet k) | None => inFlightGet k end) ->
  (forall t, key = Some t -> inFlightGet k !! t = None) ->
  inv_but (Some (length (issued k)))
    (set_issued (issued k ++ [{| call_config := c; call_phase := Preparing; call_key := key |}]) (set_in_flight m k)).
Proof.
  intros [H1 H2 H3] -> Hnew. split; simpl.
  - intros j y Hj [Hy|(Hlen & Hy)]%lookup_app_Some; [by apply H1|]. exfalso. apply Hj.
    destruct (j - length (issued k))%nat eqn:E; [f_equal; lia | done].
  - intros e He%H2. rewrite length_app. lia.
  - intros t j. assert ((exists x, (issued k ++ [{| call_config := c; call_phase := Preparing; call_key := key |}]) !! j = Some x
        /\ call_key x = Some t /\ unsettled x) <->
      (inFlightGet k !! t = Some j \/ (j = length (issued k) /\ key = Some t))) as ->.
    { rewrite H3. split.
      - intros (x & [Hy|(Hlen & Hy)]%lookup_app_Some & Hk & Hu); [left; by exists x|]. right.
        destruct (j - length (issued k))%nat eqn:E; [|done]. simpl in Hy. injection Hy as <-. split; [lia | done].
      - intros [(x & Hx & Hk & Hu)|[-> Hk]].
        + exists x. split; [by apply lookup_app_l_Some | done].
        + exists {| call_config := c; call_phase := Preparing; call_key := key |}.
          split; [by rewrite lookup_app_r, Nat.sub_diag | done]. }
    destruct key as [t'|]; [|naive_solver]. specialize (Hnew t' eq_refl).
    rewrite lookup_insert_Some. naive_solver.
Qed.
Lemma sends_none i k : (forall e, e ∈ wire k -> (e.1 < i)%nat) -> sends i k = 0%nat.
Proof.
  unfold sends. induction (wire k) as [|e l IH]; intros Hl; [done|]. rewrite filter_cons_False.
  - apply IH. intros e' He'. apply Hl. by right.
  - specialize (Hl e ltac:(by left)). lia.
Qed.

Lemma start_inv clock locks c key m k : inv k ->
  m = (match key with Some t => <[t := length (issued k)]> (inFlightGet k) | None => inFlightGet k end) ->
  (forall t, key = Some t -> inFlightGet k !! t = None) ->
  inv (fst (api_request clock locks c key (set_in_flight m k))).
Proof.
  intros Hk Hm Hnew. pose proof (append_inv c key m k Hk Hm Hnew) as Ha. unfold api_request. cbn [fst].
  change (issued (set_in_flight m k)) with (issued k) in *.
  eapply interceptor_inv; [exact Ha | | |].
  - simpl. by rewrite lookup_app_r, Nat.sub_diag.
  - done.
  - left. apply sends_none. intros e He. apply (i_wire _ _ Hk e He).
Qed.

Lemma react_inv e k : inv k -> inv (react e k).
Proof.
  intros Hk. destruct e as [clock locks c|clock locks url params d c|locks i r|clock locks i].
  - by apply (start_inv clock locks c None (inFlightGet k) k).
  - cbn [react]. unfold api_get. destruct d; [by apply (start_inv clock locks c None (inFlightGet k) k)|].
    destruct (inFlightGet k !! get_key k url params) as [?|] eqn:E; [done|].
    apply (start_inv clock locks c (Some (get_key k url params))); [done | done|]. by intros t [= <-].
  - by apply reply_inv.
  - by apply resume_inv.
Qed.

Lemma settle_all_inv s k : inv k ->
  inv (set_session s (set_issued (resumable (refresh_result (http_session k)) <$> issued k) k)).
Proof.
  intros [H1 H2 H3]. set (o := refresh_result _). split; simpl.
  - intros i y _ Hy. apply list_lookup_fmap_Some in Hy as (x & -> & Hx). destruct (H1 i x ltac:(done) Hx) as [Hok _].
    change (sends i (set_session _ _)) with (sends i k). destruct x as [c [] key]; simpl in *; by split.
  - intros e He%H2. by rewrite length_fmap.
  - intros t j. rewrite H3. split; intros (x & Hx & Hk & Hu).
    + exists (resumable o x). rewrite list_lookup_fmap, Hx. split_and!; [done | done|]. by destruct x as [c [] key].
    + apply list_lookup_fmap_Some in Hx as (y & -> & Hy). exists y. split_and!; [done | done|]. by destruct y as [c [] key].
Qed.

Lemma step_promise s l s' : step s l s' -> l <> Settle -> is_Some (refreshPromise s) -> is_Some (refreshPromise s').
Proof. by destruct 1. Qed.

Lemma client_step_inv k l k' : client_step k l k' -> inv k -> inv k'.
Proof.
  destruct 1 as [k l s Hs Hl|k s Hs|k e]; intros Hk.
  - apply inv_session; [done|]. by eapply step_promise.
  - by apply settle_all_inv.
  - by apply react_inv.
Qed.

Lemma client_exec_inv k ls k' : client_exec k ls k' -> inv k -> inv k'.
Proof. induction 1; eauto using client_step_inv. Qed.

Lemma initial_inv path : inv (initial_client path).
Proof. split; simpl; [done | by intros e ?%elem_of_nil|]. intros t j. rewrite lookup_empty. split; [done | by intros (? & ? & _)]. Qed.

(** ** What goes out *)

(** Headers with the token the session has. *)
Definition carries_token (k : http_client) (h : gmap jstr jstr) : Prop :=
  forall c t, access_token_of k = Some (c :: t) -> h !! AUTHORIZATION = Some (bearer_token (c :: t)).

Definition sends_token (k k' : http_client) : Prop :=
  wire k' = wire k \/ exists i h, wire k' = wire k ++ [(i, h)] /\ carries_token k h.

Lemma common_headers_token k c : carries_token k (headers (with_headers (getCommonHeaders (store (session_world k))) c)).
Proof.
  intros ch t Ht. unfold getCommonHeaders. unfold access_token_of in Ht. rewrite Ht.
  cbn [with_headers set_headers headers foldl app fst snd].
  change (js "Authorization") with AUTHORIZATION. by rewrite lookup_insert_eq.
Qed.

Lemma fresh_start_headers clock locks p w l : fresh_start clock locks p w = inl l -> l = getCommonHeaders (store w).
Proof. unfold fresh_start. case_match; by intros [=]. Qed.

Lemma fresh_finish_headers clock o w l : fresh_finish clock o w = Ok l -> l = getCommonHeaders (store w).
Proof. unfold fresh_finish. intros H. by repeat case_match; simplify_eq. Qed.

Lemma wire_settle i c p k : wire (settle_call i c p k) = wire k.
Proof. unfold settle_call. by repeat case_match. Qed.

Lemma interceptor_sends clock locks i c k : sends_token k (request_interceptor clock locks i c k).
Proof.
  unfold request_interceptor. destruct (single_use c).
  - destruct (fresh_start _ _ _ _) as [l|r] eqn:E; [|by left]. apply fresh_start_headers in E as ->.
    right. eexists i, _. split; [reflexivity | apply common_headers_token].
  - right. eexists i, _. split; [reflexivity|]. intros ch t Ht. simpl. rewrite Ht. simpl. by rewrite lookup_insert_eq.
Qed.

Lemma react_sends e k : sends_token k (react e k).
Proof.
  destruct e as [clock locks c|clock locks url params d c|locks i r|clock locks i]; cbn [react].
  - apply (interceptor_sends _ _ _ _ (set_issued _ k)).
  - unfold api_get. destruct d; [apply (interceptor_sends _ _ _ _ (set_issued _ k))|].
    destruct (inFlightGet k !! _) as [?|]; [by left|]. apply (interceptor_sends _ _ _ _ (set_issued _ (set_in_flight _ k))).
  - left. destruct (issued k !! i) as [[c [] key]|]; try done. destruct r as [data|status].
    + unfold on_success. destruct (_ && _); [destruct (applyAuthRotation _ _)|]; by rewrite wire_settle.
    + unfold on_failure. case_bool_decide; [|by rewrite wire_settle]. destruct (_ && _); [done|].
      destruct (authRetry c); by rewrite wire_settle, ?(proj2 (issued_redirect _)), ?(proj2 (issued_notify _ _ _)).
  - destruct (issued k !! i) as [[c [|o| | |o| |] key]|]; try by left.
    + unfold prepared. destruct o as [o|]; [|left; apply wire_settle].
      destruct (fresh_finish _ _ _) as [l|] eqn:E; [|left; apply wire_settle]. apply fresh_finish_headers in E as ->.
      right. eexists i, _. split; [reflexivity | apply common_headers_token].
    + unfold refreshed.
      destruct o as [[]|];
        try (left; by rewrite wire_settle, ?(proj2 (issued_redirect _)), ?(proj2 (issued_notify _ _ _))).
      apply interceptor_sends.
Qed.

(** ** Calls settle *)

(** What servers, browser and pending continuations do. *)
Definition answer (l : client_label) : bool :=
  match l with
  | OfSession l => internal l
  | OfClient (Reply _ _ _) | OfClient (Resume _ _ _) => true
  | OfClient _ => false
  end.

Definition can_settle (n : nat) (i : nat) (k : http_client) : Prop :=
  exists ls k' x, client_exec k ls k' /\ forallb answer ls = true /\ (length ls <= n)%nat /\
    issued k' !! i = Some x /\ settled_phase (call_phase x) = true.

Lemma can_settle_step n i k l k' : client_step k l k' -> answer l = true -> can_settle n i k' -> can_settle (S n) i k.
Proof.
  intros Hs Hl (ls & k'' & x & He & Ha & Hn & Hx & Hp). exists (l :: ls), k'', x. split_and!; try done.
  - by econstructor.
  - simpl. by rewrite Hl.
  - simpl. lia.
Qed.

Lemma can_settle_le n m i k : (n <= m)%nat -> can_settle n i k -> can_settle m i k.
Proof. intros Hle (ls & k' & x & He & Ha & Hn & Hx & Hp). exists ls, k', x. split_and!; done || lia. Qed.

Lemma settled_now i k x : issued k !! i = Some x -> settled_phase (call_phase x) = true -> can_settle 0 i k.
Proof. intros Hx Hp. exists [], k, x. split_and!; try done. constructor. Qed.

Lemma lookup_settle_call i c p k x : issued k !! i = Some x ->
  issued (settle_call i c p k) !! i = Some {| call_config := c; call_phase := p; call_key := call_key x |}.
Proof.
  intros Hx. unfold settle_call. rewrite Hx. destruct x as [cx px [key|]]; by apply (lookup_updated i c p k _ Hx).
Qed.

Lemma failed_settles n i c k k' x : issued k !! i = Some x -> issued k' = issued k -> can_settle n i (settle_call i c Failed k').
Proof.
  intros Hx E. apply (can_settle_le 0); [lia|]. eapply settled_now; [apply lookup_settle_call; by rewrite E | done].
Qed.

Lemma sent_settles i k c key : issued k !! i = Some {| call_config := c; call_phase := Sent; call_key := key |} ->
  can_settle 1 i k.
Proof.
  intros Hx. apply (can_settle_step 0 i k (OfClient (Reply false i (Failure None))) _ (cs_client k _)); [done|].
  cbn [react]. rewrite Hx. by eapply failed_settles.
Qed.

Lemma resumed_settles i k x : inv k -> issued k !! i = Some x ->
  match call_phase x with Prepared _ | Refreshed _ => true | _ => false end = true -> can_settle 2 i k.
Proof.
  intros Hk Hx Hp. apply (can_settle_step 1 i k (OfClient (Resume 0 false i)) _ (cs_client k _)); [done|].
  cbn [react]. rewrite Hx. destruct x as [c [|o| | |o| |] key]; try done.
  - unfold prepared. destruct o as [o|]; [|by eapply failed_settles]. destruct (fresh_finish _ _ _); [|by eapply failed_settles].
    eapply sent_settles. by apply (lookup_updated i _ Sent k _ Hx).
  - destruct (i_phase _ _ Hk i _ ltac:(done) Hx) as [(_ & _ & _ & Hs) _]. simpl in Hs. unfold refreshed.
    destruct o as [[]|];
      try (eapply failed_settles; [exact Hx | by rewrite ?(proj1 (issued_redirect _)), ?(proj1 (issued_notify _ _ _))]).
    unfold request_interceptor. rewrite single_use_authorized, Hs.
    eapply sent_settles. by apply (lookup_updated i _ Sent k _ Hx).
Qed.

(** The refresh can end before its promise settles. *)
Definition working (l : label) : bool := match l with Settle => false | _ => internal l end.

Definition ended (r : refresh) : Prop := match r with Done _ | Rejected => True | _ => False end.

Lemma response_can_end e a m w : exists r w' p, on_response e a m r w = (w', p) /\ ended p.
Proof.
  exists {| r_status := 0; r_data := JUndefined |}. unfold on_response. destruct (negb _); [by eexists _, _|].
  simpl. by eexists _, _.
Qed.

Lemma refresh_can_end w r : exists ls w' r', exec (Sys w (Some r)) ls (Sys w' (Some r')) /\
  (length ls <= 2)%nat /\ forallb working ls = true /\ ended r'.
Proof.
  assert (forall e a m x, exists ls w' r', exec (Sys w (Some (WaitResponse e a m x))) ls (Sys w' (Some r')) /\
    (length ls <= 1)%nat /\ forallb working ls = true /\ ended r') as Hresp.
  { intros e a m x. destruct (response_can_end e a m w) as (r0 & w' & p & Hr & Hp). exists [Response r0], w', p.
    split_and!; try done. eapply exec_cons; [by constructor | constructor]. }
  destruct r as [e|e a m x|e a m d|o|].
  - exists [LockRejected], w, Rejected. split_and!; [|simpl; lia | done | done]. eapply exec_cons; constructor.
  - destruct (Hresp e a m x) as (ls & w' & r' & He & Hn & Hl & Hr). exists ls, w', r'. split_and!; done || lia.
  - assert (ended (run e a m w) \/ exists x, run e a m w = WaitResponse e a m x) as [Hd|[x Hw]].
    { unfold run. case_match; [right; by eexists | by left]. }
    + exists [Timer], w, (run e a m w). split_and!; [|simpl; lia | done | done]. eapply exec_cons; constructor.
    + destruct (Hresp e a m x) as (ls & w' & r' & He & Hn & Hl & Hr). exists (Timer :: ls), w', r'.
      split_and!; [|simpl; lia | done | done]. eapply exec_cons; [constructor|]. by rewrite Hw.
  - exists [], w, (Done o). split_and!; [constructor | simpl; lia | done | done].
  - exists [], w, Rejected. split_and!; [constructor | simpl; lia | done | done].
Qed.

Lemma set_session_same k : set_session (http_session k) k = k.
Proof. by destruct k. Qed.

(** Work of the refresh, with the client looking on. *)
Lemma can_settle_exec n i s ls s' k : exec s ls s' -> forallb working ls = true ->
  can_settle n i (set_session s' k) -> can_settle (length ls + n) i (set_session s k).
Proof.
  intros He. induction He as [s|s l s1 ls s2 Hs He IH]; intros Hl Hc; [done|]. simpl in Hl. apply andb_true_iff in Hl as [Hl Hls].
  apply (can_settle_step _ i _ (OfSession l) (set_session s1 k)).
  - apply (cs_session (set_session s k) l s1); [done | by intros ->].
  - simpl. by destruct l.
  - by apply IH.
Qed.

Lemma settle_enabled w r : ended r -> step (Sys w (Some r)) Settle (Sys w None).
Proof. destruct r; try done; constructor. Qed.

(** ** Theorems *)

(** C28: a request is sent at most twice, and a request whose authorization can be
    used once, or that carries a security proof, is sent at most once: it is never
    replayed, not even after a refresh. *)
Theorem sent_at_most_twice path ls k i x :
  client_exec (initial_client path) ls k -> issued k !! i = Some x ->
  (sends i k <= 2)%nat /\ (single_use (call_config x) = true -> (sends i k <= 1)%nat).
Proof.
  intros He Hx. destruct (i_phase _ _ (client_exec_inv _ _ _ He (initial_inv path)) i x ltac:(done) Hx) as [Hok _].
  destruct x as [c [] key]; simpl in *; try (destruct Hok as [-> _]; split; lia).
  - destruct Hok as (? & _ & Hs & Hu). split; [lia|]. intros Hx'. rewrite Hs by auto. lia.
  - destruct Hok as (? & Hs & Hu). split; [lia|]. auto.
  - destruct Hok as (? & Hs & Hu). split; [lia|]. auto.
Qed.

(** The sharing of GET requests: the entry of a key is the one unsettled
    request with that key, so two callers share a request only while it is in
    flight, and none is left behind. *)
Theorem shared_get_in_flight path ls k key i :
  client_exec (initial_client path) ls k ->
  (inFlightGet k !! key = Some i <-> exists x, issued k !! i = Some x /\ call_key x = Some key /\ unsettled x).
Proof. intros He. apply (i_keys _ _ (client_exec_inv _ _ _ He (initial_inv path))). Qed.

(** C33: no call hangs on the client's side: from every reachable state, five
    answers of the servers, the browser and the waiting continuations at most
    settle an unsettled call, through the refresh it may wait for, the replay and
    its reply. *)
Theorem call_can_settle path ls k i x :
  client_exec (initial_client path) ls k -> issued k !! i = Some x -> unsettled x -> can_settle 5 i k.
Proof.
  intros He Hx Hu. pose proof (client_exec_inv _ _ _ He (initial_inv path)) as Hk.
  destruct (waiting_phase (call_phase x)) eqn:Hw.
  - destruct (i_phase _ _ Hk i x ltac:(done) Hx) as [_ Hp]. destruct (Hp Hw) as [r Hr].
    destruct (refresh_can_end (session_world k) r) as (ls' & w' & r' & Hrun & Hn & Hls & Hend).
    assert (http_session k = Sys (session_world k) (Some r)) as Es.
    { unfold session_world. destruct (http_session k). simpl in Hr. by subst. }
    rewrite <- (set_session_same k), Es. apply (can_settle_le (length ls' + 3)); [lia|].
    apply (can_settle_exec 3 i _ ls' _ k Hrun Hls).
    set (k1 := set_session (Sys w' (Some r')) k).
    eapply (can_settle_step 2 i k1 (OfSession Settle)); [apply cs_settle; by apply settle_enabled | done|].
    apply (resumed_settles i _ (resumable (refresh_result (http_session k1)) x)).
    + apply settle_all_inv. by apply inv_session.
    + simpl. by rewrite list_lookup_fmap, Hx.
    + by destruct x as [c [] key].
  - destruct x as [c [|o| | |o| |] key]; try done.
    + apply (can_settle_le 2); [lia|]. by eapply resumed_settles.
    + apply (can_settle_le 1); [lia|]. by eapply sent_settles.
    + apply (can_settle_le 2); [lia|]. by eapply resumed_settles.
Qed.

(** Every request that goes out, first or replayed, carries the token the
    session has at that moment, whatever headers its configuration had. *)
Theorem sends_current_token e k i h c t :
  wire (react e k) = wire k ++ [(i, h)] -> access_token_of k = Some (c :: t) ->
  h !! AUTHORIZATION = Some (bearer_token (c :: t)).
Proof.
  intros Hw Ht. destruct (react_sends e k) as [E|(i' & h' & E & Hh)]; rewrite Hw in E.
  - apply (f_equal length) in E. rewrite length_app in E. simpl in E. lia.
  - apply app_inv_head in E. injection E as <- <-. by apply Hh.
Qed.

(** C40: the reply to a replayed request ends whatever session there is: when it is
    401, the session of a sign-in that happened while the replay was under way is
    cleared, although the reply is about the token of an earlier one. *)
Theorem late_reply_ends_new_session k i c key v b k1 locks :
  issued k !! i = Some {| call_config := c; call_phase := Sent; call_key := key |} -> authRetry c = true ->
  isAuthBundle v = Some b -> client_step k (OfSession (SignIn v)) k1 ->
  session (store (session_world k1)) = Some (b_session b) /\
  session (store (session_world (react (Reply locks i (Failure (Some 401%Z))) k1))) = None.
Proof.
  intros Hx Hr Hv Hs. inversion Hs as [k' l s Hstep Hl|? ? ?|]; subst. inversion Hstep as [w p v' b' Hb| | | | | | | | | | | | | |]; subst.
  split.
  - unfold session_world. cbn [set_session http_session sys_world]. rewrite store_applyAuthBundle. simpl. congruence.
  - cbn [react]. change (issued (set_session ?s k)) with (issued k). rewrite Hx. unfold on_failure.
    rewrite bool_decide_true, Hr, andb_false_r by done. unfold session_world.
    rewrite session_settle_call, session_redirect, session_notify. simpl. by rewrite store_clearAuthentication.
Qed.

(** ** An execution with a replay *)

Definition plain_config : ApiRequestConfig :=
  {| headers := ∅; skipErrorHandler := false; skipAuthRefresh := false; authRetry := false;
     acceptAuthRotation := false; singleUseAuthorization := false |}.

Definition bundle_of (v : jsval) (synchronizeTabs : bool) (w : world) : world :=
  match isAuthBundle v with Some b => applyAuthBundle b synchronizeTabs w | None => w end.

(** The bundle of another user. *)
Definition other_bundle : jsval :=
  JObj [(js "user", JObj [(js "id", JNum (f64_of_Z 8)); (js "username", JStr (js "bob")); (js "role", JNum (f64_of_Z 1))]);
        (js "access_token", JStr (js "other")); (js "token_type", JStr (js "Bearer"));
        (js "access_expires_at", JNum (f64_of_Z 5000));
        (js "session", JObj [(js "sid", JStr (js "s2")); (js "current", JBool true); (js "login_method", JStr (js "password"));
                             (js "ip", JStr (js "::1")); (js "user_agent", JStr (js "ua")); (js "created_at", JNum (f64_of_Z 10));
                             (js "last_active_at", JNum (f64_of_Z 20)); (js "expires_at", JNum (f64_of_Z 9000))])].

(** A request is sent, gets 401, waits for a refresh and is sent again. *)
Definition signed_in : http_client := set_session (Sys world1 None) (initial_client (js "/models")).
Definition requested : http_client := react (Request 0 false plain_config) signed_in.
Definition refused : http_client := react (Reply false 0 (Failure (Some 401%Z))) requested.
Definition world2 : world := bundle_of example_bundle false world1.
Definition renewed_session : system :=
  Sys world2 (match isAuthBundle example_bundle with Some b => Some (Done (OAuthenticated b)) | None => None end).
Definition renewed_client : http_client := set_session renewed_session refused.
Definition resumed_client : http_client :=
  set_session (Sys world2 None) (set_issued (resumable (refresh_result renewed_session) <$> issued renewed_client) renewed_client).
Definition replayed : http_client := react (Resume 0 false 0) resumed_client.

Lemma refused_exec : client_exec (initial_client (js "/models"))
  [OfSession (SignIn example_bundle); OfClient (Request 0 false plain_config);
   OfClient (Reply false 0 (Failure (Some 401%Z)))] refused.
Proof.
  eapply ce_cons; [apply (cs_session _ _ (Sys world1 None)); [apply sign_in_example | done]|].
  eapply ce_cons; [constructor|]. eapply ce_cons; [constructor|]. constructor.
Qed.

Lemma replay_exec : client_exec refused
  [OfSession (Response accepted); OfSession Settle; OfClient (Resume 0 false 0)] replayed.
Proof.
  eapply ce_cons; [apply (cs_session _ _ renewed_session); [|done]|].
  { assert (http_session refused = Sys world1 (Some (WaitResponse 1 0 true (Some (js "s1"))))) as -> by (vm_compute; reflexivity).
    constructor. vm_compute. reflexivity. }
  eapply ce_cons; [apply (cs_settle renewed_client (Sys world2 None))|].
  { vm_compute. constructor. }
  eapply ce_cons; [apply (cs_client resumed_client)|]. constructor.
Qed.

Lemma client_exec_app k ls k' ls' k'' : client_exec k ls k' -> client_exec k' ls' k'' -> client_exec k (ls ++ ls') k''.
Proof. induction 1; simpl; eauto using client_exec. Qed.

Lemma replayed_exec : exists ls, client_exec (initial_client (js "/models")) ls replayed.
Proof. eexists. eapply client_exec_app; [apply refused_exec | apply replay_exec]. Qed.

Lemma sent_at_most_twice_witness : sends 0 replayed = 2%nat /\ (sends 0 replayed <= 2)%nat.
Proof.
  split; [vm_compute; reflexivity|]. destruct replayed_exec as [ls He].
  destruct (issued replayed !! 0%nat) as [x|] eqn:Hx; [|vm_compute in Hx; discriminate].
  apply (sent_at_most_twice _ ls _ 0 x He Hx).
Defined.

Lemma call_can_settle_witness : can_settle 5 0 refused.
Proof. eapply call_can_settle; [apply refused_exec | vm_compute; reflexivity | vm_compute; reflexivity]. Defined.

Lemma sends_current_token_witness :
  exists h, wire requested = wire signed_in ++ [(0%nat, h)] /\ h !! AUTHORIZATION = Some (bearer_token (js "tok")).
Proof.
  eexists. split; [vm_compute; reflexivity|].
  eapply (sends_current_token (Request 0 false plain_config) signed_in); vm_compute; reflexivity.
Defined.

Lemma shared_get_in_flight_witness :
  let k := react (Get 0 false (js "/api/models") (js "{}") false plain_config) (initial_client (js "/models")) in
  inFlightGet k !! js "anonymous:/api/models?{}" = Some 0%nat /\
  exists x, issued k !! 0%nat = Some x /\ call_key x = Some (js "anonymous:/api/models?{}") /\ unsettled x.
Proof.
  intros k. assert (inFlightGet k !! js "anonymous:/api/models?{}" = Some 0%nat) as E by (vm_compute; reflexivity).
  split; [done|]. eapply (shared_get_in_flight (js "/models") [OfClient _]); [|exact E].
  eapply ce_cons; [constructor | constructor].
Defined.

Lemma late_reply_ends_new_session_witness :
  let k1 := set_session (Sys (bundle_of other_bundle true world2) None) replayed in
  session_sid (store (session_world k1)) = Some (js "s2") /\
  session (store (session_world (react (Reply false 0 (Failure (Some 401%Z))) k1))) = None.
Proof.
  split; [vm_compute; reflexivity|]. destruct (isAuthBundle other_bundle) as [b|] eqn:Eb; [|vm_compute in Eb; discriminate].
  assert (step (http_session replayed) (SignIn other_bundle) (Sys (bundle_of other_bundle true world2) None)) as Hs.
  { unfold bundle_of. rewrite Eb. by apply (step_sign_in world2 None). }
  eapply (late_reply_ends_new_session replayed 0); [vm_compute; reflexivity | reflexivity | exact Eb |].
  by apply (cs_session replayed).
Defined.
End HttpFacts.
