(* ===== verification/HttpClientProtocol.v ===== *)
(** * The protocol of unauthorized replies

    What a 401 reply leads to, over whole executions of the HTTP client: a history
    invariant relates the mark on the configuration of a call to the replies and
    resumptions the call went through, and from it follows which replies refresh the
    session, which end it, and that nothing else touches it. *)

From stdpp Require Import base list numbers strings gmap.
From Stdlib Require Import ZArith SpecFloat Lia.
From S2P Require Import Prelude.
From S2P Require Import JsString.
From S2P Require Import JsNumber.
From S2P Require Import JsValue.
From S2P Require Import AuthSession.
From S2P Require Import AuthSessionFacts.
From S2P Require Import HttpClient.
From S2P Require Import HttpClientFacts.

Module HttpProtocol.
Import Auth.
Import AuthFacts.
Import Http.
Import HttpFacts.

(** ** Histories *)

(** A reply with status 401 to call [i]. *)
Definition refusal (locks : bool) (i : nat) : client_event := Reply locks i (Failure (Some 401%Z)).

Definition in_phase (i : nat) (p : phase) (k : http_client) : Prop :=
  exists x, issued k !! i = Some x /\ call_phase x = p.

(** [authRetry] is the client's own mark: no caller sets it. *)
Definition caller_ok (l : client_label) : Prop :=
  match l with
  | OfClient (Request _ _ c) | OfClient (Get _ _ _ _ _ c) => authRetry c = false
  | _ => True
  end.

Section History.
Context (path : jstr).
Implicit Types (ls : list client_label) (k : http_client) (i : nat).

(** In the execution [ls], [e] happened in a state with [P]. *)
Definition happened ls (e : client_event) (P : list client_label -> http_client -> Prop) : Prop :=
  exists l1 l2 k1, ls = l1 ++ OfClient e :: l2 /\ client_exec (initial_client path) l1 k1 /\ P l1 k1.

(** Call [i] was sent and got 401. *)
Definition refused_in ls i : Prop :=
  exists locks, happened ls (refusal locks i) (fun _ k => in_phase i Sent k).

(** After that the refresh it waited for gave a session, and it went on. *)
Definition replayed_in ls i : Prop :=
  exists clock locks b, happened ls (Resume clock locks i)
    (fun l1 k => refused_in l1 i /\ in_phase i (Refreshed (Some (OAuthenticated b))) k).

Lemma happened_later ls l e P : happened ls e P -> happened (ls ++ [l]) e P.
Proof. intros (l1 & l2 & k1 & -> & H). exists l1, (l2 ++ [l]), k1. by rewrite <- app_assoc. Qed.

Lemma happened_now ls e (P : list client_label -> http_client -> Prop) k :
  client_exec (initial_client path) ls k -> P ls k -> happened (ls ++ [OfClient e]) e P.
Proof. intros He HP. by exists ls, [], k. Qed.

(** What the phase of call [i], sent [n] times, says of its history. *)
Definition hist_phase ls i (n : nat) (c : ApiRequestConfig) (p : phase) : Prop :=
  match p with
  | Preparing | Prepared _ => authRetry c = false
  | Sent => authRetry c = true -> n = 2%nat /\ replayed_in ls i
  | AwaitingRefresh | Refreshed _ => refused_in ls i
  | Resolved _ | Failed => True
  end.

Definition hist_but (but : option nat) ls k : Prop := forall i x, but <> Some i -> issued k !! i = Some x ->
  hist_phase ls i (sends i k) (call_config x) (call_phase x).

Abbreviation hist := (hist_but None).

Lemma hist_phase_later ls l i n c p : hist_phase ls i n c p -> hist_phase (ls ++ [l]) i n c p.
Proof.
  assert (refused_in ls i -> refused_in (ls ++ [l]) i) as Hr by (intros [locks H]; exists locks; by apply happened_later).
  assert (replayed_in ls i -> replayed_in (ls ++ [l]) i) as Hp.
  { intros (clock & locks & b & H). exists clock, locks, b. by apply happened_later. }
  destruct p; simpl; naive_solver.
Qed.

Lemma hist_later but ls l k : hist_but but ls k -> hist_but but (ls ++ [l]) k.
Proof. intros H i x Hi Hx. by apply hist_phase_later, H. Qed.

Lemma hist_same but ls k k' : issued k' = issued k -> wire k' = wire k -> hist_but but ls k -> hist_but but ls k'.
Proof. intros Ei Ew H i x Hi Hx. unfold sends. rewrite Ew. apply H; [done|]. by rewrite <- Ei. Qed.

Lemma hist_forget i ls k : hist ls k -> hist_but (Some i) ls k.
Proof. intros H j x _. by apply H. Qed.

Lemma hist_update i c p ls k : hist_but (Some i) ls k -> hist_phase ls i (sends i k) c p -> hist ls (update_call i c p k).
Proof.
  intros H Hp j y _ [[Hne Hy]|(-> & x & _ & ->)]%lookup_update_call; [|done]. apply H; [congruence | done].
Qed.

Lemma issued_settle_call i c p k : issued (settle_call i c p k) = issued (update_call i c p k).
Proof. unfold settle_call. by repeat case_match. Qed.

Lemma hist_settle i c p ls k : hist_but (Some i) ls k -> settled_phase p = true -> hist ls (settle_call i c p k).
Proof.
  intros H Hp. apply (hist_same _ _ (update_call i c p k)); [apply issued_settle_call | by rewrite wire_settle |].
  apply hist_update; [done|]. by destruct p.
Qed.

Lemma hist_dispatch i c ls k : hist_but (Some i) ls k -> (authRetry c = true -> sends i k = 1%nat /\ replayed_in ls i) ->
  hist ls (dispatch i c k).
Proof.
  intros H Hp j y _ Hy. rewrite sends_dispatch. apply lookup_update_call in Hy as [[Hne Hy]|(-> & x & _ & ->)].
  - rewrite decide_False by done. apply H; [congruence | done].
  - rewrite decide_True by done. simpl. intros Hr. by destruct (Hp Hr) as [-> ?].
Qed.

Lemma hist_interceptor clock locks i c ls k : hist_but (Some i) ls k ->
  (authRetry c = true -> single_use c = false /\ sends i k = 1%nat /\ replayed_in ls i) ->
  hist ls (request_interceptor clock locks i c k).
Proof.
  intros H Hp. unfold request_interceptor. destruct (single_use c) eqn:Es.
  - assert (authRetry c = false) as Hr by (destruct (authRetry c); [by destruct (Hp eq_refl) | done]).
    destruct (fresh_start _ _ _ _); [apply hist_dispatch; [done|]; simpl; congruence|].
    apply hist_update; [|done]. by eapply hist_same; [..|exact H].
  - apply hist_dispatch; [done|]. simpl. intros Hr. by destruct (Hp Hr) as [_ ?].
Qed.

Lemma hist_start clock locks c key ls k : hist ls k -> authRetry c = false ->
  hist ls (fst (api_request clock locks c key k)).
Proof.
  intros H Hc. apply hist_interceptor; [|congruence]. intros j y Hj.
  intros [Hy|(Hlen & Hy)]%lookup_app_Some; [by apply (H j y)|].
  destruct (j - length (issued k))%nat eqn:E; [|done]. destruct Hj. f_equal. lia.
Qed.

Ltac settled :=
  apply hist_settle; [|done];
  eapply hist_same; [rewrite ?(proj1 (issued_redirect _)), ?(proj1 (issued_notify _ _ _)); reflexivity
                    | rewrite ?(proj2 (issued_redirect _)), ?(proj2 (issued_notify _ _ _)); reflexivity
                    | by apply hist_forget].

Lemma hist_reply locks i r ls k : client_exec (initial_client path) ls k -> hist ls k ->
  hist (ls ++ [OfClient (Reply locks i r)]) (react (Reply locks i r) k).
Proof.
  intros He H%(hist_later _ _ (OfClient (Reply locks i r))). cbn [react].
  destruct (issued k !! i) as [[c [] key]|] eqn:Hx; try done. destruct r as [data|status].
  - unfold on_success. destruct (_ && _); [|settled]. destruct (applyAuthRotation _ _); settled.
  - unfold on_failure. case_bool_decide as Hs; [|settled]. destruct (_ && _).
    + apply hist_update; [by apply hist_forget|]. subst status. exists locks.
      eapply happened_now; [exact He|]. by eexists.
    + destruct (authRetry c); settled.
Qed.

Lemma hist_resume clock locks i ls k : client_exec (initial_client path) ls k -> inv k -> hist ls k ->
  hist (ls ++ [OfClient (Resume clock locks i)]) (react (Resume clock locks i) k).
Proof.
  intros He Hk H0. pose proof (hist_later _ _ (OfClient (Resume clock locks i)) _ H0) as H. cbn [react].
  destruct (issued k !! i) as [[c [|o| | |o| |] key]|] eqn:Hx; try done; pose proof (H0 i _ ltac:(done) Hx) as Hi; simpl in Hi.
  - unfold prepared. destruct o as [o|]; [|settled]. destruct (fresh_finish _ _ _); [|settled].
    apply hist_dispatch; [by apply hist_forget|]. simpl. congruence.
  - unfold refreshed. destruct o as [[b| | |]|]; try settled.
    destruct (i_phase None k Hk i _ ltac:(done) Hx) as [(Hn & _ & _ & Hu) _]. simpl in Hn, Hu.
    apply hist_interceptor; [by apply hist_forget|]. intros _. rewrite single_use_authorized. split_and!; [done..|].
    exists clock, locks, b. eapply happened_now; [exact He|]. split; [done|]. by eexists.
Qed.

Lemma hist_settle_all s ls k : hist ls k ->
  hist ls (set_session s (set_issued (resumable (refresh_result (http_session k)) <$> issued k) k)).
Proof.
  intros H i y _ Hy. simpl in Hy. apply list_lookup_fmap_Some in Hy as (x & -> & Hx).
  specialize (H i x ltac:(done) Hx). change (sends i (set_session _ _)) with (sends i k).
  by destruct x as [c [] key].
Qed.

Lemma hist_step ls k l k' : client_exec (initial_client path) ls k -> inv k -> client_step k l k' -> caller_ok l ->
  hist ls k -> hist (ls ++ [l]) k'.
Proof.
  intros He Hk Hs Hc H. destruct Hs as [k l s Hs Hl|k s Hs|k e].
  - by eapply hist_same; [..|apply hist_later].
  - by apply hist_settle_all, hist_later.
  - destruct e as [clock locks c|clock locks url params d c|locks i r|clock locks i].
    + by apply hist_start; [apply hist_later|].
    + cbn [react]. unfold api_get. destruct d; [by apply hist_start; [apply hist_later|]|].
      destruct (inFlightGet k !! _); [by apply hist_later|].
      apply hist_start; [|done]. by eapply hist_same; [..|apply hist_later].
    + by apply hist_reply.
    + by apply hist_resume.
Qed.

Lemma hist_exec ls0 k0 ls k : client_exec (initial_client path) ls0 k0 -> client_exec k0 ls k -> Forall caller_ok ls ->
  inv k0 -> hist ls0 k0 -> hist (ls0 ++ ls) k.
Proof.
  intros He0 He. revert ls0 He0. induction He as [k|k l k1 ls k2 Hs He IH]; intros ls0 He0 Hc Hk H.
  - by rewrite app_nil_r.
  - inversion_clear Hc. rewrite (cons_middle l ls0 ls), app_assoc. apply IH; [|done| |].
    + eapply client_exec_app; [exact He0|]. econstructor; [exact Hs | constructor].
    + by eapply client_step_inv.
    + by eapply hist_step.
Qed.

Lemma reachable_hist ls k : client_exec (initial_client path) ls k -> Forall caller_ok ls -> inv k /\ hist ls k.
Proof.
  intros He Hc. split; [by eapply client_exec_inv; [|apply initial_inv]|].
  by apply (hist_exec [] (initial_client path)); [constructor | | | apply initial_inv | ].
Qed.
End History.

(** ** What touches the session *)

Lemma session_interceptor clock locks i c k : session_world (request_interceptor clock locks i c k) = session_world k.
Proof. unfold request_interceptor. destruct (single_use c); [|done]. by destruct (fresh_start _ _ _ _). Qed.

(** Call [i] is answered with a success whose rotation of the session it accepts. *)
Definition rotates (i : nat) (data : jsval) (w : world) (k : http_client) : Prop :=
  exists x, issued k !! i = Some x /\ call_phase x = Sent /\ acceptAuthRotation (call_config x) = true /\
    get data (js "success") = JBool true /\ applyAuthRotation (get data (js "data")) (session_world k) = Ok w.

Lemma react_world e k : session_world (react e k) = session_world k \/
  (exists i locks, e = refusal locks i /\ exists x, issued k !! i = Some x /\ call_phase x = Sent /\ authRetry (call_config x) = true) \/
  (exists i locks data, e = Reply locks i (Success data) /\ rotates i data (session_world (react e k)) k).
Proof.
  destruct e as [clock locks c|clock locks url params d c|locks i r|clock locks i]; cbn [react].
  - left. apply (session_interceptor _ _ _ _ (set_issued _ k)).
  - left. unfold api_get. destruct d; [apply (session_interceptor _ _ _ _ (set_issued _ k))|].
    destruct (inFlightGet k !! _); [done|]. apply (session_interceptor _ _ _ _ (set_issued _ (set_in_flight _ k))).
  - destruct (issued k !! i) as [[c [] key]|] eqn:Hx; try by left. unfold session_world. destruct r as [data|status].
    + unfold on_success. destruct (_ && _) eqn:Ea; [|left; by autorewrite with http].
      apply andb_true_iff in Ea as [Ha Hg]. destruct (applyAuthRotation _ _) as [w|] eqn:E; [|left; by autorewrite with http].
      right. right. exists i, locks, data. split; [done|]. autorewrite with http. eexists. split; [exact Hx|]. simpl.
      split_and!; try done. by destruct (get data (js "success")) as [| |[]| | | |].
    + unfold on_failure. case_bool_decide as Hs; [|left; by autorewrite with http]. destruct (_ && _); [by left|].
      destruct (authRetry c) eqn:Er; [|left; by autorewrite with http].
      right. left. exists i, locks. subst status. split; [done|]. by eexists.
  - left. unfold session_world. destruct (issued k !! i) as [[c [|o| | |o| |] key]|]; try done.
    + unfold prepared. destruct o as [o|]; [destruct (fresh_finish _ _ _)|]; by autorewrite with http.
    + unfold refreshed. destruct o as [[]|]; try by autorewrite with http. apply session_interceptor.
Qed.

(** ** The replies *)

Lemma phase_settle_call i c p k x : issued k !! i = Some x -> in_phase i p (settle_call i c p k).
Proof. intros Hx. eexists. split; [by apply (lookup_settle_call i c p k x) | done]. Qed.

Lemma redirects_settle i c p k : redirects (settle_call i c p k) = redirects k.
Proof. unfold settle_call. by repeat case_match. Qed.
Lemma redirects_notify i c k : redirects (notify i c k) = redirects k /\ pathname (notify i c k) = pathname k.
Proof. unfold notify. by case_match. Qed.

(** One more navigation to the sign-in page, unless that is where the user is. *)
Definition redirected (k k' : http_client) : Prop :=
  redirects k' = if jeqb (pathname k) (js "/sign-in") then redirects k else S (redirects k).

Lemma redirected_notify i c p j c' k : redirected k (settle_call i c p (redirectToSignIn (notify j c' k))).
Proof.
  unfold redirected. rewrite redirects_settle. destruct (redirects_notify j c' k) as [E1 E2].
  unfold redirectToSignIn. rewrite E2. case_match; simpl; by rewrite E1.
Qed.

(** Call [i] fails in [k'], and nothing is sent. *)
Definition fails (i : nat) (k k' : http_client) : Prop := in_phase i Failed k' /\ wire k' = wire k.

Lemma settled_fails i c k k' x : issued k !! i = Some x -> issued k' = issued k -> wire k' = wire k ->
  fails i k (settle_call i c Failed k').
Proof.
  intros Hx Ei Ew. split; [|by rewrite wire_settle]. apply (phase_settle_call i c Failed k' x). by rewrite Ei.
Qed.

(** What a 401 reply does, by the marks of the configuration. *)
Lemma refusal_marks i locks x k : issued k !! i = Some x -> call_phase x = Sent ->
  let c := call_config x in let k' := react (refusal locks i) k in
  if negb (skipAuthRefresh c) && negb (authRetry c) then
    in_phase i AwaitingRefresh k' /\ wire k' = wire k /\ redirects k' = redirects k /\
    http_session k' = Sys (session_world k)
      (Some (refreshAuthentication locks (refreshPromise (http_session k)) (session_world k)))
  else if authRetry c then
    fails i k k' /\ redirected k k' /\
    http_session k' = Sys (clearAuthentication false Bcomplete (session_world k)) (refreshPromise (http_session k))
  else fails i k k' /\ redirects k' = redirects k /\ http_session k' = http_session k.
Proof.
  intros Hx Hp. destruct x as [c p key]. simpl in Hp. subst p. simpl. rewrite Hx. unfold on_failure.
  rewrite bool_decide_true by done. destruct (_ && _); [|destruct (authRetry c)].
  - split_and!; try done. eexists. split; [by apply (lookup_updated i _ _ _ _ Hx) | done].
  - split_and!.
    + eapply settled_fails; [exact Hx | |]; by rewrite ?(proj1 (issued_redirect _)), ?(proj1 (issued_notify _ _ _)),
        ?(proj2 (issued_redirect _)), ?(proj2 (issued_notify _ _ _)).
    + apply (redirected_notify _ _ _ _ _ (set_world _ k)).
    + by autorewrite with http.
  - split_and!.
    + eapply settled_fails; [exact Hx | |]; by rewrite ?(proj1 (issued_notify _ _ _)), ?(proj2 (issued_notify _ _ _)).
    + by rewrite redirects_settle, (proj1 (redirects_notify _ _ _)).
    + by autorewrite with http.
Qed.

(** What a call does when the refresh it waited for is over. *)
Lemma resumption i clock locks c o key k :
  inv k -> issued k !! i = Some {| call_config := c; call_phase := Refreshed o; call_key := key |} ->
  let k' := react (Resume clock locks i) k in
  http_session k' = http_session k /\
  match o with
  | Some (OAuthenticated _) => in_phase i Sent k' /\ sends i k' = 2%nat /\ redirects k' = redirects k
  | Some OAnonymous | Some (OOutOfSync _) => fails i k k' /\ redirected k k'
  | Some (OTransientError _) | None => fails i k k' /\ redirects k' = redirects k
  end.
Proof.
  intros Hk Hx. destruct (i_phase None k Hk i _ ltac:(done) Hx) as [(Hn & _ & _ & Hu) _]. simpl in Hn, Hu.
  cbn [react]. rewrite Hx. unfold refreshed. destruct o as [[b| | |]|].
  - unfold request_interceptor. rewrite single_use_authorized, Hu. split; [done|]. split_and!; try done.
    + eexists. split; [by apply (lookup_updated i _ _ _ _ Hx) | done].
    + by rewrite sends_dispatch, decide_True, Hn.
  - split; [by autorewrite with http|]. split; [|apply redirected_notify].
    eapply settled_fails; [exact Hx | |]; by rewrite ?(proj1 (issued_redirect _)), ?(proj1 (issued_notify _ _ _)),
      ?(proj2 (issued_redirect _)), ?(proj2 (issued_notify _ _ _)).
  - split; [by autorewrite with http|]. split; [|apply redirects_settle]. by eapply settled_fails.
  - split; [by autorewrite with http|]. split; [|apply redirected_notify].
    eapply settled_fails; [exact Hx | |]; by rewrite ?(proj1 (issued_redirect _)), ?(proj1 (issued_notify _ _ _)),
      ?(proj2 (issued_redirect _)), ?(proj2 (issued_notify _ _ _)).
  - split; [by autorewrite with http|]. split; [|apply redirects_settle]. by eapply settled_fails.
Qed.

(** ** Theorems *)

(** C32: the protocol of 401 replies. In every execution of the client (no caller sets
    the client's own mark [authRetry]), a call that is under way has been sent once
    or twice, and a 401 reply to it: makes it fail, and leaves the session alone, when
    its configuration excludes a refresh; starts or joins the refresh of the session,
    which the call awaits, when it was sent once; and, when it was sent twice, ends
    the session for this tab ([clearAuthentication]), makes the call fail and leads to
    the sign-in page, and then the call had been refused before, after a first 401 the
    refresh had given a session and the call had been sent again. When the refresh is
    over, the waiting call is sent a second time if it gave a session, fails and leads
    to the sign-in page if there is none or the tabs are out of step, and just fails
    if the refresh failed; the session stays as the refresh left it. Nothing else the
    client does changes the session, but for a reply whose rotation of it the caller
    accepts. *)
Theorem unauthorized_protocol path ls k :
  client_exec (initial_client path) ls k -> Forall caller_ok ls ->
  (forall i locks x, issued k !! i = Some x -> call_phase x = Sent ->
     let k' := react (refusal locks i) k in
     (sends i k = 1%nat \/ sends i k = 2%nat /\ skipAuthRefresh (call_config x) = false) /\
     (skipAuthRefresh (call_config x) = true ->
        fails i k k' /\ redirects k' = redirects k /\ http_session k' = http_session k) /\
     (skipAuthRefresh (call_config x) = false -> sends i k = 1%nat ->
        in_phase i AwaitingRefresh k' /\ wire k' = wire k /\ redirects k' = redirects k /\
        http_session k' = Sys (session_world k)
          (Some (refreshAuthentication locks (refreshPromise (http_session k)) (session_world k)))) /\
     (sends i k = 2%nat ->
        replayed_in path ls i /\ fails i k k' /\ redirected k k' /\
        http_session k' = Sys (clearAuthentication false Bcomplete (session_world k)) (refreshPromise (http_session k)))) /\
  (forall i clock locks o, in_phase i (Refreshed o) k -> let k' := react (Resume clock locks i) k in
     http_session k' = http_session k /\
     match o with
     | Some (OAuthenticated _) => in_phase i Sent k' /\ sends i k' = 2%nat /\ redirects k' = redirects k
     | Some OAnonymous | Some (OOutOfSync _) => fails i k k' /\ redirected k k'
     | Some (OTransientError _) | None => fails i k k' /\ redirects k' = redirects k
     end) /\
  (forall e, session_world (react e k) <> session_world k ->
     (exists i locks, e = refusal locks i /\ in_phase i Sent k /\ sends i k = 2%nat) \/
     (exists i locks data, e = Reply locks i (Success data) /\ rotates i data (session_world (react e k)) k)).
Proof.
  intros He Hc. destruct (reachable_hist path ls k He Hc) as [Hk Hh]. split_and!.
  - intros i locks x Hx Hp. pose proof (refusal_marks i locks x k Hx Hp) as Hm. cbn zeta in Hm |- *.
    destruct (i_phase None k Hk i x ltac:(done) Hx) as [Ho _]. pose proof (Hh i x ltac:(done) Hx) as Hr.
    rewrite Hp in Ho, Hr. destruct Ho as (Hn & H1 & H2 & _). simpl in Hr.
    destruct (skipAuthRefresh _) eqn:Es, (authRetry _) eqn:Er; simpl in Hm.
    + destruct (Hr eq_refl) as [E _]. rewrite H2 in E by done. done.
    + rewrite (H2 eq_refl). split_and!; try done. by left.
    + destruct (Hr eq_refl) as [-> Hrep]. destruct Hm as (? & ? & ?). split_and!; try done. by right.
    + rewrite (H1 eq_refl). split_and!; try done. by left.
  - intros i clock locks o ([c p key] & Hx & Hp). simpl in Hp. subst p. by eapply resumption.
  - intros e He'. destruct (react_world e k) as [?|[(i & locks & -> & x & Hx & Hp & Hr)|H]]; [done| |by right].
    left. exists i, locks. pose proof (Hh i x ltac:(done) Hx) as Hi. rewrite Hp in Hi. destruct (Hi Hr) as [Hn _].
    split_and!; [done | by exists x | done].
Qed.

(** The replay of a refused call is refused again, and the session ends. *)
Lemma unauthorized_protocol_witness :
  sends 0 replayed = 2%nat /\
  access_token_of replayed <> None /\
  (exists ls, replayed_in (js "/models") ls 0) /\
  access_token_of (react (refusal false 0) replayed) = None /\
  redirects (react (refusal false 0) replayed) = 1%nat.
Proof.
  pose proof (client_exec_app _ _ _ _ _ refused_exec replay_exec) as He.
  destruct (issued replayed !! 0%nat) as [x|] eqn:Hx; [|vm_compute in Hx; discriminate].
  assert (call_phase x = Sent) as Hp by (vm_compute in Hx; injection Hx as <-; reflexivity).
  destruct (unauthorized_protocol _ _ _ He) as [H _]; [by repeat constructor|].
  destruct (H 0%nat false x Hx Hp) as (_ & _ & _ & H2). destruct H2 as (Hr & _ & Hd & Hs); [vm_compute; reflexivity|].
  split; [vm_compute; reflexivity|]. split; [vm_compute; discriminate|]. split; [by eexists|]. split.
  - unfold access_token_of, session_world. rewrite Hs. vm_compute. reflexivity.
  - unfold redirected in Hd. rewrite Hd. vm_compute. reflexivity.
Defined.
End HttpProtocol.
