(* ===== verification/PlaygroundMessages.v ===== *)
(** * Playground messages

    Model of [features/playground/lib/message/]: [message-utils.ts],
    [message-reasoning-utils.ts], [message-timing-utils.ts],
    [message-streaming-utils.ts], [message-update-utils.ts] and
    [conversation-message-utils.ts], and of [lib/streaming/payload-builder.ts].

    Times are numbers as [Date.now()] returns them; a function that reads the
    clock takes the reading as an argument, and one that reads it more than once
    takes one argument per reading.  Identifiers made by [nanoid] are arguments
    too, and so is the translation function of i18next. *)

From stdpp Require Import base list numbers strings.
From Stdlib Require Import ZArith SpecFloat Lia.
From S2P Require Import Prelude.
From S2P Require Import JsString.
From S2P Require Import JsNumber.
From S2P Require Import JsValue.
From S2P Require Import JsJson.

Module Playground.

(** ** Data *)

Inductive MessageRole := User | Assistant | System.
Inductive MessageStatus := Loading | Streaming | Complete | Error.

#[global] Instance MessageRole_eq_dec : EqDecision MessageRole.
Proof. solve_decision. Defined.
#[global] Instance MessageStatus_eq_dec : EqDecision MessageStatus.
Proof. solve_decision. Defined.

Record MessageVersion := { v_id : jstr; v_content : jstr }.

Record Reasoning := {
  r_content : jstr;
  r_duration : f64;
  r_startedAt : option f64;
  r_completedAt : option f64;
  r_durationMs : option f64;
}.

(** An absent and an [undefined] property read alike.  [errorCode] comes from a
    server's JSON and is kept as it came. *)
Record Message := {
  key : jstr;
  from : MessageRole;
  versions : list MessageVersion;
  createdAt : option f64;
  startedAt : option f64;
  completedAt : option f64;
  durationMs : option f64;
  sources : option (list (jstr * jstr));
  reasoning : option Reasoning;
  isReasoningStreaming : option bool;
  isReasoningComplete : option bool;
  isContentComplete : option bool;
  status : option MessageStatus;
  errorCode : jsval;
}.

Definition set_versions (v : list MessageVersion) (m : Message) : Message :=
  {| key := key m; from := from m; versions := v; createdAt := createdAt m; startedAt := startedAt m;
     completedAt := completedAt m; durationMs := durationMs m; sources := sources m;
     reasoning := reasoning m; isReasoningStreaming := isReasoningStreaming m;
     isReasoningComplete := isReasoningComplete m; isContentComplete := isContentComplete m;
     status := status m; errorCode := errorCode m |}.

Definition set_reasoning (r : option Reasoning) (m : Message) : Message :=
  {| key := key m; from := from m; versions := versions m; createdAt := createdAt m; startedAt := startedAt m;
     completedAt := completedAt m; durationMs := durationMs m; sources := sources m;
     reasoning := r; isReasoningStreaming := isReasoningStreaming m;
     isReasoningComplete := isReasoningComplete m; isContentComplete := isContentComplete m;
     status := status m; errorCode := errorCode m |}.

Definition set_reasoning_streaming (b : bool) (m : Message) : Message :=
  {| key := key m; from := from m; versions := versions m; createdAt := createdAt m; startedAt := startedAt m;
     completedAt := completedAt m; durationMs := durationMs m; sources := sources m;
     reasoning := reasoning m; isReasoningStreaming := Some b;
     isReasoningComplete := isReasoningComplete m; isContentComplete := isContentComplete m;
     status := status m; errorCode := errorCode m |}.

Definition set_status (s : MessageStatus) (m : Message) : Message :=
  {| key := key m; from := from m; versions := versions m; createdAt := createdAt m; startedAt := startedAt m;
     completedAt := completedAt m; durationMs := durationMs m; sources := sources m;
     reasoning := reasoning m; isReasoningStreaming := isReasoningStreaming m;
     isReasoningComplete := isReasoningComplete m; isContentComplete := isContentComplete m;
     status := Some s; errorCode := errorCode m |}.

Definition set_error_code (e : jsval) (m : Message) : Message :=
  {| key := key m; from := from m; versions := versions m; createdAt := createdAt m; startedAt := startedAt m;
     completedAt := completedAt m; durationMs := durationMs m; sources := sources m;
     reasoning := reasoning m; isReasoningStreaming := isReasoningStreaming m;
     isReasoningComplete := isReasoningComplete m; isContentComplete := isContentComplete m;
     status := status m; errorCode := e |}.

Definition set_created (c : option f64) (m : Message) : Message :=
  {| key := key m; from := from m; versions := versions m; createdAt := c; startedAt := startedAt m;
     completedAt := completedAt m; durationMs := durationMs m; sources := sources m;
     reasoning := reasoning m; isReasoningStreaming := isReasoningStreaming m;
     isReasoningComplete := isReasoningComplete m; isContentComplete := isContentComplete m;
     status := status m; errorCode := errorCode m |}.

Definition set_timing (s c d : f64) (m : Message) : Message :=
  {| key := key m; from := from m; versions := versions m; createdAt := createdAt m; startedAt := Some s;
     completedAt := Some c; durationMs := Some d; sources := sources m;
     reasoning := reasoning m; isReasoningStreaming := isReasoningStreaming m;
     isReasoningComplete := isReasoningComplete m; isContentComplete := isContentComplete m;
     status := status m; errorCode := errorCode m |}.

(** ** message-utils.ts *)

Definition createMessageVersion (id content : jstr) : MessageVersion :=
  {| v_id := id; v_content := content |}.

Definition getCurrentVersion (m : Message) : MessageVersion :=
  match versions m with
  | v :: _ => v
  | [] => {| v_id := js "default"; v_content := [] |}
  end.

Definition getMessageContent (m : Message) : jstr := v_content (getCurrentVersion m).

Definition hasMessageContent (m : Message) : bool := negb (jeqb (trim (getMessageContent m)) []).

Definition updateCurrentVersionContent (m : Message) (content : jstr) : Message :=
  set_versions [{| v_id := v_id (getCurrentVersion m); v_content := content |}] m.

Definition createUserMessage (k id content : jstr) (created : f64) : Message :=
  {| key := k; from := User; versions := [createMessageVersion id content]; createdAt := Some created;
     startedAt := None; completedAt := None; durationMs := None; sources := None; reasoning := None;
     isReasoningStreaming := None; isReasoningComplete := None; isContentComplete := None;
     status := None; errorCode := JUndefined |}.

Definition createLoadingAssistantMessage (k id : jstr) (started : f64) : Message :=
  {| key := k; from := Assistant; versions := [createMessageVersion id []]; createdAt := Some started;
     startedAt := Some started; completedAt := None; durationMs := None; sources := None; reasoning := None;
     isReasoningStreaming := Some false; isReasoningComplete := Some false; isContentComplete := Some false;
     status := Some Loading; errorCode := JUndefined |}.

Inductive ContentPart :=
| TextPart (text : option jstr)
| ImagePart (url : jstr).

(** [string | ContentPart[]] *)
Definition content_type : Type := jstr + list ContentPart.

Definition buildMessageContent (text : jstr) (imageUrls : list jstr) : content_type :=
  match filter (fun url => trim url <> []) imageUrls with
  | [] => inl text
  | validImages => inr (TextPart (Some text) :: ((fun url => ImagePart (trim url)) <$> validImages))
  end.

(** [content.find((part) => part.type === 'text')?.text || ''] *)
Fixpoint find_text (parts : list ContentPart) : jstr :=
  match parts with
  | [] => []
  | TextPart t :: _ => default [] t
  | ImagePart _ :: parts' => find_text parts'
  end.

Definition getTextContent (content : content_type) : jstr :=
  match content with
  | inl text => text
  | inr parts => find_text parts
  end.

Record ChatCompletionMessage := { role : MessageRole; content : jstr }.

Definition formatMessageForAPI (m : Message) : ChatCompletionMessage :=
  {| role := from m; content := getMessageContent m |}.

Definition isValidMessage (m : Message) : bool :=
  match versions m with
  | [] => false
  | _ => negb (bool_decide (from m = Assistant) && negb (hasMessageContent m))
  end.

(** ** message-reasoning-utils.ts *)

Definition OPEN : jstr := js "<think>".
Definition CLOSE : jstr := js "</think>".

(** [s] before and after the first occurrence of [p]: the two slices around
    [s.indexOf(p)]. *)
Fixpoint split_first (p s : jstr) : option (jstr * jstr) :=
  if starts_with p s then Some ([], drop (length p) s)
  else match s with
       | [] => None
       | c :: s' =>
           match split_first p s' with
           | Some (a, b) => Some (c :: a, b)
           | None => None
           end
       end.

Record ParsedThinkTags := {
  visibleContent : jstr;
  reasoning_text : jstr;
  hasUnclosedTag : bool;
}.

(** A part is pushed only when it is not empty. *)
Definition push_part (s : jstr) : list jstr := match s with [] => [] | _ => [s] end.

(** The loop on [content.slice(currentPos)]: the visible parts, the reasoning
    parts and [hasUnclosedTag].  Each turn consumes a tag, so the length of the
    content bounds the turns. *)
Fixpoint think_loop (turns : nat) (rest : jstr) : list jstr * list jstr * bool :=
  match turns with
  | O => ([], [], false)
  | S turns' =>
      match split_first OPEN rest with
      | None => (push_part rest, [], false)
      | Some (visible, opened) =>
          match split_first CLOSE opened with
          | None => (push_part visible, [opened], true)
          | Some (thought, rest') =>
              let '(vs, rs, unclosed) := think_loop turns' rest' in
              (push_part visible ++ vs, thought :: rs, unclosed)
          end
      end
  end.

Definition parseThinkTags (s : jstr) : ParsedThinkTags :=
  if negb (includes s OPEN) then {| visibleContent := s; reasoning_text := []; hasUnclosedTag := false |}
  else
    let '(vs, rs, unclosed) := think_loop (S (length s)) s in
    {| visibleContent := trim (concat vs); reasoning_text := trim (join [10%N; 10%N] rs);
       hasUnclosedTag := unclosed |}.

(** ** message-timing-utils.ts *)

(** [a ?? b] *)
Definition or_else {A} (a b : option A) : option A := match a with Some _ => a | None => b end.

Definition completeAssistantTiming (m : Message) (completed : f64) : Message :=
  if bool_decide (from m = Assistant) then
    let started := default completed (or_else (startedAt m) (createdAt m)) in
    set_timing started completed (fmax fzero (fsub completed started)) m
  else m.

Definition startReasoningTiming (m : Message) (started : f64) : Reasoning :=
  {| r_content := default [] (r_content <$> reasoning m);
     r_duration := default fzero (r_duration <$> reasoning m);
     r_startedAt := Some (default started (reasoning m ≫= r_startedAt));
     r_completedAt := reasoning m ≫= r_completedAt;
     r_durationMs := reasoning m ≫= r_durationMs |}.

Definition set_reasoning_content (c : jstr) (r : Reasoning) : Reasoning :=
  {| r_content := c; r_duration := r_duration r; r_startedAt := r_startedAt r;
     r_completedAt := r_completedAt r; r_durationMs := r_durationMs r |}.

Definition completeReasoningTiming (m : Message) (completed : f64) : Message :=
  match reasoning m with
  | None => m
  | Some r =>
      match r_durationMs r with
      | Some _ => m
      | None =>
          let started := default completed (or_else (r_startedAt r) (startedAt m)) in
          let ms := fmax fzero (fsub completed started) in
          set_reasoning (Some {| r_content := r_content r; r_duration := fceil (fdiv ms (f64_of_Z 1000));
                                 r_startedAt := Some started; r_completedAt := Some completed;
                                 r_durationMs := Some ms |}) m
      end
  end.

(** ** message-streaming-utils.ts *)

Definition processStreamingContent (m : Message) (contentChunk : jstr) (now : f64) : Message :=
  let fullContent := getMessageContent m ++ contentChunk in
  match reasoning m, includes fullContent OPEN with
  | None, false => set_reasoning_streaming false (updateCurrentVersionContent m fullContent)
  | _, _ =>
      let parsed := parseThinkTags fullContent in
      let finalReasoning :=
        match reasoning_text parsed with
        | [] => reasoning m
        | text => Some (set_reasoning_content text (startReasoningTiming m now))
        end in
      set_reasoning_streaming (hasUnclosedTag parsed)
        (set_reasoning finalReasoning (updateCurrentVersionContent m fullContent))
  end.

Inductive StreamChunkType := ReasoningChunk | ContentChunk.

Definition getAppendableChunk (currentContent chunk : jstr) : jstr :=
  match currentContent with
  | [] => chunk
  | _ => if starts_with currentContent chunk then drop (length currentContent) chunk else chunk
  end.

Definition applyStreamingChunk (m : Message) (type : StreamChunkType) (chunk : jstr) (now1 now2 : f64) : Message :=
  if bool_decide (status m = Some Error) then m
  else match type with
       | ReasoningChunk =>
           let r := startReasoningTiming m now1 in
           set_status Streaming
             (set_reasoning_streaming true
                (set_reasoning (Some (set_reasoning_content (r_content r ++ getAppendableChunk (r_content r) chunk) r)) m))
       | ContentChunk =>
           let contentMessage :=
             processStreamingContent m (getAppendableChunk (getMessageContent m) chunk) now1 in
           set_status Streaming
             (match isReasoningStreaming contentMessage with
              | Some true => contentMessage
              | _ => completeReasoningTiming contentMessage now2
              end)
       end.

(** [a || b] on strings. *)
Definition or_text (a b : jstr) : jstr := match a with [] => b | _ => a end.

Definition finalizeMessage (m : Message) (apiReasoningContent : option jstr) (now1 now2 : f64) : Message :=
  let current := getMessageContent m in
  let parsed := if includes current OPEN then Some (parseThinkTags current) else None in
  let visible := default current (visibleContent <$> parsed) in
  let finalReasoning :=
    or_text (default [] apiReasoningContent)
      (or_text (default [] (r_content <$> reasoning m)) (default [] (reasoning_text <$> parsed))) in
  completeReasoningTiming
    (set_reasoning_streaming false
       (set_reasoning
          (match finalReasoning with
           | [] => None
           | text => Some (set_reasoning_content text (startReasoningTiming m now1))
           end)
          (updateCurrentVersionContent m visible)))
    now2.

Definition completeAssistantMessage (m : Message) (now1 now2 now3 : f64) : Message :=
  completeAssistantTiming (set_status Complete (finalizeMessage m None now1 now2)) now3.

Definition isAssistantMessageFinal (m : Message) : bool :=
  bool_decide (status m = Some Complete) || bool_decide (status m = Some Error).

Definition isAssistantMessagePending (m : Message) : bool :=
  bool_decide (status m = Some Loading) || bool_decide (status m = Some Streaming).

Definition isPendingAssistantMessage (m : Message) : bool :=
  bool_decide (from m = Assistant) && isAssistantMessagePending m.

(** A choice of a response: [choice.message?.content] and
    [choice.message?.reasoning_content]. *)
Record ChatCompletionChoice := { c_content : option jstr; c_reasoning : option jstr }.

(** The response: its choices. *)
Definition hasChatCompletionChoice (choices : list ChatCompletionChoice) : bool :=
  match choices with [] => false | _ => true end.

Definition applyChatCompletionChoice (m : Message) (choice : ChatCompletionChoice) (now1 now2 now3 : f64) : Message :=
  completeAssistantTiming
    (set_status Complete
       (finalizeMessage (updateCurrentVersionContent m (default [] (c_content choice))) (c_reasoning choice) now1 now2))
    now3.

Definition applyChatCompletionResponse (m : Message) (choices : list ChatCompletionChoice) (now1 now2 now3 : f64)
    : option Message :=
  match choices with
  | [] => None
  | choice :: _ => Some (applyChatCompletionChoice m choice now1 now2 now3)
  end.

Section Translation.
(** [t] of i18next *)
Context (t : jstr -> jstr).

Definition API_REQUEST_ERROR : jstr := js "Request error occurred".
Definition INTERRUPTED : jstr := js "Generation was interrupted".

(** The replacement of the pending message. *)
Definition repair_message (m : Message) (now1 now2 now3 : f64) : Message :=
  let finalized := finalizeMessage m None now1 now2 in
  let hasReasoning :=
    match trim (default [] (r_content <$> reasoning finalized)) with [] => false | _ => true end in
  if hasMessageContent finalized || hasReasoning then
    completeAssistantTiming (set_reasoning_streaming false (set_status Complete finalized)) now3
  else
    completeAssistantTiming
      (set_reasoning_streaming false
         (set_status Error
            (updateCurrentVersionContent finalized (t API_REQUEST_ERROR ++ js ": " ++ t INTERRUPTED))))
      now3.

(** The loop from the last message down to the first. *)
Fixpoint last_pending (messages : list Message) : option nat :=
  match messages with
  | [] => None
  | m :: ms =>
      match last_pending ms with
      | Some i => Some (S i)
      | None => if isPendingAssistantMessage m then Some O else None
      end
  end.

Definition sanitizeMessagesOnLoad (messages : list Message) (now1 now2 now3 : f64) : list Message :=
  match last_pending messages with
  | None => messages
  | Some targetIndex => alter (fun m => repair_message m now1 now2 now3) targetIndex messages
  end.
End Translation.

(** ** message-update-utils.ts *)

Definition updateLastAssistantMessage (messages : list Message) (updater : Message -> Message) : list Message :=
  match last messages with
  | Some m =>
      if bool_decide (from m = Assistant) then alter updater (length messages - 1) messages else messages
  | None => messages
  end.

Definition updateAssistantMessageWithError (messages : list Message) (errorMessage : jstr)
    (code : jsval) (title : jstr) (now : f64) : list Message :=
  updateLastAssistantMessage messages (fun m =>
    completeAssistantTiming
      (set_error_code (if truthy code then code else JNull)
         (set_reasoning_streaming false
            (set_status Error (updateCurrentVersionContent m (title ++ js ": " ++ errorMessage))))) now).

(** ** conversation-message-utils.ts *)

Definition appendUserMessagePair (messages : list Message) (text : jstr) (k1 id1 k2 id2 : jstr) (submittedAt : f64)
    : list Message :=
  messages ++ [createUserMessage k1 id1 text submittedAt; createLoadingAssistantMessage k2 id2 submittedAt].

(** [messages.findIndex((message) => message.key === messageKey)] *)
Fixpoint find_key (messages : list Message) (messageKey : jstr) : option nat :=
  match messages with
  | [] => None
  | m :: ms => if jeqb (key m) messageKey then Some O else S <$> find_key ms messageKey
  end.

Definition createRegeneratedMessages (messages : list Message) (messageKey k id : jstr) (now : f64)
    : option (list Message) :=
  i ← find_key messages messageKey;
  m ← messages !! i;
  Some (if bool_decide (from m = User)
        then take (i + 1) messages ++ [createLoadingAssistantMessage k id now]
        else take i messages ++ [createLoadingAssistantMessage k id now]).

Definition removeMessageByKey (messages : list Message) (messageKey : jstr) : list Message :=
  filter (fun m => key m <> messageKey) messages.

(** The loop down from [beforeIndex - 1]. *)
Fixpoint getPreviousUserMessage (messages : list Message) (beforeIndex : nat) : option Message :=
  match beforeIndex with
  | O => None
  | S i =>
      match messages !! i with
      | Some m => if bool_decide (from m = User) then Some m else getPreviousUserMessage messages i
      | None => None
      end
  end.

Definition edit_message (messageKey text : jstr) (shouldSubmit : bool) (submittedAt : f64) (m : Message) : Message :=
  if jeqb (key m) messageKey
  then set_created (if shouldSubmit then Some submittedAt else createdAt m) (updateCurrentVersionContent m text)
  else m.

Definition applyMessageEdit (messages : list Message) (messageKey text : jstr) (shouldSubmit : bool)
    (k id : jstr) (submittedAt : f64) : option (list Message * bool) :=
  i ← find_key messages messageKey;
  let updated := edit_message messageKey text shouldSubmit submittedAt <$> messages in
  m ← updated !! i;
  Some (if negb shouldSubmit || negb (bool_decide (from m = User)) then (updated, false)
        else (take (i + 1) updated ++ [createLoadingAssistantMessage k id submittedAt], true)).

Definition getEditingMessageContent (messages : list Message) (editingKey : option jstr) : jstr :=
  match editingKey with
  | None | Some [] => []
  | Some k => default [] (i ← find_key messages k; getMessageContent <$> messages !! i)
  end.

(** ** payload-builder.ts *)

Record PlaygroundConfig := {
  model : jstr;
  group : jstr;
  temperature : f64;
  top_p : f64;
  max_tokens : f64;
  frequency_penalty : f64;
  presence_penalty : f64;
  seed : option f64;
  stream : bool;
}.

Record ParameterEnabled := {
  en_temperature : bool;
  en_top_p : bool;
  en_max_tokens : bool;
  en_frequency_penalty : bool;
  en_presence_penalty : bool;
  en_seed : bool;
}.

Record ChatCompletionRequest := {
  q_model : jstr;
  q_group : jstr;
  q_messages : list ChatCompletionMessage;
  q_stream : bool;
  q_temperature : option f64;
  q_top_p : option f64;
  q_max_tokens : option f64;
  q_frequency_penalty : option f64;
  q_presence_penalty : option f64;
  q_seed : option f64;
}.

Definition buildChatCompletionPayload (messages : list Message) (config : PlaygroundConfig) (en : ParameterEnabled)
    : ChatCompletionRequest :=
  {| q_model := model config; q_group := group config;
     q_messages := formatMessageForAPI <$> filter (fun m => isValidMessage m = true) messages;
     q_stream := stream config;
     q_temperature := if en_temperature en then Some (temperature config) else None;
     q_top_p := if en_top_p en then Some (top_p config) else None;
     q_max_tokens := if en_max_tokens en then Some (max_tokens config) else None;
     q_frequency_penalty := if en_frequency_penalty en then Some (frequency_penalty config) else None;
     q_presence_penalty := if en_presence_penalty en then Some (presence_penalty config) else None;
     q_seed := if en_seed en then seed config else None |}.

End Playground.
