(* ===== verification/PlaygroundFacts.v ===== *)
(** * Properties of the playground messages

    Think tags against a grammar, streaming against the whole response, the
    repair of stored conversations, and the conversation operations. *)

From stdpp Require Import base list numbers strings.
From Stdlib Require Import ZArith SpecFloat Lia.
From S2P Require Import Prelude.
From S2P Require Import JsString.
From S2P Require Import JsNumber.
From S2P Require Import JsNumberFacts.
From S2P Require Import PlaygroundMessages.

Module PlaygroundFacts.
Import Playground.

(** ** Think tags *)

(** [p] occurs in [a ++ p ++ b] nowhere before the end of [a]. *)
Definition first_at (p a b : jstr) : Prop :=
  forall k, (k < length a)%nat -> starts_with p (drop k (a ++ p ++ b)) = false.

(** The grammar of a text with think tags: its visible parts, its reasoning
    parts, and whether the last tag is open. *)
Inductive think : jstr -> list jstr -> list jstr -> bool -> Prop :=
| think_end s : includes s OPEN = false -> think s (push_part s) [] false
| think_open v r : first_at OPEN v r -> includes r CLOSE = false -> think (v ++ OPEN ++ r) (push_part v) [r] true
| think_block v r rest vs rs u :
    first_at OPEN v (r ++ CLOSE ++ rest) -> first_at CLOSE r rest -> think rest vs rs u ->
    think (v ++ OPEN ++ r ++ CLOSE ++ rest) (push_part v ++ vs) (r :: rs) u.

Lemma drop_app_prefix (p s : jstr) : starts_with p s = true -> s = p ++ drop (length p) s.
Proof. intros [r ->]%starts_with_app. by rewrite drop_app_length. Qed.

Lemma split_first_Some p s a b : split_first p s = Some (a, b) -> s = a ++ p ++ b /\ first_at p a b.
Proof.
  revert a b. induction s as [|c s IH]; intros a b H; simpl in H.
  - destruct (starts_with p []) eqn:E; [|done]. injection H as <- <-.
    split; [by apply (drop_app_prefix p []) | intros k Hk; simpl in Hk; lia].
  - destruct (starts_with p (c :: s)) eqn:E.
    + injection H as <- <-. split; [by apply (drop_app_prefix p (c :: s)) | intros k Hk; simpl in Hk; lia].
    + destruct (split_first p s) as [[a' b']|] eqn:Es; [|done]. injection H as <- <-.
      destruct (IH a' b' eq_refl) as [-> Hf]. split; [done|].
      intros [|k] Hk; [exact E | apply Hf; simpl in Hk; lia].
Qed.

Lemma split_first_None p s : split_first p s = None <-> includes s p = false.
Proof.
  induction s as [|c s IH].
  - simpl. destruct (starts_with p []); done.
  - cbn [split_first includes]. destruct (starts_with p (c :: s)); [done|]. rewrite <- IH.
    by destruct (split_first p s) as [[? ?]|].
Qed.

Lemma split_first_at p a b : first_at p a b -> split_first p (a ++ p ++ b) = Some (a, b).
Proof.
  induction a as [|c a IH]; intros Hf.
  - assert (starts_with p (p ++ b) = true) as E by (apply starts_with_app; eauto).
    simpl. rewrite <- (drop_app_length p b) at 2. destruct (p ++ b) as [|d s]; simpl; by rewrite E.
  - cbn [app split_first]. pose proof (Hf 0%nat ltac:(simpl; lia)) as E. simpl in E. rewrite E.
    rewrite IH; [done|]. intros k Hk. apply (Hf (S k)). simpl. lia.
Qed.

Lemma think_loop_sound turns s vs rs u :
  (length s < turns)%nat -> think_loop turns s = (vs, rs, u) -> think s vs rs u.
Proof.
  revert s vs rs u. induction turns as [|turns IH]; intros s vs rs u Hlen; [lia|]. simpl.
  destruct (split_first OPEN s) as [[v o]|] eqn:Eo.
  - apply split_first_Some in Eo as [-> Hv].
    destruct (split_first CLOSE o) as [[r rest]|] eqn:Ec.
    + apply split_first_Some in Ec as [-> Hr].
      destruct (think_loop turns rest) as [[vs' rs'] u'] eqn:El. intros [= <- <- <-].
      constructor; [done | done |]. apply IH; [|done]. rewrite !length_app in Hlen. simpl in Hlen. lia.
    + intros [= <- <- <-]. constructor; [done | by apply split_first_None].
  - intros [= <- <- <-]. constructor. by apply split_first_None.
Qed.

Lemma think_loop_complete turns s vs rs u :
  think s vs rs u -> (length s < turns)%nat -> think_loop turns s = (vs, rs, u).
Proof.
  intros Ht. revert turns. induction Ht as [s Hs|v r Hv Hr|v r rest vs rs u Hv Hr _ IH]; intros [|turns] Hlen; try lia;
    cbn [think_loop].
  - by rewrite (proj2 (split_first_None _ _) Hs).
  - by rewrite (split_first_at _ _ _ Hv), (proj2 (split_first_None _ _) Hr).
  - rewrite (split_first_at _ _ _ Hv), (split_first_at _ _ _ Hr), IH; [done|].
    rewrite !length_app in Hlen. simpl in Hlen. lia.
Qed.

Lemma parse_plain s : includes s OPEN = false ->
  parseThinkTags s = {| visibleContent := s; reasoning_text := []; hasUnclosedTag := false |}.
Proof. intros H. unfold parseThinkTags. by rewrite H. Qed.

(** ** Streaming *)

(** No chunk repeats the text received before it. *)
Fixpoint appendable (acc : jstr) (chunks : list jstr) : bool :=
  match chunks with
  | [] => true
  | c :: cs => (jeqb acc [] || negb (starts_with acc c)) && appendable (acc ++ c) cs
  end.

(** The chunks of a type applied in order, each with its two clock readings. *)
Definition apply_chunks (type : StreamChunkType) (m : Message) (chunks : list (jstr * f64 * f64)) : Message :=
  foldl (fun m c => applyStreamingChunk m type (c.1.1) (c.1.2) (c.2)) m chunks.

Definition texts (chunks : list (jstr * f64 * f64)) : list jstr := (fun c => c.1.1) <$> chunks.

Definition reasoning_of (m : Message) : option jstr := r_content <$> reasoning m.

Lemma getAppendable_id acc c : jeqb acc [] || negb (starts_with acc c) = true -> getAppendableChunk acc c = c.
Proof.
  unfold getAppendableChunk. destruct acc as [|d acc]; [done|].
  rewrite (proj2 (jeqb_neq _ _)) by done. simpl. by intros ->%negb_true_iff.
Qed.

Lemma content_completeReasoning m n : getMessageContent (completeReasoningTiming m n) = getMessageContent m.
Proof. unfold completeReasoningTiming. by repeat case_match. Qed.
Lemma reasoning_completeReasoning m n : reasoning_of (completeReasoningTiming m n) = reasoning_of m.
Proof.
  unfold completeReasoningTiming, reasoning_of. destruct (reasoning m) as [r|] eqn:E; [|by rewrite E].
  case_match; simpl; by rewrite ?E.
Qed.
Lemma status_completeReasoning m n : status (completeReasoningTiming m n) = status m.
Proof. unfold completeReasoningTiming. by repeat case_match. Qed.
Lemma from_completeReasoning m n : from (completeReasoningTiming m n) = from m.
Proof. unfold completeReasoningTiming. by repeat case_match. Qed.

Lemma content_completeAssistant m n : getMessageContent (completeAssistantTiming m n) = getMessageContent m.
Proof. unfold completeAssistantTiming. by case_match. Qed.
Lemma reasoning_completeAssistant m n : reasoning_of (completeAssistantTiming m n) = reasoning_of m.
Proof. unfold completeAssistantTiming. by case_match. Qed.
Lemma status_completeAssistant m n : status (completeAssistantTiming m n) = status m.
Proof. unfold completeAssistantTiming. by case_match. Qed.
Lemma from_completeAssistant m n : from (completeAssistantTiming m n) = from m.
Proof. unfold completeAssistantTiming. by case_match. Qed.

Lemma content_set_status s m : getMessageContent (set_status s m) = getMessageContent m.
Proof. done. Qed.
Lemma reasoning_set_status s m : reasoning_of (set_status s m) = reasoning_of m.
Proof. done. Qed.
Lemma from_set_status s m : from (set_status s m) = from m.
Proof. done. Qed.
Lemma status_set_status s m : status (set_status s m) = Some s.
Proof. done. Qed.
Lemma content_update m c : getMessageContent (updateCurrentVersionContent m c) = c.
Proof. done. Qed.
Lemma reasoning_update m c : reasoning_of (updateCurrentVersionContent m c) = reasoning_of m.
Proof. done. Qed.
Lemma from_update m c : from (updateCurrentVersionContent m c) = from m.
Proof. done. Qed.

Create Rewrite HintDb message.
#[export] Hint Rewrite content_set_status reasoning_set_status from_set_status status_set_status
  content_update reasoning_update from_update : message.
#[export] Hint Rewrite content_completeReasoning reasoning_completeReasoning status_completeReasoning
  from_completeReasoning content_completeAssistant reasoning_completeAssistant status_completeAssistant
  from_completeAssistant : message.

(** The reasoning of a message after its content has become [full]. *)
Definition reasoning_after (old : option jstr) (full : jstr) : option jstr :=
  match reasoning_text (parseThinkTags full) with [] => old | r => Some r end.

Lemma process_spec m c n :
  let m' := processStreamingContent m c n in
  getMessageContent m' = getMessageContent m ++ c /\
  reasoning_of m' = reasoning_after (reasoning_of m) (getMessageContent m ++ c) /\
  status m' = status m /\ from m' = from m.
Proof.
  unfold processStreamingContent, reasoning_after, reasoning_of.
  destruct (reasoning m) as [r|] eqn:Er; simpl.
  - split_and!; try done. by destruct (reasoning_text _).
  - destruct (includes (getMessageContent m ++ c) OPEN) eqn:Ei; simpl.
    + split_and!; try done. by destruct (reasoning_text _).
    + rewrite (parse_plain _ Ei). simpl. by rewrite Er.
Qed.

Lemma content_chunk_spec m c n1 n2 :
  status m <> Some Error -> getAppendableChunk (getMessageContent m) c = c ->
  let m' := applyStreamingChunk m ContentChunk c n1 n2 in
  getMessageContent m' = getMessageContent m ++ c /\
  reasoning_of m' = reasoning_after (reasoning_of m) (getMessageContent m ++ c) /\
  status m' = Some Streaming /\ from m' = from m.
Proof.
  intros Hs Hc. unfold applyStreamingChunk. rewrite bool_decide_false, Hc by done.
  destruct (process_spec m c n1) as (H1 & H2 & _ & H4).
  set (p := processStreamingContent m c n1) in *. clearbody p.
  cbv zeta. autorewrite with message. split_and!; [| | done |]; repeat case_match; autorewrite with message; done.
Qed.

Lemma reasoning_chunk_spec m c n1 n2 :
  status m <> Some Error -> getAppendableChunk (default [] (reasoning_of m)) c = c ->
  let m' := applyStreamingChunk m ReasoningChunk c n1 n2 in
  getMessageContent m' = getMessageContent m /\
  reasoning_of m' = Some (default [] (reasoning_of m) ++ c) /\
  status m' = Some Streaming /\ from m' = from m.
Proof.
  intros Hs Hc. unfold applyStreamingChunk. rewrite bool_decide_false by done.
  unfold reasoning_of in *. simpl. by rewrite Hc.
Qed.

Lemma includes_app_l a b p : includes (a ++ b) p = false -> includes a p = false.
Proof.
  intros H. apply split_first_None. destruct (split_first p a) as [[x y]|] eqn:E; [|done].
  exfalso. apply split_first_Some in E as [-> _]. clear -H.
  rewrite <- !app_assoc in H. induction x as [|c x IH]; simpl in H.
  - assert (starts_with p (p ++ y ++ b) = true) as E by (apply starts_with_app; eauto).
    destruct (p ++ y ++ b) as [|d s]; cbn [includes] in H; by rewrite E in H.
  - destruct (starts_with p (c :: x ++ p ++ y ++ b)); [done | by apply IH].
Qed.

Lemma reasoning_after_plain old s : includes s OPEN = false -> reasoning_after old s = old.
Proof. intros H. unfold reasoning_after. by rewrite parse_plain. Qed.

Lemma content_chunks_spec m cs :
  status m <> Some Error -> appendable (getMessageContent m) (texts cs) = true ->
  let m' := apply_chunks ContentChunk m cs in
  let full := getMessageContent m ++ concat (texts cs) in
  getMessageContent m' = full /\ from m' = from m /\ status m' <> Some Error /\
  (includes full OPEN = false -> reasoning_of m' = reasoning_of m) /\
  (cs <> [] -> reasoning_text (parseThinkTags full) <> [] ->
   reasoning_of m' = Some (reasoning_text (parseThinkTags full))).
Proof.
  revert m. induction cs as [|[[c n1] n2] cs IH]; intros m Hs Happ; simpl.
  - rewrite app_nil_r. split_and!; done.
  - simpl in Happ. apply andb_true_iff in Happ as [Hc Happ].
    destruct (content_chunk_spec m c n1 n2 Hs (getAppendable_id _ _ Hc)) as (E1 & E2 & E3 & E4).
    set (m1 := applyStreamingChunk m ContentChunk c n1 n2) in *. clearbody m1.
    destruct (IH m1) as (F1 & F2 & F3 & F4 & F5); [by rewrite E3 | by rewrite E1|].
    rewrite E1, <- app_assoc in *. split_and!; [done | congruence | done | |].
    + intros Hp. rewrite F4 by done. rewrite E2. apply reasoning_after_plain.
      rewrite app_assoc in Hp. by eapply includes_app_l.
    + intros _ Hne. destruct cs as [|c2 cs]; [|by apply F5].
      simpl in *. rewrite E2. rewrite app_nil_r in *. unfold reasoning_after. by destruct (reasoning_text _).
Qed.

Lemma reasoning_chunks_spec m rs :
  status m <> Some Error -> appendable (default [] (reasoning_of m)) (texts rs) = true ->
  let m' := apply_chunks ReasoningChunk m rs in
  getMessageContent m' = getMessageContent m /\ from m' = from m /\ status m' <> Some Error /\
  default [] (reasoning_of m') = default [] (reasoning_of m) ++ concat (texts rs).
Proof.
  revert m. induction rs as [|[[c n1] n2] rs IH]; intros m Hs Happ; simpl.
  - by rewrite app_nil_r.
  - simpl in Happ. apply andb_true_iff in Happ as [Hc Happ].
    destruct (reasoning_chunk_spec m c n1 n2 Hs (getAppendable_id _ _ Hc)) as (E1 & E2 & E3 & E4).
    set (m1 := applyStreamingChunk m ReasoningChunk c n1 n2) in *. clearbody m1.
    destruct (IH m1) as (F1 & F2 & F3 & F4); [by rewrite E3 | by rewrite E2|].
    rewrite E2 in F4. simpl in F4. rewrite <- app_assoc in F4. split_and!; congruence.
Qed.

(** An empty text stands for no reasoning. *)
Definition some_text (s : jstr) : option jstr := match s with [] => None | _ => Some s end.

Lemma finalize_spec m api n1 n2 :
  let m' := finalizeMessage m api n1 n2 in
  getMessageContent m' = visibleContent (parseThinkTags (getMessageContent m)) /\
  reasoning_of m' = some_text (or_text (default [] api)
    (or_text (default [] (reasoning_of m)) (reasoning_text (parseThinkTags (getMessageContent m))))) /\
  status m' = status m /\ from m' = from m.
Proof.
  unfold finalizeMessage. cbv zeta. autorewrite with message.
  destruct (includes (getMessageContent m) OPEN) eqn:Ei;
    [|rewrite (parse_plain _ Ei)]; cbn [fmap option_fmap option_map default visibleContent reasoning_text];
    (split_and!; [done | | done | done]); unfold reasoning_of at 1; simpl; unfold reasoning_of;
    by destruct (or_text _ _).
Qed.

Lemma or_text_nil s : or_text s [] = s.
Proof. by destruct s. Qed.

(** A message that can take another message's place on screen. *)
Definition same_display (a b : Message) : Prop :=
  getMessageContent a = getMessageContent b /\ reasoning_of a = reasoning_of b /\
  status a = status b /\ from a = from b.

(** An assistant message before its first chunk. *)
Definition blank (m : Message) : Prop :=
  getMessageContent m = [] /\ reasoning_of m = None /\ status m <> Some Error.

(** ** Stored conversations *)

Definition pending (ms : list Message) : nat := length (filter (fun m => isPendingAssistantMessage m = true) ms).

Lemma pending_cons m ms : pending (m :: ms) = (if isPendingAssistantMessage m then 1 else 0) + pending ms.
Proof. unfold pending. rewrite filter_cons. by destruct (isPendingAssistantMessage m). Qed.

Lemma repair_not_pending t m n1 n2 n3 : isPendingAssistantMessage (repair_message t m n1 n2 n3) = false.
Proof.
  unfold isPendingAssistantMessage, isAssistantMessagePending, repair_message.
  case_match; autorewrite with message; simpl; apply andb_false_r.
Qed.

Lemma last_pending_None ms : last_pending ms = None -> pending ms = 0%nat.
Proof.
  induction ms as [|m ms IH]; [done|]. simpl. rewrite pending_cons. intros H. destruct (last_pending ms); [done|].
  destruct (isPendingAssistantMessage m); [done|]. by rewrite IH.
Qed.

Lemma last_pending_Some t ms i n1 n2 n3 : last_pending ms = Some i ->
  pending ms = S (pending (alter (fun m => repair_message t m n1 n2 n3) i ms)).
Proof.
  revert i. induction ms as [|m ms IH]; intros i; simpl; [done|].
  destruct (last_pending ms) as [j|] eqn:E.
  - intros [= <-]. cbn [alter list_alter]. rewrite !pending_cons, (IH j) by done. lia.
  - destruct (isPendingAssistantMessage m) eqn:Em; [|done]. intros [= <-]. cbn [alter list_alter].
    rewrite !pending_cons, repair_not_pending, Em. by rewrite (last_pending_None ms E).
Qed.

(** Something to show: content or reasoning that is not blank. *)
Definition shows_something (m : Message) : bool :=
  hasMessageContent m || match trim (default [] (reasoning_of m)) with [] => false | _ => true end.

Lemma repair_shows t m n1 n2 n3 :
  trim (t API_REQUEST_ERROR ++ js ": " ++ t INTERRUPTED) <> [] -> shows_something (repair_message t m n1 n2 n3) = true.
Proof.
  intros Ht. unfold repair_message, shows_something, hasMessageContent. case_match eqn:E; autorewrite with message.
  - exact E.
  - rewrite (proj2 (jeqb_neq _ _)); [done | exact Ht].
Qed.

(** ** Conversations *)

Lemma find_key_Some ms k i : find_key ms k = Some i ->
  exists m, ms !! i = Some m /\ key m = k /\ Forall (fun m => key m <> k) (take i ms).
Proof.
  revert i. induction ms as [|m ms IH]; intros i; simpl; [done|].
  destruct (jeqb (key m) k) eqn:E.
  - intros [= <-]. exists m. apply jeqb_eq in E. split_and!; [done | done | constructor].
  - intros H. destruct (find_key ms k) as [j|] eqn:Ej; [|done]. injection H as <-.
    destruct (IH j eq_refl) as (m' & ? & ? & ?). exists m'. apply jeqb_neq in E. split_and!; [done | done | by constructor].
Qed.

Lemma edit_others k text b t ms : Forall (fun m => key m <> k) ms -> edit_message k text b t <$> ms = ms.
Proof.
  induction 1 as [|m ms Hm _ IH]; [done|]. rewrite fmap_cons, IH. unfold edit_message.
  by rewrite (proj2 (jeqb_neq _ _) Hm).
Qed.

Lemma payload_app ms ms' c e :
  q_messages (buildChatCompletionPayload (ms ++ ms') c e)
  = q_messages (buildChatCompletionPayload ms c e) ++ q_messages (buildChatCompletionPayload ms' c e).
Proof. simpl. by rewrite filter_app, fmap_app. Qed.

Lemma loading_not_sent k id t c e :
  q_messages (buildChatCompletionPayload [createLoadingAssistantMessage k id t] c e) = [].
Proof. done. Qed.

Lemma user_sent m c e : from m = User -> versions m <> [] ->
  q_messages (buildChatCompletionPayload [m] c e) = [{| role := User; content := getMessageContent m |}].
Proof.
  intros Hf Hv. simpl. rewrite filter_cons, filter_nil, decide_True.
  - simpl. unfold formatMessageForAPI. by rewrite Hf.
  - unfold isValidMessage. rewrite Hf. by destruct (versions m).
Qed.

(** ** Theorems *)

(** C34: [parseThinkTags] implements the grammar of think tags: every text has
    exactly one reading, the loop finds it within its bound on turns, and the
    result is the trimmed concatenation of the visible parts, the reasoning parts
    joined by blank lines and trimmed, and whether the last tag is open. *)
Theorem think_tags_correct s :
  (exists vs rs u, think s vs rs u) /\
  (forall vs rs u, think s vs rs u ->
    parseThinkTags s =
      if includes s OPEN
      then {| visibleContent := trim (concat vs); reasoning_text := trim (join [10%N; 10%N] rs); hasUnclosedTag := u |}
      else {| visibleContent := s; reasoning_text := []; hasUnclosedTag := false |}).
Proof.
  split.
  - destruct (think_loop (S (length s)) s) as [[vs rs] u] eqn:E. exists vs, rs, u.
    eapply think_loop_sound; [|done]. lia.
  - intros vs rs u Ht. unfold parseThinkTags. rewrite (think_loop_complete _ _ _ _ _ Ht) by lia.
    by destruct (includes s OPEN).
Qed.

Lemma think_tags_correct_witness :
  parseThinkTags (js "a<think>b</think> c") =
  {| visibleContent := js "a c"; reasoning_text := js "b"; hasUnclosedTag := false |}.
Proof.
  refine (eq_trans (proj2 (think_tags_correct _) [js "a"; js " c"] [js "b"] false _) _); [|reflexivity].
  change (js "a<think>b</think> c") with (js "a" ++ OPEN ++ js "b" ++ CLOSE ++ js " c").
  apply (think_block (js "a") (js "b") (js " c") [js " c"] [] false).
  - intros [|k] Hk; [reflexivity | simpl in Hk; lia].
  - intros [|k] Hk; [reflexivity | simpl in Hk; lia].
  - by apply (think_end (js " c")).
Defined.

(** Streaming an answer shows what the whole answer shows.  When no chunk
    begins with all the text received before it, and the content either has no
    think tag or has reasoning in its tags and no separate reasoning text, a
    blank message that gets the reasoning chunks, the content chunks and the end
    of the stream shows the same content, reasoning and status as one that gets
    the concatenated texts in one response. *)
Theorem streaming_matches_response m rs cs n1 n2 n3 k1 k2 k3 :
  blank m -> appendable [] (texts rs) = true -> appendable [] (texts cs) = true ->
  let R := concat (texts rs) in
  let C := concat (texts cs) in
  includes C OPEN = false \/ (rs = [] /\ reasoning_text (parseThinkTags C) <> []) ->
  same_display
    (completeAssistantMessage (apply_chunks ContentChunk (apply_chunks ReasoningChunk m rs) cs) n1 n2 n3)
    (applyChatCompletionChoice m {| c_content := Some C; c_reasoning := Some R |} k1 k2 k3).
Proof.
  intros (Hc0 & Hr0 & Hs0) Hrs Hcs R C Htags.
  destruct (reasoning_chunks_spec m rs) as (E1 & E2 & E3 & E4); [done | by rewrite Hr0|].
  set (mr := apply_chunks ReasoningChunk m rs) in *.
  destruct (content_chunks_spec mr cs) as (F1 & F2 & F3 & F4 & F5); [done | by rewrite E1, Hc0|].
  set (mc := apply_chunks ContentChunk mr cs) in *. rewrite E1, Hc0 in *. simpl in *. rewrite Hr0 in E4. simpl in E4.
  unfold same_display, completeAssistantMessage, applyChatCompletionChoice.
  cbn [c_content c_reasoning from_option id]. autorewrite with message.
  destruct (finalize_spec mc None n1 n2) as (-> & -> & _ & ->).
  destruct (finalize_spec (updateCurrentVersionContent m C) (Some R) k1 k2) as (-> & -> & _ & ->).
  autorewrite with message. rewrite F1, Hr0. split_and!; [done | | done | congruence].
  f_equal. simpl. destruct Htags as [Hp|[-> Hne]].
  - fold C. rewrite F4, E4, (parse_plain C) by done. simpl. by rewrite !or_text_nil.
  - destruct cs as [|c cs]; [by rewrite parse_plain in Hne|].
    rewrite F5 by done. fold C. simpl. by destruct (reasoning_text _).
Qed.

(** Three chunks that cut a tag. *)
Definition example_chunks : list (jstr * f64 * f64) :=
  (fun s => (s, fzero, fzero)) <$> [js "<thi"; js "nk>why</think>"; js "so"].
Definition example_message : Message := createLoadingAssistantMessage (js "k") (js "v") fzero.

Lemma streaming_matches_response_witness :
  same_display
    (completeAssistantMessage (apply_chunks ContentChunk (apply_chunks ReasoningChunk example_message []) example_chunks)
       fzero fzero fzero)
    (applyChatCompletionChoice example_message
       {| c_content := Some (js "<think>why</think>so"); c_reasoning := Some [] |} fzero fzero fzero).
Proof.
  apply (streaming_matches_response example_message [] example_chunks).
  - split_and!; [reflexivity | reflexivity | discriminate].
  - reflexivity.
  - reflexivity.
  - right. split; [reflexivity | vm_compute; discriminate].
Defined.

(** A stream loses text when a chunk equals what was received before it: two
    equal chunks leave the content of one. *)
Theorem repeated_chunk_dropped m c n1 n2 n3 n4 :
  blank m -> c <> [] ->
  getMessageContent (apply_chunks ContentChunk m [(c, n1, n2); (c, n3, n4)]) = c.
Proof.
  intros (Hc & Hr & Hs) Hne. unfold apply_chunks. simpl.
  destruct (content_chunk_spec m c n1 n2) as (E1 & _ & E3 & _); [done | by rewrite Hc|].
  set (m1 := applyStreamingChunk m ContentChunk c n1 n2) in *. rewrite Hc in E1. simpl in E1.
  unfold applyStreamingChunk at 1. rewrite bool_decide_false by (by rewrite E3).
  assert (getAppendableChunk (getMessageContent m1) c = []) as ->.
  { rewrite E1. unfold getAppendableChunk. destruct c as [|d c]; [done|].
    rewrite (proj2 (starts_with_app (d :: c) (d :: c))) by (exists []; by rewrite app_nil_r). apply drop_all. }
  destruct (process_spec m1 [] n3) as (G1 & _). rewrite app_nil_r in G1.
  set (p := processStreamingContent m1 [] n3) in *. clearbody p.
  cbv zeta. autorewrite with message. repeat case_match; autorewrite with message; congruence.
Qed.

Lemma repeated_chunk_dropped_witness :
  getMessageContent (apply_chunks ContentChunk example_message [(js "1", fzero, fzero); (js "1", fzero, fzero)]) = js "1".
Proof.
  apply (repeated_chunk_dropped example_message (js "1")); [|discriminate].
  split_and!; [reflexivity | reflexivity | discriminate].
Defined.

(** A closing tag cut by a chunk boundary shows up as reasoning: an answer
    with an empty think block has no reasoning when it comes whole, but keeps the
    first part of the closing tag as its reasoning when the tag comes in two
    chunks. *)
Theorem cut_tag_becomes_reasoning n1 n2 n3 :
  let cs := (fun s => (s, n1, n2)) <$> [js "<think></thi"; js "nk>Hi"] in
  reasoning_of (completeAssistantMessage (apply_chunks ContentChunk example_message cs) n1 n2 n3) = Some (js "</thi") /\
  reasoning_of (applyChatCompletionChoice example_message
    {| c_content := Some (concat (texts cs)); c_reasoning := None |} n1 n2 n3) = None.
Proof. split; vm_compute; reflexivity. Qed.

(** Loading a stored conversation repairs its last unfinished answer and
    nothing else: the length and every other message stay, one message fewer is
    pending, and the repaired one is final and shows something, an error text if
    it had nothing to show.  A conversation with at most one unfinished answer
    has none afterwards. *)
Theorem sanitize_repairs t ms n1 n2 n3 :
  trim (t API_REQUEST_ERROR ++ js ": " ++ t INTERRUPTED) <> [] ->
  let ms' := sanitizeMessagesOnLoad t ms n1 n2 n3 in
  length ms' = length ms /\ pending ms' = pred (pending ms) /\
  forall i m, ms' !! i = Some m ->
    ms !! i = Some m \/
    (last_pending ms = Some i /\ shows_something m = true /\ isPendingAssistantMessage m = false).
Proof.
  intros Ht. unfold sanitizeMessagesOnLoad. destruct (last_pending ms) as [j|] eqn:E; simpl.
  - split_and!; [apply length_alter | by rewrite (last_pending_Some t ms j n1 n2 n3 E)|].
    intros i m Hm. destruct (decide (i = j)) as [->|Hne].
    + right. rewrite list_lookup_alter_eq in Hm. destruct (ms !! j) as [m0|]; [|done]. injection Hm as <-.
      split_and!; [done | by apply repair_shows | apply repair_not_pending].
    + left. by rewrite list_lookup_alter_ne in Hm.
  - rewrite (last_pending_None ms E). split_and!; eauto.
Qed.

Lemma sanitize_repairs_witness :
  pending (sanitizeMessagesOnLoad id [example_message] fzero fzero fzero) = 0%nat.
Proof. apply (sanitize_repairs id [example_message] fzero fzero fzero). vm_compute. discriminate. Defined.

(** Submitting a text sends the conversation followed by that text, without
    the placeholder of the answer. *)
Theorem submission_payload ms text k1 id1 k2 id2 now c e :
  q_messages (buildChatCompletionPayload (appendUserMessagePair ms text k1 id1 k2 id2 now) c e)
  = q_messages (buildChatCompletionPayload ms c e) ++ [{| role := User; content := text |}].
Proof. unfold appendUserMessagePair. by rewrite payload_app. Qed.

(** Resubmitting an edited question sends the unchanged conversation before
    it followed by the new text: what came after is dropped, and the answer's
    placeholder ends the conversation. *)
Theorem edit_resends ms k text k' id' now ms' c e :
  applyMessageEdit ms k text true k' id' now = Some (ms', true) ->
  exists i before, find_key ms k = Some i /\ before = take i ms /\
    q_messages (buildChatCompletionPayload ms' c e)
    = q_messages (buildChatCompletionPayload before c e) ++ [{| role := User; content := text |}] /\
    last ms' = Some (createLoadingAssistantMessage k' id' now) /\ length ms' = S (S (length before)).
Proof.
  unfold applyMessageEdit. destruct (find_key ms k) as [i|] eqn:Ei; [|done]. cbn [mbind option_bind].
  destruct (find_key_Some ms k i Ei) as (m & Hm & Hk & Hbefore).
  rewrite list_lookup_fmap, Hm. cbn [fmap option_fmap option_map mbind option_bind].
  assert (edit_message k text true now m = set_created (Some now) (updateCurrentVersionContent m text)) as Em.
  { unfold edit_message. by rewrite (proj2 (jeqb_eq _ _) Hk). }
  case_match eqn:Eu; [done|]. intros [= <-]. exists i, (take i ms).
  apply orb_false_iff in Eu as [_ Eu%negb_false_iff%bool_decide_eq_true].
  rewrite Nat.add_1_r, (take_S_r _ i (edit_message k text true now m)) by (by rewrite list_lookup_fmap, Hm).
  rewrite <- fmap_take, edit_others by done.
  split_and!; [done | done | | by rewrite last_snoc | rewrite !length_app; simpl; lia].
  rewrite !payload_app, loading_not_sent, app_nil_r. f_equal. rewrite user_sent; [|done | by rewrite Em].
  by rewrite Em.
Qed.

Lemma edit_resends_witness :
  exists ms', applyMessageEdit [createUserMessage (js "q") (js "v") (js "old") fzero; example_message]
      (js "q") (js "new") true (js "k2") (js "v2") fzero = Some (ms', true) /\ length ms' = 2%nat.
Proof.
  eexists. split; [reflexivity|].
  destruct (edit_resends [createUserMessage (js "q") (js "v") (js "old") fzero; example_message]
    (js "q") (js "new") (js "k2") (js "v2") fzero _
    {| model := []; group := []; temperature := fzero; top_p := fzero; max_tokens := fzero;
       frequency_penalty := fzero; presence_penalty := fzero; seed := None; stream := true |}
    {| en_temperature := false; en_top_p := false; en_max_tokens := false; en_frequency_penalty := false;
       en_presence_penalty := false; en_seed := false |} eq_refl) as (i & b & Hi & Hb & _ & _ & H).
  injection Hi as <-. subst b. exact H.
Defined.

End PlaygroundFacts.
