(* ===== verification/PlaygroundStream.v ===== *)
(** * Playground stream requests

    Model of [features/playground/lib/streaming/stream-utils.ts],
    [lib/streaming/request-error-utils.ts] and of
    [createStreamRequestController] in [hooks/use-stream-request.ts].

    The controller's variables, the closures it registers and the event sources
    it opens are the state; every turn of the event loop that runs its code is an
    operation: a call of [send], [stop] or [dispose], the settlement of the awaited
    headers, and each event of a source.  Sources are named by their position in
    the list of the sources created so far, so that comparing positions is comparing
    objects.  What the controller calls back is the class [StreamClient]. *)

From stdpp Require Import base list numbers strings.
From Stdlib Require Import ZArith Lia.
From S2P Require Import Prelude.
From S2P Require Import JsString.
From S2P Require Import JsNumber.
From S2P Require Import JsValue.
From S2P Require Import JsJson.
From S2P Require Import PlaygroundMessages.

Module Stream.
Import Playground.

(** ** stream-utils.ts *)

Definition PARSE_ERROR : jstr := js "Error parsing response data".
Definition NETWORK_ERROR : jstr := js "Network connection failed or server not responding".
Definition STREAM_START_ERROR : jstr := js "Error establishing connection".
Definition CONNECTION_CLOSED : jstr := js "Connection closed".

Definition STREAM_DONE_MESSAGE : jstr := js "[DONE]".
Definition STREAM_CLOSED_READY_STATE : Z := 2.

(** The chunk is what the server sent, a string by the declared type. *)
Record StreamMessageUpdate := { u_type : StreamChunkType; u_chunk : jsval }.

Record StreamErrorDetails := { d_errorCode : jsval; d_errorMessage : jsval }.

(** [a || b] *)
Definition js_or (a b : jsval) : jsval := if truthy a then a else b.

Definition parseStreamErrorDetails (data : option jstr) : StreamErrorDetails :=
  match data with
  | None | Some [] => {| d_errorCode := JUndefined; d_errorMessage := JStr API_REQUEST_ERROR |}
  | Some text =>
      let fallback := {| d_errorCode := JUndefined; d_errorMessage := JStr text |} in
      match json_parse text with
      | None => fallback
      | Some parsed =>
          let error := opt_prop parsed (js "error") in
          if truthy error then
            {| d_errorCode := js_or (opt_prop error (js "code")) JUndefined;
               d_errorMessage := js_or (opt_prop error (js "message")) (JStr text) |}
          else fallback
      end
  end.

(** [None] when the text is not JSON or is [null]: the call throws. *)
Definition parseStreamMessageUpdates (data : jstr) : option (list StreamMessageUpdate) :=
  chunk ← json_parse data;
  choices ← prop chunk (js "choices");
  let delta := opt_prop (opt_first choices) (js "delta") in
  Some (if truthy delta then
          (if truthy (opt_prop delta (js "reasoning_content"))
           then [{| u_type := ReasoningChunk; u_chunk := opt_prop delta (js "reasoning_content") |}] else [])
          ++ (if truthy (opt_prop delta (js "content"))
              then [{| u_type := ContentChunk; u_chunk := opt_prop delta (js "content") |}] else [])
        else []).

Definition isStreamDoneMessage (data : jstr) : bool := jeqb data STREAM_DONE_MESSAGE.

Definition isStreamClosedReadyState (readyState : option Z) : bool :=
  match readyState with Some s => Z.eqb s STREAM_CLOSED_READY_STATE | None => false end.

(** [status] is the property of that name of the source. *)
Definition getStreamReadyStateError (eventReadyState : option Z) (status : option N) : option jstr :=
  match eventReadyState, status with
  | Some s, Some code =>
      if Z.leb STREAM_CLOSED_READY_STATE s && negb (N.eqb code 200)
      then Some (js "HTTP " ++ N_digits code ++ js ": " ++ CONNECTION_CLOSED) else None
  | _, _ => None
  end.

(** ** request-error-utils.ts *)

Definition parseRequestErrorDetails (error : jsval) : StreamErrorDetails :=
  let data := opt_prop (opt_prop error (js "response")) (js "data") in
  {| d_errorCode := js_or (opt_prop (opt_prop data (js "error")) (js "code")) JUndefined;
     d_errorMessage :=
       js_or (opt_prop data (js "message"))
         (js_or (opt_prop error (js "message")) (JStr API_REQUEST_ERROR)) |}.

(** ** createStreamRequestController *)

(** The callbacks of a request, on the state of the component that sent it.
    [CB] is what the closures of one request capture.  [onUpdate] may throw, which
    leaves the state as it was; [onError] may throw after it has changed it. *)
Class StreamClient (CB ST : Type) := {
  onUpdate : CB -> StreamChunkType -> jsval -> ST -> option ST;
  onComplete : CB -> ST -> ST;
  onError : CB -> jsval -> jsval -> ST -> ST * bool;
}.

(** An event source with the variables its listeners capture. *)
Record StreamEventSource {CB : Type} := {
  requestGeneration : nat;
  callbacks : CB;
  payload : ChatCompletionRequest;
  completed : bool;
  closed : bool;
}.
Arguments StreamEventSource : clear implicits.

(** [awaiting]: the calls of [send] that wait for their headers. *)
Record controller {CB : Type} := {
  source : option nat;
  generation : nat;
  sources : list (StreamEventSource CB);
  awaiting : list (nat * CB * ChatCompletionRequest);
  streaming : bool;
}.
Arguments controller : clear implicits.

Section Controller.
Context {CB ST : Type} `{StreamClient CB ST}.

Definition initial_controller : controller CB :=
  {| source := None; generation := 0; sources := []; awaiting := []; streaming := false |}.

Definition close_source (s : StreamEventSource CB) : StreamEventSource CB :=
  {| requestGeneration := requestGeneration s; callbacks := callbacks s; payload := payload s;
     completed := completed s; closed := true |}.

Definition complete_source (s : StreamEventSource CB) : StreamEventSource CB :=
  {| requestGeneration := requestGeneration s; callbacks := callbacks s; payload := payload s;
     completed := true; closed := closed s |}.

(** [source?.close()] *)
Definition close_opt (target : option nat) (l : list (StreamEventSource CB)) : list (StreamEventSource CB) :=
  match target with Some i => alter close_source i l | None => l end.

Definition set_completed (i : nat) (c : controller CB) : controller CB :=
  {| source := source c; generation := generation c; sources := alter complete_source i (sources c);
     awaiting := awaiting c; streaming := streaming c |}.

Definition closeActiveSource (target : nat) (c : controller CB) : controller CB :=
  let l := alter close_source target (sources c) in
  if bool_decide (source c = Some target)
  then {| source := None; generation := generation c; sources := l; awaiting := awaiting c; streaming := false |}
  else {| source := source c; generation := generation c; sources := l; awaiting := awaiting c;
          streaming := streaming c |}.

(** [send] up to the [await] of its headers. *)
Definition send (q : ChatCompletionRequest) (cb : CB) (c : controller CB) : controller CB :=
  let requestGeneration := S (generation c) in
  {| source := None; generation := requestGeneration; sources := close_opt (source c) (sources c);
     awaiting := awaiting c ++ [(requestGeneration, cb, q)]; streaming := false |}.

(** The waiting call of a generation, and the others. *)
Fixpoint take_waiting (g : nat) (l : list (nat * CB * ChatCompletionRequest))
    : option (CB * ChatCompletionRequest * list (nat * CB * ChatCompletionRequest)) :=
  match l with
  | [] => None
  | (g', cb, q) :: l' =>
      if Nat.eqb g' g then Some (cb, q, l')
      else match take_waiting g l' with
           | Some (cb', q', rest) => Some (cb', q', (g', cb, q) :: rest)
           | None => None
           end
  end.

Definition set_awaiting (l : list (nat * CB * ChatCompletionRequest)) (c : controller CB) : controller CB :=
  {| source := source c; generation := generation c; sources := sources c; awaiting := l; streaming := streaming c |}.

(** The [catch] of the awaited headers; [message] is that of an [Error]. *)
Definition headers_rejected (g : nat) (message : option jstr) (s : controller CB * ST) : controller CB * ST :=
  let '(c, st) := s in
  match take_waiting g (awaiting c) with
  | None => s
  | Some (cb, _, rest) =>
      let c' := set_awaiting rest c in
      if negb (Nat.eqb (generation c') g) then (c', st)
      else (c', fst (onError cb (JStr (default STREAM_START_ERROR message)) JUndefined st))
  end.

(** The rest of [send] once the headers are there, up to the call of [stream]. *)
Definition headers_resolved (g : nat) (s : controller CB * ST) : controller CB * ST :=
  let '(c, st) := s in
  match take_waiting g (awaiting c) with
  | None => s
  | Some (cb, q, rest) =>
      let c' := set_awaiting rest c in
      if negb (Nat.eqb (generation c') g) then (c', st)
      else
        ({| source := Some (length (sources c')); generation := generation c';
            sources := sources c' ++ [{| requestGeneration := g; callbacks := cb; payload := q;
                                         completed := false; closed := false |}];
            awaiting := rest; streaming := true |}, st)
  end.

(** The source whose listeners act on an event: [isCurrent() && !completed]. *)
Definition live (i : nat) (c : controller CB) : option (StreamEventSource CB) :=
  match sources c !! i with
  | Some s =>
      if Nat.eqb (generation c) (requestGeneration s) && bool_decide (source c = Some i) && negb (completed s)
      then Some s else None
  | None => None
  end.

Definition handleError (i : nat) (errorMessage errorCode : jsval) (s : controller CB * ST) : controller CB * ST :=
  let '(c, st) := s in
  match live i c with
  | None => s
  | Some src =>
      let c1 := set_completed i c in
      let '(st', threw) := onError (callbacks src) errorMessage errorCode st in
      ((if threw : bool then c1 else closeActiveSource i c1), st')
  end.

(** The loop over the updates; [false] when a callback threw. *)
Fixpoint deliver_updates (cb : CB) (updates : list StreamMessageUpdate) (st : ST) : ST * bool :=
  match updates with
  | [] => (st, true)
  | u :: us =>
      match onUpdate cb (u_type u) (u_chunk u) st with
      | Some st' => deliver_updates cb us st'
      | None => (st, false)
      end
  end.

Definition on_message (i : nat) (data : option jstr) (s : controller CB * ST) : controller CB * ST :=
  let '(c, st) := s in
  match live i c with
  | None => s
  | Some src =>
      let data := default [] data in
      if isStreamDoneMessage data
      then (closeActiveSource i (set_completed i c), onComplete (callbacks src) st)
      else
        match parseStreamMessageUpdates data with
        | Some updates =>
            let '(st', ok) := deliver_updates (callbacks src) updates st in
            if ok : bool then (c, st') else handleError i (JStr PARSE_ERROR) JUndefined (c, st')
        | None => handleError i (JStr PARSE_ERROR) JUndefined s
        end
  end.

(** [readyState] is that of the source when the event arrives. *)
Definition on_error (i : nat) (readyState : option Z) (data : option jstr) (s : controller CB * ST)
    : controller CB * ST :=
  let '(c, _) := s in
  match live i c with
  | None => s
  | Some _ =>
      if isStreamClosedReadyState readyState then s
      else
        let details := parseStreamErrorDetails data in
        handleError i (d_errorMessage details) (d_errorCode details) s
  end.

Definition on_readystatechange (i : nat) (eventReadyState : option Z) (status : option N) (s : controller CB * ST)
    : controller CB * ST :=
  let '(c, _) := s in
  match live i c with
  | None => s
  | Some _ =>
      match getStreamReadyStateError eventReadyState status with
      | Some errorMessage => handleError i (JStr errorMessage) JUndefined s
      | None => s
      end
  end.

(** The [catch] of [stream()]. *)
Definition stream_threw (i : nat) (s : controller CB * ST) : controller CB * ST :=
  handleError i (JStr STREAM_START_ERROR) JUndefined s.

Definition cancel (notify : bool) (c : controller CB) : controller CB :=
  {| source := None; generation := S (generation c); sources := close_opt (source c) (sources c);
     awaiting := awaiting c; streaming := if notify then false else streaming c |}.

Definition stop (c : controller CB) : controller CB := cancel true c.
Definition dispose (c : controller CB) : controller CB := cancel false c.

(** What the outside world does to the controller apart from calling it. *)
Inductive stream_event :=
| HeadersResolved (g : nat)
| HeadersRejected (g : nat) (message : option jstr)
| MessageEvent (i : nat) (data : option jstr)
| ErrorEvent (i : nat) (readyState : option Z) (data : option jstr)
| ReadyStateEvent (i : nat) (eventReadyState : option Z) (status : option N)
| StreamThrew (i : nat).

Definition on_stream_event (e : stream_event) (s : controller CB * ST) : controller CB * ST :=
  match e with
  | HeadersResolved g => headers_resolved g s
  | HeadersRejected g message => headers_rejected g message s
  | MessageEvent i data => on_message i data s
  | ErrorEvent i rs data => on_error i rs data s
  | ReadyStateEvent i rs status => on_readystatechange i rs status s
  | StreamThrew i => stream_threw i s
  end.
End Controller.
End Stream.
