(* ===== verification/PlaygroundStreamFacts.v ===== *)
(** * Properties of the stream controller

    For every client: at most one source is open, the callbacks of a request form
    a sequence of updates with at most one end, and a request that has been
    superseded, stopped or ended is never called back. *)

From stdpp Require Import base list numbers strings sets.
From Stdlib Require Import ZArith Lia.
From S2P Require Import Prelude.
From S2P Require Import JsString.
From S2P Require Import JsValue.
From S2P Require Import JsJson.
From S2P Require Import PlaygroundMessages.
From S2P Require Import PlaygroundStream.

Module StreamFacts.
Import Playground.
Import Stream.

Section Moves.
Context {CB ST : Type} `{HC : StreamClient CB ST}.
Implicit Types (c : controller CB) (s : StreamEventSource CB) (cb : CB).

(** ** The invariant *)

(** Every request that can still be heard of, with its generation. *)
Definition entries c : list (nat * CB) :=
  ((fun s => (requestGeneration s, callbacks s)) <$> sources c) ++ (fst <$> awaiting c).

Record ok c : Prop := {
  ok_source : forall i, source c = Some i ->
    exists s, sources c !! i = Some s /\ requestGeneration s = generation c /\ closed s = false;
  ok_closed : forall i s, sources c !! i = Some s -> source c <> Some i -> closed s = true;
  ok_bound : forall e, e ∈ entries c -> (e.1 <= generation c)%nat;
  ok_unique : NoDup (fst <$> entries c);
}.

Lemma lookup_close_opt o (l : list (StreamEventSource CB)) i s :
  close_opt o l !! i = Some s -> exists s0, l !! i = Some s0 /\ requestGeneration s = requestGeneration s0 /\
    callbacks s = callbacks s0 /\ completed s = completed s0 /\
    closed s = (closed s0 || bool_decide (o = Some i)).
Proof.
  destruct o as [j|]; simpl.
  - destruct (decide (j = i)) as [->|Hne].
    + rewrite list_lookup_alter_eq. destruct (l !! i) as [s0|]; [|done]. intros [= <-]. exists s0.
      rewrite bool_decide_true by done. by rewrite orb_true_r.
    + rewrite list_lookup_alter_ne by done. intros Hs. exists s. rewrite bool_decide_false by congruence. by rewrite orb_false_r.
  - intros Hs. exists s. by rewrite orb_false_r.
Qed.

Lemma take_waiting_spec g (l : list (nat * CB * ChatCompletionRequest)) cb q rest :
  take_waiting g l = Some (cb, q, rest) -> exists l1 l2, l = l1 ++ (g, cb, q) :: l2 /\ rest = l1 ++ l2.
Proof.
  revert cb q rest. induction l as [|[[g' cb'] q'] l IH]; intros cb q rest; simpl; [done|].
  destruct (Nat.eqb_spec g' g) as [->|Hne].
  - intros [= -> -> ->]. by exists [], rest.
  - destruct (take_waiting g l) as [[[cb1 q1] rest1]|] eqn:E; [|done]. intros [= <- <- <-].
    destruct (IH _ _ _ eq_refl) as (l1 & l2 & -> & ->). by exists ((g', cb', q') :: l1), l2.
Qed.

Lemma live_spec i c s : live i c = Some s <->
  sources c !! i = Some s /\ requestGeneration s = generation c /\ source c = Some i /\ completed s = false.
Proof.
  unfold live. destruct (sources c !! i) as [s0|]; [|split; [done | by intros [? _]]].
  destruct (Nat.eqb_spec (generation c) (requestGeneration s0)); simpl;
    [|split; [done | intros ([= ->] & ? & _); congruence]].
  destruct (bool_decide_reflect (source c = Some i)); simpl; [|split; [done | by intros (_ & _ & ? & _)]].
  destruct (completed s0) eqn:E; simpl; [split; [done | intros ([= ->] & _ & _ & ?); congruence]|].
  split; [by intros [= ->] | by intros ([= ->] & _)].
Qed.

(** ** Transitions *)

(** What an operation may do to the controller, seen from outside: one shape per
    kind of operation, with the calls of [send] it makes wait. *)
Inductive moves c : list (nat * CB * ChatCompletionRequest) -> controller CB -> Prop :=
| moves_refl : moves c [] c
| moves_next l b : (forall w, w ∈ l -> w.1.1 = S (generation c)) -> (length l <= 1)%nat ->
    moves c l {| source := None; generation := S (generation c); sources := close_opt (source c) (sources c);
               awaiting := awaiting c ++ l; streaming := b |}
| moves_drop l1 w l2 : awaiting c = l1 ++ w :: l2 -> moves c [] (set_awaiting (l1 ++ l2) c)
| moves_open l1 l2 cb q : awaiting c = l1 ++ (generation c, cb, q) :: l2 ->
    moves c [] {| source := Some (length (sources c)); generation := generation c;
               sources := sources c ++ [{| requestGeneration := generation c; callbacks := cb; payload := q;
                                           completed := false; closed := false |}];
               awaiting := l1 ++ l2; streaming := true |}
| moves_complete i s : live i c = Some s -> moves c [] (set_completed i c)
| moves_end i s : live i c = Some s -> moves c [] (closeActiveSource i (set_completed i c)).

(** What an event may do to the controller and to its client. *)
Inductive outcome : controller CB * ST -> controller CB * ST -> Prop :=
| out_none x : outcome x x
| out_drop c st l1 w l2 : awaiting c = l1 ++ w :: l2 -> w.1.1 <> generation c ->
    outcome (c, st) (set_awaiting (l1 ++ l2) c, st)
| out_open c st l1 l2 cb q : awaiting c = l1 ++ (generation c, cb, q) :: l2 ->
    outcome (c, st)
      ({| source := Some (length (sources c)); generation := generation c;
          sources := sources c ++ [{| requestGeneration := generation c; callbacks := cb; payload := q;
                                      completed := false; closed := false |}];
          awaiting := l1 ++ l2; streaming := true |}, st)
| out_rejected c st l1 l2 cb q m : awaiting c = l1 ++ (generation c, cb, q) :: l2 ->
    outcome (c, st) (set_awaiting (l1 ++ l2) c, fst (onError cb m JUndefined st))
| out_update c st i s us st' : live i c = Some s -> deliver_updates (callbacks s) us st = (st', true) ->
    outcome (c, st) (c, st')
| out_done c st i s : live i c = Some s ->
    outcome (c, st) (closeActiveSource i (set_completed i c), onComplete (callbacks s) st)
| out_error c st i s us st1 b m k st2 (threw : bool) :
    live i c = Some s -> deliver_updates (callbacks s) us st = (st1, b) -> onError (callbacks s) m k st1 = (st2, threw) ->
    outcome (c, st) (if threw then set_completed i c else closeActiveSource i (set_completed i c), st2).

Lemma handleError_outcome i s us m k c st st1 b : live i c = Some s -> deliver_updates (callbacks s) us st = (st1, b) ->
  outcome (c, st) (handleError i m k (c, st1)).
Proof.
  intros E Ed. unfold handleError. rewrite E. destruct (onError (callbacks s) m k st1) as [st2 threw] eqn:Eo.
  by eapply out_error.
Qed.

Lemma on_stream_event_outcome e (x : controller CB * ST) : outcome x (on_stream_event e x).
Proof.
  destruct x as [c st], e as [g|g m|i d|i r d|i r k|i]; cbn [on_stream_event];
    unfold on_message, on_error, on_readystatechange, stream_threw, headers_resolved, headers_rejected.
  - destruct (take_waiting g (awaiting c)) as [[[cb q] rest]|] eqn:E; [|constructor].
    apply take_waiting_spec in E as (l1 & l2 & E & ->). simpl.
    destruct (Nat.eqb_spec (generation c) g) as [<-|]; simpl; [by constructor | by eapply out_drop].
  - destruct (take_waiting g (awaiting c)) as [[[cb q] rest]|] eqn:E; [|constructor].
    apply take_waiting_spec in E as (l1 & l2 & E & ->). simpl.
    destruct (Nat.eqb_spec (generation c) g) as [<-|]; simpl; [by eapply out_rejected | by eapply out_drop].
  - destruct (live i c) as [s|] eqn:E; [|constructor].
    destruct (isStreamDoneMessage _); [by eapply out_done|].
    destruct (parseStreamMessageUpdates _) as [us|]; [|by eapply (handleError_outcome i s [])].
    destruct (deliver_updates (callbacks s) us st) as [st' []] eqn:Ed; [by eapply out_update | by eapply handleError_outcome].
  - destruct (live i c) as [s|] eqn:E; [|constructor]. destruct (isStreamClosedReadyState r); [constructor|].
    by eapply (handleError_outcome i s []).
  - destruct (live i c) as [s|] eqn:E; [|constructor]. destruct (getStreamReadyStateError r k); [|constructor].
    by eapply (handleError_outcome i s []).
  - destruct (live i c) as [s|] eqn:E; [by eapply (handleError_outcome i s [])|].
    unfold handleError. rewrite E. constructor.
Qed.

Lemma outcome_moves (x y : controller CB * ST) : outcome x y -> moves x.1 [] y.1.
Proof.
  destruct 1 as [|c st l1 w l2 E Hw|c st l1 l2 cb q E|c st l1 l2 cb q m E| |c st i s E|c st i s us st1 b m k st2 [] E]; simpl;
    first [by econstructor | by eapply moves_drop | by eapply moves_end | by eapply moves_complete].
Qed.

Lemma on_event_moves e (x : controller CB * ST) : moves x.1 [] (on_stream_event e x).1.
Proof. apply outcome_moves, on_stream_event_outcome. Qed.

Lemma cancel_moves b c : moves c [] (cancel b c).
Proof.
  pose proof (moves_next c [] (if b then false else streaming c) ltac:(set_solver) ltac:(simpl; lia)) as Hm.
  by rewrite app_nil_r in Hm.
Qed.

Lemma ok_initial : ok initial_controller.
Proof. split; simpl; [done | done | set_solver | constructor]. Qed.

Lemma lookup_complete i j c s : sources (set_completed i c) !! j = Some s ->
  exists s0, sources c !! j = Some s0 /\ requestGeneration s = requestGeneration s0 /\
    callbacks s = callbacks s0 /\ closed s = closed s0 /\ completed s = (completed s0 || bool_decide (i = j)).
Proof.
  simpl. destruct (decide (i = j)) as [->|Hne].
  - rewrite list_lookup_alter_eq. destruct (sources c !! j) as [s0|]; [|done]. intros [= <-]. exists s0.
    rewrite bool_decide_true by done. by rewrite orb_true_r.
  - rewrite list_lookup_alter_ne by done. intros Hs. exists s. rewrite bool_decide_false by done. by rewrite orb_false_r.
Qed.

(** Closing the active source and moving to generation [g]. *)
Lemma ok_close c g l b :
  ok c -> let c' := {| source := None; generation := g; sources := close_opt (source c) (sources c);
                       awaiting := l; streaming := b |} in
  (forall e, e ∈ entries c' -> (e.1 <= g)%nat) -> NoDup (fst <$> entries c') -> ok c'.
Proof.
  intros [H1 H2 _ _] c' Hb Hu. split; simpl; try done.
  intros i s Hs _. apply lookup_close_opt in Hs as (s0 & Hs & _ & _ & _ & ->).
  destruct (bool_decide_reflect (source c = Some i)); [by rewrite orb_true_r|]. by rewrite (H2 i s0).
Qed.

Lemma fmap_alter_same {A B} (f : A -> B) (g : A -> A) i (l : list A) :
  (forall a, f (g a) = f a) -> f <$> alter g i l = f <$> l.
Proof.
  intros Hfg. revert i. induction l as [|a l IH]; intros [|i]; simpl; [done | done | by rewrite Hfg |].
  f_equal. apply IH.
Qed.

Lemma entries_complete i c : entries (set_completed i c) = entries c.
Proof. unfold entries. simpl. by rewrite fmap_alter_same. Qed.

Lemma ok_complete i c : ok c -> ok (set_completed i c).
Proof.
  intros [H1 H2 H3 H4]. split.
  - intros j Hj. destruct (H1 j Hj) as (s & Hs & Hg & Hc).
    destruct (decide (i = j)) as [->|Hne].
    + exists (complete_source s). cbn [set_completed sources]. by rewrite list_lookup_alter_eq, Hs.
    + exists s. cbn [set_completed sources]. by rewrite list_lookup_alter_ne.
  - intros j s Hs Hne. apply lookup_complete in Hs as (s0 & Hs & _ & _ & -> & _). eauto.
  - by rewrite entries_complete.
  - by rewrite entries_complete.
Qed.

Lemma fmap_close_opt {B} (f : StreamEventSource CB -> B) o l :
  (forall s, f (close_source s) = f s) -> f <$> close_opt o l = f <$> l.
Proof. destruct o; [apply fmap_alter_same | done]. Qed.

(** An operation adds at most one request, of the next generation. *)
Lemma moves_entries c l c' : moves c l c' ->
  (generation c <= generation c')%nat /\
  let new := fst <$> l in
  entries c' ⊆+ entries c ++ new /\ (length new <= 1)%nat /\
  forall e, e ∈ new -> e.1 = S (generation c) /\ generation c' = S (generation c).
Proof.
  intros Hm. destruct Hm as [|l b Hl Hlen|l1 w l2 E|l1 l2 cb q E|i s E|i s E]; simpl.
  - split; [done|]. rewrite app_nil_r. split_and!; [done | simpl; lia | set_solver].
  - split; [lia|]. unfold entries. simpl. rewrite fmap_close_opt, fmap_app, app_assoc by done.
    split_and!; [done | by rewrite length_fmap |]. intros e (w & -> & Hw)%list_elem_of_fmap. eauto.
  - split; [done|]. unfold entries. simpl. rewrite app_nil_r, E, !fmap_app, fmap_cons.
    split_and!; [| simpl; lia | set_solver]. apply submseteq_skips_l, submseteq_skips_l. by apply submseteq_cons.
  - split; [done|]. unfold entries. simpl. rewrite app_nil_r, E, !fmap_app, fmap_cons.
    split_and!; [| simpl; lia | set_solver]. simpl. rewrite <- app_assoc.
    apply submseteq_skips_l. simpl. by rewrite Permutation_middle.
  - split; [done|]. rewrite app_nil_r, entries_complete. split_and!; [done | simpl; lia | set_solver].
  - apply live_spec in E as (_ & _ & Hs & _). unfold closeActiveSource. simpl. rewrite bool_decide_true by done. simpl.
    split; [done|]. rewrite app_nil_r. split_and!; [| simpl; lia | set_solver].
    unfold entries. simpl. by rewrite !fmap_alter_same.
Qed.

Lemma NoDup_of_submseteq {A} (l k : list A) : l ⊆+ k -> NoDup k -> NoDup l.
Proof. intros [k' ->]%submseteq_Permutation Hk. by apply NoDup_app in Hk as [? _]. Qed.

Lemma moves_unique c l c' : moves c l c' -> ok c ->
  (forall e, e ∈ entries c' -> (e.1 <= generation c')%nat) /\ NoDup (fst <$> entries c').
Proof.
  intros Hm [_ _ Hb Hu]. destruct (moves_entries c l c' Hm) as (Hg & Hsub & Hlen & Hnew).
  set (new := fst <$> l) in *. clearbody new. split.
  - intros e He. apply (elem_of_submseteq _ _ _ He) in Hsub. apply elem_of_app in Hsub as [He'|He'].
    + etrans; [by apply Hb | done].
    + destruct (Hnew e He'). lia.
  - eapply NoDup_of_submseteq; [apply fmap_submseteq, Hsub|]. rewrite fmap_app. apply NoDup_app. split_and!; [done| |].
    + intros g (e & -> & He)%list_elem_of_fmap (e' & Heq & He')%list_elem_of_fmap.
      apply Hb in He. apply Hnew in He' as [He' _]. lia.
    + destruct new as [|e [|e' new]]; simpl in *; [constructor | apply NoDup_singleton | lia].
Qed.

(** The current generation does not wait and stream at the same time. *)
Lemma ok_waits c cb q : ok c -> (generation c, cb, q) ∈ awaiting c -> source c = None.
Proof.
  intros [H1 _ _ Hu] Hw. destruct (source c) as [i|] eqn:E; [|done]. exfalso.
  destruct (H1 i eq_refl) as (s & Hs & Hg & _). unfold entries in Hu. rewrite fmap_app in Hu.
  apply NoDup_app in Hu as (_ & Hu & _). apply (Hu (generation c)).
  - apply list_elem_of_lookup_2 in Hs. rewrite <- Hg. set_solver.
  - set_solver.
Qed.

Lemma moves_ok c l c' : moves c l c' -> ok c -> ok c'.
Proof.
  intros Hm Hok. destruct (moves_unique c l c' Hm Hok) as [Hb Hu]. pose proof Hok as [H1 H2 _ _].
  destruct Hm as [|l b Hl Hlen|l1 w l2 E|l1 l2 cb q E|i s E|i s E]; [done| | | |by apply ok_complete|].
  - by apply ok_close.
  - by split.
  - assert (source c = None) as Hn by (apply (ok_waits c cb q); [done | rewrite E; set_solver]).
    split; simpl; try done.
    + intros i [= <-]. eexists. by rewrite lookup_app_r, Nat.sub_diag by done.
    + intros i s Hs Hi. rewrite lookup_app in Hs. destruct (sources c !! i) as [s0|] eqn:Es.
      * injection Hs as <-. apply (H2 i); [done | by rewrite Hn].
      * apply lookup_ge_None in Es. destruct (i - length (sources c))%nat eqn:Ei; [|done].
        destruct Hi. f_equal. lia.
  - apply live_spec in E as (_ & _ & Hs & _). unfold closeActiveSource in *. simpl in *.
    rewrite bool_decide_true in * by done.
    pose proof (ok_close (set_completed i c) (generation c) (awaiting c) false (ok_complete i c Hok)) as Hc.
    simpl in Hc. rewrite Hs in Hc. by apply Hc.
Qed.

(** No call to the callbacks [cb] is possible before they are sent again. *)
Definition silent cb c : Prop :=
  (forall i s, live i c = Some s -> callbacks s <> cb) /\ (forall q, (generation c, cb, q) ∉ awaiting c).

(** After its end a request is silent. *)
Lemma ended_silent i s c c' : ok c -> live i c = Some s ->
  c' = set_completed i c \/ c' = closeActiveSource i (set_completed i c) -> silent (callbacks s) c'.
Proof.
  intros Hok Hl Hc'. pose proof Hl as (Hs & Hg & Hsrc & _)%live_spec.
  assert (awaiting c' = awaiting c /\ generation c' = generation c) as [Ha Hgen].
  { destruct Hc' as [-> | ->]; [done|]. unfold closeActiveSource. by case_bool_decide. }
  split.
  - intros j s' (Hs' & _ & Hj & Hcomp)%live_spec _. destruct Hc' as [-> | ->].
    + simpl in Hj. rewrite Hsrc in Hj. injection Hj as <-.
      apply lookup_complete in Hs' as (s0 & _ & _ & _ & _ & E). rewrite bool_decide_true, orb_true_r in E by done. congruence.
    + revert Hj. unfold closeActiveSource. by rewrite bool_decide_true.
  - intros q. rewrite Ha, Hgen. intros Hw. apply (ok_waits c) in Hw; [|done]. congruence.
Qed.

(** ** Silence lasts *)

Lemma silent_moves cb c l c' : moves c l c' -> ok c ->
  (forall w, w ∈ l -> w.1.2 <> cb) -> silent cb c -> silent cb c'.
Proof.
  intros Hm Hok Hnew [Hl Hw]. destruct Hm as [|l b Hgen Hlen|l1 w l2 E|l1 l2 cb' q E|i s E|i s E].
  - done.
  - split; [by intros i s (_ & _ & ? & _)%live_spec|]. intros q [Hq|Hq]%elem_of_app; [|by apply (Hnew _ Hq)].
    pose proof (ok_bound c Hok (S (generation c), cb)) as Hb. unfold entries in Hb. simpl in Hb.
    enough (S (generation c) <= generation c)%nat by lia. apply Hb, elem_of_app. right.
    by apply (list_elem_of_fmap_2 fst _ _ Hq).
  - split; [exact Hl|]. intros q Hq. apply (Hw q). rewrite E. simpl in Hq. set_solver.
  - split; [|intros q' Hq; apply (Hw q'); rewrite E; simpl in Hq; set_solver].
    intros i s (Hs & _ & Hi & _)%live_spec. simpl in *. injection Hi as <-.
    rewrite lookup_app_r, Nat.sub_diag in Hs by done. injection Hs as <-. simpl. intros ->.
    apply (Hw q). rewrite E. set_solver.
  - split; [|exact Hw]. intros j s' (Hs & Hg & Hj & Hc)%live_spec.
    apply lookup_complete in Hs as (s0 & Hs & Hg0 & -> & _ & Hc0). apply (Hl j). apply live_spec. simpl in *.
    rewrite <- Hg0. destruct (completed s0); [simpl in *; congruence | done].
  - apply live_spec in E as (_ & _ & Hs & _). unfold closeActiveSource in *. simpl in *.
    rewrite bool_decide_true in * by done. split; [by intros j s' (_ & _ & ? & _)%live_spec | exact Hw].
Qed.


Lemma rejected_silent c l1 l2 cb q : ok c -> awaiting c = l1 ++ (generation c, cb, q) :: l2 ->
  silent cb (set_awaiting (l1 ++ l2) c).
Proof.
  intros Hok E. assert ((generation c, cb, q) ∈ awaiting c) as Hin by (rewrite E; set_solver). split.
  - intros i s (_ & _ & Hi & _)%live_spec. simpl in Hi. by rewrite (ok_waits c cb q) in Hi.
  - intros q' Hq. pose proof (ok_unique c Hok) as Hu. unfold entries in Hu. rewrite E in Hu.
    rewrite !fmap_app, !fmap_cons in Hu. apply NoDup_app in Hu as (_ & _ & Hu).
    rewrite <- Permutation_middle in Hu. apply NoDup_cons in Hu as [Hu _]. apply Hu. simpl in *.
    rewrite <- !fmap_app. apply (list_elem_of_fmap_2 (fst ∘ fst)) in Hq. by rewrite list_fmap_compose in Hq.
Qed.

Lemma closeActive_generation i c : generation (closeActiveSource i c) = generation c.
Proof. unfold closeActiveSource. by case_bool_decide. Qed.

Lemma outcome_generation (x y : controller CB * ST) : outcome x y -> generation y.1 = generation x.1.
Proof. destruct 1; simpl; try case_match; by rewrite ?closeActive_generation. Qed.

(** The streaming flag says whether there is a current source. *)
Definition flag_ok c : Prop := streaming c = bool_decide (is_Some (source c)).

Lemma outcome_flag (x y : controller CB * ST) : outcome x y -> flag_ok x.1 -> flag_ok y.1.
Proof.
  assert (forall i c s, live i c = Some s -> flag_ok (closeActiveSource i (set_completed i c))) as Hend.
  { intros i c s (_ & _ & E & _)%live_spec. unfold flag_ok, closeActiveSource. simpl. by rewrite bool_decide_true. }
  destruct 1 as [| | | | |c st i s E|c st i s us st1 b m k st2 [] E]; simpl; try done; intros _; by eapply Hend.
Qed.

End Moves.

(** ** Executions *)

Inductive action {CB : Type} :=
| Send (q : ChatCompletionRequest) (cb : CB)
| Stop
| Dispose
| Event (e : stream_event).
Arguments action : clear implicits.

Inductive callback_call :=
| CUpdate (type : StreamChunkType) (chunk : jsval)
| CComplete
| CError (message code : jsval).

Definition is_end (k : callback_call) : bool := match k with CUpdate _ _ => false | _ => true end.

Section Controller.
Context {CB ST : Type} `{EqDecision CB} `{HC : StreamClient CB ST}.
Implicit Types (c : controller CB) (s : StreamEventSource CB) (cb : CB).

(** The client together with the list of the calls it has served. *)
#[local] Instance logged : StreamClient CB (ST * list (CB * callback_call)) := {
  onUpdate cb type chunk st := st' ← onUpdate cb type chunk st.1; Some (st', st.2 ++ [(cb, CUpdate type chunk)]);
  onComplete cb st := (onComplete cb st.1, st.2 ++ [(cb, CComplete)]);
  onError cb message code st :=
    let '(st', threw) := onError cb message code st.1 in ((st', st.2 ++ [(cb, CError message code)]), threw);
}.

Abbreviation state := (controller CB * (ST * list (CB * callback_call)))%type.

Definition act (a : action CB) (x : state) : state :=
  match a with
  | Send q cb => (send q cb x.1, x.2)
  | Stop => (stop x.1, x.2)
  | Dispose => (dispose x.1, x.2)
  | Event e => on_stream_event e x
  end.

Definition run_actions (acts : list (action CB)) (x : state) : state := foldl (fun x a => act a x) x acts.

Definition start (st : ST) : state := (initial_controller, (st, [])).

Definition log (x : state) : list (CB * callback_call) := x.2.2.

Definition sent (acts : list (action CB)) : list CB :=
  omap (fun a => match a with Send _ cb => Some cb | _ => None end) acts.

(** The call that an action makes wait. *)
Definition waits (a : action CB) c : list (nat * CB * ChatCompletionRequest) :=
  match a with Send q cb => [(S (generation c), cb, q)] | _ => [] end.

Lemma act_moves a (x : state) : moves x.1 (waits a x.1) (act a x).1.
Proof.
  destruct a as [q cb| | |e]; [|apply cancel_moves..|apply on_event_moves].
  apply moves_next; [set_solver | done].
Qed.

Lemma run_app acts acts' (x : state) : run_actions (acts ++ acts') x = run_actions acts' (run_actions acts x).
Proof. apply foldl_app. Qed.

Lemma run_actions_ok acts (x : state) : ok x.1 -> ok (run_actions acts x).1.
Proof.
  revert x. induction acts as [|a acts IH]; intros x Hok; [done|]. apply IH.
  eapply moves_ok; [apply act_moves | done].
Qed.

(** ** Calls *)

Definition calls_in cb (l : list (CB * callback_call)) : list callback_call := snd <$> filter (fun e => e.1 = cb) l.

(** The calls that went to the callbacks of one request. *)
Definition calls cb (x : state) : list callback_call := calls_in cb (log x).

Lemma calls_in_app cb l l' : calls_in cb (l ++ l') = calls_in cb l ++ calls_in cb l'.
Proof. unfold calls_in. by rewrite filter_app, fmap_app. Qed.

(** A sequence of updates with at most one end, and [ended] if there is one. *)
Definition protocol (ks : list callback_call) (ended : bool) : Prop :=
  exists us, Forall (fun k => is_end k = false) us /\
    if ended then exists k, is_end k = true /\ ks = us ++ [k] else ks = us.

(** The calls made by one operation: they go to one request only. *)
Definition new_calls cb (ks : list callback_call) (x y : state) : Prop := log y = log x ++ ((fun k => (cb, k)) <$> ks).

Lemma calls_in_same cb cb' ks : calls_in cb ((fun k => (cb', k)) <$> ks) = if decide (cb' = cb) then ks else [].
Proof.
  unfold calls_in. destruct (decide (cb' = cb)) as [->|Hne]; induction ks as [|k ks IH]; try done;
    rewrite fmap_cons, filter_cons; simpl.
  - rewrite decide_True by done. simpl. by f_equal.
  - by rewrite decide_False.
Qed.

Lemma deliver_calls cb us (st : ST * list (CB * callback_call)) :
  exists ks, Forall (fun k => is_end k = false) ks /\
    (deliver_updates cb us st).1.2 = st.2 ++ ((fun k => (cb, k)) <$> ks).
Proof.
  revert st. induction us as [|u us IH]; intros st; simpl.
  - exists []. by rewrite app_nil_r.
  - destruct (onUpdate cb (u_type u) (u_chunk u) st.1) as [st'|]; simpl.
    + destruct (IH (st', st.2 ++ [(cb, CUpdate (u_type u) (u_chunk u))])) as (ks & Hks & ->).
      exists (CUpdate (u_type u) (u_chunk u) :: ks). split; [by constructor|]. simpl. by rewrite <- app_assoc.
    + exists []. by rewrite app_nil_r.
Qed.

(** The request an event concerns. *)
Definition heard c cb : Prop :=
  (exists i s, live i c = Some s /\ callbacks s = cb) \/ (exists q, (generation c, cb, q) ∈ awaiting c).

Lemma not_heard_silent c cb : ~ heard c cb -> silent cb c.
Proof. intros Hn. split; [intros i s Hs <-; apply Hn; left; eauto | intros q Hq; apply Hn; right; eauto]. Qed.

(** ** The calls of one operation *)

Definition step_calls a (x : state) : Prop :=
  exists cb ks ended, new_calls cb ks x (act a x) /\ protocol ks ended /\
    (ks <> [] -> heard x.1 cb) /\ (ended = true -> silent cb (act a x).1).

Lemma no_calls a (x : state) : log (act a x) = log x -> CB -> step_calls a x.
Proof.
  intros E cb. exists cb, [], false. split_and!; [unfold new_calls; by rewrite E, app_nil_r | by exists [] | done | done].
Qed.

(** Updates that end the request. *)
Lemma end_calls a (x : state) cb us k : new_calls cb (us ++ [k]) x (act a x) ->
  Forall (fun k => is_end k = false) us -> is_end k = true -> heard x.1 cb -> silent cb (act a x).1 -> step_calls a x.
Proof.
  intros Hc Hus Hk Hh Hs. exists cb, (us ++ [k]), true. split_and!; try done. exists us. split; [done|]. by exists k.
Qed.

Lemma act_calls a (x : state) : CB -> ok x.1 -> step_calls a x.
Proof.
  intros cb0 Hok. destruct a as [q cb| | |e]; [by apply no_calls..|].
  pose proof (on_stream_event_outcome e x) as Ho. remember (on_stream_event e x) as y eqn:Ey.
  destruct Ho as [x|c [st l] l1 w l2 E Hw|c [st l] l1 l2 cb q E|c [st l] l1 l2 cb q m E|c [st l] i s us st' E Ed
    |c [st l] i s E|c [st l] i s us st1 b m k st2 threw E Ed Eo].
  1-3: apply no_calls; [simpl; by rewrite <- Ey | done].
  - simpl in Ey. destruct (onError cb m JUndefined st) as [st' b] eqn:Eo. simpl in Ey.
    apply (end_calls _ _ cb [] (CError m JUndefined)); simpl; rewrite <- ?Ey; [done | done | done | |by eapply rejected_silent].
    right. exists q. rewrite E. set_solver.
  - destruct (deliver_calls (callbacks s) us (st, l)) as (ks & Hks & Hl). rewrite Ed in Hl.
    exists (callbacks s), ks, false. unfold new_calls, log. simpl. rewrite <- Ey.
    split_and!; [done | by exists ks | intros _; left; eauto | done].
  - apply (end_calls _ _ (callbacks s) [] CComplete); simpl; rewrite <- ?Ey; [done | done | done | left; eauto|].
    eapply (ended_silent i s c); eauto.
  - destruct (deliver_calls (callbacks s) us (st, l)) as (ks & Hks & Hl). rewrite Ed in Hl. simpl in Hl.
    destruct st1 as [st1 l1]. simpl in Hl, Eo. destruct (onError (callbacks s) m k st1) as [st3 b'] eqn:Eo'.
    injection Eo as <- <-. apply (end_calls _ _ (callbacks s) ks (CError m k)); simpl; rewrite <- ?Ey;
      [|done | done | left; eauto | eapply (ended_silent i s c); [done | done | destruct b'; eauto]].
    unfold new_calls, log. simpl. by rewrite Hl, fmap_app, app_assoc.
Qed.

Lemma new_calls_in cb cb' ks (x y : state) : new_calls cb' ks x y ->
  calls cb y = calls cb x ++ (if decide (cb' = cb) then ks else []).
Proof. unfold new_calls, calls. intros ->. by rewrite calls_in_app, calls_in_same. Qed.

Lemma heard_silent c cb : heard c cb -> silent cb c -> False.
Proof. intros [(i & s & Hl & <-)|[q Hq]] [H1 H2]; [by eapply H1 | by eapply H2]. Qed.

Lemma waits_other a c cb w : cb ∉ sent [a] -> w ∈ waits a c -> w.1.2 <> cb.
Proof. destruct a as [q cb'| | |e]; simpl; set_solver. Qed.

Lemma act_silent a (x : state) cb : ok x.1 -> cb ∉ sent [a] -> silent cb x.1 ->
  silent cb (act a x).1 /\ calls cb (act a x) = calls cb x.
Proof.
  intros Hok Hs Hsil. split.
  - eapply silent_moves; [apply act_moves | done | by intros w; apply waits_other | done].
  - destruct (act_calls a x cb Hok) as (cb' & ks & ended & Hc & _ & Hh & _).
    rewrite (new_calls_in cb _ _ _ _ Hc). case_decide as E; [|by rewrite app_nil_r]. subst cb'.
    destruct ks as [|k ks]; [by rewrite app_nil_r|]. destruct (heard_silent x.1 cb); [by apply Hh | done].
Qed.

Lemma sent_app acts acts' : sent (acts ++ acts') = sent acts ++ sent acts'.
Proof. apply omap_app. Qed.

Lemma run_silent acts (x : state) cb : ok x.1 -> cb ∉ sent acts -> silent cb x.1 ->
  silent cb (run_actions acts x).1 /\ calls cb (run_actions acts x) = calls cb x.
Proof.
  revert x. induction acts as [|a acts IH]; intros x Hok Hs Hsil; [done|].
  change (a :: acts) with ([a] ++ acts) in Hs. rewrite sent_app in Hs.
  destruct (act_silent a x cb) as [H1 H2]; [done | set_solver | done|].
  destruct (IH (act a x)) as [H3 H4]; [eapply moves_ok; [apply act_moves | done] | set_solver | done|].
  split; [exact H3 | by rewrite <- H2].
Qed.

(** How far a request has come. *)
Definition progress cb (unsent : bool) (x : state) : Prop :=
  if unsent then silent cb x.1 /\ calls cb x = []
  else exists ended, protocol (calls cb x) ended /\ (ended = true -> silent cb x.1).

Lemma progress_sent cb b (x : state) : progress cb b x ->
  exists ended, protocol (calls cb x) ended /\ (ended = true -> silent cb x.1).
Proof. destruct b; [|done]. intros [_ ->]. exists false. split; [by exists [] | done]. Qed.

Lemma act_progress cb a (x : state) : ok x.1 -> cb ∉ sent [a] ->
  (exists ended, protocol (calls cb x) ended /\ (ended = true -> silent cb x.1)) ->
  exists ended, protocol (calls cb (act a x)) ended /\ (ended = true -> silent cb (act a x).1).
Proof.
  intros Hok Hs ([] & Hp & Hsil).
  { destruct (act_silent a x cb Hok Hs (Hsil eq_refl)) as [H1 H2]. exists true. by rewrite H2. }
  destruct (act_calls a x cb Hok) as (cb' & ks & ended & Hc & Hpk & _ & Hend).
  rewrite (new_calls_in cb _ _ _ _ Hc). destruct (decide (cb' = cb)) as [->|Hne].
  - exists ended. split; [|done]. destruct Hp as (us & Hus & ->), Hpk as (us' & Hus' & Hk).
    exists (us ++ us'). split; [by apply Forall_app|]. destruct ended; [|by rewrite Hk].
    destruct Hk as (k & Hk & ->). exists k. by rewrite app_assoc.
  - exists false. rewrite app_nil_r. by split.
Qed.

Lemma run_progress st acts cb : NoDup (sent acts) ->
  progress cb (bool_decide (cb ∉ sent acts)) (run_actions acts (start st)).
Proof.
  induction acts as [|a acts IH] using rev_ind; intros Hnd.
  { simpl. split; [|done]. split; [by intros i s (? & _)%live_spec | simpl; set_solver]. }
  rewrite sent_app in *. apply NoDup_app in Hnd as (Hnd & Hdis & _). specialize (IH Hnd).
  rewrite run_app. set (x := run_actions acts (start st)) in *.
  assert (ok x.1) as Hok by (apply run_actions_ok, ok_initial). clearbody x. change (run_actions [a] x) with (act a x).
  destruct (decide (cb ∈ sent [a])) as [Hin|Hout].
  - rewrite bool_decide_true in IH by (intros H; by apply (Hdis cb)).
    rewrite bool_decide_false by set_solver. destruct IH as [_ IH]. exists false. split; [|done]. exists []. split; [done|].
    destruct a as [q cb'| | |e]; [exact IH | set_solver..].
  - destruct (decide (cb ∈ sent acts)) as [Hin|Hout'].
    + rewrite bool_decide_false in IH by tauto. rewrite bool_decide_false by set_solver. by apply act_progress.
    + rewrite bool_decide_true in IH by done. rewrite bool_decide_true by set_solver. destruct IH as [H1 H2].
      destruct (act_silent a x cb) as [H3 H4]; [done..|]. split; [done | congruence].
Qed.

(** A call of [send], [stop] or [dispose] silences every earlier request. *)
Lemma renewal_silent a (x : state) cb : ok x.1 -> (forall e, a <> Event e) -> cb ∉ sent [a] -> silent cb (act a x).1.
Proof.
  intros Hok Ha Hs. destruct a as [q cb'| | |e]; [| | |by destruct (Ha e)].
  all: split; [by intros i s (_ & _ & ? & _)%live_spec|]; intros q' Hq; simpl in Hq.
  all: assert ((S (generation x.1), cb, q') ∈ awaiting x.1) as Hq' by (try done; set_solver).
  all: pose proof (ok_bound x.1 Hok (S (generation x.1), cb)) as Hb; simpl in Hb.
  all: enough (S (generation x.1) <= generation x.1)%nat by lia; apply Hb, elem_of_app; right.
  all: by apply (list_elem_of_fmap_2 fst _ _ Hq').
Qed.

Lemma run_streaming st acts : Dispose ∉ acts -> flag_ok (run_actions acts (start st)).1.
Proof.
  induction acts as [|a acts IH] using rev_ind; intros Hd; [done|]. rewrite run_app.
  specialize (IH ltac:(set_solver)). change (run_actions [a] ?x) with (act a x).
  destruct a as [q cb| | |e]; [done | done | set_solver|]. by apply (outcome_flag _ _ (on_stream_event_outcome e _)).
Qed.

(** ** Theorems *)

(** At most one stream is open: after any sequence of calls and events, every
    source the controller has created is closed except the current one, which
    belongs to the last call of [send], and the streaming flag says whether there
    is a current source until the controller is disposed of. *)
Theorem one_open_source st acts :
  let c := (run_actions acts (start st)).1 in
  (forall i s, sources c !! i = Some s -> closed s = negb (bool_decide (source c = Some i))) /\
  (forall i, source c = Some i -> exists s, sources c !! i = Some s /\ requestGeneration s = generation c) /\
  (Dispose ∉ acts -> streaming c = bool_decide (is_Some (source c))).
Proof.
  intros c. assert (ok c) as [H1 H2 _ _] by (apply run_actions_ok, ok_initial). split_and!.
  - intros i s Hs. case_bool_decide as Hi; [|by apply (H2 i)].
    destruct (H1 i Hi) as (s' & Hs' & _ & Hc). simpl. congruence.
  - intros i Hi. destruct (H1 i Hi) as (s & ? & ? & _). eauto.
  - apply run_streaming.
Qed.

(** C27: the callbacks of a request are used by protocol: if no two calls of
    [send] share their callbacks, then after any sequence of calls and events those
    of a request have been given a sequence of updates, followed by at most one
    completion or error and by nothing after it. *)
Theorem stream_protocol st acts cb :
  NoDup (sent acts) -> exists ended, protocol (calls cb (run_actions acts (start st))) ended.
Proof.
  intros Hnd. destruct (progress_sent cb _ _ (run_progress st acts cb Hnd)) as (ended & Hp & _). eauto.
Qed.

(** The last request wins: once another [send], a [stop] or a [dispose] has
    been called, the callbacks of an earlier request are never used again, whatever
    headers and events still arrive. *)
Theorem superseded_request_silent st before a after cb :
  (forall e, a <> Event e) -> cb ∉ sent (a :: after) ->
  calls cb (run_actions (before ++ a :: after) (start st)) = calls cb (run_actions before (start st)).
Proof.
  intros Ha Hs. rewrite run_app. set (x := run_actions before (start st)).
  assert (ok x.1) as Hok by (apply run_actions_ok, ok_initial). clearbody x.
  change (a :: after) with ([a] ++ after) in *. rewrite sent_app in Hs. rewrite run_app. change (run_actions [a] x) with (act a x).
  destruct (run_silent after (act a x) cb) as [_ ->].
  - eapply moves_ok; [apply act_moves | done].
  - set_solver.
  - apply renewal_silent; [done | done | set_solver].
  - unfold calls, log. destruct a as [q cb'| | |e]; [done..|by destruct (Ha e)].
Qed.
End Controller.

(** ** An execution *)

(** A client that accepts every call. *)
Definition idle_client : StreamClient nat unit :=
  {| onUpdate := fun _ _ _ st => Some st; onComplete := fun _ st => st; onError := fun _ _ _ st => (st, false) |}.

Definition no_payload : ChatCompletionRequest :=
  {| q_model := []; q_group := []; q_messages := []; q_stream := true; q_temperature := None; q_top_p := None;
     q_max_tokens := None; q_frequency_penalty := None; q_presence_penalty := None; q_seed := None |}.

Definition content_event (i : nat) : stream_event :=
  MessageEvent i (Some (single_quoted "{'choices':[{'delta':{'content':'hi'}}]}")).

(** A second request replaces the first, whose source still delivers a message;
    the second ends. *)
Definition two_requests : list (action nat) :=
  [Send no_payload 1; Event (HeadersResolved 1); Event (content_event 0); Send no_payload 2; Event (content_event 0);
   Event (HeadersResolved 2); Event (content_event 1); Event (MessageEvent 1 (Some STREAM_DONE_MESSAGE));
   Event (content_event 1)]%nat.

Example two_requests_calls :
  (fun cb => calls cb (run_actions (HC := idle_client) two_requests (start tt))) <$> [1; 2]%nat =
  [[CUpdate ContentChunk (JStr (js "hi"))]; [CUpdate ContentChunk (JStr (js "hi")); CComplete]].
Proof. vm_compute. reflexivity. Qed.

Lemma one_open_source_witness :
  let c := (run_actions (HC := idle_client) (take 7 two_requests) (start tt)).1 in
  (closed <$> sources c) = [true; false] /\ streaming c = true.
Proof.
  intros c. split; [reflexivity|].
  refine (eq_trans (proj2 (proj2 (one_open_source (HC := idle_client) tt (take 7 two_requests))) _) _); [|reflexivity].
  unfold two_requests. cbn [take]. rewrite !not_elem_of_cons. split_and!; try discriminate. apply not_elem_of_nil.
Defined.

Lemma stream_protocol_witness :
  exists ended, protocol (calls 2%nat (run_actions (HC := idle_client) two_requests (start tt))) ended.
Proof.
  apply (stream_protocol (HC := idle_client) tt two_requests 2%nat).
  apply (bool_decide_unpack _). vm_compute. exact I.
Defined.

Lemma superseded_request_silent_witness :
  calls 1%nat (run_actions (HC := idle_client) (take 3 two_requests ++ Send no_payload 2%nat :: drop 4 two_requests) (start tt)) =
  calls 1%nat (run_actions (HC := idle_client) (take 3 two_requests) (start tt)).
Proof.
  apply (superseded_request_silent (HC := idle_client) tt).
  - discriminate.
  - apply (bool_decide_unpack _). vm_compute. exact I.
Defined.

End StreamFacts.
