(* ===== verification/PlaygroundChat.v ===== *)
(** * Playground chat handler

    Model of [features/playground/hooks/use-chat-handler.ts],
    [hooks/use-playground-conversation.ts] and of the message state of
    [hooks/use-playground-state.ts], composed with the stream controller.

    The refs and states of the hooks are a record.  [onMessageUpdate] hands React
    an updater: React keeps it in a queue and calls it, in order, when it renders,
    and may call it at once when the queue is empty.  Which it does is React's
    choice, the parameter [eager].  [rendered] are the messages of the last render,
    which the closures of the components see; [messages] is React's state.  An updater is the data its closure captures;
    it reads [requestGenerationRef] when it is called.

    [readings] are the successive results of [Date.now()]; an updater has four of
    them at its disposal.  Timers are those set and neither fired nor cleared. *)

From stdpp Require Import base list numbers strings.
From Stdlib Require Import ZArith SpecFloat Lia.
From S2P Require Import Prelude.
From S2P Require Import JsString.
From S2P Require Import JsNumber.
From S2P Require Import JsValue.
From S2P Require Import JsJson.
From S2P Require Import PlaygroundMessages.
From S2P Require Import PlaygroundStream.

Module Chat.
Import Playground.
Import Stream.

(** ** State *)

Record PendingStreamChunks := { p_generation : nat; p_content : jstr; p_reasoning : jstr }.

(** The updaters handed to [onMessageUpdate], with what they capture. *)
Inductive updater :=
| FlushUpdate (g : nat) (chunks : PendingStreamChunks)
| CompleteUpdate (g : nat)
| ErrorUpdate (g : nat) (displayError : jstr) (errorCode : jsval) (errorTitle : jstr)
| ResponseUpdate (g : nat) (response : list ChatCompletionChoice)
| StopUpdate (g : nat)
| ReplaceUpdate (ms : list Message)
| RemoveUpdate (messageKey : jstr).

(** A call of [sendNonStreamingChat] that waits for its response. *)
Record plain_request := { n_generation : nat; n_aborted : bool; n_payload : ChatCompletionRequest }.

Record chat := {
  requestGenerationRef : nat;
  isRequesting : bool;
  abortControllerRef : option nat;
  requests : list plain_request;
  settled : list nat;
  pendingStreamChunksRef : PendingStreamChunks;
  streamFlushTimerRef : option nat;
  timers : list (nat * nat);
  nextTimer : nat;
  rendered : list Message;
  messages : list Message;
  queue : list updater;
  clock : nat;
  reported : list jstr;
}.

Definition no_chunks (g : nat) : PendingStreamChunks := {| p_generation := g; p_content := []; p_reasoning := [] |}.

Definition initial_chat (ms : list Message) : chat :=
  {| requestGenerationRef := 0; isRequesting := false; abortControllerRef := None; requests := []; settled := [];
     pendingStreamChunksRef := no_chunks 0; streamFlushTimerRef := None; timers := []; nextTimer := 0;
     rendered := ms; messages := ms; queue := []; clock := 0; reported := [] |}.

Definition set_generation (g : nat) (h : chat) : chat :=
  {| requestGenerationRef := g; isRequesting := isRequesting h; abortControllerRef := abortControllerRef h;
     requests := requests h; settled := settled h; pendingStreamChunksRef := pendingStreamChunksRef h;
     streamFlushTimerRef := streamFlushTimerRef h; timers := timers h; nextTimer := nextTimer h;
     rendered := rendered h; messages := messages h; queue := queue h; clock := clock h; reported := reported h |}.

Definition setIsRequesting (b : bool) (h : chat) : chat :=
  {| requestGenerationRef := requestGenerationRef h; isRequesting := b; abortControllerRef := abortControllerRef h;
     requests := requests h; settled := settled h; pendingStreamChunksRef := pendingStreamChunksRef h;
     streamFlushTimerRef := streamFlushTimerRef h; timers := timers h; nextTimer := nextTimer h;
     rendered := rendered h; messages := messages h; queue := queue h; clock := clock h; reported := reported h |}.

Definition set_abort (a : option nat) (l : list plain_request) (h : chat) : chat :=
  {| requestGenerationRef := requestGenerationRef h; isRequesting := isRequesting h; abortControllerRef := a;
     requests := l; settled := settled h; pendingStreamChunksRef := pendingStreamChunksRef h;
     streamFlushTimerRef := streamFlushTimerRef h; timers := timers h; nextTimer := nextTimer h;
     rendered := rendered h; messages := messages h; queue := queue h; clock := clock h; reported := reported h |}.

Definition set_settled (l : list nat) (h : chat) : chat :=
  {| requestGenerationRef := requestGenerationRef h; isRequesting := isRequesting h;
     abortControllerRef := abortControllerRef h; requests := requests h; settled := l;
     pendingStreamChunksRef := pendingStreamChunksRef h;
     streamFlushTimerRef := streamFlushTimerRef h; timers := timers h; nextTimer := nextTimer h;
     rendered := rendered h; messages := messages h; queue := queue h; clock := clock h; reported := reported h |}.

Definition set_pending (p : PendingStreamChunks) (h : chat) : chat :=
  {| requestGenerationRef := requestGenerationRef h; isRequesting := isRequesting h;
     abortControllerRef := abortControllerRef h; requests := requests h; settled := settled h;
     pendingStreamChunksRef := p; streamFlushTimerRef := streamFlushTimerRef h; timers := timers h;
     nextTimer := nextTimer h; rendered := rendered h; messages := messages h; queue := queue h; clock := clock h; reported := reported h |}.

Definition set_timer (ref : option nat) (l : list (nat * nat)) (next : nat) (h : chat) : chat :=
  {| requestGenerationRef := requestGenerationRef h; isRequesting := isRequesting h;
     abortControllerRef := abortControllerRef h; requests := requests h; settled := settled h;
     pendingStreamChunksRef := pendingStreamChunksRef h; streamFlushTimerRef := ref; timers := l;
     nextTimer := next; rendered := rendered h; messages := messages h; queue := queue h; clock := clock h; reported := reported h |}.

Definition set_messages (shown ms : list Message) (q : list updater) (tick : nat) (h : chat) : chat :=
  {| requestGenerationRef := requestGenerationRef h; isRequesting := isRequesting h;
     abortControllerRef := abortControllerRef h; requests := requests h; settled := settled h;
     pendingStreamChunksRef := pendingStreamChunksRef h; streamFlushTimerRef := streamFlushTimerRef h;
     timers := timers h; nextTimer := nextTimer h; rendered := shown; messages := ms;
     queue := q; clock := tick; reported := reported h |}.

Definition report (e : jstr) (h : chat) : chat :=
  {| requestGenerationRef := requestGenerationRef h; isRequesting := isRequesting h;
     abortControllerRef := abortControllerRef h; requests := requests h; settled := settled h;
     pendingStreamChunksRef := pendingStreamChunksRef h; streamFlushTimerRef := streamFlushTimerRef h;
     timers := timers h; nextTimer := nextTimer h; rendered := rendered h; messages := messages h; queue := queue h; clock := clock h;
     reported := reported h ++ [e] |}.

(** ** Message updates *)

(** The function of the message a flush applies. *)
Definition flush_message (chunks : PendingStreamChunks) (now : nat -> f64) (m : Message) : Message :=
  let m1 := match p_reasoning chunks with
            | [] => m
            | r => applyStreamingChunk m ReasoningChunk r (now 0%nat) (now 1%nat)
            end in
  match p_content chunks with
  | [] => m1
  | c => applyStreamingChunk m1 ContentChunk c (now 2%nat) (now 3%nat)
  end.

Definition complete_message (now : nat -> f64) (m : Message) : Message :=
  completeAssistantMessage m (now 0%nat) (now 1%nat) (now 2%nat).

(** [updater(prev)] while [requestGenerationRef.current] is [current]. *)
Definition call_updater (u : updater) (current : nat) (now : nat -> f64) (prev : list Message) : list Message :=
  match u with
  | FlushUpdate g chunks =>
      if negb (Nat.eqb g current) then prev else updateLastAssistantMessage prev (flush_message chunks now)
  | CompleteUpdate g =>
      if negb (Nat.eqb g current) then prev
      else updateLastAssistantMessage prev (fun m => if isAssistantMessageFinal m then m else complete_message now m)
  | ErrorUpdate g displayError errorCode errorTitle =>
      if negb (Nat.eqb g current) then prev
      else updateAssistantMessageWithError prev displayError errorCode errorTitle (now 0%nat)
  | ResponseUpdate g response =>
      if negb (Nat.eqb current g) then prev
      else updateLastAssistantMessage prev (fun m =>
             default m (applyChatCompletionResponse m response (now 0%nat) (now 1%nat) (now 2%nat)))
  | StopUpdate g =>
      if negb (Nat.eqb current g) then prev
      else updateLastAssistantMessage prev (fun m =>
             if isAssistantMessagePending m then complete_message now m else m)
  | ReplaceUpdate ms => ms
  | RemoveUpdate messageKey => removeMessageByKey prev messageKey
  end.

Section Handler.
Context (eager : chat -> bool) (readings : nat -> f64) (t : jstr -> jstr).

Definition now_at (tick k : nat) : f64 := readings (4 * tick + k)%nat.

Definition onMessageUpdate (u : updater) (h : chat) : chat :=
  if bool_decide (queue h = []) && eager h
  then set_messages (rendered h) (call_updater u (requestGenerationRef h) (now_at (clock h)) (messages h)) [] (S (clock h)) h
  else set_messages (rendered h) (messages h) (queue h ++ [u]) (clock h) h.

(** The queued updaters in order. *)
Fixpoint call_all (us : list updater) (current tick : nat) (ms : list Message) : list Message * nat :=
  match us with
  | [] => (ms, tick)
  | u :: us' => call_all us' current (S tick) (call_updater u current (now_at tick) ms)
  end.

(** React renders. *)
Definition render (h : chat) : chat :=
  let '(ms, tick) := call_all (queue h) (requestGenerationRef h) (clock h) (messages h) in
  set_messages ms ms [] tick h.

(** ** use-chat-handler.ts *)

(** [None] when [nextChunk] has no [startsWith]: the call throws. *)
Definition mergePendingStreamChunk (currentChunk : jstr) (nextChunk : jsval) : option jstr :=
  match currentChunk, nextChunk with
  | [], _ => Some (text_of nextChunk)
  | _, JStr chunk => Some (if negb (starts_with currentChunk chunk) then currentChunk ++ chunk else chunk)
  | _, _ => None
  end.

(** [window.clearTimeout(id)] *)
Definition clear_timeout (id : nat) (l : list (nat * nat)) : list (nat * nat) := filter (fun e => e.1 <> id) l.

Definition clear_flush_timer (h : chat) : chat :=
  match streamFlushTimerRef h with
  | Some id => set_timer None (clear_timeout id (timers h)) (nextTimer h) h
  | None => h
  end.

Definition discardPendingStreamUpdates (g : nat) (h : chat) : chat := set_pending (no_chunks g) (clear_flush_timer h).

Definition flushStreamUpdates (g : nat) (h : chat) : chat :=
  if negb (Nat.eqb g (requestGenerationRef h)) then h
  else
    let h1 := clear_flush_timer h in
    let pendingChunks := pendingStreamChunksRef h1 in
    if negb (Nat.eqb (p_generation pendingChunks) g) then h1
    else match p_reasoning pendingChunks, p_content pendingChunks with
         | [], [] => h1
         | _, _ => onMessageUpdate (FlushUpdate g pendingChunks) (set_pending (no_chunks g) h1)
         end.

Definition scheduleStreamFlush (g : nat) (h : chat) : chat :=
  if negb (Nat.eqb g (requestGenerationRef h)) then h
  else match streamFlushTimerRef h with
       | Some _ => h
       | None => set_timer (Some (nextTimer h)) (timers h ++ [(nextTimer h, g)]) (S (nextTimer h)) h
       end.

(** A timer fires: the browser drops it and calls its function. *)
Definition timer_fires (id : nat) (h : chat) : chat :=
  match list_find (fun e => e.1 = id) (timers h) with
  | Some (_, (_, g)) =>
      flushStreamUpdates g (set_timer (streamFlushTimerRef h) (clear_timeout id (timers h)) (nextTimer h) h)
  | None => h
  end.

Definition KNOWN_ERROR_MESSAGES : list jstr :=
  [API_REQUEST_ERROR; NETWORK_ERROR; PARSE_ERROR; STREAM_START_ERROR; CONNECTION_CLOSED; INTERRUPTED].

Definition ends_with (s suffix : jstr) : bool := starts_with (rev suffix) (rev s).

(** [None] when [error] has no [endsWith]: the call throws. *)
Definition getDisplayError (error : jsval) : option jstr :=
  match error with
  | JStr e =>
      Some (if existsb (jeqb e) KNOWN_ERROR_MESSAGES then t e
            else if ends_with e (js ": " ++ CONNECTION_CLOSED)
                 then take (length e - length CONNECTION_CLOSED) e ++ t CONNECTION_CLOSED
                 else e)
  | _ => None
  end.

Definition update_pending (type : StreamChunkType) (text : jstr) (p : PendingStreamChunks) : PendingStreamChunks :=
  match type with
  | ReasoningChunk => {| p_generation := p_generation p; p_content := p_content p; p_reasoning := text |}
  | ContentChunk => {| p_generation := p_generation p; p_content := text; p_reasoning := p_reasoning p |}
  end.

Definition pending_text (type : StreamChunkType) (p : PendingStreamChunks) : jstr :=
  match type with ReasoningChunk => p_reasoning p | ContentChunk => p_content p end.

Definition handleStreamUpdate (g : nat) (type : StreamChunkType) (chunk : jsval) (h : chat) : option chat :=
  let p := pendingStreamChunksRef h in
  if negb (Nat.eqb g (requestGenerationRef h)) then Some h
  else if negb (Nat.eqb (p_generation p) g) then Some h
  else
    text ← mergePendingStreamChunk (pending_text type p) chunk;
    Some (scheduleStreamFlush g (set_pending (update_pending type text p) h)).

Definition handleStreamComplete (g : nat) (h : chat) : chat :=
  if negb (Nat.eqb g (requestGenerationRef h)) then h
  else onMessageUpdate (CompleteUpdate g) (setIsRequesting false (flushStreamUpdates g h)).

(** [handleServerError] shows the error; a new [Error] is never reported yet. *)
Definition handleStreamError (g : nat) (error errorCode : jsval) (h : chat) : chat * bool :=
  if negb (Nat.eqb g (requestGenerationRef h)) then (h, false)
  else
    let h1 := setIsRequesting false (flushStreamUpdates g h) in
    match getDisplayError error with
    | None => (h1, true)
    | Some displayError =>
        (onMessageUpdate (ErrorUpdate g displayError errorCode (t API_REQUEST_ERROR)) (report displayError h1), false)
    end.

(** The callbacks that [sendStreamingChat] gives the controller capture the
    generation. *)
#[export] Instance chat_client : StreamClient nat chat := {
  onUpdate := handleStreamUpdate;
  onComplete := handleStreamComplete;
  onError := handleStreamError;
}.

(** [abortControllerRef.current?.abort()] *)
Definition abort_request (r : plain_request) : plain_request :=
  {| n_generation := n_generation r; n_aborted := true; n_payload := n_payload r |}.
Definition abort_opt (o : option nat) (l : list plain_request) : list plain_request :=
  match o with Some i => alter abort_request i l | None => l end.

Definition chat_system : Type := controller nat * chat.

Definition sendStreamingChat (config : PlaygroundConfig) (en : ParameterEnabled) (ms : list Message) (s : chat_system)
    : chat_system :=
  let '(c, h) := s in
  let g := S (requestGenerationRef h) in
  let h1 := set_abort None (abort_opt (abortControllerRef h) (requests h)) (set_generation g h) in
  let h2 := setIsRequesting true (discardPendingStreamUpdates g h1) in
  (send (buildChatCompletionPayload ms config en) g c, h2).

(** [sendNonStreamingChat] up to the [await] of its response. *)
Definition sendNonStreamingChat (config : PlaygroundConfig) (en : ParameterEnabled) (ms : list Message) (s : chat_system)
    : chat_system :=
  let '(c, h) := s in
  let g := S (requestGenerationRef h) in
  let h1 := discardPendingStreamUpdates g (set_generation g h) in
  let h2 := set_abort (Some (length (requests h)))
              (abort_opt (abortControllerRef h1) (requests h1)
               ++ [{| n_generation := g; n_aborted := false; n_payload := buildChatCompletionPayload ms config en |}]) h1 in
  (stop c, setIsRequesting true h2).

(** The [finally] block. *)
Definition finish_request (g : nat) (h : chat) : chat :=
  if Nat.eqb (requestGenerationRef h) g then setIsRequesting false (set_abort None (requests h) h) else h.

(** The response of request [i], or its rejection: the rest of
    [sendNonStreamingChat]. *)
Definition request_settled (i : nat) (outcome : list ChatCompletionChoice + jsval) (h : chat) : chat :=
  match requests h !! i with
  | Some r =>
      if bool_decide (i ∈ settled h) then h
      else
        let h0 := set_settled (i :: settled h) h in
        let g := n_generation r in
        let h1 :=
          if n_aborted r || negb (Nat.eqb (requestGenerationRef h0) g) then h0
          else match outcome with
               | inl response =>
                   if hasChatCompletionChoice response then onMessageUpdate (ResponseUpdate g response) h0
                   else fst (handleStreamError g (JStr API_REQUEST_ERROR) JUndefined h0)
               | inr error =>
                   let details := parseRequestErrorDetails error in
                   fst (handleStreamError g (d_errorMessage details) (d_errorCode details) h0)
               end in
        finish_request g h1
  | None => h
  end.

Definition sendChat (config : PlaygroundConfig) (en : ParameterEnabled) (ms : list Message) (s : chat_system) : chat_system :=
  if stream config then sendStreamingChat config en ms s else sendNonStreamingChat config en ms s.

Definition stopGeneration (s : chat_system) : chat_system :=
  let '(c, h) := s in
  let stoppedGeneration := requestGenerationRef h in
  let h1 := flushStreamUpdates stoppedGeneration h in
  let idleGeneration := S stoppedGeneration in
  let h2 := discardPendingStreamUpdates idleGeneration (set_generation idleGeneration h1) in
  let h3 := setIsRequesting false (set_abort None (abort_opt (abortControllerRef h2) (requests h2)) h2) in
  (stop c, onMessageUpdate (StopUpdate idleGeneration) h3).

(** The cleanups of the two hooks when the component goes away. *)
Definition unmount (s : chat_system) : chat_system :=
  let '(c, h) := s in
  let h1 := set_generation (S (requestGenerationRef h)) h in
  let h2 := match streamFlushTimerRef h1 with
            | Some id => set_timer (Some id) (clear_timeout id (timers h1)) (nextTimer h1) h1
            | None => h1
            end in
  (dispose c, set_abort None (abort_opt (abortControllerRef h2) (requests h2)) h2).

(** [isStreaming || isRequesting] *)
Definition isGenerating (s : chat_system) : bool := streaming s.1 || isRequesting s.2.

(** ** use-playground-conversation.ts *)

Definition on_chat (f : chat -> chat) (s : chat_system) : chat_system := (s.1, f s.2).

(** The keys and version identifiers are those [nanoid] makes.  [messages] of the
    hook are those of the last render. *)
Definition handleSendMessage (config : PlaygroundConfig) (en : ParameterEnabled) (text k1 id1 k2 id2 : jstr)
    (submittedAt : f64) (s : chat_system) : chat_system :=
  let nextMessages := appendUserMessagePair (rendered s.2) text k1 id1 k2 id2 submittedAt in
  sendChat config en nextMessages (on_chat (onMessageUpdate (ReplaceUpdate nextMessages)) s).

Definition handleRegenerateMessage (config : PlaygroundConfig) (en : ParameterEnabled) (messageKey k id : jstr)
    (startedAt : f64) (s : chat_system) : chat_system :=
  match createRegeneratedMessages (rendered s.2) messageKey k id startedAt with
  | Some nextMessages => sendChat config en nextMessages (on_chat (onMessageUpdate (ReplaceUpdate nextMessages)) s)
  | None => s
  end.

Definition applyEdit (config : PlaygroundConfig) (en : ParameterEnabled) (editingMessageKey : option jstr)
    (newContent : jstr) (shouldSubmit : bool) (k id : jstr) (submittedAt : f64) (s : chat_system)
    : option jstr * chat_system :=
  match editingMessageKey with
  | None | Some [] => (editingMessageKey, s)
  | Some editing =>
      match applyMessageEdit (rendered s.2) editing newContent shouldSubmit k id submittedAt with
      | None => (editingMessageKey, s)
      | Some (ms, shouldSend) =>
          let s1 := on_chat (onMessageUpdate (ReplaceUpdate ms)) s in
          (None, if shouldSend then sendChat config en ms s1 else s1)
      end
  end.

Definition handleDeleteMessage (messageKey : jstr) (s : chat_system) : chat_system :=
  on_chat (onMessageUpdate (RemoveUpdate messageKey)) s.

(** ** One turn of the event loop *)

Inductive turn :=
| TSend (config : PlaygroundConfig) (en : ParameterEnabled) (text k1 id1 k2 id2 : jstr) (submittedAt : f64)
| TRegenerate (config : PlaygroundConfig) (en : ParameterEnabled) (messageKey k id : jstr) (startedAt : f64)
| TEdit (config : PlaygroundConfig) (en : ParameterEnabled) (editingMessageKey : option jstr) (newContent : jstr)
    (shouldSubmit : bool) (k id : jstr) (submittedAt : f64)
| TDelete (messageKey : jstr)
| TStop
| TStream (e : stream_event)
| TTimer (id : nat)
| TSettled (i : nat) (outcome : list ChatCompletionChoice + jsval)
| TRender
| TUnmount.

Definition take_turn (a : turn) (s : chat_system) : chat_system :=
  match a with
  | TSend config en text k1 id1 k2 id2 at' => handleSendMessage config en text k1 id1 k2 id2 at' s
  | TRegenerate config en messageKey k id at' => handleRegenerateMessage config en messageKey k id at' s
  | TEdit config en editing newContent shouldSubmit k id at' =>
      snd (applyEdit config en editing newContent shouldSubmit k id at' s)
  | TDelete messageKey => handleDeleteMessage messageKey s
  | TStop => stopGeneration s
  | TStream e => on_stream_event e s
  | TTimer id => on_chat (timer_fires id) s
  | TSettled i outcome => on_chat (request_settled i outcome) s
  | TRender => on_chat render s
  | TUnmount => unmount s
  end.

Definition turns (l : list turn) (s : chat_system) : chat_system := foldl (fun s a => take_turn a s) s l.
End Handler.
End Chat.
