(* ===== verification/PlaygroundChatFacts.v ===== *)
(** * Properties of the chat handler

    The invariant that ties the hook to the stream controller, what a stop
    guarantees, that no request hangs on the program's side, and what batching the
    chunks does to the text. *)

From stdpp Require Import base list numbers strings sets.
From Stdlib Require Import ZArith SpecFloat Lia.
From S2P Require Import Prelude.
From S2P Require Import JsString.
From S2P Require Import JsNumber.
From S2P Require Import JsValue.
From S2P Require Import JsJson.
From S2P Require Import PlaygroundMessages.
From S2P Require Import PlaygroundFacts.
From S2P Require Import PlaygroundStream.
From S2P Require Import PlaygroundStreamFacts.
From S2P Require Import PlaygroundChat.

Module ChatFacts.
Import Playground.
Import PlaygroundFacts.
Import Stream.
Import StreamFacts.
Import Chat.

Section Handler.
Context (eager : chat -> bool) (readings : nat -> f64) (t : jstr -> jstr).

#[local] Existing Instance chat_client.
Abbreviation update := (onMessageUpdate eager readings).
Abbreviation flush := (flushStreamUpdates eager readings).
Abbreviation go := (turns eager readings t).
Abbreviation client := (chat_client eager readings t).
Abbreviation chat_event := (on_stream_event (H := client)).

(** ** Frames *)

(** [onMessageUpdate] touches the messages only. *)
Lemma update_frame u h : exists ms q tick, update u h = set_messages (rendered h) ms q tick h.
Proof. unfold onMessageUpdate. case_match; by eexists _, _, _. Qed.

Lemma flush_other g h : g <> requestGenerationRef h -> flush g h = h.
Proof. intros Hg. unfold flushStreamUpdates. by rewrite (proj2 (Nat.eqb_neq _ _) Hg). Qed.

(** A flush of the current generation clears the timer and leaves no chunks. *)
Lemma flush_frame h : p_generation (pendingStreamChunksRef h) = requestGenerationRef h ->
  exists ms q tick, flush (requestGenerationRef h) h
    = set_messages (rendered h) ms q tick
        (set_pending (no_chunks (requestGenerationRef h)) (clear_flush_timer h)).
Proof.
  intros Hp. unfold flushStreamUpdates. rewrite Nat.eqb_refl. simpl.
  assert (pendingStreamChunksRef (clear_flush_timer h) = pendingStreamChunksRef h
          /\ rendered (clear_flush_timer h) = rendered h) as [-> Hr]
    by (unfold clear_flush_timer; by case_match).
  rewrite Hp, Nat.eqb_refl. simpl.
  destruct (p_reasoning (pendingStreamChunksRef h)) eqn:Er, (p_content (pendingStreamChunksRef h)) eqn:Ec.
  2-4: destruct (update_frame (FlushUpdate (requestGenerationRef h) (pendingStreamChunksRef h))
         (set_pending (no_chunks (requestGenerationRef h)) (clear_flush_timer h))) as (ms & q & tick & ->);
       exists ms, q, tick; by rewrite <- Hr.
  exists (messages h), (queue h), (clock h).
  assert (pendingStreamChunksRef h = no_chunks (requestGenerationRef h)) as E.
  { destruct (pendingStreamChunksRef h). simpl in *. by subst. }
  unfold clear_flush_timer. destruct h. simpl in *. case_match; by rewrite E.
Qed.

(** ** The invariant *)

(** What a request in progress waits for. *)
Definition awaited (s : chat_system) : Prop :=
  let '(c, h) := s in
  let g := requestGenerationRef h in
  (exists q, (g, g, q) ∈ awaiting c) \/
  (exists i src, live i c = Some src) \/
  (exists i r, requests h !! i = Some r /\ n_generation r = g /\ n_aborted r = false /\ (i ∉ settled h) /\
     source c = None).

(** Without [strict] a request may be in progress that waits for nothing, as
    inside the code that ends it. *)
Record sys_inv {strict : bool} {s : chat_system} : Prop := {
  k_ctl : ok s.1;
  k_flag : flag_ok s.1;
  k_gen : generation s.1 = requestGenerationRef s.2;
  k_callbacks : forall e, e ∈ entries s.1 -> e.2 = e.1;
  k_timers : forall e, e ∈ timers s.2 -> streamFlushTimerRef s.2 = Some e.1 /\ e.2 = requestGenerationRef s.2;
  k_requests : forall i r, requests s.2 !! i = Some r -> (n_generation r <= requestGenerationRef s.2)%nat;
  k_pending : p_generation (pendingStreamChunksRef s.2) = requestGenerationRef s.2;
  k_flush : p_content (pendingStreamChunksRef s.2) <> [] \/ p_reasoning (pendingStreamChunksRef s.2) <> [] ->
    is_Some (streamFlushTimerRef s.2);
  k_ref : forall id, streamFlushTimerRef s.2 = Some id -> (id, requestGenerationRef s.2) ∈ timers s.2;
  k_settled : forall i, i ∈ settled s.2 -> (i < length (requests s.2))%nat;
  k_awaited : strict = true -> isRequesting s.2 = true -> awaited s;
}.
Arguments sys_inv : clear implicits.
Abbreviation chat_ok := (sys_inv true).
Implicit Type strict : bool.

(** A chat that differs from an invariant one in its messages. *)
Lemma ok_messages strict c h shown ms q tick : sys_inv strict (c, h) -> sys_inv strict (c, set_messages shown ms q tick h).
Proof. intros [H1 H0 H2 H3 H4 H5 H6 H7 H8 H9 H10]. by split. Qed.

Lemma ok_update strict c h u : sys_inv strict (c, h) -> sys_inv strict (c, update u h).
Proof. destruct (update_frame u h) as (ms & q & tick & ->). apply ok_messages. Qed.

Lemma clear_eq h : (forall e, e ∈ timers h -> streamFlushTimerRef h = Some e.1) ->
  clear_flush_timer h = set_timer None [] (nextTimer h) h.
Proof.
  intros Ht. unfold clear_flush_timer. destruct (streamFlushTimerRef h) as [id|] eqn:E.
  - f_equal. destruct (clear_timeout id (timers h)) as [|e l] eqn:El; [done|].
    assert (e ∈ clear_timeout id (timers h)) as He by (rewrite El; by left).
    apply list_elem_of_filter in He as [Hne He]. specialize (Ht e He) as [= ->]. done.
  - destruct h as [? ? ? ? ? ? ref l]. simpl in *. subst ref. destruct l as [|e l]; [done|].
    discriminate (Ht e ltac:(by left)).
Qed.

Lemma ok_timer strict s e : sys_inv strict s -> e ∈ timers s.2 -> streamFlushTimerRef s.2 = Some e.1.
Proof. intros Hok He. by apply (k_timers Hok). Qed.

(** A chat of a new generation, without chunks and timers. *)
Definition renewed (h : chat) (g : nat) (b : bool) (a : option nat) (rs : list plain_request) : chat :=
  setIsRequesting b (set_abort a rs (set_pending (no_chunks g) (set_timer None [] (nextTimer h) (set_generation g h)))).

Lemma ok_renewed c h b a rs :
  ok c -> flag_ok c -> (forall e, e ∈ entries c -> e.2 = e.1) ->
  (forall i r, rs !! i = Some r -> (n_generation r <= generation c)%nat) ->
  (forall i, i ∈ settled h -> (i < length rs)%nat) ->
  (b = true -> awaited (c, renewed h (generation c) b a rs)) -> chat_ok (c, renewed h (generation c) b a rs).
Proof. intros H1 H2 H3 H4 H5 H6. split; simpl; try done; [set_solver|]. by intros [?|?]. Qed.

Lemma lookup_abort_opt o (l : list plain_request) i r : abort_opt o l !! i = Some r ->
  exists r0, l !! i = Some r0 /\ n_generation r = n_generation r0.
Proof.
  destruct o as [j|]; simpl; [|eauto]. destruct (decide (j = i)) as [->|Hne].
  - rewrite list_lookup_alter_eq. destruct (l !! i) as [r0|]; [|done]. intros [= <-]. by exists r0.
  - rewrite list_lookup_alter_ne by done. eauto.
Qed.

Lemma ok_aborted s o i r : chat_ok s -> abort_opt o (requests s.2) !! i = Some r ->
  (n_generation r <= S (requestGenerationRef s.2))%nat.
Proof. intros Hok (r0 & Hr & ->)%lookup_abort_opt. apply (k_requests Hok) in Hr. lia. Qed.

Lemma length_abort_opt o l : length (abort_opt o l) = length l.
Proof. destruct o; [apply length_alter | done]. Qed.

Lemma settled_aborted s o i : chat_ok s -> i ∈ settled s.2 -> (i < length (abort_opt o (requests s.2)))%nat.
Proof. intros Hok Hi. rewrite length_abort_opt. by apply (k_settled Hok). Qed.

(** The controller after [send], [stop] and [dispose]. *)
Lemma send_ok q s : chat_ok s -> let c := send q (S (requestGenerationRef s.2)) s.1 in
  ok c /\ (forall e, e ∈ entries c -> e.2 = e.1) /\ generation c = S (requestGenerationRef s.2) /\ flag_ok c.
Proof.
  intros Hok c. pose proof (k_gen Hok) as Hg. simpl. rewrite Hg. split_and!; [| |done | done].
  - eapply moves_ok; [|apply (k_ctl Hok)]. apply (moves_next _ [(S (generation s.1), S (requestGenerationRef s.2), q)]).
    + set_solver.
    + simpl. lia.
  - intros e He. unfold entries in He. simpl in He. rewrite fmap_close_opt, fmap_app, app_assoc in He by done.
    apply elem_of_app in He as [He| ->%list_elem_of_singleton]; [by apply (k_callbacks Hok) | simpl; congruence].
Qed.

Lemma cancel_ok b s : chat_ok s -> let c := cancel b s.1 in
  ok c /\ (forall e, e ∈ entries c -> e.2 = e.1) /\ generation c = S (requestGenerationRef s.2).
Proof.
  intros Hok c. split_and!.
  - eapply moves_ok; [apply cancel_moves | apply (k_ctl Hok)].
  - intros e He. unfold entries in He. simpl in He. rewrite fmap_close_opt in He by done. by apply (k_callbacks Hok).
  - simpl. by rewrite (k_gen Hok).
Qed.

(** ** Operations *)

Lemma sendStreaming_eq config en ms s : chat_ok s ->
  sendStreamingChat config en ms s =
  (send (buildChatCompletionPayload ms config en) (S (requestGenerationRef s.2)) s.1,
   renewed s.2 (S (requestGenerationRef s.2)) true None (abort_opt (abortControllerRef s.2) (requests s.2))).
Proof.
  intros Hok. destruct s as [c h]. unfold sendStreamingChat, discardPendingStreamUpdates. f_equal.
  rewrite clear_eq; [done|]. intros e. apply (ok_timer _ (c, h) e Hok).
Qed.

Lemma ok_sendStreaming config en ms s : chat_ok s -> chat_ok (sendStreamingChat config en ms s).
Proof.
  intros Hok. rewrite sendStreaming_eq by done.
  destruct (send_ok (buildChatCompletionPayload ms config en) s Hok) as (H1 & H2 & H3 & H5).
  assert (exists q, (generation (send (buildChatCompletionPayload ms config en) (S (requestGenerationRef s.2)) s.1),
                     S (requestGenerationRef s.2), q)
                    ∈ awaiting (send (buildChatCompletionPayload ms config en) (S (requestGenerationRef s.2)) s.1)) as H4.
  { eexists. simpl. apply elem_of_app. right. by left. }
  set (c := send _ _ _) in *. clearbody c. rewrite <- H3 in *. apply ok_renewed; [done | done | done | | |].
  - intros i r Hr. rewrite H3. by apply (ok_aborted s) in Hr.
  - intros i. by apply settled_aborted.
  - intros _. by left.
Qed.

Lemma sendNonStreaming_eq config en ms s : chat_ok s ->
  sendNonStreamingChat config en ms s =
  (stop s.1, renewed s.2 (S (requestGenerationRef s.2)) true (Some (length (requests s.2)))
     (abort_opt (abortControllerRef s.2) (requests s.2)
      ++ [{| n_generation := S (requestGenerationRef s.2); n_aborted := false;
             n_payload := buildChatCompletionPayload ms config en |}])).
Proof.
  intros Hok. destruct s as [c h]. unfold sendNonStreamingChat, discardPendingStreamUpdates. f_equal.
  rewrite clear_eq; [done|]. intros e. apply (ok_timer _ (c, h) e Hok).
Qed.

Lemma ok_sendNonStreaming config en ms s : chat_ok s -> chat_ok (sendNonStreamingChat config en ms s).
Proof.
  intros Hok. rewrite sendNonStreaming_eq by done. destruct (cancel_ok true s Hok) as (H1 & H2 & H3).
  rewrite <- H3. apply (ok_renewed (cancel true s.1)); [done | done | done | | |].
  - intros i r Hr. rewrite H3. apply lookup_app_Some in Hr as [Hr|[_ Hr]]; [by apply (ok_aborted s) in Hr|].
    destruct (_ - _)%nat; [|done]. injection Hr as <-. simpl. by rewrite (k_gen Hok).
  - intros i Hi. rewrite length_app. apply (settled_aborted s (abortControllerRef s.2)) in Hi; [lia | done].
  - intros _. right. right. exists (length (requests s.2)). eexists. simpl.
    rewrite lookup_app_r, length_abort_opt, Nat.sub_diag by (by rewrite length_abort_opt).
    split_and!; [done | done | done | | done]. intros Hi%(k_settled Hok). lia.
Qed.

Lemma stop_form s : chat_ok s ->
  stopGeneration eager readings s =
  (stop s.1, update (StopUpdate (S (requestGenerationRef s.2)))
     (renewed (flush (requestGenerationRef s.2) s.2) (S (requestGenerationRef s.2)) false None
        (abort_opt (abortControllerRef s.2) (requests s.2)))).
Proof.
  intros Hok. destruct s as [c h]. unfold stopGeneration, discardPendingStreamUpdates. cbn [fst snd]. f_equal. f_equal.
  destruct (flush_frame h (k_pending Hok)) as (ms & q & tick & ->).
  rewrite (clear_eq h) by (intros e; apply (ok_timer _ (c, h) e Hok)).
  rewrite clear_eq by (simpl; set_solver). done.
Qed.

Lemma stopGeneration_eq s : chat_ok s -> exists ms q tick,
  stopGeneration eager readings s =
  (stop s.1, update (StopUpdate (S (requestGenerationRef s.2)))
     (set_messages (rendered s.2) ms q tick
        (renewed s.2 (S (requestGenerationRef s.2)) false None (abort_opt (abortControllerRef s.2) (requests s.2))))).
Proof.
  intros Hok. rewrite stop_form by done. destruct s as [c h].
  destruct (flush_frame h (k_pending Hok)) as (ms & q & tick & E). exists ms, q, tick. simpl. rewrite E.
  by rewrite (clear_eq h) by (intros e; apply (ok_timer _ (c, h) e Hok)).
Qed.

Lemma ok_stop s : chat_ok s -> chat_ok (stopGeneration eager readings s).
Proof.
  intros Hok. destruct (stopGeneration_eq s Hok) as (ms & q & tick & ->). apply ok_update, ok_messages.
  destruct (cancel_ok true s Hok) as (H1 & H2 & H3). rewrite <- H3. apply (ok_renewed (cancel true s.1)); try done.
  - intros i r Hr. rewrite H3. by apply (ok_aborted s) in Hr.
  - intros i. by apply settled_aborted.
Qed.

(** A flush keeps the invariant. *)
Lemma ok_flush strict g c h : sys_inv strict (c, h) -> sys_inv strict (c, flush g h).
Proof.
  intros Hok. destruct (decide (g = requestGenerationRef h)) as [->|Hne]; [|by rewrite flush_other].
  destruct (flush_frame h (k_pending Hok)) as (ms & q & tick & ->). apply ok_messages.
  rewrite (clear_eq h) by (intros e; apply (ok_timer _ (c, h) e Hok)).
  destruct Hok as [H1 H0 H2 H3 H4 H5 H6 H7 H8 H9 H10]. split; simpl in *; try done; [set_solver | by intros [?|?]].
Qed.

Lemma ok_weaken strict s : sys_inv strict s -> sys_inv false s.
Proof. intros [H1 H0 H2 H3 H4 H5 H6 H7 H8 H9 H10]. by split. Qed.

Lemma ok_not_requesting strict c h : sys_inv false (c, h) -> sys_inv strict (c, setIsRequesting false h).
Proof. intros [H1 H0 H2 H3 H4 H5 H6 H7 H8 H9 H10]. by split. Qed.

(** ** Events *)

Lemma ok_controller c c' h : chat_ok (c, h) -> moves c [] c' -> generation c' = generation c -> flag_ok c' ->
  (isRequesting h = true -> awaited (c', h)) -> chat_ok (c', h).
Proof.
  intros [H1 H0 H2 H3 H4 H5 H6 H7 H8 H9 H10] Hm Hg Hf Ha. split; simpl in *; try done.
  - by eapply moves_ok.
  - congruence.
  - destruct (moves_entries _ _ _ Hm) as (_ & Hsub & _). simpl in Hsub. rewrite app_nil_r in Hsub.
    intros e He. apply H3. by eapply elem_of_submseteq.
Qed.

Lemma ok_streamUpdate c h g type chunk h' : chat_ok (c, h) -> handleStreamUpdate g type chunk h = Some h' -> chat_ok (c, h').
Proof.
  intros Hok. unfold handleStreamUpdate. case_match eqn:E1; [by intros [= <-]|]. case_match eqn:E2; [by intros [= <-]|].
  destruct (mergePendingStreamChunk _ _) as [text|]; [|done]. intros [= <-]. simpl.
  apply negb_false_iff, Nat.eqb_eq in E1. subst g.
  destruct Hok as [H1 H0 H2 H3 H4 H5 H6 H7 H8 H9 H10]. simpl in *.
  assert (forall p', p_generation (update_pending type text p') = p_generation p') as Hp' by (by destruct type).
  unfold scheduleStreamFlush. simpl. rewrite Nat.eqb_refl. simpl. destruct (streamFlushTimerRef h) as [id|] eqn:E.
  - split; simpl; rewrite ?Hp'; try done; by rewrite E.
  - split; simpl; rewrite ?Hp'; try done.
    + intros e [He%H4|He]%elem_of_app; [by destruct He as [? _]|]. apply list_elem_of_singleton in He. by subst e.
    + intros id [= <-]. apply elem_of_app. right. by apply list_elem_of_singleton.
Qed.

Lemma ok_deliver c cb us h : chat_ok (c, h) -> chat_ok (c, (deliver_updates (H := client) cb us h).1).
Proof.
  revert h. induction us as [|u us IH]; intros h Hok; [done|]. cbn [deliver_updates].
  destruct (onUpdate cb (u_type u) (u_chunk u) h) as [h'|] eqn:E; [|done]. apply IH. by eapply ok_streamUpdate.
Qed.

Lemma ok_streamComplete c h g : chat_ok (c, h) -> chat_ok (c, handleStreamComplete eager readings g h).
Proof.
  intros Hok. unfold handleStreamComplete. case_match; [done|]. apply ok_update, ok_not_requesting, ok_flush. by eapply ok_weaken.
Qed.

Lemma ok_report strict c h e : sys_inv strict (c, h) -> sys_inv strict (c, report e h).
Proof. intros [H1 H0 H2 H3 H4 H5 H6 H7 H8 H9 H10]. by split. Qed.

Lemma ok_streamError strict c h g m k : sys_inv strict (c, h) -> sys_inv strict (c, (handleStreamError eager readings t g m k h).1).
Proof.
  intros Hok. unfold handleStreamError. case_match; [done|].
  destruct (getDisplayError t m); simpl; [apply ok_update, ok_report|]; apply ok_not_requesting, ok_flush; by eapply ok_weaken.
Qed.

Lemma update_requesting u h : isRequesting (update u h) = isRequesting h.
Proof. by destruct (update_frame u h) as (? & ? & ? & ->). Qed.

Lemma complete_idle h : isRequesting (handleStreamComplete eager readings (requestGenerationRef h) h) = false.
Proof. unfold handleStreamComplete. rewrite Nat.eqb_refl. simpl. by rewrite update_requesting. Qed.

Lemma error_idle h m k : isRequesting (handleStreamError eager readings t (requestGenerationRef h) m k h).1 = false.
Proof.
  unfold handleStreamError. rewrite Nat.eqb_refl. simpl.
  destruct (getDisplayError t m); simpl; [by rewrite update_requesting | done].
Qed.

(** The callbacks in use are those of the current generation. *)
Lemma live_current c h i src : chat_ok (c, h) -> live i c = Some src -> callbacks src = requestGenerationRef h.
Proof.
  intros Hok (Hs & Hg & _)%live_spec. pose proof (k_gen Hok) as Hgen. simpl in Hgen. rewrite <- Hgen, <- Hg.
  apply (k_callbacks Hok (requestGeneration src, callbacks src)). apply elem_of_app. left.
  apply list_elem_of_lookup_2 in Hs. by apply (list_elem_of_fmap_2 (fun s => (requestGeneration s, callbacks s))) in Hs.
Qed.

Lemma waiting_current c h cb q : chat_ok (c, h) -> (generation c, cb, q) ∈ awaiting c -> cb = requestGenerationRef h.
Proof.
  intros Hok Hq. pose proof (k_gen Hok) as Hgen. simpl in Hgen. rewrite <- Hgen. apply (k_callbacks Hok (generation c, cb)).
  apply elem_of_app. right. by apply (list_elem_of_fmap_2 fst _ _ Hq).
Qed.

Lemma streamUpdate_generation g type chunk h h' :
  handleStreamUpdate g type chunk h = Some h' -> requestGenerationRef h' = requestGenerationRef h.
Proof.
  unfold handleStreamUpdate. case_match; [by intros [= <-]|]. case_match; [by intros [= <-]|].
  destruct (mergePendingStreamChunk _ _) as [text|]; [|done]. intros [= <-]. unfold scheduleStreamFlush.
  case_match; [done|]. by case_match.
Qed.

Lemma deliver_generation cb us h : requestGenerationRef (deliver_updates (H := client) cb us h).1 = requestGenerationRef h.
Proof.
  revert h. induction us as [|u us IH]; intros h; [done|]. cbn [deliver_updates].
  destruct (onUpdate cb (u_type u) (u_chunk u) h) as [h'|] eqn:E; [|done]. rewrite IH.
  by eapply streamUpdate_generation.
Qed.

Lemma ok_event e s : chat_ok s -> chat_ok (chat_event e s).
Proof.
  intros Hok. pose proof (on_stream_event_outcome (HC := client) e s) as Ho.
  pose proof (outcome_moves _ _ Ho) as Hm. pose proof (outcome_generation _ _ Ho) as Hg.
  pose proof (outcome_flag _ _ Ho (k_flag Hok)) as Hflag.
  remember (chat_event e s) as y eqn:Ey. clear Ey e. pose proof (k_awaited Hok eq_refl) as Ha.
  destruct Ho as [|c h l1 w l2 E Hw|c h l1 l2 cb q E|c h l1 l2 cb q m E|c h i src us h' E Ed|c h i src E
    |c h i src us h1 b m k h2 threw E Ed Eo]; [done|..]; simpl in *.
  - eapply ok_controller; [done..|]. intros [(q & Hq)|Hr]%Ha; [left|by right]. exists q. simpl.
    rewrite E in Hq. apply elem_of_app in Hq as [Hq|Hq]; [set_solver|].
    apply elem_of_cons in Hq as [<-|Hq]; [|set_solver]. destruct Hw. simpl. symmetry. apply (k_gen Hok).
  - eapply ok_controller; [done..|]. intros _. right. left. exists (length (sources c)). eexists. apply live_spec. simpl.
    by rewrite lookup_app_r, Nat.sub_diag by done.
  - rewrite (waiting_current c h cb q) by (done || rewrite E; set_solver).
    eapply (ok_controller c); [by apply ok_streamError | done | done | done|]. by rewrite error_idle.
  - pose proof (ok_deliver c (callbacks src) us h Hok) as Hd. by rewrite Ed in Hd.
  - rewrite (live_current c h i src) by done.
    eapply (ok_controller c); [by apply ok_streamComplete | done | done | done|]. by rewrite complete_idle.
  - rewrite (live_current c h i src) in * by done.
    pose proof (ok_deliver c (requestGenerationRef h) us h Hok) as Hd.
    pose proof (deliver_generation (requestGenerationRef h) us h) as Hdg. rewrite Ed in Hd, Hdg. simpl in Hd, Hdg.
    rewrite <- Hdg in Eo. pose proof (ok_streamError _ c h1 (requestGenerationRef h1) m k Hd) as He.
    pose proof (error_idle h1 m k) as Hi. rewrite Eo in He, Hi. simpl in He, Hi.
    eapply (ok_controller c); [done | done | done | done|]. by rewrite Hi.
Qed.

(** ** Timers, responses, conversation *)

Lemma ok_timer_fires c h id : chat_ok (c, h) -> chat_ok (c, timer_fires eager readings id h).
Proof.
  intros Hok. unfold timer_fires. destruct (list_find _ _) as [[k [id' g]]|] eqn:E; [|done].
  apply list_find_Some in E as (Hk & Hid & _). simpl in Hid. subst id'.
  apply list_elem_of_lookup_2 in Hk. destruct (k_timers Hok _ Hk) as [Hr Hg]. simpl in Hr, Hg. subst g.
  set (h0 := set_timer _ _ _ h).
  destruct (flush_frame h0 (k_pending Hok)) as (ms & q & tick & E). simpl in E. rewrite E. apply ok_messages.
  rewrite clear_eq by (simpl; intros e [_ He]%list_elem_of_filter; by apply (k_timers Hok)).
  destruct Hok as [H1 H0 H2 H3 H4 H5 H6 H7 H8 H9 H10]. split; simpl in *; try done; [set_solver | by intros [?|?]].
Qed.

Lemma ok_settle strict c h i r : sys_inv strict (c, h) -> requests h !! i = Some r ->
  (strict = true -> n_generation r <> requestGenerationRef h) -> sys_inv strict (c, set_settled (i :: settled h) h).
Proof.
  intros [H1 H0 H2 H3 H4 H5 H6 H7 H8 H9 H10] Hi Hr. split; simpl in *; try done.
  - intros j [->|Hj]%elem_of_cons; [by eapply lookup_lt_Some | by apply H9].
  - intros Hs Hreq. destruct (H10 Hs Hreq) as [?|[?|(j & r' & Hj & Hg & Ha & Hset & Hsrc)]]; [by left | by right; left|].
    right. right. exists j, r'. split_and!; try done. intros [->|?]%elem_of_cons; [|done].
    destruct (Hr Hs). congruence.
Qed.

Lemma ok_finish strict c h : sys_inv false (c, h) -> sys_inv strict (c, finish_request (requestGenerationRef h) h).
Proof. intros [H1 H0 H2 H3 H4 H5 H6 H7 H8 H9 H10]. unfold finish_request. rewrite Nat.eqb_refl. by split. Qed.

Lemma error_generation g m k h : requestGenerationRef (handleStreamError eager readings t g m k h).1 = requestGenerationRef h.
Proof.
  assert (forall u h, requestGenerationRef (update u h) = requestGenerationRef h) as Hu
    by (intros u h'; by destruct (update_frame u h') as (? & ? & ? & ->)).
  assert (forall h, requestGenerationRef (flush g h) = requestGenerationRef h) as Hf.
  { intros h'. unfold flushStreamUpdates, clear_flush_timer.
    repeat (case_match; simpl; try rewrite Hu; try done). }
  unfold handleStreamError. case_match; [done|].
  destruct (getDisplayError t m); simpl; rewrite ?Hu; apply Hf.
Qed.

Lemma ok_request_settled c h i outcome : chat_ok (c, h) -> chat_ok (c, request_settled eager readings t i outcome h).
Proof.
  intros Hok. unfold request_settled. destruct (requests h !! i) as [r|] eqn:Er; [|done].
  case_bool_decide; [done|]. set (h0 := set_settled _ h).
  destruct (decide (n_generation r = requestGenerationRef h)) as [Hg|Hg].
  - assert (sys_inv false (c, h0)) as H0 by (eapply ok_settle; [by eapply ok_weaken | done | done]).
    rewrite Hg. change (requestGenerationRef h) with (requestGenerationRef h0).
    case_match; [by apply ok_finish|]. destruct outcome as [response|error]; [case_match|].
    + destruct (update_frame (ResponseUpdate (requestGenerationRef h0) response) h0) as (ms & q & tick & E).
      rewrite E. apply (ok_finish true c (set_messages (rendered h0) ms q tick h0)), ok_messages, H0.
    + rewrite <- (error_generation (requestGenerationRef h0) (JStr API_REQUEST_ERROR) JUndefined h0) at 1.
      apply ok_finish. by apply ok_streamError.
    + rewrite <- (error_generation (requestGenerationRef h0) (d_errorMessage (parseRequestErrorDetails error))
        (d_errorCode (parseRequestErrorDetails error)) h0) at 1.
      apply ok_finish. by apply ok_streamError.
  - change (requestGenerationRef h) with (requestGenerationRef h0) in Hg.
    rewrite (proj2 (Nat.eqb_neq (requestGenerationRef h0) (n_generation r))), orb_true_r by done.
    unfold finish_request. rewrite (proj2 (Nat.eqb_neq (requestGenerationRef h0) (n_generation r))) by done.
    eapply ok_settle; done.
Qed.

Lemma ok_sendChat config en ms s : chat_ok s -> chat_ok (sendChat config en ms s).
Proof. unfold sendChat. case_match; [apply ok_sendStreaming | apply ok_sendNonStreaming]. Qed.

Lemma ok_replaced s u : chat_ok s -> chat_ok (on_chat (update u) s).
Proof. destruct s. apply ok_update. Qed.

Lemma ok_render s : chat_ok s -> chat_ok (on_chat (render readings) s).
Proof. destruct s as [c h]. unfold on_chat, render. simpl. case_match. apply ok_messages. Qed.

Definition mounted (a : turn) : Prop := a <> TUnmount.

Lemma ok_turn a s : mounted a -> chat_ok s -> chat_ok (take_turn eager readings t a s).
Proof.
  intros Ha Hok. destruct a as [config en text k1 id1 k2 id2 now|config en mk k id now|config en ek text b k id now
    |mk| |e|id|i o| |]; simpl; [| | | | | | | | |done].
  - unfold handleSendMessage. by apply ok_sendChat, ok_replaced.
  - unfold handleRegenerateMessage. case_match; [by apply ok_sendChat, ok_replaced | done].
  - unfold applyEdit. repeat (case_match; simpl; try done); try by apply ok_replaced. by apply ok_sendChat, ok_replaced.
  - by apply ok_replaced.
  - by apply ok_stop.
  - by apply ok_event.
  - destruct s. by apply ok_timer_fires.
  - destruct s. by apply ok_request_settled.
  - by apply ok_render.
Qed.

Definition init (ms : list Message) : chat_system := (initial_controller, initial_chat ms).

Lemma ok_init ms : chat_ok (init ms).
Proof. split; simpl; try done; try set_solver. apply ok_initial. Qed.

Lemma ok_turns l ms : Forall mounted l -> chat_ok (go l (init ms)).
Proof.
  induction l as [|a l IH] using rev_ind; intros Hl; [apply ok_init|]. apply Forall_app in Hl as [Hl Ha].
  unfold turns. rewrite foldl_app. apply ok_turn; [by inversion Ha | by apply IH].
Qed.

Lemma go_app l l' s : go (l ++ l') s = go l' (go l s).
Proof. apply foldl_app. Qed.

(** ** Ending a request *)

(** The turns that the servers cause. *)
Definition answer (a : turn) : Prop := match a with TStream _ | TSettled _ _ => True | _ => False end.

Definition done_event (i : nat) : stream_event := MessageEvent i (Some STREAM_DONE_MESSAGE).

Lemma done_ends s i src : chat_ok s -> live i s.1 = Some src -> isGenerating (chat_event (done_event i) s) = false.
Proof.
  destruct s as [c h]. simpl. intros Hok E. rewrite E. cbn [isGenerating fst snd].
  pose proof E as (_ & _ & Hs & _)%live_spec. unfold closeActiveSource. simpl. rewrite bool_decide_true by done. simpl.
  rewrite (live_current c h i src) by done. apply complete_idle.
Qed.

Lemma response_ends s i r : chat_ok s -> requests s.2 !! i = Some r -> n_generation r = requestGenerationRef s.2 ->
  i ∉ settled s.2 -> source s.1 = None ->
  isGenerating (on_chat (request_settled eager readings t i (inl [])) s) = false.
Proof.
  destruct s as [c h]. simpl. intros Hok Er Hg Hi Hs. unfold isGenerating. simpl.
  rewrite (k_flag Hok : streaming c = _). simpl. rewrite Hs. simpl.
  unfold request_settled. rewrite Er, bool_decide_false by done.
  set (h0 := set_settled _ h). rewrite Hg. change (requestGenerationRef h) with (requestGenerationRef h0).
  cbn [hasChatCompletionChoice]. unfold finish_request.
  destruct (n_aborted r || _); [|rewrite error_generation]; by rewrite Nat.eqb_refl.
Qed.

(** A waiting call of the current generation can be answered. *)
Lemma waiting_taken g l (cb : nat) q : (g, cb, q) ∈ l -> exists x, take_waiting g l = Some x.
Proof.
  induction l as [|[[g' cb'] q'] l IH]; [set_solver|]. intros Hin. simpl.
  destruct (Nat.eqb_spec g' g) as [->|Hne]; [eauto|].
  destruct IH as [[[cb1 q1] rest] ->]; [|eauto]. apply elem_of_cons in Hin as [Hin|]; [congruence | done].
Qed.

Lemma headers_open c h q : chat_ok (c, h) -> (requestGenerationRef h, requestGenerationRef h, q) ∈ awaiting c ->
  exists i src, live i (chat_event (HeadersResolved (requestGenerationRef h)) (c, h)).1 = Some src.
Proof.
  intros Hok Hq. destruct (waiting_taken _ _ _ _ Hq) as [[[cb1 q1] rest] E]. simpl. rewrite E.
  rewrite (k_gen Hok : generation c = _). simpl. rewrite Nat.eqb_refl. simpl. eexists (length (sources c)), _.
  apply live_spec. simpl. by rewrite lookup_app_r, Nat.sub_diag by done.
Qed.

Lemma update_last_final ms f m : (forall m, isAssistantMessagePending (f m) = false) ->
  last (updateLastAssistantMessage ms f) = Some m -> isPendingAssistantMessage m = false.
Proof.
  intros Hf. unfold updateLastAssistantMessage. destruct (last ms) as [m0|] eqn:El; [|congruence].
  case_bool_decide as Hm0.
  - destruct ms as [|m1 ms _] using rev_ind; [done|]. rewrite last_snoc in El. injection El as ->.
    rewrite length_app, Nat.add_sub, alter_app_r_alt, Nat.sub_diag by done. simpl. rewrite last_snoc. intros [= <-].
    unfold isPendingAssistantMessage. by rewrite Hf, andb_false_r.
  - rewrite El. intros [= ->]. unfold isPendingAssistantMessage. by rewrite bool_decide_false.
Qed.

Lemma complete_not_pending now m : isAssistantMessagePending (complete_message now m) = false.
Proof.
  unfold complete_message, completeAssistantMessage, isAssistantMessagePending. by autorewrite with message.
Qed.

Lemma stop_update_final g now ms m :
  last (call_updater (StopUpdate g) g now ms) = Some m -> isPendingAssistantMessage m = false.
Proof.
  simpl. rewrite Nat.eqb_refl. simpl. apply update_last_final. intros m'.
  destruct (isAssistantMessagePending m') eqn:E; [apply complete_not_pending | done].
Qed.

(** The last updater has the last word. *)
Lemma call_all_snoc us u current tick ms :
  (call_all readings (us ++ [u]) current tick ms).1
  = call_updater u current (now_at readings (call_all readings us current tick ms).2) (call_all readings us current tick ms).1.
Proof. revert tick ms. induction us as [|u' us IH]; intros tick ms; simpl; [done | apply IH]. Qed.

(** Whether React calls an updater at once or at the render, the render shows what
    the updater makes of the messages that the render would have shown without it. *)
Lemma render_update u h : exists now,
  messages (render readings (update u h)) = call_updater u (requestGenerationRef h) now (messages (render readings h)).
Proof.
  unfold onMessageUpdate. destruct (bool_decide _) eqn:Eq, (eager h) eqn:Ee; simpl.
  { apply bool_decide_eq_true in Eq. unfold render. simpl. rewrite Eq. by eexists. }
  all: unfold render; simpl;
    pose proof (call_all_snoc (queue h) u (requestGenerationRef h) (clock h) (messages h)) as Hc;
    destruct (call_all _ (queue h ++ _) _ _ _), (call_all _ (queue h) _ _ _); simpl in *; eauto.
Qed.

Lemma render_stop h : exists now ms,
  messages (render readings (update (StopUpdate (requestGenerationRef h)) h))
  = call_updater (StopUpdate (requestGenerationRef h)) (requestGenerationRef h) now ms.
Proof. destruct (render_update (StopUpdate (requestGenerationRef h)) h) as [now E]. eauto. Qed.

(** ** Nothing left to hear *)

Record quiet_chat (s : chat_system) : Prop := {
  q_ok : chat_ok s;
  q_source : source s.1 = None;
  q_awaiting : forall w, w ∈ awaiting s.1 -> w.1.1 <> generation s.1;
  q_timers : timers s.2 = [];
  q_queue : queue s.2 = [];
  q_requests : forall i r, requests s.2 !! i = Some r -> n_generation r <> requestGenerationRef s.2;
  q_requesting : isRequesting s.2 = false;
}.

(** The turns that are not the user's. *)
Definition unattended (a : turn) : Prop :=
  match a with TStream _ | TTimer _ | TSettled _ _ | TRender => True | _ => False end.

Lemma quiet_turn a s : unattended a -> quiet_chat s ->
  quiet_chat (take_turn eager readings t a s) /\ messages (take_turn eager readings t a s).2 = messages s.2.
Proof.
  intros Ha [Hok Hs Hw Ht Hq Hr Hi].
  assert (chat_ok (take_turn eager readings t a s)) as Hok' by (apply ok_turn; [by destruct a | done]).
  destruct s as [c h], a as [| | | | |e|id|i o| |]; try done; simpl in *.
  - pose proof (on_stream_event_outcome (HC := client) e (c, h)) as Ho. remember (chat_event e (c, h)) as y eqn:Ey. clear Ey.
    assert (forall i src, live i c = Some src -> False) as Hl by (intros i src (_ & _ & ? & _)%live_spec; congruence).
    inversion Ho as [|c1 h1 l1 w l2 E Hne|c1 h1 l1 l2 cb q E|c1 h1 l1 l2 cb q m E| | |]; subst; try by (exfalso; eauto).
    + done.
    + split; [|done]. split; simpl in *; try done. intros w' Hw'. apply Hw. rewrite E. set_solver.
    + destruct (Hw (generation c, cb, q)); [rewrite E; set_solver | done].
    + destruct (Hw (generation c, cb, q)); [rewrite E; set_solver | done].
  - unfold on_chat, timer_fires. simpl. rewrite Ht. done.
  - unfold on_chat, request_settled in *. simpl in *. destruct (requests h !! i) as [r|] eqn:Er; [|done].
    case_bool_decide; [done|]. pose proof (Hr i r Er) as Hne.
    rewrite (proj2 (Nat.eqb_neq (requestGenerationRef h) (n_generation r))) in * by done. rewrite orb_true_r in *.
    unfold finish_request in *. simpl in *.
    rewrite (proj2 (Nat.eqb_neq (requestGenerationRef h) (n_generation r))) in * by done.
    split; [|done]. by split.
  - unfold on_chat, render in *. simpl in *. rewrite Hq in *. done.
Qed.

Lemma quiet_turns l s : Forall unattended l -> quiet_chat s -> quiet_chat (go l s) /\ messages (go l s).2 = messages s.2.
Proof.
  revert s. induction l as [|a l IH]; intros s Hl Hq; [done|]. inversion_clear Hl as [|? ? Ha Hl'].
  destruct (quiet_turn a s Ha Hq) as [H1 H2]. destruct (IH _ Hl' H1) as [H3 H4]. split; [done|].
  etrans; [exact H4 | done].
Qed.

Lemma quiet_idle s : quiet_chat s -> isGenerating s = false.
Proof.
  intros [Hok Hs _ _ _ _ Hi]. unfold isGenerating. rewrite (k_flag Hok : streaming s.1 = _), Hs, Hi. done.
Qed.

Lemma stopped_quiet s : chat_ok s -> quiet_chat (go [TStop; TRender] s) /\
  (forall m, last (messages (go [TStop; TRender] s).2) = Some m -> isPendingAssistantMessage m = false).
Proof.
  intros Hok. assert (chat_ok (go [TStop; TRender] s)) as Hok' by (by apply ok_render, ok_stop).
  revert Hok'. simpl. destruct (stopGeneration_eq s Hok) as (ms & q & tick & ->).
  set (h := set_messages _ _ _ _ _). intros Hok'. split.
  - destruct (update_frame (StopUpdate (S (requestGenerationRef s.2))) h) as (ms' & q' & tick' & E).
    unfold on_chat in *. rewrite E in *. cbn [fst snd] in *. unfold render in *.
    destruct (call_all _ _ _ _) as [ms2 tick2]. split; simpl; try done.
    + intros w Hw. assert (w.1 ∈ entries s.1) as He by (apply elem_of_app; right; by apply (list_elem_of_fmap_2 fst)).
      apply (ok_bound _ (k_ctl Hok)) in He. lia.
    + intros i r (r0 & Hr & ->)%lookup_abort_opt. apply (k_requests Hok) in Hr. lia.
  - intros m. destruct (render_stop h) as (now & ms' & Hr).
    change (requestGenerationRef h) with (S (requestGenerationRef s.2)) in Hr. simpl. rewrite Hr.
    apply stop_update_final.
Qed.

(** ** Updaters, applied or queued *)

(** The messages after some updaters, with whatever the clock read. *)
Inductive applied (g : nat) : list updater -> list Message -> list Message -> Prop :=
| applied_nil ms : applied g [] ms ms
| applied_cons u us now ms ms' : applied g us (call_updater u g now ms) ms' -> applied g (u :: us) ms ms'.

Lemma applied_app g us us' ms ms' ms'' : applied g us ms ms' -> applied g us' ms' ms'' -> applied g (us ++ us') ms ms''.
Proof. induction 1; intros H'; [done|]. econstructor. by apply IHapplied. Qed.

Lemma applied_all us g tick ms : applied g us ms (call_all readings us g tick ms).1.
Proof. revert tick ms. induction us as [|u us IH]; intros tick ms; simpl; [constructor | econstructor; apply IH]. Qed.

(** [h] has been handed [us] since its messages were [ms]. *)
Definition handed (h : chat) (us : list updater) (ms : list Message) : Prop :=
  exists before, us = before ++ queue h /\ applied (requestGenerationRef h) before ms (messages h).

Lemma handed_update u h us ms : handed h us ms -> handed (update u h) (us ++ [u]) ms.
Proof.
  intros (before & -> & Ha). unfold onMessageUpdate. case_bool_decide as Hq; [destruct (eager h)|]; simpl.
  - rewrite Hq, app_nil_r. exists (before ++ [u]). split; [by rewrite app_nil_r|].
    eapply applied_app; [done|]. econstructor. constructor.
  - exists before. simpl. by rewrite app_assoc.
  - exists before. simpl. by rewrite app_assoc.
Qed.

Lemma handed_render h us ms : handed h us ms ->
  applied (requestGenerationRef h) us ms (messages (render readings h)) /\ queue (render readings h) = [].
Proof.
  intros (before & -> & Ha). unfold render.
  pose proof (applied_all (queue h) (requestGenerationRef h) (clock h) (messages h)) as Hall.
  destruct (call_all _ _ _ _) as [ms' tick]. split; [|done]. by eapply applied_app.
Qed.

(** ** Batches *)

(** One update of the server's, a string as declared. *)
Definition string_update (u : StreamChunkType * jstr) : StreamMessageUpdate := {| u_type := u.1; u_chunk := JStr u.2 |}.

Definition of_type (type : StreamChunkType) (us : list (StreamChunkType * jstr)) : list jstr :=
  omap (fun u => match type, u.1 with
                 | ReasoningChunk, ReasoningChunk | ContentChunk, ContentChunk => Some u.2
                 | _, _ => None
                 end) us.

Definition batch (g : nat) (us : list (StreamChunkType * jstr)) : PendingStreamChunks :=
  {| p_generation := g; p_content := concat (of_type ContentChunk us);
     p_reasoning := concat (of_type ReasoningChunk us) |}.

Lemma merge_appends cur c : jeqb cur [] || negb (starts_with cur c) = true ->
  mergePendingStreamChunk cur (JStr c) = Some (cur ++ c).
Proof.
  destruct cur as [|d cur]; [done|]. rewrite (proj2 (jeqb_neq _ _)), orb_false_l by done. intros E.
  unfold mergePendingStreamChunk. by rewrite E.
Qed.

(** What chunks do to a chat apart from its messages: they wait, with a timer. *)
Definition batched (h h' : chat) (p : PendingStreamChunks) : Prop :=
  exists ref l next, h' = set_timer ref l next (set_pending p h).

Lemma update_batched h h0 p type c : batched h0 h p -> p_generation p = requestGenerationRef h0 ->
  jeqb (pending_text type p) [] || negb (starts_with (pending_text type p) c) = true ->
  exists h', handleStreamUpdate (requestGenerationRef h0) type (JStr c) h = Some h' /\
    batched h0 h' (update_pending type (pending_text type p ++ c) p).
Proof.
  intros (ref & l & next & ->) Hp Ha. unfold handleStreamUpdate. simpl. rewrite Nat.eqb_refl, Hp, Nat.eqb_refl. simpl.
  rewrite merge_appends by done. simpl. eexists. split; [done|].
  unfold scheduleStreamFlush. simpl. rewrite Nat.eqb_refl. simpl.
  destruct ref as [id|]; simpl; by eexists _, _, _.
Qed.

Lemma batched_generation h0 h p : batched h0 h p -> requestGenerationRef h = requestGenerationRef h0.
Proof. by intros (? & ? & ? & ->). Qed.

Lemma deliver_batched h h0 p us : batched h0 h p -> p_generation p = requestGenerationRef h0 ->
  appendable (p_content p) (of_type ContentChunk us) = true ->
  appendable (p_reasoning p) (of_type ReasoningChunk us) = true ->
  exists h', deliver_updates (H := client) (requestGenerationRef h0) (string_update <$> us) h = (h', true) /\
    batched h0 h' {| p_generation := p_generation p; p_content := p_content p ++ concat (of_type ContentChunk us);
                     p_reasoning := p_reasoning p ++ concat (of_type ReasoningChunk us) |}.
Proof.
  revert h p. induction us as [|[type c] us IH]; intros h p Hb Hp Hc Hr.
  - exists h. split; [done|]. simpl. rewrite !app_nil_r. by destruct p.
  - rewrite fmap_cons. cbn [deliver_updates]. destruct type.
    + cbn [of_type omap list_omap fst snd appendable] in Hr. apply andb_true_iff in Hr as [Hr1 Hr2].
      destruct (update_batched h h0 p ReasoningChunk c Hb Hp Hr1) as (h1 & E1 & Hb1).
      cbn [onUpdate chat_client string_update u_type u_chunk fst snd]. rewrite E1.
      destruct (IH h1 _ Hb1) as (h' & Ed & Hb'); [done.. |]. exists h'. split; [done|].
      simpl in *. by rewrite <- app_assoc in Hb'.
    + cbn [of_type omap list_omap fst snd appendable] in Hc. apply andb_true_iff in Hc as [Hc1 Hc2].
      destruct (update_batched h h0 p ContentChunk c Hb Hp Hc1) as (h1 & E1 & Hb1).
      cbn [onUpdate chat_client string_update u_type u_chunk fst snd]. rewrite E1.
      destruct (IH h1 _ Hb1) as (h' & Ed & Hb'); [done.. |]. exists h'. split; [done|].
      simpl in *. by rewrite <- app_assoc in Hb'.
Qed.

(** ** A stream in windows *)

(** What a message of the server carries. *)
Definition carries (d : jstr) (us : list (StreamChunkType * jstr)) : Prop :=
  isStreamDoneMessage d = false /\ parseStreamMessageUpdates d = Some (string_update <$> us).

Lemma of_type_app type us us' : of_type type (us ++ us') = of_type type us ++ of_type type us'.
Proof. apply omap_app. Qed.

Lemma appendable_app acc xs ys :
  appendable acc (xs ++ ys) = appendable acc xs && appendable (acc ++ concat xs) ys.
Proof.
  revert acc. induction xs as [|x xs IH]; intros acc; simpl; [by rewrite app_nil_r|].
  by rewrite IH, andb_assoc, app_assoc.
Qed.

Lemma message_batched c h h0 i src p d us : live i c = Some src -> callbacks src = requestGenerationRef h0 ->
  carries d us -> batched h0 h p -> p_generation p = requestGenerationRef h0 ->
  appendable (p_content p) (of_type ContentChunk us) = true ->
  appendable (p_reasoning p) (of_type ReasoningChunk us) = true ->
  exists h', chat_event (MessageEvent i (Some d)) (c, h) = (c, h') /\
    batched h0 h' {| p_generation := p_generation p; p_content := p_content p ++ concat (of_type ContentChunk us);
                     p_reasoning := p_reasoning p ++ concat (of_type ReasoningChunk us) |}.
Proof.
  intros El Hcb [Hd Hp] Hb Hg Hc Hr. destruct (deliver_batched h h0 p us Hb Hg Hc Hr) as (h' & E & Hb').
  exists h'. split; [|done]. cbn [on_stream_event on_message]. rewrite El. cbv zeta. change (default [] (Some d)) with d.
  by rewrite Hd, Hp, Hcb, E.
Qed.

Definition message_turns (i : nat) (ds : list jstr) : list turn := (fun d => TStream (MessageEvent i (Some d))) <$> ds.

Lemma messages_batched c h h0 i src p ds uss : live i c = Some src -> callbacks src = requestGenerationRef h0 ->
  Forall2 carries ds uss -> batched h0 h p -> p_generation p = requestGenerationRef h0 ->
  appendable (p_content p) (of_type ContentChunk (concat uss)) = true ->
  appendable (p_reasoning p) (of_type ReasoningChunk (concat uss)) = true ->
  exists h', go (message_turns i ds) (c, h) = (c, h') /\
    batched h0 h' {| p_generation := p_generation p;
                     p_content := p_content p ++ concat (of_type ContentChunk (concat uss));
                     p_reasoning := p_reasoning p ++ concat (of_type ReasoningChunk (concat uss)) |}.
Proof.
  intros El Hcb Hall. revert h p. induction Hall as [|d us ds uss Hd _ IH]; intros h p Hb Hg Hc Hr.
  { exists h. split; [done|]. simpl. rewrite !app_nil_r. by destruct p. }
  simpl in Hc, Hr. rewrite of_type_app, appendable_app in Hc, Hr.
  apply andb_true_iff in Hc as [Hc1 Hc2], Hr as [Hr1 Hr2].
  destruct (message_batched c h h0 i src p d us El Hcb Hd Hb Hg Hc1 Hr1) as (h1 & E & Hb1).
  destruct (IH h1 _ Hb1) as (h' & E' & Hb'); [done..|]. exists h'. simpl in *. rewrite <- !app_assoc in Hb'.
  rewrite !of_type_app, !concat_app. split; [|done]. unfold turns in *. simpl. by rewrite <- E', <- E.
Qed.

(** The updater of a flush, if there is anything to flush. *)
Definition flushes (p : PendingStreamChunks) : list updater :=
  match p_reasoning p, p_content p with [], [] => [] | _, _ => [FlushUpdate (p_generation p) p] end.

Lemma flush_handed h us ms : p_generation (pendingStreamChunksRef h) = requestGenerationRef h -> handed h us ms ->
  handed (flush (requestGenerationRef h) h) (us ++ flushes (pendingStreamChunksRef h)) ms.
Proof.
  intros Hp Hh. assert (handed (clear_flush_timer h) us ms) as Hh1.
  { unfold clear_flush_timer. by destruct (streamFlushTimerRef h). }
  assert (requestGenerationRef (clear_flush_timer h) = requestGenerationRef h /\
          pendingStreamChunksRef (clear_flush_timer h) = pendingStreamChunksRef h) as [Hg' Hp'].
  { unfold clear_flush_timer. by destruct (streamFlushTimerRef h). }
  unfold flushStreamUpdates, flushes. rewrite Nat.eqb_refl. simpl. rewrite Hp', Hp, Nat.eqb_refl. simpl.
  destruct (p_reasoning (pendingStreamChunksRef h)), (p_content (pendingStreamChunksRef h)); [by rewrite app_nil_r|..];
    by apply handed_update.
Qed.

(** A stream between two flushes, with React up to date. *)
Record streaming_idle (i : nat) (s : chat_system) : Prop := {
  i_ok : chat_ok s;
  i_live : exists src, live i s.1 = Some src;
  i_pending : pendingStreamChunksRef s.2 = no_chunks (requestGenerationRef s.2);
  i_queue : queue s.2 = [];
}.

(** The timer that the chunks have set fires, and React renders. *)
Definition flush_turns (s : chat_system) : list turn :=
  match streamFlushTimerRef s.2 with Some id => [TTimer id; TRender] | None => [TRender] end.

Lemma fires_handed c h id us ms : chat_ok (c, h) -> streamFlushTimerRef h = Some id -> handed h us ms ->
  let h' := timer_fires eager readings id h in
  handed h' (us ++ flushes (pendingStreamChunksRef h)) ms /\ requestGenerationRef h' = requestGenerationRef h /\
  pendingStreamChunksRef h' = no_chunks (requestGenerationRef h).
Proof.
  intros Hok Hid Hh h'. pose proof (k_ref Hok id Hid) as Hin. simpl in Hin. unfold h', timer_fires.
  destruct (list_find _ _) as [[k [id' g]]|] eqn:E; [|apply list_find_None in E; rewrite Forall_forall in E; by apply E in Hin].
  apply list_find_Some in E as (Hk & Hid' & _). simpl in Hid'. subst id'. apply list_elem_of_lookup_2 in Hk.
  destruct (k_timers Hok _ Hk) as [_ Hg]. simpl in Hg. subst g. set (h0 := set_timer _ _ _ h).
  split; [by apply (flush_handed h0); [apply (k_pending Hok)|]|].
  destruct (flush_frame h0 (k_pending Hok)) as (ms' & q & tick & E'). simpl in E'. rewrite E'. simpl.
  unfold clear_flush_timer. by destruct (streamFlushTimerRef h0).
Qed.

(** What the timer does with chunks that wait: their updater, with all of them. *)
Lemma fires_update c h id : chat_ok (c, h) -> streamFlushTimerRef h = Some id ->
  pendingStreamChunksRef h <> no_chunks (requestGenerationRef h) ->
  timer_fires eager readings id h
  = update (FlushUpdate (requestGenerationRef h) (pendingStreamChunksRef h))
      (set_pending (no_chunks (requestGenerationRef h)) (set_timer None [] (nextTimer h) h)).
Proof.
  intros Hok Hid Hp. pose proof (k_ref Hok id Hid) as Hin. simpl in Hin. unfold timer_fires.
  destruct (list_find _ _) as [[k [id' g]]|] eqn:E; [|apply list_find_None in E; rewrite Forall_forall in E; by apply E in Hin].
  apply list_find_Some in E as (Hk & _ & _). apply list_elem_of_lookup_2 in Hk.
  destruct (k_timers Hok _ Hk) as [_ Hg]. simpl in Hg. subst g.
  unfold flushStreamUpdates. simpl. rewrite Nat.eqb_refl. simpl.
  rewrite clear_eq by (simpl; intros e [_ He]%list_elem_of_filter; by apply (k_timers Hok)). simpl.
  pose proof (k_pending Hok) as Hg. simpl in Hg. rewrite Hg, Nat.eqb_refl. simpl.
  destruct (pendingStreamChunksRef h) as [g [|x ct] [|y rs]]; try done. simpl in *. by subst g.
Qed.

Definition play_window (i : nat) (ds : list jstr) (s : chat_system) : chat_system :=
  let s1 := go (message_turns i ds) s in go (flush_turns s1) s1.

Lemma handed_now h : queue h = [] -> handed h [] (messages h).
Proof. intros E. exists []. rewrite E. split; [done | constructor]. Qed.

Lemma message_turns_mounted i ds : Forall mounted (message_turns i ds).
Proof. apply Forall_fmap, Forall_true. done. Qed.

Lemma ok_go l s : Forall mounted l -> chat_ok s -> chat_ok (go l s).
Proof.
  intros Hl. revert s. induction Hl as [|a l Ha _ IH]; intros s Hok; [done|]. by apply IH, ok_turn.
Qed.

Lemma window_plays i s ds uss : streaming_idle i s -> Forall2 carries ds uss ->
  appendable [] (of_type ContentChunk (concat uss)) = true ->
  appendable [] (of_type ReasoningChunk (concat uss)) = true ->
  streaming_idle i (play_window i ds s) /\ (play_window i ds s).1 = s.1 /\
  applied (requestGenerationRef s.2) (flushes (batch (requestGenerationRef s.2) (concat uss)))
    (messages s.2) (messages (play_window i ds s).2).
Proof.
  destruct s as [c h]. intros [Hok [src Hl] Hp Hq] Hds Hc Hr. simpl in *. unfold play_window.
  destruct (messages_batched c h h i src (no_chunks (requestGenerationRef h)) ds uss Hl (live_current _ _ _ _ Hok Hl) Hds)
    as (h1 & E & Hb); [|done..|].
  { exists (streamFlushTimerRef h), (timers h), (nextTimer h). rewrite <- Hp. by destruct h. }
  assert (chat_ok (c, h1)) as Hok1 by (rewrite <- E; apply ok_go; [apply message_turns_mounted | done]).
  rewrite E. destruct Hb as (ref & l & next & ->). simpl in *.
  set (h1 := set_timer _ _ _ _) in *. fold (batch (requestGenerationRef h) (concat uss)) in *.
  assert (handed h1 [] (messages h)) as Hh by (exists []; simpl; rewrite Hq; split; [done | constructor]).
  unfold flush_turns. simpl. destruct ref as [id|].
  - destruct (fires_handed c h1 id [] (messages h) Hok1 eq_refl Hh) as (Hh2 & Hg2 & Hp2). simpl in Hh2.
    assert (chat_ok (go [TTimer id; TRender] (c, h1))) as Hok2 by (by apply ok_go; [repeat constructor|]).
    simpl in *. unfold on_chat in *. simpl in *. set (h2 := timer_fires _ _ _ _) in *.
    destruct (handed_render _ _ _ Hh2) as [Ha Hq2]. rewrite Hg2 in Ha. split_and!; [|done | exact Ha].
    split; simpl; [done | eauto | | done]. unfold render in *. destruct (call_all _ _ _ _). simpl in *. congruence.
  - assert (chat_ok (go [TRender] (c, h1))) as Hok2 by (by apply ok_go; [repeat constructor|]).
    simpl in *. unfold on_chat in *. simpl in *. destruct (handed_render _ _ _ Hh) as [Ha Hq2].
    assert (batch (requestGenerationRef h) (concat uss) = no_chunks (requestGenerationRef h)) as Eb.
    { pose proof (k_flush Hok1) as Hf. simpl in Hf. unfold batch, no_chunks in *. simpl in Hf.
      destruct (concat (of_type ContentChunk _)), (concat (of_type ReasoningChunk _)); try done;
        destruct Hf as [? Hf]; try done; by (left + right). }
    split_and!; [|done | rewrite Eb; exact Ha]. split; simpl; [done | eauto | | done].
    unfold render in *. destruct (call_all _ _ _ _). simpl in *. done.
Qed.

Definition play (i : nat) (windows : list (list jstr)) (s : chat_system) : chat_system :=
  foldl (fun s ds => play_window i ds s) s windows.

(** The chunks of each window, and what each flush adds. *)
Definition window_ok (ds : list jstr) (us : list (StreamChunkType * jstr)) : Prop :=
  (exists uss, Forall2 carries ds uss /\ us = concat uss) /\
  appendable [] (of_type ContentChunk us) = true /\ appendable [] (of_type ReasoningChunk us) = true.

Lemma windows_play i s windows uss : streaming_idle i s -> Forall2 window_ok windows uss ->
  streaming_idle i (play i windows s) /\ (play i windows s).1 = s.1 /\
  applied (requestGenerationRef s.2) (concat ((fun us => flushes (batch (requestGenerationRef s.2) us)) <$> uss))
    (messages s.2) (messages (play i windows s).2).
Proof.
  intros Hi Hall. revert s Hi. induction Hall as [|ds us windows uss Hw _ IH]; intros s Hi; [split_and!; [done | done | constructor]|].
  destruct Hw as ((uss0 & Hds & ->) & Hc & Hr). destruct (window_plays i s ds uss0 Hi Hds Hc Hr) as (Hi1 & Hc1 & Ha1).
  destruct (IH (play_window i ds s) Hi1) as (Hi2 & Hc2 & Ha2).
  assert (requestGenerationRef (play_window i ds s).2 = requestGenerationRef s.2) as Hg.
  { rewrite <- (k_gen (i_ok _ _ Hi1)), Hc1. apply (k_gen (i_ok _ _ Hi)). }
  rewrite Hg in Ha2. split_and!; [done | by rewrite <- Hc1 | by eapply applied_app].
Qed.

(** The end of the stream. *)
Lemma done_plays i s : streaming_idle i s ->
  applied (requestGenerationRef s.2) [CompleteUpdate (requestGenerationRef s.2)]
    (messages s.2) (messages (go [TStream (done_event i); TRender] s).2).
Proof.
  destruct s as [c h]. intros [Hok [src Hl] Hp Hq]. simpl in *. rewrite Hl. simpl.
  rewrite (live_current c h i src) by done. unfold handleStreamComplete. rewrite Nat.eqb_refl. simpl.
  pose proof (flush_handed h [] (messages h) (k_pending Hok) (handed_now h Hq)) as Hh. rewrite Hp in Hh. simpl in Hh.
  destruct (flush_frame h (k_pending Hok)) as (ms & q & tick & E).
  assert (requestGenerationRef (flush (requestGenerationRef h) h) = requestGenerationRef h) as Hg.
  { rewrite E. simpl. unfold clear_flush_timer. by destruct (streamFlushTimerRef h). }
  set (h1 := flush (requestGenerationRef h) h) in *.
  assert (handed (setIsRequesting false h1) [] (messages h)) as Hh1 by done.
  apply (handed_update (CompleteUpdate (requestGenerationRef h))) in Hh1.
  destruct (handed_render _ _ _ Hh1) as [Ha _].
  destruct (update_frame (CompleteUpdate (requestGenerationRef h)) (setIsRequesting false h1)) as (ms' & q' & tick' & E').
  assert (requestGenerationRef (update (CompleteUpdate (requestGenerationRef h)) (setIsRequesting false h1))
          = requestGenerationRef h) as Hg' by (rewrite E'; exact Hg).
  rewrite Hg' in Ha. exact Ha.
Qed.

(** ** From updaters to the last message *)

Lemma update_last_snoc pre m f : from m = Assistant -> updateLastAssistantMessage (pre ++ [m]) f = pre ++ [f m].
Proof.
  intros Hm. unfold updateLastAssistantMessage. rewrite last_snoc, bool_decide_true by done.
  by rewrite length_app, Nat.add_sub, alter_app_r_alt, Nat.sub_diag by done.
Qed.

Definition keep_text (s : jstr) : list jstr := match s with [] => [] | _ => [s] end.

(** A flush applies its reasoning, then its content. *)
Lemma flush_chunks p now m : exists rs cs, texts rs = keep_text (p_reasoning p) /\ texts cs = keep_text (p_content p) /\
  flush_message p now m = apply_chunks ContentChunk (apply_chunks ReasoningChunk m rs) cs.
Proof.
  unfold flush_message. destruct (p_reasoning p) as [|a r], (p_content p) as [|b c].
  - by exists [], [].
  - by exists [], [(b :: c, now 2%nat, now 3%nat)].
  - by exists [(a :: r, now 0%nat, now 1%nat)], [].
  - by exists [(a :: r, now 0%nat, now 1%nat)], [(b :: c, now 2%nat, now 3%nat)].
Qed.

Lemma apply_chunks_app type m cs cs' : apply_chunks type m (cs ++ cs') = apply_chunks type (apply_chunks type m cs) cs'.
Proof. apply foldl_app. Qed.

Lemma apply_chunk_from type m c n1 n2 : from (applyStreamingChunk m type c n1 n2) = from m.
Proof.
  unfold applyStreamingChunk. case_bool_decide; [done|]. destruct type; [done|].
  destruct (process_spec m (getAppendableChunk (getMessageContent m) c) n1) as (_ & _ & _ & Hf).
  cbv zeta. autorewrite with message. case_match; autorewrite with message; [case_match|]; by autorewrite with message.
Qed.

Lemma apply_chunks_from type m cs : from (apply_chunks type m cs) = from m.
Proof.
  revert m. induction cs as [|c cs IH]; intros m; [done|]. unfold apply_chunks in *. simpl. rewrite IH. apply apply_chunk_from.
Qed.

Lemma apply_chunk_open type m c n1 n2 : isAssistantMessageFinal m = false ->
  isAssistantMessageFinal (applyStreamingChunk m type c n1 n2) = false.
Proof.
  intros Hm. unfold applyStreamingChunk. case_bool_decide; [done|]. by destruct type.
Qed.

Lemma apply_chunks_open type m cs : isAssistantMessageFinal m = false ->
  isAssistantMessageFinal (apply_chunks type m cs) = false.
Proof.
  revert m. induction cs as [|c cs IH]; intros m Hm; [done|]. unfold apply_chunks in *. simpl. by apply IH, apply_chunk_open.
Qed.

(** No reasoning after content. *)
Fixpoint reasoning_first (ps : list PendingStreamChunks) : Prop :=
  match ps with
  | [] => True
  | p :: ps' => (p_content p = [] \/ Forall (fun p => p_reasoning p = []) ps') /\ reasoning_first ps'
  end.

Definition reasonings (ps : list PendingStreamChunks) : list jstr := concat ((fun p => keep_text (p_reasoning p)) <$> ps).
Definition contents (ps : list PendingStreamChunks) : list jstr := concat ((fun p => keep_text (p_content p)) <$> ps).

Lemma reasonings_cons p ps : reasonings (p :: ps) = keep_text (p_reasoning p) ++ reasonings ps.
Proof. done. Qed.
Lemma contents_cons p ps : contents (p :: ps) = keep_text (p_content p) ++ contents ps.
Proof. done. Qed.

Lemma no_reasonings ps : Forall (fun p => p_reasoning p = []) ps -> reasonings ps = [].
Proof. induction 1 as [|p ps Hp _ IH]; [done|]. unfold reasonings in *. simpl. by rewrite Hp. Qed.

(** The flushes of some batches, as chunks. *)
Lemma applied_flushes g ps pre m ms' : Forall (fun p => p_generation p = g) ps -> from m = Assistant ->
  reasoning_first ps -> applied g (concat (flushes <$> ps)) (pre ++ [m]) ms' ->
  exists rs cs, texts rs = reasonings ps /\ texts cs = contents ps /\
    ms' = pre ++ [apply_chunks ContentChunk (apply_chunks ReasoningChunk m rs) cs].
Proof.
  intros Hg. revert m. induction Hg as [|p ps Hp _ IH]; intros m Hm Hord Ha.
  { inversion Ha; subst. by exists [], []. }
  simpl in Hord. destruct Hord as [Hord1 Hord2]. simpl in Ha.
  assert (exists now, applied g (concat (flushes <$> ps)) (pre ++ [flush_message p now m]) ms') as [now Ha'].
  { unfold flushes in Ha at 1. unfold flush_message. destruct (p_reasoning p) eqn:Er, (p_content p) eqn:Ec; simpl in Ha.
    { exists (fun _ => fzero). done. }
    all: inversion Ha as [|? ? now ? ? Ha']; subst; exists now; simpl in Ha'; rewrite Nat.eqb_refl in Ha';
      simpl in Ha'; rewrite update_last_snoc in Ha' by done; unfold flush_message in Ha'; by rewrite Er, Ec in Ha'. }
  destruct (flush_chunks p now m) as (r1 & c1 & Hr1 & Hc1 & E). rewrite E in Ha'.
  apply IH in Ha' as (rs & cs & Hrs & Hcs & ->); [|by rewrite !apply_chunks_from | done].
  rewrite reasonings_cons, contents_cons, <- Hr1, <- Hc1, <- Hrs, <- Hcs.
  destruct Hord1 as [Hc|Hr].
  - rewrite Hc in Hc1. destruct c1; [|done]. exists (r1 ++ rs), cs. unfold texts. rewrite fmap_app, apply_chunks_app. done.
  - assert (texts rs = []) as Er by (etrans; [exact Hrs | by apply no_reasonings]). destruct rs; [|done].
    exists r1, (c1 ++ cs). unfold texts. rewrite fmap_app, apply_chunks_app, app_nil_r. done.
Qed.

(** ** A stop in detail *)

Lemma lazy_update u h : (forall h, eager h = false) ->
  update u h = set_messages (rendered h) (messages h) (queue h ++ [u]) (clock h) h.
Proof. intros He. unfold onMessageUpdate. by rewrite He, andb_false_r. Qed.

Lemma lazy_flush c h : (forall h, eager h = false) -> chat_ok (c, h) ->
  messages (flush (requestGenerationRef h) h) = messages h /\
  queue (flush (requestGenerationRef h) h) = queue h ++ flushes (pendingStreamChunksRef h).
Proof.
  intros He Hok. pose proof (k_pending Hok) as Hp. simpl in Hp.
  unfold flushStreamUpdates, flushes. rewrite Nat.eqb_refl. simpl.
  rewrite (clear_eq h) by (intros e; apply (ok_timer _ (c, h) e Hok)). simpl. rewrite Hp, Nat.eqb_refl. simpl.
  destruct (p_reasoning (pendingStreamChunksRef h)), (p_content (pendingStreamChunksRef h)); simpl;
    rewrite ?lazy_update by done; simpl; by rewrite ?app_nil_r.
Qed.

(** ** Theorems *)

(** C26: no request hangs on the program's side: while the component is mounted,
    whatever the user, the servers, the timers and React have done, a request in
    progress waits for its headers, for its open stream or for its response, and at
    most two answers of the servers end it, after which nothing is generating. *)
Theorem request_can_finish l ms :
  Forall mounted l -> let s := go l (init ms) in
  isRequesting s.2 = true ->
  exists l', Forall answer l' /\ (length l' <= 2)%nat /\ isGenerating (go l' s) = false.
Proof.
  intros Hl s Hreq. assert (chat_ok s) as Hok by (by apply ok_turns). clearbody s.
  destruct s as [c h]. destruct (k_awaited Hok eq_refl Hreq) as [(q & Hq)|[(i & src & Hs)|(i & r & Hr & Hg & _ & Hi & Hs)]].
  - destruct (headers_open c h q Hok Hq) as (i & src & Hlive).
    exists [TStream (HeadersResolved (requestGenerationRef h)); TStream (done_event i)].
    split_and!; [by repeat constructor | simpl; lia |]. eapply (done_ends (chat_event _ (c, h))); [by apply ok_event | done].
  - exists [TStream (done_event i)]. split_and!; [by repeat constructor | simpl; lia | by eapply (done_ends (c, h))].
  - exists [TSettled i (inl [])]. split_and!; [by repeat constructor | simpl; lia | by eapply (response_ends (c, h))].
Qed.

(** C31: a stop is final: once the user has stopped and React has rendered,
    nothing is generating, the last answer is not left unfinished, and no header,
    stream event, response, timer or render that still comes changes a message or
    makes the playground generate again. *)
Theorem stop_is_final l ms l' :
  Forall mounted l -> Forall unattended l' -> let s := go (l ++ [TStop; TRender]) (init ms) in
  (forall m, last (messages s.2) = Some m -> isPendingAssistantMessage m = false) /\
  messages (go l' s).2 = messages s.2 /\ isGenerating s = false /\ isGenerating (go l' s) = false.
Proof.
  intros Hl Hl' s. unfold s. rewrite go_app.
  destruct (stopped_quiet (go l (init ms)) (ok_turns l ms Hl)) as [Hq Hlast].
  destruct (quiet_turns l' _ Hl' Hq) as [Hq' Hm]. split_and!; [done | done | by apply quiet_idle | by apply quiet_idle].
Qed.

(** C37: no chunk is forgotten: while the component is mounted, chunks that have
    not been applied have a timer, the only one, that belongs to the current
    request; when it fires, it hands React one update with exactly these chunks
    and leaves no chunks and no timer, and the next render shows the last answer
    with them, where it would have shown it without. *)
Theorem pending_chunks_scheduled l ms :
  Forall mounted l -> let s := go l (init ms) in let h := s.2 in
  let g := requestGenerationRef h in let chunks := pendingStreamChunksRef h in
  chunks <> no_chunks g ->
  exists id, (forall e, e ∈ timers h -> e = (id, g)) /\ (id, g) ∈ timers h /\
    timer_fires eager readings id h
    = onMessageUpdate eager readings (FlushUpdate g chunks) (set_pending (no_chunks g) (set_timer None [] (nextTimer h) h)) /\
    exists now, messages (go [TTimer id; TRender] s).2
      = updateLastAssistantMessage (messages (go [TRender] s).2) (flush_message chunks now).
Proof.
  intros Hl s h g chunks Hp. assert (chat_ok s) as Hok by (by apply ok_turns).
  subst h g chunks. clearbody s. destruct s as [c h]. simpl in *.
  assert (is_Some (streamFlushTimerRef h)) as [id Hid].
  { apply (k_flush Hok). pose proof (k_pending Hok) as Hg. simpl in *. destruct (pendingStreamChunksRef h) as [g ct r].
    simpl in *. subst g. destruct ct, r; [by destruct Hp | by right | by left | by left]. }
  pose proof (k_ref Hok id Hid) as Hin. exists id. pose proof (fires_update c h id Hok Hid Hp) as E. split_and!; [|done|done|].
  - intros [id' g] [E' Hg]%(k_timers Hok). simpl in *. congruence.
  - simpl. rewrite E.
    match goal with |- context [update ?u ?h'] => destruct (render_update u h') as [now En] end.
    exists now. rewrite En. cbn [call_updater]. simpl. rewrite Nat.eqb_refl. simpl. f_equal.
    unfold render. simpl. by destruct (call_all _ _ _ _ _).
Qed.

(** C5: a streamed answer ends like an unstreamed one.  The messages of a stream
    come in windows, each ended by the flush timer and a render, and [DONE] and a
    render end the stream.  When no chunk begins with what is waiting in its
    window, no flush begins with all that was flushed before it, no reasoning
    follows content, and the content either has no think tag or has reasoning in
    its tags and no separate reasoning, the unfinished answer at the end of the
    conversation shows the content, reasoning and status that it would show had the
    server sent the whole text in one response; the other messages stay. *)
Theorem streamed_answer_matches i s windows uss pre m n1 n2 n3 :
  streaming_idle i s -> Forall2 window_ok windows uss ->
  let g := requestGenerationRef s.2 in
  let rs := reasonings (batch g <$> uss) in
  let cs := contents (batch g <$> uss) in
  messages s.2 = pre ++ [m] -> from m = Assistant -> isAssistantMessageFinal m = false -> blank m ->
  reasoning_first (batch g <$> uss) -> appendable [] rs = true -> appendable [] cs = true ->
  includes (concat cs) OPEN = false \/ (rs = [] /\ reasoning_text (parseThinkTags (concat cs)) <> []) ->
  exists m', messages (go [TStream (done_event i); TRender] (play i windows s)).2 = pre ++ [m'] /\
    same_display m' (applyChatCompletionChoice m
      {| c_content := Some (concat cs); c_reasoning := Some (concat rs) |} n1 n2 n3).
Proof.
  intros Hi Hw g rs cs Hms Hm Hfin Hblank Hord Hrs Hcs Htags.
  destruct (windows_play i s windows uss Hi Hw) as (Hi' & Hc & Ha). rewrite Hms in Ha.
  assert (requestGenerationRef (play i windows s).2 = g) as Hg.
  { rewrite <- (k_gen (i_ok _ _ Hi')), Hc. apply (k_gen (i_ok _ _ Hi)). }
  pose proof (done_plays i _ Hi') as Hd. rewrite Hg in Hd. fold g in Ha.
  set (final := messages (go _ _).2) in *. clearbody final.
  replace (concat ((fun us => flushes (batch g us)) <$> uss)) with (concat (flushes <$> (batch g <$> uss))) in Ha
    by (by rewrite <- list_fmap_compose).
  apply applied_flushes in Ha as (rs' & cs' & Ers & Ecs & E); [|by apply Forall_fmap, Forall_true | done | done].
  rewrite E in Hd. inversion Hd as [|? ? now ? ? Hd']; subst. inversion Hd'; subst. simpl. rewrite Nat.eqb_refl. simpl.
  rewrite update_last_snoc by (by rewrite !apply_chunks_from). eexists. split; [done|].
  fold rs in Ers. fold cs in Ecs. rewrite <- Ers, <- Ecs in *.
  rewrite apply_chunks_open by (by apply apply_chunks_open). apply (streaming_matches_response m rs' cs'); try done.
  destruct Htags as [?|[H ?]]; [by left | right]. split; [|done]. by destruct rs'.
Qed.

(** A stop loses the chunks of the last window when React calls updaters at
    render, as it does whenever an update is already waiting: the flush that
    [stopGeneration] makes is guarded by the generation that [stopGeneration] then
    leaves, so the render applies only the end of the answer. *)
Theorem stop_drops_pending l ms :
  (forall h, eager h = false) -> Forall mounted l -> let s := go l (init ms) in
  queue s.2 = [] ->
  exists now, messages (go [TStop; TRender] s).2
    = updateLastAssistantMessage (messages s.2) (fun m => if isAssistantMessagePending m then complete_message now m else m).
Proof.
  intros He Hl s Hq. assert (chat_ok s) as Hok by (by apply ok_turns). clearbody s. destruct s as [c h]. simpl in Hq.
  destruct (lazy_flush c h He Hok) as [Hm Hqf]. rewrite Hq in Hqf. simpl in Hqf.
  cbn [turns foldl take_turn]. rewrite (stop_form (c, h) Hok). unfold on_chat. cbn [fst snd].
  rewrite lazy_update by done. unfold render. cbn [queue messages clock requestGenerationRef set_messages renewed
    setIsRequesting set_abort set_pending set_timer set_generation]. rewrite Hqf, Hm.
  pose proof (k_pending Hok) as Hp. simpl in Hp. unfold flushes. rewrite Hp.
  destruct (p_reasoning (pendingStreamChunksRef h)), (p_content (pendingStreamChunksRef h)); simpl;
    rewrite ?(proj2 (Nat.eqb_neq _ _) (n_Sn (requestGenerationRef h))), Nat.eqb_refl; simpl; by eexists.
Qed.

(** Batching loses repeated text: of two equal chunks that arrive in one
    window, the flush shows one, although applying them one by one to an answer that
    has begun shows both. *)
Theorem batch_drops_repeat h m c now n1 n2 n3 n4 :
  pendingStreamChunksRef h = no_chunks (requestGenerationRef h) -> c <> [] ->
  status m <> Some Error -> getMessageContent m <> [] -> starts_with (getMessageContent m) c = false ->
  exists h1 h2,
    handleStreamUpdate (requestGenerationRef h) ContentChunk (JStr c) h = Some h1 /\
    handleStreamUpdate (requestGenerationRef h) ContentChunk (JStr c) h1 = Some h2 /\
    getMessageContent (flush_message (pendingStreamChunksRef h2) now m) = getMessageContent m ++ c /\
    getMessageContent (apply_chunks ContentChunk m [(c, n1, n2); (c, n3, n4)]) = getMessageContent m ++ c ++ c.
Proof.
  intros Hp Hne Hs Hm Hsw.
  assert (exists h1, handleStreamUpdate (requestGenerationRef h) ContentChunk (JStr c) h = Some h1 /\
    batched h h1 (update_pending ContentChunk c (no_chunks (requestGenerationRef h)))) as (h1 & E1 & ref & l & next & ->).
  { apply (update_batched h h (no_chunks _) ContentChunk c); [|done | done].
    exists (streamFlushTimerRef h), (timers h), (nextTimer h). rewrite <- Hp. by destruct h. }
  eexists _, _. split; [done|]. split.
  { unfold handleStreamUpdate. simpl. rewrite !Nat.eqb_refl. simpl. unfold mergePendingStreamChunk.
    destruct c as [|d c]; [by destruct Hne|].
    by rewrite (proj2 (starts_with_app (d :: c) (d :: c))) by (exists []; by rewrite app_nil_r). }
  assert (getAppendableChunk (getMessageContent m) c = c) as Ha by (apply getAppendable_id; by rewrite Hsw, orb_true_r).
  split.
  - unfold scheduleStreamFlush. simpl. rewrite Nat.eqb_refl. simpl.
    replace (pendingStreamChunksRef _) with (update_pending ContentChunk c (no_chunks (requestGenerationRef h)))
      by (by destruct ref).
    unfold flush_message. simpl. destruct c as [|d c]; [done|]. by apply content_chunk_spec.
  - unfold apply_chunks. simpl. destruct (content_chunk_spec m c n1 n2 Hs Ha) as (E & _ & Es & _).
    destruct (content_chunk_spec (applyStreamingChunk m ContentChunk c n1 n2) c n3 n4) as (E' & _); [by rewrite Es| |].
    + rewrite E. apply getAppendable_id. apply orb_true_iff. right. apply negb_true_iff, not_true_iff_false. intros Ew. apply starts_with_app in Ew as [r Ew].
      apply (f_equal length) in Ew. rewrite !length_app in Ew. destruct (getMessageContent m); [by destruct Hm | simpl in Ew; lia].
    + by rewrite E', E, <- app_assoc.
Qed.
End Handler.

(** ** A conversation *)

Definition lazy : chat -> bool := fun _ => false.
Definition midnight : nat -> f64 := fun _ => fzero.

Definition streaming_config : PlaygroundConfig :=
  {| model := js "m"; group := []; temperature := fzero; top_p := fzero; max_tokens := fzero;
     frequency_penalty := fzero; presence_penalty := fzero; seed := None; stream := true |}.
Definition nothing_enabled : ParameterEnabled :=
  {| en_temperature := false; en_top_p := false; en_max_tokens := false; en_frequency_penalty := false;
     en_presence_penalty := false; en_seed := false |}.

(** A question has been sent and its stream is open. *)
Definition question : list turn :=
  [TSend streaming_config nothing_enabled (js "Hi") (js "k1") (js "v1") (js "k2") (js "v2") fzero;
   TRender; TStream (HeadersResolved 1)].

Definition content_data (text : string) : jstr :=
  single_quoted "{'choices':[{'delta':{'content':'" ++ js text ++ single_quoted "'}}]}".
Definition content_turn (text : string) : turn := TStream (MessageEvent 0 (Some (content_data text))).

Lemma question_mounted : Forall mounted question.
Proof. repeat constructor; discriminate. Defined.

Lemma request_can_finish_witness :
  exists l', Forall answer l' /\ (length l' <= 2)%nat /\
    isGenerating (turns lazy midnight id l' (turns lazy midnight id question (init []))) = false.
Proof. apply (request_can_finish lazy midnight id question []); [apply question_mounted | reflexivity]. Defined.

Lemma stop_is_final_witness :
  let s := turns lazy midnight id (question ++ [TStop; TRender]) (init []) in
  messages (turns lazy midnight id [content_turn "late"; TRender] s).2 = messages s.2.
Proof.
  apply (stop_is_final lazy midnight id question [] [content_turn "late"; TRender]); [apply question_mounted|].
  repeat constructor.
Defined.

Lemma pending_chunks_scheduled_witness :
  let s := turns lazy midnight id (question ++ [content_turn "a"]) (init []) in
  p_content (pendingStreamChunksRef s.2) = js "a" /\
  exists k, (k, requestGenerationRef s.2) ∈ timers s.2 /\
    exists now, messages (turns lazy midnight id [TTimer k; TRender] s).2
      = updateLastAssistantMessage (messages (turns lazy midnight id [TRender] s).2)
          (flush_message (pendingStreamChunksRef s.2) now).
Proof.
  split; [reflexivity|].
  destruct (pending_chunks_scheduled lazy midnight id (question ++ [content_turn "a"]) []) as (k & _ & Hk & _ & Hm).
  - repeat constructor; discriminate.
  - vm_compute. discriminate.
  - exists k. split; [exact Hk|exact Hm].
Defined.

Lemma stop_drops_pending_witness :
  let s := turns lazy midnight id (question ++ [content_turn "a"]) (init []) in
  p_content (pendingStreamChunksRef s.2) = js "a" /\
  exists now, messages (turns lazy midnight id [TStop; TRender] s).2
    = updateLastAssistantMessage (messages s.2) (fun m => if isAssistantMessagePending m then complete_message now m else m).
Proof.
  split; [reflexivity|]. apply (stop_drops_pending lazy midnight id (question ++ [content_turn "a"]) []).
  - reflexivity.
  - repeat constructor; discriminate.
  - reflexivity.
Defined.

Definition begun_answer : Message :=
  applyStreamingChunk (createLoadingAssistantMessage (js "k") (js "v") fzero) ContentChunk (js "ha") fzero fzero.

Lemma batch_drops_repeat_witness :
  exists h1 h2,
    handleStreamUpdate 0 ContentChunk (JStr (js " ha")) (initial_chat []) = Some h1 /\
    handleStreamUpdate 0 ContentChunk (JStr (js " ha")) h1 = Some h2 /\
    getMessageContent (flush_message (pendingStreamChunksRef h2) midnight begun_answer) = js "ha ha" /\
    getMessageContent (apply_chunks ContentChunk begun_answer [(js " ha", fzero, fzero); (js " ha", fzero, fzero)])
    = js "ha ha ha".
Proof.
  apply (batch_drops_repeat (initial_chat []) begun_answer (js " ha") midnight fzero fzero fzero fzero);
    first [reflexivity | discriminate].
Defined.

Lemma streamed_answer_matches_witness :
  let s := turns lazy midnight id question (init []) in
  exists m', messages (turns lazy midnight id [TStream (done_event 0); TRender]
      (play lazy midnight id 0 [[content_data "a"; content_data "b"]; [content_data "c"]] s)).2
    = take 1 (messages s.2) ++ [m'] /\
    same_display m' (applyChatCompletionChoice (createLoadingAssistantMessage (js "k2") (js "v2") fzero)
      {| c_content := Some (js "abc"); c_reasoning := Some [] |} fzero fzero fzero).
Proof.
  apply (streamed_answer_matches lazy midnight id 0
    (turns lazy midnight id question (init [])) [[content_data "a"; content_data "b"]; [content_data "c"]]
    [[(ContentChunk, js "a"); (ContentChunk, js "b")]; [(ContentChunk, js "c")]]).
  - split; [apply ok_turns, question_mounted | by eexists | reflexivity | reflexivity].
  - repeat constructor.
    + exists [[(ContentChunk, js "a")]; [(ContentChunk, js "b")]]. split; [|reflexivity]. repeat constructor.
    + exists [[(ContentChunk, js "c")]]. split; [|reflexivity]. repeat constructor.
  - reflexivity.
  - reflexivity.
  - reflexivity.
  - split_and!; [reflexivity | reflexivity | discriminate].
  - split; [right; repeat constructor | split; [right; constructor | exact I]].
  - reflexivity.
  - reflexivity.
  - left. reflexivity.
Defined.

End ChatFacts.
