(* ===== verification/BillingRequestRules.v ===== *)
(** * Billing expressions: price tables and request rules

    Model of [features/pricing/lib/billing-expr.ts]: the table of variables, the
    rows of the price tables, and the request rules of the editor, which are read
    from the text of an expression with regular expressions and written back as
    text.

    Each regular expression is a function on the text that follows its pieces from
    left to right.  The pieces leave no choice: a class is always followed by a
    character outside it, so the longest match is the only one.  [JSON.parse] of a
    literal may throw out of the parser; such functions return a [res]. *)

From stdpp Require Import base list numbers strings.
From Stdlib Require Import ZArith SpecFloat Lia.
From S2P Require Import Prelude.
From S2P Require Import JsString.
From S2P Require Import JsNumber.
From S2P Require Import JsValue.
From S2P Require Import JsJson.
From S2P Require Import BillingTypes.
From S2P Require Import BillingCompile.
From S2P Require Import BillingRuntime.
From S2P Require Import BillingStructure.
From S2P Require Import BillingDisplay.

Module RequestRules.

(** ** Variable registry *)

Inductive BillingSide := SideInput | SideOutput | SideCondition.

Record BillingVar := {
  bv_key : TokenVariable;
  bv_field : option jstr;
  bv_tierField : option jstr;
  bv_label : jstr;
  bv_shortLabel : jstr;
  bv_side : BillingSide;
  bv_isBase : bool;
  bv_isConditionOnly : bool;
  bv_group : option jstr;
}.

Definition priced_var (key : TokenVariable) (field tierField label short : string) (side : BillingSide)
    (base : bool) (group : option jstr) : BillingVar :=
  {| bv_key := key; bv_field := Some (js field); bv_tierField := Some (js tierField); bv_label := js label;
     bv_shortLabel := js short; bv_side := side; bv_isBase := base; bv_isConditionOnly := false; bv_group := group |}.

Definition BILLING_VARS : list BillingVar :=
  [priced_var Vp "inputPrice" "input_unit_cost" "Input price" "Input" SideInput true None;
   priced_var Vc "outputPrice" "output_unit_cost" "Completion price" "Output" SideOutput true None;
   {| bv_key := Vlen; bv_field := None; bv_tierField := None; bv_label := js "Input length";
      bv_shortLabel := js "Length"; bv_side := SideCondition; bv_isBase := false; bv_isConditionOnly := true;
      bv_group := None |};
   priced_var Vcr "cacheReadPrice" "cache_read_unit_cost" "Cache read price" "Cache Read" SideInput false (Some (js "cache"));
   priced_var Vcc "cacheCreatePrice" "cache_create_unit_cost" "Cache create price" "Cache Write" SideInput false
     (Some (js "cache"));
   priced_var Vcc1h "cacheCreate1hPrice" "cache_create_1h_unit_cost" "Cache create (1h) price" "Cache Write (1h)" SideInput
     false (Some (js "cache"));
   priced_var Vimg "imagePrice" "image_unit_cost" "Image input price" "Image In" SideInput false (Some (js "media"));
   priced_var Vimg_o "imageOutputPrice" "image_output_unit_cost" "Image output price" "Image Out" SideOutput false
     (Some (js "media"));
   priced_var Vai "audioInputPrice" "audio_input_unit_cost" "Audio input price" "Audio In" SideInput false
     (Some (js "media"));
   priced_var Vao "audioOutputPrice" "audio_output_unit_cost" "Audio output price" "Audio Out" SideOutput false
     (Some (js "media"))].

Definition BILLING_PRICING_VARS : list BillingVar := List.filter (fun v => negb (bv_isConditionOnly v)) BILLING_VARS.

Definition BILLING_CONDITION_VARS : list TokenVariable :=
  bv_key <$> List.filter (fun v => bv_isBase v || bv_isConditionOnly v) BILLING_VARS.

Definition BILLING_EXTRA_VARS : list BillingVar :=
  List.filter (fun v => negb (bv_isBase v) && negb (bv_isConditionOnly v)) BILLING_VARS.

(** [BILLING_VAR_KEY_TO_FIELD[key]] *)
Definition BILLING_VAR_KEY_TO_FIELD (key : TokenVariable) : option jstr :=
  v ← List.find (fun v => bool_decide (bv_key v = key)) BILLING_PRICING_VARS; bv_field v.

(** ** Price tables *)

(** The fields whose names are computed are the entries of [pt_fields]. *)
Record ParsedTier := {
  pt_billingUnit : option BillingUnit;
  pt_fixedPrice : option f64;
  pt_conditionText : option jstr;
  pt_label : jstr;
  pt_conditions : list TokenTierCondition;
  pt_fields : list (jstr * f64);
}.

(** [conditionText] of a tier of a time-dependent expression. *)
Definition mapTokenTier (tier : TokenTier) (conditionText : option jstr) : ParsedTier :=
  let request := match tt_unit tier with Some Urequest => true | _ => false end in
  {| pt_label := tt_label tier;
     pt_conditions := tt_conditions tier;
     pt_billingUnit := if request then tt_unit tier else None;
     pt_fixedPrice := if request then tt_fixedPrice tier else None;
     pt_conditionText := match conditionText with Some [] => None | c => c end;
     pt_fields := (fun e => (default (js "undefined") (BILLING_VAR_KEY_TO_FIELD e.1), e.2)) <$> tt_prices tier |}.

Definition map_time_tier (tier : TimeTokenTier) : ParsedTier :=
  mapTokenTier (tm_tier tier) (Some (tm_conditionText tier)).

Section Tables.
Context `{Host}.

(** [compilation] is the result of [compileBillingExpression(exprStr)]. *)
Definition parseTiersFromExpr (exprStr : jstr) (compilation : CompilationResult) : res exn (list ParsedTier) :=
  match exprStr, compilation with
  | [], _ | _, NotReady _ => Ok []
  | _, Ready compiled =>
      match readTokenTierChain (c_ast compiled) with
      | Some canonical => Ok ((fun tier => mapTokenTier tier None) <$> canonical)
      | None =>
          res_bind (readTimeTokenPricing compilation None) (fun pricing =>
            Ok (match pricing with Some (tiers, _) => map_time_tier <$> tiers | None => [] end))
      end
  end.

Definition getCurrentTimePricingTiers (compilation : CompilationResult) (now : option Z)
    : res exn (option (list ParsedTier)) :=
  res_bind (readTimeTokenPricing compilation (Some now)) (fun pricing =>
    Ok (match pricing with Some (_, current) => Some (map_time_tier <$> current) | None => None end)).
End Tables.

(** ** Request rules: data *)

Definition MATCH_EQ : jstr := js "eq".
Definition MATCH_CONTAINS : jstr := js "contains".
Definition MATCH_GT : jstr := js "gt".
Definition MATCH_GTE : jstr := js "gte".
Definition MATCH_LT : jstr := js "lt".
Definition MATCH_LTE : jstr := js "lte".
Definition MATCH_EXISTS : jstr := js "exists".
Definition MATCH_RANGE : jstr := js "range".

Record TimeCondition := {
  timeFunc : TimeFunction;
  timezone : jstr;
  t_mode : jstr;
  t_value : jstr;
  rangeStart : jstr;
  rangeEnd : jstr;
}.

Inductive ParamSource := SOURCE_PARAM | SOURCE_HEADER.

#[global] Instance ParamSource_eq_dec : EqDecision ParamSource.
Proof. solve_decision. Defined.

Record ParamHeaderCondition := {
  ph_source : ParamSource;
  path : jstr;
  ph_mode : jstr;
  ph_value : jstr;
}.

Inductive RequestCondition := CTime (c : TimeCondition) | CParam (c : ParamHeaderCondition).

(** [conditionText] and [matched] are set on rules that come from a trace. *)
Record RequestRuleGroup := {
  conditions : list RequestCondition;
  multiplier : jstr;
  conditionText : option jstr;
  matched : option bool;
}.

Definition edited_group (cs : list RequestCondition) (m : jstr) : RequestRuleGroup :=
  {| conditions := cs; multiplier := m; conditionText := None; matched := None |}.

(** ** Pieces of the regular expressions *)

(** The text after a literal prefix. *)
Definition after (p : jstr) (s : jstr) : option jstr :=
  if starts_with p s then Some (drop (length p) s) else None.

Definition at_end (s : jstr) : option unit := match s with [] => Some tt | _ => None end.

Definition quote : jstr := [34%N].
Definition not_quote (c : N) : bool := negb (c =? 34)%N.

(** Double quotes around a text. *)
Definition in_quotes (s : jstr) : jstr := quote ++ s ++ quote.

(** A quote, at least one character that is not a quote, and a quote. *)
Definition scan_name (s : jstr) : option (jstr * jstr) :=
  r ← after quote s;
  let '(name, r') := span_while not_quote r in
  match name with
  | [] => None
  | _ => r'' ← after quote r'; Some (name, r'')
  end.

(** [[\d.eE+-]+] *)
Definition number_class (c : N) : bool :=
  is_digit c || (c =? 46)%N || (c =? 101)%N || (c =? 69)%N || (c =? 43)%N || (c =? 45)%N.

Definition scan_number (s : jstr) : option (jstr * jstr) :=
  let '(text, r) := span_while number_class s in
  match text with [] => None | _ => Some (text, r) end.

(** What [.] does not match. *)
Definition line_end (c : N) : bool := (c =? 10)%N || (c =? 13)%N || (c =? 8232)%N || (c =? 8233)%N.

(** The inside of a string literal, up to its closing quote: any character but a
    quote and a backslash, or a backslash and any character that does not end a
    line. *)
Fixpoint scan_literal (s : jstr) : option (jstr * jstr) :=
  match s with
  | [] => None
  | c :: s' =>
      if (c =? 34)%N then Some ([], s')
      else if (c =? 92)%N then
        match s' with
        | d :: s'' =>
            if line_end d then None
            else match scan_literal s'' with Some (l, r) => Some (c :: d :: l, r) | None => None end
        | [] => None
        end
      else match scan_literal s' with Some (l, r) => Some (c :: l, r) | None => None end
  end.

(** A string literal with its quotes. *)
Definition scan_quoted (s : jstr) : option (jstr * jstr) :=
  r ← after quote s;
  '(l, r') ← scan_literal r;
  Some (in_quotes l, r').

(** [NUMERIC_LITERAL_REGEX.test(text)] *)
Definition is_numeric (text : jstr) : bool :=
  let unsigned := match text with c :: r => if (c =? 45)%N then r else text | [] => text end in
  match scan_decimal unsigned with
  | Some d => match dec_rest d with [] => true | _ => false end
  | None => false
  end.

(** ** Request rules: reading *)

Definition TIME_FUNC_RANGES (f : TimeFunction) : Z * Z :=
  match f with
  | Fhour => (0, 23)
  | Fminute => (0, 59)
  | Fweekday => (0, 6)
  | Fmonth => (1, 12)
  | Fday => (1, 31)
  end%Z.

Definition isTimeValueInRange (f : TimeFunction) (text : jstr) : bool :=
  if negb (is_numeric text) then false
  else
    let value := number_of_string text in
    if negb (is_integer value) then false
    else
      let '(lo, hi) := TIME_FUNC_RANGES f in
      fleb (f64_of_Z lo) value && fleb value (f64_of_Z hi).

(** [hour|minute|weekday|month|day], then the quoted time zone in parentheses. *)
Definition scan_time_function (s : jstr) : option (TimeFunction * jstr) :=
  match List.find (fun f => starts_with (time_name f) s) [Fhour; Fminute; Fweekday; Fmonth; Fday] with
  | Some f => Some (f, drop (length (time_name f)) s)
  | None => None
  end.

Definition scan_time_call (s : jstr) : option (TimeFunction * jstr * jstr) :=
  '(f, r) ← scan_time_function s;
  r ← after (js "(") r;
  '(tz, r) ← scan_name r;
  r ← after (js ")") r;
  Some (f, tz, r).

(** The text that the back references stand for. *)
Definition time_call_text (f : TimeFunction) (tz : jstr) : jstr := time_name f ++ js "(" ++ in_quotes tz ++ js ")".

(** The range of the first two regular expressions and the text after it. *)
Definition scan_range (s : jstr) : option (TimeFunction * jstr * jstr * jstr * jstr) :=
  '(f, tz, r) ← scan_time_call s;
  r ← after (js " >= ") r;
  '(lower, r) ← scan_number r;
  r ← match after (js " && ") r with Some r' => Some r' | None => after (js " || ") r end;
  r ← after (time_call_text f tz) r;
  r ← after (js " < ") r;
  '(upper, r) ← scan_number r;
  Some (f, tz, lower, upper, r).

Definition match_range (expr : jstr) : option (TimeFunction * jstr * jstr * jstr) :=
  match scan_range expr with
  | Some (f, tz, lower, upper, []) => Some (f, tz, lower, upper)
  | _ =>
      match after (js "(") expr with
      | Some r =>
          match scan_range r with
          | Some (f, tz, lower, upper, rest) => if jeqb rest (js ")") then Some (f, tz, lower, upper) else None
          | None => None
          end
      | None => None
      end
  end.

(** The operator with the mode [opMap] gives it. *)
Definition scan_time_operator (s : jstr) : option (jstr * jstr) :=
  match after (js "==") s with
  | Some r => Some (MATCH_EQ, r)
  | None =>
      match after (js ">=") s with
      | Some r => Some (MATCH_GTE, r)
      | None => match after (js "<") s with Some r => Some (MATCH_LT, r) | None => None end
      end
  end.

Definition match_scalar (expr : jstr) : option (TimeFunction * jstr * jstr * jstr) :=
  '(f, tz, r) ← scan_time_call expr;
  r ← after (js " ") r;
  '(mode, r) ← scan_time_operator r;
  r ← after (js " ") r;
  '(value, r) ← scan_number r;
  _ ← at_end r;
  Some (f, tz, mode, value).

Definition tryParseTimeCondition (expr : jstr) : option TimeCondition :=
  match match_range expr with
  | Some (f, tz, lower, upper) =>
      if negb (isTimeValueInRange f lower) || negb (isTimeValueInRange f upper) then None
      else Some {| timeFunc := f; timezone := tz; t_mode := MATCH_RANGE; t_value := [];
                   rangeStart := lower; rangeEnd := upper |}
  | None =>
      match match_scalar expr with
      | Some (f, tz, mode, value) =>
          if negb (isTimeValueInRange f value) then None
          else Some {| timeFunc := f; timezone := tz; t_mode := mode; t_value := value;
                       rangeStart := []; rangeEnd := [] |}
      | None => None
      end
  end.

(** The value [null] and a text that is no literal are both [None]. *)
Definition parseExprLiteral (raw : jstr) : option jsval :=
  let text := trim raw in
  if jeqb text (js "true") || jeqb text (js "false") then Some (JStr text)
  else if is_numeric text then Some (JStr text)
  else match json_parse text with
       | Some JNull => None
       | v => v
       end.

Inductive json_error := SyntaxError.

(** [JSON.parse(literal) as string] outside any [try] *)
Definition parse_string (literal : jstr) : res json_error jstr :=
  match json_parse literal with
  | Some (JStr s) => Ok s
  | Some v => Ok (text_of v)
  | None => Err SyntaxError
  end.

Definition param (src : ParamSource) (name mode value : jstr) : RequestCondition :=
  CParam {| ph_source := src; path := name; ph_mode := mode; ph_value := value |}.

Definition source_name (src : ParamSource) : jstr :=
  match src with SOURCE_PARAM => js "param" | SOURCE_HEADER => js "header" end.

(** A source's name and its quoted path in parentheses. *)
Definition scan_source (src : ParamSource) (s : jstr) : option (jstr * jstr) :=
  r ← after (source_name src ++ js "(") s;
  '(name, r) ← scan_name r;
  r ← after (js ")") r;
  Some (name, r).

Definition empty_literal : jstr := quote ++ quote.

Definition match_header_exists (expr : jstr) : option jstr :=
  '(name, r) ← scan_source SOURCE_HEADER expr;
  r ← after (js " != " ++ empty_literal) r;
  _ ← at_end r;
  Some name.

Definition match_param_exists (expr : jstr) : option jstr :=
  '(name, r) ← scan_source SOURCE_PARAM expr;
  r ← after (js " != nil") r;
  _ ← at_end r;
  Some name.

Definition match_header_contains (expr : jstr) : option (jstr * jstr) :=
  r ← after (js "has(") expr;
  '(name, r) ← scan_source SOURCE_HEADER r;
  r ← after (js ", ") r;
  '(literal, r) ← scan_quoted r;
  r ← after (js ")") r;
  _ ← at_end r;
  Some (name, literal).

Definition match_param_contains (expr : jstr) : option (jstr * jstr * jstr) :=
  '(name, r) ← scan_source SOURCE_PARAM expr;
  r ← after (js " != nil && has(") r;
  '(name', r) ← scan_source SOURCE_PARAM r;
  r ← after (js ", ") r;
  '(literal, r) ← scan_quoted r;
  r ← after (js ")") r;
  _ ← at_end r;
  Some (name, name', literal).

(** The operator, a space, and the mode [opMap] gives it. *)
Definition scan_order (s : jstr) : option (jstr * jstr) :=
  match after (js "> ") s with
  | Some r => Some (MATCH_GT, r)
  | None =>
      match after (js ">= ") s with
      | Some r => Some (MATCH_GTE, r)
      | None =>
          match after (js "< ") s with
          | Some r => Some (MATCH_LT, r)
          | None => match after (js "<= ") s with Some r => Some (MATCH_LTE, r) | None => None end
          end
      end
  end.

Definition match_param_order (expr : jstr) : option (jstr * jstr * jstr * jstr) :=
  '(name, r) ← scan_source SOURCE_PARAM expr;
  r ← after (js " != nil && ") r;
  '(name', r) ← scan_source SOURCE_PARAM r;
  r ← after (js " ") r;
  '(mode, r) ← scan_order r;
  '(value, r) ← scan_number r;
  _ ← at_end r;
  Some (name, name', mode, value).

Definition match_equals (expr : jstr) : option (ParamSource * jstr * jstr) :=
  '(src, (name, r)) ← match scan_source SOURCE_PARAM expr with
                      | Some x => Some (SOURCE_PARAM, x)
                      | None => x ← scan_source SOURCE_HEADER expr; Some (SOURCE_HEADER, x)
                      end;
  r ← after (js " == ") r;
  match r with
  | [] => None
  | _ => if existsb line_end r then None else Some (src, name, r)
  end.

(** The last three attempts. *)
Definition parse_equals (expr : jstr) : option RequestCondition :=
  '(src, name, raw) ← match_equals expr;
  v ← parseExprLiteral raw;
  Some (param src name MATCH_EQ (text_of v)).

Definition parse_order (expr : jstr) : option RequestCondition :=
  match match_param_order expr with
  | Some (name, name', mode, value) =>
      if jeqb name name' then Some (param SOURCE_PARAM name mode value) else parse_equals expr
  | None => parse_equals expr
  end.

Definition parse_contains (expr : jstr) : res json_error (option RequestCondition) :=
  match match_param_contains expr with
  | Some (name, name', literal) =>
      if jeqb name name'
      then res_bind (parse_string literal) (fun v => Ok (Some (param SOURCE_PARAM name MATCH_CONTAINS v)))
      else Ok (parse_order expr)
  | None => Ok (parse_order expr)
  end.

Definition tryParseRequestCondition (expr : jstr) : res json_error (option RequestCondition) :=
  match tryParseTimeCondition expr with
  | Some c => Ok (Some (CTime c))
  | None =>
      match match_header_exists expr with
      | Some name => Ok (Some (param SOURCE_HEADER name MATCH_EXISTS []))
      | None =>
          match match_param_exists expr with
          | Some name => Ok (Some (param SOURCE_PARAM name MATCH_EXISTS []))
          | None =>
              match match_header_contains expr with
              | Some (name, literal) =>
                  res_bind (parse_string literal) (fun v => Ok (Some (param SOURCE_HEADER name MATCH_CONTAINS v)))
              | None => parse_contains expr
              end
          end
      end
  end.

Definition tryParseTimeRangePair (lower upper : jstr) : option TimeCondition :=
  a ← tryParseTimeCondition lower;
  b ← tryParseTimeCondition upper;
  if bool_decide (timeFunc a = timeFunc b) && jeqb (timezone a) (timezone b)
     && jeqb (t_mode a) MATCH_GTE && jeqb (t_mode b) MATCH_LT
  then Some {| timeFunc := timeFunc a; timezone := timezone a; t_mode := MATCH_RANGE; t_value := [];
               rangeStart := t_value a; rangeEnd := t_value b |}
  else None.

(** The loop over the parts between the [&&]. *)
Fixpoint conditions_loop (andParts : list jstr) : res json_error (option (list RequestCondition)) :=
  match andParts with
  | [] => Ok (Some [])
  | p :: rest =>
      let part := trim p in
      let single (_ : unit) :=
        res_bind (tryParseRequestCondition part) (fun c =>
          match c with
          | None => Ok None
          | Some condition =>
              res_bind (conditions_loop rest) (fun cs => Ok (cons condition <$> cs))
          end) in
      match rest with
      | [] => single tt
      | n :: rest' =>
          match trim n with
          | [] => single tt
          | next =>
              match tryParseTimeRangePair part next with
              | Some merged => res_bind (conditions_loop rest') (fun cs => Ok (cons (CTime merged) <$> cs))
              | None => single tt
              end
          end
      end
  end.

Definition tryParseRequestConditions (conditionStr : jstr) : res json_error (option (list RequestCondition)) :=
  match tryParseTimeCondition (trim conditionStr) with
  | Some c => Ok (Some [CTime c])
  | None =>
      res_bind (conditions_loop (splitExpressionAtTopLevel conditionStr (js "&&"))) (fun cs =>
        Ok (match cs with Some [] => None | _ => cs end))
  end.

(** [^\((.+) \? ([\d.eE+-]+) : 1\)$] with [s]: read from the end, where the
    number is all there is of its class before the colon. *)
Definition match_factor (part : jstr) : option (jstr * jstr) :=
  r ← after (js "(") part;
  r ← after (rev (js " : 1)")) (rev r);
  '(number, r) ← scan_number r;
  r ← after (rev (js " ? ")) r;
  match r with
  | [] => None
  | _ => Some (rev r, rev number)
  end.

Definition tryParseRuleGroupFactor (part : jstr) : res json_error (option RequestRuleGroup) :=
  match match_factor part with
  | None => Ok None
  | Some (condition, m) =>
      res_bind (tryParseRequestConditions condition) (fun cs =>
        Ok (match cs with Some l => Some (edited_group l m) | None => None end))
  end.

(** A rule of the backend's trace: its condition, its multiplier and whether it
    matched. *)
Definition requestRuleGroupsFromTrace (requestRules : list (jstr * f64 * bool))
    : res json_error (list RequestRuleGroup) :=
  res_mapM (fun rule =>
    let '(cond, m, hit) := rule in
    res_bind (tryParseRequestConditions (trim cond)) (fun cs =>
      Ok {| conditions := default [] cs; multiplier := number_to_string m;
            conditionText := Some (trim cond); matched := Some hit |})) requestRules.

Fixpoint parse_factors (parts : list jstr) : res json_error (option (list RequestRuleGroup)) :=
  match parts with
  | [] => Ok (Some [])
  | part :: rest =>
      res_bind (tryParseRuleGroupFactor part) (fun group =>
        match group with
        | None => Ok None
        | Some g => res_bind (parse_factors rest) (fun gs => Ok (cons g <$> gs))
        end)
  end.

Definition tryParseRequestRuleExpr (expr : jstr) : res json_error (option (list RequestRuleGroup)) :=
  match trim expr with
  | [] => Ok (Some [])
  | trimmed => parse_factors (splitExpressionAtTopLevel trimmed (js "*"))
  end.

(** ** Combining and splitting *)

Fixpoint partition_parts (parts : list jstr) : res json_error (list jstr * list jstr) :=
  match parts with
  | [] => Ok ([], [])
  | part :: rest =>
      res_bind (tryParseRequestRuleExpr part) (fun parsed =>
        res_bind (partition_parts rest) (fun split =>
          let '(ruleParts, baseParts) := split in
          Ok (match parsed with
              | Some (_ :: _) => (part :: ruleParts, baseParts)
              | _ => (ruleParts, part :: baseParts)
              end)))
  end.

(** The billing expression and the request rules. *)
Definition splitBillingExprAndRequestRules (expr : jstr) : res json_error (jstr * jstr) :=
  match trim expr with
  | [] => Ok ([], [])
  | trimmed =>
      let parts := splitExpressionAtTopLevel trimmed (js "*") in
      if Nat.leb (length parts) 1 then Ok (trimmed, [])
      else
        res_bind (partition_parts parts) (fun split =>
          Ok (match split with
              | ((_ :: _) as ruleParts, [base]) => (unwrapExpressionParens base, join (js " * ") ruleParts)
              | _ => (trimmed, [])
              end))
  end.

Definition combineBillingExpr (baseExpr requestRuleExpr : jstr) : jstr :=
  match trim baseExpr, trim requestRuleExpr with
  | [], _ => []
  | base, [] => base
  | base, rules => js "(" ++ base ++ js ") * " ++ rules
  end.

Definition parseTaskTiersFromExpr (compileExpr : jstr -> CompilationResult) (exprStr : jstr)
    (schema : option BillingUsageSchema) (includeBooleanConditions : bool) : res json_error (list TaskTier) :=
  match exprStr, schema with
  | [], _ | _, None | _, Some [] => Ok []
  | _, Some s =>
      res_bind (splitBillingExprAndRequestRules exprStr) (fun split =>
        Ok (match compileExpr (fst split) with
            | NotReady _ => []
            | Ready compiled => default [] (readTaskTierChain (c_ast compiled) s includeBooleanConditions)
            end))
  end.

(** ** Editor *)

Definition createEmptyCondition : RequestCondition := param SOURCE_PARAM [] MATCH_EQ [].

Definition createEmptyTimeCondition : RequestCondition :=
  CTime {| timeFunc := Fhour; timezone := js "Asia/Shanghai"; t_mode := MATCH_GTE; t_value := [];
           rangeStart := []; rangeEnd := [] |}.

Definition createEmptyRuleGroup : RequestRuleGroup := edited_group [createEmptyCondition] [].
Definition createEmptyTimeRuleGroup : RequestRuleGroup := edited_group [createEmptyTimeCondition] [].

(** The modes [getRequestRuleMatchOptions] offers; [None] is the source [time]. *)
Definition match_modes (src : option ParamSource) : list jstr :=
  match src with
  | None => [MATCH_EQ; MATCH_GTE; MATCH_LT; MATCH_RANGE]
  | Some SOURCE_HEADER => [MATCH_EQ; MATCH_CONTAINS; MATCH_EXISTS]
  | Some SOURCE_PARAM => [MATCH_EQ; MATCH_CONTAINS; MATCH_EXISTS; MATCH_GT; MATCH_GTE; MATCH_LT; MATCH_LTE]
  end.

Definition normal_mode (src : option ParamSource) (mode fallback : jstr) : jstr :=
  if existsb (jeqb mode) (match_modes src) then mode else fallback.

(** [normalizeCondition] on a condition whose fields are all there. *)
Definition normalize_time (c : TimeCondition) : TimeCondition :=
  {| timeFunc := timeFunc c;
     timezone := match timezone c with [] => js "Asia/Shanghai" | tz => tz end;
     t_mode := normal_mode None (t_mode c) MATCH_GTE;
     t_value := t_value c; rangeStart := rangeStart c; rangeEnd := rangeEnd c |}.

Definition normalize_param (c : ParamHeaderCondition) : ParamHeaderCondition :=
  {| ph_source := ph_source c; path := path c; ph_mode := normal_mode (Some (ph_source c)) (ph_mode c) MATCH_EQ;
     ph_value := ph_value c |}.

Definition normalizeCondition (c : RequestCondition) : RequestCondition :=
  match c with CTime c' => CTime (normalize_time c') | CParam c' => CParam (normalize_param c') end.

(** ** Request rules: writing *)

Definition buildExprLiteral (mode value : jstr) : jstr :=
  let text := trim value in
  if jeqb mode MATCH_CONTAINS then json_stringify text
  else if jeqb text (js "true") || jeqb text (js "false") then text
  else if is_numeric text then text
  else json_stringify text.

Definition time_operator (mode : jstr) : jstr :=
  if jeqb mode MATCH_GTE then js ">=" else if jeqb mode MATCH_LT then js "<" else js "==".

Definition buildTimeConditionExpr (c : TimeCondition) : jstr :=
  let n := normalize_time c in
  let fn := time_name (timeFunc n) ++ js "(" ++ json_stringify (timezone n) ++ js ")" in
  if jeqb (t_mode n) MATCH_RANGE then
    let s := trim (rangeStart n) in
    let e := trim (rangeEnd n) in
    if negb (isTimeValueInRange (timeFunc n) s) || negb (isTimeValueInRange (timeFunc n) e) then []
    else if fltb (number_of_string e) (number_of_string s)
         then fn ++ js " >= " ++ s ++ js " || " ++ fn ++ js " < " ++ e
         else fn ++ js " >= " ++ s ++ js " && " ++ fn ++ js " < " ++ e
  else
    let v := trim (t_value n) in
    if negb (isTimeValueInRange (timeFunc n) v) then []
    else fn ++ js " " ++ time_operator (t_mode n) ++ js " " ++ v.

Definition order_operator (mode : jstr) : option jstr :=
  if jeqb mode MATCH_GT then Some (js ">")
  else if jeqb mode MATCH_GTE then Some (js ">=")
  else if jeqb mode MATCH_LT then Some (js "<")
  else if jeqb mode MATCH_LTE then Some (js "<=")
  else None.

Definition buildParamConditionExpr (c : ParamHeaderCondition) : jstr :=
  let n := normalize_param c in
  match trim (path n) with
  | [] => []
  | p =>
      let sourceExpr := source_name (ph_source n) ++ js "(" ++ json_stringify p ++ js ")" in
      if jeqb (ph_mode n) MATCH_EXISTS then
        sourceExpr ++ js " != " ++ match ph_source n with SOURCE_HEADER => empty_literal | SOURCE_PARAM => js "nil" end
      else if jeqb (ph_mode n) MATCH_CONTAINS then
        let has := js "has(" ++ sourceExpr ++ js ", " ++ buildExprLiteral (ph_mode n) (ph_value n) ++ js ")" in
        match ph_source n with
        | SOURCE_HEADER => has
        | SOURCE_PARAM => sourceExpr ++ js " != nil && " ++ has
        end
      else
        match order_operator (ph_mode n) with
        | Some op =>
            let numText := trim (ph_value n) in
            if negb (is_numeric numText) then []
            else sourceExpr ++ js " != nil && " ++ sourceExpr ++ js " " ++ op ++ js " " ++ numText
        | None => sourceExpr ++ js " == " ++ buildExprLiteral (ph_mode n) (ph_value n)
        end
  end.

Definition buildRequestConditionExpr (c : RequestCondition) : jstr :=
  match c with CTime c' => buildTimeConditionExpr c' | CParam c' => buildParamConditionExpr c' end.

Definition buildRuleGroupFactor (group : RequestRuleGroup) : jstr :=
  let m := trim (multiplier group) in
  if negb (is_numeric m) then []
  else
    let condExprs := List.filter non_empty (buildRequestConditionExpr <$> conditions group) in
    match condExprs with
    | [] => []
    | _ =>
        let combined :=
          match condExprs with
          | [e] => e
          | _ => join (js " && ")
                   ((fun e => if includes e (js " || ") then js "(" ++ e ++ js ")" else e) <$> condExprs)
          end in
        js "(" ++ combined ++ js " ? " ++ m ++ js " : 1)"
    end.

Definition buildRequestRuleExpr (groups : list RequestRuleGroup) : jstr :=
  join (js " * ") (List.filter non_empty (buildRuleGroupFactor <$> groups)).

End RequestRules.
