(* ===== verification/BillingRequestRulesFacts.v ===== *)
(** * Properties of the request rules

    What the editor writes it reads back, for the conditions that survive; which
    conditions do not; and the round trip of combining and splitting. *)

From stdpp Require Import base list numbers strings sets.
From Stdlib Require Import ZArith SpecFloat Lia.
From S2P Require Import Prelude.
From S2P Require Import JsString.
From S2P Require Import JsNumber.
From S2P Require Import JsNumberFacts.
From S2P Require Import JsValue.
From S2P Require Import JsJson.
From S2P Require Import BillingTypes.
From S2P Require Import BillingStructure.
From S2P Require Import BillingRequestRules.

Module RequestRulesFacts.
Import RequestRules.

(** ** Sealed texts

    A text is sealed from depth [k] on for an operator that begins with [o] when
    the scan of [splitExpressionAtTopLevel], at any depth from [k] on and outside
    quotes, passes it without cutting and is as it was afterwards. *)

Fixpoint passes (o : N) (s : jstr) (depth : Z) (quote : quote_state) (skip : bool)
    : option (Z * quote_state * bool) :=
  match s with
  | [] => Some (depth, quote, skip)
  | char :: s' =>
      if skip then passes o s' depth quote false
      else
        match quote with
        | Some q =>
            if (char =? 92)%N then passes o s' depth quote true
            else if (char =? q)%N then passes o s' depth None false
            else passes o s' depth quote false
        | None =>
            if is_quote char then passes o s' depth (Some char) false
            else
              let depth' := (if is_open char then depth + 1
                             else if is_close char then depth - 1 else depth)%Z in
              if negb (depth' =? 0)%Z then passes o s' depth' None false
              else if (char =? 63)%N || (char =? o)%N then None
              else passes o s' depth' None false
        end
  end.

Lemma passes_app o a b d q k :
  passes o (a ++ b) d q k = '(d', q', k') ← passes o a d q k; passes o b d' q' k'.
Proof.
  revert d q k. induction a as [|c a IH]; intros d q k; [done|]. cbn [app passes]. cbv zeta.
  repeat (case_match; try apply IH; try done).
Qed.

Definition skipped (k : bool) : nat := if k then 1 else 0.

Lemma split_passes o op s rest cur parts d q k d' q' k' :
  passes o s d q k = Some (d', q', k') ->
  split_loop (o :: op) (s ++ rest) cur parts d q (skipped k) true
  = split_loop (o :: op) rest (cur ++ s) parts d' q' (skipped k') true.
Proof.
  revert cur d q k. induction s as [|c s IH]; intros cur d q k; cbn [app passes split_loop].
  { intros [= -> -> ->]. by rewrite app_nil_r. }
  cbv zeta. replace (cur ++ c :: s) with ((cur ++ [c]) ++ s) by (by rewrite <- app_assoc).
  destruct k; [apply (IH _ _ _ false)|]. destruct q as [q|]; simpl skipped.
  - destruct (c =? 92)%N; [apply (IH _ _ _ true)|]. destruct (c =? q)%N; apply (IH _ _ _ false).
  - destruct (is_quote c); [apply (IH _ _ _ false)|]. destruct (negb _); [apply (IH _ _ _ false)|].
    destruct (c =? 63)%N; [done|]. destruct (c =? o)%N eqn:Eo; [done|].
    replace (starts_with (o :: op) (c :: s ++ rest)) with false; [apply (IH _ _ _ false)|].
    simpl. by rewrite N.eqb_sym, Eo.
Qed.

Definition sealed (k : Z) (o : N) (s : jstr) : Prop :=
  forall d, (k <= d)%Z -> passes o s d None false = Some (d, None, false).

Lemma sealed_nil k o : sealed k o [].
Proof. done. Qed.

Lemma sealed_app k o a b : sealed k o a -> sealed k o b -> sealed k o (a ++ b).
Proof. intros Ha Hb d Hd. rewrite passes_app, Ha by done. simpl. by apply Hb. Qed.

(** Characters the scan takes no notice of. *)
Definition inert (k : Z) (o c : N) : bool :=
  negb (is_quote c) && negb (is_open c) && negb (is_close c) && ((0 <? k)%Z || negb ((c =? 63)%N || (c =? o)%N)).

Lemma sealed_inert k o s : (0 <= k)%Z -> forallb (inert k o) s = true -> sealed k o s.
Proof.
  intros Hk Hs d Hd. induction s as [|c s IH]; [done|]. simpl in Hs. apply andb_true_iff in Hs as [Hc Hs].
  unfold inert in Hc. rewrite !andb_true_iff, !negb_true_iff in Hc. destruct Hc as [[[H1 H2] H3] H4].
  cbn [passes]. cbv zeta. rewrite H1, H2, H3. destruct (Z.eqb_spec d 0) as [->|Hne]; simpl; [|by apply IH].
  apply orb_true_iff in H4 as [H4|H4]; [apply Z.ltb_lt in H4; lia|]. apply negb_true_iff in H4. rewrite H4. by apply IH.
Qed.

Lemma sealed_parens k o s : (0 <= k)%Z -> (o =? 41)%N = false -> sealed (k + 1) o s -> sealed k o (js "(" ++ s ++ js ")").
Proof.
  intros Hk Ho Hs d Hd. rewrite passes_app.
  assert (passes o (js "(") d None false = Some (d + 1, None, false)%Z) as ->.
  { simpl. by rewrite (proj2 (Z.eqb_neq (d + 1) 0)) by lia. }
  cbn [mbind option_bind]. rewrite passes_app, Hs by lia. change (js ")") with [41%N].
  cbn -[N.eqb Z.eqb Z.sub]. change (is_quote 41) with false. change (is_open 41) with false. change (is_close 41) with true.
  cbv iota. replace (d + 1 - 1)%Z with d by lia. rewrite (N.eqb_sym 41 o), Ho. by destruct (Z.eqb_spec d 0) as [->|].
Qed.

(** Inside double quotes. *)
Lemma passes_body o text s d : json_body text s ->
  passes o (text ++ [34%N]) d (Some 34%N) false = Some (d, None, false).
Proof.
  induction 1 as [|c text s H1 H2 H3 _ IH|e c text s He _ IH|h1 h2 h3 h4 c text s Hh _ IH]; simpl.
  - done.
  - by rewrite H2, H3.
  - done.
  - assert (forall h, is_hex h = true -> (h =? 92)%N = false /\ (h =? 34)%N = false) as Hhex.
    { intros h Hh'. split; apply N.eqb_neq; intros ->; done. }
    unfold hex4 in Hh. destruct (is_hex h1) eqn:E1, (is_hex h2) eqn:E2, (is_hex h3) eqn:E3, (is_hex h4) eqn:E4; try done.
    destruct (Hhex h1 E1) as [-> ->], (Hhex h2 E2) as [-> ->], (Hhex h3 E3) as [-> ->], (Hhex h4 E4) as [-> ->]. done.
Qed.

Lemma sealed_json k o s : sealed k o (json_stringify s).
Proof. intros d _. unfold json_stringify. simpl. apply (passes_body o _ s), json_chars_body. Qed.

(** ** Splitting *)

Lemma drop_spaces_spaces a l : spaces a -> drop_spaces (a ++ l) = drop_spaces l.
Proof.
  unfold drop_spaces. induction 1 as [|c a Hc _ IH]; [done|]. simpl. rewrite Hc.
  destruct (span_while is_space (a ++ l)) as [x y]. exact IH.
Qed.

Lemma trim_around a p b : spaces a -> spaces b -> trim p = p -> trim (a ++ p ++ b) = p.
Proof.
  intros Ha Hb Hp. destruct p as [|c p].
  { simpl. unfold trim. rewrite drop_spaces_spaces by done. rewrite <- (app_nil_r b), drop_spaces_spaces by done. done. }
  assert (drop_spaces (c :: p) = c :: p) as Hd.
  { apply drop_spaces_id. pose proof (trim_head (c :: p)) as Hh. by rewrite Hp in Hh. }
  unfold trim in *. rewrite Hd in Hp. rewrite drop_spaces_spaces by done.
  replace (drop_spaces ((c :: p) ++ b)) with ((c :: p) ++ b).
  - rewrite rev_app_distr, drop_spaces_spaces; [done|]. by apply Forall_rev.
  - symmetry. apply drop_spaces_id. simpl. pose proof (drop_spaces_head (c :: p)) as Hh. by rewrite Hd in Hh.
Qed.

Lemma split_skip operator op rest parts d q :
  split_loop operator (op ++ rest) [] parts d q (length op) false = split_loop operator rest [] parts d q 0 true.
Proof. induction op as [|c op IH]; [by destruct rest | exact IH]. Qed.

(** Cutting sealed pieces joined with the operator between spaces. *)
Lemma split_sealed o op ps cur parts :
  inert 0 o 32 && negb (is_quote o) && negb (is_open o) && negb (is_close o) && negb (o =? 63)%N = true ->
  ps <> [] -> Forall (fun p => passes o p 0 None false = Some (0%Z, None, false) /\ trim p = p) ps -> spaces cur ->
  split_loop (o :: op) (join ([32%N] ++ (o :: op) ++ [32%N]) ps) cur parts 0 None 0 true = Some (parts ++ ps).
Proof.
  intros Ho Hne Hps. rewrite !andb_true_iff, !negb_true_iff in Ho. destruct Ho as [[[[Ho1 Ho2] Ho3] Ho4] Ho5].
  assert (sealed 0 o [32%N]) as Hsp by (apply sealed_inert; [done | simpl; by rewrite Ho1]).
  revert cur parts. induction Hps as [|p ps [Hp Ht] Hps IH]; intros cur parts Hcur; [done|].
  destruct ps as [|p2 ps].
  { simpl join. rewrite <- (app_nil_r p) at 1. rewrite (split_passes o op p [] _ _ _ _ false _ _ _ Hp).
    simpl. do 3 f_equal. pose proof (trim_around cur p [] Hcur ltac:(constructor) Ht) as E. by rewrite app_nil_r in E. }
  rewrite join_cons by done. rewrite (split_passes o op p _ _ _ _ _ false _ _ _ Hp).
  rewrite <- app_assoc. rewrite (split_passes o op [32%N] _ _ _ _ _ false _ _ _ (Hsp 0%Z ltac:(lia))).
  rewrite <- app_assoc. cbn [app split_loop skipped]. rewrite Ho2, Ho3, Ho4, Ho5. simpl negb. cbv iota.
  assert (starts_with (o :: op) (o :: op ++ 32%N :: join (32%N :: o :: op ++ [32%N]) (p2 :: ps)) = true) as ->.
  { apply starts_with_app. by exists (32%N :: join (32%N :: o :: op ++ [32%N]) (p2 :: ps)). }
  simpl Nat.pred. rewrite split_skip.
  rewrite (split_passes o op [32%N] (join (32%N :: o :: op ++ [32%N]) (p2 :: ps)) [] _ _ _ false _ _ _ (Hsp 0%Z ltac:(lia))).
  change (32%N :: o :: op ++ [32%N]) with ([32%N] ++ (o :: op) ++ [32%N]). rewrite IH; [|done | by repeat constructor].
  rewrite <- !app_assoc. by rewrite trim_around by (done || by repeat constructor).
Qed.

(** ** Scanning back what was written *)

Lemma after_app p r : after p (p ++ r) = Some r.
Proof.
  unfold after. rewrite (proj2 (starts_with_app p (p ++ r))) by eauto. by rewrite drop_app_length.
Qed.

Lemma after_all p : after p p = Some [].
Proof. rewrite <- (app_nil_r p) at 2. apply after_app. Qed.

(** A character that a quoted name keeps as it is. *)
Definition plain_char (c : N) : bool :=
  (32 <=? c)%N && negb (c =? 34)%N && negb (c =? 92)%N && negb (is_lead c) && negb (is_trail c).

Definition name_ok (p : jstr) : Prop := p <> [] /\ forallb plain_char p = true.

Lemma plain_char_spec c : plain_char c = true ->
  (32 <= c)%N /\ (c =? 34)%N = false /\ (c =? 92)%N = false /\ is_lead c = false /\ is_trail c = false.
Proof. unfold plain_char. rewrite !andb_true_iff, !negb_true_iff, N.leb_le. tauto. Qed.

Lemma json_chars_plain p : forallb plain_char p = true -> json_chars p = p.
Proof.
  induction p as [|c p IH]; [done|]. simpl. intros [Hc Hp]%andb_true_iff.
  apply plain_char_spec in Hc as (H1 & H2 & H3 & H4 & H5). rewrite H2, H3, H4, H5, IH by done.
  repeat match goal with
  | |- context [(c =? ?n)%N] => rewrite (proj2 (N.eqb_neq c n)) by lia
  | |- context [(c <? ?n)%N] => rewrite (proj2 (N.ltb_ge c n)) by lia
  end. done.
Qed.

Lemma json_name p : name_ok p -> json_stringify p = in_quotes p.
Proof. intros [_ Hp]. unfold json_stringify, in_quotes, quote. by rewrite json_chars_plain. Qed.

Lemma plain_not_quote p : forallb plain_char p = true -> Forall (fun c => not_quote c = true) p.
Proof.
  induction p as [|c p IH]; simpl; [constructor|]. intros [Hc Hp]%andb_true_iff. constructor; [|by apply IH].
  apply plain_char_spec in Hc as (_ & H2 & _). unfold not_quote. by rewrite H2.
Qed.

Lemma scan_name_app p r : name_ok p -> scan_name (in_quotes p ++ r) = Some (p, r).
Proof.
  intros [Hne Hp]. unfold scan_name, in_quotes. rewrite <- !app_assoc, after_app. cbn [mbind option_bind].
  rewrite (span_while_all not_quote p (quote ++ r)) by (done || by apply plain_not_quote).
  destruct p as [|c p]; [done|]. by rewrite after_app.
Qed.

(** What may follow a number: nothing, or a character outside its class. *)
Definition stops (r : jstr) : Prop := match r with c :: _ => number_class c = false | [] => True end.

Lemma scan_number_app n r : n <> [] -> Forall (fun c => number_class c = true) n -> stops r ->
  scan_number (n ++ r) = Some (n, r).
Proof. intros Hne Hn Hr. unfold scan_number. rewrite (span_while_all number_class n r Hn Hr). by destruct n. Qed.

Lemma digit_class c : is_digit c = true -> number_class c = true.
Proof. unfold number_class. by intros ->. Qed.

Lemma digits_class l : Forall (fun c => is_digit c = true) l -> Forall (fun c => number_class c = true) l.
Proof. intros Hl. eapply Forall_impl; [exact Hl|]. apply digit_class. Qed.

Lemma scan_exponent_class l x r : scan_exponent l = Some (x, r) ->
  exists p, l = p ++ r /\ Forall (fun c => number_class c = true) p.
Proof.
  unfold scan_exponent. destruct l as [|c l]; [done|]. destruct ((c =? 101)%N || (c =? 69)%N) eqn:Ec; [|done].
  assert (number_class c = true) as Hc.
  { unfold number_class. apply orb_true_iff in Ec as [E|E]; rewrite E, ?orb_true_r; done. }
  assert (forall sgn l2, Forall (fun c => number_class c = true) sgn -> l = sgn ++ l2 -> forall neg : bool,
    (let '(ds, l3) := span_while is_digit l2 in
     match ds with [] => None | _ :: _ => Some ((if neg then - Z.of_N (digits_val ds) else Z.of_N (digits_val ds))%Z, l3) end)
    = Some (x, r) -> exists p, c :: l = p ++ r /\ Forall (fun c => number_class c = true) p) as Hrest.
  { intros sgn l2 Hsgn -> neg. destruct (span_while is_digit l2) as [ds l3] eqn:E.
    pose proof (span_while_app _ _ _ _ E) as ->. apply span_while_forall in E. destruct ds as [|d ds]; [done|].
    intros [= _ <-]. exists (c :: sgn ++ d :: ds). split; [simpl; by rewrite <- app_assoc|].
    constructor; [done|]. apply Forall_app. split; [done | by apply digits_class]. }
  destruct l as [|d l2]; [apply (Hrest [] [] ltac:(constructor) eq_refl false)|].
  assert (forall n, (d =? n)%N = true -> number_class n = true -> Forall (fun c => number_class c = true) [d]) as Hd.
  { intros n ->%N.eqb_eq Hn. by repeat constructor. }
  destruct (d =? 43)%N eqn:E43; [apply (Hrest [d] l2 (Hd _ E43 eq_refl) eq_refl false)|].
  destruct (d =? 45)%N eqn:E45; [apply (Hrest [d] l2 (Hd _ E45 eq_refl) eq_refl true)|].
  apply (Hrest [] (d :: l2) ltac:(constructor) eq_refl false).
Qed.

Lemma scan_decimal_class l d : scan_decimal l = Some d ->
  exists p, l = p ++ dec_rest d /\ Forall (fun c => number_class c = true) p.
Proof.
  unfold scan_decimal. destruct (span_while is_digit l) as [ip r1] eqn:Ei.
  pose proof (span_while_app _ _ _ _ Ei) as ->. apply span_while_forall, digits_class in Ei.
  assert (forall fp w r2 pre, r1 = pre ++ r2 -> Forall (fun c => number_class c = true) pre ->
    match scan_exponent r2 with
    | Some (x, r3) => Some {| dec_m := digits_val (ip ++ fp); dec_e := - Z.of_nat (length fp) + x; dec_integer := false; dec_rest := r3 |}
    | None => Some {| dec_m := digits_val (ip ++ fp); dec_e := - Z.of_nat (length fp); dec_integer := w; dec_rest := r2 |}
    end = Some d -> exists p, ip ++ r1 = p ++ dec_rest d /\ Forall (fun c => number_class c = true) p) as Hrest.
  { intros fp w r2 pre -> Hpre. destruct (scan_exponent r2) as [[x r3]|] eqn:Ee; intros [= <-]; simpl.
    - apply scan_exponent_class in Ee as (pe & -> & Hpe). exists (ip ++ pre ++ pe). rewrite <- !app_assoc.
      split; [done|]. by repeat apply Forall_app_2.
    - exists (ip ++ pre). rewrite <- app_assoc. split; [done | by apply Forall_app_2]. }
  unfold scan_fraction. destruct r1 as [|c r1].
  { destruct ip; [done|]. by apply (Hrest [] true [] []). }
  destruct (c =? 46)%N eqn:Ec.
  - destruct (span_while is_digit r1) as [fp r2] eqn:Ef. pose proof (span_while_app _ _ _ _ Ef) as ->.
    apply span_while_forall, digits_class in Ef.
    assert (Forall (fun c => number_class c = true) (c :: fp)) as Hpre.
    { constructor; [|done]. unfold number_class. by rewrite Ec, ?orb_true_r. }
    destruct ip as [|i ip]; [destruct fp as [|d' fp]; [done|]; by apply (Hrest (d' :: fp) false r2 (c :: d' :: fp))|].
    by apply (Hrest fp false r2 (c :: fp)).
  - destruct ip; [done|]. by apply (Hrest [] true (c :: r1) []).
Qed.

Lemma numeric_class n : is_numeric n = true -> n <> [] /\ Forall (fun c => number_class c = true) n.
Proof.
  unfold is_numeric. intros H. split; [by intros ->|].
  assert (forall l, match scan_decimal l with Some d => match dec_rest d with [] => true | _ => false end | None => false end
            = true -> Forall (fun c => number_class c = true) l) as Hl.
  { intros l. destruct (scan_decimal l) as [d|] eqn:E; [|done]. apply scan_decimal_class in E as (p & -> & Hp).
    destruct (dec_rest d); [|done]. by rewrite app_nil_r. }
  destruct n as [|c n]; [constructor|]. destruct (c =? 45)%N eqn:E; [|by apply Hl].
  constructor; [|by apply Hl]. unfold number_class. by rewrite E, ?orb_true_r.
Qed.

Lemma class_not_space c : number_class c = true -> is_space c = false.
Proof.
  unfold number_class, is_digit, is_space. intros H.
  repeat match goal with
  | H : _ || _ = true |- _ => apply orb_true_iff in H as [H|H]
  | H : _ && _ = true |- _ => apply andb_true_iff in H as [? ?]
  end; rewrite ?N.leb_le, ?N.eqb_eq in *; subst; try done.
  repeat match goal with
  | |- _ || _ = false => apply orb_false_iff; split
  | |- _ && _ = false => apply andb_false_iff
  | |- (_ =? _)%N = false => apply N.eqb_neq; lia
  end; rewrite ?N.leb_gt; lia.
Qed.

Lemma numeric_trim n : is_numeric n = true -> trim n = n.
Proof. intros [_ Hn]%numeric_class. apply trim_id. eapply Forall_impl; [exact Hn|]. apply class_not_space. Qed.

Lemma in_range_numeric f v : isTimeValueInRange f v = true -> is_numeric v = true.
Proof. unfold isTimeValueInRange. by destruct (is_numeric v). Qed.

(** ** Time conditions *)

Definition bound (f : TimeFunction) (tz : jstr) (mode v : jstr) : jstr :=
  time_call_text f tz ++ js " " ++ time_operator mode ++ js " " ++ v.

Definition scalar_modes : list jstr := [MATCH_EQ; MATCH_GTE; MATCH_LT].

Lemma scalar_mode mode : mode ∈ scalar_modes -> mode = MATCH_EQ \/ mode = MATCH_GTE \/ mode = MATCH_LT.
Proof. unfold scalar_modes. set_solver. Qed.

Definition scalar (f : TimeFunction) (tz mode v : jstr) : TimeCondition :=
  {| timeFunc := f; timezone := tz; t_mode := mode; t_value := v; rangeStart := []; rangeEnd := [] |}.

Definition range (f : TimeFunction) (tz a b : jstr) : TimeCondition :=
  {| timeFunc := f; timezone := tz; t_mode := MATCH_RANGE; t_value := []; rangeStart := a; rangeEnd := b |}.

Lemma scan_time_call_app f tz r : name_ok tz -> scan_time_call (time_call_text f tz ++ r) = Some (f, tz, r).
Proof.
  intros Htz. unfold scan_time_call, time_call_text. rewrite <- !app_assoc.
  assert (forall r, scan_time_function (time_name f ++ r) = Some (f, r)) as -> by (intros r'; by destruct f).
  cbn [mbind option_bind]. rewrite after_app. cbn [mbind option_bind]. rewrite scan_name_app by done.
  cbn [mbind option_bind]. by rewrite after_app.
Qed.

Section Numbers.
Context (f : TimeFunction) (tz : jstr) (Htz : name_ok tz).

Lemma scan_in_range v r : isTimeValueInRange f v = true -> stops r -> scan_number (v ++ r) = Some (v, r).
Proof. intros [Hne Hv]%in_range_numeric%numeric_class Hr. by apply scan_number_app. Qed.

(** The scan of a range stops at the first of its pieces that is not there. *)
Lemma scan_range_lower a r : isTimeValueInRange f a = true -> stops r ->
  scan_range (bound f tz MATCH_GTE a ++ r) =
  (r ← match after (js " && ") r with Some r' => Some r' | None => after (js " || ") r end;
   r ← after (time_call_text f tz) r;
   r ← after (js " < ") r;
   '(upper, r) ← scan_number r;
   Some (f, tz, a, upper, r)).
Proof.
  intros Ha Hr. unfold scan_range, bound. rewrite <- !app_assoc, scan_time_call_app by done. cbn [mbind option_bind].
  change (js " " ++ time_operator MATCH_GTE ++ js " " ++ a ++ r) with (js " >= " ++ a ++ r). rewrite after_app.
  cbn [mbind option_bind]. by rewrite scan_in_range.
Qed.

Lemma scan_range_other mode v r : mode <> MATCH_GTE -> mode ∈ scalar_modes -> scan_range (bound f tz mode v ++ r) = None.
Proof.
  intros Hne Hm. unfold scan_range, bound. rewrite <- !app_assoc, scan_time_call_app by done. cbn [mbind option_bind].
  by destruct (scalar_mode mode Hm) as [->|[->| ->]].
Qed.

Lemma scan_range_full (conn : jstr) a b r : conn = js " && " \/ conn = js " || " ->
  isTimeValueInRange f a = true -> isTimeValueInRange f b = true -> stops r ->
  scan_range (bound f tz MATCH_GTE a ++ conn ++ bound f tz MATCH_LT b ++ r) = Some (f, tz, a, b, r).
Proof.
  intros Hconn Ha Hb Hr. rewrite scan_range_lower by (done || by destruct Hconn as [-> | ->]).
  assert (forall x : jstr, match after (js " && ") (conn ++ x) with Some r' => Some r' | None => after (js " || ") (conn ++ x) end
            = Some x) as -> by (intros x; by destruct Hconn as [-> | ->]).
  cbn [mbind option_bind]. unfold bound. rewrite <- !app_assoc, after_app. cbn [mbind option_bind].
  change (js " " ++ time_operator MATCH_LT ++ js " " ++ b ++ r) with (js " < " ++ b ++ r). rewrite after_app.
  cbn [mbind option_bind]. by rewrite scan_in_range.
Qed.

Lemma scan_scalar mode v r : mode ∈ scalar_modes -> isTimeValueInRange f v = true -> stops r ->
  match_scalar (bound f tz mode v ++ r) = (_ ← at_end r; Some (f, tz, mode, v)).
Proof.
  intros Hm Hv Hr. unfold match_scalar, bound. rewrite <- !app_assoc, scan_time_call_app by done.
  cbn [mbind option_bind]. rewrite after_app. cbn [mbind option_bind].
  assert (forall x, scan_time_operator (time_operator mode ++ x) = Some (mode, x)) as ->.
  { intros x. by destruct (scalar_mode mode Hm) as [->|[->| ->]]. }
  cbn [mbind option_bind]. rewrite after_app. cbn [mbind option_bind]. by rewrite scan_in_range.
Qed.

Lemma no_paren mode v r : after (js "(") (bound f tz mode v ++ r) = None.
Proof. by destruct f. Qed.

Lemma bound_parses mode v : mode ∈ scalar_modes -> isTimeValueInRange f v = true ->
  tryParseTimeCondition (bound f tz mode v) = Some (scalar f tz mode v).
Proof.
  intros Hm Hv. unfold tryParseTimeCondition. rewrite <- (app_nil_r (bound f tz mode v)).
  assert (match_range (bound f tz mode v ++ []) = None) as ->.
  { unfold match_range. rewrite no_paren. destruct (decide (mode = MATCH_GTE)) as [->|Hne].
    - by rewrite scan_range_lower.
    - by rewrite scan_range_other. }
  rewrite scan_scalar by done. cbn [mbind option_bind at_end]. by rewrite Hv.
Qed.

Lemma range_parses conn a b : conn = js " && " \/ conn = js " || " ->
  isTimeValueInRange f a = true -> isTimeValueInRange f b = true ->
  tryParseTimeCondition (bound f tz MATCH_GTE a ++ conn ++ bound f tz MATCH_LT b) = Some (range f tz a b).
Proof.
  intros Hconn Ha Hb. unfold tryParseTimeCondition, match_range.
  rewrite <- (app_nil_r (bound f tz MATCH_LT b)), (scan_range_full conn) by done. by rewrite Ha, Hb.
Qed.

Lemma paren_range_parses conn a b : conn = js " && " \/ conn = js " || " ->
  isTimeValueInRange f a = true -> isTimeValueInRange f b = true ->
  tryParseTimeCondition (js "(" ++ (bound f tz MATCH_GTE a ++ conn ++ bound f tz MATCH_LT b) ++ js ")")
  = Some (range f tz a b).
Proof.
  intros Hconn Ha Hb. unfold tryParseTimeCondition, match_range.
  assert (forall x, scan_range (js "(" ++ x) = None) as -> by done.
  rewrite after_app, <- !app_assoc, (scan_range_full conn) by done. rewrite jeqb_refl. by rewrite Ha, Hb.
Qed.

(** Bounds and ranges with more conditions after them are no time condition as a
    whole. *)
Lemma bound_more mode v r : mode ∈ scalar_modes -> isTimeValueInRange f v = true ->
  (mode = MATCH_GTE -> after (time_call_text f tz ++ js " < ") r = None) ->
  tryParseTimeCondition (bound f tz mode v ++ js " && " ++ r) = None.
Proof.
  intros Hm Hv Hr. unfold tryParseTimeCondition.
  assert (match_range (bound f tz mode v ++ js " && " ++ r) = None) as ->.
  { unfold match_range. rewrite no_paren. destruct (decide (mode = MATCH_GTE)) as [->|Hne].
    - rewrite scan_range_lower by done. rewrite after_app. cbn [mbind option_bind].
      specialize (Hr eq_refl). unfold after in Hr |- *. destruct (starts_with (time_call_text f tz) r) eqn:E; [|done].
      apply starts_with_app in E as [r' ->]. cbn [mbind option_bind]. rewrite drop_app_length.
      destruct (starts_with (js " < ") r') eqn:E; [|done]. apply starts_with_app in E as [r'' ->].
      by rewrite app_assoc, (proj2 (starts_with_app _ _)) in Hr by eauto.
    - by rewrite scan_range_other. }
  by rewrite scan_scalar.
Qed.

Lemma range_more a b r : isTimeValueInRange f a = true -> isTimeValueInRange f b = true ->
  tryParseTimeCondition ((bound f tz MATCH_GTE a ++ js " && " ++ bound f tz MATCH_LT b) ++ js " && " ++ r) = None.
Proof.
  intros Ha Hb. unfold tryParseTimeCondition. rewrite <- !app_assoc.
  assert (match_range (bound f tz MATCH_GTE a ++ js " && " ++ bound f tz MATCH_LT b ++ js " && " ++ r) = None) as ->.
  { unfold match_range. rewrite no_paren, (scan_range_full (js " && ")) by (done || by left). done. }
  by rewrite scan_scalar by (done || set_solver).
Qed.

Lemma paren_more a b r : isTimeValueInRange f a = true -> isTimeValueInRange f b = true ->
  tryParseTimeCondition ((js "(" ++ (bound f tz MATCH_GTE a ++ js " || " ++ bound f tz MATCH_LT b) ++ js ")") ++ js " && " ++ r)
  = None.
Proof.
  intros Ha Hb. unfold tryParseTimeCondition. rewrite <- !app_assoc.
  assert (match_range (js "(" ++ bound f tz MATCH_GTE a ++ js " || " ++ bound f tz MATCH_LT b ++ js ")" ++ js " && " ++ r)
          = None) as ->.
  { unfold match_range. assert (forall x, scan_range (js "(" ++ x) = None) as -> by done.
    rewrite after_app, (scan_range_full (js " || ")) by (done || by right). done. }
  done.
Qed.
End Numbers.

(** ** Parameter and header conditions *)

Definition call_of (src : ParamSource) (p : jstr) : jstr := source_name src ++ js "(" ++ in_quotes p ++ js ")".

Lemma scan_source_app src p r : name_ok p -> scan_source src (call_of src p ++ r) = Some (p, r).
Proof.
  intros Hp. unfold scan_source, call_of. rewrite <- !app_assoc.
  replace (source_name src ++ js "(" ++ in_quotes p ++ js ")" ++ r)
    with ((source_name src ++ js "(") ++ in_quotes p ++ js ")" ++ r) by (by rewrite <- !app_assoc).
  rewrite after_app. cbn [mbind option_bind]. rewrite scan_name_app by done. cbn [mbind option_bind]. by rewrite after_app.
Qed.

Lemma no_source p r : scan_source SOURCE_PARAM (call_of SOURCE_HEADER p ++ r) = None /\
  scan_source SOURCE_HEADER (call_of SOURCE_PARAM p ++ r) = None.
Proof. done. Qed.

(** None of the texts of these conditions is a time condition, alone or followed
    by others. *)
Lemma call_no_time src p r : tryParseTimeCondition (call_of src p ++ r) = None.
Proof. by destruct src. Qed.

Lemma has_no_time r : tryParseTimeCondition (js "has(" ++ r) = None.
Proof. done. Qed.

Lemma scan_literal_body text s r : json_body text s -> scan_literal (text ++ 34%N :: r) = Some (text, r).
Proof.
  assert (forall h, is_hex h = true -> (h =? 92)%N = false /\ (h =? 34)%N = false) as Hhex.
  { intros h Hh'. split; apply N.eqb_neq; intros ->; done. }
  induction 1 as [|c text s H1 H2 H3 _ IH|e c text s He _ IH|h1 h2 h3 h4 c text s Hh _ IH]; cbn [app scan_literal].
  - done.
  - by rewrite H2, H3, IH.
  - assert (line_end e = false) as Hl.
    { unfold line_end. rewrite !orb_false_iff, !N.eqb_neq. by split_and!; intros ->. }
    simpl. by rewrite Hl, IH.
  - unfold hex4 in Hh. destruct (is_hex h1) eqn:E1, (is_hex h2) eqn:E2, (is_hex h3) eqn:E3, (is_hex h4) eqn:E4; try done.
    simpl. destruct (Hhex h1 E1) as [-> ->], (Hhex h2 E2) as [-> ->], (Hhex h3 E3) as [-> ->], (Hhex h4 E4) as [-> ->].
    by rewrite IH.
Qed.

Lemma scan_quoted_json v r : scan_quoted (json_stringify v ++ r) = Some (json_stringify v, r).
Proof.
  unfold scan_quoted, json_stringify. change [34%N] with quote. rewrite <- !app_assoc, after_app. cbn [mbind option_bind].
  unfold quote. simpl. by rewrite (scan_literal_body (json_chars v) v) by apply json_chars_body.
Qed.

Lemma parse_string_json v : parse_string (json_stringify v) = Ok v.
Proof. unfold parse_string. by rewrite json_parse_stringify. Qed.

(** The literal of an equality reads back, unless the text has a line or
    paragraph separator. *)
Definition no_separator (v : jstr) : Prop := forallb (fun c => negb ((c =? 8232)%N || (c =? 8233)%N)) v = true.

Lemma json_stringify_not_literal v :
  jeqb (json_stringify v) (js "true") = false /\ jeqb (json_stringify v) (js "false") = false /\
  is_numeric (json_stringify v) = false.
Proof. split_and!; try (by apply jeqb_neq); done. Qed.

Lemma json_stringify_trim v : trim (json_stringify v) = json_stringify v.
Proof.
  unfold trim, json_stringify.
  rewrite (drop_spaces_id ([34%N] ++ json_chars v ++ [34%N])) by done.
  rewrite drop_spaces_id; [apply rev_involutive|]. by rewrite app_assoc, rev_app_distr.
Qed.

Lemma literal_reads mode v : mode = MATCH_EQ -> trim v = v -> parseExprLiteral (buildExprLiteral mode v) = Some (JStr v).
Proof.
  intros -> Hv. unfold buildExprLiteral. rewrite Hv. simpl jeqb at 1. cbv iota.
  change (jeqb MATCH_EQ MATCH_CONTAINS) with false. cbv iota.
  unfold parseExprLiteral. destruct (jeqb v (js "true") || jeqb v (js "false")) eqn:Et; [by rewrite Hv, Et|].
  destruct (is_numeric v) eqn:En; [by rewrite Hv, Et, En|].
  destruct (json_stringify_not_literal v) as (E1 & E2 & E3).
  by rewrite json_stringify_trim, E1, E2, E3, json_parse_stringify.
Qed.

Lemma body_one_line text s : json_body text s -> no_separator s -> existsb line_end text = false.
Proof.
  assert (forall h, is_hex h = true -> line_end h = false) as Hhex.
  { intros h Hh. unfold line_end. rewrite !orb_false_iff, !N.eqb_neq. by split_and!; intros ->. }
  unfold no_separator.
  induction 1 as [|c text s H1 H2 H3 _ IH|e c text s He _ IH|h1 h2 h3 h4 c text s Hh _ IH]; simpl; [done|..];
    intros [Hc Hs]%andb_true_iff; rewrite (IH Hs).
  - rewrite orb_false_r. unfold line_end. apply negb_true_iff, orb_false_iff in Hc as [Hc1 Hc2]. rewrite Hc1, Hc2, !orb_false_r.
    apply N.leb_le in H1. by rewrite !(proj2 (N.eqb_neq _ _)) by lia.
  - rewrite orb_false_r. unfold line_end. rewrite !orb_false_iff, !N.eqb_neq. by split_and!; intros ->.
  - unfold hex4 in Hh. destruct (is_hex h1) eqn:E1, (is_hex h2) eqn:E2, (is_hex h3) eqn:E3, (is_hex h4) eqn:E4; try done.
    by rewrite !Hhex.
Qed.

Lemma literal_one_line v : trim v = v -> no_separator v ->
  existsb line_end (buildExprLiteral MATCH_EQ v) = false /\ buildExprLiteral MATCH_EQ v <> [].
Proof.
  intros Hv Hsep. unfold buildExprLiteral. rewrite Hv. change (jeqb MATCH_EQ MATCH_CONTAINS) with false. cbv iota.
  destruct (jeqb v (js "true") || jeqb v (js "false")) eqn:Et.
  { by apply orb_true_iff in Et as [->%jeqb_eq| ->%jeqb_eq]. }
  destruct (is_numeric v) eqn:En.
  - apply numeric_class in En as [Hne Hn]. split; [|done]. clear -Hn.
    induction Hn as [|c v Hc _ IH]; [done|]. simpl. rewrite IH, orb_false_r.
    unfold line_end. rewrite !orb_false_iff, !N.eqb_neq. by split_and!; intros ->.
  - split; [|done]. unfold json_stringify. simpl. rewrite existsb_app.
    by rewrite (body_one_line (json_chars v) v) by (done || apply json_chars_body).
Qed.

(** The texts of the conditions that survive, and that they are read back. *)
Lemma exists_parses src p : name_ok p ->
  tryParseRequestCondition (call_of src p ++ js " != " ++ match src with SOURCE_HEADER => empty_literal | SOURCE_PARAM => js "nil" end)
  = Ok (Some (param src p MATCH_EXISTS [])).
Proof.
  intros Hp. unfold tryParseRequestCondition. rewrite call_no_time. destruct src.
  - unfold match_header_exists. rewrite (proj2 (no_source p _)). cbn [mbind option_bind].
    unfold match_param_exists. rewrite scan_source_app by done. done.
  - unfold match_header_exists. rewrite scan_source_app by done. done.
Qed.

Lemma contains_parses p v : name_ok p ->
  tryParseRequestCondition (js "has(" ++ call_of SOURCE_HEADER p ++ js ", " ++ json_stringify v ++ js ")")
  = Ok (Some (param SOURCE_HEADER p MATCH_CONTAINS v)).
Proof.
  intros Hp. unfold tryParseRequestCondition. rewrite has_no_time.
  change (match_header_exists (js "has(" ++ ?r)) with (@None jstr).
  change (match_param_exists (js "has(" ++ ?r)) with (@None jstr). cbv iota.
  unfold match_header_contains. rewrite after_app. cbn [mbind option_bind]. rewrite scan_source_app by done.
  cbn [mbind option_bind]. rewrite after_app. cbn [mbind option_bind]. rewrite scan_quoted_json. cbn [mbind option_bind].
  rewrite after_all. cbn [mbind option_bind at_end]. by rewrite parse_string_json.
Qed.

Lemma equals_parses src p v : name_ok p -> trim v = v -> no_separator v ->
  tryParseRequestCondition (call_of src p ++ js " == " ++ buildExprLiteral MATCH_EQ v)
  = Ok (Some (param src p MATCH_EQ v)).
Proof.
  intros Hp Hv Hsep. destruct (literal_one_line v Hv Hsep) as [Hline Hne].
  set (lit := buildExprLiteral MATCH_EQ v) in *.
  assert (match_equals (call_of src p ++ js " == " ++ lit) = Some (src, p, lit)) as Heq.
  { unfold match_equals. destruct src.
    - rewrite scan_source_app by done. cbn [mbind option_bind]. rewrite after_app. cbn [mbind option_bind].
      rewrite Hline. by destruct lit.
    - rewrite (proj1 (no_source p _)), scan_source_app by done. cbn [mbind option_bind]. rewrite after_app.
      cbn [mbind option_bind]. rewrite Hline. by destruct lit. }
  assert (parse_equals (call_of src p ++ js " == " ++ lit) = Some (param src p MATCH_EQ v)) as Hpe.
  { unfold parse_equals. rewrite Heq. cbn [mbind option_bind]. unfold lit. by rewrite literal_reads. }
  unfold tryParseRequestCondition. rewrite call_no_time.
  unfold match_header_exists, match_param_exists, parse_contains, match_param_contains, parse_order, match_param_order.
  destruct src.
  - rewrite (proj2 (no_source p _)), scan_source_app by done. cbn [mbind option_bind].
    change (match_header_contains (call_of SOURCE_PARAM p ++ ?r)) with (@None (jstr * jstr)).
    simpl. by rewrite <- Hpe.
  - rewrite (proj1 (no_source p _)), scan_source_app by done. cbn [mbind option_bind].
    change (match_header_contains (call_of SOURCE_HEADER p ++ ?r)) with (@None (jstr * jstr)).
    simpl. by rewrite <- Hpe.
Qed.

(** ** Conditions that survive *)

(** The conditions the editor can write and read back. *)
Inductive survives : RequestCondition -> Prop :=
| sv_scalar f tz mode v : name_ok tz -> mode ∈ scalar_modes -> isTimeValueInRange f v = true ->
    survives (CTime (scalar f tz mode v))
| sv_range f tz a b : name_ok tz -> isTimeValueInRange f a = true -> isTimeValueInRange f b = true ->
    survives (CTime (range f tz a b))
| sv_exists src p : name_ok p -> trim p = p -> survives (param src p MATCH_EXISTS [])
| sv_contains p v : name_ok p -> trim p = p -> trim v = v -> survives (param SOURCE_HEADER p MATCH_CONTAINS v)
| sv_equals src p v : name_ok p -> trim p = p -> trim v = v -> no_separator v -> survives (param src p MATCH_EQ v).

(** A range that crosses the end of its domain. *)
Definition crosses (a b : jstr) : bool := fltb (number_of_string b) (number_of_string a).

Definition overnight (c : RequestCondition) : bool :=
  match c with CTime t => jeqb (t_mode t) MATCH_RANGE && crosses (rangeStart t) (rangeEnd t) | CParam _ => false end.

(** The text of a condition among others, and its parts between the [&&]. *)
Definition wrapped_text (c : RequestCondition) : jstr :=
  if overnight c then js "(" ++ buildRequestConditionExpr c ++ js ")" else buildRequestConditionExpr c.

Definition and_parts (c : RequestCondition) : list jstr :=
  match c with
  | CTime t =>
      if jeqb (t_mode t) MATCH_RANGE && negb (overnight c)
      then [bound (timeFunc t) (timezone t) MATCH_GTE (rangeStart t); bound (timeFunc t) (timezone t) MATCH_LT (rangeEnd t)]
      else [wrapped_text c]
  | CParam _ => [wrapped_text c]
  end.

Lemma scalar_text f tz mode v : name_ok tz -> mode ∈ scalar_modes -> isTimeValueInRange f v = true ->
  buildRequestConditionExpr (CTime (scalar f tz mode v)) = bound f tz mode v.
Proof.
  intros Htz Hm Hv. simpl. unfold buildTimeConditionExpr, normalize_time, scalar. cbn [timeFunc timezone t_mode t_value rangeStart rangeEnd].
  destruct tz as [|c tz]; [by destruct Htz|].
  rewrite json_name, (numeric_trim v), Hv by (done || by eapply in_range_numeric).
  unfold bound, time_call_text. rewrite <- !app_assoc. by destruct (scalar_mode mode Hm) as [->|[->| ->]].
Qed.

Lemma range_written f tz a b : name_ok tz -> isTimeValueInRange f a = true -> isTimeValueInRange f b = true ->
  buildRequestConditionExpr (CTime (range f tz a b)) =
  bound f tz MATCH_GTE a ++ (if crosses a b then js " || " else js " && ") ++ bound f tz MATCH_LT b.
Proof.
  intros Htz Ha Hb. simpl. unfold buildTimeConditionExpr, normalize_time, range. cbn [timeFunc timezone t_mode t_value rangeStart rangeEnd].
  destruct tz as [|c tz]; [by destruct Htz|].
  rewrite json_name, (numeric_trim a), (numeric_trim b), Ha, Hb by (done || by eapply in_range_numeric).
  change (jeqb (normal_mode None MATCH_RANGE MATCH_GTE) MATCH_RANGE) with true. cbv iota. simpl negb. simpl orb. cbv iota.
  fold (crosses a b). unfold bound, time_call_text. destruct (crosses a b); by rewrite <- !app_assoc.
Qed.

Lemma exists_text src p : name_ok p -> trim p = p ->
  buildRequestConditionExpr (param src p MATCH_EXISTS []) =
  call_of src p ++ js " != " ++ match src with SOURCE_HEADER => empty_literal | SOURCE_PARAM => js "nil" end.
Proof.
  intros Hp Ht. unfold param, buildRequestConditionExpr, buildParamConditionExpr, normalize_param, call_of.
  cbn [path ph_source ph_mode ph_value]. rewrite Ht. destruct p as [|c p]; [by destruct Hp|]. rewrite <- (json_name (c :: p) Hp). by destruct src.
Qed.

Lemma contains_text p v : name_ok p -> trim p = p -> trim v = v ->
  buildRequestConditionExpr (param SOURCE_HEADER p MATCH_CONTAINS v) =
  js "has(" ++ call_of SOURCE_HEADER p ++ js ", " ++ json_stringify v ++ js ")".
Proof.
  intros Hp Ht Hv. unfold param, buildRequestConditionExpr, buildParamConditionExpr, normalize_param, call_of.
  cbn [path ph_source ph_mode ph_value]. rewrite Ht. destruct p as [|c p]; [by destruct Hp|]. rewrite <- (json_name (c :: p) Hp). unfold buildExprLiteral. by rewrite Hv.
Qed.

Lemma equals_text src p v : name_ok p -> trim p = p -> trim v = v ->
  buildRequestConditionExpr (param src p MATCH_EQ v) = call_of src p ++ js " == " ++ buildExprLiteral MATCH_EQ v.
Proof.
  intros Hp Ht Hv. unfold param, buildRequestConditionExpr, buildParamConditionExpr, normalize_param, call_of.
  cbn [path ph_source ph_mode ph_value]. rewrite Ht. destruct p as [|c p]; [by destruct Hp|]. rewrite <- (json_name (c :: p) Hp). by destruct src.
Qed.

(** ** Their texts are sealed and trimmed *)

(** The two scans: for [&&] from depth 0, for [*] inside the parentheses. *)
Definition scan_kind (k : Z) (o : N) : Prop := (k = 0%Z /\ o = 38%N) \/ (k = 1%Z /\ o = 42%N).

Ltac inert_text := intros; apply sealed_inert;
  [by match goal with H : scan_kind _ _ |- _ => destruct H as [[-> ->]|[-> ->]] end
  |by match goal with H : scan_kind _ _ |- _ => destruct H as [[-> ->]|[-> ->]] end].

Lemma sealed_call k o name p : scan_kind k o -> forallb (inert k o) name = true -> name_ok p ->
  sealed k o (name ++ js "(" ++ in_quotes p ++ js ")").
Proof.
  intros Hk Hname Hp. assert (0 <= k)%Z by (destruct Hk as [[-> _]|[-> _]]; done).
  apply sealed_app; [by apply sealed_inert|]. rewrite <- json_name by done.
  apply sealed_parens; [done | by destruct Hk as [[_ ->]|[_ ->]] | apply sealed_json].
Qed.

Lemma sealed_number k o v : scan_kind k o -> is_numeric v = true -> sealed k o v.
Proof.
  intros Hk [_ Hv]%numeric_class. apply sealed_inert; [by destruct Hk as [[-> _]|[-> _]]|].
  apply forallb_forall. intros c Hc. rewrite Forall_forall in Hv. apply list_elem_of_In, Hv in Hc.
  unfold inert. assert (forall n, number_class n = false -> (c =? n)%N = false) as Hn.
  { intros n Hn. apply N.eqb_neq. intros ->. congruence. }
  unfold is_quote, is_open, is_close.
  destruct Hk as [[-> ->]|[-> ->]]; by rewrite !Hn.
Qed.

Lemma sealed_bound k o f tz mode v : scan_kind k o -> name_ok tz -> mode ∈ scalar_modes -> is_numeric v = true ->
  sealed k o (bound f tz mode v).
Proof.
  intros Hk Htz Hm Hv. unfold bound, time_call_text. apply sealed_app.
  - apply sealed_call; [done | | done]. by destruct Hk as [[-> ->]|[-> ->]], f.
  - rewrite app_assoc, app_assoc. apply sealed_app; [|by apply sealed_number].
    destruct (scalar_mode mode Hm) as [->|[->| ->]]; inert_text.
Qed.

Lemma sealed_source k o src p : scan_kind k o -> name_ok p -> sealed k o (call_of src p).
Proof. intros Hk Hp. apply sealed_call; [done | | done]. by destruct Hk as [[-> ->]|[-> ->]], src. Qed.

Lemma sealed_literal k o v : scan_kind k o -> trim v = v -> sealed k o (buildExprLiteral MATCH_EQ v).
Proof.
  intros Hk Hv. unfold buildExprLiteral. rewrite Hv. change (jeqb MATCH_EQ MATCH_CONTAINS) with false. cbv iota.
  destruct (jeqb v (js "true") || jeqb v (js "false")) eqn:Et.
  { apply orb_true_iff in Et as [->%jeqb_eq| ->%jeqb_eq]; inert_text. }
  destruct (is_numeric v) eqn:En; [by apply sealed_number | apply sealed_json].
Qed.
Lemma sealed_mono k k' o s : (k <= k')%Z -> sealed k o s -> sealed k' o s.
Proof. intros Hk Hs d Hd. apply Hs. lia. Qed.

Lemma trim_ends l : l <> [] -> trim l = l -> exists c, is_space c = false /\ head l = Some c /\
  match rev l with c :: _ => is_space c = false | [] => True end.
Proof.
  intros Hne Hl. destruct l as [|c l]; [done|]. exists c. pose proof (trim_head (c :: l)) as Hh. rewrite Hl in Hh.
  split_and!; [done..|]. rewrite <- Hl. unfold trim. rewrite rev_involutive. apply drop_spaces_head.
Qed.

(** A text between two trimmed ones. *)
Lemma trim_between a s b : a <> [] -> trim a = a -> b <> [] -> trim b = b -> trim (a ++ s ++ b) = a ++ s ++ b.
Proof.
  intros Ha Ta Hb Tb. destruct (trim_ends a Ha Ta) as (c & Hc & Hh & _), (trim_ends b Hb Tb) as (_ & _ & _ & He).
  unfold trim. rewrite (drop_spaces_id (a ++ s ++ b)) by (by destruct a; simplify_eq/=).
  rewrite drop_spaces_id; [apply rev_involutive|]. rewrite !rev_app_distr, <- app_assoc.
  destruct (rev b) eqn:E; [|done]. apply (f_equal (@rev N)) in E. rewrite rev_involutive in E. by subst.
Qed.

(** What the scans need of a part: it is not empty, has no space around it and is
    sealed. *)
Definition part_ok (p : jstr) : Prop := p <> [] /\ trim p = p /\ forall k o, scan_kind k o -> sealed k o p.

Lemma join_trim (sep : jstr) ps : ps <> [] -> Forall part_ok ps -> join sep ps <> [] /\ trim (join sep ps) = join sep ps.
Proof.
  intros Hne Hps. induction Hps as [|p ps (Hp1 & Hp2 & _) Hps IH]; [done|]. destruct ps as [|q ps]; [done|].
  rewrite join_cons by done. destruct (IH ltac:(done)) as (Hq1 & Hq2). split; [by destruct p | by apply trim_between].
Qed.

Lemma join_sealed k o (sep : jstr) ps : sealed k o sep -> Forall (sealed k o) ps -> sealed k o (join sep ps).
Proof.
  intros Hsep. induction 1 as [|p ps Hp Hps IH]; [apply sealed_nil|]. destruct ps as [|q ps]; [done|].
  rewrite join_cons by done. by repeat apply sealed_app.
Qed.

Lemma bound_ok f tz mode v : name_ok tz -> mode ∈ scalar_modes -> is_numeric v = true -> part_ok (bound f tz mode v).
Proof.
  intros Htz Hm Hv. pose proof (numeric_class v Hv) as [Hne _]. split_and!.
  - by destruct f.
  - unfold bound, time_call_text. rewrite <- !app_assoc. do 5 rewrite (app_assoc _ _ v).
    apply trim_between; [by destruct f | by destruct f | done | by apply numeric_trim].
  - intros k o Hk. by apply sealed_bound.
Qed.
Lemma parens_ok s : (forall k o, scan_kind k o -> sealed k o s) -> part_ok (js "(" ++ s ++ js ")").
Proof.
  intros Hs. split_and!; [done | by apply trim_between|]. intros k o Hk.
  apply sealed_parens; [by destruct Hk as [[-> _]|[-> _]] | by destruct Hk as [[_ ->]|[_ ->]]|].
  apply (sealed_mono k); [lia | by apply Hs].
Qed.

Lemma call_part_ok src p (s : jstr) b : name_ok p -> b <> [] -> trim b = b ->
  (forall k o, scan_kind k o -> sealed k o (s ++ b)) -> part_ok (call_of src p ++ s ++ b).
Proof.
  intros Hp Hb Tb Hs. split_and!.
  - by destruct src.
  - unfold call_of. rewrite <- !app_assoc. do 3 rewrite (app_assoc _ _ b).
    apply trim_between; [by destruct src | by destruct src | done | done].
  - intros k o Hk. apply sealed_app; [by apply sealed_source | by apply Hs].
Qed.

Lemma literal_ok v : trim v = v -> buildExprLiteral MATCH_EQ v <> [] /\
  trim (buildExprLiteral MATCH_EQ v) = buildExprLiteral MATCH_EQ v.
Proof.
  intros Hv. unfold buildExprLiteral. rewrite Hv. change (jeqb MATCH_EQ MATCH_CONTAINS) with false. cbv iota.
  destruct (jeqb v (js "true") || jeqb v (js "false")) eqn:Et.
  { by apply orb_true_iff in Et as [->%jeqb_eq| ->%jeqb_eq]. }
  destruct (is_numeric v) eqn:En; [|split; [done | apply json_stringify_trim]].
  split; [by apply numeric_class in En as [? _] | by apply numeric_trim].
Qed.

Lemma contains_ok src p v : name_ok p -> part_ok (js "has(" ++ call_of src p ++ js ", " ++ json_stringify v ++ js ")").
Proof.
  intros Hp. split_and!; [done| |].
  - rewrite !app_assoc. rewrite <- (app_assoc (js "has(")), <- (app_assoc (js "has(")), <- (app_assoc (js "has(")).
    by apply trim_between.
  - intros k o Hk. change (js "has(") with (js "has" ++ js "("). rewrite <- app_assoc.
    apply sealed_app; [inert_text|]. rewrite (app_assoc (js ", ")), (app_assoc (call_of _ _)).
    apply parens_ok; [|done]. clear k o Hk. intros k o Hk.
    apply sealed_app; [by apply sealed_source|]. apply sealed_app; [inert_text | apply sealed_json].
Qed.

(** ** The parts of a condition *)

Lemma scalar_parts f tz mode v : name_ok tz -> mode ∈ scalar_modes -> isTimeValueInRange f v = true ->
  and_parts (CTime (scalar f tz mode v)) = [bound f tz mode v].
Proof. intros Htz Hm Hv. rewrite <- scalar_text by done. by destruct (scalar_mode mode Hm) as [->|[->| ->]]. Qed.

Lemma range_parts f tz a b : name_ok tz -> isTimeValueInRange f a = true -> isTimeValueInRange f b = true ->
  and_parts (CTime (range f tz a b)) =
  if crosses a b then [js "(" ++ (bound f tz MATCH_GTE a ++ js " || " ++ bound f tz MATCH_LT b) ++ js ")"]
  else [bound f tz MATCH_GTE a; bound f tz MATCH_LT b].
Proof.
  intros Htz Ha Hb. unfold and_parts, wrapped_text. rewrite range_written by done.
  assert (overnight (CTime (range f tz a b)) = crosses a b) as ->
    by (unfold overnight; simpl t_mode; by rewrite jeqb_refl).
  simpl t_mode. rewrite jeqb_refl. by destruct (crosses a b).
Qed.

Lemma param_parts src p mode v : and_parts (param src p mode v) = [buildRequestConditionExpr (param src p mode v)].
Proof. done. Qed.

Lemma parts_ok c : survives c -> and_parts c <> [] /\ Forall part_ok (and_parts c).
Proof.
  destruct 1 as [f tz mode v Htz Hm Hv|f tz a b Htz Ha Hb|src p Hp Ht|p v Hp Ht Hv|src p v Hp Ht Hv Hs].
  - rewrite scalar_parts by done. split; [done|]. apply Forall_singleton, bound_ok; eauto using in_range_numeric.
  - pose proof (in_range_numeric f a Ha). pose proof (in_range_numeric f b Hb). rewrite range_parts by done.
    destruct (crosses a b); (split; [done|]);
      [apply Forall_singleton, parens_ok | repeat apply Forall_cons_2; [| |constructor]; apply bound_ok; (done || set_solver)].
    intros k o Hk. apply sealed_app; [|apply sealed_app; [inert_text|]]; apply sealed_bound; (done || set_solver).
  - split; [done|]. rewrite param_parts, Forall_singleton, exists_text by done.
    apply call_part_ok; [done | by destruct src..|]. intros k o Hk. apply sealed_app; [inert_text|].
    destruct src; [inert_text | apply (sealed_json k o [])].
  - split; [done|]. rewrite param_parts, Forall_singleton, contains_text by done. by apply contains_ok.
  - split; [done|]. rewrite param_parts, Forall_singleton, equals_text by done.
    destruct (literal_ok v Hv). apply call_part_ok; [done..|]. intros k o Hk.
    apply sealed_app; [inert_text | by apply sealed_literal].
Qed.
Lemma parts_inv (x p : jstr) (xs ps : list jstr) : x :: xs = p :: ps -> p = x /\ ps = xs.
Proof. by intros [= -> ->]. Qed.

(** A condition with a single part is read back from it. *)
Lemma single_parses c p : survives c -> and_parts c = [p] -> tryParseRequestCondition p = Ok (Some c).
Proof.
  destruct 1 as [f tz mode v Htz Hm Hv|f tz a b Htz Ha Hb|src p' Hp Ht|p' v Hp Ht Hv|src p' v Hp Ht Hv Hs];
    rewrite ?scalar_parts, ?range_parts, ?param_parts, ?exists_text, ?contains_text, ?equals_text by done.
  - intros [-> _]%parts_inv. unfold tryParseRequestCondition. by rewrite bound_parses.
  - destruct (crosses a b); [|done]. intros [-> _]%parts_inv. unfold tryParseRequestCondition.
    by rewrite (paren_range_parses f tz Htz (js " || ") a b) by (done || by right).
  - intros [-> _]%parts_inv. by apply exists_parses.
  - intros [-> _]%parts_inv. by apply contains_parses.
  - intros [-> _]%parts_inv. by apply equals_parses.
Qed.

(** Two bounds that are read as one range when the second follows the first. *)
Definition fuses (c c' : RequestCondition) : bool :=
  match c, c' with
  | CTime a, CTime b =>
      bool_decide (timeFunc a = timeFunc b) && jeqb (timezone a) (timezone b)
      && jeqb (t_mode a) MATCH_GTE && jeqb (t_mode b) MATCH_LT
  | _, _ => false
  end.

Fixpoint separate (cs : list RequestCondition) : bool :=
  match cs with
  | c :: ((c' :: _) as rest) => negb (fuses c c') && separate rest
  | _ => true
  end.

(** The first part of a condition as a time condition. *)
Lemma first_time c p ps t : survives c -> and_parts c = p :: ps -> tryParseTimeCondition p = Some t ->
  c = CTime t \/ t_mode t = MATCH_GTE /\ ps <> [].
Proof.
  destruct 1 as [f tz mode v Htz Hm Hv|f tz a b Htz Ha Hb|src p' Hp Ht|p' v Hp Ht Hv|src p' v Hp Ht Hv Hs];
    rewrite ?scalar_parts, ?range_parts, ?param_parts, ?exists_text, ?contains_text, ?equals_text by done.
  - intros [-> ->]%parts_inv. rewrite bound_parses by done. intros [= <-]. by left.
  - destruct (crosses a b); intros [-> ->]%parts_inv.
    + rewrite (paren_range_parses f tz Htz (js " || ") a b) by (done || by right). intros [= <-]. by left.
    + rewrite bound_parses by (done || set_solver). intros [= <-]. by right.
  - intros [-> ->]%parts_inv. by rewrite call_no_time.
  - intros [-> ->]%parts_inv. by rewrite has_no_time.
  - intros [-> ->]%parts_inv. by rewrite call_no_time.
Qed.

Lemma no_fusion c c' p n ps : survives c -> survives c' -> and_parts c = [p] -> and_parts c' = n :: ps ->
  fuses c c' = false -> tryParseTimeRangePair p n = None.
Proof.
  intros Hc Hc' Hp Hn Hf. unfold tryParseTimeRangePair.
  destruct (tryParseTimeCondition p) as [a|] eqn:Ea; [|done]. destruct (tryParseTimeCondition n) as [b|] eqn:Eb; [|done].
  destruct (first_time c p [] a Hc Hp Ea) as [->|[_ ?]]; [|done]. cbn [mbind option_bind].
  destruct (first_time c' n ps b Hc' Hn Eb) as [->|[Hm _]]; [simpl in Hf; by rewrite Hf|].
  by rewrite Hm, !andb_false_r.
Qed.

Lemma range_pair f tz a b : name_ok tz -> isTimeValueInRange f a = true -> isTimeValueInRange f b = true ->
  tryParseTimeRangePair (bound f tz MATCH_GTE a) (bound f tz MATCH_LT b) = Some (range f tz a b).
Proof.
  intros Htz Ha Hb. unfold tryParseTimeRangePair. rewrite !bound_parses by (done || set_solver).
  cbn [mbind option_bind scalar timeFunc timezone t_mode t_value]. by rewrite bool_decide_true, jeqb_refl by done.
Qed.

(** ** Reading the parts back *)

Lemma parts_shape c : survives c -> (exists p, and_parts c = [p]) \/
  exists f tz a b, name_ok tz /\ isTimeValueInRange f a = true /\ isTimeValueInRange f b = true /\
    c = CTime (range f tz a b) /\ and_parts c = [bound f tz MATCH_GTE a; bound f tz MATCH_LT b].
Proof.
  destruct 1 as [f tz mode v Htz Hm Hv|f tz a b Htz Ha Hb| | |]; try (left; by eexists).
  - left. rewrite scalar_parts by done. by eexists.
  - rewrite range_parts by done. destruct (crosses a b); [left; by eexists|]. right. exists f, tz, a, b. split_and!; try done.
Qed.

Lemma loop_single c p rest : part_ok p -> tryParseRequestCondition p = Ok (Some c) ->
  match rest with n :: _ => tryParseTimeRangePair p (trim n) = None | [] => True end ->
  conditions_loop (p :: rest) = res_bind (conditions_loop rest) (fun cs => Ok (cons c <$> cs)).
Proof.
  intros (_ & Ht & _) Hp Hrest. cbn [conditions_loop]. rewrite Ht. destruct rest as [|n rest].
  - by rewrite Hp.
  - destruct (trim n) eqn:En; [|rewrite Hrest]; by rewrite Hp.
Qed.

Lemma loop_unread p : part_ok p -> tryParseRequestCondition p = Ok None -> conditions_loop [p] = Ok None.
Proof. intros (_ & Ht & _) Hp. cbn [conditions_loop]. by rewrite Ht, Hp. Qed.

Lemma loop_pair p q t rest : part_ok p -> part_ok q -> tryParseTimeRangePair p q = Some t ->
  conditions_loop (p :: q :: rest) = res_bind (conditions_loop rest) (fun cs => Ok (cons (CTime t) <$> cs)).
Proof.
  intros (_ & Tp & _) (Hq & Tq & _) Hpair. cbn [conditions_loop]. rewrite Tp, Tq. destruct q as [|c q]; [done|].
  by rewrite Hpair.
Qed.

Lemma loop_parses cs : Forall survives cs -> separate cs = true ->
  conditions_loop (concat (and_parts <$> cs)) = Ok (Some cs).
Proof.
  induction 1 as [|c cs Hc Hcs IH]; [done|]. intros Hsep. rewrite fmap_cons. cbn [concat].
  assert (separate cs = true) as Hsep'.
  { destruct cs; [done|]. by apply andb_true_iff in Hsep as [_ ?]. }
  specialize (IH Hsep'). destruct (parts_ok c Hc) as [_ Hok].
  destruct (parts_shape c Hc) as [[p Hp]|(f & tz & a & b & Htz & Ha & Hb & -> & Hp)]; rewrite Hp in Hok |- *.
  - rewrite Forall_singleton in Hok. cbn [app]. rewrite (loop_single c); [by rewrite IH | done | by apply single_parses|].
    destruct cs as [|c' cs]; [done|]. apply Forall_cons in Hcs as [Hc' _].
    destruct (parts_ok c' Hc') as [Hne Hok']. rewrite fmap_cons. cbn [concat].
    destruct (and_parts c') as [|n ps] eqn:Hn; [done|]. cbn [app]. apply Forall_cons in Hok' as [(_ & Tn & _) _].
    rewrite Tn. apply (no_fusion c c' p n ps); try done. simpl in Hsep. by apply andb_true_iff in Hsep as [->%negb_true_iff _].
  - apply Forall_cons in Hok as [Hoka [Hokb _]%Forall_cons]. cbn [app].
    rewrite (loop_pair _ _ (range f tz a b)) by (done || by apply range_pair). by rewrite IH.
Qed.
(** ** Groups *)

Lemma join_concat (sep : jstr) pss : Forall (fun ps => ps <> []) pss ->
  join sep (join sep <$> pss) = join sep (concat pss).
Proof.
  induction 1 as [|ps pss Hps Hpss IH]; [done|]. rewrite fmap_cons. cbn [concat].
  destruct pss as [|qs pss]; [simpl; by rewrite app_nil_r|]. rewrite join_cons by done. rewrite IH.
  assert (concat (qs :: pss) <> []) as Hc.
  { apply Forall_cons in Hpss as [Hqs _]. simpl. by destruct qs. }
  clear -Hps Hc. induction ps as [|p ps IH]; [done|]. destruct ps as [|q ps].
  - simpl app. rewrite (join_cons sep p) by done. done.
  - change ((p :: q :: ps) ++ concat (qs :: pss)) with (p :: (q :: ps) ++ concat (qs :: pss)).
    rewrite !(join_cons sep p) by done. rewrite <- IH by done. by rewrite <- !app_assoc.
Qed.

Lemma wrapped_parts c : survives c -> wrapped_text c = join (js " && ") (and_parts c).
Proof.
  destruct 1 as [f tz mode v Htz Hm Hv|f tz a b Htz Ha Hb| | |]; try done.
  - rewrite scalar_parts by done. unfold wrapped_text. rewrite scalar_text by done.
    by destruct (scalar_mode mode Hm) as [->|[->| ->]].
  - rewrite range_parts by done. unfold wrapped_text. rewrite range_written by done.
    assert (overnight (CTime (range f tz a b)) = crosses a b) as ->
      by (unfold overnight; simpl t_mode; by rewrite jeqb_refl).
    by destruct (crosses a b).
Qed.

Definition joined (cs : list RequestCondition) : jstr := join (js " && ") (concat (and_parts <$> cs)).

Lemma joined_wrapped cs : Forall survives cs -> join (js " && ") (wrapped_text <$> cs) = joined cs.
Proof.
  intros Hcs. unfold joined. rewrite <- join_concat.
  - f_equal. rewrite <- list_fmap_compose. apply list_fmap_ext. intros i c Hc.
    apply wrapped_parts. by eapply Forall_lookup_1.
  - apply Forall_fmap. eapply Forall_impl; [exact Hcs|]. intros c Hc. by apply parts_ok.
Qed.

Lemma all_parts cs : Forall survives cs -> Forall part_ok (concat (and_parts <$> cs)).
Proof.
  induction 1 as [|c cs Hc _ IH]; [constructor|]. rewrite fmap_cons. cbn [concat]. apply Forall_app_2; [by apply parts_ok | done].
Qed.

Lemma parts_nonempty cs : Forall survives cs -> cs <> [] -> concat (and_parts <$> cs) <> [].
Proof. destruct 1 as [|c cs Hc _]; [done|]. intros _. simpl. destruct (parts_ok c Hc) as [? _]. by destruct (and_parts c). Qed.

Lemma filter_non_empty (ps : list jstr) : Forall (fun p => p <> []) ps -> List.filter non_empty ps = ps.
Proof. induction 1 as [|p ps Hp _ IH]; [done|]. simpl. destruct p; [done|]. simpl. by f_equal. Qed.

Lemma split_joined o op ps :
  inert 0 o 32 && negb (is_quote o) && negb (is_open o) && negb (is_close o) && negb (o =? 63)%N = true ->
  ps <> [] -> Forall (fun p => p <> [] /\ passes o p 0 None false = Some (0%Z, None, false) /\ trim p = p) ps ->
  splitExpressionAtTopLevel (join ([32%N] ++ (o :: op) ++ [32%N]) ps) (o :: op) = ps.
Proof.
  intros Ho Hne Hps. unfold splitExpressionAtTopLevel. rewrite split_sealed; try done.
  - apply filter_non_empty. eapply Forall_impl; [exact Hps|]. by intros p [? _].
  - eapply Forall_impl; [exact Hps|]. by intros p [_ ?].
  - constructor.
Qed.

Lemma split_conditions cs : Forall survives cs -> cs <> [] ->
  splitExpressionAtTopLevel (joined cs) (js "&&") = concat (and_parts <$> cs).
Proof.
  intros Hcs Hne. apply (split_joined 38 [38%N]); [done | by apply parts_nonempty|].
  eapply Forall_impl; [by apply all_parts|]. intros p (H1 & H2 & H3). split_and!; [done| |done]. apply (H3 0%Z 38%N); [by left | lia].
Qed.

Lemma after_bound f tz f' tz' mode v r : name_ok tz -> name_ok tz' -> mode ∈ scalar_modes ->
  (f = f' -> tz = tz' -> mode = MATCH_LT -> False) -> after (time_call_text f tz ++ js " < ") (bound f' tz' mode v ++ r) = None.
Proof.
  intros Htz Htz' Hm Hno. unfold after. destruct (starts_with _ _) eqn:E; [|done]. apply starts_with_app in E as [x E].
  exfalso. pose proof (scan_time_call_app f' tz' (js " " ++ time_operator mode ++ js " " ++ v ++ r) Htz') as H1.
  pose proof (scan_time_call_app f tz (js " < " ++ x) Htz) as H2. unfold bound in E. rewrite <- !app_assoc in E.
  rewrite E, H2 in H1. injection H1 as -> -> Hop. apply Hno; [done..|].
  by destruct (scalar_mode mode Hm) as [->|[->| ->]].
Qed.

Lemma joined_cons c cs : Forall survives (c :: cs) -> cs <> [] -> joined (c :: cs) = wrapped_text c ++ js " && " ++ joined cs.
Proof.
  intros Hcs Hne. rewrite <- joined_wrapped by done. rewrite fmap_cons, join_cons by (by destruct cs).
  apply Forall_cons in Hcs as [_ Hcs]. by rewrite joined_wrapped.
Qed.

Lemma joined_head c cs : Forall survives (c :: cs) -> exists r, joined (c :: cs) = wrapped_text c ++ r.
Proof.
  intros Hcs. destruct cs as [|c' cs]; [|rewrite joined_cons by done; by eexists].
  exists []. rewrite <- joined_wrapped by done. simpl. by rewrite app_nil_r.
Qed.

Lemma no_upper_bound f tz v c r : survives c -> name_ok tz -> fuses (CTime (scalar f tz MATCH_GTE v)) c = false ->
  after (time_call_text f tz ++ js " < ") (wrapped_text c ++ r) = None.
Proof.
  intros Hc Htz Hf. rewrite wrapped_parts by done.
  destruct Hc as [f' tz' mode v' Htz' Hm Hv|f' tz' a b Htz' Ha Hb|src p Hp Ht|p v' Hp Ht Hv|src p v' Hp Ht Hv Hs];
    rewrite ?scalar_parts, ?range_parts, ?param_parts, ?exists_text, ?contains_text, ?equals_text by done.
  - apply after_bound; [done..|]. intros -> -> ->. simpl in Hf. by rewrite bool_decide_true, jeqb_refl in Hf.
  - destruct (crosses a b); [by destruct f|]. rewrite join_cons, <- app_assoc by done.
    apply after_bound; (done || set_solver).
  - by destruct f, src.
  - by destruct f.
  - by destruct f, src.
Qed.
(** Several conditions are no time condition as a whole. *)
Lemma joined_no_time c c' cs : Forall survives (c :: c' :: cs) -> fuses c c' = false ->
  tryParseTimeCondition (joined (c :: c' :: cs)) = None.
Proof.
  intros Hcs Hf. rewrite joined_cons by done. apply Forall_cons in Hcs as [Hc Hcs].
  destruct (joined_head c' cs Hcs) as [r ->]. apply Forall_cons in Hcs as [Hc' _]. rewrite (wrapped_parts c) by done.
  destruct Hc as [f tz mode v Htz Hm Hv|f tz a b Htz Ha Hb|src p Hp Ht|p v Hp Ht Hv|src p v Hp Ht Hv Hs];
    rewrite ?scalar_parts, ?range_parts, ?param_parts, ?exists_text, ?contains_text, ?equals_text by done.
  - apply bound_more; [done..|]. intros ->. by apply (no_upper_bound f tz v).
  - destruct (crosses a b); [by apply paren_more | by apply range_more].
  - cbn [join]. rewrite <- app_assoc. apply call_no_time.
  - cbn [join]. rewrite <- app_assoc. apply has_no_time.
  - cbn [join]. rewrite <- app_assoc. apply call_no_time.
Qed.

Lemma joined_trim cs : Forall survives cs -> cs <> [] -> joined cs <> [] /\ trim (joined cs) = joined cs.
Proof. intros Hcs Hne. apply join_trim; [by apply parts_nonempty | by apply all_parts]. Qed.

Lemma many_parse c c' cs : Forall survives (c :: c' :: cs) -> separate (c :: c' :: cs) = true ->
  tryParseRequestConditions (joined (c :: c' :: cs)) = Ok (Some (c :: c' :: cs)).
Proof.
  intros Hcs Hsep. unfold tryParseRequestConditions. rewrite (proj2 (joined_trim _ Hcs ltac:(done))).
  rewrite joined_no_time; [|done|by apply andb_true_iff in Hsep as [->%negb_true_iff _]].
  by rewrite split_conditions, loop_parses by done.
Qed.

(** The text of a condition that stands alone: parenthesised or not, it is read
    back, and it is sealed inside parentheses. *)
Lemma param_alone src p mode v : survives (param src p mode v) ->
  tryParseTimeCondition (buildRequestConditionExpr (param src p mode v)) = None ->
  tryParseRequestConditions (buildRequestConditionExpr (param src p mode v)) = Ok (Some [param src p mode v]).
Proof.
  intros Hc Hno. set (c := param src p mode v) in *. assert (buildRequestConditionExpr c = joined [c]) as E by done.
  assert (Forall survives [c]) as Hcs by (by apply Forall_singleton).
  unfold tryParseRequestConditions. rewrite E, (proj2 (joined_trim [c] Hcs ltac:(done))), <- E, Hno, E.
  by rewrite split_conditions, loop_parses by done.
Qed.

Lemma alone_parse c : survives c -> tryParseRequestConditions (buildRequestConditionExpr c) = Ok (Some [c]).
Proof.
  intros Hc. pose proof Hc as Hc'. destruct Hc' as [f tz mode v Htz Hm Hv|f tz a b Htz Ha Hb|src p Hp Ht|p v Hp Ht Hv|src p v Hp Ht Hv Hs].
  - rewrite scalar_text by done. destruct (bound_ok f tz mode v Htz Hm (in_range_numeric _ _ Hv)) as (_ & Tb & _).
    unfold tryParseRequestConditions. by rewrite Tb, bound_parses.
  - rewrite range_written by done. unfold tryParseRequestConditions.
    destruct (bound_ok f tz MATCH_GTE a Htz ltac:(set_solver) (in_range_numeric _ _ Ha)) as (Na & Ta & _).
    destruct (bound_ok f tz MATCH_LT b Htz ltac:(set_solver) (in_range_numeric _ _ Hb)) as (Nb & Tb & _).
    rewrite trim_between by done. rewrite range_parses; [done | done | destruct (crosses a b); auto | done | done].
  - apply param_alone; [done|]. rewrite exists_text by done. apply call_no_time.
  - apply param_alone; [done|]. rewrite contains_text by done. apply has_no_time.
  - apply param_alone; [done|]. rewrite equals_text by done. apply call_no_time.
Qed.

Lemma alone_ok c : survives c -> buildRequestConditionExpr c <> [] /\ sealed 1 42 (buildRequestConditionExpr c).
Proof.
  intros Hc. assert (scan_kind 1 42) as Hk by (by right).
  destruct Hc as [f tz mode v Htz Hm Hv|f tz a b Htz Ha Hb|src p Hp Ht|p v Hp Ht Hv|src p v Hp Ht Hv Hs].
  - rewrite scalar_text by done. destruct (bound_ok f tz mode v Htz Hm (in_range_numeric _ _ Hv)) as (Nb & _ & Sb). auto.
  - rewrite range_written by done. split; [by destruct f|].
    apply sealed_app; [|apply sealed_app; [destruct (crosses a b); by apply sealed_inert|]];
      (apply sealed_bound; [done | done | set_solver | by eapply in_range_numeric]).
  - pose proof (parts_ok _ (sv_exists src p Hp Ht)) as [_ Hok]. rewrite param_parts, Forall_singleton in Hok.
    destruct Hok as (? & _ & ?). auto.
  - pose proof (parts_ok _ (sv_contains p v Hp Ht Hv)) as [_ Hok]. rewrite param_parts, Forall_singleton in Hok.
    destruct Hok as (? & _ & ?). auto.
  - pose proof (parts_ok _ (sv_equals src p v Hp Ht Hv Hs)) as [_ Hok]. rewrite param_parts, Forall_singleton in Hok.
    destruct Hok as (? & _ & ?). auto.
Qed.
(** A group the editor can write and read back.  In a group of several conditions
    the texts with [ || ] must be those of the ranges that cross the end of their
    domain: the editor puts every such text in parentheses. *)
Record group_ok (g : RequestRuleGroup) : Prop := {
  go_some : conditions g <> [];
  go_survive : Forall survives (conditions g);
  go_separate : separate (conditions g) = true;
  go_multiplier : is_numeric (multiplier g) = true;
  go_edited : conditionText g = None /\ matched g = None;
  go_or : 1 < length (conditions g) ->
          Forall (fun c => includes (buildRequestConditionExpr c) (js " || ") = overnight c) (conditions g);
}.

Definition combined_text (cs : list RequestCondition) : jstr :=
  match cs with [c] => buildRequestConditionExpr c | _ => joined cs end.

Definition factor (t m : jstr) : jstr :=
  js "(" ++ t ++ js " ? " ++ m ++ js " : 1)".

Lemma wrapped_texts cs :
  Forall (fun c => includes (buildRequestConditionExpr c) (js " || ") = overnight c) cs ->
  ((fun e => if includes e (js " || ") then js "(" ++ e ++ js ")" else e) <$> (buildRequestConditionExpr <$> cs))
  = (wrapped_text <$> cs).
Proof.
  intros Hor. rewrite <- list_fmap_compose. apply list_fmap_ext. intros i c Hc. simpl.
  rewrite Forall_lookup in Hor. by rewrite (Hor i c Hc).
Qed.

Lemma factor_text g : group_ok g -> buildRuleGroupFactor g = factor (combined_text (conditions g)) (multiplier g).
Proof.
  intros [Hne Hcs _ Hm _ Hor]. unfold buildRuleGroupFactor, factor. rewrite (numeric_trim _ Hm), Hm. simpl negb. cbv iota.
  rewrite filter_non_empty.
  2: { apply Forall_fmap. eapply Forall_impl; [exact Hcs|]. intros c Hc. by apply alone_ok. }
  destruct (conditions g) as [|c [|c' cs]]; [done | done|]. specialize (Hor ltac:(simpl; lia)).
  unfold combined_text. rewrite <- joined_wrapped, <- wrapped_texts by done. done.
Qed.

Lemma combined_parse cs : cs <> [] -> Forall survives cs -> separate cs = true ->
  tryParseRequestConditions (combined_text cs) = Ok (Some cs).
Proof.
  intros Hne Hcs Hsep. destruct cs as [|c [|c' cs]]; [done | rewrite Forall_singleton in Hcs; by apply alone_parse|].
  by apply many_parse.
Qed.

Lemma combined_sealed cs : cs <> [] -> Forall survives cs -> combined_text cs <> [] /\ sealed 1 42 (combined_text cs).
Proof.
  intros Hne Hcs. destruct cs as [|c [|c' cs]]; [done | rewrite Forall_singleton in Hcs; by apply alone_ok|].
  split; [by apply joined_trim|]. apply join_sealed; [by apply sealed_inert|].
  eapply Forall_impl; [by apply all_parts|]. intros p (_ & _ & Hp). apply Hp. by right.
Qed.

Lemma factor_sealed t m : sealed 1 42 t -> is_numeric m = true ->
  factor t m <> [] /\ trim (factor t m) = factor t m /\ sealed 0 42 (factor t m).
Proof.
  intros Hsealed Hm. unfold factor. change (js " : 1)") with (js " : 1" ++ js ")").
  rewrite (app_assoc m), (app_assoc (js " ? ")), (app_assoc t). split_and!; [done | by apply trim_between|].
  apply sealed_parens; [done..|]. apply sealed_app; [done|]. apply sealed_app; [by apply sealed_inert|].
  apply sealed_app; [apply sealed_number; [by right | done] | by apply sealed_inert].
Qed.

Lemma factor_matches t m : t <> [] -> is_numeric m = true -> match_factor (factor t m) = Some (t, m).
Proof.
  intros Hc Hm. unfold match_factor, factor.
  rewrite after_app. cbn [mbind option_bind]. rewrite !rev_app_distr, <- !app_assoc, after_app. cbn [mbind option_bind].
  apply numeric_class in Hm as [Hm1 Hm2].
  rewrite scan_number_app; [|by destruct m as [|? m]; [|simpl; destruct (rev m)]|by apply Forall_rev|done].
  cbn [mbind option_bind]. rewrite after_app. cbn [mbind option_bind]. rewrite !rev_involutive.
  destruct (rev t) eqn:E; [|done]. apply (f_equal (@rev N)) in E. by rewrite rev_involutive in E.
Qed.

Lemma factor_parses g : group_ok g -> tryParseRuleGroupFactor (factor (combined_text (conditions g)) (multiplier g)) = Ok (Some g).
Proof.
  intros [Hne Hcs Hsep Hm [Ht Hma] _]. destruct (combined_sealed _ Hne Hcs) as [Hc _].
  unfold tryParseRuleGroupFactor. rewrite factor_matches by done.
  rewrite combined_parse by done. simpl. destruct g; simpl in *. by subst.
Qed.

Definition factors (gs : list RequestRuleGroup) : list jstr := (fun g => factor (combined_text (conditions g)) (multiplier g)) <$> gs.

Lemma factors_ok gs : Forall group_ok gs ->
  Forall (fun p => p <> [] /\ passes 42 p 0 None false = Some (0%Z, None, false) /\ trim p = p) (factors gs).
Proof.
  intros Hgs. apply Forall_fmap. eapply Forall_impl; [exact Hgs|]. intros g [Hne Hcs _ Hm _ _].
  destruct (combined_sealed _ Hne Hcs) as [_ Hs].
  destruct (factor_sealed _ _ Hs Hm) as (H1 & H2 & H3). split_and!; [done| |done]. apply H3. lia.
Qed.

Lemma rules_text gs : Forall group_ok gs -> buildRequestRuleExpr gs = join (js " * ") (factors gs).
Proof.
  intros Hgs. unfold buildRequestRuleExpr.
  assert (buildRuleGroupFactor <$> gs = factors gs) as ->.
  { apply list_fmap_ext. intros i g Hg. apply factor_text. by eapply Forall_lookup_1. }
  rewrite filter_non_empty; [done|]. eapply Forall_impl; [by apply factors_ok|]. by intros p [? _].
Qed.

Lemma parse_factors_back gs : Forall group_ok gs -> parse_factors (factors gs) = Ok (Some gs).
Proof.
  induction 1 as [|g gs Hg Hgs IH]; [done|]. cbn [factors fmap list_fmap parse_factors]. rewrite factor_parses by done.
  simpl. fold (factors gs). by rewrite IH.
Qed.

Lemma join_factors_trim gs : Forall group_ok gs -> gs <> [] ->
  join (js " * ") (factors gs) <> [] /\ trim (join (js " * ") (factors gs)) = join (js " * ") (factors gs).
Proof.
  intros Hgs Hne. pose proof (factors_ok gs Hgs) as Hok. assert (factors gs <> []) as Hne' by (by destruct gs).
  revert Hok Hne'. generalize (factors gs). clear. intros ps Hps. induction Hps as [|p ps (Hp1 & _ & Hp2) Hps IH]; [done|].
  intros _. destruct ps as [|q ps]; [done|]. rewrite join_cons by done. destruct (IH ltac:(done)) as (Hq1 & Hq2).
  split; [by destruct p | by apply trim_between].
Qed.

(** C6: What the rule editor writes, it reads back: the text that
    [buildRequestRuleExpr] makes of groups parses to the same groups, ranges
    written as two bounds or across midnight included, for groups that are
    [group_ok]: edited as conditions and not as raw text; a numeric multiplier; at
    least one condition, each of a kind that survives (a time compared by [>=], [<]
    or [==] with a number in its range, a time range, the presence of a parameter or
    header, a header that contains a text, or an equality, over plain names and
    trimmed values); no lower bound of a time followed at once by an upper bound of
    the same time in the same zone, which would be read as one range; and, in a
    group of several conditions, no [ || ] but that of the ranges that cross the end
    of their domain. *)
Theorem request_rules_round_trip gs : Forall group_ok gs ->
  tryParseRequestRuleExpr (buildRequestRuleExpr gs) = Ok (Some gs).
Proof.
  intros Hgs. rewrite rules_text by done. destruct gs as [|g gs]; [done|].
  destruct (join_factors_trim (g :: gs) Hgs ltac:(done)) as [Hne Ht]. unfold tryParseRequestRuleExpr. rewrite Ht.
  destruct (join (js " * ") (factors (g :: gs))) eqn:E; [done|]. rewrite <- E.
  rewrite (split_joined 42 []) by (done || by apply factors_ok). by apply parse_factors_back.
Qed.
(** Night hours of a tenant at half price, and the working days of a model. *)
Definition night_rule : RequestRuleGroup :=
  edited_group [CTime (range Fhour (js "Asia/Shanghai") (js "22") (js "6"));
                param SOURCE_HEADER (js "x-tenant") MATCH_CONTAINS (js "acme")] (js "0.5").

Definition weekday_rule : RequestRuleGroup :=
  edited_group [CTime (range Fweekday (js "UTC") (js "1") (js "6")); param SOURCE_PARAM (js "stream") MATCH_EQ (js "true")]
    (js "1.25").

Ltac survivor := constructor; solve [split; [done | vm_compute; reflexivity] | vm_compute; reflexivity].

Lemma sample_rules_ok : Forall group_ok [night_rule; weekday_rule].
Proof.
  repeat apply Forall_cons_2; [| |constructor]; (split;
    [done | repeat apply Forall_cons_2; [survivor | survivor | constructor] | vm_compute; reflexivity
    | vm_compute; reflexivity | done | intros _; repeat apply Forall_cons_2; [vm_compute; reflexivity.. | constructor]]).
Qed.

Lemma request_rules_round_trip_witness :
  buildRequestRuleExpr [night_rule; weekday_rule] <> [] /\
  tryParseRequestRuleExpr (buildRequestRuleExpr [night_rule; weekday_rule]) = Ok (Some [night_rule; weekday_rule]).
Proof. split; [vm_compute; discriminate | apply request_rules_round_trip, sample_rules_ok]. Defined.

(** ** Combining and splitting *)

(** A base expression that can stand in front of the rules: without spaces around
    it, with balanced brackets, itself not in parentheses, and not of the form of a
    rule. *)
Record base_ok (base : jstr) : Prop := {
  bo_some : base <> [];
  bo_trim : trim base = base;
  bo_balanced : passes 42 base 1 None false = Some (1%Z, None, false);
  bo_closed : wrapped (js "(" ++ base ++ js ")") = true;
  bo_bare : wrapped base = false;
  bo_no_rule : tryParseRuleGroupFactor (js "(" ++ base ++ js ")") = Ok None;
}.

Lemma parens_pass base : passes 42 base 1 None false = Some (1%Z, None, false) ->
  passes 42 (js "(" ++ base ++ js ")") 0 None false = Some (0%Z, None, false).
Proof. intros Hb. simpl. change (0 + 1)%Z with 1%Z. rewrite passes_app, Hb. done. Qed.

Lemma unwrap_base base : base_ok base -> unwrapExpressionParens (js "(" ++ base ++ js ")") = base.
Proof.
  intros [_ Ht _ Hc Hb _]. unfold unwrapExpressionParens. rewrite trim_between by done.
  change (length (js "(" ++ base ++ js ")")) with (S (length (base ++ js ")"))). cbn [unwrap_loop]. rewrite Hc.
  assert (inside (js "(" ++ base ++ js ")") = base) as ->.
  { unfold inside, slice. rewrite !length_app. simpl. rewrite drop_0.
    replace (length base + 1 - 0 - 1) with (length base) by lia. by rewrite take_app_length. }
  rewrite Ht. destruct (length (base ++ js ")")); simpl; [done | by rewrite Hb].
Qed.

Lemma no_rule_part part : part <> [] -> trim part = part -> passes 42 part 0 None false = Some (0%Z, None, false) ->
  tryParseRequestRuleExpr part = res_bind (tryParseRuleGroupFactor part) (fun g => Ok (fmap (fun x => [x]) g)).
Proof.
  intros Hne Ht Hp. unfold tryParseRequestRuleExpr. rewrite Ht. destruct part as [|c part]; [done|].
  pose proof (split_joined 42 [] [c :: part] eq_refl ltac:(done)) as E. cbn [join] in E.
  change (js "*") with [42%N]. rewrite E.
  - cbn [parse_factors]. by destruct (tryParseRuleGroupFactor (c :: part)) as [[g|]|e].
  - by apply Forall_singleton.
Qed.

Lemma partition_factors gs : Forall group_ok gs -> partition_parts (factors gs) = Ok (factors gs, []).
Proof.
  induction 1 as [|g gs Hg Hgs IH]; [done|]. pose proof (factors_ok [g] ltac:(by apply Forall_singleton)) as Hok.
  change (factors (g :: gs)) with (factor (combined_text (conditions g)) (multiplier g) :: factors gs).
  change (factors [g]) with [factor (combined_text (conditions g)) (multiplier g)] in Hok. rewrite Forall_singleton in Hok.
  destruct Hok as (H1 & H2 & H3). cbn [partition_parts]. rewrite no_rule_part, factor_parses by done. simpl. by rewrite IH.
Qed.

(** Combining a base expression with the text of at least one rule and
    splitting the result gives both back. *)
Theorem combine_split_round_trip base gs : base_ok base -> Forall group_ok gs -> gs <> [] ->
  splitBillingExprAndRequestRules (combineBillingExpr base (buildRequestRuleExpr gs))
  = Ok (base, buildRequestRuleExpr gs).
Proof.
  intros Hb Hgs Hne. pose proof Hb as [Hsome Ht Hbal Hcl Hbare Hno]. rewrite rules_text by done.
  destruct (join_factors_trim gs Hgs Hne) as [Hr Htr].
  assert (combineBillingExpr base (join (js " * ") (factors gs))
          = join (js " * ") ((js "(" ++ base ++ js ")") :: factors gs)) as ->.
  { unfold combineBillingExpr. rewrite Ht, Htr. rewrite join_cons by (by destruct gs).
    destruct base; [done|]. destruct (join (js " * ") (factors gs)); [done|]. by rewrite <- !app_assoc. }
  set (parts := (js "(" ++ base ++ js ")") :: factors gs).
  assert (Forall (fun p => p <> [] /\ passes 42 p 0 None false = Some (0%Z, None, false) /\ trim p = p) parts) as Hparts.
  { apply Forall_cons_2; [|by apply factors_ok]. split_and!; [done | by apply parens_pass | by apply trim_between]. }
  assert (trim (join (js " * ") parts) = join (js " * ") parts) as Htp.
  { unfold parts. rewrite join_cons by (by destruct gs). apply trim_between; try done. by apply trim_between. }
  unfold splitBillingExprAndRequestRules. rewrite Htp.
  destruct (join (js " * ") parts) as [|c l] eqn:E; [unfold parts in E; by rewrite join_cons in E by (by destruct gs)|].
  rewrite <- E, (split_joined 42 []) by done. clear c l E Htp.
  assert (partition_parts parts = Ok (factors gs, [js "(" ++ base ++ js ")"])) as ->.
  { unfold parts. cbn [partition_parts]. rewrite no_rule_part, Hno; try done; [|by apply trim_between | by apply parens_pass].
    simpl. by rewrite partition_factors. }
  assert (Nat.leb (length parts) 1 = false) as -> by (by destruct gs).
  assert (factors gs <> []) by (by destruct gs). destruct (factors gs) as [|x l] eqn:E; [done|].
  cbn [res_bind]. by rewrite unwrap_base.
Qed.
Lemma combine_split_round_trip_witness :
  splitBillingExprAndRequestRules
    (combineBillingExpr (js "p * 2 + c * 8") (buildRequestRuleExpr [night_rule; weekday_rule]))
  = Ok (js "p * 2 + c * 8", buildRequestRuleExpr [night_rule; weekday_rule]).
Proof.
  apply combine_split_round_trip; [split; solve [discriminate | vm_compute; reflexivity] | apply sample_rules_ok | discriminate].
Defined.

(** ** Conditions that are lost *)

Definition guarded_modes : list jstr := [MATCH_CONTAINS; MATCH_GT; MATCH_GTE; MATCH_LT; MATCH_LTE].

Lemma guarded_mode mode : mode ∈ guarded_modes ->
  normal_mode (Some SOURCE_PARAM) mode MATCH_EQ = mode /\ jeqb mode MATCH_EXISTS = false /\
  (mode = MATCH_CONTAINS \/
   jeqb mode MATCH_CONTAINS = false /\
   exists op, order_operator mode = Some op /\ op ∈ [js ">"; js ">="; js "<"; js "<="]).
Proof.
  unfold guarded_modes. rewrite !elem_of_cons, elem_of_nil.
  intros [->|[->|[->|[->|[->|[]]]]]]; (split; [done|]); (split; [done|]);
    [by left | right; (split; [done|]); eexists; (split; [reflexivity | set_solver])..].
Qed.

(** The second half of the text, after [ && ]. *)
Definition guarded_part (p mode v : jstr) : jstr :=
  match order_operator mode with
  | Some op => call_of SOURCE_PARAM p ++ (js " " ++ op ++ js " ") ++ v
  | None => js "has(" ++ call_of SOURCE_PARAM p ++ js ", " ++ json_stringify v ++ js ")"
  end.

Definition guard (p : jstr) : jstr := call_of SOURCE_PARAM p ++ js " != " ++ js "nil".

Definition guarded_value (mode v : jstr) : Prop := trim v = v /\ (mode = MATCH_CONTAINS \/ is_numeric v = true).

Lemma guarded_text p mode v : name_ok p -> trim p = p -> mode ∈ guarded_modes -> guarded_value mode v ->
  buildRequestConditionExpr (param SOURCE_PARAM p mode v) = join (js " && ") [guard p; guarded_part p mode v].
Proof.
  intros Hp Ht Hm [Tv Hv]. unfold guarded_part, guard. cbn [join]. rewrite <- !app_assoc.
  unfold param, buildRequestConditionExpr, buildParamConditionExpr, normalize_param, call_of.
  cbn [path ph_source ph_mode ph_value]. rewrite Ht. destruct p as [|c p]; [by destruct Hp|]. rewrite <- (json_name (c :: p) Hp).
  destruct (guarded_mode mode Hm) as (-> & -> & [->|(E & op & -> & _)]).
  - change (order_operator MATCH_CONTAINS) with (@None jstr). unfold buildExprLiteral.
    rewrite jeqb_refl, Tv, <- !app_assoc. done.
  - destruct Hv as [->|Hn]; [by rewrite jeqb_refl in E|]. rewrite E, Tv, Hn, <- !app_assoc. done.
Qed.
Lemma guard_ok p : name_ok p -> trim p = p -> part_ok (guard p).
Proof.
  intros Hp Ht. pose proof (parts_ok _ (sv_exists SOURCE_PARAM p Hp Ht)) as [_ Hok].
  by rewrite param_parts, exists_text, Forall_singleton in Hok by done.
Qed.

Lemma guarded_ok p mode v : name_ok p -> mode ∈ guarded_modes -> guarded_value mode v -> part_ok (guarded_part p mode v).
Proof.
  intros Hp Hm [Tv Hv]. unfold guarded_part.
  destruct (guarded_mode mode Hm) as (_ & _ & [->|(E & op & -> & Hop)]); [by apply contains_ok|].
  destruct Hv as [->|Hn]; [by rewrite jeqb_refl in E|]. apply call_part_ok; [done | by apply numeric_class in Hn as [? _] | done|].
  intros k o Hk. apply sealed_app; [|by apply sealed_number]. revert Hop. rewrite !elem_of_cons, elem_of_nil.
  intros [->|[->|[->|[->|[]]]]]; inert_text.
Qed.

(** What comes after the source of the second half is no [==]. *)
Lemma guarded_unread p mode v : name_ok p -> mode ∈ guarded_modes ->
  tryParseRequestCondition (guarded_part p mode v) = Ok None.
Proof.
  intros Hp Hm. unfold guarded_part, tryParseRequestCondition.
  destruct (guarded_mode mode Hm) as (_ & _ & [->|(E & op & -> & Hop)]).
  { change (order_operator MATCH_CONTAINS) with (@None jstr). cbv iota. rewrite has_no_time.
    assert (match_header_contains (js "has(" ++ call_of SOURCE_PARAM p ++ js ", " ++ json_stringify v ++ js ")") = None) as ->.
    { unfold match_header_contains. rewrite after_app. cbn [mbind option_bind].
      by rewrite (proj2 (no_source p (js ", " ++ json_stringify v ++ js ")"))). }
    done. }
  rewrite call_no_time. unfold match_header_exists. rewrite (proj2 (no_source p _)). cbn [mbind option_bind].
  unfold match_param_exists, parse_contains, match_param_contains, parse_order, match_param_order, parse_equals, match_equals.
  rewrite !scan_source_app by done. cbn [mbind option_bind].
  change (match_header_contains (call_of SOURCE_PARAM p ++ ?r)) with (@None (jstr * jstr)).
  revert Hop. rewrite !elem_of_cons, elem_of_nil. by intros [->|[->|[->|[->|[]]]]].
Qed.

Lemma guarded_lost p mode v : name_ok p -> trim p = p -> mode ∈ guarded_modes -> guarded_value mode v ->
  let t := buildRequestConditionExpr (param SOURCE_PARAM p mode v) in
  t <> [] /\ sealed 1 42 t /\ tryParseRequestConditions t = Ok None.
Proof.
  intros Hp Ht Hm Hv t. unfold t. rewrite guarded_text by done.
  assert (Forall part_ok [guard p; guarded_part p mode v]) as Hok.
  { repeat apply Forall_cons_2; [by apply guard_ok | by apply guarded_ok | constructor]. }
  destruct (join_trim (js " && ") [guard p; guarded_part p mode v] ltac:(done) Hok) as [Hne Tt]. split_and!; [done| |].
  { apply join_sealed; [by apply sealed_inert|]. eapply Forall_impl; [exact Hok|]. intros q (_ & _ & Hq). apply Hq. by right. }
  unfold tryParseRequestConditions. rewrite Tt.
  assert (tryParseTimeCondition (join (js " && ") [guard p; guarded_part p mode v]) = None) as ->.
  { cbn [join]. unfold guard. rewrite <- app_assoc. apply call_no_time. }
  assert (splitExpressionAtTopLevel (join (js " && ") [guard p; guarded_part p mode v]) (js "&&")
          = [guard p; guarded_part p mode v]) as ->.
  { apply (split_joined 38 [38%N]); [done..|]. eapply Forall_impl; [exact Hok|]. intros q (H1 & H2 & H3).
    split_and!; [done| |done]. apply (H3 0%Z 38%N); [by left | lia]. }
  apply Forall_cons in Hok as [Hg [Hgp _]%Forall_cons].
  rewrite (loop_single (param SOURCE_PARAM p MATCH_EXISTS [])).
  - rewrite (loop_unread (guarded_part p mode v)); [done | done | by apply guarded_unread].
  - done.
  - by apply exists_parses.
  - unfold tryParseTimeRangePair, guard. by rewrite call_no_time.
Qed.

(** A condition on a body parameter with [contains] or an order comparison is
    lost: the editor writes it with a check for [nil] joined by [&&], and reading
    splits the text at the [&&] before the expressions that expect both halves are
    tried, so the whole rule is not read back. *)
Theorem param_rule_lost p mode v m : name_ok p -> trim p = p -> mode ∈ guarded_modes -> guarded_value mode v ->
  is_numeric m = true ->
  let text := buildRequestRuleExpr [edited_group [param SOURCE_PARAM p mode v] m] in
  text <> [] /\ tryParseRequestRuleExpr text = Ok None.
Proof.
  intros Hp Ht Hm Hv Hn text. destruct (guarded_lost p mode v Hp Ht Hm Hv) as (Hne & Hs & Hno).
  set (t := buildRequestConditionExpr (param SOURCE_PARAM p mode v)) in *.
  assert (text = factor t m) as ->.
  { unfold text, buildRequestRuleExpr, buildRuleGroupFactor. cbn [fmap list_fmap conditions multiplier edited_group].
    fold t. rewrite (numeric_trim m Hn), Hn. destruct t as [|c t'] eqn:Et; [done|]. done. }
  destruct (factor_sealed t m Hs Hn) as (H1 & H2 & H3). split; [done|].
  rewrite no_rule_part; [|done|done|apply H3; lia]. unfold tryParseRuleGroupFactor.
  by rewrite factor_matches, Hno by done.
Qed.

Lemma param_rule_lost_witness :
  let text := buildRequestRuleExpr [edited_group [param SOURCE_PARAM (js "max_tokens") MATCH_GT (js "4096")] (js "2")] in
  text <> [] /\ tryParseRequestRuleExpr text = Ok None.
Proof.
  apply param_rule_lost; [split; [done | vm_compute; reflexivity] | vm_compute; reflexivity | | | vm_compute; reflexivity].
  - do 1 right. left.
  - split; [vm_compute; reflexivity | right; vm_compute; reflexivity].
Defined.
(** ** Ranges with the other operator *)

(** A range is read whichever operator joins its bounds, and written with the
    one that its bounds call for.  So the text with the other operator, whose
    meaning differs, is read without complaint and written back as another
    expression. *)
Theorem range_operator_changed f tz a b : name_ok tz -> isTimeValueInRange f a = true -> isTimeValueInRange f b = true ->
  let text := bound f tz MATCH_GTE a ++ (if crosses a b then js " && " else js " || ") ++ bound f tz MATCH_LT b in
  exists c, tryParseRequestConditions text = Ok (Some [c]) /\ buildRequestConditionExpr c <> [] /\
    buildRequestConditionExpr c <> text.
Proof.
  intros Htz Ha Hb text. exists (CTime (range f tz a b)).
  destruct (bound_ok f tz MATCH_GTE a Htz ltac:(set_solver) (in_range_numeric _ _ Ha)) as (Na & Ta & _).
  destruct (bound_ok f tz MATCH_LT b Htz ltac:(set_solver) (in_range_numeric _ _ Hb)) as (Nb & Tb & _). split_and!.
  - unfold tryParseRequestConditions, text. rewrite trim_between by done.
    rewrite range_parses; [done | done | destruct (crosses a b); auto | done | done].
  - rewrite range_written by done. by destruct f.
  - rewrite range_written by done. unfold text. intros E%app_inv_head. by destruct (crosses a b).
Qed.

Lemma range_operator_changed_witness :
  let text := js "hour(" ++ in_quotes (js "UTC") ++ js ") >= 9 || hour(" ++ in_quotes (js "UTC") ++ js ") < 17" in
  exists c, tryParseRequestConditions text = Ok (Some [c]) /\ buildRequestConditionExpr c <> [] /\
    buildRequestConditionExpr c <> text.
Proof.
  apply (range_operator_changed Fhour (js "UTC") (js "9") (js "17"));
    [split; [done | vm_compute; reflexivity] | vm_compute; reflexivity..].
Defined.

(** ** Literals that are no JSON *)

(** The expressions accept any escape in a literal; what [JSON.parse] does not
    accept it throws, out of the parser. *)
Lemma contains_throws p l : name_ok p -> scan_quoted (l ++ js ")") = Some (l, js ")") -> json_parse l = None ->
  tryParseRequestCondition (js "has(" ++ call_of SOURCE_HEADER p ++ js ", " ++ l ++ js ")") = Err SyntaxError.
Proof.
  intros Hp Hl Hj. unfold tryParseRequestCondition. rewrite has_no_time.
  change (match_header_exists (js "has(" ++ ?r)) with (@None jstr).
  change (match_param_exists (js "has(" ++ ?r)) with (@None jstr). cbv iota.
  unfold match_header_contains. rewrite after_app. cbn [mbind option_bind]. rewrite scan_source_app by done.
  cbn [mbind option_bind]. rewrite after_app. cbn [mbind option_bind]. rewrite Hl. cbn [mbind option_bind].
  rewrite after_all. cbn [mbind option_bind at_end]. unfold parse_string. by rewrite Hj.
Qed.

Example hexadecimal_escape_throws :
  tryParseRequestCondition (js "has(" ++ call_of SOURCE_HEADER (js "h") ++ js ", " ++ in_quotes (js "\x41") ++ js ")")
  = Err SyntaxError.
Proof. apply contains_throws; [split; [done | vm_compute; reflexivity] | vm_compute; reflexivity..]. Qed.
End RequestRulesFacts.
