(* ===== verification/JsRegExp.v ===== *)
(** * Regular expressions

    Matching as JavaScript does it: a pattern maps a text to its matches, with
    their captures and the text that is left, in the order in which backtracking
    tries them.  The first one is the match.  An expression of the source is
    written with one combinator per construct. *)

From stdpp Require Import base list numbers strings sets.
From Stdlib Require Import ZArith Lia.
From S2P Require Import Prelude.
From S2P Require Import JsString.

Module RegExp.

(** A capture that did not take part is [None]. *)
Abbreviation captures := (list (option jstr)).

Definition pattern : Type := jstr -> list (captures * jstr).

(** The characters of a text. *)
Definition chars (s : jstr) : pattern := fun u =>
  if starts_with s u then [([], drop (length s) u)] else [].

(** [[...]] *)
Definition class (f : N -> bool) : pattern := fun u =>
  match u with c :: r => if f c then [([], r)] else [] | [] => [] end.

Definition seq (p q : pattern) : pattern := fun u =>
  flat_map (fun m => (fun n => (fst m ++ fst n, snd n)) <$> q (snd m)) (p u).

(** [p|q] *)
Definition either (p q : pattern) : pattern := fun u => p u ++ q u.

Fixpoint any_of (ps : list pattern) : pattern :=
  match ps with [] => fun _ => [] | [p] => p | p :: ps => either p (any_of ps) end.

Fixpoint in_order (ps : list pattern) : pattern :=
  match ps with [] => fun u => [([], u)] | [p] => p | p :: ps => seq p (in_order ps) end.

(** [[...]*]: the longest first. *)
Fixpoint star (f : N -> bool) (u : jstr) : list (captures * jstr) :=
  match u with
  | c :: r => if f c then star f r ++ [([], u)] else [([], u)]
  | [] => [([], [])]
  end.

(** [[...]+] *)
Definition plus (f : N -> bool) : pattern := seq (class f) (star f).

(** [(?:p)?], where [p] has [n] captures. *)
Definition optional (n : nat) (p : pattern) : pattern := fun u => p u ++ [(replicate n None, u)].

(** [(?:p)*], where [p] has no captures and matches at least one character: [turns]
    bounds the repetitions by the length of the text. *)
Fixpoint repeat (turns : nat) (p : pattern) : pattern := fun u =>
  match turns with
  | O => [([], u)]
  | S turns' => flat_map (fun m => repeat turns' p (snd m)) (p u) ++ [([], u)]
  end.

Definition many (p : pattern) : pattern := fun u => repeat (length u) p u.

(** [(p)] *)
Definition capture (p : pattern) : pattern := fun u =>
  (fun m => (Some (take (length u - length (snd m)) u) :: fst m, snd m)) <$> p u.

(** [$] *)
Definition text_end : pattern := fun u => match u with [] => [([], [])] | _ => [] end.

(** [\s*], [\d+] *)
Definition ws : pattern := star is_space.
Definition digits : pattern := plus is_digit.

Definition first (p : pattern) (u : jstr) : option (captures * jstr) := head (p u).

(** [text.match(/^p/)], and [/^p$/] where the pattern ends with [text_end]. *)
Definition matches (p : pattern) (u : jstr) : option captures := fst <$> first p u.

(** The successive results of [exec] with the flag [g]: the search starts where the
    last match, which is not empty, ended. *)
Fixpoint match_all (turns : nat) (p : pattern) (u : jstr) : list captures :=
  match turns with
  | O => []
  | S turns' =>
      match first p u with
      | Some (caps, rest) => caps :: match_all turns' p rest
      | None => match u with [] => [] | _ :: u' => match_all turns' p u' end
      end
  end.

Definition exec_all (p : pattern) (u : jstr) : list captures := match_all (S (length u)) p u.

(** [text.split(/p/)], where [p] has no captures and no empty match; [acc] is the
    current part, reversed. *)
Fixpoint split_turns (turns : nat) (p : pattern) (acc u : jstr) : list jstr :=
  match turns with
  | O => [rev acc]
  | S turns' =>
      match first p u with
      | Some (_, rest) => rev acc :: split_turns turns' p [] rest
      | None => match u with [] => [rev acc] | c :: u' => split_turns turns' p (c :: acc) u' end
      end
  end.

Definition split (p : pattern) (u : jstr) : list jstr := split_turns (S (length u)) p [] u.

(** ** The first match *)

Lemma first_chars s u : first (chars s) (s ++ u) = Some ([], u).
Proof. unfold first, chars. rewrite (proj2 (starts_with_app s (s ++ u))) by eauto. cbn. by rewrite drop_app_length. Qed.

Lemma first_seq p q u cp r cq r' : first p u = Some (cp, r) -> first q r = Some (cq, r') ->
  first (seq p q) u = Some (cp ++ cq, r').
Proof.
  unfold first, seq. destruct (p u) as [|[c1 r1] l]; [done|]. intros [= -> ->]. cbn [flat_map fst snd].
  destruct (q r) as [|[c2 r2] l']; [done|]. by intros [= -> ->].
Qed.

Lemma first_either_l p q u m : first p u = Some m -> first (either p q) u = Some m.
Proof. unfold first, either. by destruct (p u). Qed.

Lemma first_either_r p q u : p u = [] -> first (either p q) u = first q u.
Proof. unfold first, either. by intros ->. Qed.

Lemma first_optional n p u m : first p u = Some m -> first (optional n p) u = Some m.
Proof. unfold first, optional. by destruct (p u). Qed.

Lemma first_optional_none n p u : p u = [] -> first (optional n p) u = Some (replicate n None, u).
Proof. unfold first, optional. by intros ->. Qed.

Lemma first_capture p u cp r : first p u = Some (cp, r) ->
  first (capture p) u = Some (Some (take (length u - length r) u) :: cp, r).
Proof. unfold first, capture. destruct (p u) as [|[c1 r1] l]; [done|]. by intros [= -> ->]. Qed.

(** A text that a class covers, before a character outside it. *)
Definition stops_class (f : N -> bool) (u : jstr) : Prop := match u with c :: _ => f c = false | [] => True end.

Lemma first_star f a u : Forall (fun c => f c = true) a -> stops_class f u -> first (star f) (a ++ u) = Some ([], u).
Proof.
  intros Ha Hu. unfold first. induction Ha as [|c a Hc _ IH]; cbn [app].
  - destruct u as [|c u]; [done|]. cbn [star]. by rewrite Hu.
  - cbn [star]. rewrite Hc. by destruct (star f (a ++ u)).
Qed.

Lemma first_plus f a u : a <> [] -> Forall (fun c => f c = true) a -> stops_class f u -> first (plus f) (a ++ u) = Some ([], u).
Proof.
  intros Hne Ha Hu. destruct Ha as [|c a Hc Ha]; [done|]. apply (first_seq _ _ _ [] (a ++ u) []); [|by apply first_star].
  unfold first, class. cbn [app]. by rewrite Hc.
Qed.

Lemma capture_text (a u : jstr) : take (length (a ++ u) - length u) (a ++ u) = a.
Proof. rewrite length_app, Nat.add_sub. apply take_app_length. Qed.

Lemma first_capture_app p a u cp : first p (a ++ u) = Some (cp, u) -> first (capture p) (a ++ u) = Some (Some a :: cp, u).
Proof. intros H. rewrite (first_capture _ _ _ _ H). by rewrite capture_text. Qed.

Lemma seq_none_l p q u : p u = [] -> seq p q u = [].
Proof. unfold seq. by intros ->. Qed.

Lemma seq_none p q u : (forall m, m ∈ p u -> q (snd m) = []) -> seq p q u = [].
Proof.
  unfold seq. induction (p u) as [|m l IH]; intros H; [done|]. cbn [flat_map].
  rewrite (H m) by set_solver. apply IH. intros m' Hm'. apply H. set_solver.
Qed.

Lemma match_all_found turns p u caps rest : first p u = Some (caps, rest) ->
  match_all (S turns) p u = caps :: match_all turns p rest.
Proof. intros H. cbn [match_all]. by rewrite H. Qed.

Lemma match_all_skip turns p c u : p (c :: u) = [] -> match_all (S turns) p (c :: u) = match_all turns p u.
Proof. intros H. cbn [match_all]. unfold first. by rewrite H. Qed.
End RegExp.
