(* ===== verification/JsJsonText.v ===== *)
(** * JSON.stringify

    The text of a value, with or without indentation, and the round trip through
    [JSON.parse]. *)

From stdpp Require Import base list numbers strings.
From Stdlib Require Import ZArith SpecFloat Lia.
From S2P Require Import Prelude.
From S2P Require Import JsString.
From S2P Require Import JsNumber.
From S2P Require Import JsNumberFacts.
From S2P Require Import JsValue.
From S2P Require Import JsJson.

(** ** The printer *)

(** The elements of an array or object between its brackets; [gap] is the
    indentation of one level, [indent] that of the value. *)
Definition json_block (gap indent : jstr) (opening closing : N) (parts : list jstr) : jstr :=
  match parts with
  | [] => [opening; closing]
  | _ =>
      let inner := match gap with [] => [] | _ => 10%N :: indent ++ gap end in
      let outer := match gap with [] => [] | _ => 10%N :: indent end in
      opening :: inner ++ join (44%N :: inner) parts ++ outer ++ [closing]
  end.

Definition json_colon (gap : jstr) : jstr := match gap with [] => js ":" | _ => js ": " end.

Definition is_undefined (v : jsval) : bool := match v with JUndefined => true | _ => false end.

(** [JSON.stringify(value, null, gap)] below the top level. *)
Fixpoint json_text (gap indent : jstr) (v : jsval) : jstr :=
  match v with
  | JUndefined | JNull => js "null"
  | JBool b => if b then js "true" else js "false"
  | JNum x => json_number_text x
  | JStr s => json_stringify s
  | JArr items => json_block gap indent 91 93 ((fun item => json_text gap (indent ++ gap) item) <$> items)
  | JObj entries =>
      json_block gap indent 123 125
        (omap (fun e => if is_undefined (snd e) then None
                        else Some (json_stringify (fst e) ++ json_colon gap ++ json_text gap (indent ++ gap) (snd e))) entries)
  end.

(** [JSON.stringify(value, null, gap)]; a value that is [undefined] has no text. *)
Definition json_stringify_value (gap : jstr) (v : jsval) : option jstr :=
  if is_undefined v then None else Some (json_text gap [] v).

(** ** Values that survive *)

(** A number that JSON keeps: finite, and not the negative zero. *)
Definition json_number_ok (x : f64) : Prop :=
  valid_binary prec emax x = true /\ is_finite x = true /\ x <> S754_zero true.

(** Without [undefined], numbers that are kept, members in the order in which an
    object lists them. *)
Fixpoint json_plain (v : jsval) : Prop :=
  match v with
  | JUndefined => False
  | JNull | JBool _ | JStr _ => True
  | JNum x => json_number_ok x
  | JArr items => foldr (fun item P => json_plain item /\ P) True items
  | JObj entries =>
      foldl (fun o m => obj_set o m.1 m.2) [] entries = entries /\
      foldr (fun e P => json_plain (snd e) /\ P) True entries
  end.

(** The nesting of a value. *)
Fixpoint json_depth (v : jsval) : nat :=
  match v with
  | JArr items => S (foldr (fun item d => Nat.max (json_depth item) d) 0 items)
  | JObj entries => S (foldr (fun e d => Nat.max (json_depth (snd e)) d) 0 entries)
  | _ => 1
  end.

Example json_text_example :
  json_text (js "  ") [] (JObj [(js "a", JArr [JNull; JBool true]); (js "b", JUndefined); (js "c", JObj [])])
  = join [10%N] [js "{"; js "  " ++ json_stringify (js "a") ++ js ": ["; js "    null,"; js "    true"; js "  ],";
                 js "  " ++ json_stringify (js "c") ++ js ": {}"; js "}"].
Proof. by vm_compute. Qed.

(** ** Numbers *)

(** The head of the digits of a positive number is not zero. *)
Lemma digits_rev_last fuel n d : (0 < n)%N -> (n < 2 ^ N.of_nat fuel)%N -> last (digits_rev fuel n) = Some d -> d <> 48%N.
Proof.
  revert n d. induction fuel as [|fuel IH]; intros n d Hn Hlt; [done|]. simpl.
  destruct (N.ltb_spec n 10) as [Hs|Hs]; [rewrite N.mod_small by done; intros [= <-]; lia|].
  rewrite Nat2N.inj_succ, N.pow_succ_r' in Hlt.
  assert (n / 10 < 2 ^ N.of_nat fuel)%N as Hd by (apply N.Div0.div_lt_upper_bound; lia).
  assert (0 < n / 10)%N as Hp by (apply N.div_str_pos; lia).
  destruct fuel as [|fuel]; [simpl in Hd; lia|]. destruct (digits_rev (S fuel) (n / 10)) as [|x l] eqn:E.
  - simpl in E. by destruct (n / 10 <? 10)%N.
  - rewrite <- E. intros Hl. apply (IH (n / 10)%N d Hp Hd). rewrite <- Hl. by rewrite E.
Qed.

Lemma N_digits_head n : (0 < n)%N -> exists c l, N_digits n = c :: l /\ c <> 48%N.
Proof.
  intros Hn. destruct (N_digits_cons n) as (c & l & E). exists c, l. split; [done|]. unfold N_digits in E.
  apply (digits_rev_last (S (N.size_nat n)) n); [done|apply size_nat_bound|].
  apply (f_equal (@rev N)) in E. rewrite rev_involutive in E. rewrite E. simpl. apply last_snoc.
Qed.

(** Digits without a leading zero, then something that is no digit. *)
Lemma json_head ip r : Forall (fun c => is_digit c = true) ip -> json_int ip = true -> json_point r = true ->
  match r with c :: _ => is_digit c = false | [] => True end ->
  json_int (fst (span_while is_digit (ip ++ r))) && json_point (snd (span_while is_digit (ip ++ r))) = true.
Proof. intros Hip Hint Hpt Hr. rewrite span_while_all by done. cbn [fst snd]. by rewrite Hint, Hpt. Qed.

Lemma json_int_head c l : c <> 48%N -> json_int (c :: l) = true.
Proof. intros Hc. destruct l; [done|]. simpl. by rewrite (proj2 (N.eqb_neq c 48)). Qed.

Lemma json_point_digit d r : is_digit d = true -> json_point (46%N :: d :: r) = true.
Proof. done. Qed.

Lemma json_point_ends u : ends_number u -> json_point u = true.
Proof. intros Hu%ends_number_head. destruct u as [|c u]; [done|]. simpl. by destruct Hu as (_ & -> & _). Qed.

Lemma layout_json s e u : (0 < s)%N -> ends_number u ->
  json_int (fst (span_while is_digit (layout s e ++ u))) && json_point (snd (span_while is_digit (layout s e ++ u))) = true.
Proof.
  intros Hs Hu. pose proof (N_digits_digit s) as Hd. destruct (N_digits_head s Hs) as (c & l & E & Hc).
  unfold layout. set (k := Z.of_nat (length (N_digits s))). set (n := (e + k)%Z).
  assert (0 < k)%Z as Hk by (unfold k; rewrite E; simpl; lia).
  destruct ((k <=? n)%Z && (n <=? 21)%Z) eqn:E1.
  { apply json_head; [auto with js| |by apply json_point_ends|by apply digit_stop]. rewrite E. by apply json_int_head. }
  destruct ((0 <? n)%Z && (n <=? 21)%Z) eqn:E2; [|destruct ((-6 <? n)%Z && (n <=? 0)%Z) eqn:E3].
  - apply andb_true_iff in E2 as [Hn H21]. rewrite H21, andb_true_r in E1. apply Z.ltb_lt in Hn. apply Z.leb_gt in E1.
    rewrite <- !app_assoc. destruct (drop (Z.to_nat n) (N_digits s)) as [|d ds] eqn:Ed.
    { apply (f_equal length) in Ed. rewrite length_drop in Ed. simpl in Ed. lia. }
    assert (is_digit d = true) as Hdd by (apply (Forall_drop _ (Z.to_nat n)) in Hd; rewrite Ed in Hd; by inversion Hd).
    apply json_head; [auto with js| |by apply json_point_digit|done]. rewrite E.
    destruct (Z.to_nat n) eqn:En; [lia|]. by apply json_int_head.
  - change (js "0." ++ ?t) with ([48%N] ++ 46%N :: t). rewrite <- app_assoc. apply json_head; [by repeat constructor|done| |done].
    destruct (zeros (Z.to_nat (- n))) as [|z zs] eqn:Ez.
    + rewrite E. apply json_point_digit. rewrite E in Hd. by inversion Hd.
    + apply json_point_digit. pose proof (zeros_digit (Z.to_nat (- n))) as Hz. rewrite Ez in Hz. by inversion Hz.
  - rewrite E. rewrite E in Hd. inversion_clear Hd as [|? ? Hcd Hl]. rewrite <- app_assoc. destruct l as [|d l].
    + change ([c] ++ ?t) with ([c] ++ t). apply json_head; [by repeat constructor|done..].
    + change ((c :: js "." ++ d :: l) ++ ?t) with ([c] ++ 46%N :: d :: l ++ t).
      apply json_head; [by repeat constructor|done| |done]. apply json_point_digit. by inversion Hl.
Qed.

Lemma json_unsigned_layout m e u : valid_binary prec emax (S754_finite false m e) = true -> ends_number u ->
  json_unsigned (number_to_string (S754_finite false m e) ++ u) = Some (S754_finite false m e, u).
Proof.
  intros Hv Hu. destruct (number_to_string_reads _ Hv eq_refl eq_refl) as (d & Hd & Hr & Hval & _).
  unfold json_unsigned. pose proof (scan_decimal_extend _ d u Hd Hr Hu) as Hx.
  assert (json_int (fst (span_while is_digit (number_to_string (S754_finite false m e) ++ u))) &&
    json_point (snd (span_while is_digit (number_to_string (S754_finite false m e) ++ u))) = true) as Hj.
  { cbn [number_to_string]. destruct (shortest m e) as [s x10] eqn:Hsh. cbn [app].
    destruct (shortest_reads m e s x10 Hv Hsh) as [Hs _]. by apply layout_json. }
  destruct (span_while is_digit _) as [ip r]. cbn [fst snd] in Hj. rewrite Hj, Hx. cbn [dec_rest].
  unfold decimal_value in *. cbn [dec_m dec_e]. by rewrite Hval.
Qed.

Lemma json_number_reads x u : json_number_ok x -> ends_number u ->
  json_number (number_to_string x ++ u) = Some (x, u).
Proof.
  intros (Hv & Hf & Hz) Hu. destruct x as [[]|b| |[] m e]; try done.
  - cbn [number_to_string js]. change (js "0" ++ u) with ([48%N] ++ u). unfold json_number. cbn [app N.eqb Pos.eqb].
    unfold json_unsigned.
    pose proof (json_head [48%N] u ltac:(by repeat constructor) eq_refl (json_point_ends u Hu) (digit_stop u Hu)) as Hj.
    pose proof (scan_decimal_extend (js "0") {| dec_m := 0; dec_e := 0; dec_integer := true; dec_rest := [] |} u eq_refl eq_refl Hu) as Hx.
    change (48%N :: u) with (js "0" ++ u). change ([48%N] ++ u) with (js "0" ++ u) in Hj.
    destruct (span_while is_digit (js "0" ++ u)) as [ip r]. cbn [fst snd] in Hj. by rewrite Hj, Hx.
  - pose proof (json_unsigned_layout m e u Hv Hu) as Hj. cbn [number_to_string] in *.
    destruct (shortest m e) as [s x10]. cbn [app] in *. change ((js "-" ++ ?t) ++ u) with (45%N :: t ++ u).
    unfold json_number. cbn [N.eqb Pos.eqb]. by rewrite Hj.
  - pose proof (json_unsigned_layout m e u Hv Hu) as Hj. unfold json_number.
    destruct (number_to_string (S754_finite false m e) ++ u) as [|c t] eqn:Et; [done|].
    assert (is_digit c = true) as Hc.
    { cbn [number_to_string] in Et. destruct (shortest m e) as [s x10]. destruct (layout_head s x10) as (c' & l & El & Hc').
      cbn [app] in Et. rewrite El in Et. by injection Et as -> _. }
    destruct (N.eqb_spec c 45) as [->|_]; [done|]. exact Hj.
Qed.

(** ** The round trip *)

Definition blanks (ws : jstr) : Prop := Forall (fun c => json_space c = true) ws.

(** What [json_ws] stops at. *)
Definition solid (l : jstr) : Prop := match l with c :: _ => json_space c = false | [] => False end.

Lemma json_ws_blanks ws l : blanks ws -> solid l -> json_ws (ws ++ l) = l.
Proof.
  intros Hws Hl. unfold json_ws. rewrite span_while_all; [done|exact Hws|]. by destruct l.
Qed.

Lemma json_ws_solid l : solid l -> json_ws l = l.
Proof. intros Hl. by apply (json_ws_blanks []); [constructor|]. Qed.

Lemma number_starts x : is_finite x = true -> exists c l, number_to_string x = c :: l /\ (is_digit c = true \/ c = 45%N).
Proof.
  intros Hf. destruct x as [b|b| |[] m e]; try done; [by eexists _, _; split; [done|left]|..]; cbn [number_to_string];
    destruct (shortest m e) as [s x10]; [by eexists _, _; split; [done|right]|].
  destruct (layout_head s x10) as (c & l & -> & Hc). exists c, l. auto.
Qed.

(** The first character of a text, which is no blank and closes nothing. *)
Lemma json_text_head gap indent v : json_plain v -> exists c l, json_text gap indent v = c :: l /\
  json_space c = false /\ c <> 93%N /\ c <> 125%N.
Proof.
  assert (forall o c parts, exists l, json_block gap indent o c parts = o :: l) as Hb by (intros o c [|]; by eexists).
  destruct v as [| |b|x|s|items|entries]; intros Hv; cbn [json_text].
  - done.
  - by eexists _, _.
  - destruct b; by eexists _, _.
  - destruct Hv as (_ & Hf & _). unfold json_number_text. rewrite Hf.
    destruct (number_starts x Hf) as (c & l & -> & Hc).
    exists c, l. split; [done|]. destruct Hc as [Hc| ->]; [|done]. unfold is_digit, json_space in *.
    apply andb_true_iff in Hc as [H1 H2]. rewrite N.leb_le in *.
    rewrite !orb_false_iff, !N.eqb_neq. lia.
  - by eexists _, _.
  - destruct (Hb 91%N 93%N ((fun item => json_text gap (indent ++ gap) item) <$> items)) as [l ->]. by eexists _, _.
  - destruct (Hb 123%N 125%N (omap (fun e => if is_undefined (snd e) then None
      else Some (json_stringify (fst e) ++ json_colon gap ++ json_text gap (indent ++ gap) (snd e))) entries)) as [l ->].
    by eexists _, _.
Qed.

Lemma join_at_cons sep x y l : join sep (x :: y :: l) = x ++ sep ++ join sep (y :: l).
Proof. done. Qed.

Lemma join_length sep l : Forall (fun x => x <> []) l -> length l <= length (join sep l).
Proof.
  induction 1 as [|x l Hx Hl IH]; [done|]. destruct l as [|y l]; [destruct x; [done|simpl; lia]|].
  rewrite join_at_cons, !length_app. destruct x; [done|]. simpl in *. lia.
Qed.

Section Block.
Context (value : jstr -> option (jsval * jstr)) (inner outer : jstr).
Hypothesis Hinner : blanks inner.
Hypothesis Houter : blanks outer.
Hypothesis Hends : forall c r, c = 93%N \/ c = 125%N -> ends_number (outer ++ c :: r).

Lemma json_elements_join (text : jsval -> jstr) items rest turns :
  Forall (fun item => forall ws r, blanks ws -> ends_number r -> value (ws ++ text item ++ r) = Some (item, r)) items ->
  items <> [] -> length items <= turns ->
  json_elements value turns (inner ++ join (44%N :: inner) (text <$> items) ++ outer ++ 93%N :: rest) = Some (items, rest).
Proof using Hinner Houter Hends.
  intros Hall Hne. revert turns. induction Hall as [|item items Hitem Hall IH]; intros turns Ht; [done|].
  destruct turns as [|turns]; [simpl in Ht; lia|]. rewrite fmap_cons. cbn [json_elements]. destruct items as [|item2 items].
  - cbn [fmap list_fmap join]. rewrite Hitem by (done || by apply Hends; left). cbn [mbind option_bind].
    by rewrite json_ws_blanks.
  - rewrite fmap_cons, join_at_cons, <- fmap_cons, <- !app_assoc. rewrite Hitem; [|done|done]. cbn [mbind option_bind].
    rewrite json_ws_solid by done. cbn [app N.eqb Pos.eqb].
    rewrite IH; [done|done|simpl in *; lia].
Qed.

Lemma json_members_join (colon : jstr) (text : jsval -> jstr) entries rest turns : blanks (tail colon) -> head colon = Some 58%N ->
  Forall (fun e => forall ws r, blanks ws -> ends_number r -> value (ws ++ text (snd e) ++ r) = Some (snd e, r)) entries ->
  entries <> [] -> length entries <= turns ->
  json_members value turns
    (inner ++ join (44%N :: inner) ((fun e => json_stringify (fst e) ++ colon ++ text (snd e)) <$> entries) ++ outer ++ 125%N :: rest)
  = Some (entries, rest).
Proof using Hinner Houter Hends.
  intros Hcolon Hhead Hall Hne. destruct colon as [|c0 colon]; [done|]. injection Hhead as ->. cbn [tail] in Hcolon.
  revert turns. induction Hall as [|[k v] entries Hv Hall IH]; intros turns Ht; [done|].
  destruct turns as [|turns]; [simpl in Ht; lia|]. rewrite fmap_cons. cbn [json_members fst snd].
  set (tail_text := match entries with [] => outer ++ 125%N :: rest
    | _ => 44%N :: inner ++ join (44%N :: inner) ((fun e => json_stringify (fst e) ++ (58%N :: colon) ++ text (snd e)) <$> entries) ++ outer ++ 125%N :: rest end).
  assert (join (44%N :: inner) ((json_stringify k ++ (58%N :: colon) ++ text v) ::
      ((fun e => json_stringify (fst e) ++ (58%N :: colon) ++ text (snd e)) <$> entries)) ++ outer ++ 125%N :: rest
    = 34%N :: (json_chars k ++ 34%N :: 58%N :: colon ++ text v ++ tail_text)) as ->.
  { unfold tail_text, json_stringify. destruct entries as [|e entries];
      [|rewrite !fmap_cons, join_at_cons]; cbn [fmap list_fmap join app fst snd];
      repeat (rewrite <- app_assoc; cbn [app]); done. }
  rewrite json_ws_blanks by done. cbn [N.eqb Pos.eqb].
  rewrite (json_string_body (json_chars k) k) by apply json_chars_body. cbn [mbind option_bind].
  rewrite (json_ws_solid (58%N :: _)) by done. cbn [N.eqb Pos.eqb].
  assert (ends_number tail_text) as Htail by (unfold tail_text; destruct entries; [apply Hends; by right|done]).
  rewrite Hv by done. cbn [snd mbind option_bind]. unfold tail_text. destruct entries as [|e entries].
  - by rewrite json_ws_blanks.
  - rewrite json_ws_solid by done. cbn [N.eqb Pos.eqb]. rewrite IH; [done|done|simpl in *; lia].
Qed.
End Block.

Lemma join_part sep (l : list jstr) x : x ∈ l -> length x <= length (join sep l).
Proof.
  induction l as [|y l IH]; [by intros ?%elem_of_nil|]. destruct l as [|z l].
  - intros ->%list_elem_of_singleton. done.
  - rewrite join_at_cons, !length_app. intros [->|Hx]%elem_of_cons; [lia|]. specialize (IH Hx). lia.
Qed.

Lemma json_block_length gap indent o c parts : length (join [44%N] parts) + 2 <= length (json_block gap indent o c parts).
Proof.
  destruct parts as [|x l]; [simpl; lia|]. unfold json_block. set (inner := match gap with [] => [] | _ => _ end).
  cbn [length]. rewrite !length_app. cbn [length].
  assert (length (join [44%N] (x :: l)) <= length (join (44%N :: inner) (x :: l))); [|lia].
  revert x. induction l as [|y l IH]; intros x; [done|]. rewrite !join_at_cons, !length_app. specialize (IH y). cbn [length]. lia.
Qed.

Lemma plain_members gap entries indent : foldr (fun e P => json_plain (snd e) /\ P) True entries ->
  omap (fun e => if is_undefined (snd e) then None
    else Some (json_stringify (fst e) ++ json_colon gap ++ json_text gap indent (snd e))) entries
  = (fun e => json_stringify (fst e) ++ json_colon gap ++ json_text gap indent (snd e)) <$> entries.
Proof. induction entries as [|[k v] entries IH]; [done|]. intros [Hv Hr]. cbn [omap list_omap]. rewrite fmap_cons. destruct v; [done|..]; f_equal; by apply IH. Qed.

Lemma foldr_and {A} (P : A -> Prop) l : foldr (fun x Q => P x /\ Q) True l <-> Forall P l.
Proof. induction l as [|x l IH]; simpl; [done|]. by rewrite IH, Forall_cons. Qed.

Lemma foldr_max {A} (f : A -> nat) l n : foldr (fun x d => Nat.max (f x) d) 0 l <= n <-> Forall (fun x => f x <= n) l.
Proof. induction l as [|x l IH]; simpl; [split; [constructor|lia]|]. rewrite Forall_cons, <- IH. lia. Qed.

Lemma json_depth_length gap v : json_plain v -> forall indent, json_depth v <= length (json_text gap indent v).
Proof.
  induction v as [items IH|entries IH|v Hv] using jsval_ind'; intros Hp indent.
  - cbn [json_plain] in Hp. apply foldr_and in Hp. cbn [json_depth json_text]. etransitivity; [|apply json_block_length].
    enough (foldr (fun item d => Nat.max (json_depth item) d) 0 items <= length (join [44%N] ((fun item => json_text gap (indent ++ gap) item) <$> items))) by lia.
    apply foldr_max, Forall_forall. intros x Hx. rewrite Forall_forall in IH, Hp. etransitivity; [by apply (IH x Hx (Hp x Hx) (indent ++ gap))|].
    apply join_part. by apply (list_elem_of_fmap_2 (fun item => json_text gap (indent ++ gap) item)).
  - cbn [json_plain] in Hp. destruct Hp as [_ Hp]. cbn [json_depth json_text]. rewrite plain_members by done.
    apply (foldr_and (fun e => json_plain (snd e))) in Hp. etransitivity; [|apply json_block_length].
    enough (foldr (fun e d => Nat.max (json_depth (snd e)) d) 0 entries
      <= length (join [44%N] ((fun e => json_stringify (fst e) ++ json_colon gap ++ json_text gap (indent ++ gap) (snd e)) <$> entries))) by lia.
    apply (foldr_max (fun e => json_depth (snd e))), Forall_forall. intros x Hx. rewrite Forall_forall in IH, Hp.
    etransitivity; [by apply (IH x Hx (Hp x Hx) (indent ++ gap))|].
    etransitivity; [|apply join_part, (list_elem_of_fmap_2 (fun e => json_stringify (fst e) ++ json_colon gap ++ json_text gap (indent ++ gap) (snd e))), Hx].
    rewrite !length_app. lia.
  - destruct (json_text_head gap indent v Hp) as (c & l & -> & _). destruct v; simpl; try lia; done.
Qed.

Lemma json_depth_pos v : 0 < json_depth v.
Proof. destruct v; simpl; lia. Qed.

Section RoundTrip.
Context (gap : jstr).
Hypothesis Hgap : blanks gap.

(** The blanks around the parts of a block. *)
Definition inner_blanks (indent : jstr) : jstr := match gap with [] => [] | _ => 10%N :: indent ++ gap end.
Definition outer_blanks (indent : jstr) : jstr := match gap with [] => [] | _ => 10%N :: indent end.

Lemma block_text indent o c part parts rest :
  json_block gap indent o c (part :: parts) ++ rest
  = o :: inner_blanks indent ++ join (44%N :: inner_blanks indent) (part :: parts) ++ outer_blanks indent ++ c :: rest.
Proof using Type.
  unfold json_block. fold (inner_blanks indent). fold (outer_blanks indent). cbn [app]. by rewrite <- !app_assoc.
Qed.

Lemma inner_ok indent : blanks indent -> blanks (inner_blanks indent).
Proof using Hgap. intros Hi. unfold inner_blanks. destruct gap; [constructor|]. constructor; [done|]. by apply Forall_app. Qed.

Lemma outer_ok indent : blanks indent -> blanks (outer_blanks indent).
Proof using Hgap. intros Hi. unfold outer_blanks. destruct gap; [constructor|]. by constructor. Qed.

Lemma outer_ends indent c r : c = 93%N \/ c = 125%N -> ends_number (outer_blanks indent ++ c :: r).
Proof using Hgap. unfold outer_blanks. destruct gap; [|done]. by intros [-> | ->]. Qed.

Lemma colon_blanks : blanks (tail (json_colon gap)) /\ head (json_colon gap) = Some 58%N.
Proof using Hgap. unfold json_colon. destruct gap; (split; [by repeat constructor|done]). Qed.

Lemma text_not_empty indent v : json_plain v -> json_text gap indent v <> [].
Proof using Hgap. intros Hp. by destruct (json_text_head gap indent v Hp) as (c & l & -> & _). Qed.

(** The blanks and the first part of a block do not close it. *)
Lemma block_opens indent (parts : list jstr) part t c : blanks indent -> (exists d l, part = d :: l /\ json_space d = false /\ d <> c) ->
  exists d l, json_ws (inner_blanks indent ++ join (44%N :: inner_blanks indent) (part :: parts) ++ t) = d :: l /\ d <> c.
Proof using Hgap.
  intros Hi (d & l & -> & Hd & Hc). rewrite json_ws_blanks.
  - destruct parts; by eexists _, _.
  - by apply inner_ok.
  - by destruct parts.
Qed.

Lemma json_value_text v : json_plain v -> forall fuel indent ws rest,
  json_depth v <= fuel -> blanks indent -> blanks ws -> ends_number rest ->
  json_value fuel (ws ++ json_text gap indent v ++ rest) = Some (v, rest).
Proof using Hgap.
  induction v as [items IH|entries IH|v Hv] using jsval_ind'; intros Hp fuel indent ws rest Hfuel Hindent Hws Hrest.
  - destruct fuel as [|fuel]; [pose proof (json_depth_pos (JArr items)); lia|]. cbn [json_value json_text].
    destruct items as [|item items]; [by rewrite json_ws_blanks|].
    assert (Forall json_plain (item :: items)) as Hpl by (by apply foldr_and).
    rewrite fmap_cons, block_text, <- fmap_cons. rewrite json_ws_blanks by done. cbn [N.eqb Pos.eqb].
    rewrite fmap_cons.
    destruct (block_opens indent ((fun x => json_text gap (indent ++ gap) x) <$> items) (json_text gap (indent ++ gap) item)
      (outer_blanks indent ++ 93%N :: rest) 93 Hindent) as (d & l & -> & Hd).
    { inversion_clear Hpl as [|? ? Hi _]. destruct (json_text_head gap (indent ++ gap) item Hi) as (c & l & -> & ? & ? & _). by exists c, l. }
    rewrite (proj2 (N.eqb_neq d 93) Hd). rewrite <- (fmap_cons (fun x => json_text gap (indent ++ gap) x)).
    rewrite (json_elements_join _ (inner_blanks indent) (outer_blanks indent)).
    + done.
    + by apply inner_ok.
    + by apply outer_ok.
    + apply outer_ends.
    + cbn [json_depth] in Hfuel. apply le_S_n, foldr_max in Hfuel. rewrite Forall_forall in *. intros x Hx ws' r Hws' Hr.
      apply IH; auto. by apply Forall_app.
    + done.
    + rewrite !length_app. etransitivity; [|apply Nat.le_add_l]. etransitivity; [|apply Nat.le_add_r].
      rewrite <- (length_fmap (fun x => json_text gap (indent ++ gap) x)) at 1. apply join_length, Forall_fmap.
      eapply Forall_impl; [exact Hpl|]. intros x Hx. by apply text_not_empty.
  - destruct fuel as [|fuel]; [pose proof (json_depth_pos (JObj entries)); lia|]. cbn [json_value json_text].
    destruct Hp as [Hset Hpl]. rewrite plain_members by done.
    destruct entries as [|e entries]; [by rewrite json_ws_blanks|]. apply (foldr_and (fun e => json_plain (snd e))) in Hpl.
    set (member := fun e : jstr * jsval => json_stringify (fst e) ++ json_colon gap ++ json_text gap (indent ++ gap) (snd e)).
    rewrite fmap_cons, block_text. rewrite json_ws_blanks by done. cbn [N.eqb Pos.eqb].
    destruct (block_opens indent (member <$> entries) (member e) (outer_blanks indent ++ 125%N :: rest) 125 Hindent) as (d & l & -> & Hd);
      [by eexists _, _|].
    rewrite (proj2 (N.eqb_neq d 125) Hd). rewrite <- (fmap_cons member). destruct colon_blanks as [Hc1 Hc2].
    unfold member at 1.
    rewrite (json_members_join (json_value fuel) (inner_blanks indent) (outer_blanks indent) (inner_ok indent Hindent)
      (outer_ok indent Hindent) (outer_ends indent) (json_colon gap) (json_text gap (indent ++ gap))); [cbn [mbind option_bind]; by rewrite Hset|done|done| |done|].
    + cbn [json_depth] in Hfuel. apply le_S_n, (foldr_max (fun e => json_depth (snd e))) in Hfuel. rewrite Forall_forall in *.
      intros x Hx ws' r Hws' Hr. apply IH; auto. by apply Forall_app.
    + rewrite !length_app. etransitivity; [|apply Nat.le_add_l]. etransitivity; [|apply Nat.le_add_r].
      rewrite <- (length_fmap member) at 1. apply join_length, Forall_fmap, Forall_true. done.
  - destruct fuel as [|fuel]; [pose proof (json_depth_pos v); lia|]. cbn [json_value].
    destruct (json_text_head gap indent v Hp) as (c & l & E & Hc & _).
    rewrite json_ws_blanks; [|done|by rewrite E].
    destruct v as [| |[]|x|s|items|entries]; try done; clear E.
    + cbn [json_text]. unfold json_number_text. rewrite (proj1 (proj2 Hp)).
      pose proof (json_number_reads x rest Hp Hrest) as Hr. destruct (number_starts x (proj1 (proj2 Hp))) as (d & t & E & Hd).
      rewrite E in *. cbn [app] in *. unfold is_digit in Hd.
      assert (forall k, k <> 45%N -> (k < 48 \/ 57 < k)%N -> (d =? k)%N = false) as Hk.
      { intros k H1 H2. apply N.eqb_neq. intros ->. destruct Hd as [Hd| ->]; [|done].
        apply andb_true_iff in Hd as [? ?]. rewrite !N.leb_le in *. lia. }
      rewrite !Hk by (done || (right; done) || (left; done)). by rewrite Hr.
    + cbn [json_text]. unfold json_stringify. cbn [app N.eqb Pos.eqb]. rewrite <- app_assoc. cbn [app].
      by rewrite (json_string_body (json_chars s) s) by apply json_chars_body.
Qed.

(** [JSON.parse(JSON.stringify(value, null, gap))] gives the value back. *)
Lemma json_parse_text v : json_plain v -> json_parse (json_text gap [] v) = Some v.
Proof using Hgap.
  intros Hp. unfold json_parse. pose proof (json_depth_length gap v Hp []) as Hd.
  pose proof (json_value_text v Hp (S (length (json_text gap [] v))) [] [] [] ltac:(lia) ltac:(constructor) ltac:(constructor) I) as Hv.
  cbn [app] in Hv. rewrite app_nil_r in Hv. by rewrite Hv.
Qed.
End RoundTrip.
