(* ===== verification/JsSchema.v ===== *)
(** * Schemas of stored values

    The schemas that the sources write with the combinators of zod, and objects
    with optional members.  The parser of zod is the class [SchemaParser], with what
    its documentation says of [parse]. *)

From stdpp Require Import base list numbers strings.
From Stdlib Require Import ZArith SpecFloat Lia.
From S2P Require Import Prelude.
From S2P Require Import JsString.
From S2P Require Import JsNumber.
From S2P Require Import JsValue.
From S2P Require Import JsJson.
From S2P Require Import JsJsonText.

(** ** Schemas *)

(** [z.string()], [z.number()], ...; the shape of an object lists its keys. *)
Inductive schema :=
| ZString
| ZNumber
| ZBoolean
| ZEnum (names : list jstr)
| ZNullable (s : schema)
| ZOptional (s : schema)
| ZArray (minimum : nat) (s : schema)
| ZObject (shape : list (jstr * schema)).

(** A value has the type of a schema.  With [strict], objects have no members that
    their shape does not list, and list them in its order. *)
Fixpoint conforms (strict : bool) (s : schema) (v : jsval) {struct s} : bool :=
  match s with
  | ZString => match v with JStr _ => true | _ => false end
  | ZNumber => match v with JNum x => is_finite x | _ => false end
  | ZBoolean => match v with JBool _ => true | _ => false end
  | ZEnum names => match v with JStr t => existsb (jeqb t) names | _ => false end
  | ZNullable s => match v with JNull => true | _ => conforms strict s v end
  | ZOptional s => match v with JUndefined => true | _ => conforms strict s v end
  | ZArray minimum s =>
      match v with JArr items => Nat.leb minimum (length items) && forallb (conforms strict s) items | _ => false end
  | ZObject shape =>
      match v with
      | JObj entries =>
          forallb (fun m => conforms strict (snd m) (obj_get entries (fst m))) shape &&
          (negb strict || bool_decide (entries.*1 = filter (.∈ entries.*1) shape.*1))
      | _ => false
      end
  end.

(** [schema.parse(value)]; [None] is the exception.  A value that fits comes back as
    an equal value; what does not fit is refused; what comes back fits.  Members
    that the shape does not list may be dropped. *)
Class SchemaParser := {
  parse : schema -> jsval -> option jsval;
  parse_strict s v : conforms true s v = true -> parse s v = Some v;
  parse_fits s v w : parse s v = Some w -> conforms false s v = true /\ conforms false s w = true;
}.

Lemma jeqb_spec a b : reflect (a = b) (jeqb a b).
Proof. apply iff_reflect. symmetry. apply jeqb_eq. Qed.

Lemma fits_relax s v : conforms true s v = true -> conforms false s v = true.
Proof.
  revert s v. fix IH 1. intros [| | |names|s|s|n s|shape] v; cbn [conforms]; [by destruct v..| | | |].
  - destruct v; try done; apply IH.
  - destruct v; try done; apply IH.
  - destruct v; try done. intros [Hn Hi]%andb_true_iff. rewrite Hn. cbn [andb].
    clear Hn. revert Hi. induction items as [|v items IHi]; [done|]. cbn [forallb]. intros [Hv Hi]%andb_true_iff.
    by rewrite (IH s v Hv), (IHi Hi).
  - destruct v; try done. intros [Hs _]%andb_true_iff. rewrite andb_true_r.
    revert Hs. induction shape as [|[k s] shape IHs]; [done|]. cbn [forallb snd fst]. intros [Hv Hs]%andb_true_iff.
    by rewrite (IH s _ Hv), (IHs Hs).
Qed.

(** The parser that refuses members that are not listed. *)
Definition strict_parser : SchemaParser.
Proof.
  refine {| parse s v := if conforms true s v then Some v else None |}.
  - by intros s v ->.
  - intros s v w. destruct (conforms true s v) eqn:E; [|done]. intros [= <-]. by split; apply fits_relax.
Defined.

(** ** Objects with optional members *)

(** The object with the members that are present. *)
Definition members (fields : list (jstr * option jsval)) : jsval :=
  JObj (omap (fun f => pair (fst f) <$> snd f) fields).

Definition member_of (fields : list (jstr * option jsval)) (k : jstr) : jsval :=
  match List.find (fun f => jeqb (fst f) k) fields with
  | Some f => default JUndefined (snd f)
  | None => JUndefined
  end.

Lemma member_keys (fields : list (jstr * option jsval)) k :
  k ∉ fields.*1 -> k ∉ (omap (fun f => pair (fst f) <$> snd f) fields).*1.
Proof.
  intros Hk Hin. apply Hk. clear Hk. apply list_elem_of_fmap in Hin as ([k' v] & -> & Hin).
  apply list_elem_of_omap in Hin as ([k2 [v2|]] & Hin & E); [|done]. injection E as -> ->. by apply (list_elem_of_fmap_2 fst _ (k', Some v)).
Qed.

Lemma obj_get_absent entries k : k ∉ entries.*1 -> obj_get entries k = JUndefined.
Proof.
  induction entries as [|[k' v] entries IH]; [done|]. intros Hk. cbn [obj_get]. rewrite fmap_cons, not_elem_of_cons in Hk.
  destruct Hk as [Hne Hk]. cbn [fst] in Hne. destruct (jeqb_spec k' k) as [->|_]; [done|]. by apply IH.
Qed.

Lemma obj_get_members fields k : NoDup fields.*1 ->
  obj_get (omap (fun f => pair (fst f) <$> snd f) fields) k = member_of fields k.
Proof.
  unfold member_of. induction fields as [|[k' o] fields IH]; [done|]. rewrite fmap_cons. intros [Hk Hnd]%NoDup_cons.
  cbn [omap list_omap List.find fst snd] in *. destruct (jeqb_spec k' k) as [->|Hne].
  - destruct o as [v|]; cbn [fmap option_fmap option_map obj_get default from_option].
    + destruct (jeqb_spec k k); done.
    + by apply obj_get_absent, member_keys.
  - destruct o as [v|]; cbn [fmap option_fmap option_map obj_get]; [|by apply IH].
    destruct (jeqb_spec k' k); [done|by apply IH].
Qed.

Lemma filter_agrees {A} (P Q : A -> Prop) `{!forall x, Decision (P x), !forall x, Decision (Q x)} (l : list A) :
  (forall x, x ∈ l -> P x <-> Q x) -> filter P l = filter Q l.
Proof.
  induction l as [|x l IH]; intros Hl; [done|]. pose proof (Hl x ltac:(by left)) as Hx. rewrite !filter_cons.
  rewrite IH by (intros y Hy; apply Hl; by right). destruct (decide (P x)), (decide (Q x)); tauto.
Qed.

Lemma present_keys (fields : list (jstr * option jsval)) : NoDup fields.*1 ->
  (omap (fun f => pair (fst f) <$> snd f) fields).*1
  = filter (.∈ (omap (fun f => pair (fst f) <$> snd f) fields).*1) fields.*1.
Proof.
  induction fields as [|[k o] fields IH]; [done|]. rewrite fmap_cons. intros [Hk Hnd]%NoDup_cons. cbn [fst] in *.
  destruct o as [v|]; cbn [omap list_omap fst snd fmap option_fmap option_map].
  - rewrite fmap_cons. cbn [fst]. rewrite filter_cons_True by (by left). f_equal. rewrite (IH Hnd) at 1.
    apply filter_agrees. intros k' Hk'. split; [by right|]. intros [->|?]%elem_of_cons; done.
  - rewrite filter_cons_False by (by apply member_keys). by apply IH.
Qed.

Lemma fits_members strict shape fields : NoDup fields.*1 ->
  Forall2 (fun f m => fst f = fst m /\ conforms strict (snd m) (default JUndefined (snd f)) = true) fields shape ->
  conforms strict (ZObject shape) (members fields) = true.
Proof.
  intros Hnd Hall. unfold members. cbn [conforms]. apply andb_true_iff. split.
  - rewrite forallb_forall. intros m Hm%list_elem_of_In. rewrite obj_get_members by done.
    assert (List.find (fun f => jeqb (fst f) (fst m)) fields <> None /\
      forall f, List.find (fun f => jeqb (fst f) (fst m)) fields = Some f -> conforms strict (snd m) (default JUndefined (snd f)) = true) as [Hf Hv].
    { induction Hall as [|f m' fields shape [Hk Hfit] Hall IH]; [by apply elem_of_nil in Hm|].
      rewrite fmap_cons in Hnd. apply NoDup_cons in Hnd as [Hnk Hnd]. cbn [List.find].
      apply elem_of_cons in Hm as [->|Hm]; [rewrite Hk; destruct (jeqb_spec (fst m') (fst m')); [|done]; split; [done|by intros ? [= <-]]|].
      destruct (jeqb_spec (fst f) (fst m)) as [E|_]; [|by apply IH]. exfalso. apply Hnk. rewrite E.
      apply Forall2_flip in Hall. destruct (list_elem_of_lookup_1 _ _ Hm) as (i & Hi).
      destruct (Forall2_lookup_l _ _ _ _ _ Hall Hi) as (f' & Hf' & <- & _).
      apply list_elem_of_fmap_2, (list_elem_of_lookup_2 _ i _ Hf'). }
    unfold member_of. destruct (List.find _ fields) as [f|]; [by apply Hv|done].
  - assert (fields.*1 = shape.*1) as Hkeys by (clear Hnd; induction Hall as [|f m ? ? [Hk _] _ IH]; [done|]; by rewrite !fmap_cons, Hk, IH).
    destruct strict; [|done]. apply bool_decide_eq_true. rewrite <- Hkeys. by apply present_keys.
Qed.

(** ** Objects that survive JSON *)

Lemma obj_set_end entries k v : index_key k = None -> k ∉ entries.*1 -> Forall (fun e => index_key (fst e) = None) entries ->
  obj_set entries k v = entries ++ [(k, v)].
Proof.
  intros Hk Hin Hidx. induction Hidx as [|[k' v'] entries Hk' _ IH]; [done|]. rewrite fmap_cons, not_elem_of_cons in Hin.
  destruct Hin as [Hne Hin]. cbn [obj_set fst] in *. destruct (jeqb_spec k' k) as [->|_]; [done|].
  unfold key_before. rewrite Hk. cbn [andb app]. by rewrite IH.
Qed.

Lemma obj_build entries : NoDup entries.*1 -> Forall (fun e => index_key (fst e) = None) entries ->
  foldl (fun o m => obj_set o m.1 m.2) [] entries = entries.
Proof.
  induction entries as [|[k v] entries IH] using rev_ind; [done|]. rewrite fmap_app. intros Hnd Hidx.
  apply NoDup_app in Hnd as (Hnd & Hdis & _). apply Forall_app in Hidx as [Hidx Hk]. rewrite foldl_app. cbn [foldl].
  rewrite IH by done. apply obj_set_end; [by inversion Hk| |done]. intros Hin. apply (Hdis k Hin). by left.
Qed.

Lemma plain_object fields : NoDup fields.*1 -> Forall (fun f => index_key (fst f) = None) fields ->
  Forall (fun f => match snd f with Some v => json_plain v | None => True end) fields -> json_plain (members fields).
Proof.
  intros Hnd Hidx Hp. unfold members. cbn [json_plain]. split.
  - apply obj_build.
    + rewrite present_keys by done. by apply NoDup_filter.
    + apply Forall_forall. intros [k v] ([k' [v'|]] & Hin & E)%list_elem_of_omap; [|done]. injection E as -> ->.
      rewrite Forall_forall in Hidx. exact (Hidx _ Hin).
  - apply foldr_and, Forall_forall. intros [k v] ([k' [v'|]] & Hin & E)%list_elem_of_omap; [|done]. injection E as -> ->.
    rewrite Forall_forall in Hp. exact (Hp _ Hin).
Qed.
