(* ===== verification/BillingPrint.v ===== *)
(** * Billing expressions: texts of trees, and reading them back

    The sources have no printer: every form that writes an expression builds its
    own text.  This file says once which texts denote which tree, up to blanks
    and redundant precision of spans, and proves that the parser of
    [billing-expression/parser.ts] reads every one of them as that tree.  The
    lexer and the parser meet at lists of tokens: [laid] relates a token list to
    its texts, [views] to the states of the parser. *)

From stdpp Require Import base list numbers strings.
From Stdlib Require Import ZArith SpecFloat Lia.
From S2P Require Import Prelude.
From S2P Require Import JsString.
From S2P Require Import JsNumber.
From S2P Require Import JsNumberFacts.
From S2P Require Import JsJson.
From S2P Require Import BillingTypes.
From S2P Require Import BillingParser.
From S2P Require Import BillingSpans.
From S2P Require Import BillingCompile.
From S2P Require Import BillingCompileFacts.
From S2P Require Import BillingRuntime.

(** ** Tokens *)

Inductive token :=
| TokNum (x : f64) (integer : bool)
| TokStr (s : jstr)
| TokSym (t : jstr)
| TokName (t : jstr).

Definition tok_text (t : token) : jstr :=
  match t with
  | TokNum x _ => number_to_string x
  | TokStr s => json_stringify s
  | TokSym t | TokName t => t
  end.

Definition tok_kind (t : token) : LexKind :=
  match t with
  | TokNum _ _ => Knumber
  | TokStr _ => Kstring
  | TokSym _ => Ksymbol
  | TokName _ => Kname
  end.

Definition tok_value (t : token) : lexval :=
  match t with
  | TokNum x i => NumValue x i
  | TokStr s => StrValue s
  | _ => NoValue
  end.

(** [String(x)] is a number token of the language, read as [x]: a canonical
    finite number with a positive sign, and an integral text only where the
    parser does not refuse its precision. *)
Definition number_ok (x : f64) (integer : bool) : Prop :=
  valid_binary prec emax x = true /\ is_finite x = true /\ fleb fzero x = true /\
  SFabs x = x /\ (dec_integer <$> scan_decimal (number_to_string x)) = Some integer /\
  (integer = true -> is_safe_integer x = true).

Definition is_symbol (t : jstr) : bool :=
  existsb (jeqb t) two_char_operators || existsb (fun c => jeqb t [c]) one_char_operators.

Definition is_name (t : jstr) : bool :=
  match t with c :: l => is_name_start c && forallb is_word l | [] => false end.

Definition tok_ok (t : token) : Prop :=
  match t with
  | TokNum x i => number_ok x i
  | TokStr _ => True
  | TokSym t => is_symbol t = true
  | TokName t => is_name t = true
  end.

(** A character that may come right after a token. *)
Definition may_follow (t : token) (c : N) : bool :=
  match t with
  | TokNum _ _ => negb (is_digit c || (c =? 46)%N || (c =? 101)%N || (c =? 69)%N)
  | TokStr _ => true
  | TokSym _ => negb ((c =? 61)%N || (c =? 38)%N || (c =? 124)%N)
  | TokName _ => negb (is_word c)
  end.

Definition separate (t : token) (text : jstr) : Prop :=
  match text with [] => True | c :: _ => may_follow t c = true end.

(** The texts of a token list: the texts of its tokens with blanks anywhere
    between, and at least where two tokens would run together. *)
Inductive laid : list token -> jstr -> Prop :=
| laid_end : laid [] []
| laid_blank c ts text : is_space c = true -> laid ts text -> laid ts (c :: text)
| laid_token t ts text : tok_ok t -> separate t text -> laid ts text -> laid (t :: ts) (tok_text t ++ text).

(** ** The lexer reads tokens *)

Definition reads_token (t : token) (lx : Lexeme) : Prop :=
  kind lx = tok_kind t /\ text lx = tok_text t /\ value lx = tok_value t.

(** The text of a number, followed by something else. *)
Lemma scan_number_token x i u : number_ok x i -> ends_number u ->
  exists d, scan_decimal (number_to_string x ++ u) = Some d /\ dec_rest d = u /\
    decimal_value d = x /\ dec_integer d = i.
Proof.
  intros (Hv & Hf & Hp & Ha & Hi & _) Hu.
  destruct (number_to_string_reads x Hv Hf Hp) as (d & Hd & Hr & Hval & _).
  exists {| dec_m := dec_m d; dec_e := dec_e d; dec_integer := dec_integer d; dec_rest := u |}.
  rewrite (scan_decimal_extend _ d u Hd Hr Hu). rewrite Hd in Hi. injection Hi as Hi.
  split_and!; [done..| by rewrite <- Ha, <- Hval | done].
Qed.

Lemma scan_string_body text s u cur v : json_body text s ->
  scan_string 34 (text ++ 34%N :: u) cur v = Closed (v ++ s) (cur + length text + 1).
Proof.
  intros Hb. revert cur v.
  induction Hb as [|c text s H1 H2 H3 _ IH|e c text s He _ IH|h1 h2 h3 h4 c text s Hh _ IH]; intros cur v.
  - simpl. rewrite app_nil_r. f_equal. lia.
  - cbn [app scan_string length]. apply N.leb_le in H1. rewrite H2, H3.
    rewrite !(proj2 (N.eqb_neq c _)) by lia. simpl. rewrite IH, <- app_assoc. f_equal. lia.
  - cbn [app scan_string length]. simpl N.eqb. cbv iota. simpl orb. cbv iota. simpl negb. cbv iota.
    assert (assoc [e] escapes = Some [c]) as ->.
    { unfold json_escape in He. repeat case_match; simplify_eq;
        repeat match goal with H : _ || _ = true |- _ => apply orb_true_iff in H as [H|H] end;
        rewrite ?N.eqb_eq in *; by subst. }
    rewrite IH, <- app_assoc. f_equal. lia.
  - unfold hex4 in Hh. destruct (is_hex h1 && is_hex h2 && is_hex h3 && is_hex h4) eqn:E; [|done].
    cbn [app scan_string length]. simpl N.eqb. cbv iota. simpl orb. cbv iota. simpl negb. cbv iota.
    change (assoc [117%N] escapes) with (@None jstr). cbv iota. rewrite E, IH, <- app_assoc.
    simplify_eq. cbn [app]. f_equal. lia.
Qed.

(** What [next] does at a position where no blank is left. *)
Definition next_here (source : jstr) (start count : nat) : res exn (Lexeme * lstate) :=
  let rest := drop start source in
  let finish (lx : Lexeme) := Ok (lx, {| l_cursor := lex_end lx; l_count := count |}) in
  match rest with
  | [] => finish (bare Kend [] start start)
  | first :: rest1 =>
      match scan_decimal rest with
      | Some d =>
          let number := take (length rest - length (dec_rest d)) rest in
          let v := decimal_value d in
          if negb (is_finite v) then throw_at Dnumber number start {| l_cursor := 0; l_count := 0 |}
          else if dec_integer d && negb (is_safe_integer v) then
            throw_at Dunsupported (js "integer precision") start {| l_cursor := 0; l_count := 0 |}
          else finish {| kind := Knumber; text := number; lex_start := start;
                         lex_end := (start + length number)%nat; value := NumValue v (dec_integer d) |}
      | None =>
          if (first =? 34)%N || (first =? 39)%N then
            match scan_string first rest1 (S start) [] with
            | Closed v c => finish {| kind := Kstring; text := slice source start c;
                                      lex_start := start; lex_end := c; value := StrValue v |}
            | Unterminated => throw_at Dsyntax (js "unterminated string") start {| l_cursor := 0; l_count := 0 |}
            | BadEscape p => throw_at Dunsupported (js "string escape") p {| l_cursor := 0; l_count := 0 |}
            end
          else if is_name_start first then
            let name := first :: fst (span_while is_word rest1) in
            finish (bare Kname name start (start + length name)%nat)
          else
            match scan_operator rest with
            | Some n => finish (bare Ksymbol (take n rest) start (start + n)%nat)
            | None => throw_at Dunsupported [first] start {| l_cursor := 0; l_count := 0 |}
            end
      end
  end.

Lemma next_at source cur n : (n < 100 * 100)%nat ->
  next source {| l_cursor := cur; l_count := n |}
  = next_here source (cur + length (fst (span_while is_space (drop cur source)))) (S n).
Proof.
  intros Hn. unfold next, st_bind, st_get. cbn [l_count l_cursor].
  assert (Nat.ltb (100 * 100) (S n) = false) as -> by (apply Nat.ltb_ge; lia).
  unfold next_here, st_put, st_ret, throw_at, st_throw. cbv zeta.
  destruct (drop _ source) as [|first rest1]; [done|].
  destruct (scan_decimal _); repeat case_match; done.
Qed.

Lemma next_blank source pre c u n : is_space c = true -> source = pre ++ c :: u -> (n < 100 * 100)%nat ->
  next source {| l_cursor := length pre; l_count := n |}
  = next source {| l_cursor := length (pre ++ [c]); l_count := n |}.
Proof.
  intros Hc -> Hn. rewrite !next_at by done. rewrite drop_app_length.
  replace (pre ++ c :: u) with ((pre ++ [c]) ++ u) by (by rewrite <- app_assoc).
  rewrite drop_app_length. simpl. rewrite Hc. destruct (span_while is_space u) as [a b]. simpl.
  rewrite length_app. simpl. f_equal. lia.
Qed.

Lemma next_plain pre u n : (n < 100 * 100)%nat ->
  match u with c :: _ => is_space c = false | [] => True end ->
  next (pre ++ u) {| l_cursor := length pre; l_count := n |} = next_here (pre ++ u) (length pre) (S n).
Proof.
  intros Hn Hu. rewrite next_at, drop_app_length by done.
  destruct u as [|c u]; simpl; [by rewrite Nat.add_0_r|]. rewrite Hu. simpl. by rewrite Nat.add_0_r.
Qed.

Definition here_reads (t : token) (pre u : jstr) (n : nat) : Prop :=
  exists lx, next_here (pre ++ tok_text t ++ u) (length pre) n
    = Ok (lx, {| l_cursor := length (pre ++ tok_text t); l_count := n |}) /\ reads_token t lx.

Lemma here_number x i pre u n : number_ok x i -> ends_number u -> here_reads (TokNum x i) pre u n.
Proof.
  intros Hx Hu. destruct (scan_number_token x i u Hx Hu) as (d & Hd & Hr & Hv & Hi).
  destruct Hx as (_ & Hf & _ & _ & _ & Hsafe). unfold here_reads, next_here. cbn [tok_text].
  rewrite drop_app_length. destruct (number_to_string x ++ u) as [|c l] eqn:E; [done|].
  rewrite Hd, Hv, Hi, Hf. simpl negb. cbv iota.
  assert (i && negb (is_safe_integer x) = false) as ->.
  { destruct i; [by rewrite Hsafe|done]. }
  rewrite <- E, Hr. rewrite length_app. replace (length _ + length u - length u)%nat with (length (number_to_string x)) by lia.
  cbv zeta. rewrite !take_app_length. eexists.
  split; [by rewrite length_app|done].
Qed.

Lemma here_string s pre u n : here_reads (TokStr s) pre u n.
Proof.
  unfold here_reads, next_here. cbn [tok_text]. rewrite drop_app_length. unfold json_stringify.
  rewrite <- !app_assoc. cbn [app]. change (scan_decimal (34%N :: ?l)) with (@None decimal).
  cbn [N.eqb Pos.eqb orb].
  rewrite (scan_string_body _ s u (S (length pre)) [] (json_chars_body s)).
  cbv zeta. cbn [lex_end]. eexists.
  split; [do 3 f_equal; rewrite !length_app; simpl; rewrite length_app; simpl; lia|].
  split; [done|]. split; [|done]. simpl. unfold slice. rewrite drop_app_length.
  replace (34%N :: json_chars s ++ 34%N :: u) with ((34%N :: json_chars s ++ [34%N]) ++ u)
    by (simpl; by rewrite <- app_assoc).
  apply take_app_length'. simpl. rewrite length_app. simpl. lia.
Qed.

Lemma here_name c l pre u n : is_name (c :: l) = true -> separate (TokName (c :: l)) u ->
  here_reads (TokName (c :: l)) pre u n.
Proof.
  intros [Hc Hl]%andb_true_iff Hu. unfold here_reads, next_here. cbn [tok_text app].
  rewrite drop_app_length.
  assert (is_digit c = false /\ (c =? 46)%N = false /\ (c =? 34)%N = false /\ (c =? 39)%N = false) as (H1 & H2 & H3 & H4).
  { unfold is_name_start, is_upper, is_lower, is_digit in *.
    rewrite !orb_true_iff, !andb_true_iff, !N.leb_le, N.eqb_eq in Hc.
    rewrite andb_false_iff, !N.leb_gt, !N.eqb_neq. lia. }
  assert (scan_decimal (c :: l ++ u) = None) as ->.
  { unfold scan_decimal. simpl. rewrite H1. simpl. by rewrite H2. }
  rewrite H3, H4, Hc. simpl orb. cbv iota.
  rewrite (span_while_all is_word l u).
  - cbv zeta. eexists. split; [by rewrite length_app|done].
  - rewrite forallb_forall in Hl. apply Forall_forall. intros x Hx. by apply Hl, list_elem_of_In.
  - destruct u as [|c' u]; [done|]. simpl in Hu. by apply negb_true_iff in Hu.
Qed.

Lemma is_symbol_cases t : is_symbol t = true -> t ∈ two_char_operators ++ ((fun c => [c]) <$> one_char_operators).
Proof.
  unfold is_symbol. rewrite orb_true_iff, !existsb_exists, elem_of_app.
  intros [(x & Hx & ->%jeqb_eq)|(x & Hx & ->%jeqb_eq)]; [left|right].
  - by apply list_elem_of_In.
  - apply (list_elem_of_fmap_2 (fun c => [c])). by apply list_elem_of_In.
Qed.

Lemma here_symbol t pre u n : is_symbol t = true -> separate (TokSym t) u -> here_reads (TokSym t) pre u n.
Proof.
  intros Ht%is_symbol_cases Hu.
  assert (u = [] \/ exists c u', u = c :: u' /\ (c =? 61)%N = false /\ (c =? 38)%N = false /\ (c =? 124)%N = false) as Hhead.
  { destruct u as [|c u]; [by left|right]. simpl in Hu. rewrite negb_true_iff, !orb_false_iff in Hu.
    exists c, u. tauto. }
  assert (exists first l, t = first :: l /\ is_digit first = false /\ (first =? 46)%N = false /\
    (first =? 34)%N || (first =? 39)%N = false /\ is_name_start first = false /\
    scan_operator (t ++ u) = Some (length t)) as (first & l & -> & H1 & H2 & H3 & H4 & H5).
  { vm_compute in Ht. repeat (apply elem_of_cons in Ht as [->|Ht]); [..|by apply elem_of_nil in Ht].
    all: eexists _, _; split_and!; [done..|].
    all: destruct Hhead as [->|(c & u' & -> & E1 & E2 & E3)]; [done|].
    all: unfold scan_operator; let l := eval vm_compute in two_char_operators in change two_char_operators with l.
    all: let l := eval vm_compute in one_char_operators in change one_char_operators with l.
    all: cbn -[N.eqb]; rewrite ?(N.eqb_sym 61 c), ?(N.eqb_sym 38 c), ?(N.eqb_sym 124 c), ?E1, ?E2, ?E3; done. }
  unfold here_reads, next_here. cbn [tok_text app]. rewrite drop_app_length.
  assert (scan_decimal (first :: l ++ u) = None) as ->.
  { unfold scan_decimal. simpl. rewrite H1. simpl. by rewrite H2. }
  rewrite H3, H4. change (first :: l ++ u) with ((first :: l) ++ u). rewrite H5, take_app_length.
  eexists. split; [by rewrite length_app|done].
Qed.

Lemma next_end source n : (n < 100 * 100)%nat ->
  next source {| l_cursor := length source; l_count := n |}
  = Ok (bare Kend [] (length source) (length source), {| l_cursor := length source; l_count := S n |}).
Proof.
  intros Hn. rewrite <- (app_nil_r source) at 1. rewrite next_plain by done.
  unfold next_here. by rewrite drop_app_length.
Qed.

Lemma number_head x i : number_ok x i -> exists c l, number_to_string x = c :: l /\ is_digit c = true.
Proof.
  intros (Hv & Hf & Hp & Ha & _). destruct x as [b|b| |b m e]; try done.
  - by exists 48%N, [].
  - destruct b; [done|]. simpl. destruct (shortest m e) as [d x10]. apply layout_head.
Qed.

Lemma tok_text_head t : tok_ok t -> exists c l, tok_text t = c :: l /\ is_space c = false.
Proof.
  destruct t as [x i|s|t|t]; simpl.
  - intros (c & l & -> & Hc)%number_head. exists c, l. split; [done|].
    apply num_char_not_space. unfold is_num_char. by rewrite Hc.
  - by eexists _, _.
  - intros Ht%is_symbol_cases. vm_compute in Ht.
    repeat (apply elem_of_cons in Ht as [->|Ht]); [by eexists _, _..|by apply elem_of_nil in Ht].
  - destruct t as [|c t]; [done|]. intros [Hc _]%andb_true_iff. exists c, t. split; [done|].
    unfold is_name_start, is_upper, is_lower, is_space in *.
    rewrite !orb_true_iff, !andb_true_iff, !N.leb_le, N.eqb_eq in Hc.
    rewrite !orb_false_iff, !andb_false_iff, !N.leb_gt, !N.eqb_neq. lia.
Qed.

Lemma next_token t pre u n : tok_ok t -> separate t u -> (n < 100 * 100)%nat ->
  exists lx, next (pre ++ tok_text t ++ u) {| l_cursor := length pre; l_count := n |}
    = Ok (lx, {| l_cursor := length (pre ++ tok_text t); l_count := S n |}) /\ reads_token t lx.
Proof.
  intros Ht Hu Hn. rewrite next_plain; [|done|].
  - destruct t as [x i|s|t|t]; simpl in Ht.
    + by apply here_number.
    + apply here_string.
    + by apply here_symbol.
    + destruct t; [done|]. by apply here_name.
  - by destruct (tok_text_head t Ht) as (c & l & -> & Hc).
Qed.

(** ** States of the parser that are about to read a list of tokens *)

Section Views.
Context (source : jstr).

Inductive views : list token -> pstate -> Prop :=
| views_end s : kind (current s) = Kend -> text (current s) = [] -> views [] s
| views_token t ts s lx ls : reads_token t (current s) ->
    next source {| l_cursor := cursor s; l_count := count s |} = Ok (lx, ls) ->
    views ts {| cursor := l_cursor ls; count := l_count ls; current := lx |} ->
    views (t :: ts) s.

Lemma laid_views ts u : laid ts u -> forall pre n, source = pre ++ u -> (n + length ts < 100 * 100)%nat ->
  exists lx ls, next source {| l_cursor := length pre; l_count := n |} = Ok (lx, ls) /\
    views ts {| cursor := l_cursor ls; count := l_count ls; current := lx |}.
Proof.
  induction 1 as [|c ts u Hc Hl IH|t ts u Ht Hs Hl IH]; intros pre n Hsrc Hn; simpl in Hn.
  - rewrite app_nil_r in Hsrc. subst pre. rewrite next_end by lia. eexists _, _. split; [done|]. by constructor.
  - rewrite (next_blank source pre c u) by (done || lia). apply IH; [|done]. by rewrite <- app_assoc.
  - destruct (next_token t pre u n) as (lx & Hlx & Hr); [done..|lia|]. rewrite <- Hsrc in Hlx.
    eexists _, _. split; [exact Hlx|]. simpl.
    destruct (IH (pre ++ tok_text t) (S n)) as (lx' & ls & Hn' & Hv);
      [by rewrite <- app_assoc|lia|]. by eapply views_token.
Qed.

Lemma views_take t ts s : views (t :: ts) s ->
  exists s', take_lexeme source s = Ok (current s, s') /\ reads_token t (current s) /\ views ts s'.
Proof.
  inversion 1 as [|? ? ? lx ls Hr Hn Hv]; subst. unfold take_lexeme. rewrite Hn. eauto.
Qed.

(** The text of the lexeme the parser looks at. *)
Definition head_text (ts : list token) : jstr := match ts with t :: _ => tok_text t | [] => [] end.

Lemma views_text ts s : views ts s -> text (current s) = head_text ts.
Proof. destruct 1 as [s _ Ht|t ts s lx ls (_ & Ht & _) _ _]; done. Qed.
End Views.

(** ** The tokens of a tree *)

Definition unop_name (o : unop) : jstr :=
  match o with Unot => js "!" | Uplus => js "+" | Uminus => js "-" end.

Definition binop_prec (o : binop) : nat :=
  match o with
  | Bor => 1 | Band => 2 | Beq | Bne => 3 | Blt | Ble | Bgt | Bge => 4 | Badd | Bsub => 5
  | Bmul | Bdiv | Bmod => 6
  end.

Definition node_prec (n : ExpressionNode) : nat :=
  match n with
  | Conditional _ _ _ _ => 0
  | Binary _ o _ _ => binop_prec o
  | Unary _ _ _ => 7
  | _ => 8
  end.

Definition sym (t : string) : token := TokSym (js t).
Arguments sym t%_string.

Definition literal_token (v : litval) : token :=
  match v with
  | LNull => TokName (js "nil")
  | LBool b => TokName (if b then js "true" else js "false")
  | LNum x i => TokNum x i
  | LStr s => TokStr s
  end.

Fixpoint commas (l : list (list token)) : list token :=
  match l with
  | [] => []
  | [x] => x
  | x :: l' => x ++ sym "," :: commas l'
  end.

(** In parentheses where the place asks for a higher precedence. *)
Definition enclose (min : nat) (n : ExpressionNode) (ts : list token) : list token :=
  if Nat.ltb (node_prec n) min then sym "(" :: ts ++ [sym ")"] else ts.

Fixpoint body_tokens (n : ExpressionNode) : list token :=
  match n with
  | Literal _ v => [literal_token v]
  | Var _ v => [TokName (variable_name v)]
  | Call _ f args => TokName (function_name f) :: sym "(" :: commas (map body_tokens args) ++ [sym ")"]
  | Unary _ o a => TokSym (unop_name o) :: enclose 7 a (body_tokens a)
  | Binary _ o l r =>
      enclose (binop_prec o) l (body_tokens l) ++
      TokSym (binop_name o) :: enclose (S (binop_prec o)) r (body_tokens r)
  | Conditional _ c y no =>
      enclose 1 c (body_tokens c) ++ sym "?" :: body_tokens y ++ sym ":" :: body_tokens no
  end.

Definition tokens (min : nat) (n : ExpressionNode) : list token := enclose min n (body_tokens n).

(** The numbers are number tokens and the calls have the arity of their function. *)
Fixpoint node_ok (n : ExpressionNode) : Prop :=
  match n with
  | Literal _ (LNum x i) => number_ok x i
  | Literal _ _ | Var _ _ => True
  | Call _ f args => length args = function_arity f /\ fold_right and True (map node_ok args)
  | Unary _ _ a => node_ok a
  | Binary _ _ l r => node_ok l /\ node_ok r
  | Conditional _ c y no => node_ok c /\ node_ok y /\ node_ok no
  end.

(** How many nested calls of [expression] a text of the tree takes. *)
Definition nested (min : nat) (n : ExpressionNode) (k : nat) : nat :=
  if Nat.ltb (node_prec n) min then S k else k.

Fixpoint body_levels (n : ExpressionNode) : nat :=
  match n with
  | Literal _ _ | Var _ _ => 1
  | Call _ _ args => S (list_max (map body_levels args))
  | Unary _ _ a => S (nested 7 a (body_levels a))
  | Binary _ o l r =>
      Nat.max (nested (binop_prec o) l (body_levels l)) (S (nested (S (binop_prec o)) r (body_levels r)))
  | Conditional _ c y no =>
      Nat.max (nested 1 c (body_levels c)) (S (Nat.max (body_levels y) (body_levels no)))
  end.

Definition levels (min : nat) (n : ExpressionNode) : nat := nested min n (body_levels n).

(** A tree without its positions. *)
Fixpoint strip (n : ExpressionNode) : ExpressionNode :=
  let sp := mkspan 0 0 in
  match n with
  | Literal _ v => Literal sp v
  | Var _ v => Var sp v
  | Call _ f args => Call sp f (map strip args)
  | Unary _ o a => Unary sp o (strip a)
  | Binary _ o l r => Binary sp o (strip l) (strip r)
  | Conditional _ c y no => Conditional sp (strip c) (strip y) (strip no)
  end.

Lemma strip_with_span n sp : strip (with_span n sp) = strip n.
Proof. by destruct n. Qed.

Lemma node_ok_args args : fold_right and True (map node_ok args) <-> Forall node_ok args.
Proof.
  induction args as [|a args IH]; simpl; [split; [constructor|done]|]. by rewrite Forall_cons, IH.
Qed.

Lemma binop_lookup o : assoc (binop_name o) PRECEDENCE = Some (o, binop_prec o).
Proof. by destruct o. Qed.

Lemma function_lookup f : assoc (function_name f) BILLING_FUNCTIONS = Some (f, function_arity f).
Proof. destruct f as [| | | | | |[]| | | | |]; done. Qed.

Lemma variable_lookup v : assoc (variable_name v) TOKEN_VARIABLES = Some v.
Proof. by destruct v. Qed.

(** A name that [primary_symbol] looks up. *)
Definition looked_up (t : jstr) : Prop :=
  jeqb t (js "(") = false /\ unary_operator t = None /\ jeqb t (js "nil") = false /\
  jeqb t (js "true") || jeqb t (js "false") = false.

Lemma variable_looked_up v : looked_up (variable_name v).
Proof. by destruct v. Qed.

Lemma function_looked_up f : looked_up (function_name f).
Proof. destruct f as [| | | | | |[]| | | | |]; done. Qed.

(** ** Where an expression ends *)

Definition ends_before (min : nat) (rest : list token) : bool :=
  let t := head_text rest in
  negb (jeqb t (js "(")) && negb (Nat.eqb min 0 && jeqb t (js "?"))
  && match assoc t PRECEDENCE with Some (_, p) => Nat.ltb p min | None => true end.

Lemma stop_mono a b rest : ends_before a rest = true -> a <= b -> ends_before b rest = true.
Proof.
  unfold ends_before. rewrite !andb_true_iff, !negb_true_iff, !andb_false_iff, !Nat.eqb_neq.
  intros [[H1 H2] H3] Hab. split_and!; [done| |].
  - destruct H2; [left; lia|by right].
  - destruct (assoc _ _) as [[o p]|]; [|done]. rewrite Nat.ltb_lt in *. lia.
Qed.

Lemma prec_bound t o p : assoc t PRECEDENCE = Some (o, p) -> p <= 6.
Proof.
  unfold PRECEDENCE. cbn [assoc]. repeat (case_match; [intros; simplify_eq; lia|]). done.
Qed.

Lemma stop_unary k rest : ends_before k rest = true -> ends_before 7 rest = true.
Proof.
  unfold ends_before. rewrite !andb_true_iff, !negb_true_iff. intros [[H1 _] _]. split_and!; [done..|].
  destruct (assoc _ _) as [[o p]|] eqn:E; [|done]. apply prec_bound in E. apply Nat.ltb_lt. lia.
Qed.

(** ** The parser reads the tokens of a tree *)

Section Reading.
Context (source : jstr).
Abbreviation views := (views source).
Abbreviation parser := (st exn pstate).

(** [E] is [expression] at some nesting level, with the precedence applied to it. *)
Definition reads_node (E : nat -> parser ExpressionNode) (min : nat) (n : ExpressionNode) : Prop :=
  forall rest s, ends_before min rest = true -> views (tokens min n ++ rest) s ->
    length (tokens min n ++ rest) <= length source ->
    exists m s', E min s = Ok (m, s') /\ strip m = strip n /\ views rest s'.

Lemma is_text_views t ts s : views ts s -> is_text t s = Ok (jeqb (head_text ts) t, s).
Proof. intros Hv. unfold is_text, st_bind, st_get, st_ret. by rewrite (views_text source ts s Hv). Qed.

Lemma expect_views t ts s : views (TokSym t :: ts) s ->
  exists s', expect source t s = Ok (current s, s') /\ views ts s'.
Proof.
  intros Hv. pose proof (views_text _ _ _ Hv) as Ht. unfold expect, st_bind, st_get. rewrite Ht, jeqb_refl.
  destruct (views_take source _ _ _ Hv) as (s' & Hs & _ & Hv'). rewrite Hs. eauto.
Qed.

Section Primary.
Context (E : nat -> parser ExpressionNode).

(** [primary] on a token that is neither a number nor a string. *)
Lemma primary_other t ts s : views (t :: ts) s ->
  match t with TokSym _ | TokName _ => True | _ => False end ->
  exists s', views ts s' /\ reads_token t (current s) /\
    primary source E s = primary_symbol source E (current s) s'.
Proof.
  intros Hv Ht. destruct (views_take source _ _ _ Hv) as (s' & Hs & Hr & Hv').
  exists s'. split_and!; [done..|]. unfold primary, st_bind. rewrite Hs.
  destruct Hr as (Hk & _ & _). by destruct t; rewrite Hk.
Qed.

Lemma primary_paren n rest s : reads_node E 0 n ->
  views (sym "(" :: body_tokens n ++ sym ")" :: rest) s ->
  S (length (body_tokens n ++ sym ")" :: rest)) <= length source ->
  exists m s', primary source E s = Ok (m, s') /\ strip m = strip n /\ views rest s'.
Proof.
  intros HE Hv Hl. destruct (primary_other _ _ _ Hv I) as (s1 & Hv1 & (_ & Ht & _) & ->).
  unfold primary_symbol. rewrite Ht. cbn [tok_text sym]. rewrite jeqb_refl.
  destruct (HE (sym ")" :: rest) s1) as (m & s2 & HEm & Hm & Hv2); [done| done |unfold tokens, enclose; simpl; lia|].
  unfold st_bind. rewrite HEm. destruct (expect_views _ _ _ Hv2) as (s3 & -> & Hv3).
  eexists _, s3. split; [done|]. by rewrite strip_with_span.
Qed.

Lemma guarded_primary min n rest s : node_prec n < min -> reads_node E 0 n ->
  views (enclose min n (body_tokens n) ++ rest) s ->
  length (enclose min n (body_tokens n) ++ rest) <= length source ->
  exists m s', primary source E s = Ok (m, s') /\ strip m = strip n /\ views rest s'.
Proof.
  intros Hp%Nat.ltb_lt HE Hv Hl. unfold enclose in *. rewrite Hp in *. cbn [app] in *.
  rewrite <- app_assoc in *. by eapply primary_paren.
Qed.

(** The first token of a tree opens it, and does not look like a version prefix. *)
Definition opens (t : token) : Prop :=
  tok_text t <> js ")" /\ match tok_text t with c :: _ => (c =? 118)%N = false | [] => True end.

Lemma body_opens n : node_ok n -> exists t ts, body_tokens n = t :: ts /\ opens t.
Proof.
  assert (forall k m, (exists t ts, body_tokens m = t :: ts /\ opens t) ->
    exists t ts, enclose k m (body_tokens m) = t :: ts /\ opens t) as Hg.
  { intros k m (t & ts & Hm & Ht). unfold enclose. case_match; [by eexists _, _|]. eauto. }
  induction n as [sp v|sp v|sp f args|sp o a IHa|sp o l IHl r IHr|sp c IHc y IHy no IHn]; simpl; intros Hok.
  - eexists _, _. split; [done|]. destruct v as [|[]|x i|s]; try done.
    unfold opens. simpl. destruct (number_head x i Hok) as (c & t & -> & Hc).
    split; [by intros [= ->]|]. apply N.eqb_neq. by intros ->.
  - eexists _, _. split; [done|]. by destruct v.
  - eexists _, _. split; [done|]. destruct f as [| | | | | |[]| | | | |]; done.
  - eexists _, _. split; [done|]. by destruct o.
  - destruct Hok as [Hl _]. destruct (Hg (binop_prec o) l (IHl Hl)) as (t & ts & -> & Ht). by eexists _, _.
  - destruct Hok as (Hc & _). destruct (Hg 1 c (IHc Hc)) as (t & ts & -> & Ht). by eexists _, _.
Qed.

Lemma commas_cons x l : commas (x :: l) = x ++ match l with [] => [] | _ => sym "," :: commas l end.
Proof. destruct l; [by rewrite app_nil_r|done]. Qed.

Lemma arguments_views args : Forall node_ok args -> Forall (reads_node E 0) args ->
  forall fuel acc rest s, length args < fuel ->
  views (commas (map body_tokens args) ++ sym ")" :: rest) s ->
  length (commas (map body_tokens args) ++ sym ")" :: rest) <= length source ->
  exists ms s', arguments source E fuel acc s = Ok (acc ++ ms, s') /\ map strip ms = map strip args /\
    views (sym ")" :: rest) s'.
Proof.
  intros Hok HE. induction HE as [|a args Ha HE IH]; intros fuel acc rest s Hf Hv Hl.
  - destruct fuel as [|fuel]; [simpl in Hf; lia|]. cbn [arguments]. rewrite st_bind_unfold.
    rewrite (is_text_views _ _ _ Hv). cbn [map commas app head_text tok_text sym]. rewrite jeqb_refl.
    exists [], s. by rewrite app_nil_r.
  - apply Forall_cons in Hok as [Hoka Hok]. destruct fuel as [|fuel]; [simpl in Hf; lia|].
    destruct (body_opens a Hoka) as (t & ts & Ht & Hopen & _).
    cbn [arguments map]. cbn [map] in Hv, Hl. rewrite commas_cons, <- app_assoc in Hv, Hl.
    rewrite st_bind_unfold, (is_text_views _ _ _ Hv). rewrite Ht. cbn [app head_text].
    rewrite (proj2 (jeqb_neq _ _) Hopen).
    rewrite st_bind_unfold.
    set (rest1 := match map body_tokens args with [] => [] | _ => _ end ++ sym ")" :: rest) in *.
    assert (ends_before 0 rest1 = true) as Hstop by (unfold rest1; by destruct args).
    destruct (Ha rest1 s Hstop Hv Hl) as (m & s1 & -> & Hm & Hv1).
    rewrite st_bind_unfold, (is_text_views _ _ _ Hv1). destruct args as [|b args].
    + cbn [rest1 map app head_text tok_text sym]. exists [m], s1. split; [done|]. simpl. by rewrite Hm.
    + cbn [rest1 map app head_text tok_text sym]. change (negb (jeqb (js ",") (js ","))) with false. cbv iota.
      rewrite st_bind_unfold.
      destruct (views_take source _ _ _ Hv1) as (s2 & -> & _ & Hv2).
      destruct (IH Hok fuel (acc ++ [m]) rest s2) as (ms & s3 & -> & Hms & Hv3); [simpl in *; lia|done| |].
      { change rest1 with (sym "," :: commas (map body_tokens (b :: args)) ++ sym ")" :: rest) in Hl.
        rewrite length_app in Hl. cbn [length] in Hl. lia. }
      exists (m :: ms), s3. rewrite <- app_assoc. split; [done|]. simpl in *. by rewrite Hm, Hms.
Qed.

(** What the parts of a tree that [primary] and [operators] reach must satisfy. *)
Fixpoint fits (n : ExpressionNode) : Prop :=
  match n with
  | Literal _ _ | Var _ _ => True
  | Call _ _ args => Forall (reads_node E 0) args
  | Unary _ _ a => reads_node E 7 a
  | Binary _ o l r =>
      reads_node E (S (binop_prec o)) r /\
      (if Nat.ltb (node_prec l) (binop_prec o) then reads_node E 0 l else fits l)
  | Conditional _ _ _ _ => False
  end.

Lemma call_views f args rest s lx : node_ok (Call (mkspan 0 0) f args) -> Forall (reads_node E 0) args ->
  text lx = function_name f ->
  views (sym "(" :: commas (map body_tokens args) ++ sym ")" :: rest) s ->
  S (length (commas (map body_tokens args) ++ sym ")" :: rest)) <= length source ->
  exists m s', call_node source E lx s = Ok (m, s') /\ strip m = strip (Call (mkspan 0 0) f args) /\ views rest s'.
Proof.
  intros [Har Hok%node_ok_args] HE Hlx Hv Hl. unfold call_node. rewrite Hlx, function_lookup.
  destruct (views_take source _ _ _ Hv) as (s1 & Hs1 & _ & Hv1). rewrite st_bind_unfold, Hs1.
  assert (length args < S (length source)) as Hfuel.
  { assert (length args <= length (commas (map body_tokens args)) ) as Hc.
    { clear -Hok. induction Hok as [|a args Ha Hok IH]; [done|]. cbn [map]. rewrite commas_cons, length_app.
      destruct (body_opens a Ha) as (t & ts & -> & _). destruct args; simpl in *; lia. }
    rewrite length_app in Hl. lia. }
  destruct (arguments_views args Hok HE (S (length source)) [] rest s1 Hfuel Hv1) as (ms & s2 & Hms & Hst & Hv2);
    [lia|]. rewrite st_bind_unfold, Hms. destruct (expect_views _ _ _ Hv2) as (s3 & Hs3 & Hv3).
  rewrite st_bind_unfold, Hs3. simpl. apply (f_equal length) in Hst as Hlen. rewrite !length_map in Hlen.
  rewrite Hlen, Har, Nat.eqb_refl. simpl. eexists _, s3. split; [done|]. by rewrite <- Hst.
Qed.

(** Trees that are read by [primary] alone. *)
Lemma atom_views n rest s : 7 <= node_prec n -> node_ok n -> fits n -> ends_before 7 rest = true ->
  views (body_tokens n ++ rest) s -> length (body_tokens n ++ rest) <= length source ->
  exists m s', primary source E s = Ok (m, s') /\ strip m = strip n /\ views rest s'.
Proof.
  destruct n as [sp v|sp v|sp f args|sp o a|sp o l r|sp c y no]; cbn [node_prec body_tokens fits];
    intros Hp Hok HE Hstop Hv Hl; try (destruct o; simpl in Hp; lia); try lia; cbn [app] in *.
  - destruct v as [|[]|x i|str].
    1,2,3: destruct (primary_other _ _ _ Hv I) as (s1 & Hv1 & (Hk & Ht & _) & ->);
      unfold primary_symbol; rewrite Hk, Ht; eexists _, s1; by split.
    all: destruct (views_take source _ _ _ Hv) as (s1 & Hs & (Hk & _ & Hval) & Hv1); unfold primary;
      rewrite st_bind_unfold, Hs; cbn [literal_token tok_kind tok_value] in *; rewrite Hk, Hval;
      eexists _, s1; by split.
  - destruct (primary_other _ _ _ Hv I) as (s1 & Hv1 & (Hk & Ht & _) & ->).
    unfold primary_symbol. rewrite Hk, Ht. cbn [tok_text tok_kind].
    destruct (variable_looked_up v) as (-> & -> & -> & ->). cbn [negb]. rewrite bool_decide_true by done. cbn [negb].
    assert (jeqb (head_text rest) (js "(") = false) as Hparen.
    { unfold ends_before in Hstop. rewrite !andb_true_iff, !negb_true_iff in Hstop. tauto. }
    rewrite st_bind_unfold, (is_text_views _ _ _ Hv1), Hparen. cbn [negb]. rewrite variable_lookup.
    eexists _, s1. by split.
  - rewrite <- app_assoc in Hv, Hl. cbn [app] in Hv, Hl.
    destruct (primary_other _ _ _ Hv I) as (s1 & Hv1 & (Hk & Ht & _) & ->).
    unfold primary_symbol. rewrite Hk, Ht. cbn [tok_text tok_kind].
    destruct (function_looked_up f) as (-> & -> & -> & ->). rewrite bool_decide_true by done. cbn [negb].
    rewrite st_bind_unfold, (is_text_views _ _ _ Hv1). cbn [head_text tok_text sym]. rewrite jeqb_refl. cbn [negb].
    destruct (call_views f args rest s1 (current s) Hok HE Ht Hv1) as (m & s2 & Hm & Hst & Hv2); [simpl in *; lia|].
    by exists m, s2.
  - destruct (primary_other _ _ _ Hv I) as (s1 & Hv1 & (Hk & Ht & _) & ->).
    unfold primary_symbol. rewrite Ht. cbn [tok_text].
    destruct (HE rest s1 Hstop Hv1) as (m & s2 & Hm & Hst & Hv2); [simpl in *; unfold tokens; lia|].
    assert (jeqb (unop_name o) (js "(") = false /\ unary_operator (unop_name o) = Some o) as [-> ->] by (by destruct o).
    eexists _, s2. rewrite st_bind_unfold, Hm. split; [done|].
    simpl. by rewrite Hst.
Qed.

(** ** The loop of [operators] *)

(** Reading a tree that is not a conditional: [primary] reads its leftmost leaf
    and [operators] climbs its left spine. *)
Lemma spine min n rest s : node_ok n -> fits n -> min <= node_prec n -> ends_before (S (node_prec n)) rest = true ->
  views (body_tokens n ++ rest) s -> length (body_tokens n ++ rest) <= length source ->
  exists leaf s1 m s' k, primary source E s = Ok (leaf, s1) /\ strip m = strip n /\ views rest s' /\
    k <= length (body_tokens n) /\
    forall fuel, operators source E (k + fuel) min leaf s1 = operators source E fuel min m s'.
Proof.
  revert rest s. induction n as [sp v|sp v|sp f args|sp o a _|sp o l IHl r _|sp c _ y _ no _];
    intros rest s Hok HE Hmin Hstop Hv Hl; try done.
  1-4: edestruct atom_views as (m & s' & Hm & Hst & Hv');
    [|exact Hok|exact HE|exact (stop_unary _ _ Hstop)|exact Hv|exact Hl|]; [simpl; lia|];
    exists m, s', m, s', 0; split_and!; (done || simpl; lia).
  cbn [node_ok fits node_prec body_tokens] in *. destruct Hok as [Hokl Hokr], HE as [HEr HEl].
  rewrite <- app_assoc in Hv, Hl. cbn [app] in Hv, Hl.
  set (rest1 := TokSym (binop_name o) :: enclose (S (binop_prec o)) r (body_tokens r) ++ rest) in *.
  assert (exists leaf s1 m s' k, primary source E s = Ok (leaf, s1) /\ strip m = strip l /\ views rest1 s' /\
    k <= length (enclose (binop_prec o) l (body_tokens l)) /\
    forall fuel, operators source E (k + fuel) min leaf s1 = operators source E fuel min m s')
    as (leaf & s1 & m & s2 & k & Hleaf & Hm & Hv2 & Hk & Hops).
  { destruct (Nat.ltb_spec (node_prec l) (binop_prec o)) as [Hlt|Hge].
    - destruct (guarded_primary (binop_prec o) l rest1 s) as (m & s2 & Hp & Hm & Hv2); [done..|].
      exists m, s2, m, s2, 0. split_and!; try done. lia.
    - unfold enclose in *. rewrite (proj2 (Nat.ltb_ge _ _) Hge) in *. apply IHl; try done; [lia|].
      unfold ends_before, rest1. cbn [head_text tok_text]. rewrite binop_lookup.
      rewrite !andb_true_iff, !negb_true_iff, Nat.ltb_lt. split_and!; [by destruct o|done|lia]. }
  assert (length rest1 <= length source) as Hl1 by (rewrite length_app in Hl; lia).
  destruct (views_take source _ _ _ Hv2) as (s3 & Hs3 & _ & Hv3).
  destruct (HEr rest s3) as (mr & s4 & Hr & Hmr & Hv4); [done|done|unfold tokens; simpl in *; lia|].
  exists leaf, s1, (Binary (mkspan (node_start m) (node_end mr)) o m mr), s4, (k + 1).
  split_and!; [done|simpl; by rewrite Hm, Hmr|done|rewrite length_app; simpl; lia|].
  intros fuel. rewrite <- Nat.add_assoc, Hops. cbn [Nat.add operators].
  rewrite st_bind_unfold. unfold st_get. rewrite (views_text _ _ _ Hv2). cbn [head_text tok_text rest1].
  rewrite binop_lookup, (proj2 (Nat.leb_le _ _) Hmin). rewrite st_bind_unfold, Hs3, st_bind_unfold, Hr. done.
Qed.

Lemma operators_stop fuel min m s rest : ends_before min rest = true -> views rest s ->
  operators source E (S fuel) min m s = Ok (m, s).
Proof.
  intros Hstop Hv. cbn [operators]. rewrite st_bind_unfold. unfold st_get.
  rewrite (views_text _ _ _ Hv). unfold ends_before in Hstop. rewrite !andb_true_iff in Hstop.
  destruct Hstop as [_ Hp]. destruct (assoc _ _) as [[o p]|]; [|done].
  apply Nat.ltb_lt in Hp. by rewrite (proj2 (Nat.leb_gt _ _) Hp).
Qed.

(** [primary] and [operators] on a tree that is not a conditional. *)
Lemma climb min n rest s : node_ok n -> fits n -> min <= node_prec n ->
  match assoc (head_text rest) PRECEDENCE with Some (_, p) => Nat.ltb p min | None => true end = true ->
  jeqb (head_text rest) (js "(") = false ->
  views (body_tokens n ++ rest) s -> length (body_tokens n ++ rest) <= length source ->
  exists m s', st_bind (primary source E) (operators source E (S (length source)) min) s = Ok (m, s') /\
    strip m = strip n /\ views rest s'.
Proof.
  intros Hok HE Hmin Hprec Hparen Hv Hl.
  assert (ends_before (S (node_prec n)) rest = true) as Hstop.
  { unfold ends_before. rewrite Hparen. destruct (assoc _ _) as [[o p]|]; [|done]. simpl.
    rewrite Nat.ltb_lt in *. lia. }
  destruct (spine min n rest s Hok HE Hmin Hstop Hv Hl) as (leaf & s1 & m & s2 & k & Hp & Hm & Hv2 & Hk & Hops).
  exists m, s2. split; [|by split]. rewrite st_bind_unfold, Hp. rewrite length_app in Hl.
  replace (S (length source)) with (k + S (length source - k))%nat by lia. rewrite Hops.
  cbn [operators]. rewrite st_bind_unfold. unfold st_get. rewrite (views_text _ _ _ Hv2).
  destruct (assoc _ _) as [[o p]|]; [|done]. apply Nat.ltb_lt in Hprec. by rewrite (proj2 (Nat.leb_gt _ _) Hprec).
Qed.
End Primary.

(** The parts of a tree that one call of [expression] hands to nested calls. *)
Definition parts_fit (E : nat -> parser ExpressionNode) (n : ExpressionNode) : Prop :=
  match n with
  | Conditional _ c y no =>
      (if Nat.ltb (node_prec c) 1 then reads_node E 0 c else fits E c) /\ reads_node E 0 y /\ reads_node E 0 no
  | _ => fits E n
  end.

Lemma expression_body_unfold E min s :
  expression_body source E min s =
  match st_bind (primary source E) (operators source E (S (length source)) min) s with
  | Ok (lft, s') =>
      (question <- is_text (js "?") ;;
       if Nat.eqb min 0 && question then
         take_lexeme source ;;;
         yes <- E 0 ;;
         expect source (js ":") ;;;
         no <- E 0 ;;
         st_ret (Conditional (mkspan (node_start lft) (node_end no)) lft yes no)
       else st_ret lft)%jsm s'
  | Err e => Err e
  end.
Proof.
  unfold expression_body. rewrite !st_bind_unfold. destruct (primary source E s) as [[a s1]|e]; [|done].
  rewrite st_bind_unfold. done.
Qed.

Lemma stop_head min rest : ends_before min rest = true ->
  match assoc (head_text rest) PRECEDENCE with Some (_, p) => Nat.ltb p min | None => true end = true /\
  jeqb (head_text rest) (js "(") = false /\ Nat.eqb min 0 && jeqb (head_text rest) (js "?") = false.
Proof. unfold ends_before. rewrite !andb_true_iff, !negb_true_iff. tauto. Qed.

(** Without a question mark after it, what [primary] and [operators] read is the result. *)
Lemma climbed_result E min rest s lft s' m :
  st_bind (primary source E) (operators source E (S (length source)) min) s = Ok (lft, s') ->
  ends_before min rest = true -> views rest s' -> strip lft = strip m ->
  exists l s', expression_body source E min s = Ok (l, s') /\ strip l = strip m /\ views rest s'.
Proof.
  intros Hc (_ & _ & Hq)%stop_head Hv Hs. exists lft, s'. rewrite expression_body_unfold, Hc.
  rewrite st_bind_unfold, (is_text_views _ _ _ Hv), Hq. done.
Qed.

Lemma whole_views E min n rest s : node_ok n -> parts_fit E n -> min <= node_prec n -> ends_before min rest = true ->
  views (body_tokens n ++ rest) s -> length (body_tokens n ++ rest) <= length source ->
  exists m s', expression_body source E min s = Ok (m, s') /\ strip m = strip n /\ views rest s'.
Proof.
  intros Hok HE Hmin Hstop Hv Hl. pose proof (stop_head _ _ Hstop) as (Hp & Hparen & _).
  assert (fits E n -> exists m s', expression_body source E min s = Ok (m, s') /\ strip m = strip n /\ views rest s')
    as Hplain.
  { intros Hfit. destruct (climb E min n rest s Hok Hfit Hmin Hp Hparen Hv Hl) as (m & s' & Hc & Hm & Hv').
    by eapply climbed_result. }
  destruct n as [| | | | |sp c y no]; try by apply Hplain. clear Hplain.
  simpl in Hmin. assert (min = 0) as -> by lia. destruct HE as (HEc & HEy & HEn), Hok as (Hokc & _ & _).
  cbn [body_tokens] in Hv, Hl. repeat (rewrite <- app_assoc in Hv, Hl; cbn [app] in Hv, Hl).
  set (rest1 := sym "?" :: body_tokens y ++ sym ":" :: body_tokens no ++ rest) in *.
  assert (exists m s', st_bind (primary source E) (operators source E (S (length source)) 0) s = Ok (m, s') /\
    strip m = strip c /\ views rest1 s') as (m & s1 & Hc & Hm & Hv1).
  { destruct (Nat.ltb_spec (node_prec c) 1) as [Hlt|Hge].
    - destruct (guarded_primary E 1 c rest1 s Hlt HEc Hv Hl) as (m & s1 & Hpm & Hm & Hv1).
      exists m, s1. split; [|by split]. rewrite st_bind_unfold, Hpm. cbn [operators].
      rewrite st_bind_unfold. unfold st_get. by rewrite (views_text _ _ _ Hv1).
    - unfold enclose in Hv, Hl. rewrite (proj2 (Nat.ltb_ge _ _) Hge) in *.
      apply (climb E 0 c rest1 s Hokc HEc); try done. lia. }
  assert (length rest1 <= length source) as Hl1 by (rewrite length_app in Hl; lia).
  rewrite expression_body_unfold, Hc, st_bind_unfold, (is_text_views _ _ _ Hv1).
  change (Nat.eqb 0 0 && jeqb (head_text rest1) (js "?")) with true. cbv iota.
  destruct (views_take source _ _ _ Hv1) as (s2 & Hs2 & _ & Hv2). rewrite st_bind_unfold, Hs2.
  destruct (HEy (sym ":" :: body_tokens no ++ rest) s2) as (my & s3 & Hy & Hmy & Hv3); [done| exact Hv2 | |].
  { unfold tokens, enclose. simpl in *. lia. }
  rewrite st_bind_unfold, Hy. destruct (expect_views _ _ _ Hv3) as (s4 & Hs4 & Hv4). rewrite st_bind_unfold, Hs4.
  assert (length (body_tokens no ++ rest) <= length source) as Hl2.
  { unfold rest1 in Hl1. cbn [length] in Hl1. rewrite length_app in Hl1. cbn [length] in Hl1. lia. }
  destruct (HEn rest s4 Hstop Hv4 Hl2) as (mn & s5 & Hn & Hmn & Hv5).
  rewrite st_bind_unfold, Hn. eexists _, s5. split; [done|]. split; [|done]. simpl. by rewrite Hm, Hmy, Hmn.
Qed.

Section Levels.
Context (allowed : nat)
  (IH : forall n min, node_ok n -> levels min n <= allowed -> reads_node (expression source allowed) min n).
Abbreviation E := (expression source allowed).

Lemma nested_le min n k j : nested min n k <= j -> k <= j.
Proof. unfold nested. case_match; lia. Qed.

Lemma fits_levels n : node_ok n -> body_levels n <= S allowed -> 1 <= node_prec n -> fits E n.
Proof.
  induction n as [sp v|sp v|sp f args|sp o a _|sp o l IHl r _|sp c _ y _ no _]; simpl; intros Hok Hlv Hp;
    try done; [| | |lia].
  - destruct Hok as [_ Hok%node_ok_args]. apply Forall_forall. intros a Ha.
    apply IH; [by eapply Forall_forall in Ha|].
    assert (list_max (map body_levels args) <= allowed) as Hm by lia.
    apply list_max_le in Hm. rewrite Forall_fmap, Forall_forall in Hm. unfold levels, nested. simpl. by apply Hm.
  - apply IH; [done|]. unfold levels. lia.
  - destruct Hok as [Hl Hr]. split; [apply IH; [done|unfold levels; lia]|].
    unfold nested in Hlv at 1. case_match eqn:E1.
    + apply IH; [done|]. unfold levels, nested. simpl. lia.
    + apply IHl; [done|lia|]. apply Nat.ltb_ge in E1. destruct o; simpl in *; lia.
Qed.

Lemma parts_fit_levels n : node_ok n -> body_levels n <= S allowed -> parts_fit E n.
Proof.
  destruct n as [| | | | |sp c y no]; intros Hok Hlv; try (apply fits_levels; [done|done|simpl]).
  1-4: try (destruct operator; simpl); lia.
  - destruct operator; simpl; lia.
  - destruct Hok as (Hc & Hy & Hn). simpl in *. split_and!.
    + unfold nested in Hlv. destruct (Nat.ltb_spec (node_prec c) 1).
      * apply IH; [done|]. unfold levels, nested. simpl. lia.
      * apply fits_levels; [done|lia|lia].
    + apply IH; [done|]. unfold levels, nested. simpl. lia.
    + apply IH; [done|]. unfold levels, nested. simpl. lia.
Qed.
End Levels.

(** The expression parser reads every tree that it may nest deeply enough. *)
Lemma expression_views allowed n min : node_ok n -> levels min n <= allowed ->
  reads_node (expression source allowed) min n.
Proof.
  revert n min. induction allowed as [|allowed IH]; intros n min Hok Hlv.
  { exfalso. unfold levels, nested in Hlv. destruct n; simpl in Hlv; case_match; lia. }
  intros rest s Hstop Hv Hl. cbn [expression]. unfold tokens, enclose in Hv, Hl.
  unfold levels, nested in Hlv. destruct (Nat.ltb_spec (node_prec n) min) as [Hlt|Hge].
  - cbn [app] in Hv, Hl. rewrite <- app_assoc in Hv, Hl.
    destruct (primary_paren (expression source allowed) n rest s) as (m & s' & Hp & Hm & Hv'); [|exact Hv|exact Hl|].
    { apply IH; [done|]. unfold levels, nested. simpl. lia. }
    eapply climbed_result; [|done..]. rewrite st_bind_unfold, Hp. by apply operators_stop with rest.
  - apply (whole_views _ min n rest s); try done. by apply parts_fit_levels.
Qed.

End Reading.

(** ** Whole expressions *)

Lemma laid_head t ts u : laid (t :: ts) u ->
  exists a v, u = a ++ tok_text t ++ v /\ Forall (fun c => is_space c = true) a /\ tok_ok t.
Proof.
  remember (t :: ts) as l eqn:El. induction 1 as [|c l u Hc Hl IH|t' l u Ht Hs Hl IH]; [done| |].
  - destruct (IH El) as (a & v & -> & Ha & Ht). exists (c :: a), v. split; [done|]. split; [by constructor|done].
  - injection El as -> ->. exists [], u. split; [done|]. by split; [constructor|].
Qed.

Lemma laid_no_version n u : node_ok n -> laid (body_tokens n) u -> version_prefix u = None.
Proof.
  intros Hok Hl. destruct (body_opens n Hok) as (t & ts & Ht & _ & Hv). rewrite Ht in Hl.
  destruct (laid_head t ts u Hl) as (a & v & -> & Ha & Htok).
  destruct (tok_text_head t Htok) as (c & l & Hc & Hsp). rewrite Hc in *. unfold version_prefix.
  rewrite (span_while_all is_space a) by done. cbn [app]. by rewrite Hv.
Qed.

Lemma laid_length ts u : laid ts u -> length ts <= length u.
Proof.
  induction 1 as [|c ts u _ _ IH|t ts u Ht _ _ IH]; simpl; [lia|lia|].
  destruct (tok_text_head t Ht) as (c & l & -> & _). simpl. rewrite length_app. lia.
Qed.

(** The text with one blank between any two tokens. *)
Definition print (n : ExpressionNode) : jstr := join (js " ") (map tok_text (body_tokens n)).

Lemma laid_join ts : Forall tok_ok ts -> laid ts (join (js " ") (map tok_text ts)).
Proof.
  induction 1 as [|t ts Ht Hts IH]; [constructor|]. destruct ts as [|t' ts].
  - simpl. rewrite <- (app_nil_r (tok_text t)). by repeat constructor.
  - apply laid_token; [done|by destruct t|]. by apply laid_blank.
Qed.

Lemma commas_ok l : Forall (Forall tok_ok) l -> Forall tok_ok (commas l).
Proof.
  induction 1 as [|x l Hx Hl IH]; [constructor|]. rewrite commas_cons. apply Forall_app_2; [done|].
  destruct l; [constructor|]. by constructor.
Qed.

Lemma guard_passes min n ts : Forall tok_ok ts -> Forall tok_ok (enclose min n ts).
Proof.
  intros H. unfold enclose. case_match; [|done]. constructor; [done|]. apply Forall_app_2; [done|]. by repeat constructor.
Qed.

Lemma body_tokens_ok n : node_ok n -> Forall tok_ok (body_tokens n).
Proof.
  revert n. fix IH 1. intros [sp v|sp v|sp f args|sp o a|sp o l r|sp c y no]; simpl; intros Hok.
  - constructor; [|done]. by destruct v as [|[]| |].
  - constructor; [by destruct v|done].
  - destruct Hok as [_ Hok]. constructor; [by destruct f as [| | | | | |[]| | | | |]|]. constructor; [done|].
    apply Forall_app_2; [|by repeat constructor]. apply commas_ok.
    induction args as [|a args IHargs]; [constructor|]. simpl in *. destruct Hok as [Ha Hok]. constructor; auto.
  - constructor; [by destruct o|]. by apply guard_passes, IH.
  - destruct Hok as [Hl Hr]. apply Forall_app_2; [by apply guard_passes, IH|]. constructor; [by destruct o|].
    by apply guard_passes, IH.
  - destruct Hok as (Hc & Hy & Hn). apply Forall_app_2; [by apply guard_passes, IH|]. constructor; [done|].
    apply Forall_app_2; [by apply IH|]. constructor; [done|]. by apply IH.
Qed.

Lemma laid_print n : node_ok n -> laid (body_tokens n) (print n).
Proof. intros Hok. by apply laid_join, body_tokens_ok. Qed.

(** What a tree must be for the parser to read its texts: numbers and arities are
    those of the language, and the limits of the parser are kept. *)
Record readable (n : ExpressionNode) (u : jstr) : Prop := {
  rd_node : node_ok n;
  rd_levels : body_levels n <= 128;
  rd_tokens : length (body_tokens n) < 100 * 100;
  rd_source : length u <= Nat.pow 2 16;
  rd_laid : laid (body_tokens n) u;
}.

Lemma parse_reads_ok (n : ExpressionNode) (u : jstr) : readable n u ->
  exists m, parse u = Ok m /\ strip m = strip n.
Proof.
  intros [Hok Hlv Htk Hsrc Hl]. pose proof (laid_length _ _ Hl) as Hlen. unfold parse, new_parser.
  rewrite (proj2 (Nat.ltb_ge _ _) Hsrc), (laid_no_version n u Hok Hl).
  destruct (laid_views u _ u Hl [] 0 eq_refl) as (lx & ls & Hn & Hv); [simpl; lia|].
  cbn [length] in Hn. rewrite Hn. cbn [res_bind]. unfold parse_whole.
  destruct (expression_views u 128 n 0 Hok) with (rest := @nil token)
    (s := {| cursor := l_cursor ls; count := l_count ls; current := lx |}) as (m & s' & Hm & Hst & Hv').
  - unfold levels, nested. simpl. done.
  - done.
  - unfold tokens, enclose. simpl. by rewrite app_nil_r.
  - unfold tokens, enclose. simpl. by rewrite app_nil_r.
  - rewrite st_bind_unfold, Hm. inversion Hv' as [s0 Hk Ht|]; subst. rewrite st_bind_unfold. unfold st_get.
    rewrite bool_decide_true by done. by exists m.
Qed.

(** C25: The parser reads the texts of a tree as that tree: precedence and
    associativity put the parentheses, blanks between tokens are free, and
    only the positions of the nodes depend on the text. The texts are those made of
    the tokens of the tree, with parentheses only where the precedence needs them,
    numbers in their shortest notation and strings as [JSON.stringify] writes them,
    laid out with any blanks; and the tree has calls of the right arity, numbers the
    parser can produce, at most 128 nested levels and fewer than 10000 tokens, and
    the text at most 65536 characters ([readable]). *)
Theorem parse_reads_text (n : ExpressionNode) (u : jstr) : readable n u ->
  exists m, parse u = Ok m /\ strip m = strip n.
Proof. apply parse_reads_ok. Qed.

(** A number literal with the flag the parser gives it. *)
Definition num (z : Z) : ExpressionNode := Literal (mkspan 0 0) (LNum (f64_of_Z z) true).

Definition sample_tree : ExpressionNode :=
  let sp := mkspan 0 0 in
  Conditional sp
    (Binary sp Band (Binary sp Ble (Var sp Vlen) (num 200000)) (Unary sp Unot (Literal sp (LBool false))))
    (Call sp Ftier [Literal sp (LStr (js "base")); Binary sp Badd (Binary sp Bmul (Var sp Vp) (num 3)) (num 15)])
    (Call sp Ftier [Literal sp (LStr [34%N; 10%N]);
                    Binary sp Bmul (Var sp Vc) (Binary sp Bsub (num 6) (Binary sp Bsub (num 2) (Unary sp Uminus (num 1))))]).

Lemma parse_reads_text_witness :
  print sample_tree
  = js "len <= 200000 && ! false ? tier ( " ++ json_stringify (js "base") ++ js " , p * 3 + 15 ) : tier ( " ++
    json_stringify [34%N; 10%N] ++ js " , c * ( 6 - ( 2 - - 1 ) ) )" /\
  exists m, parse (print sample_tree) = Ok m /\ strip m = strip sample_tree.
Proof.
  split; [vm_compute; reflexivity|]. apply parse_reads_text.
  assert (node_ok sample_tree) as Hok.
  { assert (forall z, number_ok (f64_of_Z z) true -> node_ok (num z)) as Hnum by done.
    repeat split; (apply Hnum || done || idtac); repeat split; vm_compute; reflexivity. }
  split; [exact Hok | by apply Nat.leb_le | by apply Nat.ltb_lt | by apply Nat.leb_le | by apply laid_print].
Defined.

(** ** Compiling a printed tree *)

(** Two results agree when both are the same value or both are errors. *)
Definition agree {A} (r1 r2 : res exn A) : Prop := forall a, r1 = Ok a <-> r2 = Ok a.

#[global] Instance agree_equivalence {A} : Equivalence (@agree A).
Proof. split; unfold agree; [done | intros x y H a; by rewrite H | intros x y z H1 H2 a; by rewrite H1]. Qed.

#[global] Instance agree_bind {A B} : Proper (agree ==> pointwise_relation A agree ==> agree) (@res_bind exn A B).
Proof.
  intros r1 r2 Hr f1 f2 Hf b. rewrite !res_bind_Ok. split; intros (a & Ha & Hb); exists a;
    (split; [by apply Hr | by apply Hf]).
Qed.

Lemma agree_require a b t e : agree (requireType a t e) (requireType b t e).
Proof. intros r. unfold requireType. by case_decide. Qed.

Lemma agree_require_arg args ts i e : agree (require_arg (map strip args) ts i e) (require_arg args ts i e).
Proof.
  unfold require_arg. rewrite list_lookup_fmap. destruct (args !! i); simpl; [|done].
  destruct (ts !! i); [apply agree_require|done].
Qed.

Lemma agree_require_args args ts e : agree (require_args (map strip args) ts e) (require_args args ts e).
Proof.
  unfold require_args. revert ts. induction args as [|a args IH]; intros [|t ts]; simpl; try done.
  apply agree_bind; [apply agree_require|]. intros []. apply IH.
Qed.

Lemma agree_type_rule n ts : agree (type_rule (strip n) ts) (type_rule n ts).
Proof.
  destruct n as [sp v|sp v|sp f args|sp o a|sp o l r|sp c y no]; simpl; try done.
  - unfold call_type. destruct f;
      repeat (apply agree_bind; [apply agree_require_arg || apply agree_require_args|intros []]); done.
  - destruct ts as [|ta [|]]; try done. by apply agree_bind; [apply agree_require|].
  - destruct ts as [|ta [|tb [|]]]; try done. unfold binary_type. destruct o; try done;
      try case_decide; try done;
      repeat (apply agree_bind; [apply agree_require|intros []]); done.
  - destruct ts as [|tc [|ty [|tn [|]]]]; try done. by apply agree_bind; [apply agree_require|].
Qed.

Lemma node_children_strip n : node_children (strip n) = map strip (node_children n).
Proof. by destruct n. Qed.

Lemma agree_mapM {A} (f : ExpressionNode -> res exn A) l : Forall (fun n => agree (f (strip n)) (f n)) l ->
  agree (res_mapM f (map strip l)) (res_mapM f l).
Proof.
  induction 1 as [|n l Hn Hl IH]; [done|]. simpl. apply agree_bind; [done|]. intros a.
  by apply agree_bind; [|done].
Qed.

Lemma node_size_child n c : c ∈ node_children n -> node_size c < node_size n.
Proof.
  intros Hc. rewrite (node_size_unfold n). apply list_elem_of_In, in_split in Hc as (l1 & l2 & ->).
  rewrite map_app, list_sum_app. simpl. lia.
Qed.

(** Induction on the tree through [node_children]. *)
Lemma node_ind_children (P : ExpressionNode -> Prop) :
  (forall n, Forall P (node_children n) -> P n) -> forall n, P n.
Proof.
  intros HP n. induction n as [n IH] using (induction_ltof1 _ node_size). apply HP, Forall_forall.
  intros c Hc. by apply IH, node_size_child.
Qed.

Lemma infer_strip n : agree (infer (strip n)) (infer n).
Proof.
  induction n as [n IH] using node_ind_children. rewrite !infer_unfold, node_children_strip.
  apply agree_bind; [by apply agree_mapM|]. intros ts. apply agree_type_rule.
Qed.

Lemma postorder_strip n : postorder (strip n) = map strip (postorder n).
Proof.
  induction n as [n IH] using node_ind_children.
  rewrite (postorder_unfold (strip n)), (postorder_unfold n), node_children_strip, map_app, concat_map, !map_map.
  f_equal. f_equal. apply map_ext_Forall. exact IH.
Qed.

Lemma node_depth_strip n : node_depth (strip n) = node_depth n.
Proof.
  revert n. fix IH 1. intros [sp v|sp v|sp f args|sp o a|sp o l r|sp c y no]; simpl; rewrite ?IH; try done.
  f_equal. induction args as [|a args IHa]; [done|]. simpl. by rewrite IH, IHa.
Qed.

Lemma uses_function_strip n f : uses_function (strip n) f <-> uses_function n f.
Proof.
  unfold uses_function. rewrite postorder_strip. split.
  - intros (sp & args & (m & Hm & Hin)%list_elem_of_fmap). destruct m; simplify_eq/=. eauto.
  - intros (sp & args & Hin). exists (mkspan 0 0), (map strip args).
    by apply (list_elem_of_fmap_2 strip _ (Call sp f args)).
Qed.

(** A text of a tree that has a type and no fixed price compiles, to that tree. *)
Lemma compile_reads_text n u t : readable n u -> node_depth n <= 256 -> infer n = Ok t ->
  ~ uses_function n Ffixed ->
  exists c, compile u = Ready c /\ strip (c_ast c) = strip n.
Proof.
  intros Hr Hd Ht Hf. destruct (parse_reads_ok n u Hr) as (m & Hm & Hst).
  assert (node_depth m <= 256) as Hdm by (by rewrite <- node_depth_strip, Hst, node_depth_strip).
  assert (infer m = Ok t) as Htm by (apply infer_strip; rewrite Hst; by apply infer_strip).
  pose proof (parse_spec u) as Hs. rewrite Hm in Hs. destruct Hs as [Hw _].
  destruct (expressionDependencies_spec m Hdm) as (d & Hdep & _ & Hfn).
  unfold compile, compile_source. rewrite Hm. cbn [res_bind].
  rewrite checkExpressionTypes_infer, Htm by done. cbn [res_bind]. rewrite Hdep. cbn [res_bind].
  rewrite collect_rules_spec by done. cbn [res_bind]. unfold has_function.
  rewrite bool_decide_false; [by eexists|].
  rewrite Hfn, <- uses_function_strip, Hst. by rewrite uses_function_strip.
Qed.
