(* ===== verification/JsIntegers.v ===== *)
(** * Sums of integers in binary64

    Adding natural numbers below [2 ^ 53] is exact, so a sum of them does not
    depend on the order of its terms. *)

From stdpp Require Import base list numbers.
From Stdlib Require Import ZArith SpecFloat Lia.
From S2P Require Import Prelude.
From S2P Require Import JsString.
From S2P Require Import JsNumber.
From S2P Require Import JsNumberFacts.

#[local] Open Scope Z_scope.

(** [(m, e)] is in the form of a finite number. *)
Definition canonical_pair (m : positive) (e : Z) : Prop := fexp prec emax (Zpos (digits2_pos m) + e) = e.

Lemma round_aux_exact s m e k : 0 <= k -> canonical_pair m e -> e <= emax - prec ->
  binary_round_aux prec emax s (Zpos m * 2 ^ k) (e - k) loc_Exact = S754_finite s m e.
Proof.
  intros Hk Hc He. unfold binary_round_aux. rewrite shr_fexp_exact by done. cbn [shr_m loc_of_shr_record round_nearest_even].
  pose proof (shr_fexp_exact m e 0 ltac:(lia) Hc) as H0. rewrite Z.mul_1_r, Z.sub_0_r in H0. rewrite H0. cbn [shr_m].
  by rewrite (proj2 (Z.leb_le _ _)).
Qed.

Lemma shl_align_fst m e e' : e' <= e -> Zpos (fst (shl_align m e e')) = Zpos m * 2 ^ (e - e').
Proof.
  intros He. unfold shl_align. destruct (e' - e) as [|d|d] eqn:E; [replace (e - e') with 0 by lia; cbn; lia|lia|].
  replace (e - e') with (Zpos d) by lia. cbn [fst].
  clear. revert m. induction d as [|d IH] using Pos.peano_ind; intros m; [cbn; lia|].
  rewrite Pos.iter_succ, Pos2Z.inj_succ, Z.pow_succ_r by lia. change (Zpos (Pos.iter xO m d)~0) with (2 * Zpos (Pos.iter xO m d)).
  rewrite IH. lia.
Qed.

(** The mantissas of [mx * 2 ^ ex] and [m * 2 ^ e], seen at a common exponent. *)
Lemma round_exact s mx ex m e lo : lo <= ex -> lo <= e ->
  Zpos mx * 2 ^ (ex - lo) = Zpos m * 2 ^ (e - lo) -> canonical_pair m e -> e <= emax - prec ->
  binary_round prec emax s mx ex = S754_finite s m e.
Proof.
  intros Hx He Heq Hc Hle.
  assert (Zpos (digits2_pos mx) + ex = Zpos (digits2_pos m) + e) as Hd.
  { pose proof (Zdigits2_shift mx (ex - lo) ltac:(lia)) as D1. pose proof (Zdigits2_shift m (e - lo) ltac:(lia)) as D2.
    rewrite Heq in D1. lia. }
  unfold binary_round. rewrite Hd. unfold canonical_pair in Hc. rewrite Hc.
  destruct (Z_le_gt_dec ex e) as [Hee|Hee].
  - assert (Zpos mx = Zpos m * 2 ^ (e - ex)) as Hm.
    { replace (e - lo) with ((e - ex) + (ex - lo)) in Heq by lia. rewrite Z.pow_add_r in Heq by lia.
      assert (0 < 2 ^ (ex - lo)) by lia. nia. }
    assert (shl_align mx ex e = (mx, ex)) as -> by (unfold shl_align; by destruct (e - ex) eqn:E; [| |lia]).
    rewrite Hm. replace ex with (e - (e - ex)) at 2 by lia. apply round_aux_exact; [lia|exact Hc|done].
  - assert (shl_align mx ex e = (m, e)) as ->.
    { pose proof (shl_align_fst mx ex e ltac:(lia)) as Hf.
      assert (snd (shl_align mx ex e) = e) as Hsnd by (unfold shl_align; by destruct (e - ex) eqn:E; [lia|lia|]).
      assert (Zpos (fst (shl_align mx ex e)) = Zpos m) as Hm.
      { rewrite Hf. replace (ex - lo) with ((ex - e) + (e - lo)) in Heq by lia. rewrite Z.pow_add_r in Heq by lia.
        assert (0 < 2 ^ (e - lo)) by lia. nia. }
      destruct (shl_align mx ex e) as [a b]. cbn [fst snd] in *. by injection Hm as ->; subst. }
    pose proof (round_aux_exact s m e 0 ltac:(lia) Hc Hle) as H0. by rewrite Z.mul_1_r, Z.sub_0_r in H0.
Qed.

(** The normal form of a natural number. *)
Lemma integer_canonical z : 0 < z < 2 ^ 53 -> exists m e, f64_of_Z z = S754_finite false m e /\
  -1074 <= e <= 0 /\ Zpos m = z * 2 ^ (- e) /\ canonical_pair m e.
Proof.
  intros [Hz Hb]. destruct z as [|p|p]; [lia| |lia].
  pose proof (digits2_pos_bounds p) as [D1 D2]. set (d := Zpos (digits2_pos p)) in *.
  assert (d <= 53) as Hd.
  { destruct (Z_le_gt_dec d 53) as [|Hgt]; [done|]. assert (2 ^ 53 <= 2 ^ (d - 1)) by (apply Z.pow_le_mono_r; lia). lia. }
  assert (1 <= d) as Hd1 by (unfold d; lia).
  destruct (Zpos p * 2 ^ (53 - d)) as [|m|m] eqn:Em; [lia| |lia].
  assert (Zpos (digits2_pos m) = 53) as Hm.
  { pose proof (Zdigits2_shift p (53 - d) ltac:(lia)) as Hs. rewrite Em in Hs. cbn [Zdigits2] in Hs. unfold d in *. lia. }
  assert (canonical_pair m (d - 53)) as Hc.
  { unfold canonical_pair. rewrite Hm. unfold fexp, emin, prec, emax. lia. }
  exists m, (d - 53). split_and!; [|lia|lia|rewrite <- Em; do 2 f_equal; lia|exact Hc].
  apply (round_exact false p 0 m (d - 53) (d - 53)); [lia|lia| |exact Hc|unfold emax, prec; lia].
  rewrite <- Em. replace (0 - (d - 53)) with (53 - d) by lia. rewrite Z.sub_diag. lia.
Qed.

Lemma fadd_integers a b : 0 <= a -> 0 <= b -> a + b < 2 ^ 53 -> fadd (f64_of_Z a) (f64_of_Z b) = f64_of_Z (a + b).
Proof.
  intros Ha Hb Hs. destruct (Z.eq_dec a 0) as [->|Ha0].
  { destruct (Z.eq_dec b 0) as [->|Hb0]; [done|]. rewrite Z.add_0_l.
    by destruct (integer_canonical b ltac:(lia)) as (m & e & -> & _). }
  destruct (Z.eq_dec b 0) as [->|Hb0].
  { rewrite Z.add_0_r. by destruct (integer_canonical a ltac:(lia)) as (m & e & -> & _). }
  destruct (integer_canonical a ltac:(lia)) as (m1 & e1 & -> & He1 & Hm1 & _).
  destruct (integer_canonical b ltac:(lia)) as (m2 & e2 & -> & He2 & Hm2 & _).
  destruct (integer_canonical (a + b) ltac:(lia)) as (m & e & -> & He & Hm & Hc).
  unfold fadd, SFadd. set (ez := Z.min e1 e2). cbn [cond_Zopp].
  rewrite !shl_align_fst by (unfold ez; lia). rewrite Hm1, Hm2.
  assert (a * 2 ^ (- e1) * 2 ^ (e1 - ez) + b * 2 ^ (- e2) * 2 ^ (e2 - ez) = (a + b) * 2 ^ (- ez)) as ->.
  { rewrite <- !Z.mul_assoc, <- !Z.pow_add_r by (unfold ez; lia).
    replace (- e1 + (e1 - ez)) with (- ez) by lia. replace (- e2 + (e2 - ez)) with (- ez) by lia. lia. }
  destruct ((a + b) * 2 ^ (- ez)) as [|mx|mx] eqn:E; [lia| |lia]. cbn [binary_normalize].
  apply (round_exact false mx ez m e (Z.min ez e)); [lia|lia| |exact Hc|unfold emax, prec; lia].
  rewrite <- E, Hm, <- !Z.mul_assoc, <- !Z.pow_add_r by (unfold ez in *; lia). do 2 f_equal. lia.
Qed.

Lemma integer_negative z m e : 0 < z < 2 ^ 53 -> f64_of_Z z = S754_finite false m e -> -1074 <= e <= 0 ->
  Zpos m = z * 2 ^ (- e) -> canonical_pair m e -> f64_of_Z (- z) = S754_finite true m e.
Proof.
  intros Hz _ He Hm Hc. destruct z as [|p|p]; [lia| |lia].
  apply (round_exact true p 0 m e e); [lia|lia| |exact Hc|unfold emax, prec; lia].
  rewrite Z.sub_diag, Hm. replace (0 - e) with (- e) by lia. lia.
Qed.

Lemma fsub_integers a b : 0 <= a < 2 ^ 53 -> 0 <= b < 2 ^ 53 -> fsub (f64_of_Z a) (f64_of_Z b) = f64_of_Z (a - b).
Proof.
  intros Ha Hb. destruct (Z.eq_dec b 0) as [->|Hb0].
  { rewrite Z.sub_0_r. destruct (Z.eq_dec a 0) as [->|Ha0]; [done|].
    by destruct (integer_canonical a ltac:(lia)) as (m & e & -> & _). }
  destruct (integer_canonical b ltac:(lia)) as (m2 & e2 & Eb & He2 & Hm2 & Hc2).
  destruct (Z.eq_dec a 0) as [->|Ha0]; [by rewrite Z.sub_0_l, (integer_negative b m2 e2), Eb by (done || lia)|]. rewrite Eb.
  destruct (integer_canonical a ltac:(lia)) as (m1 & e1 & -> & He1 & Hm1 & _).
  unfold fsub, SFsub. set (ez := Z.min e1 e2). cbn [cond_Zopp].
  rewrite !shl_align_fst by (unfold ez; lia). rewrite Hm1, Hm2.
  assert (a * 2 ^ (- e1) * 2 ^ (e1 - ez) - b * 2 ^ (- e2) * 2 ^ (e2 - ez) = (a - b) * 2 ^ (- ez)) as ->.
  { rewrite <- !Z.mul_assoc, <- !Z.pow_add_r by (unfold ez; lia).
    replace (- e1 + (e1 - ez)) with (- ez) by lia. replace (- e2 + (e2 - ez)) with (- ez) by lia. lia. }
  assert (0 < 2 ^ (- ez)) as Hpos by (apply Z.pow_pos_nonneg; unfold ez; lia).
  destruct (Z.lt_trichotomy a b) as [Hlt|[->|Hgt]].
  - destruct (integer_canonical (b - a) ltac:(lia)) as (m & e & Ed & He & Hm & Hc).
    replace (a - b) with (- (b - a)) by lia. rewrite (integer_negative (b - a) m e) by (done || lia).
    destruct (- (b - a) * 2 ^ (- ez)) as [|mx|mx] eqn:E; [nia|nia|]. cbn [binary_normalize].
    apply (round_exact true mx ez m e (Z.min ez e)); [lia|lia| |exact Hc|unfold emax, prec; lia].
    replace (Zpos mx) with ((b - a) * 2 ^ (- ez)) by lia.
    rewrite Hm, <- !Z.mul_assoc, <- !Z.pow_add_r by (unfold ez in *; lia). do 2 f_equal. lia.
  - by rewrite Z.sub_diag.
  - destruct (integer_canonical (a - b) ltac:(lia)) as (m & e & -> & He & Hm & Hc).
    destruct ((a - b) * 2 ^ (- ez)) as [|mx|mx] eqn:E; [nia| |nia]. cbn [binary_normalize].
    apply (round_exact false mx ez m e (Z.min ez e)); [lia|lia| |exact Hc|unfold emax, prec; lia].
    rewrite <- E, Hm, <- !Z.mul_assoc, <- !Z.pow_add_r by (unfold ez in *; lia). do 2 f_equal. lia.
Qed.

(** The sum of a list of naturals, as a number. *)
Definition zsum (l : list Z) : Z := foldr Z.add 0 l.

Lemma zsum_cons x l : zsum (x :: l) = x + zsum l.
Proof. done. Qed.

Lemma zsum_app l1 l2 : zsum (l1 ++ l2) = zsum l1 + zsum l2.
Proof. unfold zsum. induction l1 as [|x l1 IH]; simpl; lia. Qed.

Lemma zsum_nonneg l : Forall (fun z => 0 <= z) l -> 0 <= zsum l.
Proof. induction 1; simpl; lia. Qed.

Lemma zsum_perm l1 l2 : l1 ≡ₚ l2 -> zsum l1 = zsum l2.
Proof. induction 1; simpl; lia. Qed.

#[export] Instance zsum_proper : Proper ((≡ₚ) ==> (=)) zsum.
Proof. intros l1 l2. apply zsum_perm. Qed.

Lemma sum_integers_from a l : 0 <= a -> Forall (fun z => 0 <= z) l -> a + zsum l < 2 ^ 53 ->
  foldl fadd (f64_of_Z a) (f64_of_Z <$> l) = f64_of_Z (a + zsum l).
Proof.
  intros Ha Hl. revert a Ha. induction Hl as [|z l Hz Hl IH]; intros a Ha Hs; simpl in *; [f_equal; lia|].
  pose proof (zsum_nonneg l Hl). rewrite fadd_integers by lia. rewrite IH by lia. f_equal. lia.
Qed.

Lemma sum_integers l : Forall (fun z => 0 <= z) l -> zsum l < 2 ^ 53 ->
  foldl fadd fzero (f64_of_Z <$> l) = f64_of_Z (zsum l).
Proof. intros Hl Hs. by apply (sum_integers_from 0). Qed.
