(* ===== verification/JsCollections.v ===== *)
(** * Maps, sets and sorting

    [Map] and [Set] keep the order of insertion: they are association lists and
    lists.  [Array.prototype.sort] is stable, so it is insertion sort.  The
    comparison of texts in the user's locale is the class [Collation]. *)

From stdpp Require Import base list sets sorting.
From Stdlib Require Import ZArith Lia.
From S2P Require Import Prelude.
From S2P Require Import JsString.
From S2P Require Import JsNumber.
From S2P Require Import JsIntegers.

(** [left.localeCompare(right)] *)
Class Collation := localeCompare : jstr -> jstr -> comparison.

(** Code unit order, a collation of texts without accents or capitals. *)
Definition code_unit_collation : Collation := fun a b =>
  if jltb a b then Lt else if jltb b a then Gt else Eq.

(** ** Maps *)

Section Maps.
Context {K V : Type} `{EqDecision K}.

(** [map.get(key)] *)
Fixpoint mget (k : K) (m : list (K * V)) : option V :=
  match m with
  | [] => None
  | (k', v) :: m' => if decide (k = k') then Some v else mget k m'
  end.

(** [map.set(key, value)] *)
Fixpoint mset (k : K) (v : V) (m : list (K * V)) : list (K * V) :=
  match m with
  | [] => [(k, v)]
  | (k', v') :: m' => if decide (k = k') then (k', v) :: m' else (k', v') :: mset k v m'
  end.

Lemma mget_mset k v m : mget k (mset k v m) = Some v.
Proof.
  induction m as [|[k' v'] m IH]; simpl; [by rewrite decide_True|].
  destruct (decide (k = k')) as [->|]; simpl; [by rewrite decide_True|by rewrite decide_False].
Qed.

Lemma mget_mset_ne k k' v m : k <> k' -> mget k (mset k' v m) = mget k m.
Proof.
  intros Hne. induction m as [|[k2 v2] m IH]; simpl; [by rewrite decide_False|].
  destruct (decide (k' = k2)) as [<-|]; simpl; [by rewrite !decide_False by done|]. by rewrite IH.
Qed.

Lemma mget_None k m : mget k m = None <-> k ∉ m.*1.
Proof.
  induction m as [|[k' v'] m IH]; simpl; [split; [intros _; apply not_elem_of_nil|done]|].
  destruct (decide (k = k')) as [->|Hne]; [set_solver|]. rewrite IH. set_solver.
Qed.

Lemma mget_elem k v m : mget k m = Some v -> (k, v) ∈ m.
Proof. induction m as [|[k' v'] m IH]; simpl; [done|]. destruct (decide (k = k')) as [->|]; [intros [= ->]; by left|]. intros H. right. by apply IH. Qed.

Lemma mget_nodup k v m : NoDup m.*1 -> (k, v) ∈ m -> mget k m = Some v.
Proof.
  induction m as [|[k' v'] m IH]; intros Hnd Hin; [by apply elem_of_nil in Hin|]. apply NoDup_cons in Hnd as [Hk Hnd]. simpl.
  apply elem_of_cons in Hin as [[= -> ->]|Hin]; [by rewrite decide_True|]. rewrite decide_False; [by apply IH|].
  intros ->. apply Hk. by apply (list_elem_of_fmap_2 fst _ (k', v)).
Qed.

Lemma mset_keys k v m : (mset k v m).*1 = if decide (k ∈ m.*1) then m.*1 else m.*1 ++ [k].
Proof.
  induction m as [|[k' v'] m IH]; [done|]. cbn [mset]. destruct (decide (k = k')) as [->|Hne].
  - rewrite decide_True by (by left). done.
  - cbn [fmap list_fmap fst] in *. rewrite IH. destruct (decide (k ∈ m.*1)).
    + by rewrite decide_True by (by right).
    + rewrite decide_False; [done|]. set_solver.
Qed.

Lemma mset_nodup k v m : NoDup m.*1 -> NoDup (mset k v m).*1.
Proof.
  intros Hnd. rewrite mset_keys. case_decide; [done|]. apply NoDup_app. split_and!; [done|set_solver|apply NoDup_singleton].
Qed.

Lemma mset_elem_key k k' v m : k' ∈ (mset k v m).*1 <-> k' = k \/ k' ∈ m.*1.
Proof. rewrite mset_keys. case_decide; set_solver. Qed.
End Maps.

(** ** Sets *)

(** [[...new Set(list)]] *)
Definition uniq {A} `{EqDecision A} (l : list A) : list A :=
  foldl (fun s x => if decide (x ∈ s) then s else s ++ [x]) [] l.

Lemma uniq_from {A} `{EqDecision A} (l s : list A) : NoDup s ->
  NoDup (foldl (fun s x => if decide (x ∈ s) then s else s ++ [x]) s l) /\
  forall x, x ∈ foldl (fun s x => if decide (x ∈ s) then s else s ++ [x]) s l <-> x ∈ s \/ x ∈ l.
Proof.
  revert s. induction l as [|y l IH]; intros s Hs; simpl; [split; [done|set_solver]|].
  destruct (IH (if decide (y ∈ s) then s else s ++ [y])) as [Hnd Hel].
  - case_decide; [done|]. apply NoDup_app. split_and!; [done|set_solver|apply NoDup_singleton].
  - split; [done|]. intros x. rewrite Hel. case_decide; set_solver.
Qed.

Lemma uniq_nodup {A} `{EqDecision A} (l : list A) : NoDup (uniq l).
Proof. apply uniq_from, NoDup_nil_2. Qed.

Lemma uniq_elem {A} `{EqDecision A} (l : list A) x : x ∈ uniq l <-> x ∈ l.
Proof. unfold uniq. rewrite (proj2 (uniq_from l [] NoDup_nil_2)). set_solver. Qed.

(** ** Sums by key: [map.set(key, update(map.get(key) ?? initial))] for every item *)

Section Group.
Context {X K V : Type} `{EqDecision K} (key : X -> K) (initial : X -> V) (update : X -> V -> V).

Definition add_item (m : list (K * V)) (x : X) : list (K * V) :=
  mset (key x) (update x (default (initial x) (mget (key x) m))) m.

Definition group (m : list (K * V)) (l : list X) : list (K * V) := foldl add_item m l.

(** The items of a key, summed from the value it has. *)
Definition item_sum (k : K) (start : option V) (l : list X) : option V :=
  foldl (fun v x => if decide (key x = k) then Some (update x (default (initial x) v)) else v) start l.

Lemma group_get k m l : mget k (group m l) = item_sum k (mget k m) l.
Proof.
  revert m. induction l as [|x l IH]; intros m; [done|]. cbn [group foldl item_sum]. fold (group (add_item m x) l).
  rewrite IH. unfold item_sum. cbn [foldl]. f_equal. unfold add_item. case_decide as Hk; [by rewrite <- Hk, mget_mset|].
  by apply mget_mset_ne.
Qed.

Lemma group_keys m l : (group m l).*1 = foldl (fun s x => if decide (x ∈ s) then s else s ++ [x]) (m.*1) (key <$> l).
Proof.
  revert m. induction l as [|x l IH]; intros m; [done|]. cbn [group foldl fmap list_fmap]. fold (group (add_item m x) l).
  rewrite IH. f_equal. apply mset_keys.
Qed.

Lemma group_nodup l : NoDup (group [] l).*1.
Proof. rewrite group_keys. apply uniq_from, NoDup_nil_2. Qed.

Lemma group_elem_key k l : k ∈ (group [] l).*1 <-> exists x, x ∈ l /\ key x = k.
Proof.
  rewrite group_keys, (proj2 (uniq_from _ _ NoDup_nil_2)), list_elem_of_fmap. set_solver.
Qed.
End Group.

(** ** Sorting *)

Section Sort.
Context {A : Type} (cmp : A -> A -> comparison).

Fixpoint insert_sorted (x : A) (l : list A) : list A :=
  match l with
  | [] => [x]
  | y :: l' => match cmp x y with Gt => y :: insert_sorted x l' | _ => x :: l end
  end.

(** [list.sort(cmp)] *)
Definition sort_by (l : list A) : list A := foldr insert_sorted [] l.

Lemma insert_sorted_perm x l : insert_sorted x l ≡ₚ x :: l.
Proof. induction l as [|y l IH]; [done|]. simpl. case_match; try done. rewrite IH. apply Permutation_swap. Qed.

Lemma sort_by_perm l : sort_by l ≡ₚ l.
Proof. induction l as [|x l IH]; [done|]. simpl. by rewrite insert_sorted_perm, IH. Qed.

Lemma sort_by_elem x l : x ∈ sort_by l <-> x ∈ l.
Proof. by rewrite sort_by_perm. Qed.

Lemma sort_by_length l : length (sort_by l) = length l.
Proof. apply Permutation_length, sort_by_perm. Qed.

(** What the comparison orders, the sorted list orders. *)
Lemma insert_sorted_sorted (R : relation A) x l : Transitive R ->
  (forall y, y ∈ l -> match cmp x y with Gt => R y x | _ => R x y end) ->
  StronglySorted R l -> StronglySorted R (insert_sorted x l).
Proof.
  intros HR Hx Hl. induction Hl as [|y l Hl IH Hy]; [by repeat constructor|]. simpl.
  pose proof (Hx y ltac:(left)) as Hxy. assert (R x y -> StronglySorted R (x :: y :: l)) as Hhead.
  { intros Hr. constructor; [by constructor|]. constructor; [done|]. eapply Forall_impl; [exact Hy|]. intros z Hz. by etransitivity. }
  destruct (cmp x y); [by apply Hhead..|]. constructor; [apply IH; intros z Hz; apply Hx; by right|].
  rewrite insert_sorted_perm. by constructor.
Qed.

Lemma sort_by_sorted (R : relation A) l : Transitive R ->
  (forall x y, x ∈ l -> y ∈ l -> match cmp x y with Gt => R y x | _ => R x y end) -> StronglySorted R (sort_by l).
Proof.
  intros HR. induction l as [|x l IH]; intros Hl; [constructor|]. simpl. apply insert_sorted_sorted; [done| |].
  - intros y Hy. rewrite sort_by_elem in Hy. exact (Hl x y (list_elem_of_here _ _) (list_elem_of_further _ _ _ Hy)).
  - apply IH. intros y z Hy Hz. exact (Hl y z (list_elem_of_further _ _ _ Hy) (list_elem_of_further _ _ _ Hz)).
Qed.
End Sort.

(** In a sorted list the elements that are taken precede the others. *)
Lemma sorted_take {A} (R : relation A) n (l : list A) x y : StronglySorted R l -> x ∈ take n l -> y ∈ drop n l -> R x y.
Proof.
  intros Hl. revert n. induction Hl as [|z l Hl IH Hz]; intros n; [rewrite take_nil; by intros ?%elem_of_nil|].
  destruct n as [|n]; [by intros ?%elem_of_nil|]. cbn [take drop]. intros [->|Hx]%elem_of_cons Hy; [|by eapply IH].
  rewrite Forall_forall in Hz. apply Hz. rewrite <- (take_drop n l). apply elem_of_app. by right.
Qed.

(** The sign of [x - y]; [NaN] counts as zero. *)
Definition compare_by (x y : f64) : comparison :=
  let d := fsub x y in if fltb d fzero then Lt else if fltb fzero d then Gt else Eq.

(** [a || b] on the results of comparisons. *)
Definition then_by (a b : comparison) : comparison := match a with Eq => b | _ => a end.

Lemma compare_by_integers a b : (0 <= a < 2 ^ 53)%Z -> (0 <= b < 2 ^ 53)%Z -> compare_by (f64_of_Z a) (f64_of_Z b) = (a ?= b)%Z.
Proof.
  intros Ha Hb. unfold compare_by. rewrite fsub_integers by done.
  destruct (Z.compare_spec a b) as [->|Hlt|Hgt].
  - by rewrite Z.sub_diag.
  - destruct (integer_canonical (b - a) ltac:(lia)) as (m & e & Ed & He & Hm & Hc).
    replace (a - b)%Z with (- (b - a))%Z by lia. by rewrite (integer_negative (b - a) m e) by (done || lia).
  - by destruct (integer_canonical (a - b) ltac:(lia)) as (m & e & -> & _).
Qed.

(** A map built again from the entries of a map. *)
Lemma mget_rebuild {K V W} `{EqDecision K} (f : V -> W) (m : list (K * V)) k : NoDup m.*1 ->
  mget k (foldl (fun acc e => mset (fst e) (f (snd e)) acc) [] m) = f <$> mget k m.
Proof.
  assert (forall acc, NoDup m.*1 -> mget k (foldl (fun acc e => mset (fst e) (f (snd e)) acc) acc m)
    = match mget k m with Some v => Some (f v) | None => mget k acc end) as H.
  { induction m as [|[k' v] m IH]; intros acc Hnd; [done|]. rewrite fmap_cons in Hnd. apply NoDup_cons in Hnd as [Hk Hnd].
    cbn [foldl fst snd mget]. rewrite IH by done. cbn [fst] in Hk. case_decide as Hkk.
    - subst k'. rewrite (proj2 (mget_None k m)) by done. apply mget_mset.
    - by rewrite mget_mset_ne by done. }
  intros Hnd. rewrite H by done. by destruct (mget k m).
Qed.
