(* ===== verification/PlaygroundStorage.v ===== *)
(** * Playground storage, parameters and state

    Model of [features/playground/lib/storage/] ([storage.ts], [storage-schema.ts]),
    [lib/parameters/playground-parameters.ts], [lib/state/playground-state-utils.ts],
    [lib/options/playground-option-utils.ts] and of the hook
    [hooks/use-playground-state.ts], which keeps settings and conversation in
    [localStorage].

    A function that may throw returns an option; the [try] blocks of the source
    catch every exception.  Whether [setItem] accepts a text is the parameter
    [accepts]: it throws when the quota of the origin is used up.  The clock is a
    sequence of readings, three per message. *)

From stdpp Require Import base list gmap numbers strings.
From Stdlib Require Import ZArith SpecFloat Lia.
From S2P Require Import Prelude.
From S2P Require Import JsString.
From S2P Require Import JsNumber.
From S2P Require Import JsNumberFacts.
From S2P Require Import JsValue.
From S2P Require Import JsJson.
From S2P Require Import JsJsonText.
From S2P Require Import JsSchema.
From S2P Require Import JsRegExp.
From S2P Require Import JsCollections.
From S2P Require Import PlaygroundMessages.

Module Storage.
Import Playground.

(** ** constants.ts *)

Definition DEFAULT_GROUP : jstr := js "default".

Definition literal (text : string) : f64 := number_of_string (js text).

Definition DEFAULT_CONFIG : PlaygroundConfig :=
  {| model := js "gpt-4o"; group := DEFAULT_GROUP; temperature := literal "0.7"; top_p := literal "1"; max_tokens := literal "4096";
     frequency_penalty := fzero; presence_penalty := fzero; seed := None; stream := true |}.

Definition DEFAULT_PARAMETER_ENABLED : ParameterEnabled :=
  {| en_temperature := true; en_top_p := true; en_max_tokens := false; en_frequency_penalty := true;
     en_presence_penalty := true; en_seed := false |}.

Definition CONFIG_KEY : jstr := js "playground_config".
Definition MESSAGES_KEY : jstr := js "playground_messages".
Definition PARAMETER_ENABLED_KEY : jstr := js "playground_parameter_enabled".

(** ** storage-schema.ts *)

Definition STORAGE_VERSION : Z := 1.
Definition MAX_STORED_MESSAGES : nat := 100.
Definition MAX_STORED_MESSAGES_BYTES : N := 1024 * 1024.
Definition MAX_LOADED_MESSAGES_CHARS : N := 120000.
Definition MAX_LOADED_MESSAGE_CHARS : N := 40000.

Definition optional_member (name : string) (s : schema) : jstr * schema := (js name, ZOptional s).

Definition playgroundConfigSchema : schema := ZObject
  [optional_member "model" ZString; optional_member "group" ZString; optional_member "temperature" ZNumber;
   optional_member "top_p" ZNumber; optional_member "max_tokens" ZNumber; optional_member "frequency_penalty" ZNumber;
   optional_member "presence_penalty" ZNumber; optional_member "seed" (ZNullable ZNumber); optional_member "stream" ZBoolean].

Definition parameterEnabledSchema : schema := ZObject
  [optional_member "temperature" ZBoolean; optional_member "top_p" ZBoolean; optional_member "max_tokens" ZBoolean;
   optional_member "frequency_penalty" ZBoolean; optional_member "presence_penalty" ZBoolean; optional_member "seed" ZBoolean].

Definition messageRoleSchema : schema := ZEnum [js "user"; js "assistant"; js "system"].
Definition messageStatusSchema : schema := ZEnum [js "loading"; js "streaming"; js "complete"; js "error"].
Definition messageVersionSchema : schema := ZObject [(js "id", ZString); (js "content", ZString)].
Definition sourceSchema : schema := ZObject [(js "href", ZString); (js "title", ZString)].

Definition reasoningSchema : schema := ZObject
  [(js "content", ZString); (js "duration", ZNumber); optional_member "startedAt" ZNumber;
   optional_member "completedAt" ZNumber; optional_member "durationMs" ZNumber].

Definition messageSchema : schema := ZObject
  [(js "key", ZString); (js "from", messageRoleSchema); (js "versions", ZArray 1 messageVersionSchema);
   optional_member "createdAt" ZNumber; optional_member "startedAt" ZNumber; optional_member "completedAt" ZNumber;
   optional_member "durationMs" ZNumber; optional_member "sources" (ZArray 0 sourceSchema);
   optional_member "reasoning" reasoningSchema; optional_member "isReasoningStreaming" ZBoolean;
   optional_member "isReasoningComplete" ZBoolean; optional_member "isContentComplete" ZBoolean;
   optional_member "status" messageStatusSchema; optional_member "errorCode" (ZNullable ZString)].

Definition messagesSchema : schema := ZArray 0 messageSchema.

(** ** types.ts: the objects behind the records *)

Definition role_text (r : MessageRole) : jstr :=
  match r with User => js "user" | Assistant => js "assistant" | System => js "system" end.

Definition status_text (s : MessageStatus) : jstr :=
  match s with Loading => js "loading" | Streaming => js "streaming" | Complete => js "complete" | Error => js "error" end.

Definition version_value (v : MessageVersion) : jsval :=
  members [(js "id", Some (JStr (v_id v))); (js "content", Some (JStr (v_content v)))].

Definition source_value (s : jstr * jstr) : jsval :=
  members [(js "href", Some (JStr (fst s))); (js "title", Some (JStr (snd s)))].

Definition reasoning_value (r : Reasoning) : jsval :=
  members [(js "content", Some (JStr (r_content r))); (js "duration", Some (JNum (r_duration r)));
           (js "startedAt", JNum <$> r_startedAt r); (js "completedAt", JNum <$> r_completedAt r);
           (js "durationMs", JNum <$> r_durationMs r)].

(** A member that is [undefined] has no text, as one that is absent. *)
Definition defined (v : jsval) : option jsval := match v with JUndefined => None | _ => Some v end.

Definition message_fields (m : Message) : list (jstr * option jsval) :=
  [(js "key", Some (JStr (key m))); (js "from", Some (JStr (role_text (from m))));
   (js "versions", Some (JArr (version_value <$> versions m)));
   (js "createdAt", JNum <$> createdAt m); (js "startedAt", JNum <$> startedAt m);
   (js "completedAt", JNum <$> completedAt m); (js "durationMs", JNum <$> durationMs m);
   (js "sources", (fun l => JArr (source_value <$> l)) <$> sources m);
   (js "reasoning", reasoning_value <$> reasoning m);
   (js "isReasoningStreaming", JBool <$> isReasoningStreaming m);
   (js "isReasoningComplete", JBool <$> isReasoningComplete m);
   (js "isContentComplete", JBool <$> isContentComplete m);
   (js "status", (fun s => JStr (status_text s)) <$> status m);
   (js "errorCode", defined (errorCode m))].

Definition message_value (m : Message) : jsval := members (message_fields m).
Definition messages_value (ms : list Message) : jsval := JArr (message_value <$> ms).

Definition config_value (c : PlaygroundConfig) : jsval :=
  members [(js "model", Some (JStr (model c))); (js "group", Some (JStr (group c)));
           (js "temperature", Some (JNum (temperature c))); (js "top_p", Some (JNum (top_p c)));
           (js "max_tokens", Some (JNum (max_tokens c))); (js "frequency_penalty", Some (JNum (frequency_penalty c)));
           (js "presence_penalty", Some (JNum (presence_penalty c)));
           (js "seed", Some (match seed c with Some x => JNum x | None => JNull end)); (js "stream", Some (JBool (stream c)))].

Definition enabled_value (e : ParameterEnabled) : jsval :=
  members [(js "temperature", Some (JBool (en_temperature e))); (js "top_p", Some (JBool (en_top_p e)));
           (js "max_tokens", Some (JBool (en_max_tokens e))); (js "frequency_penalty", Some (JBool (en_frequency_penalty e)));
           (js "presence_penalty", Some (JBool (en_presence_penalty e))); (js "seed", Some (JBool (en_seed e)))].

(** Reading a member of a value that the schema has accepted: its type is known. *)
Definition member_get (v : jsval) (name : string) : jsval :=
  match v with JObj entries => obj_get entries (js name) | _ => JUndefined end.

Definition text_member (v : jsval) : jstr := match v with JStr s => s | _ => [] end.
Definition number_member (v : jsval) : option f64 := match v with JNum x => Some x | _ => None end.
Definition bool_member (v : jsval) : option bool := match v with JBool b => Some b | _ => None end.
Definition items_member (v : jsval) : list jsval := match v with JArr items => items | _ => [] end.

Definition role_member (v : jsval) : MessageRole :=
  if jeqb (text_member v) (role_text User) then User
  else if jeqb (text_member v) (role_text Assistant) then Assistant else System.

Definition status_member (v : jsval) : option MessageStatus :=
  List.find (fun s => match v with JStr t => jeqb t (status_text s) | _ => false end) [Loading; Streaming; Complete; Error].

Definition reasoning_member (v : jsval) : option Reasoning :=
  match v with
  | JObj _ => Some {| r_content := text_member (member_get v "content"); r_duration := default fzero (number_member (member_get v "duration"));
                      r_startedAt := number_member (member_get v "startedAt"); r_completedAt := number_member (member_get v "completedAt");
                      r_durationMs := number_member (member_get v "durationMs") |}
  | _ => None
  end.

Definition sources_member (v : jsval) : option (list (jstr * jstr)) :=
  match v with
  | JArr items => Some ((fun s => (text_member (member_get s "href"), text_member (member_get s "title"))) <$> items)
  | _ => None
  end.

Definition message_of (v : jsval) : Message :=
  {| key := text_member (member_get v "key"); from := role_member (member_get v "from");
     versions := (fun w => {| v_id := text_member (member_get w "id"); v_content := text_member (member_get w "content") |}) <$> items_member (member_get v "versions");
     createdAt := number_member (member_get v "createdAt"); startedAt := number_member (member_get v "startedAt");
     completedAt := number_member (member_get v "completedAt"); durationMs := number_member (member_get v "durationMs");
     sources := sources_member (member_get v "sources"); reasoning := reasoning_member (member_get v "reasoning");
     isReasoningStreaming := bool_member (member_get v "isReasoningStreaming");
     isReasoningComplete := bool_member (member_get v "isReasoningComplete");
     isContentComplete := bool_member (member_get v "isContentComplete");
     status := status_member (member_get v "status"); errorCode := member_get v "errorCode" |}.

Definition messages_of (v : jsval) : list Message := message_of <$> items_member v.

(** ** storage.ts: reading and writing *)

(** The items of [localStorage]. *)
Abbreviation local_storage := (gmap jstr jstr).

(** [JSON.parse(saved)]; [null] when there is no text. *)
Definition readStoredValue (s : local_storage) (k : jstr) : option jsval :=
  match s !! k with
  | None | Some [] => Some JNull
  | Some saved => json_parse saved
  end.

(** With the storage, from which a text that is too long is removed. *)
Definition readStoredMessagesValue (s : local_storage) : option jsval * local_storage :=
  match s !! MESSAGES_KEY with
  | None | Some [] => (Some JNull, s)
  | Some saved =>
      if (MAX_STORED_MESSAGES_BYTES <? N.of_nat (length saved))%N then (Some JNull, delete MESSAGES_KEY s)
      else (json_parse saved, s)
  end.

Definition unwrapStoredValue (value : jsval) : jsval :=
  match value with
  | JObj entries =>
      if existsb (fun e => jeqb (fst e) (js "version")) entries && existsb (fun e => jeqb (fst e) (js "data")) entries
      then obj_get entries (js "data") else value
  | _ => value
  end.

Definition envelope (data : jsval) : jsval :=
  members [(js "version", Some (JNum (f64_of_Z STORAGE_VERSION))); (js "data", defined data)].

Section Writing.
Context (accepts : local_storage -> jstr -> jstr -> bool).

(** [localStorage.setItem] *)
Definition setItem (s : local_storage) (k text : jstr) : option local_storage :=
  if accepts s k text then Some (<[k := text]> s) else None.

Definition writeStoredValue (s : local_storage) (k : jstr) (data : jsval) : option local_storage :=
  text ← json_stringify_value [] (envelope data);
  setItem s k text.
End Writing.

(** ** storage.ts: limits *)

Definition trimMessages (messages : list Message) : list Message :=
  if Nat.leb (length messages) MAX_STORED_MESSAGES then messages
  else drop (length messages - MAX_STORED_MESSAGES) messages.

Definition text_size (s : jstr) : N := N.of_nat (length s).

Definition getMessageSize (m : Message) : N :=
  (foldl (fun total v => total + text_size (v_content v)) 0 (versions m)
   + match reasoning m with Some r => text_size (r_content r) | None => 0 end)%N.

Definition TRUNCATED_CONTENT_SUFFIX : jstr := [10%N; 10%N] ++ js "[...]".

Definition truncateText (text : jstr) (maxLength : N) : jstr :=
  if (text_size text <=? maxLength)%N then text
  else if (maxLength <=? text_size TRUNCATED_CONTENT_SUFFIX)%N then take (N.to_nat maxLength) text
  else take (N.to_nat (maxLength - text_size TRUNCATED_CONTENT_SUFFIX)) text ++ TRUNCATED_CONTENT_SUFFIX.

Definition MIN_PREFIX_COLLAPSE_LENGTH : N := 2000.
Definition MIN_REPEATED_SECTION_COUNT : nat := 3.

Definition line_terminator (c : N) : bool := ((c =? 10) || (c =? 13) || (c =? 8232) || (c =? 8233))%N.

(** [$] with the flag [m] *)
Definition line_limit : RegExp.pattern := fun u =>
  match u with c :: _ => if line_terminator c then [([], u)] else [] | [] => [([], [])] end.

(** [p{0,more}], the most first, and [p{lo,lo+more}], where [p] has no captures. *)
Fixpoint up_to (more : nat) (p : RegExp.pattern) : RegExp.pattern :=
  match more with
  | O => fun u => [([], u)]
  | S more' => RegExp.either (RegExp.seq p (up_to more' p)) (fun u => [([], u)])
  end.

Definition repeated (lo more : nat) (p : RegExp.pattern) : RegExp.pattern := Nat.iter lo (RegExp.seq p) (up_to more p).

(** [/^#{2,6}\s+\d+\.\s+.+$/gm] after the [^] *)
Definition SECTION_HEADING_LINE_PATTERN : RegExp.pattern :=
  RegExp.in_order [repeated 2 4 (RegExp.chars (js "#")); RegExp.plus is_space; RegExp.digits; RegExp.chars (js ".");
                   RegExp.plus is_space; RegExp.plus (fun c => negb (line_terminator c)); line_limit].

Record SectionOccurrence := { heading : jstr; occurs_at : nat }.

(** The matches from [index] on; [line_start] says whether [^] holds there.  A match
    ends in a line, so it does not hold behind one. *)
Fixpoint section_matches (turns : nat) (line_start : bool) (index : nat) (u : jstr) : list SectionOccurrence :=
  match turns with
  | O => []
  | S turns' =>
      match (if line_start then RegExp.first SECTION_HEADING_LINE_PATTERN u else None) with
      | Some (_, rest) =>
          let n := (length u - length rest)%nat in
          {| heading := take n u; occurs_at := index |} :: section_matches turns' false (index + n) rest
      | None => match u with [] => [] | c :: u' => section_matches turns' (line_terminator c) (S index) u' end
      end
  end.

Definition getSectionOccurrences (text : jstr) : list SectionOccurrence :=
  section_matches (S (length text)) true 0 text.

Definition getHeadingCounts (occurrences : list SectionOccurrence) : list (jstr * nat) :=
  foldl (fun counts o => mset (heading o) (S (default O (mget (heading o) counts))) counts) [] occurrences.

(** The loop from the last occurrence to the first: the indexes pushed and the
    headings seen. *)
Fixpoint last_repeated (counts : list (jstr * nat)) (backwards : list SectionOccurrence) (seen : list jstr) : list nat :=
  match backwards with
  | [] => []
  | o :: rest =>
      if Nat.ltb (default O (mget (heading o) counts)) MIN_REPEATED_SECTION_COUNT || existsb (jeqb (heading o)) seen
      then last_repeated counts rest seen
      else occurs_at o :: last_repeated counts rest (heading o :: seen)
  end.

(** [None] is [-1]. *)
Definition findLastRepeatedSectionRunStart (text : jstr) : option nat :=
  let occurrences := getSectionOccurrences text in
  match last_repeated (getHeadingCounts occurrences) (rev occurrences) [] with
  | [] => None
  | i :: more => Some (foldl Nat.min i more)
  end.

Definition collapseRepeatedSectionSnapshots (text : jstr) : jstr :=
  if (text_size text <? MIN_PREFIX_COLLAPSE_LENGTH)%N then text
  else match findLastRepeatedSectionRunStart text with
       | None => text
       | Some start => drop start text
       end.

(** ** storage.ts: messages as they are loaded *)

Definition set_content (v : MessageVersion) (c : jstr) : MessageVersion := {| v_id := v_id v; v_content := c |}.

(** A version with whether it is a new object. *)
Definition normalize_version (v : MessageVersion) : bool * MessageVersion :=
  let collapsedContent := collapseRepeatedSectionSnapshots (v_content v) in
  let content := truncateText collapsedContent MAX_LOADED_MESSAGE_CHARS in
  if jeqb content (v_content v) && jeqb collapsedContent (v_content v) then (false, v)
  else (true, set_content v content).

Definition truncate_reasoning (r : Reasoning) : Reasoning :=
  set_reasoning_content (truncateText (r_content r) MAX_LOADED_MESSAGE_CHARS) r.

(** The message within the limits, with whether it is a new object. *)
Definition shorten_message (m : Message) : bool * Message :=
  let normal := normalize_version <$> versions m in
  let reasoning' := truncate_reasoning <$> reasoning m in
  let changed := existsb fst normal ||
    match reasoning', reasoning m with
    | Some r', Some r => negb (jeqb (r_content r') (r_content r))
    | _, _ => false
    end in
  if changed then (true, set_reasoning reasoning' (set_versions normal.*2 m)) else (false, m).

(** The readings are those of [Date.now()] here and in [finalizeMessage]. *)
Definition normalizeStoredMessageForLoad (m : Message) (now1 now2 now3 : f64) : bool * Message :=
  let '(changed, normalized) := shorten_message m in
  if negb (isAssistantMessagePending normalized) then (changed, normalized)
  else
    let hasReasoning :=
      match reasoning normalized with
      | Some r => match trim (r_content r) with [] => false | _ => true end
      | None => false
      end in
    if negb (hasMessageContent normalized) && negb hasReasoning then (changed, normalized)
    else
      let completed :=
        default now1 (or_else (completedAt normalized)
          (or_else (reasoning normalized ≫= r_completedAt) (or_else (startedAt normalized) (createdAt normalized)))) in
      (true, completeAssistantTiming
               (set_reasoning_streaming false (set_status Complete (finalizeMessage normalized None now2 now3))) completed).

(** The loop from the last message to the first; [kept] is the result so far, in the
    order of the messages. *)
Fixpoint size_loop (backwards : list Message) (totalSize : N) (kept : list Message) : list Message :=
  match backwards with
  | [] => kept
  | m :: rest =>
      let messageSize := getMessageSize m in
      if negb (Nat.eqb (length kept) 0) && (MAX_LOADED_MESSAGES_CHARS <? totalSize + messageSize)%N then kept
      else size_loop rest (totalSize + messageSize) (m :: kept)
  end.

Definition trimMessagesByContentSize (messages : list Message) : list Message := size_loop (rev messages) 0 [].

(** ** storage.ts: the entry points *)

Section Store.
Context `{SchemaParser} (accepts : local_storage -> jstr -> jstr -> bool) (t : jstr -> jstr) (now : nat -> f64).

(** The [try] blocks of [loadConfig] and [loadParameterEnabled]. *)
Definition load_object (k : jstr) (s : schema) (store : local_storage) : jsval :=
  match readStoredValue store k with
  | Some saved => if truthy saved then default (JObj []) (parse s (unwrapStoredValue saved)) else JObj []
  | None => JObj []
  end.

(** The [try] blocks of the savers: the storage stays as it is when something throws. *)
Definition save_object (k : jstr) (s : schema) (data : jsval) (store : local_storage) : local_storage :=
  default store (parsed ← parse s data; writeStoredValue accepts store k parsed).

Definition loadConfig (store : local_storage) : jsval := load_object CONFIG_KEY playgroundConfigSchema store.
Definition saveConfig (config : PlaygroundConfig) (store : local_storage) : local_storage :=
  save_object CONFIG_KEY playgroundConfigSchema (config_value config) store.

Definition loadParameterEnabled (store : local_storage) : jsval :=
  load_object PARAMETER_ENABLED_KEY parameterEnabledSchema store.
Definition saveParameterEnabled (e : ParameterEnabled) (store : local_storage) : local_storage :=
  save_object PARAMETER_ENABLED_KEY parameterEnabledSchema (enabled_value e) store.

Definition saveMessages (messages : list Message) (store : local_storage) : local_storage :=
  save_object MESSAGES_KEY messagesSchema (messages_value (trimMessages messages)) store.

(** [parsed.map(normalizeStoredMessageForLoad)] *)
Definition normalize_all (parsed : list Message) : list (bool * Message) :=
  imap (fun i m => normalizeStoredMessageForLoad m (now (3 * i)) (now (3 * i + 1)) (now (3 * i + 2))) parsed.

(** What [loadMessages] makes of the stored messages. *)
Definition restore (parsed : list Message) : list Message :=
  sanitizeMessagesOnLoad t (trimMessagesByContentSize (trimMessages (normalize_all parsed).*2))
    (now (3 * length parsed)) (now (3 * length parsed + 1)) (now (3 * length parsed + 2)).

(** [trimMessagesByContentSize] always makes a new array. *)
Definition size_trim_is_new : bool := true.

(** The condition before [saveMessages] in [loadMessages]. *)
Definition load_changes (parsed : list Message) : bool :=
  let normalized := normalize_all parsed in
  existsb fst normalized || negb (Nat.leb (length normalized) MAX_STORED_MESSAGES) || size_trim_is_new ||
  match last_pending (trimMessagesByContentSize (trimMessages normalized.*2)) with Some _ => true | None => false end.

Definition loadMessages (store : local_storage) : option (list Message) * local_storage :=
  match readStoredMessagesValue store with
  | (Some saved, store') =>
      if negb (truthy saved) then (None, store')
      else match parse messagesSchema (unwrapStoredValue saved) with
           | Some data =>
               let sanitized := restore (messages_of data) in
               (Some sanitized, if load_changes (messages_of data) then saveMessages sanitized store' else store')
           | None => (None, store')
           end
  | (None, store') => (None, store')
  end.

Definition clearPlaygroundData (store : local_storage) : local_storage :=
  delete MESSAGES_KEY (delete PARAMETER_ENABLED_KEY (delete CONFIG_KEY store)).

(** ** playground-state-utils.ts *)

(** [{ ...DEFAULT_CONFIG, ...stored }]; what is stored has the types of the schema. *)
Definition spread_config (stored : jsval) : PlaygroundConfig :=
  let text name d := match member_get stored name with JStr s => s | _ => d end in
  let number name d := match member_get stored name with JNum x => x | _ => d end in
  {| model := text "model"%string (model DEFAULT_CONFIG); group := text "group"%string (group DEFAULT_CONFIG);
     temperature := number "temperature"%string (temperature DEFAULT_CONFIG);
     top_p := number "top_p"%string (top_p DEFAULT_CONFIG);
     max_tokens := number "max_tokens"%string (max_tokens DEFAULT_CONFIG);
     frequency_penalty := number "frequency_penalty"%string (frequency_penalty DEFAULT_CONFIG);
     presence_penalty := number "presence_penalty"%string (presence_penalty DEFAULT_CONFIG);
     seed := match member_get stored "seed" with JNum x => Some x | JNull => None | _ => seed DEFAULT_CONFIG end;
     stream := match member_get stored "stream" with JBool b => b | _ => stream DEFAULT_CONFIG end |}.

Definition spread_enabled (stored : jsval) : ParameterEnabled :=
  let flag name d := match member_get stored name with JBool b => b | _ => d end in
  {| en_temperature := flag "temperature"%string (en_temperature DEFAULT_PARAMETER_ENABLED);
     en_top_p := flag "top_p"%string (en_top_p DEFAULT_PARAMETER_ENABLED);
     en_max_tokens := flag "max_tokens"%string (en_max_tokens DEFAULT_PARAMETER_ENABLED);
     en_frequency_penalty := flag "frequency_penalty"%string (en_frequency_penalty DEFAULT_PARAMETER_ENABLED);
     en_presence_penalty := flag "presence_penalty"%string (en_presence_penalty DEFAULT_PARAMETER_ENABLED);
     en_seed := flag "seed"%string (en_seed DEFAULT_PARAMETER_ENABLED) |}.

Definition getInitialPlaygroundConfig (store : local_storage) : PlaygroundConfig := spread_config (loadConfig store).
Definition getInitialParameterEnabled (store : local_storage) : ParameterEnabled := spread_enabled (loadParameterEnabled store).

Definition getInitialMessages (store : local_storage) : list Message * local_storage :=
  let '(loaded, store) := loadMessages store in (default [] loaded, store).

(** [MessageStateUpdater]: an array or a function on the previous messages. *)
Definition MessageStateUpdater : Type := list Message + (list Message -> list Message).

Definition applyMessageStateUpdate (previous : list Message) (u : MessageStateUpdater) : list Message :=
  match u with inl messages => messages | inr f => f previous end.

(** ** use-playground-state.ts *)

Record ModelOption := { mo_label : jstr; mo_value : jstr }.
Record GroupOption := { go_label : jstr; go_value : jstr; go_ratio : f64; go_desc : option jstr }.

(** The states and refs of the hook; [ps_timers] are the timeouts of the browser that
    will save, [ps_load] says that the timeout that loads is still to come. *)
Record playground_state := {
  ps_config : PlaygroundConfig;
  ps_enabled : ParameterEnabled;
  ps_messages : list Message;
  ps_isLoadingMessages : bool;
  ps_saveTimerRef : option nat;
  ps_latestRef : list Message;
  ps_hasLoadedRef : bool;
  ps_models : list ModelOption;
  ps_groups : list GroupOption;
  ps_timers : list nat;
  ps_next_timer : nat;
  ps_load : bool;
  ps_mounted : bool;
  ps_store : local_storage;
}.

Definition set_config (c : PlaygroundConfig) (e : ParameterEnabled) (store : local_storage) (s : playground_state) : playground_state :=
  {| ps_config := c; ps_enabled := e; ps_messages := ps_messages s; ps_isLoadingMessages := ps_isLoadingMessages s;
     ps_saveTimerRef := ps_saveTimerRef s; ps_latestRef := ps_latestRef s; ps_hasLoadedRef := ps_hasLoadedRef s;
     ps_models := ps_models s; ps_groups := ps_groups s; ps_timers := ps_timers s; ps_next_timer := ps_next_timer s;
     ps_load := ps_load s; ps_mounted := ps_mounted s; ps_store := store |}.

Definition set_conversation (ms latest : list Message) (loading loaded : bool) (s : playground_state) : playground_state :=
  {| ps_config := ps_config s; ps_enabled := ps_enabled s; ps_messages := ms; ps_isLoadingMessages := loading;
     ps_saveTimerRef := ps_saveTimerRef s; ps_latestRef := latest; ps_hasLoadedRef := loaded;
     ps_models := ps_models s; ps_groups := ps_groups s; ps_timers := ps_timers s; ps_next_timer := ps_next_timer s;
     ps_load := ps_load s; ps_mounted := ps_mounted s; ps_store := ps_store s |}.

Definition set_save_timer (ref : option nat) (timers : list nat) (next : nat) (s : playground_state) : playground_state :=
  {| ps_config := ps_config s; ps_enabled := ps_enabled s; ps_messages := ps_messages s;
     ps_isLoadingMessages := ps_isLoadingMessages s; ps_saveTimerRef := ref; ps_latestRef := ps_latestRef s;
     ps_hasLoadedRef := ps_hasLoadedRef s; ps_models := ps_models s; ps_groups := ps_groups s; ps_timers := timers;
     ps_next_timer := next; ps_load := ps_load s; ps_mounted := ps_mounted s; ps_store := ps_store s |}.

Definition set_options (models : list ModelOption) (groups : list GroupOption) (s : playground_state) : playground_state :=
  {| ps_config := ps_config s; ps_enabled := ps_enabled s; ps_messages := ps_messages s;
     ps_isLoadingMessages := ps_isLoadingMessages s; ps_saveTimerRef := ps_saveTimerRef s; ps_latestRef := ps_latestRef s;
     ps_hasLoadedRef := ps_hasLoadedRef s; ps_models := models; ps_groups := groups; ps_timers := ps_timers s;
     ps_next_timer := ps_next_timer s; ps_load := ps_load s; ps_mounted := ps_mounted s; ps_store := ps_store s |}.

Definition set_life (load mounted : bool) (store : local_storage) (s : playground_state) : playground_state :=
  {| ps_config := ps_config s; ps_enabled := ps_enabled s; ps_messages := ps_messages s;
     ps_isLoadingMessages := ps_isLoadingMessages s; ps_saveTimerRef := ps_saveTimerRef s; ps_latestRef := ps_latestRef s;
     ps_hasLoadedRef := ps_hasLoadedRef s; ps_models := ps_models s; ps_groups := ps_groups s; ps_timers := ps_timers s;
     ps_next_timer := ps_next_timer s; ps_load := load; ps_mounted := mounted; ps_store := store |}.

(** The first render. *)
Definition mount (store : local_storage) : playground_state :=
  {| ps_config := getInitialPlaygroundConfig store; ps_enabled := getInitialParameterEnabled store; ps_messages := [];
     ps_isLoadingMessages := true; ps_saveTimerRef := None; ps_latestRef := []; ps_hasLoadedRef := false; ps_models := [];
     ps_groups := []; ps_timers := []; ps_next_timer := 0; ps_load := true; ps_mounted := true; ps_store := store |}.

(** [window.clearTimeout] of the pending save. *)
Definition clear_save_timer (s : playground_state) : playground_state :=
  match ps_saveTimerRef s with
  | Some id => set_save_timer (ps_saveTimerRef s) (filter (fun i => i <> id) (ps_timers s)) (ps_next_timer s) s
  | None => s
  end.

Definition persistMessages (messagesToSave : list Message) (s : playground_state) : playground_state :=
  let s := set_conversation (ps_messages s) messagesToSave (ps_isLoadingMessages s) (ps_hasLoadedRef s) s in
  if negb (ps_hasLoadedRef s) then s
  else
    let s := clear_save_timer s in
    set_save_timer (Some (ps_next_timer s)) (ps_next_timer s :: ps_timers s) (S (ps_next_timer s)) s.

(** The timeout [id] that saves. *)
Definition save_fires (id : nat) (s : playground_state) : playground_state :=
  if bool_decide (id ∈ ps_timers s) then
    let s := set_save_timer None (filter (fun i => i <> id) (ps_timers s)) (ps_next_timer s) s in
    set_life (ps_load s) (ps_mounted s) (saveMessages (ps_latestRef s) (ps_store s)) s
  else s.

(** The timeout that loads; [cancelled] is that the hook is not mounted any more. *)
Definition load_fires (s : playground_state) : playground_state :=
  if ps_load s then
    let '(loaded, store) := loadMessages (ps_store s) in
    let s := set_life false (ps_mounted s) store s in
    if ps_mounted s then set_conversation (default [] loaded) (default [] loaded) false true s else s
  else s.

Definition hook_unmount (s : playground_state) : playground_state :=
  match ps_saveTimerRef s with
  | Some _ =>
      let s := clear_save_timer s in
      set_life (ps_load s) false (saveMessages (ps_latestRef s) (ps_store s)) s
  | None => set_life (ps_load s) false (ps_store s) s
  end.

(** The keys of [updateConfig] with their values. *)
Inductive config_update :=
| SetModel (v : jstr) | SetGroup (v : jstr) | SetTemperature (v : f64) | SetTopP (v : f64) | SetMaxTokens (v : f64)
| SetFrequencyPenalty (v : f64) | SetPresencePenalty (v : f64) | SetSeed (v : option f64) | SetStream (v : bool).

Definition with_key (u : config_update) (c : PlaygroundConfig) : PlaygroundConfig :=
  {| model := match u with SetModel v => v | _ => model c end;
     group := match u with SetGroup v => v | _ => group c end;
     temperature := match u with SetTemperature v => v | _ => temperature c end;
     top_p := match u with SetTopP v => v | _ => top_p c end;
     max_tokens := match u with SetMaxTokens v => v | _ => max_tokens c end;
     frequency_penalty := match u with SetFrequencyPenalty v => v | _ => frequency_penalty c end;
     presence_penalty := match u with SetPresencePenalty v => v | _ => presence_penalty c end;
     seed := match u with SetSeed v => v | _ => seed c end;
     stream := match u with SetStream v => v | _ => stream c end |}.

Inductive parameter_key := KTemperature | KTopP | KMaxTokens | KFrequencyPenalty | KPresencePenalty | KSeed.

#[global] Instance parameter_key_eq_dec : EqDecision parameter_key.
Proof. solve_decision. Defined.

Definition with_enabled (k : parameter_key) (b : bool) (e : ParameterEnabled) : ParameterEnabled :=
  let flag k' old := if bool_decide (k = k') then b else old in
  {| en_temperature := flag KTemperature (en_temperature e); en_top_p := flag KTopP (en_top_p e);
     en_max_tokens := flag KMaxTokens (en_max_tokens e);
     en_frequency_penalty := flag KFrequencyPenalty (en_frequency_penalty e);
     en_presence_penalty := flag KPresencePenalty (en_presence_penalty e); en_seed := flag KSeed (en_seed e) |}.

(** The updaters, when React calls them. *)
Definition updateConfig (u : config_update) (s : playground_state) : playground_state :=
  let updated := with_key u (ps_config s) in
  set_config updated (ps_enabled s) (saveConfig updated (ps_store s)) s.

Definition updateParameterEnabled (k : parameter_key) (b : bool) (s : playground_state) : playground_state :=
  let updated := with_enabled k b (ps_enabled s) in
  set_config (ps_config s) updated (saveParameterEnabled updated (ps_store s)) s.

Definition updateMessages (u : MessageStateUpdater) (s : playground_state) : playground_state :=
  let newMessages := applyMessageStateUpdate (ps_messages s) u in
  let s := persistMessages newMessages s in
  set_conversation newMessages (ps_latestRef s) (ps_isLoadingMessages s) (ps_hasLoadedRef s) s.

Definition clearMessages : playground_state -> playground_state := updateMessages (inl []).

Definition resetConfig (s : playground_state) : playground_state :=
  set_config DEFAULT_CONFIG DEFAULT_PARAMETER_ENABLED
    (saveParameterEnabled DEFAULT_PARAMETER_ENABLED (saveConfig DEFAULT_CONFIG (ps_store s))) s.

(** ** playground-option-utils.ts and use-playground-options.ts *)

Definition getModelFallback (models : list ModelOption) (currentModel : jstr) : option jstr :=
  if existsb (fun m => jeqb (mo_value m) currentModel) models then None else mo_value <$> head models.

Definition shouldClearModelForGroup (models : list ModelOption) (currentModel : jstr) : bool :=
  match currentModel with [] => false | _ => negb (existsb (fun m => jeqb (mo_value m) currentModel) models) end.

Definition getGroupFallback (groups : list GroupOption) (currentGroup : jstr) : option jstr :=
  if existsb (fun g => jeqb (go_value g) currentGroup) groups then None
  else match List.find (fun g => jeqb (go_value g) (js "default")) groups with
       | Some g => Some (go_value g)
       | None => go_value <$> head groups
       end.

(** [error] is the message of an [Error], and [None] of anything else. *)
Definition getOptionLoadErrorMessage (error : option jstr) (fallbackMessage : jstr) : jstr := default fallbackMessage error.

(** The effect on the models of the current group, when they have come. *)
Definition models_effect (modelsData : list ModelOption) (s : playground_state) : playground_state :=
  let s := set_options modelsData (ps_groups s) s in
  match getModelFallback modelsData (model (ps_config s)) with
  | Some ((_ :: _) as fallback) => updateConfig (SetModel fallback) s
  | _ => if shouldClearModelForGroup modelsData (model (ps_config s)) then updateConfig (SetModel []) s else s
  end.

Definition groups_effect (groupsData : list GroupOption) (s : playground_state) : playground_state :=
  let s := set_options (ps_models s) groupsData s in
  match getGroupFallback groupsData (group (ps_config s)) with
  | Some ((_ :: _) as fallback) => updateConfig (SetGroup fallback) s
  | _ => s
  end.

(** ** What can happen to the hook *)

Inductive hook_event :=
| Loads
| Saves (id : nat)
| UpdatesMessages (u : MessageStateUpdater)
| UpdatesConfig (u : config_update)
| UpdatesEnabled (k : parameter_key) (b : bool)
| Resets
| ModelsCome (modelsData : list ModelOption)
| GroupsCome (groupsData : list GroupOption)
| Unmounts.

(** Timeouts fire whether or not the hook is mounted; React calls no updater of a
    hook that is not. *)
Definition happens (e : hook_event) (s : playground_state) : playground_state :=
  match e with
  | Loads => load_fires s
  | Saves id => save_fires id s
  | _ =>
      if negb (ps_mounted s) then s
      else match e with
           | UpdatesMessages u => updateMessages u s
           | UpdatesConfig u => updateConfig u s
           | UpdatesEnabled k b => updateParameterEnabled k b s
           | Resets => resetConfig s
           | ModelsCome modelsData => models_effect modelsData s
           | GroupsCome groupsData => groups_effect groupsData s
           | Unmounts => hook_unmount s
           | _ => s
           end
  end.

Definition history (es : list hook_event) (s : playground_state) : playground_state := foldl (fun s e => happens e s) s es.
End Store.

(** ** playground-parameters.ts *)

Record ParameterControl := { pc_key : parameter_key; pc_min : f64; pc_max : f64; pc_step : f64 }.

(** [PLAYGROUND_PARAMETER_CONTROLS], without the labels and the kind of widget. *)
Definition PLAYGROUND_PARAMETER_CONTROLS : list ParameterControl :=
  [{| pc_key := KTemperature; pc_min := literal "0.1"; pc_max := literal "1"; pc_step := literal "0.1" |};
   {| pc_key := KTopP; pc_min := literal "0.1"; pc_max := literal "1"; pc_step := literal "0.1" |};
   {| pc_key := KFrequencyPenalty; pc_min := literal "-2"; pc_max := literal "2"; pc_step := literal "0.1" |};
   {| pc_key := KPresencePenalty; pc_min := literal "-2"; pc_max := literal "2"; pc_step := literal "0.1" |};
   {| pc_key := KMaxTokens; pc_min := fzero; pc_max := literal "200000"; pc_step := literal "1" |};
   {| pc_key := KSeed; pc_min := fzero; pc_max := literal "2147483647"; pc_step := literal "1" |}].

(** [Number.parseFloat(text)]: the longest prefix that is a number. *)
Definition parse_float (text : jstr) : f64 :=
  let unsigned (l : jstr) : f64 :=
    if starts_with (js "Infinity") l then S754_infinity false
    else match scan_decimal l with Some d => decimal_value d | None => S754_nan end in
  match drop_spaces text with
  | 43%N :: l => unsigned l
  | 45%N :: l => fneg (unsigned l)
  | l => unsigned l
  end.

(** [Math.trunc]: a zero result keeps the sign of the operand. *)
Definition ftrunc (x : f64) : f64 :=
  match x with
  | S754_finite s m e =>
      let '(q, exact) := trunc_parts m e in
      if exact then x else binary_normalize prec emax (cond_Zopp s q) 0 s
  | _ => x
  end.

(** The integer nearest to [m * 2 ^ e * 10 ^ digits], the larger of two. *)
Definition nearest_scaled (digits : nat) (m : positive) (e : Z) : N :=
  let num := (Zpos m * 2 ^ Z.max 0 e * 10 ^ Z.of_nat digits)%Z in
  let den := (2 ^ Z.max 0 (- e))%Z in
  Z.to_N ((2 * num + den) / (2 * den)).

(** [n] with [digits] digits behind the point. *)
Definition digits_with_point (digits : nat) (n : N) : jstr :=
  match digits with
  | O => N_digits n
  | _ =>
      let ds := N_digits n in
      let padded := replicate (S digits - length ds) 48%N ++ ds in
      take (length padded - digits) padded ++ js "." ++ drop (length padded - digits) padded
  end.

(** [x.toFixed(digits)] of a finite number below [1e21]. *)
Definition to_fixed (digits : nat) (x : f64) : jstr :=
  match x with
  | S754_finite s m e => (if s : bool then js "-" else []) ++ digits_with_point digits (nearest_scaled digits m e)
  | _ => digits_with_point digits 0
  end.

(** [Math.max(0, String(step).split('.')[1]?.length ?? 0)] *)
Definition step_precision (step : f64) : nat :=
  match snd (span_while (fun c => negb (c =? 46)%N) (number_to_string step)) with
  | _ :: fraction => length (fst (span_while (fun c => negb (c =? 46)%N) fraction))
  | [] => 0
  end.

Definition no_value (k : parameter_key) : option f64 := if bool_decide (k = KSeed) then None else Some fzero.

(** [null] is [None]. *)
Definition normalizeParameterNumberValue (k : parameter_key) (value : jstr + f64) : option f64 :=
  match value with
  | inl [] => no_value k
  | _ =>
      let parsed := match value with inl text => parse_float text | inr x => x end in
      match List.find (fun c => bool_decide (pc_key c = k)) PLAYGROUND_PARAMETER_CONTROLS with
      | None => no_value k
      | Some control =>
          if negb (feqb parsed parsed) then no_value k
          else
            let clamped := fmin (pc_max control) (fmax (pc_min control) parsed) in
            if fleb (literal "1") (pc_step control) then Some (ftrunc clamped)
            else Some (number_of_string (to_fixed (step_precision (pc_step control)) clamped))
      end
  end.

(** The value of a parameter; [null] is [None]. *)
Definition getParameterControlValueText (k : parameter_key) (value : option f64) : jstr :=
  match value with
  | Some x => number_to_string x
  | None => if bool_decide (k = KSeed) then js "Not set" else js "null"
  end.

Example parameter_examples :
  normalizeParameterNumberValue KTemperature (inl (js "0.75 ")) = Some (literal "0.8") /\
  normalizeParameterNumberValue KTemperature (inr (literal "7")) = Some (literal "1") /\
  normalizeParameterNumberValue KPresencePenalty (inl (js "-1.25x")) = Some (literal "-1.3") /\
  normalizeParameterNumberValue KMaxTokens (inl (js "1e3")) = Some (literal "1000") /\
  normalizeParameterNumberValue KSeed (inl (js "x")) = None /\
  normalizeParameterNumberValue KSeed (inr (literal "12.9")) = Some (literal "12").
Proof. vm_compute. by repeat split. Qed.
End Storage.
