(* ===== verification/PlaygroundStorageFacts.v ===== *)
(** * Playground storage: theorems

    What is saved is loaded again, what is loaded keeps within the limits, and the
    hook keeps the stored conversation equal to the one on the screen. *)

From stdpp Require Import base list gmap numbers strings.
From Stdlib Require Import ZArith SpecFloat Lia.
From S2P Require Import Prelude.
From S2P Require Import JsString.
From S2P Require Import JsNumber.
From S2P Require Import JsNumberFacts.
From S2P Require Import JsValue.
From S2P Require Import JsJson.
From S2P Require Import JsJsonText.
From S2P Require Import JsSchema.
From S2P Require Import BillingStructure.
From S2P Require Import PlaygroundMessages.
From S2P Require Import PlaygroundFacts.
From S2P Require Import PlaygroundStorage.

Module StorageFacts.
Import Playground PlaygroundFacts Storage.

(** ** Messages as values *)

Definition number_opt_ok (x : option f64) : Prop := match x with Some x => json_number_ok x | None => True end.

(** What the schema accepts of an error code. *)
Definition code_ok (v : jsval) : Prop :=
  match v with JUndefined | JNull | JStr _ => True | _ => False end.

(** A message that JSON and the schema keep. *)
Record storable (m : Message) : Prop := {
  so_versions : versions m <> [];
  so_times : Forall number_opt_ok [createdAt m; startedAt m; completedAt m; durationMs m];
  so_reasoning : match reasoning m with
                 | Some r => json_number_ok (r_duration r) /\
                             Forall number_opt_ok [r_startedAt r; r_completedAt r; r_durationMs r]
                 | None => True
                 end;
  so_code : code_ok (errorCode m);
}.

Lemma get_members fields name : NoDup fields.*1 -> member_get (members fields) name = member_of fields (js name).
Proof. intros Hnd. unfold member_get, members. by apply obj_get_members. Qed.

Ltac keys_by_computation := apply (bool_decide_unpack _); vm_compute; exact I.

Lemma message_keys m : NoDup (message_fields m).*1.
Proof. keys_by_computation. Qed.

Lemma text_back s : text_member (JStr s) = s.
Proof. done. Qed.









(** ** Values that are saved *)

Lemma number_opt_fits strict o : number_opt_ok o -> conforms strict (ZOptional ZNumber) (default JUndefined (JNum <$> o)) = true.
Proof. destruct o as [x|]; [|done]. by intros (_ & Hf & _). Qed.

Lemma bool_opt_fits strict o : conforms strict (ZOptional ZBoolean) (default JUndefined (JBool <$> o)) = true.
Proof. by destruct o. Qed.

Lemma array_fits strict minimum s {A} (f : A -> jsval) l : minimum <= length l -> (forall x, x ∈ l -> conforms strict s (f x) = true) ->
  conforms strict (ZArray minimum s) (JArr (f <$> l)) = true.
Proof.
  intros Hn Hl. cbn [conforms]. rewrite length_fmap, (proj2 (Nat.leb_le _ _) Hn). cbn [andb]. apply forallb_forall.
  intros v (x & -> & Hx)%list_elem_of_In%list_elem_of_fmap. by apply Hl.
Qed.

Lemma version_fits strict v : conforms strict messageVersionSchema (version_value v) = true.
Proof. apply fits_members; [keys_by_computation|]. by repeat constructor. Qed.

Lemma source_fits strict s : conforms strict sourceSchema (source_value s) = true.
Proof. apply fits_members; [keys_by_computation|]. by repeat constructor. Qed.

Lemma reasoning_fits strict r : json_number_ok (r_duration r) -> Forall number_opt_ok [r_startedAt r; r_completedAt r; r_durationMs r] ->
  conforms strict reasoningSchema (reasoning_value r) = true.
Proof.
  intros (_ & Hd & _) Ht. repeat (apply Forall_cons in Ht as [? Ht]). apply fits_members; [keys_by_computation|].
  repeat constructor; cbn [snd]; try by apply number_opt_fits. exact Hd.
Qed.

(** Every member but the error code has its type. *)
Lemma fits_all_but_code strict m : versions m <> [] -> Forall number_opt_ok [createdAt m; startedAt m; completedAt m; durationMs m] ->
  match reasoning m with
  | Some r => json_number_ok (r_duration r) /\ Forall number_opt_ok [r_startedAt r; r_completedAt r; r_durationMs r]
  | None => True
  end ->
  conforms strict (ZOptional (ZNullable ZString)) (default JUndefined (defined (errorCode m))) = true ->
  conforms strict messageSchema (message_value m) = true.
Proof.
  intros Hv Ht Hr Hc. repeat (apply Forall_cons in Ht as [? Ht]). apply fits_members; [apply message_keys|].
  unfold message_fields. repeat (constructor; [split; [done|cbn [snd]]|]); try by (apply number_opt_fits || apply bool_opt_fits || done).
  - by destruct (from m).
  - apply array_fits; [destruct (versions m); simpl; [done|lia]|]. intros v _. apply version_fits.
  - destruct (sources m) as [l|]; [|done]. apply (array_fits strict 0); [lia|]. intros s _. apply source_fits.
  - destruct (reasoning m) as [r|]; [|done]. destruct Hr as [Hd Hr]. by apply (reasoning_fits strict r).
  - by destruct (status m) as [[]|].
Qed.

Lemma message_fits strict m : storable m -> conforms strict messageSchema (message_value m) = true.
Proof. intros [Hv Ht Hr Hc]. apply fits_all_but_code; [done..|]. by destruct (errorCode m). Qed.

Lemma messages_fit ms : Forall storable ms -> conforms true messagesSchema (messages_value ms) = true.
Proof. intros Hms. apply array_fits; [lia|]. intros m Hm. apply message_fits. rewrite Forall_forall in Hms. by apply Hms. Qed.

(** The members of an object one by one. *)
Ltac each_member := repeat (apply Forall_cons_2; [cbn [fst snd]|]); try apply Forall_nil_2.
Ltac plain_by_computation := apply plain_object; [keys_by_computation|by each_member|each_member; try done].

Lemma number_opt_plain o : number_opt_ok o -> match JNum <$> o with Some v => json_plain v | None => True end.
Proof. by destruct o. Qed.

Lemma array_plain {A} (f : A -> jsval) l : (forall x, x ∈ l -> json_plain (f x)) -> json_plain (JArr (f <$> l)).
Proof. intros Hl. cbn [json_plain]. apply foldr_and, Forall_fmap, Forall_forall. exact Hl. Qed.

Lemma reasoning_plain r : json_number_ok (r_duration r) -> Forall number_opt_ok [r_startedAt r; r_completedAt r; r_durationMs r] ->
  json_plain (reasoning_value r).
Proof.
  intros Hd Ht. repeat (apply Forall_cons in Ht as [? Ht]). plain_by_computation; by (exact Hd || apply number_opt_plain || done).
Qed.

Lemma message_plain m : storable m -> json_plain (message_value m).
Proof.
  intros [_ Ht Hr Hc]. repeat (apply Forall_cons in Ht as [? Ht]). unfold message_value, message_fields.
  plain_by_computation; try by apply number_opt_plain.
  - apply (array_plain version_value). intros v _. by plain_by_computation.
  - destruct (sources m) as [l|]; [|done]. apply (array_plain source_value). intros s _. by plain_by_computation.
  - destruct (reasoning m) as [r|]; [|done]. destruct Hr as [Hd Hr]. by apply (reasoning_plain r).
  - by destruct (isReasoningStreaming m).
  - by destruct (isReasoningComplete m).
  - by destruct (isContentComplete m).
  - by destruct (status m).
  - by destruct (errorCode m).
Qed.

Lemma messages_plain ms : Forall storable ms -> json_plain (messages_value ms).
Proof. intros Hms. apply (array_plain message_value). intros m Hm. apply message_plain. rewrite Forall_forall in Hms. by apply Hms. Qed.

(** ** What is written is read *)

Definition stored_text (data : jsval) : jstr := json_text [] [] (envelope data).

Lemma envelope_plain data : json_plain data -> json_plain (envelope data).
Proof.
  intros Hd. apply plain_object; [keys_by_computation|by repeat constructor|]. constructor; [by repeat constructor|].
  constructor; [|constructor]. cbn [snd]. by destruct data.
Qed.

Lemma envelope_unwraps data : json_plain data -> unwrapStoredValue (envelope data) = data.
Proof. intros Hd. by destruct data. Qed.

Lemma stored_some data : json_plain data -> stored_text data <> [].
Proof. intros Hd. apply text_not_empty; [constructor|]. by apply envelope_plain. Qed.

Lemma stored_read data : json_plain data -> json_parse (stored_text data) = Some (envelope data).
Proof. intros Hd. apply json_parse_text; [constructor|]. by apply envelope_plain. Qed.

Section Stored.
Context `{SchemaParser} (accepts : local_storage -> jstr -> jstr -> bool).

(** A save that goes through. *)
Lemma save_writes k s data store : conforms true s data = true -> accepts store k (stored_text data) = true ->
  save_object accepts k s data store = <[k := stored_text data]> store.
Proof.
  intros Hfit Hacc. unfold save_object. rewrite parse_strict by done. cbn [mbind option_bind]. unfold writeStoredValue, setItem.
  unfold json_stringify_value, envelope, members. cbn [is_undefined mbind option_bind].
  fold (members [(js "version", Some (JNum (f64_of_Z STORAGE_VERSION))); (js "data", defined data)]).
  fold (envelope data) (stored_text data). by rewrite Hacc.
Qed.

Lemma save_refused k s data store : conforms false s data = false -> save_object accepts k s data store = store.
Proof.
  intros Hfit. unfold save_object. destruct (parse s data) as [w|] eqn:E; [|done]. apply parse_fits in E as [E _]. congruence.
Qed.

Lemma save_elsewhere k k' s data store : k <> k' -> save_object accepts k s data store !! k' = store !! k'.
Proof.
  intros Hk. unfold save_object. destruct (parse s data) as [w|]; [|done]. cbn [mbind option_bind]. unfold writeStoredValue, setItem.
  destruct (json_stringify_value [] (envelope w)) as [text|]; [|done]. cbn [mbind option_bind].
  destruct (accepts store k text); [|done]. change (<[k := text]> store !! k' = store !! k'). by rewrite lookup_insert_ne.
Qed.

Lemma load_written k s data store : conforms true s data = true -> json_plain data ->
  load_object k s (<[k := stored_text data]> store) = data.
Proof.
  intros Hfit Hp. unfold load_object, readStoredValue. rewrite lookup_insert_eq. pose proof (stored_some data Hp) as Hne.
  pose proof (stored_read data Hp) as Hr. destruct (stored_text data); [done|]. rewrite Hr.
  change (default (JObj []) (parse s (unwrapStoredValue (envelope data))) = data).
  rewrite envelope_unwraps by done. by rewrite parse_strict.
Qed.

End Stored.

(** A browser whose quota is never used up. *)
Definition roomy (accepts : local_storage -> jstr -> jstr -> bool) : Prop := forall s k text, accepts s k text = true.

(** ** Settings *)

Record settings_ok (c : PlaygroundConfig) : Prop := {
  co_numbers : Forall json_number_ok [temperature c; top_p c; max_tokens c; frequency_penalty c; presence_penalty c];
  co_seed : number_opt_ok (seed c);
}.

Lemma number_fits strict x : json_number_ok x -> conforms strict (ZOptional ZNumber) (JNum x) = true.
Proof. by intros (_ & Hf & _). Qed.

Lemma config_fits c : settings_ok c -> conforms true playgroundConfigSchema (config_value c) = true.
Proof.
  intros [Hn Hs]. repeat (apply Forall_cons in Hn as [? Hn]). apply fits_members; [keys_by_computation|].
  repeat (constructor; [split; [done|cbn [snd default from_option]]|]); try by (apply number_fits || done).
  destruct (seed c) as [x|]; [|done]. destruct Hs as (_ & Hf & _). exact Hf.
Qed.

Lemma config_plain c : settings_ok c -> json_plain (config_value c).
Proof. intros [Hn Hs]. repeat (apply Forall_cons in Hn as [? Hn]). plain_by_computation. by destruct (seed c). Qed.

Lemma config_back c : spread_config (config_value c) = c.
Proof.
  unfold spread_config, config_value. rewrite !get_members by keys_by_computation.
  change (member_of _ (js "seed")) with (match seed c with Some x => JNum x | None => JNull end).
  destruct c as [? ? ? ? ? ? ? s ?]. cbn. by destruct s.
Qed.

Lemma enabled_fits e : conforms true parameterEnabledSchema (enabled_value e) = true.
Proof. apply fits_members; [keys_by_computation|]. by repeat constructor. Qed.

Lemma enabled_plain e : json_plain (enabled_value e).
Proof. plain_by_computation. Qed.

Lemma enabled_back e : spread_enabled (enabled_value e) = e.
Proof. unfold spread_enabled, enabled_value. rewrite !get_members by keys_by_computation. by destruct e. Qed.

(** C24: Settings come back as they were saved, whatever else is stored: if the
    browser accepts every write and the numbers of the configuration are finite
    doubles other than the negative zero (which JSON writes as zero), opening the
    playground after both were saved gives the same configuration and the same
    parameter switches. *)
Theorem settings_round_trip `{SchemaParser} accepts c e store : roomy accepts -> settings_ok c ->
  let saved := saveParameterEnabled accepts e (saveConfig accepts c store) in
  getInitialPlaygroundConfig saved = c /\ getInitialParameterEnabled saved = e.
Proof.
  intros Hroom Hc saved. unfold saved, getInitialPlaygroundConfig, getInitialParameterEnabled, loadConfig, loadParameterEnabled.
  pose proof (config_fits c Hc) as Hfit. pose proof (config_plain c Hc) as Hp. split.
  - rewrite <- (config_back c) at 2. f_equal. rewrite <- (load_written CONFIG_KEY playgroundConfigSchema (config_value c) store Hfit Hp).
    unfold load_object, readStoredValue. unfold saveParameterEnabled. rewrite save_elsewhere by done.
    unfold saveConfig. by rewrite save_writes.
  - unfold saveParameterEnabled. rewrite save_writes by (apply enabled_fits || apply Hroom).
    rewrite load_written by (apply enabled_fits || apply enabled_plain). apply enabled_back.
Qed.

(** ** Messages within the limits *)




Definition total_size (ms : list Message) : N := foldr (fun m n => getMessageSize m + n)%N 0%N ms.






Lemma trim_same_messages ms : length ms <= MAX_STORED_MESSAGES -> trimMessages ms = ms.
Proof. intros Hl. unfold trimMessages. by rewrite (proj2 (Nat.leb_le _ _) Hl). Qed.










(** ** The conversation comes back *)

Section Conversation.
Context `{SchemaParser} (accepts : local_storage -> jstr -> jstr -> bool) (t : jstr -> jstr) (now : nat -> f64).

Definition messages_text (ms : list Message) : jstr := stored_text (messages_value ms).


Lemma save_messages ms store : roomy accepts -> Forall storable ms -> length ms <= MAX_STORED_MESSAGES ->
  saveMessages accepts ms store = <[MESSAGES_KEY := messages_text ms]> store.
Proof.
  intros Hroom Hst Hl. unfold saveMessages. rewrite trim_same_messages by done. apply save_writes; [by apply messages_fit|apply Hroom].
Qed.

End Conversation.

(** ** Lengths *)

Lemma join_bound sep (ps : list jstr) : length (join sep ps) <= foldr (fun p n => length p + length sep + n) 0 ps.
Proof.
  induction ps as [|p ps IH]; [done|]. destruct ps as [|q ps]; [simpl; lia|]. rewrite join_at_cons, !length_app.
  cbn [foldr] in *. lia.
Qed.

(** The tags are longer than the blank lines between the parts. *)
Lemma think_length s vs rs u : think s vs rs u ->
  length (concat vs) + foldr (fun r n => length r + length ([10%N; 10%N] : jstr) + n) 0 rs <= length s.
Proof.
  assert (forall v, length (concat (push_part v)) = length v) as Hp by (intros [|c v]; [done|simpl; by rewrite app_nil_r]).
  induction 1 as [s _|v r _ _|v r rest vs rs u _ _ _ IH]; cbn [foldr length].
  - rewrite Hp. lia.
  - rewrite Hp, !length_app. change (length OPEN) with 7. lia.
  - rewrite concat_app, length_app, Hp, !length_app. change (length OPEN) with 7. change (length CLOSE) with 8.
    cbn [length] in IH. lia.
Qed.

Lemma parsed_length s : length (visibleContent (parseThinkTags s)) + length (reasoning_text (parseThinkTags s)) <= length s.
Proof.
  unfold parseThinkTags. destruct (includes s OPEN); [|simpl; lia]. cbn [negb].
  destruct (think_loop (S (length s)) s) as [[vs rs] u] eqn:E. cbn [visibleContent reasoning_text].
  apply think_loop_sound in E; [|lia]. apply think_length in E. pose proof (join_bound [10%N; 10%N] rs).
  pose proof (trim_length (concat vs)). pose proof (trim_length (join [10%N; 10%N] rs)). lia.
Qed.

Definition reasoning_size (m : Message) : N := match reasoning m with Some r => text_size (r_content r) | None => 0%N end.

(** Every version and the reasoning of a message are at most as long as [limit]. *)
Definition bounded (limit : N) (m : Message) : Prop :=
  Forall (fun v => (text_size (v_content v) <= limit)%N) (versions m) /\ (reasoning_size m <= limit)%N.

Lemma versions_size vs n : foldl (fun total v => total + text_size (v_content v))%N n vs
  = (n + foldr (fun v total => text_size (v_content v) + total) 0 vs)%N.
Proof. revert n. induction vs as [|v vs IH]; intros n; cbn [foldl foldr]; [lia|]. rewrite IH. lia. Qed.

Lemma message_size m : getMessageSize m
  = (foldr (fun v total => text_size (v_content v) + total) 0 (versions m) + reasoning_size m)%N.
Proof. unfold getMessageSize, reasoning_size. rewrite versions_size. lia. Qed.

Lemma content_size m : (text_size (getMessageContent m) <= foldr (fun v total => text_size (v_content v) + total) 0 (versions m))%N.
Proof. unfold getMessageContent, getCurrentVersion. destruct (versions m) as [|v vs]; cbn [foldr]; unfold text_size; simpl; lia. Qed.

Lemma content_bounded limit m : bounded limit m -> (text_size (getMessageContent m) <= limit)%N.
Proof.
  intros [Hv _]. unfold getMessageContent, getCurrentVersion. destruct Hv as [|v vs Hv _]; [|done].
  unfold text_size. simpl. lia.
Qed.

Lemma completed_versions m x : versions (completeReasoningTiming m x) = versions m /\ reasoning_size (completeReasoningTiming m x) = reasoning_size m.
Proof.
  unfold completeReasoningTiming, reasoning_size. destruct (reasoning m) as [r|] eqn:E; [|by rewrite E].
  destruct (r_durationMs r); [by rewrite E|done].
Qed.

Lemma timed_versions m x : versions (completeAssistantTiming m x) = versions m /\ reasoning_size (completeAssistantTiming m x) = reasoning_size m.
Proof. unfold completeAssistantTiming. by case_bool_decide. Qed.

(** Finalizing only moves text from the content to the reasoning, or drops it. *)
Lemma finalize_sizes m now1 now2 : exists v,
  versions (finalizeMessage m None now1 now2) = [v] /\
  (text_size (v_content v) <= text_size (getMessageContent m))%N /\
  (reasoning_size (finalizeMessage m None now1 now2) <= reasoning_size m \/
   text_size (v_content v) + reasoning_size (finalizeMessage m None now1 now2) <= text_size (getMessageContent m))%N.
Proof.
  unfold finalizeMessage. set (current := getMessageContent m).
  eexists. rewrite !(proj1 (completed_versions _ _)), !(proj2 (completed_versions _ _)). split; [reflexivity|]. cbn [v_content].
  pose proof (parsed_length current) as Hl. unfold reasoning_size. cbn [reasoning set_reasoning set_reasoning_streaming].
  set (kept := default [] (r_content <$> reasoning m)).
  assert (text_size kept = match reasoning m with Some r => text_size (r_content r) | None => 0%N end) as Hk
    by (unfold kept; by destruct (reasoning m)).
  rewrite <- Hk. unfold text_size in *. destruct (includes current OPEN); cbn [fmap option_fmap option_map default from_option id].
  - split; [lia|]. destruct kept as [|c kept]; cbn [or_text]; [|left; simpl; lia]. right.
    destruct (reasoning_text (parseThinkTags current)) as [|d text]; cbn [or_text r_content set_reasoning_content] in *; simpl in *; lia.
  - split; [lia|]. left. destruct kept as [|c kept]; cbn [or_text]; simpl; lia.
Qed.

Lemma finalize_bounded limit m now1 now2 : bounded limit m -> bounded limit (finalizeMessage m None now1 now2).
Proof.
  intros Hb. pose proof (content_bounded _ _ Hb) as Hc. destruct Hb as [_ Hr].
  destruct (finalize_sizes m now1 now2) as (v & Ev & Hv & Hor). split.
  - rewrite Ev. repeat constructor. lia.
  - destruct Hor; lia.
Qed.

Lemma finalize_smaller m now1 now2 : (getMessageSize (finalizeMessage m None now1 now2) <= getMessageSize m)%N.
Proof.
  destruct (finalize_sizes m now1 now2) as (v & Ev & Hv & Hor). rewrite !message_size, Ev. cbn [foldr].
  pose proof (content_size m). destruct Hor; lia.
Qed.

(** ** What loading makes of any stored conversation *)

Lemma truncate_bound text limit : (text_size TRUNCATED_CONTENT_SUFFIX <= limit)%N -> (text_size (truncateText text limit) <= limit)%N.
Proof.
  intros Hl. unfold truncateText. destruct (N.leb_spec (text_size text) limit) as [|Hlong]; [done|].
  unfold text_size in *. destruct (N.leb_spec limit (N.of_nat (length TRUNCATED_CONTENT_SUFFIX))) as [Hs|Hs];
    rewrite ?length_app, length_take; lia.
Qed.

Lemma normalize_version_bound v : (text_size (v_content (normalize_version v).2) <= MAX_LOADED_MESSAGE_CHARS)%N.
Proof.
  unfold normalize_version. pose proof (truncate_bound (collapseRepeatedSectionSnapshots (v_content v)) MAX_LOADED_MESSAGE_CHARS ltac:(done)) as Hb.
  destruct (jeqb _ _ && _) eqn:E; [|exact Hb]. apply andb_true_iff in E as [E%jeqb_eq _]. cbn [snd]. by rewrite <- E.
Qed.

Lemma existsb_none {A} (f : A -> bool) l : existsb f l = false -> Forall (fun x => f x = false) l.
Proof. induction l as [|x l IH]; [constructor|]. cbn [existsb]. intros [Hx Hl]%orb_false_iff. constructor; auto. Qed.

Lemma unchanged_version v : fst (normalize_version v) = false -> (normalize_version v).2 = v.
Proof. unfold normalize_version. by destruct (_ && _). Qed.

Lemma shorten_bounded m : bounded MAX_LOADED_MESSAGE_CHARS (shorten_message m).2.
Proof.
  unfold shorten_message. assert (forall r, (text_size (r_content (truncate_reasoning r)) <= MAX_LOADED_MESSAGE_CHARS)%N) as Hr
    by (intros r; by apply truncate_bound).
  destruct (existsb fst _ || _) eqn:E; cbn [snd].
  - split; cbn [versions set_reasoning set_versions].
    + apply Forall_fmap, Forall_fmap, Forall_true. intros v. apply normalize_version_bound.
    + unfold reasoning_size. cbn [reasoning set_reasoning]. destruct (reasoning m) as [r|]; cbn; [apply Hr|lia].
  - apply orb_false_iff in E as [Hv Hc]. apply existsb_none in Hv. rewrite Forall_fmap in Hv. split.
    + apply (Forall_impl _ _ _ Hv). intros v Hf. cbn in Hf. rewrite <- (unchanged_version v Hf). apply normalize_version_bound.
    + unfold reasoning_size. destruct (reasoning m) as [r|]; [|lia]. cbn [fmap option_fmap option_map] in Hc.
      apply negb_false_iff, jeqb_eq in Hc. rewrite <- Hc. apply Hr.
Qed.

Lemma same_texts limit m m' : versions m' = versions m -> reasoning_size m' = reasoning_size m -> bounded limit m -> bounded limit m'.
Proof. unfold bounded. by intros -> ->. Qed.

Lemma normalize_bounded m now1 now2 now3 : bounded MAX_LOADED_MESSAGE_CHARS (normalizeStoredMessageForLoad m now1 now2 now3).2.
Proof.
  unfold normalizeStoredMessageForLoad. pose proof (shorten_bounded m) as Hb. destruct (shorten_message m) as [changed n]. cbn [snd] in Hb.
  destruct (negb (isAssistantMessagePending n)); [exact Hb|]. destruct (negb (hasMessageContent n) && _); [exact Hb|]. cbn [snd].
  apply (same_texts _ (finalizeMessage n None now2 now3)); [by rewrite (proj1 (timed_versions _ _))|by rewrite (proj2 (timed_versions _ _))|]. by apply finalize_bounded.
Qed.

Lemma size_loop_spec backwards total kept : total = total_size kept ->
  (total_size kept <= MAX_LOADED_MESSAGES_CHARS)%N \/ length kept = 1 ->
  exists older, rev backwards ++ kept = older ++ size_loop backwards total kept /\
    ((total_size (size_loop backwards total kept) <= MAX_LOADED_MESSAGES_CHARS)%N \/ length (size_loop backwards total kept) = 1).
Proof.
  revert total kept. induction backwards as [|m l IH]; intros total kept -> Hk; [by exists []|]. cbn [size_loop].
  destruct (negb (Nat.eqb (length kept) 0) && (MAX_LOADED_MESSAGES_CHARS <? total_size kept + getMessageSize m)%N) eqn:E.
  - eexists. by split.
  - destruct (IH (total_size kept + getMessageSize m)%N (m :: kept)) as (older & Ho & Hs).
    + cbn [total_size foldr]. unfold total_size. lia.
    + apply andb_false_iff in E as [E%negb_false_iff%Nat.eqb_eq|E%N.ltb_ge].
      * right. simpl. lia.
      * left. cbn [total_size foldr]. unfold total_size in E. lia.
    + exists older. split; [|done]. cbn [rev]. rewrite <- app_assoc. exact Ho.
Qed.

Lemma size_trim_spec ms : exists older, ms = older ++ trimMessagesByContentSize ms /\
  ((total_size (trimMessagesByContentSize ms) <= MAX_LOADED_MESSAGES_CHARS)%N \/ length (trimMessagesByContentSize ms) = 1).
Proof.
  destruct (size_loop_spec (rev ms) 0 [] eq_refl) as (older & Ho & Hs); [left; vm_compute; by intros|].
  rewrite rev_involutive, app_nil_r in Ho. by exists older.
Qed.

Lemma trim_spec ms : length (trimMessages ms) <= MAX_STORED_MESSAGES /\ exists older, ms = older ++ trimMessages ms.
Proof.
  unfold trimMessages. destruct (Nat.leb_spec (length ms) MAX_STORED_MESSAGES) as [|Hl]; [by split; [|exists []]|].
  split; [rewrite length_drop; lia|]. eexists. symmetry. apply take_drop.
Qed.

(** The text of an answer that was interrupted before it began. *)
Definition interrupted_text (t : jstr -> jstr) : jstr := t API_REQUEST_ERROR ++ js ": " ++ t INTERRUPTED.

Lemma repair_versions t m now1 now2 now3 :
  (reasoning_size (repair_message t m now1 now2 now3) = reasoning_size (finalizeMessage m None now1 now2)) /\
  (versions (repair_message t m now1 now2 now3) = versions (finalizeMessage m None now1 now2) \/
   exists id, versions (repair_message t m now1 now2 now3) = [{| v_id := id; v_content := interrupted_text t |}]).
Proof.
  unfold repair_message. destruct (_ || _); rewrite (proj1 (timed_versions _ _)), (proj2 (timed_versions _ _)); split; try done.
  - by left.
  - right. by eexists.
Qed.

Lemma repair_bounded t limit m now1 now2 now3 : bounded limit m ->
  bounded (N.max limit (text_size (interrupted_text t))) (repair_message t m now1 now2 now3).
Proof.
  intros Hb%(finalize_bounded _ _ now1 now2). destruct (repair_versions t m now1 now2 now3) as [Hr Hv]. destruct Hb as [Hvs Hrs].
  split; [|rewrite Hr; lia]. destruct Hv as [->|(id & ->)]; [|repeat constructor; cbn [v_content]; lia].
  apply (Forall_impl _ _ _ Hvs). intros v ?. lia.
Qed.

Lemma repair_size t m now1 now2 now3 :
  (getMessageSize (repair_message t m now1 now2 now3) <= getMessageSize m + text_size (interrupted_text t))%N.
Proof.
  destruct (repair_versions t m now1 now2 now3) as [Hr Hv]. pose proof (finalize_smaller m now1 now2) as Hf.
  rewrite message_size in Hf. rewrite (message_size (repair_message _ _ _ _ _)), Hr. destruct Hv as [->|(id & ->)]; [lia|].
  cbn [foldr v_content]. lia.
Qed.

Lemma bounded_more limit more m : (limit <= more)%N -> bounded limit m -> bounded more m.
Proof. intros Hle [Hv Hr]. split; [|lia]. apply (Forall_impl _ _ _ Hv). intros v ?. lia. Qed.

Lemma completed_key m x : key (completeReasoningTiming m x) = key m /\ key (completeAssistantTiming m x) = key m.
Proof.
  unfold completeReasoningTiming, completeAssistantTiming. split; [|by case_bool_decide].
  destruct (reasoning m) as [r|]; [|done]. by destruct (r_durationMs r).
Qed.

Lemma finalize_key m now1 now2 : key (finalizeMessage m None now1 now2) = key m.
Proof. unfold finalizeMessage. by rewrite (proj1 (completed_key _ _)). Qed.

Lemma normalize_key m now1 now2 now3 : key (normalizeStoredMessageForLoad m now1 now2 now3).2 = key m.
Proof.
  unfold normalizeStoredMessageForLoad. assert (key (shorten_message m).2 = key m) as Hk by (unfold shorten_message; by destruct (_ || _)).
  destruct (shorten_message m) as [changed n]. cbn [snd] in Hk. destruct (negb (isAssistantMessagePending n)); [exact Hk|].
  destruct (negb (hasMessageContent n) && _); [exact Hk|]. cbn [snd]. rewrite (proj2 (completed_key _ _)).
  change (key (finalizeMessage n None now2 now3) = key m). by rewrite finalize_key.
Qed.

Lemma repair_key t m now1 now2 now3 : key (repair_message t m now1 now2 now3) = key m.
Proof.
  unfold repair_message. rewrite <- (finalize_key m now1 now2). by destruct (_ || _); rewrite (proj2 (completed_key _ _)).
Qed.

Lemma total_alter f (i : nat) (ms : list Message) bonus : (forall m, getMessageSize (f m) <= getMessageSize m + bonus)%N ->
  (total_size (alter f i ms) <= total_size ms + bonus)%N.
Proof.
  intros Hf. revert i. unfold total_size. induction ms as [|m ms IH]; intros [|i]; cbn; [lia|lia| |].
  - pose proof (Hf m). lia.
  - specialize (IH i). cbn in IH. lia.
Qed.

Lemma keys_alter (f : Message -> Message) (i : nat) (ms : list Message) : (forall m, key (f m) = key m) -> key <$> alter f i ms = key <$> ms.
Proof. intros Hf. revert i. induction ms as [|m ms IH]; intros [|i]; cbn; [done|done| |]; f_equal; [apply Hf|apply IH]. Qed.

Lemma Forall_alter {A} (P Q : A -> Prop) f (i : nat) (l : list A) : (forall x, P x -> Q x) -> (forall x, P x -> Q (f x)) -> Forall P l -> Forall Q (alter f i l).
Proof.
  intros HPQ Hf Hl. revert i. induction Hl as [|x l Hx Hl IH]; intros [|i]; cbn; [constructor|constructor| |].
  - constructor; [by apply Hf|]. by apply (Forall_impl _ _ _ Hl).
  - constructor; [by apply HPQ|apply IH].
Qed.

(** What a loaded conversation may hold: [t] translates the text of an answer that
    was interrupted before it began. *)
Definition loads_within (t : jstr -> jstr) (ms : list Message) : Prop :=
  length ms <= MAX_STORED_MESSAGES /\
  Forall (bounded (N.max MAX_LOADED_MESSAGE_CHARS (text_size (interrupted_text t)))) ms /\
  ((total_size ms <= MAX_LOADED_MESSAGES_CHARS + text_size (interrupted_text t))%N \/ length ms = 1).

Lemma sanitize_within t now1 now2 now3 kept : length kept <= MAX_STORED_MESSAGES -> Forall (bounded MAX_LOADED_MESSAGE_CHARS) kept ->
  (total_size kept <= MAX_LOADED_MESSAGES_CHARS)%N \/ length kept = 1 ->
  loads_within t (sanitizeMessagesOnLoad t kept now1 now2 now3) /\
  key <$> sanitizeMessagesOnLoad t kept now1 now2 now3 = key <$> kept.
Proof.
  intros Hl Hb Hs. unfold sanitizeMessagesOnLoad. destruct (last_pending kept) as [i|].
  - split; [|apply keys_alter; intros m; apply repair_key]. split; [by rewrite length_alter|]. split.
    + apply (Forall_alter (bounded MAX_LOADED_MESSAGE_CHARS)); [intros m; apply bounded_more; lia|intros m; apply repair_bounded|done].
    + rewrite length_alter. destruct Hs as [Hs|Hs]; [left|by right].
      pose proof (total_alter (fun m => repair_message t m now1 now2 now3) i kept _ (fun m => repair_size t m now1 now2 now3)). lia.
  - split; [|done]. split; [done|]. split; [|destruct Hs; [left; lia|by right]].
    apply (Forall_impl _ _ _ Hb). intros m. apply bounded_more. lia.
Qed.

Lemma suffix_keys (l older l' : list Message) : l = older ++ l' -> key <$> l = (key <$> older) ++ (key <$> l').
Proof. intros ->. apply fmap_app. Qed.

Lemma restore_within t now parsed : loads_within t (restore t now parsed) /\
  exists older, key <$> parsed = older ++ (key <$> restore t now parsed).
Proof.
  unfold restore. set (normalized := (normalize_all now parsed).*2).
  destruct (trim_spec normalized) as (Hl & older1 & E1). destruct (size_trim_spec (trimMessages normalized)) as (older2 & E2 & Hs).
  set (kept := trimMessagesByContentSize (trimMessages normalized)) in *.
  assert (Forall (bounded MAX_LOADED_MESSAGE_CHARS) kept) as Hb.
  { assert (Forall (bounded MAX_LOADED_MESSAGE_CHARS) normalized) as Hn.
    { unfold normalized, normalize_all. rewrite fmap_imap. apply Forall_lookup. intros i m Hi. rewrite list_lookup_imap in Hi.
      destruct (parsed !! i) as [m0|]; [|done]. injection Hi as <-. apply normalize_bounded. }
    rewrite E1, E2 in Hn. apply Forall_app in Hn as [_ Hn]. by apply Forall_app in Hn as [_ Hn]. }
  destruct (sanitize_within t (now (3 * length parsed)) (now (3 * length parsed + 1)) (now (3 * length parsed + 2)) kept) as [Hw Hk];
    [rewrite E2, length_app in Hl; lia|done|done|].
  split; [exact Hw|]. rewrite Hk. exists ((key <$> older1) ++ (key <$> older2)). rewrite <- app_assoc, <- fmap_app, <- E2, <- fmap_app, <- E1.
  unfold normalized, normalize_all. rewrite fmap_imap, fmap_imap, <- (imap_const key). apply imap_ext. intros i m _. symmetry. apply normalize_key.
Qed.

(** C21: Whatever the storage holds, what is loaded keeps within the limits: at most
    100 messages, each text within 40000 code units, and 120000 in all unless only
    one message is left; an answer that was interrupted before it began may hold the
    notice of that instead.  The messages kept are the newest ones, in their order. *)
Theorem loaded_messages_bounded `{SchemaParser} accepts t now store ms store' :
  loadMessages accepts t now store = (Some ms, store') ->
  loads_within t ms /\
  exists saved data older, fst (readStoredMessagesValue store) = Some saved /\
    parse messagesSchema (unwrapStoredValue saved) = Some data /\
    key <$> messages_of data = older ++ (key <$> ms).
Proof.
  unfold loadMessages. destruct (readStoredMessagesValue store) as [[saved|] s]; [|done]. destruct (negb (truthy saved)); [done|].
  destruct (parse messagesSchema (unwrapStoredValue saved)) as [data|] eqn:Ed; [|done]. intros [= <- _].
  destruct (restore_within t now (messages_of data)) as [Hw (older & Ho)]. split; [done|]. by exists saved, data, older.
Qed.

(** ** Saving and loading *)


(** Saving has no limit on the length of the text; loading removes a text that is
    longer than [MAX_STORED_MESSAGES_BYTES] instead of shortening its messages. *)
Lemma oversized_conversation_dropped `{SchemaParser} accepts t now ms store : roomy accepts -> Forall storable ms ->
  length ms <= MAX_STORED_MESSAGES -> (MAX_STORED_MESSAGES_BYTES < N.of_nat (length (messages_text ms)))%N ->
  loadMessages accepts t now (saveMessages accepts ms store) = (None, delete MESSAGES_KEY (saveMessages accepts ms store)).
Proof.
  intros Hroom Hst Hl Hlong. rewrite (save_messages accepts ms store) by done. unfold loadMessages, readStoredMessagesValue.
  rewrite lookup_insert_eq. destruct (messages_text ms) as [|c text] eqn:E; [unfold messages_text in E; by apply stored_some in E; [|apply messages_plain]|].
  by rewrite (proj2 (N.ltb_lt _ _) Hlong).
Qed.

(** ** Messages that the schema refuses *)

Lemma bad_code_refused strict m : code_ok (errorCode m) \/ conforms strict messageSchema (message_value m) = false.
Proof.
  destruct (errorCode m) as [| |b|x|s|items|entries] eqn:E; try by left.
  all: right; unfold messageSchema, message_value, members; cbn [conforms]; apply andb_false_iff; left;
    rewrite <- not_true_iff_false, forallb_forall; intros Hall; specialize (Hall (optional_member "errorCode" (ZNullable ZString)));
    cbn [fst snd optional_member] in Hall; rewrite obj_get_members in Hall by apply message_keys;
    change (member_of (message_fields m) (js "errorCode")) with (default JUndefined (defined (errorCode m))) in Hall;
    rewrite E in Hall; cbn in Hall; discriminate Hall; unfold messageSchema; cbn [In]; tauto.
Qed.

Lemma refused_message `{SchemaParser} accepts m ms store : m ∈ trimMessages ms -> ~ code_ok (errorCode m) ->
  saveMessages accepts ms store = store.
Proof.
  intros Hm Hc. destruct (bad_code_refused false m) as [|Hf]; [done|]. apply save_refused. unfold messagesSchema, messages_value.
  cbn [conforms]. apply andb_false_iff. right. rewrite <- not_true_iff_false, forallb_forall. intros Hall.
  rewrite (Hall (message_value m)) in Hf; [done|]. apply list_elem_of_In. by apply list_elem_of_fmap_2.
Qed.

Lemma last_kept m (ms : list Message) : last ms = Some m -> m ∈ trimMessages ms.
Proof.
  intros (l & ->)%last_Some. unfold trimMessages, MAX_STORED_MESSAGES.
  destruct (Nat.leb_spec (length (l ++ [m])) 100) as [|Hl]; [set_solver|]. rewrite length_app in *. cbn [length] in *.
  rewrite drop_app_le by lia. set_solver.
Qed.

Lemma error_code_set ms text code title now m : last ms = Some m -> from m = Assistant -> truthy code = true ->
  exists m', last (updateAssistantMessageWithError ms text code title now) = Some m' /\ errorCode m' = code.
Proof.
  intros Hl Hf Ht. unfold updateAssistantMessageWithError, updateLastAssistantMessage. rewrite Hl, bool_decide_true by done.
  rewrite last_lookup, length_alter, <- Nat.sub_1_r, list_lookup_alter. rewrite last_lookup, <- Nat.sub_1_r in Hl. rewrite Hl.
  rewrite decide_True by done. eexists. split; [reflexivity|]. unfold completeAssistantTiming. rewrite Ht. by case_bool_decide.
Qed.

(** C22: A numeric error code stops the saving of the conversation.  Servers send
    codes as texts or as numbers, and the client keeps what it gets in the message;
    but the schema of stored messages wants a text: after an error with a code that
    is not a text, a save leaves the storage as it was, and so does every later one
    while the message is among the last hundred. *)
Theorem numeric_code_blocks_saving `{SchemaParser} accepts ms m text code title now later :
  last ms = Some m -> from m = Assistant -> truthy code = true -> ~ code_ok code ->
  let failed := updateAssistantMessageWithError ms text code title now in
  length later < MAX_STORED_MESSAGES ->
  forall store, saveMessages accepts failed store = store /\ saveMessages accepts (failed ++ later) store = store.
Proof.
  intros Hl Hf Ht Hc failed Hlater store. destruct (error_code_set ms text code title now m Hl Hf Ht) as (m' & Hm' & <-).
  fold failed in Hm'. split; (apply (refused_message accepts m'); [|done]); [by apply last_kept|].
  apply last_Some in Hm' as (l & E). rewrite E, <- app_assoc. unfold trimMessages.
  destruct (Nat.leb_spec (length (l ++ [m'] ++ later)) MAX_STORED_MESSAGES) as [|Hlong]; [set_solver|].
  rewrite !length_app in *. cbn [length] in *. rewrite drop_app_le by lia. set_solver.
Qed.

(** ** The hook *)

Section Hook.
Context `{SchemaParser} (accepts : local_storage -> jstr -> jstr -> bool) (t : jstr -> jstr) (now : nat -> f64).
Hypothesis Hroom : roomy accepts.
























End Hook.


(** ** Instances *)

Definition plenty : local_storage -> jstr -> jstr -> bool := fun _ _ _ => true.

Lemma plenty_roomy : roomy plenty.
Proof. done. Defined.

Definition clock (k : nat) : f64 := f64_of_Z (Z.of_nat k).

Definition sample_user : Message := createUserMessage (js "k1") (js "v1") (js "Hi") (literal "1000").
Definition sample_waiting : Message := createLoadingAssistantMessage (js "k2") (js "v2") (literal "1000").

(** The text that holds the messages of an interrupted session. *)
Definition interrupted_store : local_storage := {[ MESSAGES_KEY := messages_text [sample_user; sample_waiting] ]}.

Definition interrupted_load : option (list Message) * local_storage := @loadMessages strict_parser plenty id clock interrupted_store.

Lemma loaded_messages_bounded_witness :
  getMessageContent <$> default [] (fst interrupted_load) = [js "Hi"; js "Request error occurred: Generation was interrupted"] /\
  loads_within id (default [] (fst interrupted_load)).
Proof.
  split; [vm_compute; reflexivity|].
  apply (@loaded_messages_bounded strict_parser plenty id clock interrupted_store _ (snd interrupted_load)).
  vm_compute. reflexivity.
Defined.

Lemma numeric_code_blocks_saving_witness :
  let failed := updateAssistantMessageWithError [sample_user; sample_waiting] (js "busy") (JNum (literal "429")) (js "Error") (literal "2000") in
  @saveMessages strict_parser plenty failed ∅ = ∅ /\ @saveMessages strict_parser plenty (failed ++ [sample_user]) ∅ = ∅.
Proof.
  apply (@numeric_code_blocks_saving strict_parser plenty [sample_user; sample_waiting] sample_waiting (js "busy") (JNum (literal "429"))
    (js "Error") (literal "2000") [sample_user]); [reflexivity|reflexivity|reflexivity|by intros []|simpl; unfold MAX_STORED_MESSAGES; lia].
Defined.


Lemma json_number_by_computation x : valid_binary prec emax x = true -> is_finite x = true -> x <> S754_zero true -> json_number_ok x.
Proof. done. Defined.

Ltac number_by_computation := apply json_number_by_computation; [vm_compute; reflexivity|vm_compute; reflexivity|by intros E; vm_compute in E].




Lemma settings_round_trip_witness :
  let saved := @saveParameterEnabled strict_parser plenty DEFAULT_PARAMETER_ENABLED (@saveConfig strict_parser plenty DEFAULT_CONFIG ∅) in
  @getInitialPlaygroundConfig strict_parser saved = DEFAULT_CONFIG.
Proof.
  apply (@settings_round_trip strict_parser plenty DEFAULT_CONFIG DEFAULT_PARAMETER_ENABLED ∅ plenty_roomy).
  constructor; [|done]. repeat (constructor; [number_by_computation|]). constructor.
Defined.

(** A line of a section, long enough for the limit of 2000. *)
Definition filler : jstr := replicate 1000 120%N ++ [10%N].
Definition section (title : string) : jstr := js "## 1. " ++ js title ++ [10%N].
Definition repeated_sections : jstr :=
  section "B" ++ section "B" ++ section "B" ++ section "A" ++ filler ++ section "A" ++ filler ++ section "A" ++ filler.

(** The text is cut where the first of the last sections begins, and what is left may
    hold a section three times again: every load cuts further. *)
Example collapse_again :
  collapseRepeatedSectionSnapshots repeated_sections
  = section "B" ++ section "A" ++ filler ++ section "A" ++ filler ++ section "A" ++ filler /\
  collapseRepeatedSectionSnapshots (collapseRepeatedSectionSnapshots repeated_sections) = section "A" ++ filler.
Proof. vm_compute. by split. Qed.
End StorageFacts.
