(* ===== verification/PlaygroundParameterFacts.v ===== *)
(** * Playground parameters: theorems

    A number that the user enters becomes a value of the parameter's control: a
    number of tenths, or a whole number, between its limits. *)

From stdpp Require Import base list numbers strings.
From Stdlib Require Import ZArith SpecFloat Lia.
From S2P Require Import Prelude.
From S2P Require Import JsString.
From S2P Require Import JsNumber.
From S2P Require Import JsNumberFacts.
From S2P Require Import JsIntegers.
From S2P Require Import PlaygroundMessages.
From S2P Require Import PlaygroundStorage.

Module ParameterFacts.
Import Storage.
#[local] Open Scope Z_scope.

(** ** The order of binary64 numbers *)

Lemma mantissas_sym (m m' : positive) : Pos.compare_cont Eq m' m = CompOpp (Pos.compare_cont Eq m m').
Proof. by rewrite Pos.compare_cont_antisym. Qed.

Lemma compare_sym a b c : SFcompare a b = Some c -> SFcompare b a = Some (CompOpp c).
Proof.
  destruct a as [[]|[]| |[] m e], b as [[]|[]| |[] m' e']; cbn [SFcompare]; try (by intros [= <-]); try done;
    rewrite (Z.compare_antisym e e'), (mantissas_sym m m'); destruct (e ?= e'); cbn [CompOpp]; intros [= <-]; try done.
Qed.

Lemma compare_total a b : feqb a a = true -> feqb b b = true -> exists c, SFcompare a b = Some c.
Proof. destruct a as [[]|[]| |[] m e], b as [[]|[]| |[] m' e']; try done; intros _ _; by eexists. Qed.

Lemma not_less a b : feqb a a = true -> feqb b b = true -> fltb b a = false -> fleb a b = true.
Proof.
  intros Ha Hb. destruct (compare_total b a Hb Ha) as [c Hc]. unfold fltb, fleb, SFltb, SFleb. rewrite Hc, (compare_sym _ _ _ Hc). by destruct c.
Qed.

Lemma less_le a b : fltb a b = true -> fleb a b = true.
Proof. unfold fltb, fleb, SFltb, SFleb. by destruct (SFcompare a b) as [[]|]. Qed.

Lemma fleb_refl a : feqb a a = true -> fleb a a = true.
Proof.
  intros Ha. apply not_less; [done..|]. unfold fltb, SFltb. destruct (compare_total a a Ha Ha) as [c Hc].
  pose proof (compare_sym _ _ _ Hc) as Hc'. rewrite Hc in *. by destruct c.
Qed.

Lemma fmax_above low x : feqb x x = true -> feqb low low = true -> feqb (fmax low x) (fmax low x) = true /\ fleb low (fmax low x) = true.
Proof.
  intros Hx Hl. pose proof (fleb_refl low Hl) as Hll.
  unfold fmax. destruct low as [s|s| |s m e], x as [s'|s'| |s' m' e']; try done; try (by destruct s, s');
    destruct (fltb _ _) eqn:E; split; try done; by apply less_le.
Qed.

Lemma fmin_below high low y : feqb y y = true -> feqb high high = true -> fleb low y = true -> fleb low high = true ->
  fleb low (fmin high y) = true /\ fleb (fmin high y) high = true.
Proof.
  intros Hy Hh Hly Hlh. pose proof (fleb_refl high Hh) as Hhh.
  unfold fmin. destruct high as [s|s| |s m e], y as [s'|s'| |s' m' e']; try done; try (by destruct s, s');
    destruct (fltb _ _) eqn:E; split; try done; by apply less_le.
Qed.

(** A number between two others. *)
Lemma clamped_between low high x : feqb x x = true -> feqb low low = true -> feqb high high = true -> fleb low high = true ->
  fleb low (fmin high (fmax low x)) = true /\ fleb (fmin high (fmax low x)) high = true.
Proof. intros Hx Hl Hh Hlh. destruct (fmax_above low x Hx Hl) as [Hy Hly]. by apply fmin_below. Qed.

Lemma clamped_valid low high x : valid_binary prec emax x = true -> valid_binary prec emax low = true -> valid_binary prec emax high = true ->
  valid_binary prec emax (fmin high (fmax low x)) = true.
Proof.
  assert (forall a b, valid_binary prec emax a = true -> valid_binary prec emax b = true ->
    valid_binary prec emax (fmin a b) = true /\ valid_binary prec emax (fmax a b) = true) as H.
  { intros a b Ha Hb. unfold fmin, fmax. destruct a as [s|s| |s m e], b as [s'|s'| |s' m' e']; try done; by destruct (fltb _ _), (fltb _ _). }
  intros Hx Hl Hh. apply H; [done|]. by apply H.
Qed.

(** ** Values under a bound *)

(** A canonical number below a normal one. *)
Lemma below_value m e mb eb : bounded prec emax m e = true -> 2 ^ 52 <= Zpos mb ->
  fleb (S754_finite false m e) (S754_finite false mb eb) = true -> e <= eb /\ Zpos m <= Zpos mb * 2 ^ (eb - e).
Proof.
  intros Hb Hmb Hle. destruct (bounded_limits m e Hb) as [Hm _]. unfold fleb, SFleb in Hle. cbn [SFcompare] in Hle.
  destruct (Z.compare_spec e eb) as [->|Hlt|Hgt]; [|split; [lia|]|done].
  - rewrite Z.sub_diag. split; [lia|]. change (Pos.compare_cont Eq m mb) with (m ?= mb)%positive in Hle.
    destruct (Pos.compare_spec m mb); lia || done.
  - assert (2 ^ 1 <= 2 ^ (eb - e)) by (apply Z.pow_le_mono_r; lia). nia.
Qed.

(** A canonical number above a normal one. *)
Lemma above_value m e mb eb : bounded prec emax m e = true -> Zpos mb < 2 ^ 53 -> -1074 <= eb ->
  fleb (S754_finite false mb eb) (S754_finite false m e) = true -> eb <= e /\ Zpos mb <= Zpos m * 2 ^ (e - eb).
Proof.
  intros Hb Hmb Heb Hle. unfold fleb, SFleb in Hle. cbn [SFcompare] in Hle.
  destruct (Z.compare_spec eb e) as [->|Hlt|Hgt]; [|split; [lia|]|done].
  - rewrite Z.sub_diag. split; [lia|]. change (Pos.compare_cont Eq mb m) with (mb ?= m)%positive in Hle.
    destruct (Pos.compare_spec mb m); lia || done.
  - assert (2 ^ 1 <= 2 ^ (e - eb)) by (apply Z.pow_le_mono_r; lia).
    assert (2 ^ 52 <= Zpos m).
    { unfold bounded, canonical_mantissa in Hb. apply andb_true_iff in Hb as [Hc%Z.eqb_eq _].
      pose proof (digits2_pos_bounds m) as [H1 _]. unfold fexp, emin, prec, emax in Hc.
      etransitivity; [|exact H1]. apply Z.pow_le_mono_r; lia. }
    nia.
Qed.

(** ** Tenths *)

Lemma scaled_under m e k : bounded prec emax m e = true -> 0 <= k <= 1 ->
  fleb (S754_finite false m e) (S754_finite false 4503599627370496 (k - 52)) = true -> Z.of_N (nearest_scaled 1 m e) <= 10 * 2 ^ k.
Proof.
  intros Hb Hk Hle. apply below_value in Hle as [He Hm]; [|done|by vm_compute]. unfold nearest_scaled.
  replace (Z.max 0 e) with 0 by lia. replace (Z.max 0 (- e)) with (- e) by lia.
  change (Zpos 4503599627370496) with (2 ^ 52) in Hm. rewrite <- Z.pow_add_r in Hm by lia. replace (52 + (k - 52 - e)) with (k + - e) in Hm by lia.
  rewrite Z.pow_add_r in Hm by lia. assert (0 < 2 ^ (- e)) by (apply Z.pow_pos_nonneg; lia). assert (0 < 2 ^ k) by (apply Z.pow_pos_nonneg; lia).
  change (2 ^ 0) with 1. change (10 ^ Z.of_nat 1) with 10. rewrite Z2N.id by (apply Z.div_pos; nia).
  apply Z.lt_succ_r, Z.div_lt_upper_bound; [lia|]. nia.
Qed.

Lemma scaled_over m e : bounded prec emax m e = true ->
  fleb (literal "0.1") (S754_finite false m e) = true -> 1 <= Z.of_N (nearest_scaled 1 m e).
Proof.
  intros Hb Hle. assert (literal "0.1" = S754_finite false 7205759403792794 (-56)) as E by (vm_compute; reflexivity). rewrite E in Hle.
  apply above_value in Hle as [He Hm]; [|done|by vm_compute|lia]. unfold nearest_scaled. change (10 ^ Z.of_nat 1) with 10.
  destruct (Z.le_ge_cases 0 e) as [Hp|Hn].
  - replace (Z.max 0 e) with e by lia. replace (Z.max 0 (- e)) with 0 by lia. change (2 ^ 0) with 1.
    assert (0 < 2 ^ e) by (apply Z.pow_pos_nonneg; lia). rewrite Z2N.id by (apply Z.div_pos; nia).
    apply Z.div_le_lower_bound; nia.
  - replace (Z.max 0 e) with 0 by lia. replace (Z.max 0 (- e)) with (- e) by lia. change (2 ^ 0) with 1.
    assert (0 < 2 ^ (- e)) by (apply Z.pow_pos_nonneg; lia). rewrite Z2N.id by (apply Z.div_pos; nia).
    assert (7205759403792794 * 2 ^ (- e) <= Zpos m * 2 ^ 56) as Hm'.
    { replace (2 ^ 56) with (2 ^ (e - -56) * 2 ^ (- e)) by (rewrite <- Z.pow_add_r by lia; f_equal; lia). nia. }
    apply Z.div_le_lower_bound; [lia|]. change (2 ^ 56) with 72057594037927936 in Hm'. lia.
Qed.

(** ** Whole numbers *)

Lemma integer_part m e mb eb : bounded prec emax m e = true -> 2 ^ 52 <= Zpos mb -> eb <= 0 ->
  fleb (S754_finite false m e) (S754_finite false mb eb) = true ->
  0 <= fst (trunc_parts m e) <= Zpos mb / 2 ^ (- eb) /\
  ftrunc (S754_finite false m e) = f64_of_Z (fst (trunc_parts m e)).
Proof.
  intros Hb Hmb Heb Hle. apply below_value in Hle as [He Hm]; [|done..]. split.
  - unfold trunc_parts. destruct (Z.leb_spec 0 e) as [Hp|Hn]; cbn [fst].
    + assert (e = 0) as -> by lia. assert (eb = 0) as -> by lia. rewrite Z.shiftl_0_r. change (2 ^ (0 - 0)) with 1 in Hm.
      change (2 ^ - 0) with 1. rewrite Z.div_1_r. lia.
    + rewrite Z.shiftr_div_pow2 by lia. split; [apply Z.div_pos; [lia|apply Z.pow_pos_nonneg; lia]|].
      assert (0 < 2 ^ (- eb)) by (apply Z.pow_pos_nonneg; lia). assert (0 < 2 ^ (eb - e)) by (apply Z.pow_pos_nonneg; lia).
      replace (- e) with ((eb - e) + - eb) by lia. rewrite Z.pow_add_r by lia. rewrite <- Z.div_div by lia.
      apply Z.div_le_mono; [lia|]. apply Z.div_le_upper_bound; lia.
  - unfold ftrunc. destruct (trunc_parts m e) as [q exact] eqn:E. cbn [fst]. destruct exact; [|done].
    assert (canonical_pair m e /\ e <= emax - prec) as [Hc Hem].
    { unfold bounded, canonical_mantissa in Hb. apply andb_true_iff in Hb as [Hc%Z.eqb_eq Hm'%Z.leb_le]. done. }
    unfold trunc_parts in E. unfold f64_of_Z, binary_normalize. destruct (Z.leb_spec 0 e) as [Hp|Hn].
    + injection E as <-. rewrite Z.shiftl_mul_pow2 by lia. destruct (Zpos m * 2 ^ e) as [|p|p] eqn:Ep; try (assert (0 < 2 ^ e) by (apply Z.pow_pos_nonneg; lia); lia).
      symmetry. apply (round_exact false p 0 m e 0); [lia|lia| |done|done]. rewrite !Z.sub_0_r. change (2 ^ 0) with 1. lia.
    + injection E as <- Eq%Z.eqb_eq. rewrite Z.shiftl_mul_pow2, Z.shiftr_div_pow2 in Eq by lia. rewrite Z.shiftr_div_pow2 by lia.
      assert (0 < 2 ^ (- e)) by (apply Z.pow_pos_nonneg; lia).
      destruct (Zpos m / 2 ^ (- e)) as [|p|p] eqn:Ep; [lia| |lia]. symmetry.
      apply (round_exact false p 0 m e e); [lia|lia| |done|done]. rewrite Z.sub_diag. change (2 ^ 0) with 1. rewrite Z.sub_0_l. lia.
Qed.

(** ** The values of the controls *)

(** The number of [n] tenths. *)
Definition tenths (negative : bool) (n : N) : f64 := number_of_string ((if negative then js "-" else []) ++ digits_with_point 1 n).

Definition control_value (k : parameter_key) (x : f64) : Prop :=
  match k with
  | KTemperature | KTopP => exists n, (1 <= n <= 10)%N /\ x = tenths false n
  | KFrequencyPenalty | KPresencePenalty => exists s n, (n <= 20)%N /\ x = tenths s n
  | KMaxTokens => exists z, 0 <= z <= 200000 /\ x = f64_of_Z z
  | KSeed => exists z, 0 <= z <= 2147483647 /\ x = f64_of_Z z
  end.

Definition entered (value : jstr + f64) : f64 := match value with inl text => parse_float text | inr x => x end.

(** The field is empty, or does not begin with a number. *)
Definition no_number (value : jstr + f64) : Prop := value = inl [] \/ feqb (entered value) (entered value) = false.

Lemma fneg_valid x : valid_binary prec emax x = true -> valid_binary prec emax (fneg x) = true.
Proof. by destruct x. Qed.

Lemma parse_float_valid text : valid_binary prec emax (parse_float text) = true.
Proof.
  assert (forall (u : jstr -> f64), (forall l, valid_binary prec emax (u l) = true) ->
    valid_binary prec emax (match drop_spaces text with 43%N :: l => u l | 45%N :: l => fneg (u l) | l => u l end) = true) as Hu.
  { intros u Hu. repeat case_match; first [apply fneg_valid, Hu | apply Hu]. }
  apply (Hu (fun l => if starts_with (js "Infinity") l then S754_infinity false
    else match scan_decimal l with Some d => decimal_value d | None => S754_nan end)).
  intros l. destruct (starts_with _ l); [done|]. destruct (scan_decimal l) as [d|]; [|done]. apply dec_to_f64_valid.
Qed.

Lemma tenths_between c : valid_binary prec emax c = true -> fleb (literal "0.1") c = true -> fleb c (literal "1") = true ->
  exists n, (1 <= n <= 10)%N /\ number_of_string (to_fixed 1 c) = tenths false n.
Proof.
  intros Hv Hl Hh. destruct c as [s|s| |s m e]; [done|by destruct s|done|]. destruct s; [done|].
  exists (nearest_scaled 1 m e). split; [|done]. assert (literal "1" = S754_finite false 4503599627370496 (0 - 52)) as E by (vm_compute; reflexivity).
  rewrite E in Hh. pose proof (scaled_under m e 0 Hv ltac:(lia) Hh). pose proof (scaled_over m e Hv Hl). lia.
Qed.

Lemma signed_tenths c : valid_binary prec emax c = true -> fleb (literal "-2") c = true -> fleb c (literal "2") = true ->
  exists s n, (n <= 20)%N /\ number_of_string (to_fixed 1 c) = tenths s n.
Proof.
  intros Hv Hl Hh. assert (literal "2" = S754_finite false 4503599627370496 (1 - 52)) as E by (vm_compute; reflexivity).
  assert (literal "-2" = S754_finite true 4503599627370496 (1 - 52)) as E' by (vm_compute; reflexivity). rewrite E in Hh. rewrite E' in Hl.
  destruct c as [s|s| |s m e]; [by exists false, 0%N|by destruct s|done|]. exists s, (nearest_scaled 1 m e). split; [|done].
  assert (fleb (S754_finite false m e) (S754_finite false 4503599627370496 (1 - 52)) = true) as Hle.
  { destruct s; [|exact Hh]. revert Hl. unfold fleb, SFleb. cbn [SFcompare]. rewrite (Z.compare_antisym e), (mantissas_sym m).
    destruct (e ?= 1 - 52); cbn [CompOpp]; try done. by destruct (Pos.compare_cont Eq m 4503599627370496). }
  pose proof (scaled_under m e 1 Hv ltac:(lia) Hle). lia.
Qed.

Lemma whole_between c mb eb : valid_binary prec emax c = true -> 2 ^ 52 <= Zpos mb -> eb <= 0 -> fleb fzero c = true ->
  fleb c (S754_finite false mb eb) = true -> c <> S754_zero true ->
  exists z, 0 <= z <= Zpos mb / 2 ^ (- eb) /\ ftrunc c = f64_of_Z z.
Proof.
  intros Hv Hmb Heb Hl Hh Hz. destruct c as [s|s| |s m e]; [|by destruct s|done|].
  - destruct s; [done|]. exists 0. split; [|done]. split; [lia|]. apply Z.div_pos; [lia|]. apply Z.pow_pos_nonneg; lia.
  - destruct s; [done|]. destruct (integer_part m e mb eb Hv Hmb Heb Hh) as [Hq E]. by eexists.
Qed.

Lemma clamp_positive high x : high <> S754_zero true -> (forall b, high <> S754_zero b) -> fmin high (fmax fzero x) <> S754_zero true.
Proof.
  intros Hh Hn. unfold fmin, fmax, fzero. destruct high as [s|s| |s m e]; [by destruct (Hn s)|..]; destruct x as [s'|s'| |s' m' e']; try done;
    repeat case_match; simplify_eq/=; try done; by rewrite andb_false_l in *.
Qed.

Lemma number_or_not value : no_number value \/ (value <> inl [] /\ feqb (entered value) (entered value) = true).
Proof.
  unfold no_number. destruct (feqb (entered value) (entered value)); [|by left; right].
  destruct value as [[|c text]|x]; [by left; left|by right..].
Qed.

Lemma normalize_nothing k value : no_number value -> normalizeParameterNumberValue k value = no_value k.
Proof.
  intros [->|Hn]; [done|]. unfold normalizeParameterNumberValue. fold (entered value). rewrite Hn.
  destruct value as [[|c text]|x]; [done|..]; by destruct (List.find _ _).
Qed.

Definition control_for (k : parameter_key) : ParameterControl :=
  match k with
  | KTemperature | KTopP => {| pc_key := k; pc_min := literal "0.1"; pc_max := literal "1"; pc_step := literal "0.1" |}
  | KFrequencyPenalty | KPresencePenalty => {| pc_key := k; pc_min := literal "-2"; pc_max := literal "2"; pc_step := literal "0.1" |}
  | KMaxTokens => {| pc_key := k; pc_min := fzero; pc_max := literal "200000"; pc_step := literal "1" |}
  | KSeed => {| pc_key := k; pc_min := fzero; pc_max := literal "2147483647"; pc_step := literal "1" |}
  end.

Lemma find_control k : List.find (fun c => bool_decide (pc_key c = k)) PLAYGROUND_PARAMETER_CONTROLS = Some (control_for k).
Proof. destruct k; reflexivity. Qed.

(** The value of an entered number, before it is rounded. *)
Definition clamped (k : parameter_key) (x : f64) : f64 := fmin (pc_max (control_for k)) (fmax (pc_min (control_for k)) x).

Definition rounded (k : parameter_key) (x : f64) : f64 :=
  match k with
  | KMaxTokens | KSeed => ftrunc (clamped k x)
  | _ => number_of_string (to_fixed 1 (clamped k x))
  end.

Lemma rounding k x : (if fleb (literal "1") (pc_step (control_for k)) then ftrunc (clamped k x)
  else number_of_string (to_fixed (step_precision (pc_step (control_for k))) (clamped k x))) = rounded k x.
Proof.
  assert (fleb (literal "1") (literal "0.1") = false) as E1 by (vm_compute; reflexivity).
  assert (fleb (literal "1") (literal "1") = true) as E2 by (vm_compute; reflexivity).
  assert (step_precision (literal "0.1") = 1%nat) as E3 by (vm_compute; reflexivity).
  destruct k; cbn [control_for pc_step rounded]; rewrite ?E1, ?E2, ?E3; reflexivity.
Qed.

Lemma normalize_entered k value : value <> inl [] -> feqb (entered value) (entered value) = true ->
  normalizeParameterNumberValue k value = Some (rounded k (entered value)).
Proof.
  intros Hne Hx. rewrite <- rounding. unfold normalizeParameterNumberValue. fold (entered value). rewrite find_control, Hx. cbn [negb].
  fold (clamped k (entered value)). destruct value as [[|c text]|x]; [congruence|..]; destruct (fleb _ _); reflexivity.
Qed.

Lemma clamped_limits k x : valid_binary prec emax x = true -> feqb x x = true ->
  valid_binary prec emax (clamped k x) = true /\ fleb (pc_min (control_for k)) (clamped k x) = true /\
  fleb (clamped k x) (pc_max (control_for k)) = true.
Proof.
  intros Hv Hx. unfold clamped. split; [apply clamped_valid|apply clamped_between]; [exact Hv|..|exact Hx| | |];
    destruct k; vm_compute; reflexivity.
Qed.

Lemma entered_value k x : valid_binary prec emax x = true -> feqb x x = true -> control_value k (rounded k x).
Proof.
  intros Hv Hx. destruct (clamped_limits k x Hv Hx) as (Hc & Hl & Hh).
  assert (pc_min (control_for k) = fzero -> clamped k x <> S754_zero true) as Hz.
  { intros E. unfold clamped. rewrite E. destruct k; apply clamp_positive; vm_compute; congruence. }
  destruct k; cbn [control_value rounded control_for pc_min pc_max] in *.
  - by apply tenths_between.
  - by apply tenths_between.
  - assert (literal "200000" = S754_finite false 6871947673600000 (-35)) as E by (vm_compute; reflexivity). rewrite E in Hh.
    exact (whole_between _ 6871947673600000 (-35) Hc ltac:(done) ltac:(done) Hl Hh (Hz eq_refl)).
  - by apply signed_tenths.
  - by apply signed_tenths.
  - assert (literal "2147483647" = S754_finite false 9007199250546688 (-22)) as E by (vm_compute; reflexivity). rewrite E in Hh.
    exact (whole_between _ 9007199250546688 (-22) Hc ltac:(done) ltac:(done) Hl Hh (Hz eq_refl)).
Qed.

(** C23: What is entered for a parameter (any text, or any number of the language)
    becomes a value of its control. An entry that begins with a number becomes a number
    of tenths from 0.1 to 1 (temperature, top-p), a number of tenths from -2 to 2 (the
    penalties), or a whole number from 0 to 200000 (tokens) or to 2147483647 (seed), and
    never nothing; an empty entry, or one that does not begin with a number, becomes zero,
    and [null] for the seed. *)
Theorem parameter_in_range k value : valid_binary prec emax (entered value) = true ->
  (no_number value ->
     normalizeParameterNumberValue k value = if bool_decide (k = KSeed) then None else Some fzero) /\
  (~ no_number value ->
     exists x, normalizeParameterNumberValue k value = Some x /\ control_value k x).
Proof.
  intros Hv. split; [apply normalize_nothing|].
  intros Hn. destruct (number_or_not value) as [?|[Hne Hx]]; [done|].
  exists (rounded k (entered value)). split; [by apply normalize_entered|by apply entered_value].
Qed.

Lemma parameter_in_range_witness :
  (exists x, normalizeParameterNumberValue KTemperature (inl (js "0.75")) = Some x /\ control_value KTemperature x) /\
  normalizeParameterNumberValue KTemperature (inl (js "warm")) = Some fzero /\
  normalizeParameterNumberValue KSeed (inl []) = None.
Proof.
  split; [|split].
  - apply (parameter_in_range KTemperature (inl (js "0.75"))); [vm_compute; reflexivity|].
    intros [Hn|Hn]; [discriminate Hn | vm_compute in Hn; discriminate Hn].
  - apply (parameter_in_range KTemperature (inl (js "warm"))); [vm_compute; reflexivity|].
    right. vm_compute. reflexivity.
  - apply (parameter_in_range KSeed (inl [])); [vm_compute; reflexivity|]. by left.
Defined.

(** Every text is a valid entry. *)
Lemma text_valid text : valid_binary prec emax (entered (inl text)) = true.
Proof. apply parse_float_valid. Qed.
End ParameterFacts.
