(* ===== verification/BillingTaskForm.v ===== *)
(** * Billing expressions: the task pricing form

    Model of [features/pricing/lib/task-expr.ts], the form that edits the price
    of a task model as tiers or as a matrix of enum values, one definition per
    function.  An object used as a dictionary is the list of its entries in
    insertion order, [null] and [undefined] arguments are [None], and the numbers
    of the form are numbers, as their types say ([Number] of a missing price is
    [NaN]).  [localeCompare], which depends on the user's locale, is the
    operation of the class [Collation]. *)

From stdpp Require Import base list numbers strings.
From Stdlib Require Import ZArith SpecFloat Lia.
From S2P Require Import Prelude.
From S2P Require Import JsString.
From S2P Require Import JsNumber.
From S2P Require Import JsValue.
From S2P Require Import BillingTypes.
From S2P Require Import BillingParser.
From S2P Require Import BillingCompile.
From S2P Require Import BillingRuntime.
From S2P Require Import BillingStructure.
From S2P Require Import BillingDisplay.
From S2P Require Import BillingRequestRules.
From S2P Require Import JsCollections.

Module TaskForm.
Import RequestRules.

(** ** Data *)

Definition TASK_TOKEN_PRICE_SCALE : f64 := f64_of_Z 1000000.

(** A condition is a field with its value; a tier has the fields of the tiers
    that [parseTaskTiersFromExpr] returns. *)
Abbreviation TaskVisualCondition := (jstr * jstr)%type.
Abbreviation TaskVisualTier := TaskTier.
Abbreviation TaskVisualConfig := (list TaskTier).

Record TaskMatrixRow := {
  mr_combination : list (jstr * jstr);
  mr_constant : f64;
  mr_unitPrices : list (jstr * f64);
}.

Abbreviation TaskMatrixConfig := (list TaskMatrixRow).

(** A value of a usage sample: [number | string]. *)
Inductive TaskFact := FactNum (x : f64) | FactStr (s : jstr).

Inductive TaskPart :=
| ConstantPart (amount : f64)
| UsagePart (field : jstr) (amount quantity unitPrice : f64).

Record TaskPreviewResult := {
  pr_tier : TaskVisualTier;
  pr_total : f64;
  pr_parts : list TaskPart;
}.

Record BillingUsageExample := { ex_label : jstr; ex_facts : list (jstr * TaskFact) }.

(** [Object.fromEntries(entries)] *)
Definition from_entries {A} (entries : list (jstr * A)) : list (jstr * A) :=
  foldl (fun m e => map_set (fst e) (snd e) m) [] entries.

Section Form.
Context `{Collation}.

(** ** The fields of a schema *)

(** [entries.sort(([left], [right]) => left.localeCompare(right))] *)
Fixpoint insert_by_key {A} (x : jstr * A) (l : list (jstr * A)) : list (jstr * A) :=
  match l with
  | [] => [x]
  | y :: l' =>
      match localeCompare (fst x) (fst y) with
      | Gt => y :: insert_by_key x l'
      | _ => x :: l
      end
  end.

Definition sort_by_key {A} (l : list (jstr * A)) : list (jstr * A) := foldr insert_by_key [] l.

Definition is_number_field (entry : jstr * BillingUsageFieldSchema) : bool :=
  match uf_type (snd entry), uf_unit (snd entry) with
  | Some FTnumber, Some _ => true
  | _, _ => false
  end.

Definition is_enum_field (entry : jstr * BillingUsageFieldSchema) : bool :=
  match uf_enum (snd entry) with Some (_ :: _) => true | _ => false end.

Definition getTaskNumberFields (schema : option BillingUsageSchema) : list (jstr * BillingUsageFieldSchema) :=
  match schema with
  | None => []
  | Some s => sort_by_key (List.filter is_number_field s)
  end.

Definition getTaskEnumFields (schema : option BillingUsageSchema) : list (jstr * BillingUsageFieldSchema) :=
  match schema with
  | None => []
  | Some s => sort_by_key (List.filter is_enum_field s)
  end.

(** One round of the outer loop of [getTaskEnumCombinations]. *)
Definition extend_combinations (field : jstr) (values : list jstr) (combinations : list (list (jstr * jstr)))
    : list (list (jstr * jstr)) :=
  concat (map (fun combination => map (fun value => map_set field value combination) values) combinations).

Definition getTaskEnumCombinations (schema : option BillingUsageSchema) : list (list (jstr * jstr)) :=
  foldl (fun combinations entry =>
           extend_combinations (fst entry) (default [] (uf_enum (snd entry))) combinations)
    [[]] (getTaskEnumFields schema).

(** ** Defaults *)

Definition zero_prices (schema : BillingUsageSchema) : list (jstr * f64) :=
  from_entries ((fun entry => (fst entry, fzero)) <$> getTaskNumberFields (Some schema)).

Definition createDefaultTaskVisualConfig (schema : BillingUsageSchema) : TaskVisualConfig :=
  [{| tk_label := js "base"; tk_conditions := []; tk_constant := fzero; tk_unitPrices := zero_prices schema |}].

Definition createDefaultTaskMatrixConfig (schema : BillingUsageSchema) : TaskMatrixConfig :=
  (fun combination => {| mr_combination := combination; mr_constant := fzero;
                         mr_unitPrices := zero_prices schema |}) <$> getTaskEnumCombinations (Some schema).

(** ** The matrix *)

(** [values.join('·')]: the separator is the middle dot. *)
Definition taskMatrixRowLabel (combination : list (jstr * jstr)) : jstr :=
  match snd <$> sort_by_key combination with
  | [] => js "base"
  | values => join [183%N] values
  end.

(** [JSON.stringify] of an array of strings, a missing one being [null]. *)
Definition json_array (values : list (option jstr)) : jstr :=
  js "[" ++ join (js ",") ((fun v => match v with Some s => json_stringify s | None => js "null" end) <$> values)
  ++ js "]".

Definition taskMatrixCombinationKey (combination : list (jstr * jstr))
    (enumFields : list (jstr * BillingUsageFieldSchema)) : jstr :=
  json_array ((fun entry => assoc (fst entry) combination) <$> enumFields).

(** [a[field] === b[field]] *)
Definition same_price_of (field : jstr) (a b : list (jstr * f64)) : bool :=
  match assoc field a, assoc field b with
  | Some x, Some y => feqb x y
  | None, None => true
  | _, _ => false
  end.

(** [Object.fromEntries(numberFields.map(([field]) => [field, prices[field] ?? 0]))] *)
Definition prices_of (numberFields : list (jstr * BillingUsageFieldSchema)) (prices : list (jstr * f64))
    : list (jstr * f64) :=
  from_entries ((fun entry => (fst entry, default fzero (assoc (fst entry) prices))) <$> numberFields).

Definition matrix_uniform (rows : list TaskMatrixRow) (firstRow : TaskMatrixRow)
    (numberFields : list (jstr * BillingUsageFieldSchema)) : bool :=
  forallb (fun row =>
    feqb (mr_constant row) (mr_constant firstRow) &&
    forallb (fun entry => same_price_of (fst entry) (mr_unitPrices row) (mr_unitPrices firstRow)) numberFields) rows.

Definition row_tier (numberFields : list (jstr * BillingUsageFieldSchema)) (last : nat) (index : nat)
    (row : TaskMatrixRow) : TaskVisualTier :=
  {| tk_label := taskMatrixRowLabel (mr_combination row);
     tk_conditions := if Nat.eqb index last then [] else sort_by_key (mr_combination row);
     tk_constant := mr_constant row;
     tk_unitPrices := prices_of numberFields (mr_unitPrices row) |}.

Definition taskMatrixToTiers (config : TaskMatrixConfig) (schema : BillingUsageSchema) : list TaskVisualTier :=
  let numberFields := getTaskNumberFields (Some schema) in
  match numberFields, config with
  | [], _ | _, [] => []
  | _, firstRow :: _ =>
      if matrix_uniform config firstRow numberFields then
        [{| tk_label := js "base"; tk_conditions := []; tk_constant := mr_constant firstRow;
            tk_unitPrices := prices_of numberFields (mr_unitPrices firstRow) |}]
      else imap (row_tier numberFields (length config - 1)) config
  end.

(** A tier of the expression as a row of the matrix. *)
Definition tier_row (numberFields : list (jstr * BillingUsageFieldSchema)) (tier : TaskTier)
    (combination : list (jstr * jstr)) : TaskMatrixRow :=
  {| mr_combination := combination; mr_constant := tk_constant tier;
     mr_unitPrices := prices_of numberFields (tk_unitPrices tier) |}.

(** The loop over the conditions of a tier. *)
Fixpoint values_by_field (schema : BillingUsageSchema) (conditions : list (jstr * jstr))
    (values : list (jstr * jstr)) : option (list (jstr * jstr)) :=
  match conditions with
  | [] => Some values
  | (field, value) :: rest =>
      if bool_decide (field ∈ values.*1) then None
      else
        match d ← assoc field schema; uf_enum d with
        | Some e => if bool_decide (value ∈ e) then values_by_field schema rest (map_set field value values) else None
        | None => None
        end
  end.

(** The loop over the tiers before the fallback; [map] is [tiersByCombination]. *)
Fixpoint tiers_by_combination (schema : BillingUsageSchema)
    (enumFields : list (jstr * BillingUsageFieldSchema)) (tiers : list TaskTier) (m : list (jstr * TaskTier))
    : option (list (jstr * TaskTier)) :=
  match tiers with
  | [] => Some m
  | tier :: rest =>
      if negb (Nat.eqb (length (tk_conditions tier)) (length enumFields)) then None
      else
        match values_by_field schema (tk_conditions tier) [] with
        | None => None
        | Some values =>
            if negb (Nat.eqb (length values) (length enumFields)) then None
            else
              let combination :=
                from_entries ((fun entry => (fst entry, default [] (assoc (fst entry) values))) <$> enumFields) in
              let key := taskMatrixCombinationKey combination enumFields in
              match assoc key m with
              | Some _ => None
              | None => tiers_by_combination schema enumFields rest (map_set key tier m)
              end
        end
  end.

(** The loop that makes the rows. *)
Fixpoint matrix_rows (enumFields numberFields : list (jstr * BillingUsageFieldSchema))
    (m : list (jstr * TaskTier)) (combinations : list (list (jstr * jstr))) : option (list TaskMatrixRow) :=
  match combinations with
  | [] => Some []
  | combination :: rest =>
      match assoc (taskMatrixCombinationKey combination enumFields) m with
      | None => None
      | Some tier => cons (tier_row numberFields tier combination) <$> matrix_rows enumFields numberFields m rest
      end
  end.

(** The part of [tryParseTaskMatrixConfig] after the tiers are read. *)
Definition matrix_of_tiers (schema : BillingUsageSchema) (tiers : list TaskTier) : option TaskMatrixConfig :=
  let enumFields := getTaskEnumFields (Some schema) in
  let numberFields := getTaskNumberFields (Some schema) in
  let combinations := getTaskEnumCombinations (Some schema) in
  match tiers, last tiers with
  | [], _ | _, None => None
  | _, Some fallbackTier =>
      if Nat.eqb (length tiers) 1 && Nat.eqb (length (tk_conditions fallbackTier)) 0 then
        Some (tier_row numberFields fallbackTier <$> combinations)
      else if negb (Nat.eqb (length tiers) (length combinations)) then None
      else if negb (Nat.eqb (length (tk_conditions fallbackTier)) 0) then None
      else
        match tiers_by_combination schema enumFields (take (length tiers - 1) tiers) [] with
        | None => None
        | Some m =>
            match List.filter (fun combination =>
                     match assoc (taskMatrixCombinationKey combination enumFields) m with
                     | Some _ => false | None => true end) combinations with
            | [missing] =>
                matrix_rows enumFields numberFields
                  (map_set (taskMatrixCombinationKey missing enumFields) fallbackTier m) combinations
            | _ => None
            end
        end
  end.

Definition tryParseTaskMatrixConfig (expression : option jstr) (schema : BillingUsageSchema)
    : res json_error (option TaskMatrixConfig) :=
  match expression with
  | None | Some [] => Ok None
  | Some e => res_bind (parseTaskTiersFromExpr compile e (Some schema) false) (fun tiers =>
                Ok (matrix_of_tiers schema tiers))
  end.

(** ** Normal form and text of a configuration *)

(** [Number(prices?.[field])] *)
Definition price_number (prices : list (jstr * f64)) (field : jstr) : f64 :=
  default S754_nan (assoc field prices).

(** [Number.isFinite(value) && value >= 0 ? value : 0] *)
Definition usable_price (value : f64) : f64 := if is_finite value && fleb fzero value then value else fzero.

Definition tier_label (label : jstr) (index : nat) : jstr :=
  match label with
  | [] => if Nat.eqb index 0 then js "base" else js "tier_" ++ nat_digits (index + 1)
  | _ => label
  end.

Definition enum_condition (schema : BillingUsageSchema) (condition : jstr * jstr) : bool :=
  match d ← assoc (fst condition) (getTaskEnumFields (Some schema)); uf_enum d with
  | Some e => bool_decide (snd condition ∈ e)
  | None => false
  end.

Definition normalize_tier (schema : BillingUsageSchema) (index : nat) (tier : TaskVisualTier) : TaskVisualTier :=
  {| tk_label := tier_label (tk_label tier) index;
     tk_conditions := List.filter (enum_condition schema) (tk_conditions tier);
     tk_constant := usable_price (tk_constant tier);
     tk_unitPrices :=
       from_entries ((fun entry => (fst entry, usable_price (price_number (tk_unitPrices tier) (fst entry))))
                       <$> getTaskNumberFields (Some schema)) |}.

Definition normalizeTaskVisualConfig (config : option TaskVisualConfig) (schema : BillingUsageSchema)
    : TaskVisualConfig :=
  match config with
  | None | Some [] => createDefaultTaskVisualConfig schema
  | Some tiers => imap (normalize_tier schema) tiers
  end.

(** [`u(${JSON.stringify(field)})`] *)
Definition usage_text (field : jstr) : jstr := js "u(" ++ json_stringify field ++ js ")".

Definition price_text (tier : TaskVisualTier) (entry : jstr * BillingUsageFieldSchema) : jstr :=
  let price := default fzero (assoc (fst entry) (tk_unitPrices tier)) in
  if bool_decide (uf_unit (snd entry) = Some UStoken)
  then usage_text (fst entry) ++ js " * " ++ number_to_string price ++ js " / "
       ++ number_to_string TASK_TOKEN_PRICE_SCALE
  else usage_text (fst entry) ++ js " * " ++ number_to_string price.

Definition generateTaskTierBody (tier : TaskVisualTier) (numberFields : list (jstr * BillingUsageFieldSchema))
    : jstr :=
  join (js " + ")
    ((if fltb fzero (tk_constant tier) then [number_to_string (tk_constant tier)] else [])
       ++ (price_text tier <$> numberFields)).

(** [`tier(${JSON.stringify(label)}, ${body})`] *)
Definition tier_call_text (label body : jstr) : jstr :=
  js "tier(" ++ json_stringify label ++ js ", " ++ body ++ js ")".

Definition generateTaskTierCall (tier : TaskVisualTier) (numberFields : list (jstr * BillingUsageFieldSchema))
    : jstr :=
  tier_call_text (tk_label tier) (generateTaskTierBody tier numberFields).

Definition generateTaskCondition (conditions : list TaskVisualCondition) : jstr :=
  join (js " && ")
    ((fun condition => usage_text (fst condition) ++ js " == " ++ json_stringify (snd condition)) <$> conditions).

(** The loop over the tiers; [None] when it returns the empty text. *)
Fixpoint tier_texts (numberFields : list (jstr * BillingUsageFieldSchema)) (tiers : list TaskVisualTier)
    : option (list jstr) :=
  match tiers with
  | [] => Some []
  | [tier] => Some [generateTaskTierCall tier numberFields]
  | tier :: rest =>
      match generateTaskCondition (tk_conditions tier) with
      | [] => None
      | condition =>
          cons (condition ++ js " ? " ++ generateTaskTierCall tier numberFields) <$> tier_texts numberFields rest
      end
  end.

Definition generateTaskExprFromConfig (config : option TaskVisualConfig) (schema : BillingUsageSchema) : jstr :=
  match getTaskNumberFields (Some schema) with
  | [] => []
  | numberFields =>
      match normalizeTaskVisualConfig config schema with
      | [tier] => generateTaskTierCall tier numberFields
      | tiers => match tier_texts numberFields tiers with
                 | Some parts => join (js " : ") parts
                 | None => []
                 end
      end
  end.

Definition tryParseTaskVisualConfig (expression : option jstr) (schema : BillingUsageSchema)
    : res json_error (option TaskVisualConfig) :=
  match expression with
  | None | Some [] => Ok None
  | Some e =>
      res_bind (parseTaskTiersFromExpr compile e (Some schema) false) (fun tiers =>
        Ok (match tiers with
            | [] => None
            | _ => Some (normalizeTaskVisualConfig (Some tiers) schema)
            end))
  end.

(** ** The preview *)

(** [Number(sample[field])] *)
Definition fact_number (sample : list (jstr * TaskFact)) (field : jstr) : f64 :=
  match assoc field sample with
  | Some (FactNum x) => x
  | Some (FactStr s) => number_of_string s
  | None => S754_nan
  end.

(** [sample[condition.field] === condition.value] *)
Definition fact_is (sample : list (jstr * TaskFact)) (condition : TaskVisualCondition) : bool :=
  match assoc (fst condition) sample with
  | Some (FactStr s) => jeqb s (snd condition)
  | _ => false
  end.

Definition preview_tier (config : TaskVisualConfig) (sample : list (jstr * TaskFact)) : option TaskVisualTier :=
  match last config with
  | None => None
  | Some fallback =>
      Some (default fallback
              (List.find (fun tier => forallb (fact_is sample) (tk_conditions tier))
                 (take (length config - 1) config)))
  end.

Definition usable_number (x : f64) : bool := is_finite x && negb (fltb x fzero).

(** [schema?.[field]?.unit === 'token'] *)
Definition token_unit (schema : option BillingUsageSchema) (field : jstr) : bool :=
  match s ← schema; d ← assoc field s; uf_unit d with
  | Some UStoken => true
  | _ => false
  end.

(** The loop over the unit prices. *)
Fixpoint usage_parts (schema : option BillingUsageSchema) (sample : list (jstr * TaskFact))
    (unitPrices : list (jstr * f64)) : option (list TaskPart) :=
  match unitPrices with
  | [] => Some []
  | (field, unitPrice) :: rest =>
      if negb (usable_number unitPrice) then None
      else if feqb unitPrice fzero then usage_parts schema sample rest
      else
        let quantity := fact_number sample field in
        if negb (usable_number quantity) then None
        else
          let amount := if token_unit schema field
                        then fdiv (fmul quantity unitPrice) TASK_TOKEN_PRICE_SCALE else fmul quantity unitPrice in
          if negb (is_finite amount) then None
          else cons (UsagePart field amount quantity unitPrice) <$> usage_parts schema sample rest
  end.

Definition fact_value (f : TaskFact) : jsval :=
  match f with FactNum x => JNum x | FactStr s => JStr s end.

(** The loop that builds the terms and the usage of the expression. *)
Fixpoint preview_terms (schema : option BillingUsageSchema) (parts : list TaskPart) (terms : list jstr)
    (usage : list (jstr * jsval)) : list jstr * list (jstr * jsval) :=
  match parts with
  | [] => (terms, usage)
  | UsagePart ((_ :: _) as field) _ quantity unitPrice :: rest =>
      preview_terms schema rest
        (terms ++ [usage_text field ++ js " * " ++ number_to_string unitPrice
                   ++ (if token_unit schema field then js " / 1000000" else [])])
        (map_set field (JNum quantity) usage)
  | _ :: rest => preview_terms schema rest terms usage
  end.

Definition usage_context (usage : list (jstr * jsval)) : BillingSimulationContext :=
  {| tokens := None; request := None; usage := Some usage; ctx_now := None |}.

Definition evaluateTaskVisualConfig `{Host} (config : TaskVisualConfig) (sample : list (jstr * TaskFact))
    (schema : option BillingUsageSchema) : option TaskPreviewResult :=
  match preview_tier config sample with
  | None => None
  | Some matchedTier =>
      let constant := tk_constant matchedTier in
      if negb (usable_number constant) then None
      else
        match usage_parts schema sample (tk_unitPrices matchedTier) with
        | None => None
        | Some used =>
            let parts := (if fltb fzero constant then [ConstantPart constant] else []) ++ used in
            let '(terms, normalizedUsage) :=
              preview_terms schema parts [number_to_string constant] (prod_map id fact_value <$> sample) in
            match evaluateBillingExpression
                    (compile (tier_call_text (tk_label matchedTier) (join (js " + ") terms)))
                    (usage_context normalizedUsage) with
            | Success cost _ _ _ _ => Some {| pr_tier := matchedTier; pr_total := cost; pr_parts := parts |}
            | Failure _ => None
            end
        end
  end.

Definition example_row `{Host} (config : TaskVisualConfig) (schema : BillingUsageSchema)
    (example : BillingUsageExample) : option (jstr * f64) :=
  result ← evaluateTaskVisualConfig config (ex_facts example) (Some schema);
  Some (ex_label example, pr_total result).

Definition evaluateTaskUsageExamples `{Host} (expression : option jstr) (schema : option BillingUsageSchema)
    (examples : option (list BillingUsageExample)) : res json_error (list (jstr * f64)) :=
  match expression, schema, examples with
  | Some ((_ :: _) as e), Some s, Some ((_ :: _) as l) =>
      res_bind (splitBillingExprAndRequestRules e) (fun split =>
      res_bind (tryParseTaskVisualConfig (Some (fst split)) s) (fun config =>
        Ok (match config with
            | None => []
            | Some c => omap (example_row c s) l
            end)))
  | _, _, _ => Ok []
  end.
End Form.
End TaskForm.
