(* ===== verification/BillingTaskFormFacts.v ===== *)
(** * Properties of the task pricing form

    The trees of the texts that the form writes, the summaries read from them, and
    the round trip of the tiers. *)

From stdpp Require Import base list numbers strings sets.
From Stdlib Require Import ZArith SpecFloat Lia.
From S2P Require Import Prelude.
From S2P Require Import JsString.
From S2P Require Import JsNumber.
From S2P Require Import JsNumberFacts.
From S2P Require Import JsValue.
From S2P Require Import JsJson.
From S2P Require Import BillingTypes.
From S2P Require Import BillingParser.
From S2P Require Import BillingCompile.
From S2P Require Import BillingCompileFacts.
From S2P Require Import BillingRuntime.
From S2P Require Import BillingStructure.
From S2P Require Import BillingDisplay.
From S2P Require Import BillingRequestRules.
From S2P Require Import BillingRequestRulesFacts.
From S2P Require Import BillingPrint.
From S2P Require Import JsCollections.
From S2P Require Import BillingTaskForm.

Module TaskFormFacts.
Import RequestRules RequestRulesFacts TaskForm.

(** ** The trees of the texts *)

Abbreviation sp0 := (mkspan 0 0).

Definition number_flag (x : f64) : bool := default false (dec_integer <$> scan_decimal (number_to_string x)).
Definition num_node (x : f64) : ExpressionNode := Literal sp0 (LNum x (number_flag x)).
Definition str_node (s : jstr) : ExpressionNode := Literal sp0 (LStr s).
Definition usage_node (field : jstr) : ExpressionNode := Call sp0 Fu [str_node field].

(** [a o b o c], to the left. *)
Definition chain (o : binop) (first : ExpressionNode) (rest : list ExpressionNode) : ExpressionNode :=
  foldl (Binary sp0 o) first rest.

Definition chain_of (o : binop) (l : list ExpressionNode) : ExpressionNode :=
  match l with first :: rest => chain o first rest | [] => num_node fzero end.

Definition scaled_node (token : bool) (field : jstr) (price : f64) : ExpressionNode :=
  let product := Binary sp0 Bmul (usage_node field) (num_node price) in
  if token then Binary sp0 Bdiv product (num_node TASK_TOKEN_PRICE_SCALE) else product.

Definition price_node (tier : TaskTier) (entry : jstr * BillingUsageFieldSchema) : ExpressionNode :=
  scaled_node (bool_decide (uf_unit (snd entry) = Some UStoken)) (fst entry)
    (default fzero (assoc (fst entry) (tk_unitPrices tier))).

Definition constant_terms (constant : f64) : list ExpressionNode :=
  if fltb fzero constant then [num_node constant] else [].

Definition tier_node (label : jstr) (body : ExpressionNode) : ExpressionNode :=
  Call sp0 Ftier [str_node label; body].

Definition tier_tree (numberFields : list (jstr * BillingUsageFieldSchema)) (tier : TaskTier) : ExpressionNode :=
  tier_node (tk_label tier)
    (chain_of Badd (constant_terms (tk_constant tier) ++ (price_node tier <$> numberFields))).

Definition condition_node (condition : jstr * jstr) : ExpressionNode :=
  Binary sp0 Beq (usage_node (fst condition)) (str_node (snd condition)).

Fixpoint config_tree (numberFields : list (jstr * BillingUsageFieldSchema)) (tiers : list TaskTier) : ExpressionNode :=
  match tiers with
  | [] => num_node fzero
  | [tier] => tier_tree numberFields tier
  | tier :: rest =>
      Conditional sp0 (chain_of Band (condition_node <$> tk_conditions tier)) (tier_tree numberFields tier)
        (config_tree numberFields rest)
  end.

(** ** Texts that may be followed by a blank, a comma or a closing parenthesis *)

Definition soft (u : jstr) : Prop :=
  match u with [] => True | c :: _ => (c =? 32)%N || (c =? 41)%N || (c =? 44)%N = true end.

Lemma soft_separate t u : soft u -> BillingPrint.separate t u.
Proof.
  destruct u as [|c u]; [done|]. simpl. rewrite !orb_true_iff, !N.eqb_eq. intros [[->| ->]| ->]; by destruct t.
Qed.

Definition prints (ts : list token) (u : jstr) : Prop :=
  forall ts' u', soft u' -> laid ts' u' -> laid (ts ++ ts') (u ++ u').

Lemma prints_token t : tok_ok t -> prints [t] (tok_text t).
Proof. intros Ht ts' u' Hs Hl. apply laid_token; [done|by apply soft_separate|done]. Qed.

Lemma prints_app ts u ts' u' : prints ts u -> prints ts' u' -> soft u' -> prints (ts ++ ts') (u ++ u').
Proof.
  intros H1 H2 Hs ts2 u2 Hs2 Hl. rewrite <- !app_assoc. apply H1; [|by apply H2].
  destruct u' as [|c u']; [done|]. exact Hs.
Qed.

Lemma prints_blank ts u : prints ts u -> prints ts (32%N :: u).
Proof. intros H ts' u' Hs Hl. apply laid_blank; [done|]. by apply H. Qed.

(** [a o b] *)
Lemma prints_infix ts1 u1 o ts2 u2 : prints ts1 u1 -> prints ts2 u2 -> is_symbol o = true ->
  prints (ts1 ++ TokSym o :: ts2) (u1 ++ [32%N] ++ o ++ [32%N] ++ u2).
Proof.
  intros H1 H2 Ho. apply prints_app; [done| |done]. apply prints_blank.
  apply (prints_app [TokSym o] o ts2 ([32%N] ++ u2)); [by apply (prints_token (TokSym o))| |done].
  by apply prints_blank.
Qed.

(** [name(a, b)]: what is printed after the name begins with a quote. *)
Lemma prints_call name ts s u : is_name name = true -> prints ts u -> soft u ->
  prints (TokName name :: sym "(" :: TokStr s :: ts ++ [sym ")"])
    (name ++ js "(" ++ json_stringify s ++ u ++ js ")").
Proof.
  intros Hn Hu Hsoft ts' u' Hs Hl.
  assert (laid (sym "(" :: TokStr s :: ts ++ [sym ")"] ++ ts')
            (js "(" ++ json_stringify s ++ u ++ js ")" ++ u')) as Hrest.
  { apply (laid_token (sym "(")); [done|done|]. apply (laid_token (TokStr s)); [done|by destruct (u ++ _)|].
    apply Hu; [done|]. by apply (laid_token (sym ")")); [|apply soft_separate|]. }
  cbn [app]. rewrite <- !app_assoc. by apply (laid_token (TokName name)).
Qed.

Lemma prints_nil : prints [] [].
Proof. by intros ts' u' _. Qed.

Lemma prints_number x : number_ok x (number_flag x) -> prints (body_tokens (num_node x)) (number_to_string x).
Proof. intros Hx. by apply (prints_token (TokNum x (number_flag x))). Qed.

Lemma prints_usage field : prints (body_tokens (usage_node field)) (usage_text field).
Proof. apply (prints_call (js "u") [] field []); [done|apply prints_nil|done]. Qed.

(** ** Chains of operators *)

Lemma chain_tokens o first rest : Forall (fun n => binop_prec o < node_prec n) (first :: rest) ->
  body_tokens (chain o first rest) = body_tokens first ++ concat ((fun n => TokSym (binop_name o) :: body_tokens n) <$> rest)
  /\ binop_prec o <= node_prec (chain o first rest).
Proof.
  intros [Hf Hr]%Forall_cons.
  assert (forall acc, binop_prec o <= node_prec acc ->
    body_tokens (foldl (Binary sp0 o) acc rest)
    = body_tokens acc ++ concat ((fun n => TokSym (binop_name o) :: body_tokens n) <$> rest)
    /\ binop_prec o <= node_prec (foldl (Binary sp0 o) acc rest)) as H; [|apply H; lia].
  clear Hf. induction Hr as [|n rest Hn Hr IH]; intros acc Hacc; [by rewrite app_nil_r|].
  cbn [foldl fmap list_fmap concat]. destruct (IH (Binary sp0 o acc n)) as [-> Hp]; [simpl; lia|].
  split; [|done]. cbn [body_tokens]. unfold enclose.
  rewrite (proj2 (Nat.ltb_ge (node_prec acc) _)), (proj2 (Nat.ltb_ge (node_prec n) _)) by lia.
  by rewrite <- app_assoc.
Qed.

Lemma join_head sep x xs : join sep (x :: xs) = x ++ concat ((fun y => sep ++ y) <$> xs).
Proof.
  revert x. induction xs as [|y xs IH]; intros x; [simpl; by rewrite app_nil_r|].
  rewrite join_cons, IH by done. simpl. by rewrite <- app_assoc.
Qed.

Lemma prints_chain o ns us : ns <> [] -> Forall (fun n => binop_prec o < node_prec n) ns ->
  Forall2 (fun n u => prints (body_tokens n) u) ns us ->
  prints (body_tokens (chain_of o ns)) (join ([32%N] ++ binop_name o ++ [32%N]) us).
Proof.
  intros Hne Hp Hu. destruct Hu as [|n u ns us Hn Hu]; [done|]. cbn [chain_of].
  destruct (chain_tokens o n ns Hp) as [-> _]. rewrite join_head. clear Hne.
  assert (is_symbol (binop_name o) = true) as Ho by (by destruct o).
  clear Hp. revert u Hn. generalize (body_tokens n) as ts. intros ts u Hn. revert ts u Hn. induction Hu as [|n' u' ns us Hn' Hu IH]; intros ts u Hn.
  - simpl. by rewrite !app_nil_r.
  - cbn [fmap list_fmap concat]. rewrite (app_assoc ts), (app_assoc u). apply IH.
    rewrite <- !app_assoc. by apply prints_infix.
Qed.

(** ** The texts of the form *)

Abbreviation fields := (list (jstr * BillingUsageFieldSchema)).

Definition form_number (x : f64) : Prop := number_ok x (number_flag x).

Definition price_at (tier : TaskTier) (field : jstr) : f64 := default fzero (assoc field (tk_unitPrices tier)).

(** The numbers of a tier can be written and read back. *)
Definition numbers_ok (numberFields : fields) (tier : TaskTier) : Prop :=
  form_number (tk_constant tier) /\ Forall (fun e => form_number (price_at tier (fst e))) numberFields.

Lemma scale_number : form_number TASK_TOKEN_PRICE_SCALE.
Proof. unfold form_number, number_ok. split_and!; vm_compute; reflexivity. Qed.

Lemma prints_scaled (token : bool) field x : form_number x ->
  prints (body_tokens (scaled_node token field x))
    (usage_text field ++ js " * " ++ number_to_string x
     ++ (if token then js " / " ++ number_to_string TASK_TOKEN_PRICE_SCALE else [])).
Proof.
  intros Hx.
  assert (prints (body_tokens (scaled_node false field x)) (usage_text field ++ js " * " ++ number_to_string x)) as H.
  { apply (prints_infix (body_tokens (usage_node field)) _ (js "*") (body_tokens (num_node x)));
      [apply prints_usage | by apply prints_number | done]. }
  destruct token; [|by rewrite app_nil_r].
  apply (prints_infix _ _ (js "/") (body_tokens (num_node TASK_TOKEN_PRICE_SCALE))) with
    (u2 := number_to_string TASK_TOKEN_PRICE_SCALE) in H; [|apply prints_number, scale_number | done].
  by rewrite <- !app_assoc in H.
Qed.

Lemma prints_price tier entry : form_number (price_at tier (fst entry)) ->
  prints (body_tokens (price_node tier entry)) (price_text tier entry).
Proof.
  intros Hx. unfold price_node, price_text. pose proof (prints_scaled (bool_decide (uf_unit (snd entry) = Some UStoken))
    (fst entry) _ Hx) as H. unfold price_at in H. case_bool_decide; [done|]. by rewrite app_nil_r in H.
Qed.

Lemma price_node_prec tier entry : 5 < node_prec (price_node tier entry).
Proof. unfold price_node, scaled_node. case_bool_decide; simpl; lia. Qed.

Lemma terms_prec numberFields tier :
  Forall (fun n => 5 < node_prec n) (constant_terms (tk_constant tier) ++ (price_node tier <$> numberFields)).
Proof.
  apply Forall_app_2.
  - unfold constant_terms. case_match; repeat constructor; simpl; lia.
  - apply Forall_fmap, Forall_true. intros e. apply price_node_prec.
Qed.

Lemma terms_some numberFields tier : numberFields <> [] ->
  constant_terms (tk_constant tier) ++ (price_node tier <$> numberFields) <> [].
Proof. destruct numberFields; [done|]. intros _. by destruct (constant_terms _). Qed.

Lemma prints_body numberFields tier : numberFields <> [] -> numbers_ok numberFields tier ->
  prints (body_tokens (chain_of Badd (constant_terms (tk_constant tier) ++ (price_node tier <$> numberFields))))
    (generateTaskTierBody tier numberFields).
Proof.
  intros Hne [Hc Hp]. apply (prints_chain Badd); [by apply terms_some | apply terms_prec|].
  apply Forall2_app.
  - unfold constant_terms. case_match; [|constructor]. constructor; [by apply prints_number|constructor].
  - apply Forall2_fmap, Forall_Forall2_diag. eapply Forall_impl; [exact Hp|]. intros e. apply prints_price.
Qed.

Lemma prints_call_tier label ts u : prints ts u ->
  prints (TokName (js "tier") :: sym "(" :: TokStr label :: (sym "," :: ts) ++ [sym ")"]) (tier_call_text label u).
Proof.
  intros Hu. apply (prints_call (js "tier") (sym "," :: ts) label (js ", " ++ u)); [done| |done].
  apply (prints_app [sym ","] (js ",") ts ([32%N] ++ u)); [by apply (prints_token (sym ","))| |done].
  by apply prints_blank.
Qed.

Lemma prints_tier numberFields tier : numberFields <> [] -> numbers_ok numberFields tier ->
  prints (body_tokens (tier_tree numberFields tier)) (generateTaskTierCall tier numberFields).
Proof. intros Hne Hn. by apply prints_call_tier, prints_body. Qed.

Lemma prints_condition conditions : conditions <> [] ->
  prints (body_tokens (chain_of Band (condition_node <$> conditions))) (generateTaskCondition conditions).
Proof.
  intros Hne. apply (prints_chain Band); [by destruct conditions | |].
  - apply Forall_fmap, Forall_true. intros e. simpl. lia.
  - apply Forall2_fmap, Forall_Forall2_diag, Forall_true. intros e.
    apply (prints_infix (body_tokens (usage_node (fst e))) _ (js "==") [TokStr (snd e)]);
      [apply prints_usage | by apply (prints_token (TokStr (snd e))) | done].
Qed.

Lemma band_prec conditions : 2 <= node_prec (chain_of Band (condition_node <$> conditions)).
Proof.
  destruct conditions as [|c l]; [simpl; lia|]. cbn [fmap list_fmap chain_of].
  apply (chain_tokens Band). constructor; [simpl; lia|]. apply Forall_fmap, Forall_true. intros e. simpl. lia.
Qed.

Lemma tier_texts_inv nf tier tier2 tiers parts : tier_texts nf (tier :: tier2 :: tiers) = Some parts ->
  tk_conditions tier <> [] /\ exists rest, tier_texts nf (tier2 :: tiers) = Some rest /\ rest <> [] /\
    parts = (generateTaskCondition (tk_conditions tier) ++ js " ? " ++ generateTaskTierCall tier nf) :: rest.
Proof.
  assert (forall l r, tier_texts nf l = Some r -> l <> [] -> r <> []) as Hsome.
  { intros [|t [|t' l]] r; [done|by intros [= <-]|]. cbn [tier_texts]. destruct (generateTaskCondition _); [done|].
    by intros (r' & _ & ->)%fmap_Some. }
  cbn [tier_texts]. destruct (generateTaskCondition (tk_conditions tier)) as [|c cs] eqn:Ec; [done|].
  intros (rest & Hrest & ->)%fmap_Some. split; [intros E; by rewrite E in Ec|].
  exists rest. split_and!; [done|by apply (Hsome (tier2 :: tiers))|done].
Qed.

Lemma prints_config numberFields tiers parts : numberFields <> [] -> tiers <> [] ->
  Forall (numbers_ok numberFields) tiers -> tier_texts numberFields tiers = Some parts ->
  prints (body_tokens (config_tree numberFields tiers)) (join (js " : ") parts) /\ parts <> [].
Proof.
  intros Hne Hts Hn. revert parts. induction Hn as [|tier tiers Htier Hn IH]; [done|]. intros parts Hp.
  destruct tiers as [|tier2 tiers].
  { simpl in Hp. simplify_eq. split; [by apply prints_tier|done]. }
  apply tier_texts_inv in Hp as (Hc & rest & Hp & _ & ->).
  destruct (IH ltac:(done) rest Hp) as [Hrest Hr]. split; [|done]. rewrite join_cons by done.
  change (config_tree numberFields (tier :: tier2 :: tiers)) with
    (Conditional sp0 (chain_of Band (condition_node <$> tk_conditions tier)) (tier_tree numberFields tier)
       (config_tree numberFields (tier2 :: tiers))).
  cbn [body_tokens]. unfold enclose. rewrite (proj2 (Nat.ltb_ge _ 1)) by (pose proof (band_prec (tk_conditions tier)); lia).
  rewrite <- !app_assoc.
  apply (prints_infix _ _ (js "?") (body_tokens (tier_tree numberFields tier) ++ _)
    (generateTaskTierCall tier numberFields ++ js " : " ++ join (js " : ") rest)); [by apply prints_condition| |done].
  apply (prints_infix _ _ (js ":")); [by apply prints_tier|done|done].
Qed.

(** ** The trees are expressions of the language *)

Lemma chain_ind (P Q : ExpressionNode -> Prop) o first rest :
  (forall a b, P a -> Q b -> P (Binary sp0 o a b)) -> P first -> Forall Q rest -> P (chain o first rest).
Proof.
  intros Hstep Hf Hr. revert first Hf. induction Hr as [|n rest Hn Hr IH]; intros first Hf; [done|].
  by apply IH, Hstep.
Qed.

Lemma chain_of_ind (P : ExpressionNode -> Prop) o l : l <> [] ->
  (forall a b, P a -> P b -> P (Binary sp0 o a b)) -> Forall P l -> P (chain_of o l).
Proof. intros Hne Hstep Hl. destruct Hl as [|n l Hn Hl]; [done|]. by apply (chain_ind P P). Qed.

(** No fixed price. *)
Definition unfixed (n : ExpressionNode) : Prop := ~ uses_function n Ffixed.

Lemma unfixed_node n : match n with Call _ Ffixed _ => False | _ => True end ->
  Forall unfixed (node_children n) -> unfixed n.
Proof.
  intros Hn Hc (sp & args & Hin). rewrite postorder_unfold, elem_of_app, list_elem_of_singleton in Hin.
  destruct Hin as [(c & Hin & Hcc)%elem_of_concat_map|<-]; [|done].
  eapply Forall_forall in Hin; [|exact Hc]. apply Hin. by exists sp, args.
Qed.

Lemma unfixed_scaled token field x : unfixed (scaled_node token field x).
Proof. destruct token; repeat (apply unfixed_node; [done|repeat constructor]). Qed.

Lemma infer_sum a b : infer a = Ok Tnumber -> infer b = Ok Tnumber -> infer (Binary sp0 Badd a b) = Ok Tnumber.
Proof. intros Ha Hb. simpl. by rewrite Ha, Hb. Qed.

Lemma infer_and a b : infer a = Ok Tboolean -> infer b = Ok Tboolean -> infer (Binary sp0 Band a b) = Ok Tboolean.
Proof. intros Ha Hb. simpl. by rewrite Ha, Hb. Qed.

(** What the checks of a compilation need of a part of the tree. *)
Record part_ok (t : ExpressionType) (lv depth : nat) (n : ExpressionNode) : Prop := {
  po_node : node_ok n;
  po_type : infer n = Ok t;
  po_unfixed : unfixed n;
  po_levels : body_levels n <= lv;
  po_depth : node_depth n <= depth;
}.

Lemma number_part x : form_number x -> part_ok Tnumber 2 3 (num_node x).
Proof. intros Hx. split; [done|done|by apply unfixed_node|simpl; lia|simpl; lia]. Qed.

Lemma scaled_part token field x : form_number x -> part_ok Tnumber 2 3 (scaled_node token field x).
Proof.
  intros Hx. split; [|by destruct token|apply unfixed_scaled|destruct token; simpl; lia|destruct token; simpl; lia].
  destruct token; simpl; repeat split; try apply Hx; apply scale_number.
Qed.

Lemma part_weaken t lv lv' d d' n : lv <= lv' -> d <= d' -> part_ok t lv d n -> part_ok t lv' d' n.
Proof. intros Hl Hd []. split; (done || lia). Qed.

(** A chain of parts that need no parentheses. *)
Lemma chain_part o t lv d l : l <> [] -> Forall (fun n => binop_prec o < node_prec n) l ->
  (forall a b, infer a = Ok t -> infer b = Ok t -> infer (Binary sp0 o a b) = Ok t) ->
  Forall (part_ok t lv d) l -> part_ok t (S lv) (d + length l) (chain_of o l).
Proof.
  intros Hne Hp Ht Hl. destruct Hl as [|n l Hn Hl]; [done|]. cbn [chain_of length].
  apply Forall_cons in Hp as [Hpn Hp].
  assert (forall acc D, d <= D -> binop_prec o <= node_prec acc -> part_ok t (S lv) D acc ->
    part_ok t (S lv) (D + length l) (chain o acc l)) as H.
  { clear Hn Hpn n Hne. induction Hl as [|n l Hn Hl IH]; intros acc D HD Hacc Hok.
    { simpl. by rewrite Nat.add_0_r. }
    apply Forall_cons in Hp as [Hpn Hp]. cbn [chain foldl length]. rewrite <- Nat.add_succ_comm. apply IH; [done|lia|done|].
    destruct Hok as [H1 H2 H3 H4 H5], Hn as [N1 N2 N3 N4 N5]. split; [done|by apply Ht| | |simpl; lia].
    - apply unfixed_node; [done|]. by repeat constructor.
    - simpl. unfold nested. rewrite (proj2 (Nat.ltb_ge (node_prec acc) _)), (proj2 (Nat.ltb_ge (node_prec n) _)) by lia. lia. }
  apply (part_weaken _ (S lv) _ (d + length l)); [lia|lia|]. apply H; [lia|lia|].
  by apply (part_weaken _ lv _ d); [lia|lia|].
Qed.

Lemma sum_part label terms : terms <> [] -> Forall (fun n => 5 < node_prec n) terms -> Forall (part_ok Tnumber 2 3) terms ->
  part_ok Tnumber 4 (4 + length terms) (tier_node label (chain_of Badd terms)).
Proof.
  intros Hne Hp Ht.
  assert (part_ok Tnumber 3 (3 + length terms) (chain_of Badd terms)) as [H1 H2 H3 H4 H5]
    by (by apply (chain_part Badd); [..|apply infer_sum|]).
  split; [done|simpl; by rewrite H2| |simpl in *; lia|simpl in *; lia].
  apply unfixed_node; [done|]. constructor; [by apply unfixed_node|]. by constructor.
Qed.

Lemma tier_part numberFields tier : numberFields <> [] -> numbers_ok numberFields tier ->
  part_ok Tnumber 4 (length numberFields + 5) (tier_tree numberFields tier).
Proof.
  intros Hne [Hc Hp]. unfold tier_tree. set (terms := constant_terms _ ++ _).
  assert (length terms <= S (length numberFields)) as Hlen.
  { unfold terms, constant_terms. rewrite length_app, length_fmap. case_match; simpl; lia. }
  apply (part_weaken _ 4 _ (4 + length terms)); [done|lia|].
  apply sum_part; [by apply terms_some | apply terms_prec|]. apply Forall_app_2.
  - unfold constant_terms. case_match; [|constructor]. constructor; [by apply number_part|constructor].
  - apply Forall_fmap. eapply Forall_impl; [exact Hp|]. intros e. apply scaled_part.
Qed.

Lemma condition_part conditions : conditions <> [] ->
  part_ok Tboolean 3 (2 + length conditions) (chain_of Band (condition_node <$> conditions)).
Proof.
  intros Hne. rewrite <- (length_fmap condition_node conditions).
  apply (chain_part Band); [by destruct conditions | | apply infer_and|]; apply Forall_fmap, Forall_true; intros e.
  - simpl. lia.
  - split; [done|done| |simpl; lia|simpl; lia]. apply unfixed_node; [done|].
    constructor; [|constructor; [by apply unfixed_node|constructor]].
    apply unfixed_node; [done|]. constructor; [by apply unfixed_node|constructor].
Qed.

Lemma config_part numberFields tiers parts k : numberFields <> [] -> tiers <> [] ->
  Forall (numbers_ok numberFields) tiers -> Forall (fun tier => length (tk_conditions tier) <= k) tiers ->
  tier_texts numberFields tiers = Some parts ->
  part_ok Tnumber (length tiers + 3) (length tiers + length numberFields + k + 5) (config_tree numberFields tiers).
Proof.
  intros Hne Hts Hn Hk. revert parts. induction Hn as [|tier tiers Htier Hn IH]; [done|]. intros parts Hp.
  apply Forall_cons in Hk as [Hkt Hk]. destruct (tier_part numberFields tier Hne Htier) as [T1 T2 T3 T4 T5].
  destruct tiers as [|tier2 tiers]; [split; (done || simpl in *; lia)|].
  apply tier_texts_inv in Hp as (Hc & rest & Hrest & _).
  destruct (IH ltac:(done) Hk rest Hrest) as [R1 R2 R3 R4 R5].
  destruct (condition_part (tk_conditions tier) Hc) as [C1 C2 C3 C4 C5].
  change (config_tree numberFields (tier :: tier2 :: tiers)) with
    (Conditional sp0 (chain_of Band (condition_node <$> tk_conditions tier)) (tier_tree numberFields tier)
       (config_tree numberFields (tier2 :: tiers))).
  split.
  - done.
  - cbn [infer]. by rewrite C2, T2, R2.
  - apply unfixed_node; [done|]. by repeat constructor.
  - cbn [body_levels]. unfold nested. rewrite (proj2 (Nat.ltb_ge _ 1)) by (pose proof (band_prec (tk_conditions tier)); lia).
    cbn [length] in *. lia.
  - cbn [node_depth]. cbn [length] in *. lia.
Qed.

(** ** Reading the summaries from the trees *)

Lemma flattenBinary_strip n o : flattenBinary (strip n) o = strip <$> flattenBinary n o.
Proof.
  induction n as [| | | |sp p a b IHa IHb|] using node_ind'; cbn [strip flattenBinary]; try done.
  destruct (decide (p = o)); [|done]. by rewrite IHa, IHb, fmap_app.
Qed.

Lemma literal_price_strip n : nonnegativePriceLiteral (strip n) = nonnegativePriceLiteral n.
Proof. destruct n as [| | |? o a| |]; try done. destruct o; try done. by destruct a. Qed.

Lemma usage_field_strip n : usage_field (strip n) = usage_field n.
Proof. destruct n as [| |? f [|a l]| | |]; try done; by destruct f; try destruct a. Qed.

Lemma taskCondition_strip schema b n : taskCondition schema b (strip n) = taskCondition schema b n.
Proof.
  destruct n as [| | | |sp o l r|]; try done. destruct o; try done. destruct r; try done.
  cbn [strip taskCondition]. by rewrite usage_field_strip.
Qed.

Lemma unit_term_strip n : unit_term (strip n) = unit_term n.
Proof.
  destruct n as [| | | |sp o l r|]; try done. destruct o; try done.
  cbn [strip unit_term]. by rewrite usage_field_strip, literal_price_strip.
Qed.

Lemma unscale_strip n : unscale (strip n) = prod_map strip id <$> unscale n.
Proof.
  destruct n as [| | | |sp o l r|]; try done. destruct o; try done. cbn [strip unscale].
  destruct r as [? [| | |]| | | | |]; try done. simpl. by case_match.
Qed.

Lemma task_terms_strip schema terms c ps : task_terms schema (strip <$> terms) c ps = task_terms schema terms c ps.
Proof.
  revert c ps. induction terms as [|t terms IH]; intros c ps; [done|]. cbn [fmap list_fmap task_terms].
  rewrite literal_price_strip, unscale_strip. destruct (nonnegativePriceLiteral t); [destruct c; [done|apply IH]|].
  destruct (unscale t) as [[body scaled]|]; [|done]. cbn. rewrite unit_term_strip.
  destruct (unit_term body) as [[f p]|]; [|done]. cbn. case_match; [apply IH|done].
Qed.

Lemma taskTier_strip n cs schema : taskTier (strip n) cs schema = taskTier n cs schema.
Proof.
  destruct n as [| |sp f [|label [|body args]]| | |]; try done; try (by destruct f). destruct f; try done.
  cbn [strip map taskTier]. rewrite flattenBinary_strip, task_terms_strip. by destruct label.
Qed.

Lemma mapM_fmap_ext {A B} (f g : A -> option B) (h : A -> A) l : (forall x, f (h x) = g x) ->
  mapM f (h <$> l) = mapM g l.
Proof. intros Hfg. induction l as [|x l IH]; [done|]. cbn [fmap list_fmap]. change (mapM f (h x :: (h <$> l)) = mapM g (x :: l)).
  simpl. rewrite Hfg. by rewrite <- IH. Qed.

Lemma readTaskTierChain_leaf n schema b : match n with Conditional _ _ _ _ => False | _ => True end ->
  readTaskTierChain n schema b = (fallback ← taskTier n [] schema; Some [fallback]).
Proof. by destruct n. Qed.

Lemma readTaskTierChain_strip n schema b : readTaskTierChain (strip n) schema b = readTaskTierChain n schema b.
Proof.
  induction n as [sp v|sp v|sp f args IHa|sp o a IHa|sp o l r IHl IHr|sp c y no _ _ IHn] using node_ind'.
  1-5: by rewrite !readTaskTierChain_leaf, taskTier_strip.
  cbn [strip readTaskTierChain]. rewrite IHn. unfold taskConditions.
  rewrite flattenBinary_strip, (mapM_fmap_ext _ (taskCondition schema b)) by apply taskCondition_strip.
  destruct (mapM _ _); [|done]. cbn. by rewrite taskTier_strip.
Qed.

(** ** What the summary of a written expression is *)

Lemma chain_flatten o first rest : Forall (fun n => flattenBinary n o = [n]) (first :: rest) ->
  flattenBinary (chain o first rest) o = first :: rest.
Proof.
  intros [Hf Hr]%Forall_cons.
  assert (forall acc, flattenBinary (chain o acc rest) o = flattenBinary acc o ++ rest) as H; [|by rewrite H, Hf].
  clear Hf. induction Hr as [|n rest Hn Hr IH]; intros acc; [by rewrite app_nil_r|].
  change (chain o acc (n :: rest)) with (chain o (Binary sp0 o acc n) rest).
  rewrite IH. cbn [flattenBinary]. rewrite decide_True, Hn by done. by rewrite <- app_assoc.
Qed.

Lemma chain_of_flatten o l : l <> [] -> Forall (fun n => flattenBinary n o = [n]) l ->
  flattenBinary (chain_of o l) o = l.
Proof. intros Hne Hl. destruct l as [|n l]; [done|]. by apply chain_flatten. Qed.

Section Schema.
Context `{Collation} (schema : BillingUsageSchema).

Lemma insert_by_key_perm {A} (x : jstr * A) l : insert_by_key x l ≡ₚ x :: l.
Proof.
  induction l as [|y l IH]; [done|]. cbn [insert_by_key]. case_match; try done. rewrite IH. apply Permutation_swap.
Qed.

Lemma sort_by_key_perm {A} (l : list (jstr * A)) : sort_by_key l ≡ₚ l.
Proof. induction l as [|x l IH]; [done|]. simpl. by rewrite insert_by_key_perm, IH. Qed.

(** Fields are named once, and a field with values to choose from is not a flag. *)
Record schema_ok : Prop := {
  so_names : NoDup (schema.*1);
  so_enums : Forall (fun e => is_enum_field e = true -> uf_type (snd e) <> Some FTboolean) schema;
}.

Context (Hschema : schema_ok).
Abbreviation numberFields := (getTaskNumberFields (Some schema)).
Abbreviation enumFields := (getTaskEnumFields (Some schema)).

Lemma filter_sublist {A} (f : A -> bool) l : List.filter f l `sublist_of` l.
Proof. induction l as [|x l IH]; simpl; [done|]. destruct (f x); by constructor. Qed.

Lemma field_names_nodup f : NoDup ((sort_by_key (List.filter f schema)).*1).
Proof.
  rewrite sort_by_key_perm. eapply sublist_NoDup; [apply (so_names Hschema)|].
  by apply fmap_sublist, filter_sublist.
Qed.

Lemma assoc_nodup {A} k (a : A) l : NoDup (l.*1) -> (k, a) ∈ l -> assoc k l = Some a.
Proof.
  induction l as [|[k' a'] l IH]; intros Hnd Hin; [by apply elem_of_nil in Hin|].
  apply NoDup_cons in Hnd as [Hk Hnd]. simpl. apply elem_of_cons in Hin as [[= -> ->]|Hin]; [by rewrite jeqb_refl|].
  destruct (jeqb k k') eqn:E; [|by apply IH]. apply jeqb_eq in E as ->. exfalso. apply Hk.
  by apply (list_elem_of_fmap_2 fst _ (k', a)).
Qed.

Lemma sorted_elem f e : e ∈ sort_by_key (List.filter f schema) -> e ∈ schema /\ f e = true.
Proof. rewrite sort_by_key_perm, list_elem_of_In, filter_In, list_elem_of_In. done. Qed.

Lemma number_field e : e ∈ numberFields -> assoc (fst e) schema = Some (snd e) /\ is_number_field e = true.
Proof.
  intros (Hin & Hf)%sorted_elem. split; [|done]. destruct e. by apply assoc_nodup; [apply so_names|].
Qed.

(** The prices that a tier lists once it was read back. *)
Definition listed_prices (nf : fields) (tier : TaskTier) : list (jstr * f64) :=
  (fun e => (fst e, price_at tier (fst e))) <$> nf.

Definition read_back (nf : fields) (tier : TaskTier) (conditions : list (jstr * jstr)) : TaskTier :=
  {| tk_label := tk_label tier; tk_conditions := conditions;
     tk_constant := if fltb fzero (tk_constant tier) then tk_constant tier else fzero;
     tk_unitPrices := listed_prices nf tier |}.

Lemma form_number_price x : form_number x -> nonnegativePriceLiteral (num_node x) = Some x.
Proof. intros (_ & _ & Hp & _). simpl. by rewrite Hp. Qed.

Lemma price_node_read tier e : form_number (price_at tier (fst e)) ->
  nonnegativePriceLiteral (price_node tier e) = None /\
  unscale (price_node tier e)
  = Some (scaled_node false (fst e) (price_at tier (fst e)), bool_decide (uf_unit (snd e) = Some UStoken)) /\
  unit_term (scaled_node false (fst e) (price_at tier (fst e))) = Some (fst e, price_at tier (fst e)).
Proof.
  intros Hx. unfold price_node, scaled_node. split_and!; [by case_bool_decide|by case_bool_decide|].
  cbn [unit_term usage_node usage_field str_node string_literal mbind option_bind].
  by rewrite form_number_price.
Qed.

Lemma price_terms nf tier c ps : (forall e, e ∈ nf -> e ∈ numberFields) -> NoDup (nf.*1 ++ ps.*1) ->
  Forall (fun e => form_number (price_at tier (fst e))) nf ->
  task_terms schema (price_node tier <$> nf) c ps = Some (c, ps ++ listed_prices nf tier).
Proof.
  intros Hin Hnd Hn. revert ps Hnd Hin. induction Hn as [|e nf He Hn IH]; intros ps Hnd Hin.
  { simpl. by rewrite app_nil_r. }
  destruct (number_field e) as [Ha Hf]; [apply Hin; by left|]. unfold is_number_field in Hf.
  destruct (uf_type (snd e)) as [[]|] eqn:Et; try done. destruct (uf_unit (snd e)) as [u|] eqn:Eu; [|done].
  cbn [fmap list_fmap task_terms]. destruct (price_node_read tier e He) as (-> & -> & Hu).
  cbn in Hnd. apply NoDup_cons in Hnd as [Hnotin Hnd]. rewrite elem_of_app in Hnotin.
  assert (unit_accepted schema (fst e) (bool_decide (uf_unit (snd e) = Some UStoken)) ps = true) as Hacc.
  { unfold unit_accepted. rewrite Ha, Et, Eu. rewrite bool_decide_false by tauto. simpl. by destruct u. }
  cbn [mbind option_bind]. rewrite Hu. cbn [mbind option_bind]. rewrite Hacc, IH.
  - cbn. by rewrite <- app_assoc.
  - rewrite fmap_app. cbn. rewrite (app_assoc (nf.*1)). rewrite NoDup_app. apply NoDup_app in Hnd as (N1 & N2 & N3).
    split_and!; [rewrite NoDup_app; tauto| |apply NoDup_singleton].
    intros x Hx. rewrite list_elem_of_singleton. intros ->. apply elem_of_app in Hx. tauto.
  - intros e' He'. apply Hin. by right.
Qed.

Lemma tier_read tier conditions : numberFields <> [] -> numbers_ok numberFields tier ->
  taskTier (tier_tree numberFields tier) conditions schema = Some (read_back numberFields tier conditions).
Proof.
  intros Hne [Hc Hp]. unfold tier_tree. cbn [taskTier tier_node str_node string_literal mbind option_bind].
  rewrite chain_of_flatten; [|by apply terms_some|].
  2: { apply Forall_app_2; [unfold constant_terms; case_match; by repeat constructor|].
       apply Forall_fmap, Forall_true. intros e. unfold price_node. simpl. unfold scaled_node. by case_bool_decide. }
  assert (NoDup (numberFields.*1 ++ (@nil (jstr * f64)).*1)) as Hnd by (simpl; rewrite app_nil_r; apply field_names_nodup).
  assert (listed_prices numberFields tier <> []) as Hl by (by destruct numberFields).
  unfold constant_terms, read_back. destruct (fltb fzero (tk_constant tier)) eqn:El.
  - cbn [app task_terms]. rewrite form_number_price by done. rewrite price_terms by done.
    cbn -[listed_prices]. by destruct (listed_prices _ _).
  - cbn [app]. rewrite price_terms by done. cbn -[listed_prices]. by destruct (listed_prices _ _).
Qed.

Lemma assoc_elem_of {A} k (a : A) l : assoc k l = Some a -> (k, a) ∈ l.
Proof. apply BillingCompileFacts.assoc_elem. Qed.

Lemma enum_condition_read c : enum_condition schema c = true ->
  taskCondition schema false (condition_node c) = Some c.
Proof.
  unfold enum_condition. destruct (assoc (fst c) enumFields) as [d|] eqn:Ea; [|done].
  apply assoc_elem_of in Ea. apply sorted_elem in Ea as [Hin He]. simpl.
  pose proof (so_enums Hschema) as Hb. rewrite Forall_forall in Hb. specialize (Hb _ Hin He). simpl in Hb.
  rewrite (assoc_nodup (fst c) d) by (apply so_names || done; done).
  destruct d as [ty un [e|]]; [|done]. cbn [mbind option_bind uf_enum uf_type fst snd] in *. intros Hv.
  destruct ty as [[]|]; rewrite ?Hv; by destruct c.
Qed.

Lemma conditions_read conditions : conditions <> [] -> forallb (enum_condition schema) conditions = true ->
  taskConditions (chain_of Band (condition_node <$> conditions)) schema false = Some conditions.
Proof.
  intros Hne Hall. unfold taskConditions. rewrite chain_of_flatten; [|by destruct conditions|].
  2: { apply Forall_fmap, Forall_true. intros e. done. }
  apply mapM_Some, Forall2_fmap_l, Forall_Forall2_diag, Forall_forall.
  intros c Hc. apply enum_condition_read. rewrite forallb_forall in Hall. by apply Hall, list_elem_of_In.
Qed.

(** The tiers read from the expression of a configuration. *)
Fixpoint chain_read (tiers : list TaskTier) : list TaskTier :=
  match tiers with
  | [] => []
  | [tier] => [read_back numberFields tier []]
  | tier :: rest => read_back numberFields tier (tk_conditions tier) :: chain_read rest
  end.

Definition enums_only (tier : TaskTier) : Prop := forallb (enum_condition schema) (tk_conditions tier) = true.

Lemma config_read tiers parts : numberFields <> [] -> tiers <> [] ->
  Forall (numbers_ok numberFields) tiers -> Forall enums_only tiers -> tier_texts numberFields tiers = Some parts ->
  readTaskTierChain (config_tree numberFields tiers) schema false = Some (chain_read tiers).
Proof.
  intros Hne Hts Hn He. revert parts. induction Hn as [|tier tiers Htier Hn IH]; [done|]. intros parts Hp.
  apply Forall_cons in He as [Het He]. destruct tiers as [|tier2 tiers].
  { cbn [config_tree]. rewrite readTaskTierChain_leaf by done. by rewrite tier_read. }
  apply tier_texts_inv in Hp as (Hc & rest & Hrest & _).
  change (config_tree numberFields (tier :: tier2 :: tiers)) with
    (Conditional sp0 (chain_of Band (condition_node <$> tk_conditions tier)) (tier_tree numberFields tier)
       (config_tree numberFields (tier2 :: tiers))).
  cbn [readTaskTierChain]. rewrite conditions_read by done. cbn [mbind option_bind].
  rewrite tier_read by done. cbn [mbind option_bind]. by rewrite (IH ltac:(done) He rest Hrest).
Qed.

(** ** Normal form *)

Lemma map_set_new {A} k (v : A) l : k ∉ l.*1 -> map_set k v l = l ++ [(k, v)].
Proof.
  induction l as [|[k' v'] l IH]; [done|]. cbn. intros [Hk Hl]%not_elem_of_cons.
  rewrite (proj2 (jeqb_neq k k')) by done. by rewrite IH.
Qed.

Lemma from_entries_nodup {A} (l : list (jstr * A)) : NoDup (l.*1) -> from_entries l = l.
Proof.
  unfold from_entries.
  assert (forall acc, NoDup ((acc ++ l).*1) -> foldl (fun m e => map_set (fst e) (snd e) m) acc l = acc ++ l) as Hacc;
    [|by apply (Hacc [])].
  induction l as [|[k v] l IH]; intros acc Hnd; [by rewrite app_nil_r|]. cbn [foldl fst snd].
  rewrite map_set_new.
  - rewrite IH; [by rewrite <- app_assoc|]. by rewrite <- app_assoc.
  - rewrite fmap_app in Hnd. apply NoDup_app in Hnd as (_ & Hd & _). intros Hk. apply (Hd k Hk). by left.
Qed.

Lemma keyed_names {A} (f : jstr -> A) (nf : fields) : ((fun e => (fst e, f (fst e))) <$> nf).*1 = nf.*1.
Proof. rewrite <- list_fmap_compose. by apply list_fmap_ext. Qed.

Lemma keyed_assoc {A} (f : jstr -> A) (nf : fields) k : k ∈ nf.*1 ->
  assoc k ((fun e => (fst e, f (fst e))) <$> nf) = Some (f k).
Proof.
  induction nf as [|e nf IH]; [by intros ?%elem_of_nil|]. cbn. intros [->|Hk]%elem_of_cons; [by rewrite jeqb_refl|].
  destruct (jeqb k (fst e)) eqn:E; [|by apply IH]. by apply jeqb_eq in E as ->.
Qed.

Lemma keyed_entries {A} (f : jstr -> A) : from_entries ((fun e => (fst e, f (fst e))) <$> numberFields)
  = (fun e => (fst e, f (fst e))) <$> numberFields.
Proof. apply from_entries_nodup. rewrite keyed_names. apply field_names_nodup. Qed.

Lemma usable_idem x : usable_price (usable_price x) = usable_price x.
Proof. unfold usable_price at 2 3. case_match eqn:E; [|done]. unfold usable_price. by rewrite E. Qed.

Lemma tier_label_idem l i : tier_label (tier_label l i) i = tier_label l i.
Proof. destruct l; [|done]. unfold tier_label at 2 3. by destruct (Nat.eqb i 0). Qed.

Lemma keyed_ext {A} (f g : jstr -> A) (nf : fields) : (forall k, k ∈ nf.*1 -> f k = g k) ->
  (fun e => (fst e, f (fst e))) <$> nf = (fun e => (fst e, g (fst e))) <$> nf.
Proof.
  intros Hfg. apply list_fmap_ext. intros i e He. f_equal. apply Hfg, list_elem_of_fmap_2.
  by eapply list_elem_of_lookup_2.
Qed.

(** The prices of a tier in normal form. *)
Definition normal_price (prices : list (jstr * f64)) (field : jstr) : f64 := usable_price (price_number prices field).

Lemma normal_prices i tier : tk_unitPrices (normalize_tier schema i tier)
  = (fun e => (fst e, normal_price (tk_unitPrices tier) (fst e))) <$> numberFields.
Proof. apply (keyed_entries (normal_price (tk_unitPrices tier))). Qed.

Lemma zero_prices_list : zero_prices schema = (fun e => (fst e, fzero)) <$> numberFields.
Proof. apply (keyed_entries (fun _ => fzero)). Qed.

Lemma normal_price_keyed (f : jstr -> f64) : (forall k, usable_price (f k) = f k) ->
  (fun e => (fst e, normal_price ((fun e => (fst e, f (fst e))) <$> numberFields) (fst e))) <$> numberFields
  = (fun e => (fst e, f (fst e))) <$> numberFields.
Proof.
  intros Hf. apply (keyed_ext (normal_price _) f). intros k Hk. unfold normal_price, price_number.
  rewrite (keyed_assoc f) by done. apply Hf.
Qed.

Lemma tier_ext t1 t2 : tk_label t1 = tk_label t2 -> tk_conditions t1 = tk_conditions t2 ->
  tk_constant t1 = tk_constant t2 -> tk_unitPrices t1 = tk_unitPrices t2 -> t1 = t2.
Proof. destruct t1, t2. simpl. by intros -> -> -> ->. Qed.

Lemma filter_idem {A} (f : A -> bool) l : List.filter f (List.filter f l) = List.filter f l.
Proof.
  induction l as [|c l IH]; [done|]. simpl. destruct (f c) eqn:E; [|done]. simpl. by rewrite E, IH.
Qed.

Lemma normalize_tier_idem i tier : normalize_tier schema i (normalize_tier schema i tier) = normalize_tier schema i tier.
Proof.
  apply tier_ext; [apply tier_label_idem | apply filter_idem | apply usable_idem|].
  rewrite normal_prices, (normal_prices i tier). apply (normal_price_keyed (normal_price (tk_unitPrices tier))).
  intros k. apply usable_idem.
Qed.

Lemma default_tier_normal i tier : tier ∈ createDefaultTaskVisualConfig schema -> normalize_tier schema i tier = tier.
Proof.
  unfold createDefaultTaskVisualConfig. rewrite list_elem_of_singleton. intros ->. apply tier_ext; [done..|].
  rewrite normal_prices. cbn [tk_unitPrices]. rewrite zero_prices_list. by apply (normal_price_keyed (fun _ => fzero)).
Qed.

(** Every tier of a configuration in normal form is in normal form. *)
Lemma normalized_tier config i t : normalizeTaskVisualConfig config schema !! i = Some t ->
  normalize_tier schema i t = t.
Proof.
  destruct config as [[|t0 tiers]|]; cbn [normalizeTaskVisualConfig].
  1,3: intros Ht; by apply default_tier_normal, (list_elem_of_lookup_2 _ i).
  rewrite list_lookup_imap. destruct ((t0 :: tiers) !! i); [|done]. simpl. intros [= <-]. apply normalize_tier_idem.
Qed.

Lemma normalized_some config : normalizeTaskVisualConfig config schema <> [].
Proof. by destruct config as [[|t tiers]|]. Qed.

Lemma normal_config tiers : tiers <> [] -> (forall i t, tiers !! i = Some t -> normalize_tier schema i t = t) ->
  normalizeTaskVisualConfig (Some tiers) schema = tiers.
Proof.
  intros Hne Ht. destruct tiers as [|t tiers]; [done|]. unfold normalizeTaskVisualConfig.
  apply list_eq. intros i. rewrite list_lookup_imap. destruct ((t :: tiers) !! i) eqn:E; [|done]. simpl.
  by rewrite (Ht i).
Qed.

Lemma form_number_positive x : form_number x -> fltb fzero x = false -> x = fzero.
Proof. intros (_ & Hf & Hp & Ha & _). destruct x as [[]|[]| |[]]; try done. Qed.

(** A tier in normal form is read back as it is. *)
Lemma read_back_normal i tier conditions : normalize_tier schema i tier = tier ->
  form_number (tk_constant tier) -> conditions = tk_conditions tier -> read_back numberFields tier conditions = tier.
Proof.
  intros Hn Hc ->. apply tier_ext; [done|done| |].
  - simpl. destruct (fltb fzero (tk_constant tier)) eqn:E; [done|]. symmetry. by apply form_number_positive.
  - rewrite <- Hn. rewrite normal_prices. simpl. unfold listed_prices.
    apply (keyed_ext (fun k => price_at (normalize_tier schema i tier) k)). intros k Hk. unfold price_at.
    rewrite normal_prices. by rewrite (keyed_assoc (normal_price (tk_unitPrices tier))).
Qed.

(** Every tier but the last has a condition, and the last has none. *)
Fixpoint guarded (tiers : list TaskTier) : Prop :=
  match tiers with
  | [] => False
  | [tier] => tk_conditions tier = []
  | tier :: rest => tk_conditions tier <> [] /\ guarded rest
  end.

Lemma guarded_texts tiers : guarded tiers -> exists parts, tier_texts numberFields tiers = Some parts.
Proof.
  induction tiers as [|tier tiers IH]; [done|]. intros Hg. destruct tiers as [|tier2 tiers]; [by eexists|].
  destruct Hg as [Hc Hg]. destruct (IH Hg) as [parts Hp]. cbn [tier_texts].
  destruct (generateTaskCondition (tk_conditions tier)) as [|c cs] eqn:E.
  - exfalso. destruct (tk_conditions tier) as [|x [|y l]]; done.
  - eexists. apply fmap_Some. by exists parts.
Qed.

Lemma chain_read_normal tiers : guarded tiers -> Forall (numbers_ok numberFields) tiers ->
  (forall t, t ∈ tiers -> exists i, normalize_tier schema i t = t) -> chain_read tiers = tiers.
Proof.
  intros Hg Hn Ht. induction Hn as [|tier tiers [Hc _] Hn IH]; [done|].
  destruct (Ht tier) as [i Hi]; [by left|]. destruct tiers as [|tier2 tiers].
  - cbn [chain_read]. f_equal. by apply (read_back_normal i).
  - destruct Hg as [Hcond Hg]. change (chain_read (tier :: tier2 :: tiers)) with
      (read_back numberFields tier (tk_conditions tier) :: chain_read (tier2 :: tiers)).
    rewrite IH; [|done|intros t Hin; apply Ht; by right]. f_equal. by apply (read_back_normal i).
Qed.

Lemma normal_enums i tier : normalize_tier schema i tier = tier -> enums_only tier.
Proof.
  intros <-. unfold enums_only. cbn [tk_conditions normalize_tier].
  induction (tk_conditions tier) as [|c l IH]; [done|]. simpl. destruct (enum_condition schema c) eqn:E; [|done].
  simpl. by rewrite E.
Qed.

(** ** Splitting off request rules leaves the text alone *)

Lemma sealed_num_text k x : (0 <= k)%Z -> form_number x -> sealed (k + 1) 42 (number_to_string x).
Proof.
  intros Hk (Hv & Hf & Hp & Ha & _). apply sealed_inert; [lia|].
  assert (Forall (fun c => is_num_char c = true) (number_to_string x)) as Hc.
  { destruct x as [b|b| |[] m e]; try done; [by repeat constructor|]. simpl. destruct (shortest m e).
    apply layout_chars. }
  apply forallb_forall. intros c Hin%list_elem_of_In. rewrite Forall_forall in Hc. apply Hc in Hin.
  unfold inert, is_quote, is_open, is_close.
  assert (forall n, is_num_char n = false -> (c =? n)%N = false) as Hne
    by (intros n Hn; apply N.eqb_neq; intros ->; congruence).
  rewrite !Hne by done. rewrite (proj2 (Z.ltb_lt 0 (k + 1))) by lia. done.
Qed.

Lemma sealed_inner k s : (0 <= k)%Z -> forallb (inert 1 42) s = true -> sealed (k + 1) 42 s.
Proof. intros Hk Hs d Hd. apply (sealed_inert 1 42 s); [done|done|lia]. Qed.

Lemma sealed_usage k field : (0 <= k)%Z -> sealed k 42 (usage_text field).
Proof.
  intros Hk. apply (sealed_app k 42 (js "u") (js "(" ++ json_stringify field ++ js ")")).
  - apply sealed_inert; [done|]. destruct k; done.
  - apply sealed_parens; [done|done|apply sealed_json].
Qed.

Lemma sealed_join k sep us : sealed k 42 sep -> Forall (sealed k 42) us -> sealed k 42 (join sep us).
Proof.
  intros Hsep Hus. induction Hus as [|u us Hu Hus IH]; [apply sealed_nil|].
  destruct us as [|u2 us]; [done|]. rewrite join_cons by done. by repeat apply sealed_app.
Qed.

Lemma sealed_price tier e : form_number (price_at tier (fst e)) -> sealed 1 42 (price_text tier e).
Proof.
  intros Hx. unfold price_text. fold (price_at tier (fst e)).
  pose proof (sealed_usage 1 (fst e) ltac:(lia)) as Hu. pose proof (sealed_num_text 0 _ ltac:(lia) Hx) as Hn.
  assert (sealed 1 42 (js " * ")) as Hm by (by apply sealed_inert).
  case_bool_decide; (apply sealed_app; [exact Hu|]; apply sealed_app; [exact Hm|]); [|exact Hn].
  apply sealed_app; [exact Hn|]. by apply sealed_inert.
Qed.

Lemma sealed_tier_call tier : numbers_ok numberFields tier -> sealed 0 42 (generateTaskTierCall tier numberFields).
Proof.
  intros [Hc Hp]. unfold generateTaskTierCall, tier_call_text.
  set (body := generateTaskTierBody tier numberFields).
  replace (js "tier(" ++ json_stringify (tk_label tier) ++ js ", " ++ body ++ js ")")
    with (js "tier" ++ js "(" ++ (json_stringify (tk_label tier) ++ js ", " ++ body) ++ js ")")
    by (rewrite <- !app_assoc; done).
  apply sealed_app; [by apply sealed_inert|]. apply sealed_parens; [done|done|].
  apply sealed_app; [apply sealed_json|]. apply sealed_app; [by apply sealed_inert|].
  apply sealed_join; [by apply sealed_inert|]. apply Forall_app_2.
  - case_match; [|constructor]. constructor; [by apply (sealed_num_text 0)|constructor].
  - apply Forall_fmap. eapply Forall_impl; [exact Hp|]. intros e. apply sealed_price.
Qed.

Lemma sealed_conditions conditions : sealed 0 42 (generateTaskCondition conditions).
Proof.
  apply sealed_join; [by apply sealed_inert|]. apply Forall_fmap, Forall_true. intros e.
  apply sealed_app; [by apply sealed_usage|]. apply sealed_app; [by apply sealed_inert|]. apply sealed_json.
Qed.

(** A text that [splitExpressionAtTopLevel] leaves whole: sealed to its end, or
    to a question mark. *)
Lemma unsplit_whole s : s <> [] -> trim s = s -> sealed 0 42 s -> splitBillingExprAndRequestRules s = Ok (s, []).
Proof.
  intros Hne Ht Hs. unfold splitBillingExprAndRequestRules. rewrite Ht. destruct s as [|c s]; [done|].
  pose proof (split_joined 42 [] [c :: s] eq_refl ltac:(done)) as E. cbn [join] in E.
  change (js "*") with [42%N]. rewrite E; [done|]. apply Forall_singleton. split_and!; [done|by apply Hs|done].
Qed.

Lemma unsplit_question s rest : trim (s ++ js " ? " ++ rest) = s ++ js " ? " ++ rest -> sealed 0 42 s -> s <> [] ->
  splitBillingExprAndRequestRules (s ++ js " ? " ++ rest) = Ok (s ++ js " ? " ++ rest, []).
Proof.
  intros Ht Hs Hne. unfold splitBillingExprAndRequestRules. rewrite Ht.
  assert (splitExpressionAtTopLevel (s ++ js " ? " ++ rest) (js "*") = [s ++ js " ? " ++ rest]) as Hsplit.
  { unfold splitExpressionAtTopLevel. change (js "*") with [42%N].
    replace (s ++ js " ? " ++ rest) with ((s ++ js " ") ++ 63%N :: js " " ++ rest) by (by rewrite <- app_assoc).
    assert (sealed 0 42 (s ++ js " ")) as Hs' by (apply sealed_app; [done|by apply sealed_inert]).
    rewrite (split_passes 42 [] (s ++ js " ") _ [] [] 0 None false 0 None false) by (by apply Hs').
    cbn [split_loop skipped]. change (is_quote 63) with false. cbv iota.
    change (is_open 63) with false. change (is_close 63) with false. cbv iota.
    change (negb (0 =? 0)%Z) with false. cbv iota. change ((63 =? 63)%N) with true. cbv iota.
    rewrite <- app_assoc in *. change (js " " ++ 63%N :: js " " ++ rest) with (js " ? " ++ rest). by rewrite Ht. }
  destruct (s ++ js " ? " ++ rest) as [|c l]; [done|]. by rewrite Hsplit.
Qed.

Lemma call_ends tier : exists p, generateTaskTierCall tier numberFields = js "tier(" ++ p ++ js ")".
Proof.
  exists (json_stringify (tk_label tier) ++ js ", " ++ generateTaskTierBody tier numberFields).
  unfold generateTaskTierCall, tier_call_text. by rewrite <- !app_assoc.
Qed.

Lemma condition_starts conditions : conditions <> [] -> exists p, generateTaskCondition conditions = js "u(" ++ p.
Proof.
  destruct conditions as [|c l]; [done|]. intros _. unfold generateTaskCondition, usage_text.
  cbn [fmap list_fmap]. rewrite join_head. eexists. rewrite <- !app_assoc. reflexivity.
Qed.

Lemma texts_end tiers parts : tier_texts numberFields tiers = Some parts -> tiers <> [] ->
  exists p, join (js " : ") parts = p ++ js ")".
Proof.
  revert parts. induction tiers as [|tier tiers IH]; [done|]. intros parts Hp _.
  destruct tiers as [|tier2 tiers].
  - apply (inj Some) in Hp as <-. destruct (call_ends tier) as [p Hcall]. exists (js "tier(" ++ p).
    rewrite <- app_assoc. exact Hcall.
  - apply tier_texts_inv in Hp as (_ & rest & Hrest & Hr & ->). destruct (IH rest Hrest ltac:(done)) as [p Hp].
    rewrite join_cons by done. rewrite Hp, !app_assoc. by eexists.
Qed.

Lemma texts_unsplit tiers parts : guarded tiers -> Forall (numbers_ok numberFields) tiers ->
  tier_texts numberFields tiers = Some parts ->
  splitBillingExprAndRequestRules (join (js " : ") parts) = Ok (join (js " : ") parts, []).
Proof.
  intros Hg Hn Hp. assert (tiers <> []) as Hne by (by destruct tiers).
  destruct (texts_end tiers parts Hp Hne) as [pre Hend].
  destruct tiers as [|tier [|tier2 tiers]]; [done| |].
  - apply (inj Some) in Hp as <-. cbn [join] in *. rewrite Forall_singleton in Hn.
    destruct (call_ends tier) as [p Hcall].
    apply unsplit_whole; [by rewrite Hcall| |by apply sealed_tier_call]. rewrite Hcall. by apply trim_between.
  - destruct Hg as [Hc Hg]. destruct (condition_starts (tk_conditions tier) Hc) as [p Hcond].
    apply tier_texts_inv in Hp as (_ & rest & Hrest & Hr & ->).
    rewrite join_cons, <- !app_assoc in * by done.
    apply unsplit_question; [|apply sealed_conditions|by rewrite Hcond].
    rewrite Hend. destruct pre as [|c pre].
    { exfalso. rewrite Hcond in Hend. by destruct p. }
    assert (c = 117%N) as -> by (rewrite Hcond in Hend; by simplify_eq/=).
    by apply (trim_between [117%N] pre (js ")")).
Qed.

(** ** Reading back what the form writes *)

Lemma generate_text config parts : numberFields <> [] ->
  tier_texts numberFields (normalizeTaskVisualConfig config schema) = Some parts ->
  generateTaskExprFromConfig config schema = join (js " : ") parts.
Proof.
  intros Hne Hp. unfold generateTaskExprFromConfig. destruct numberFields as [|e nf]; [done|].
  destruct (normalizeTaskVisualConfig config schema) as [|t [|t2 ts]] eqn:E; [by apply normalized_some in E| |].
  - apply (inj Some) in Hp as <-. done.
  - by rewrite Hp.
Qed.

(** The limits of the parser, and numbers it reads as they were written. *)
Record writable (config : option (list TaskTier)) : Prop := {
  wr_fields : numberFields <> [];
  wr_guarded : guarded (normalizeTaskVisualConfig config schema);
  wr_numbers : Forall (numbers_ok numberFields) (normalizeTaskVisualConfig config schema);
  wr_tiers : length (normalizeTaskVisualConfig config schema) <= 125;
  wr_width : length numberFields <= 60;
  wr_conditions : Forall (fun t => length (tk_conditions t) <= 60) (normalizeTaskVisualConfig config schema);
  wr_tokens : length (body_tokens (config_tree numberFields (normalizeTaskVisualConfig config schema))) < 100 * 100;
  wr_length : length (generateTaskExprFromConfig config schema) <= Nat.pow 2 16;
}.

Lemma written_compiles config : writable config ->
  exists c, compile (generateTaskExprFromConfig config schema) = Ready c /\
    strip (c_ast c) = strip (config_tree numberFields (normalizeTaskVisualConfig config schema)).
Proof.
  intros [Hf Hg Hn Ht Hw Hc Htk Hl]. destruct (guarded_texts _ Hg) as [parts Hp].
  rewrite (generate_text config parts Hf Hp) in *. pose proof (normalized_some config) as Hne.
  destruct (prints_config numberFields _ parts Hf Hne Hn Hp) as [Hprints _].
  destruct (config_part numberFields _ parts 60 Hf Hne Hn Hc Hp) as [P1 P2 P3 P4 P5].
  apply (compile_reads_text _ _ Tnumber); [|lia|done|done]. split; [done|lia|done|done|].
  specialize (Hprints [] [] I laid_end). by rewrite !app_nil_r in Hprints.
Qed.

Lemma written_tiers config : writable config ->
  parseTaskTiersFromExpr compile (generateTaskExprFromConfig config schema) (Some schema) false
  = Ok (normalizeTaskVisualConfig config schema).
Proof.
  intros Hw. destruct (written_compiles config Hw) as (c & Hc & Hst). pose proof Hw as [Hf Hg Hn _ _ _ _ _].
  destruct (guarded_texts _ Hg) as [parts Hp]. pose proof (normalized_some config) as Hne.
  rewrite (generate_text config parts Hf Hp) in *. unfold parseTaskTiersFromExpr.
  destruct (texts_end _ parts Hp Hne) as [pre Hend].
  pose proof (texts_unsplit _ parts Hg Hn Hp) as Hsplit.
  destruct (join (js " : ") parts) as [|x l] eqn:E; [by destruct pre|].
  destruct schema as [|s0 ss] eqn:Es; [done|]. rewrite <- Es in *. rewrite Hsplit. cbn [res_bind fst]. rewrite Hc.
  rewrite <- readTaskTierChain_strip, Hst, readTaskTierChain_strip.
  assert (forall t, t ∈ normalizeTaskVisualConfig config schema -> exists i, normalize_tier schema i t = t) as Hnorm.
  { intros t (i & Hi)%list_elem_of_lookup. exists i. by eapply normalized_tier. }
  rewrite (config_read _ parts); [|done..| |done].
  - simpl. by rewrite chain_read_normal.
  - apply Forall_forall. intros t Ht'. destruct (Hnorm t Ht') as [i Hi]. by eapply normal_enums.
Qed.

Lemma written_nonempty config : writable config -> exists x l, generateTaskExprFromConfig config schema = x :: l.
Proof.
  intros Hw. pose proof Hw as [Hf Hg _ _ _ _ _ _]. destruct (guarded_texts _ Hg) as [parts Hp].
  rewrite (generate_text config parts Hf Hp). destruct (texts_end _ parts Hp (normalized_some config)) as [pre ->].
  destruct pre; by eexists _, _.
Qed.
End Schema.

(** C7: The task form reads back what it writes: the expression generated from a
    configuration compiles, and parsing it gives the configuration in normal form,
    tier for tier, condition for condition and price for price. This is for schemas
    that name every field once, without flags that list values ([schema_ok]), and
    for configurations whose normal form is [writable]: there is a number field;
    every tier but the last has conditions and the last has none; the constants and
    prices are numbers that the parser reads as they are printed; and at most 125
    tiers, 60 number fields, 60 conditions in a tier, fewer than 10000 tokens and at
    most 65536 characters, the limits under which the parser reads it. *)
Theorem task_form_round_trip `{Collation} (schema : BillingUsageSchema) (config : option (list TaskTier)) :
  schema_ok schema -> writable schema config ->
  (exists c, compile (generateTaskExprFromConfig config schema) = Ready c) /\
  tryParseTaskVisualConfig (Some (generateTaskExprFromConfig config schema)) schema
  = Ok (Some (normalizeTaskVisualConfig config schema)).
Proof.
  intros Hs Hw. split; [destruct (written_compiles schema config Hw) as (c & Hc & _); by exists c|].
  unfold tryParseTaskVisualConfig. destruct (written_nonempty schema config Hw) as (x & l & E).
  pose proof (written_tiers schema Hs config Hw) as Ht. rewrite E in *. rewrite Ht. cbn [res_bind].
  pose proof (normalized_some schema config) as Hne.
  destruct (normalizeTaskVisualConfig config schema) as [|t ts] eqn:En; [done|]. rewrite <- En.
  by rewrite normal_config; [|by rewrite En|intros i t' Hi; by eapply normalized_tier].
Qed.

(** ** A sample schema *)

#[export] Existing Instance code_unit_collation.

Definition number_schema (u : BillingUsageUnit) : BillingUsageFieldSchema :=
  {| uf_type := Some FTnumber; uf_unit := Some u; uf_enum := None |}.

Definition sample_schema : BillingUsageSchema :=
  [(js "tokens", number_schema UStoken); (js "seconds", number_schema USsecond);
   (js "mode", {| uf_type := None; uf_unit := None; uf_enum := Some [js "pro"; js "std"] |})].

Definition dec (s : string) : f64 := number_of_string (js s).
Arguments dec s%_string.

Definition sample_config : list TaskTier :=
  [{| tk_label := js "pro"; tk_conditions := [(js "mode", js "pro"); (js "size", js "big")]; tk_constant := dec "0.1";
      tk_unitPrices := [(js "seconds", dec "0.8")] |};
   {| tk_label := []; tk_conditions := []; tk_constant := fzero;
      tk_unitPrices := [(js "tokens", dec "9.8"); (js "seconds", dec "2")] |}].

Lemma sample_schema_ok : schema_ok sample_schema.
Proof. split; [apply (bool_decide_unpack _); by vm_compute|]. by repeat constructor. Qed.

Ltac number_by_computation := unfold form_number, number_ok; split_and!; vm_compute; (reflexivity || by intros).

Lemma sample_writable : writable sample_schema (Some sample_config).
Proof.
  split; [by vm_compute|by vm_compute| |by apply Nat.leb_le|by apply Nat.leb_le| |by apply Nat.ltb_lt|by apply Nat.leb_le].
  - let nf := eval vm_compute in (getTaskNumberFields (Some sample_schema)) in
      change (getTaskNumberFields (Some sample_schema)) with nf.
    let l := eval vm_compute in (normalizeTaskVisualConfig (Some sample_config) sample_schema) in
      change (normalizeTaskVisualConfig (Some sample_config) sample_schema) with l.
    repeat (apply Forall_cons_2 || apply Forall_nil_2); (split; [number_by_computation|]);
      repeat (apply Forall_cons_2; [number_by_computation|]); apply Forall_nil_2.
  - repeat constructor; by apply Nat.leb_le.
Qed.

Lemma task_form_round_trip_witness :
  generateTaskExprFromConfig (Some sample_config) sample_schema
  = js "u(" ++ json_stringify (js "mode") ++ js ") == " ++ json_stringify (js "pro") ++ js " ? tier("
    ++ json_stringify (js "pro") ++ js ", 0.1 + u(" ++ json_stringify (js "seconds") ++ js ") * 0.8 + u("
    ++ json_stringify (js "tokens") ++ js ") * 0 / 1000000) : tier(" ++ json_stringify (js "tier_2") ++ js ", u("
    ++ json_stringify (js "seconds") ++ js ") * 2 + u(" ++ json_stringify (js "tokens") ++ js ") * 9.8 / 1000000)" /\
  tryParseTaskVisualConfig (Some (generateTaskExprFromConfig (Some sample_config) sample_schema)) sample_schema
  = Ok (Some (normalizeTaskVisualConfig (Some sample_config) sample_schema)).
Proof.
  split; [vm_compute; reflexivity|].
  apply (task_form_round_trip sample_schema (Some sample_config) sample_schema_ok sample_writable).
Defined.
End TaskFormFacts.
