(* ===== verification/BillingTaskMatrixFacts.v ===== *)
(** * Properties of the task price matrix and of the preview

    The matrix of a schema has one row for every choice of the enum values; it is
    read back from the expression written for it; and it can be too large for
    the parser. *)

From stdpp Require Import base list numbers strings sets.
From Stdlib Require Import ZArith SpecFloat Lia.
From S2P Require Import Prelude.
From S2P Require Import JsString.
From S2P Require Import JsNumber.
From S2P Require Import JsNumberFacts.
From S2P Require Import JsValue.
From S2P Require Import JsJson.
From S2P Require Import BillingTypes.
From S2P Require Import BillingParser.
From S2P Require Import BillingCompile.
From S2P Require Import BillingCompileFacts.
From S2P Require Import BillingRuntime.
From S2P Require Import BillingDisplay.
From S2P Require Import BillingDisplayFacts.
From S2P Require Import BillingRequestRules.
From S2P Require Import BillingPrint.
From S2P Require Import JsCollections.
From S2P Require Import BillingTaskForm.
From S2P Require Import BillingTaskFormFacts.

Module TaskMatrixFacts.
Import RequestRules TaskForm TaskFormFacts.

(** ** Keys of combinations *)

Lemma json_stringify_inj s1 s2 r1 r2 : json_stringify s1 ++ r1 = json_stringify s2 ++ r2 -> s1 = s2 /\ r1 = r2.
Proof.
  unfold json_stringify. rewrite <- !app_assoc. intros [= E].
  pose proof (json_string_body (json_chars s1) s1 r1 (json_chars_body s1)) as H1.
  pose proof (json_string_body (json_chars s2) s2 r2 (json_chars_body s2)) as H2.
  rewrite E in H1. rewrite H1 in H2. by simplify_eq.
Qed.

Lemma json_join_inj l1 l2 r1 r2 : length l1 = length l2 ->
  join (js ",") (json_stringify <$> l1) ++ js "]" ++ r1 = join (js ",") (json_stringify <$> l2) ++ js "]" ++ r2 -> l1 = l2.
Proof.
  revert l2. induction l1 as [|s1 l1 IH]; intros [|s2 l2] Hlen; try done. injection Hlen as Hlen.
  cbn [fmap list_fmap]. rewrite !join_head, <- !app_assoc. intros [-> E]%json_stringify_inj. f_equal.
  destruct l1 as [|t1 l1], l2 as [|t2 l2]; try done. apply (IH (t2 :: l2) Hlen).
  cbn [fmap list_fmap concat] in E. rewrite <- !app_assoc in E. apply (inj (app (js ","))) in E.
  cbn [fmap list_fmap]. by rewrite !join_head, <- !app_assoc.
Qed.

Lemma json_array_inj l1 l2 : length l1 = length l2 -> json_array (Some <$> l1) = json_array (Some <$> l2) -> l1 = l2.
Proof.
  intros Hlen. unfold json_array. rewrite <- !list_fmap_compose. intros E%(inj (app (js "["))).
  apply (json_join_inj l1 l2 [] []); [done|]. by rewrite app_nil_r.
Qed.

Section Matrix.
Context `{Collation} (schema : BillingUsageSchema) (Hschema : schema_ok schema).
Abbreviation numberFields := (getTaskNumberFields (Some schema)).
Abbreviation enumFields := (getTaskEnumFields (Some schema)).
Abbreviation combinations := (getTaskEnumCombinations (Some schema)).
Abbreviation combination := (list (jstr * jstr)).

(** One value per field, in the order of the fields. *)
Definition chooses (fs : fields) (c : combination) : Prop :=
  Forall2 (fun kv e => fst kv = fst e /\ snd kv ∈ default [] (uf_enum (snd e))) c fs.

Lemma chooses_names fs c : chooses fs c -> c.*1 = fs.*1.
Proof. induction 1 as [|kv e c fs [Hk _] _ IH]; [done|]. cbn. by rewrite Hk, IH. Qed.

Lemma extend_elem f vs cs c : c ∈ extend_combinations f vs cs <->
  exists c0 v, c0 ∈ cs /\ v ∈ vs /\ c = map_set f v c0.
Proof.
  unfold extend_combinations. rewrite elem_of_concat_map. setoid_rewrite list_elem_of_In at 2.
  setoid_rewrite in_map_iff. setoid_rewrite <- list_elem_of_In. naive_solver.
Qed.

(** The combinations made from a list of fields. *)
Definition combinations_of (fs : fields) : list combination :=
  foldl (fun cs e => extend_combinations (fst e) (default [] (uf_enum (snd e))) cs) [[]] fs.

Lemma combinations_snoc fs e : combinations_of (fs ++ [e])
  = extend_combinations (fst e) (default [] (uf_enum (snd e))) (combinations_of fs).
Proof. unfold combinations_of. by rewrite foldl_app. Qed.

Lemma combinations_spec fs c : NoDup (fs.*1) -> c ∈ combinations_of fs <-> chooses fs c.
Proof.
  revert c. induction fs as [|e fs IH] using rev_ind; intros c Hnd.
  { unfold combinations_of. cbn. rewrite list_elem_of_singleton. split; [intros ->; constructor|by inversion 1]. }
  rewrite fmap_app in Hnd. apply NoDup_app in Hnd as (Hnd & Hd & _).
  rewrite combinations_snoc, extend_elem. split.
  - intros (c0 & v & Hc0 & Hv & ->). apply IH in Hc0; [|done].
    rewrite map_set_new; [|rewrite (chooses_names fs c0 Hc0); intros Hin; apply (Hd (fst e) Hin); by left].
    apply Forall2_app; [done|]. by repeat constructor.
  - intros Hc. apply Forall2_app_inv_r in Hc as (c0 & c1 & Hc0 & Hc1 & ->).
    inversion Hc1 as [|[k v] ? ? ? [Hk Hv] Hnil]; subst. inversion Hnil; subst. simpl in *. subst k.
    exists c0, v. split_and!; [by apply IH|done|]. rewrite map_set_new; [done|].
    rewrite (chooses_names fs c0 Hc0). intros Hin. apply (Hd (fst e) Hin). by left.
Qed.

(** No choice is listed twice. *)
Definition enums_distinct : Prop := Forall (fun e => NoDup (default [] (uf_enum (snd e)))) schema.

Lemma extend_nodup f vs cs : NoDup vs -> NoDup cs -> (forall c, c ∈ cs -> f ∉ c.*1) ->
  NoDup (extend_combinations f vs cs).
Proof.
  intros Hv Hcs Hf. unfold extend_combinations. induction Hcs as [|c cs Hc Hcs IH]; [constructor|].
  cbn [map concat]. apply NoDup_app. split_and!.
  - apply NoDup_fmap_2_strong; [|done]. intros v1 v2 _ _. rewrite !map_set_new by (apply Hf; by left).
    intros E%(inj (app c)). by simplify_eq.
  - intros x (v & -> & Hin)%list_elem_of_fmap. intros (c' & Hc' & (v' & E & _)%list_elem_of_fmap)%elem_of_concat_map.
    rewrite !map_set_new in E by (apply Hf; by (left || right)). apply app_inj_2 in E as [-> _]; [|done]. done.
  - apply IH. intros c' Hc'. apply Hf. by right.
Qed.

Lemma combinations_nodup fs : NoDup (fs.*1) -> Forall (fun e => NoDup (default [] (uf_enum (snd e)))) fs ->
  NoDup (combinations_of fs).
Proof.
  induction fs as [|e fs IH] using rev_ind; intros Hnd He; [apply NoDup_singleton|].
  rewrite fmap_app in Hnd. apply NoDup_app in Hnd as (Hnd & Hd & _). apply Forall_app in He as [He Hl].
  rewrite combinations_snoc. apply extend_nodup; [by inversion Hl|by apply IH|].
  intros c Hc%combinations_spec; [|done]. rewrite (chooses_names fs c Hc). intros Hin. apply (Hd (fst e) Hin). by left.
Qed.

Lemma enum_names : NoDup (enumFields.*1).
Proof. apply (field_names_nodup schema Hschema is_enum_field). Qed.

Lemma enum_combinations c : c ∈ combinations <-> chooses enumFields c.
Proof. apply (combinations_spec enumFields), enum_names. Qed.

Lemma enum_combinations_once : enums_distinct -> NoDup combinations.
Proof.
  intros He. apply (combinations_nodup enumFields); [apply enum_names|]. apply Forall_forall.
  intros e (Hin & _)%sorted_elem. unfold enums_distinct in He. rewrite Forall_forall in He. by apply He.
Qed.

(** ** Keys tell combinations apart *)

Lemma chosen_assoc fs c C : NoDup (C.*1) -> (forall kv, kv ∈ c -> kv ∈ C) -> chooses fs c ->
  (fun e => assoc (fst e) C) <$> fs = Some <$> (snd <$> c).
Proof.
  intros Hnd Hin Hc. induction Hc as [|[k v] e c fs [Hk _] Hc IH]; [done|]. cbn in *. subst k.
  rewrite (assoc_nodup (fst e) v) by (done || (apply Hin; by left)). f_equal. apply IH. intros kv Hkv. apply Hin. by right.
Qed.

Lemma choice_names c : chooses enumFields c -> NoDup (c.*1).
Proof. intros Hc. rewrite (chooses_names _ c Hc). apply enum_names. Qed.

Lemma choice_key c : chooses enumFields c -> taskMatrixCombinationKey c enumFields = json_array (Some <$> (snd <$> c)).
Proof. intros Hc. unfold taskMatrixCombinationKey. f_equal. apply chosen_assoc; [by apply choice_names|done|done]. Qed.

Lemma choice_key_inj c1 c2 : chooses enumFields c1 -> chooses enumFields c2 ->
  taskMatrixCombinationKey c1 enumFields = taskMatrixCombinationKey c2 enumFields -> c1 = c2.
Proof.
  intros H1 H2. rewrite !choice_key by done. pose proof (Forall2_length _ _ _ H1) as L1.
  pose proof (Forall2_length _ _ _ H2) as L2. intros E%json_array_inj; [|rewrite !length_fmap; lia].
  pose proof (chooses_names _ _ H1) as N1. rewrite <- (chooses_names _ _ H2) in N1.
  rewrite <- (zip_fst_snd c1), <- (zip_fst_snd c2). congruence.
Qed.

(** ** A tier for every combination *)

Lemma choice_schema kv c : chooses enumFields c -> kv ∈ c ->
  exists d e, assoc (fst kv) schema = Some d /\ assoc (fst kv) enumFields = Some d /\
    uf_enum d = Some e /\ snd kv ∈ e.
Proof.
  intros Hc Hin. apply list_elem_of_lookup in Hin as [i Hi].
  destruct (Forall2_lookup_l _ _ _ _ _ Hc Hi) as ([k d] & He & Hk & Hv). simpl in *. subst k.
  apply list_elem_of_lookup_2 in He. pose proof (assoc_nodup (fst kv) d enumFields enum_names He) as Ha.
  apply sorted_elem in He as [He _].
  rewrite (assoc_nodup (fst kv) d schema) by (apply (so_names schema Hschema) || done).
  destruct (uf_enum d) as [e|] eqn:Ee; [by exists d, e|]. by apply elem_of_nil in Hv.
Qed.

Lemma choice_enum_condition kv c : chooses enumFields c -> kv ∈ c -> enum_condition schema kv = true.
Proof.
  intros Hc Hin. destruct (choice_schema kv c Hc Hin) as (d & e & _ & Ha & He & Hv).
  unfold enum_condition. rewrite Ha. simpl. rewrite He. by apply bool_decide_eq_true.
Qed.

Lemma choice_values conditions values c : chooses enumFields c -> (forall kv, kv ∈ conditions -> kv ∈ c) ->
  NoDup ((values ++ conditions).*1) -> values_by_field schema conditions values = Some (values ++ conditions).
Proof.
  intros Hc. revert values. induction conditions as [|[k v] conditions IH]; intros values Hin Hnd.
  { by rewrite app_nil_r. }
  destruct (choice_schema (k, v) c Hc) as (d & e & Hd & _ & He & Hv); [apply Hin; by left|]. simpl in Hd, Hv.
  assert (k ∉ values.*1) as Hk.
  { rewrite fmap_app in Hnd. apply NoDup_app in Hnd as (_ & Hd' & _). intros Hkv. apply (Hd' k Hkv). by left. }
  cbn [values_by_field]. rewrite bool_decide_false by done. rewrite Hd. simpl. rewrite He, bool_decide_true by done.
  rewrite map_set_new by done. replace (values ++ (k, v) :: conditions) with ((values ++ [(k, v)]) ++ conditions) in *
    by (by rewrite <- app_assoc). apply IH; [|done]. intros kv Hkv. apply Hin. by right.
Qed.

Lemma choice_rebuilt c : chooses enumFields c ->
  from_entries ((fun entry => (fst entry, default [] (assoc (fst entry) (sort_by_key c)))) <$> enumFields) = c.
Proof.
  intros Hc. pose proof (choice_names c Hc) as Hnd. rewrite from_entries_nodup.
  - assert ((fun e => assoc (fst e) (sort_by_key c)) <$> enumFields = Some <$> (snd <$> c)) as Ha.
    { apply chosen_assoc; [|intros kv; by rewrite sort_by_key_perm|done]. by rewrite sort_by_key_perm. }
    pose proof (chooses_names _ _ Hc) as Hn. revert Ha Hn. clear. generalize (sort_by_key c) as C.
    intros C. generalize enumFields as fs. intros fs.
    revert c. induction fs as [|e fs IH]; intros [|[k v] c] Ha Hn; try done. cbn in *. simplify_eq.
    rewrite (IH c) by done. by match goal with H : assoc _ _ = Some _ |- _ => rewrite H end.
  - rewrite (keyed_names (fun k => default [] (assoc k (sort_by_key c)))). apply enum_names.
Qed.

(** A tier that stands for a combination. *)
Definition stands_for (tier : TaskTier) (c : combination) : Prop :=
  chooses enumFields c /\ tk_conditions tier = sort_by_key c.

Abbreviation key := (fun c => taskMatrixCombinationKey c enumFields).

Lemma collect_tiers tiers cs m : Forall2 stands_for tiers cs -> NoDup (m.*1 ++ (key <$> cs)) ->
  tiers_by_combination schema enumFields tiers m = Some (m ++ zip (key <$> cs) tiers).
Proof.
  intros Hf. revert m. induction Hf as [|tier c tiers cs [Hc Ht] Hf IH]; intros m Hnd; [by rewrite app_nil_r|].
  cbn [tiers_by_combination]. rewrite Ht.
  assert (length (sort_by_key c) = length enumFields) as Hlen.
  { rewrite <- (Forall2_length _ _ _ Hc). apply Permutation_length, sort_by_key_perm. }
  rewrite Hlen, Nat.eqb_refl. cbn [negb].
  rewrite (choice_values (sort_by_key c) [] c) by
    (done || (intros kv; by rewrite sort_by_key_perm) || (cbn [app]; rewrite sort_by_key_perm; by apply choice_names)).
  cbn [app]. rewrite Hlen, Nat.eqb_refl. cbn [negb]. rewrite choice_rebuilt by done.
  assert (key c ∉ m.*1) as Hk.
  { apply NoDup_app in Hnd as (_ & Hd & _). intros Hin. apply (Hd _ Hin). by left. }
  destruct (assoc (key c) m) as [t|] eqn:E.
  { exfalso. apply Hk. apply assoc_elem_of in E. by apply (list_elem_of_fmap_2 fst _ (key c, t)). }
  rewrite map_set_new by done. rewrite IH.
  - rewrite E. cbn. by rewrite <- app_assoc.
  - rewrite fmap_app. cbn. by rewrite <- app_assoc.
Qed.

Lemma rows_of_tiers tiers cs m : NoDup (m.*1) -> Forall (chooses enumFields) cs ->
  Forall2 (fun t c => (key c, t) ∈ m) tiers cs ->
  matrix_rows enumFields numberFields m cs = Some (zip_with (tier_row numberFields) tiers cs).
Proof.
  intros Hnd Hcs Hf. induction Hf as [|t c tiers cs Hin Hf IH]; [done|]. cbn [matrix_rows zip_with].
  apply Forall_cons in Hcs as [_ Hcs]. rewrite (assoc_nodup (key c) t) by done. by rewrite IH.
Qed.

(** ** Rows and tiers *)

Definition row_price (row : TaskMatrixRow) (field : jstr) : f64 := default fzero (assoc field (mr_unitPrices row)).

(** A row has exactly the prices of the number fields, and numbers the parser
    reads as they are written. *)
Record row_ok (row : TaskMatrixRow) : Prop := {
  ro_constant : form_number (mr_constant row);
  ro_prices : mr_unitPrices row = (fun e => (fst e, row_price row (fst e))) <$> numberFields;
  ro_numbers : Forall (fun e => form_number (row_price row (fst e))) numberFields;
}.

Lemma form_usable x : form_number x -> usable_price x = x.
Proof. intros (_ & Hf & Hp & _). unfold usable_price. by rewrite Hf, Hp. Qed.

Lemma form_eq x y : form_number x -> form_number y -> feqb x y = true -> x = y.
Proof.
  intros (_ & _ & _ & Hx & _) (_ & _ & _ & Hy & _). destruct x as [[]|[]| |[]], y as [[]|[]| |[]]; try done.
  unfold feqb, SFeqb, SFcompare. destruct (Z.compare_spec e e0) as [->| |]; try done.
  change (Pos.compare_cont Eq m m0) with (m ?= m0)%positive.
  destruct (Pos.compare_spec m m0) as [->| |]; done.
Qed.

Lemma row_prices_of row : row_ok row -> prices_of numberFields (mr_unitPrices row) = mr_unitPrices row.
Proof.
  intros Hr. unfold prices_of. fold (row_price row). rewrite (keyed_entries schema Hschema (row_price row)).
  symmetry. apply Hr.
Qed.

Lemma row_normal_prices row : row_ok row ->
  (fun e => (fst e, normal_price (mr_unitPrices row) (fst e))) <$> numberFields = mr_unitPrices row.
Proof.
  intros Hr. transitivity ((fun e => (fst e, row_price row (fst e))) <$> numberFields); [|by rewrite <- (ro_prices row Hr)].
  apply (keyed_ext (normal_price (mr_unitPrices row)) (row_price row)).
  intros k Hk. unfold normal_price, price_number. rewrite (ro_prices row Hr), (keyed_assoc (row_price row)) by done.
  cbn [default]. apply form_usable. apply list_elem_of_fmap in Hk as (e & -> & He).
  pose proof (ro_numbers row Hr) as Hn. rewrite Forall_forall in Hn. by apply Hn.
Qed.

(** The tier of a row in normal form. *)
Definition row_reads (tier : TaskTier) (row : TaskMatrixRow) : Prop :=
  tk_constant tier = mr_constant row /\ tk_unitPrices tier = mr_unitPrices row.

Lemma normal_row_tier i j last row : row_ok row -> chooses enumFields (mr_combination row) ->
  let tier := normalize_tier schema i (row_tier numberFields last j row) in
  row_reads tier row /\
  tk_conditions tier = if Nat.eqb j last then [] else sort_by_key (mr_combination row).
Proof.
  intros Hr Hc. split; [split|].
  - apply form_usable, Hr.
  - rewrite normal_prices by done. cbn [tk_unitPrices row_tier]. rewrite row_prices_of by done.
    by apply row_normal_prices.
  - cbn [tk_conditions normalize_tier row_tier]. case_match; [done|].
    assert (forall kv, kv ∈ sort_by_key (mr_combination row) -> enum_condition schema kv = true) as Hall.
    { intros kv. rewrite sort_by_key_perm. by apply choice_enum_condition. }
    induction (sort_by_key (mr_combination row)) as [|kv l IH]; [done|]. simpl. rewrite Hall by left.
    f_equal. apply IH. intros kv' Hkv. apply Hall. by right.
Qed.

Lemma tier_row_eq tier row : row_ok row -> row_reads tier row ->
  tier_row numberFields tier (mr_combination row) = row.
Proof.
  intros Hr [Hc Hp]. unfold tier_row. rewrite Hc, Hp, row_prices_of by done. by destruct row.
Qed.

Lemma rows_rebuilt tiers rows : Forall row_ok rows -> Forall2 row_reads tiers rows ->
  zip_with (tier_row numberFields) tiers (mr_combination <$> rows) = rows.
Proof.
  intros Hr Hf. induction Hf as [|t row tiers rows Ht Hf IH]; [done|]. apply Forall_cons in Hr as [Hr Hrs].
  cbn [fmap list_fmap zip_with]. rewrite tier_row_eq by done. f_equal. by apply IH.
Qed.

Lemma key_names cs : Forall (chooses enumFields) cs -> NoDup cs -> NoDup (key <$> cs).
Proof.
  intros Hc Hnd. apply NoDup_fmap_2_strong; [|done]. rewrite Forall_forall in Hc. intros c1 c2 H1 H2.
  by apply choice_key_inj; apply Hc.
Qed.

Lemma zip_keys (cs : list combination) (ts : list TaskTier) : length ts = length cs ->
  (zip (key <$> cs) ts).*1 = key <$> cs.
Proof. intros Hl. apply fst_zip. rewrite length_fmap. lia. Qed.

(** The fallback tier goes to the one combination that no other tier names. *)
Lemma missing_combination cs c (ts : list TaskTier) : Forall (chooses enumFields) (cs ++ [c]) -> NoDup (cs ++ [c]) ->
  length ts = length cs ->
  List.filter (fun x => match assoc (key x) (zip (key <$> cs) ts) with Some _ => false | None => true end) (cs ++ [c])
  = [c].
Proof.
  intros Hc Hnd Hl. rewrite List.filter_app. pose proof (key_names _ Hc Hnd) as Hk. rewrite fmap_app in Hk.
  apply NoDup_app in Hk as (Hk & Hd & _). rewrite BillingDisplayFacts.filter_none.
  - cbn [List.filter]. destruct (assoc _ _) as [t|] eqn:E; [|done].
    exfalso. apply assoc_elem_of in E. apply (list_elem_of_fmap_2 fst) in E. rewrite zip_keys in E by done.
    apply (Hd _ E). by left.
  - intros x Hx. destruct (assoc _ _) as [t|] eqn:E; [done|].
    apply BillingCompileFacts.assoc_None in E. exfalso. apply E. change (fst <$> ?l) with (l.*1).
    rewrite zip_keys by done. by apply (list_elem_of_fmap_2 key).
Qed.

Lemma zip_within (m : list (jstr * TaskTier)) (cs : list combination) (ts : list TaskTier) : length ts = length cs ->
  (forall e, e ∈ zip (key <$> cs) ts -> e ∈ m) -> Forall2 (fun t c => (key c, t) ∈ m) ts cs.
Proof.
  intros Hl Hin. apply Forall2_same_length_lookup_2; [done|]. intros i t c Ht Hc. apply Hin.
  apply list_elem_of_lookup_2 with i. rewrite lookup_zip_with, list_lookup_fmap, Hc, Ht. done.
Qed.

(** The tiers of a matrix with more than one distinct row. *)
Lemma matrix_of_row_tiers cs c ts t rows : combinations = cs ++ [c] -> Forall (chooses enumFields) (cs ++ [c]) ->
  NoDup (cs ++ [c]) -> Forall2 stands_for ts cs -> tk_conditions t = [] ->
  zip_with (tier_row numberFields) (ts ++ [t]) (cs ++ [c]) = rows ->
  matrix_of_tiers schema (ts ++ [t]) = Some rows.
Proof.
  intros Hcomb Hcs Hnd Hst Htc Hrows. pose proof (Forall2_length _ _ _ Hst) as Hl.
  destruct ts as [|t1 ts1], cs as [|c1 cs1]; try done.
  { cbn [app zip_with fmap list_fmap] in *. unfold matrix_of_tiers. rewrite Hcomb. cbn. rewrite Htc. cbn. by rewrite <- Hrows. }
  unfold matrix_of_tiers. rewrite Hcomb. cbn [app].
  change (t1 :: ts1 ++ [t]) with ((t1 :: ts1) ++ [t]). change (c1 :: cs1 ++ [c]) with ((c1 :: cs1) ++ [c]).
  rewrite last_snoc, Htc, length_app. cbn [length Nat.eqb].
  replace (S (length ts1) + 1 =? 1)%nat with false by (symmetry; apply Nat.eqb_neq; lia).
  replace (S (length ts1) + 1 =? length ((c1 :: cs1) ++ [c]))%nat with true
    by (symmetry; apply Nat.eqb_eq; rewrite length_app; cbn in *; lia).
  cbn [negb andb]. replace (S (length ts1) + 1 - 1) with (length (t1 :: ts1)) by (cbn; lia). rewrite take_app_length.
  pose proof (key_names _ Hcs Hnd) as Hk. rewrite fmap_app in Hk.
  rewrite (collect_tiers _ _ [] Hst) by (by apply NoDup_app in Hk as [Hk _]).
  cbn [app]. match goal with |- context [List.filter ?f ?l] =>
    replace (List.filter f l) with [c] by (symmetry; by apply (missing_combination (c1 :: cs1) c (t1 :: ts1))) end.
  pose proof (zip_keys (c1 :: cs1) (t1 :: ts1) Hl) as Hz. set (m := zip _ _) in *.
  rewrite map_set_new by (rewrite Hz; intros Hin; apply NoDup_app in Hk as (_ & Hd & _); apply (Hd _ Hin); by left).
  rewrite (rows_of_tiers ((t1 :: ts1) ++ [t]) ((c1 :: cs1) ++ [c])); [by rewrite Hrows| |done|].
  - rewrite fmap_app, Hz. exact Hk.
  - apply Forall2_app; [|by repeat constructor; set_solver].
    apply zip_within; [done|]. intros e He. set_solver.
Qed.


Lemma matrix_read rows tiers : rows <> [] -> Forall row_ok rows -> mr_combination <$> rows = combinations ->
  NoDup combinations -> tiers = imap (fun i row => normalize_tier schema i (row_tier numberFields (length rows - 1) i row)) rows ->
  matrix_of_tiers schema tiers = Some rows.
Proof.
  intros Hne Hok Hcomb Hnd Htiers.
  assert (forall i row, rows !! i = Some row -> chooses enumFields (mr_combination row)) as Hch.
  { intros i row Hi. apply enum_combinations. rewrite <- Hcomb.
    by apply list_elem_of_fmap_2, (list_elem_of_lookup_2 _ i). }
  assert (Forall (chooses enumFields) combinations) as Hcs by (apply Forall_forall; intros c; apply enum_combinations).
  assert (Forall2 row_reads tiers rows) as Hreads.
  { subst tiers. apply Forall2_same_length_lookup_2; [by rewrite length_imap|]. intros i t row Ht Hr.
    rewrite list_lookup_imap, Hr in Ht. simpl in Ht. simplify_eq. apply normal_row_tier; [|by eapply Hch].
    by eapply Forall_lookup_1. }
  pose proof (rows_rebuilt tiers rows Hok Hreads) as Hrebuilt. pose proof (Forall2_length _ _ _ Hreads) as Hlen.
  destruct rows as [|r rs _] using rev_ind; [done|]. clear Hne. rewrite length_app in Htiers. cbn [length] in Htiers.
  replace (length rs + 1 - 1) with (length rs) in Htiers by lia. rewrite imap_app in Htiers. cbn [imap] in Htiers.
  set (ts := imap _ rs) in Htiers. set (t := normalize_tier _ _ _) in Htiers.
  assert (tk_conditions t = []) as Htc.
  { destruct (normal_row_tier (length rs + 0) (length rs + 0) (length rs) r) as [_ Hc];
      [apply Forall_app in Hok as [_ Hok]; by inversion Hok| |].
    - apply (Hch (length rs)). by rewrite lookup_app_r, Nat.sub_diag by done.
    - assert (Nat.eqb (length rs + 0) (length rs) = true) as Heq by (apply Nat.eqb_eq; lia).
      rewrite Heq in Hc. exact Hc. }
  assert (length ts = length rs) as Hlts by (unfold ts; by rewrite length_imap).
  assert (Forall2 stands_for ts (mr_combination <$> rs)) as Hst.
  { apply Forall2_same_length_lookup_2; [by rewrite length_fmap|]. intros i t' c Ht Hc.
    rewrite list_lookup_fmap in Hc. destruct (rs !! i) as [row|] eqn:Hr; [|done]. simplify_eq/=.
    unfold ts in Ht. rewrite list_lookup_imap, Hr in Ht. apply (inj Some) in Ht as <-.
    pose proof (lookup_lt_Some _ _ _ Hr) as Hi.
    assert ((rs ++ [r]) !! i = Some row) as Hr' by (by rewrite lookup_app_l). split; [by eapply Hch|].
    destruct (normal_row_tier i i (length rs) row) as [_ Hc]; [by eapply Forall_lookup_1|by eapply Hch|].
    rewrite (proj2 (Nat.eqb_neq i (length rs))) in Hc by lia. exact Hc. }
  rewrite fmap_app in Hcomb. cbn [fmap list_fmap] in Hcomb. rewrite fmap_app in Hrebuilt. cbn [fmap list_fmap] in Hrebuilt.
  rewrite Htiers in Hrebuilt, Hreads |- *. rewrite <- Hcomb in Hcs, Hnd. clearbody ts t.
  by apply matrix_of_row_tiers with (mr_combination <$> rs) (mr_combination r).
Qed.

(** ** Reading back the tiers of a matrix *)

Lemma row_price_some row field : row_ok row -> field ∈ numberFields.*1 ->
  assoc field (mr_unitPrices row) = Some (row_price row field).
Proof. intros Hr Hf. rewrite (ro_prices row Hr) at 1. by rewrite (keyed_assoc (row_price row)). Qed.

Lemma row_price_number row e : row_ok row -> e ∈ numberFields -> form_number (row_price row (fst e)).
Proof. intros Hr. pose proof (ro_numbers row Hr) as Hn. rewrite Forall_forall in Hn. apply Hn. Qed.

(** Rows that compare equal are the same but for their combination. *)
Lemma uniform_row first row : row_ok first -> row_ok row ->
  feqb (mr_constant row) (mr_constant first) &&
    forallb (fun e => same_price_of (fst e) (mr_unitPrices row) (mr_unitPrices first)) numberFields = true ->
  mr_constant row = mr_constant first /\ mr_unitPrices row = mr_unitPrices first.
Proof.
  intros Hf Hr [Hc Hp]%andb_prop. split; [apply form_eq; (apply Hf || apply Hr || done)|].
  rewrite (ro_prices row Hr), (ro_prices first Hf). apply (keyed_ext (row_price row) (row_price first)).
  intros k (e & -> & He)%list_elem_of_fmap. rewrite forallb_forall in Hp.
  apply list_elem_of_In in He as Hin. specialize (Hp e Hin). rewrite <- list_elem_of_In in Hin.
  assert (fst e ∈ numberFields.*1) as Hk by (by apply (list_elem_of_fmap_2 fst)).
  unfold same_price_of in Hp. rewrite !row_price_some in Hp by done.
  apply form_eq; [by apply row_price_number..|done].
Qed.

(** The price of a uniform matrix, one tier for every row. *)
Lemma uniform_read rows first : row_ok first -> Forall row_ok rows -> mr_combination <$> rows = combinations ->
  matrix_uniform rows first numberFields = true ->
  matrix_of_tiers schema [normalize_tier schema 0
    {| tk_label := js "base"; tk_conditions := []; tk_constant := mr_constant first;
       tk_unitPrices := prices_of numberFields (mr_unitPrices first) |}] = Some rows.
Proof.
  intros Hf Hok Hcomb Hu. unfold matrix_of_tiers. cbn [last length Nat.eqb tk_conditions normalize_tier List.filter andb].
  f_equal. rewrite <- Hcomb. clear Hcomb. set (t := normalize_tier _ _ _).
  assert (row_reads t first) as [Hc Hp].
  { split; [apply form_usable, Hf|]. unfold t. rewrite normal_prices by done. cbn [tk_unitPrices].
    rewrite row_prices_of by done. by apply row_normal_prices. }
  clearbody t. induction Hok as [|row rows Hr Hok IH]; [done|]. apply andb_prop in Hu as [Hrow Hu].
  apply (uniform_row first row Hf Hr) in Hrow as [Ec Ep]. cbn [fmap list_fmap].
  rewrite tier_row_eq; [|done|by rewrite <- Ec, <- Ep in *; split]. f_equal. by apply IH.
Qed.

Lemma matrix_tiers_read rows : numberFields <> [] -> rows <> [] -> enums_distinct -> Forall row_ok rows ->
  mr_combination <$> rows = combinations ->
  matrix_of_tiers schema (normalizeTaskVisualConfig (Some (taskMatrixToTiers rows schema)) schema) = Some rows.
Proof.
  intros Hnf Hne He Hok Hcomb. unfold taskMatrixToTiers. destruct numberFields as [|e nf] eqn:En; [done|].
  rewrite <- En in *. clear e nf En. destruct rows as [|first rows]; [done|].
  pose proof Hok as Hfirst. apply Forall_cons in Hfirst as [Hfirst _].
  destruct (matrix_uniform _ first _) eqn:Hu; [by apply uniform_read|].
  apply matrix_read; [done..|by apply enum_combinations_once|].
  cbn [normalizeTaskVisualConfig]. set (l := imap (row_tier _ _) _).
  assert (imap (normalize_tier schema) l = imap (fun i row => normalize_tier schema i
    (row_tier numberFields (length (first :: rows) - 1) i row)) (first :: rows)) as <-.
  { unfold l. apply list_eq. intros i. rewrite !list_lookup_imap. by destruct (_ !! i). }
  reflexivity.
Qed.

(** The combinations of a schema are exactly the choices of one listed value
    for every enum field, each of them once. *)
Theorem combinations_complete : enums_distinct ->
  (forall c, c ∈ getTaskEnumCombinations (Some schema) <-> chooses (getTaskEnumFields (Some schema)) c) /\
  NoDup (getTaskEnumCombinations (Some schema)).
Proof. intros He. split; [apply enum_combinations | by apply enum_combinations_once]. Qed.

(** C9: A price matrix is read back from the expression written for it: the same
    rows, in the same order, whether the matrix is written as one tier or as a
    tier for every row. The schema names every field once, without flags that list
    values, and lists every value of a field once; the matrix has rows, one for every
    combination of the schema and in its order, each with exactly the prices of the
    number fields and with numbers that are read as they are printed; and what is
    written is within the limits of the parser ([writable]: with different prices,
    at most 125 rows). *)
Theorem matrix_round_trip rows : enums_distinct -> rows <> [] -> Forall row_ok rows ->
  mr_combination <$> rows = getTaskEnumCombinations (Some schema) ->
  writable schema (Some (taskMatrixToTiers rows schema)) ->
  tryParseTaskMatrixConfig (Some (generateTaskExprFromConfig (Some (taskMatrixToTiers rows schema)) schema)) schema
  = Ok (Some rows).
Proof.
  intros He Hne Hok Hcomb Hw. unfold tryParseTaskMatrixConfig.
  destruct (written_nonempty schema _ Hw) as (x & l & E).
  pose proof (written_tiers schema Hschema _ Hw) as Ht. rewrite E in *. rewrite Ht. cbn [res_bind].
  rewrite matrix_tiers_read; [done|apply Hw|done..].
Qed.
End Matrix.

(** ** A sample matrix *)

Definition sample_matrix : list TaskMatrixRow :=
  [{| mr_combination := [(js "mode", js "pro")]; mr_constant := dec "0.1";
      mr_unitPrices := [(js "seconds", dec "0.8"); (js "tokens", dec "12")] |};
   {| mr_combination := [(js "mode", js "std")]; mr_constant := fzero;
      mr_unitPrices := [(js "seconds", dec "0.4"); (js "tokens", dec "9.8")] |}].

Lemma sample_enums_distinct : enums_distinct sample_schema.
Proof. repeat constructor; apply (bool_decide_unpack _); by vm_compute. Qed.

Lemma sample_row_ok row : row ∈ sample_matrix -> row_ok sample_schema row.
Proof.
  intros Hin.
  repeat (apply elem_of_cons in Hin as [->|Hin]); [| |by apply elem_of_nil in Hin];
    (split; [number_by_computation|by vm_compute|]);
    let nf := eval vm_compute in (getTaskNumberFields (Some sample_schema)) in
      change (getTaskNumberFields (Some sample_schema)) with nf;
    repeat (apply Forall_cons_2; [number_by_computation|]); apply Forall_nil_2.
Qed.

Lemma sample_matrix_writable : writable sample_schema (Some (taskMatrixToTiers sample_matrix sample_schema)).
Proof.
  split; [by vm_compute|by vm_compute| |by apply Nat.leb_le|by apply Nat.leb_le| |by apply Nat.ltb_lt|by apply Nat.leb_le].
  - let nf := eval vm_compute in (getTaskNumberFields (Some sample_schema)) in
      change (getTaskNumberFields (Some sample_schema)) with nf.
    let l := eval vm_compute in (normalizeTaskVisualConfig (Some (taskMatrixToTiers sample_matrix sample_schema)) sample_schema) in
      change (normalizeTaskVisualConfig (Some (taskMatrixToTiers sample_matrix sample_schema)) sample_schema) with l.
    repeat (apply Forall_cons_2 || apply Forall_nil_2); (split; [number_by_computation|]);
      repeat (apply Forall_cons_2; [number_by_computation|]); apply Forall_nil_2.
  - repeat constructor; by apply Nat.leb_le.
Qed.

Lemma matrix_round_trip_witness :
  tryParseTaskMatrixConfig (Some (generateTaskExprFromConfig (Some (taskMatrixToTiers sample_matrix sample_schema)) sample_schema))
    sample_schema = Ok (Some sample_matrix).
Proof.
  apply (matrix_round_trip sample_schema sample_schema_ok sample_matrix sample_enums_distinct).
  - done.
  - apply Forall_forall. intros row. apply sample_row_ok.
  - vm_compute. reflexivity.
  - apply sample_matrix_writable.
Defined.

Lemma combinations_complete_witness :
  getTaskEnumCombinations (Some sample_schema) = [[(js "mode", js "pro")]; [(js "mode", js "std")]] /\
  (forall c, c ∈ getTaskEnumCombinations (Some sample_schema) <-> chooses (getTaskEnumFields (Some sample_schema)) c).
Proof.
  split; [vm_compute; reflexivity|].
  apply (combinations_complete sample_schema sample_schema_ok sample_enums_distinct).
Defined.

(** ** A large matrix *)

(** A schema with one enum of [n] values. *)
Definition wide_schema (n : nat) : BillingUsageSchema :=
  [(js "seconds", number_schema USsecond);
   (js "mode", {| uf_type := None; uf_unit := None; uf_enum := Some (nat_digits <$> seq 0 n) |})].

(** Every value costs one a second, the first two. *)
Definition wide_matrix (n : nat) : list TaskMatrixRow :=
  (fun c => {| mr_combination := c; mr_constant := fzero;
               mr_unitPrices := [(js "seconds", if bool_decide (c = [(js "mode", js "0")]) then dec "2" else dec "1")] |})
    <$> getTaskEnumCombinations (Some (wide_schema n)).

Definition wide_text (n : nat) : jstr :=
  generateTaskExprFromConfig (Some (taskMatrixToTiers (wide_matrix n) (wide_schema n))) (wide_schema n).

(** The form writes matrices that it cannot read: the expression of a matrix
    with 126 rows is read back, that of one with 127 rows is refused by the
    compiler as too deep, and the form finds no matrix in it. *)
Theorem matrix_too_deep :
  tryParseTaskMatrixConfig (Some (wide_text 126)) (wide_schema 126) = Ok (Some (wide_matrix 126)) /\
  (exists f, compile (wide_text 127) = NotReady f /\ status f = FUnsupported) /\
  tryParseTaskMatrixConfig (Some (wide_text 127)) (wide_schema 127) = Ok None.
Proof.
  split_and!; [vm_compute; reflexivity| |vm_compute; reflexivity].
  eexists. split; vm_compute; reflexivity.
Qed.
End TaskMatrixFacts.
