(* ===== verification/BillingTaskPreviewFacts.v ===== *)
(** * Properties of the task price preview

    What the preview of the task form shows for a usage sample: the evaluator runs
    forward over the tree of the preview's expression, and charges the total of
    the items. *)

From stdpp Require Import base list numbers strings sets.
From Stdlib Require Import ZArith SpecFloat Lia.
From S2P Require Import Prelude.
From S2P Require Import JsString.
From S2P Require Import JsNumber.
From S2P Require Import JsNumberFacts.
From S2P Require Import JsValue.
From S2P Require Import BillingTypes.
From S2P Require Import BillingParser.
From S2P Require Import BillingCompile.
From S2P Require Import BillingCompileFacts.
From S2P Require Import BillingRuntime.
From S2P Require Import BillingRuntimeFacts.
From S2P Require Import BillingPricing.
From S2P Require Import BillingDisplay.
From S2P Require Import BillingRequestRules.
From S2P Require Import BillingPrint.
From S2P Require Import JsCollections.
From S2P Require Import BillingTaskForm.
From S2P Require Import BillingTaskFormFacts.

Module TaskPreviewFacts.
Import RequestRules TaskForm TaskFormFacts.

(** ** Sums of numbers without a sign *)

Definition unsigned (x : f64) : Prop := SFabs x = x.

Lemma round_unsigned mx ex lx : unsigned (binary_round_aux prec emax false mx ex lx).
Proof. unfold binary_round_aux. repeat case_match; done. Qed.

Lemma unsigned_mul x y : unsigned x -> unsigned y -> unsigned (fmul x y).
Proof.
  destruct x as [[]|[]| |[]], y as [[]|[]| |[]]; try done. intros _ _. apply round_unsigned.
Qed.

Lemma unsigned_div x y : unsigned x -> unsigned y -> unsigned (fdiv x y).
Proof.
  destruct x as [[]|[]| |[]], y as [[]|[]| |[]]; try done. intros _ _. unfold fdiv, SFdiv.
  destruct (SFdiv_core_binary _ _ _ _ _ _) as [[]]. apply round_unsigned.
Qed.

Lemma unsigned_add x y : unsigned x -> unsigned y -> unsigned (fadd x y).
Proof.
  destruct x as [[]|[]| |[]], y as [[]|[]| |[]]; try done. intros _ _. unfold fadd, SFadd.
  unfold binary_normalize. case_match; try done. unfold binary_round. case_match. apply round_unsigned.
Qed.

Lemma unsigned_sum x xs : unsigned x -> Forall unsigned xs -> unsigned (foldl fadd x xs).
Proof. intros Hx Hxs. revert x Hx. induction Hxs as [|y xs Hy _ IH]; intros x Hx; [done|]. by apply IH, unsigned_add. Qed.

Lemma unsigned_usable x : unsigned x -> usable_number x = is_finite x.
Proof. destruct x as [[]|[]| |[]]; done. Qed.

Lemma add_infinite x y : is_finite x && is_finite y = false -> is_finite (fadd x y) = false.
Proof. destruct x as [[]|[]| |], y as [[]|[]| |]; done. Qed.

Lemma sum_infinite x xs : is_finite x && forallb is_finite xs = false -> is_finite (foldl fadd x xs) = false.
Proof.
  revert x. induction xs as [|y xs IH]; intros x; simpl; [by rewrite andb_true_r|]. intros Hf. apply IH.
  destruct (is_finite (fadd x y)) eqn:E; [|done]. simpl. destruct (is_finite x && is_finite y) eqn:Exy.
  - apply andb_prop in Exy as [Ex Ey]. by rewrite Ex, Ey in Hf.
  - apply add_infinite in Exy. congruence.
Qed.

Lemma add_zero x : unsigned x -> fadd x fzero = x.
Proof. destruct x as [[]|[]| |[]]; done. Qed.

Lemma zero_add x : unsigned x -> fadd fzero x = x.
Proof. destruct x as [[]|[]| |[]]; done. Qed.

Lemma mul_zero x : is_finite x = true -> unsigned x -> fmul x fzero = fzero.
Proof. destruct x as [[]|[]| |[]]; done. Qed.

(** ** The evaluator, forward *)

Definition number_value (x : f64) (i : bool) : RuntimeValue := {| rv_value := JNum x; rv_integer := i |}.

(** A value that [evaluate] lets through. *)
Definition passes (v : RuntimeValue) : Prop :=
  match rv_value v with
  | JNum x => is_finite x = true /\ (rv_integer v = true -> is_safe_integer x = true)
  | _ => True
  end.

Section Forward.
Context `{Host} (compiled : CompiledBillingExpression) (context : BillingSimulationContext)
  (header_map : list (jstr * jstr)) (us : list (jstr * jsval)).
Hypothesis Hus : usage context = Some us.

Abbreviation eval := (evaluate compiled context header_map).
Abbreviation deeper s := (set_depth (S (rt_depth s)) s).

(** The trees that look like [n] evaluate to [v], within [k] levels. *)
Definition yields (k : nat) (n : ExpressionNode) (v : RuntimeValue) : Prop :=
  forall m s, strip m = n -> rt_depth s + k <= 256 -> eval m s = Ok (v, s).

Definition fails (k : nat) (n : ExpressionNode) : Prop :=
  forall m s, strip m = n -> rt_depth s + k <= 256 -> exists e, eval m s = Err e.

Definition decides (k : nat) (n : ExpressionNode) (b : bool) : Prop :=
  forall m s, strip m = n -> rt_depth s + k <= 256 -> boolean eval m s = Ok (b, s).

Lemma check_passes m v s : passes v -> check_value m v s = Ok (v, s).
Proof.
  unfold passes, check_value. destruct (rv_value v); try done. intros [-> Hi]. simpl.
  destruct (rv_integer v); [by rewrite Hi|done].
Qed.

Lemma check_infinite m x i s : is_finite x = false -> exists e, check_value m (number_value x i) s = Err e.
Proof. intros Hx. unfold check_value, number_value. cbn [rv_value]. rewrite Hx. by eexists. Qed.

Lemma eval_from_node m s v s1 : rt_depth s + 1 <= 256 ->
  evaluateNode compiled context header_map eval m (deeper s) = Ok (v, s1) -> passes v ->
  eval m s = Ok (v, set_depth (Nat.pred (rt_depth s1)) s1).
Proof.
  intros Hd Hn Hv. rewrite evaluate_unfold, (proj2 (Nat.ltb_ge 256 _)), Hn, check_passes by (done || lia). done.
Qed.

Lemma eval_err_node m s e : evaluateNode compiled context header_map eval m (deeper s) = Err e ->
  exists e', eval m s = Err e'.
Proof. intros Hn. rewrite evaluate_unfold. destruct (Nat.ltb _ _); [by eexists|]. rewrite Hn. by eexists. Qed.

Lemma back_up s : set_depth (Nat.pred (rt_depth (deeper s))) (deeper s) = s.
Proof. by destruct s. Qed.

Lemma yields_number k x : form_number x -> 1 <= k -> yields k (num_node x) (number_value x (number_flag x)).
Proof.
  intros (_ & Hf & _ & _ & _ & Hi) Hk m s Hm Hd. destruct m as [sp l| | | | |]; try done. injection Hm as ->.
  rewrite (eval_from_node _ s (number_value x (number_flag x)) (deeper s)); [by rewrite back_up|lia|done|done].
Qed.

Lemma yields_string k t : 1 <= k -> yields k (str_node t) (plain (JStr t)).
Proof.
  intros Hk m s Hm Hd. destruct m as [sp l| | | | |]; try done. injection Hm as ->.
  rewrite (eval_from_node _ s (plain (JStr t)) (deeper s)); [by rewrite back_up|lia|done|done].
Qed.

Lemma yields_usage k field : passes (plain (default JNull (assoc field us))) -> 2 <= k ->
  yields k (usage_node field) (plain (default JNull (assoc field us))).
Proof using Hus.
  intros Hp Hk m s Hm Hd. destruct m as [| |sp f args| | |]; try done. cbn [strip] in Hm.
  injection Hm as -> Hargs. destruct args as [|a [|? ?]]; try done. injection Hargs as Ha.
  rewrite (eval_from_node _ s (plain (default JNull (assoc field us))) (deeper s)); [by rewrite back_up|lia| |done].
  cbn [evaluateNode call call1]. unfold string_, st_bind.
  rewrite (yields_string 1 field ltac:(lia) a (deeper s) Ha) by (simpl; lia). cbn. by rewrite Hus.
Qed.

Lemma yields_weaken k k' n v : k <= k' -> yields k n v -> yields k' n v.
Proof. intros Hk Hn m s Hm Hd. apply Hn; [done|lia]. Qed.

Lemma fails_weaken k k' n : k <= k' -> fails k n -> fails k' n.
Proof. intros Hk Hn m s Hm Hd. apply Hn; [done|lia]. Qed.

(** ** Arithmetic *)

Definition arith (o : binop) (x y : f64) : f64 :=
  match o with Badd => fadd x y | Bmul => fmul x y | _ => fdiv x y end.

Definition is_arith (o : binop) : Prop := o = Badd \/ o = Bmul \/ o = Bdiv.

(** The number [x], without the flag of an integer, or an error when it is not
    finite. *)
Definition outcome (k : nat) (n : ExpressionNode) (x : f64) : Prop :=
  if is_finite x then yields k n (number_value x false) else fails k n.

(** The same, whatever the flag. *)
Definition totals (k : nat) (n : ExpressionNode) (x : f64) : Prop :=
  if is_finite x then exists i, (i = true -> is_safe_integer x = true) /\ yields k n (number_value x i) else fails k n.

Lemma outcome_totals k n x : outcome k n x -> totals k n x.
Proof. unfold outcome, totals. destruct (is_finite x); [|done]. intros Hy. by exists false. Qed.

Lemma number_totals k x : form_number x -> 1 <= k -> totals k (num_node x) x.
Proof.
  intros Hx Hk. pose proof Hx as (_ & Hf & _ & _ & _ & Hi). unfold totals. rewrite Hf.
  exists (number_flag x). split; [done|by apply yields_number].
Qed.

Lemma binary_shape m sp o l r : strip m = Binary sp o l r -> exists sp' l' r',
  m = Binary sp' o l' r' /\ strip l' = l /\ strip r' = r.
Proof. destruct m as [| | | |sp' o' l' r'|]; try done. cbn [strip]. intros [= _ -> <- <-]. by exists sp', l', r'. Qed.

Lemma arith_node sp o l r s : is_arith o ->
  evaluateNode compiled context header_map eval (Binary sp o l r) s
  = (a <- eval l ;; b <- eval r ;; apply_binary sp o a b)%jsm s.
Proof. by intros [->|[->| ->]]. Qed.

Lemma arith_apply sp o x i y j s : is_arith o -> i && j = false ->
  apply_binary sp o (number_value x i) (number_value y j) s = Ok (number_value (arith o x y) false, s).
Proof. intros [->|[->| ->]] Hij; cbn; by rewrite ?Hij. Qed.

Lemma arith_outcome k o l r x i y j : is_arith o -> i && j = false ->
  yields k l (number_value x i) -> yields k r (number_value y j) ->
  outcome (S k) (Binary sp0 o l r) (arith o x y).
Proof.
  intros Ho Hij Hl Hr.
  assert (forall sp l' r' s, strip l' = l -> strip r' = r -> rt_depth s + S k <= 256 ->
    evaluateNode compiled context header_map eval (Binary sp o l' r') (deeper s)
    = Ok (number_value (arith o x y) false, deeper s)) as Hn.
  { intros sp l' r' s El Er Hd. rewrite arith_node by done. unfold st_bind.
    rewrite (Hl l') by (done || simpl; lia). rewrite (Hr r') by (done || simpl; lia). by apply arith_apply. }
  unfold outcome. destruct (is_finite (arith o x y)) eqn:Hf.
  - intros m s (sp & l' & r' & -> & El & Er)%binary_shape Hd.
    rewrite (eval_from_node _ s (number_value (arith o x y) false) (deeper s)); [by rewrite back_up|lia|by apply Hn|done].
  - intros m s (sp & l' & r' & -> & El & Er)%binary_shape Hd. rewrite evaluate_unfold. destruct (Nat.ltb _ _); [by eexists|].
    rewrite Hn by done. destruct (check_infinite (Binary sp o l' r') (arith o x y) false (deeper s) Hf) as [e ->]. by eexists.
Qed.

Lemma arith_fails k o l r v : is_arith o -> fails k l \/ (yields k l v /\ fails k r) -> fails (S k) (Binary sp0 o l r).
Proof.
  intros Ho Hf m s (sp & l' & r' & -> & El & Er)%binary_shape Hd.
  assert (exists e, evaluateNode compiled context header_map eval (Binary sp o l' r') (deeper s) = Err e) as [e He].
  { rewrite arith_node by done. unfold st_bind. destruct Hf as [Hl|[Hl Hr]].
    - destruct (Hl l' (deeper s) El) as [e ->]; [simpl; lia|]. by eexists.
    - rewrite (Hl l') by (done || simpl; lia). destruct (Hr r' (deeper s) Er) as [e ->]; [simpl; lia|]. by eexists. }
  by eapply eval_err_node.
Qed.

Lemma infinite_scaled x : is_finite x = false -> is_finite (fdiv x TASK_TOKEN_PRICE_SCALE) = false.
Proof. by destruct x. Qed.

(** The amount of a usage term. *)
Definition amount_of (token : bool) (quantity price : f64) : f64 :=
  if token then fdiv (fmul quantity price) TASK_TOKEN_PRICE_SCALE else fmul quantity price.

Lemma scaled_outcome (token : bool) field q p : assoc field us = Some (JNum q) -> is_finite q = true -> form_number p ->
  outcome 4 (scaled_node token field p) (amount_of token q p).
Proof using Hus.
  intros Hq Hf Hp.
  assert (yields 2 (usage_node field) (number_value q false)) as Hu.
  { pose proof (yields_usage 2 field) as Hu. rewrite Hq in Hu. by apply Hu. }
  pose proof (yields_number 2 p Hp ltac:(lia)) as Hpn.
  pose proof (arith_outcome 2 Bmul _ _ _ _ _ _ (or_intror (or_introl eq_refl)) (andb_false_l _) Hu Hpn) as Hprod.
  unfold scaled_node, amount_of. cbn [arith] in Hprod. unfold outcome in Hprod. destruct (is_finite (fmul q p)) eqn:Hfp.
  - destruct token; [|unfold outcome; rewrite Hfp; by eapply yields_weaken, Hprod; lia].
    apply (arith_outcome 3 Bdiv _ _ (fmul q p) false TASK_TOKEN_PRICE_SCALE (number_flag TASK_TOKEN_PRICE_SCALE));
      [right; by right|done|done|]. apply yields_number; [apply scale_number|lia].
  - unfold outcome. destruct token.
    + rewrite infinite_scaled by done. apply (arith_fails 3 _ _ _ (plain JNull)); [right; by right|by left].
    + rewrite Hfp. by eapply fails_weaken, Hprod; lia.
Qed.

Lemma sum_totals k first rest x xs : 4 <= k -> totals k first x -> Forall2 (outcome 4) rest xs ->
  totals (k + length rest) (chain Badd first rest) (foldl fadd x xs).
Proof.
  intros Hk Hx Hr. revert k first x Hk Hx. induction Hr as [|n y rest xs Hn Hr IH]; intros k first x Hk Hx.
  { by rewrite Nat.add_0_r. }
  cbn [length chain foldl]. rewrite <- Nat.add_succ_comm. apply IH; [lia|]. unfold totals in Hx. unfold outcome in Hn.
  destruct (is_finite x) eqn:Fx.
  - destruct Hx as (i & Hi & Hx). destruct (is_finite y) eqn:Fy.
    + apply outcome_totals. apply (arith_outcome k Badd first n x i y false); [by left|by destruct i|done|].
      by apply (yields_weaken 4).
    + unfold totals. rewrite add_infinite by (by rewrite Fx, Fy). apply (arith_fails k _ _ _ (number_value x i)); [by left|].
      right. split; [done|]. by apply (fails_weaken 4).
  - unfold totals. rewrite add_infinite by (by rewrite Fx). apply (arith_fails k _ _ _ (plain JNull)); [by left|by left].
Qed.

(** ** Tiers and conditions *)

(** A successful end of the evaluation of a tier. *)
Definition charges (k : nat) (n : ExpressionNode) (x : f64) (label : jstr) : Prop :=
  forall m s, strip m = n -> rt_depth s + k <= 256 ->
  if is_finite x then exists s', eval m s = Ok (number_value x false, s') /\ same_price s s' /\ matchedTier s' = label
  else exists e, eval m s = Err e.

Lemma tier_charges k label body x : totals k body x -> 1 <= k -> charges (S k) (tier_node label body) x label.
Proof.
  intros Hb Hk m s Hm Hd. destruct m as [| |sp f args| | |]; try done. cbn [strip] in Hm. injection Hm as -> Hargs.
  destruct args as [|a [|b [|? ?]]]; try done. injection Hargs as Ha Hbm. unfold totals in Hb.
  pose proof (yields_string k label Hk a (deeper s) Ha ltac:(simpl; lia)) as Hs.
  destruct (is_finite x) eqn:Hf.
  - destruct Hb as (i & _ & Hb).
    rewrite (eval_from_node _ s (number_value x false) (set_tier label (deeper s))).
    + eexists. by split_and!.
    + lia.
    + cbn [evaluateNode call call2]. unfold string_, numeric, st_bind. rewrite Hs. cbn [rv_value plain st_ret].
      rewrite (Hb b (deeper s) Hbm) by (simpl; lia). done.
    + by split.
  - assert (exists e, evaluateNode compiled context header_map eval (Call sp Ftier [a; b]) (deeper s) = Err e) as [e He].
    { cbn [evaluateNode call call2]. unfold string_, numeric, st_bind. rewrite Hs. cbn [rv_value plain st_ret].
      destruct (Hb b (deeper s) Hbm ltac:(simpl; lia)) as [e ->]. by eexists. }
    by eapply eval_err_node.
Qed.
End Forward.

(** ** The expression of the preview *)

Lemma assoc_map_set {A} k (v : A) l : assoc k (map_set k v l) = Some v.
Proof.
  induction l as [|[k' w] l IH]; simpl; [by rewrite jeqb_refl|].
  destruct (jeqb k k') eqn:E; simpl; [by rewrite E|by rewrite E].
Qed.

Lemma assoc_map_set_ne {A} k k' (v : A) l : k <> k' -> assoc k (map_set k' v l) = assoc k l.
Proof.
  intros Hne. assert (jeqb k k' = false) as Hkk by (destruct (jeqb k k') eqn:E; [by apply jeqb_eq in E|done]).
  induction l as [|[k'' w] l IH]; simpl; [by rewrite Hkk|].
  destruct (jeqb k' k'') eqn:E; simpl; [|by rewrite IH]. apply jeqb_eq in E as <-. by rewrite Hkk.
Qed.

(** What the parts become in the expression: a part without a field is left out. *)
Definition part_amount (part : TaskPart) : option f64 :=
  match part with UsagePart (_ :: _) amount _ _ => Some amount | _ => None end.

Definition part_node (schema : option BillingUsageSchema) (part : TaskPart) : option ExpressionNode :=
  match part with
  | UsagePart ((_ :: _) as field) _ _ price => Some (scaled_node (token_unit schema field) field price)
  | _ => None
  end.

Definition part_text (schema : option BillingUsageSchema) (part : TaskPart) : option jstr :=
  match part with
  | UsagePart ((_ :: _) as field) _ _ price =>
      Some (usage_text field ++ js " * " ++ number_to_string price
              ++ (if token_unit schema field then js " / 1000000" else []))
  | _ => None
  end.

Definition part_usage (part : TaskPart) (usage : list (jstr * jsval)) : list (jstr * jsval) :=
  match part with UsagePart ((_ :: _) as field) _ quantity _ => map_set field (JNum quantity) usage | _ => usage end.

Lemma preview_terms_spec schema parts terms usage : preview_terms schema parts terms usage
  = (terms ++ omap (part_text schema) parts, foldl (fun u p => part_usage p u) usage parts).
Proof.
  revert terms usage. induction parts as [|p parts IH]; intros terms usage; cbn [preview_terms]; [by rewrite app_nil_r|].
  destruct p as [a|[|c f] a q u]; [apply IH|apply IH|]. rewrite IH, <- app_assoc. done.
Qed.

(** A part that [usage_parts] makes from the prices of a tier. *)
Definition part_from (schema : option BillingUsageSchema) (prices : list (jstr * f64)) (part : TaskPart) : Prop :=
  match part with
  | ConstantPart _ => False
  | UsagePart field amount quantity price =>
      (field, price) ∈ prices /\ is_finite quantity = true /\ is_finite amount = true /\
      amount = amount_of (token_unit schema field) quantity price
  end.

Definition part_field (part : TaskPart) : jstr := match part with UsagePart field _ _ _ => field | _ => [] end.

Lemma usage_parts_from schema sample prices used : usage_parts schema sample prices = Some used ->
  Forall (part_from schema prices) used /\ sublist (part_field <$> used) (prices.*1).
Proof.
  revert used. induction prices as [|[f p] prices IH]; intros used; cbn [usage_parts].
  { intros [= <-]. by split. }
  assert (forall part, part_from schema prices part -> part_from schema ((f, p) :: prices) part) as Hmore.
  { intros [a|f' a q p'] Hpart; [done|]. destruct Hpart as (Hin & Hrest). split; [by right|done]. }
  destruct (negb (usable_number p)); [done|]. destruct (feqb p fzero).
  { intros [Hf Hs]%IH. split; [by eapply Forall_impl|by constructor]. }
  destruct (negb (usable_number (fact_number sample f))) eqn:Hq; [done|]. destruct (negb (is_finite _)) eqn:Ha; [done|].
  intros (rest & [Hf Hs]%IH & ->)%fmap_Some. apply negb_false_iff in Hq, Ha. apply andb_prop in Hq as [Hq _].
  split; [|by constructor]. constructor; [|by eapply Forall_impl]. split_and!; [by left|done..].
Qed.

Lemma usage_lookup parts usage field amount quantity price : NoDup (part_field <$> parts) ->
  UsagePart field amount quantity price ∈ parts -> field <> [] ->
  assoc field (foldl (fun u p => part_usage p u) usage parts) = Some (JNum quantity).
Proof.
  intros Hnd. revert usage. induction parts as [|part parts IH]; intros usage Hin Hne; [by apply elem_of_nil in Hin|].
  cbn [fmap list_fmap] in Hnd. apply NoDup_cons in Hnd as [Hp Hnd]. cbn [foldl].
  apply elem_of_cons in Hin as [<-|Hin]; [|by apply IH]. cbn [part_field] in Hp. clear IH.
  cbn [part_usage]. destruct field as [|c f]; [done|].
  assert (assoc (c :: f) (map_set (c :: f) (JNum quantity) usage) = Some (JNum quantity)) as Ha by apply assoc_map_set.
  revert Ha. generalize (map_set (c :: f) (JNum quantity) usage) as u. induction parts as [|part parts IH]; intros u Ha; [done|].
  cbn [foldl]. cbn [fmap list_fmap] in Hp, Hnd. apply not_elem_of_cons in Hp as [Hp1 Hp2]. apply NoDup_cons in Hnd as [_ Hnd].
  apply IH; [done|done|]. destruct part as [a|[|c' f'] a q p]; try done. cbn [part_usage part_field] in *.
  by rewrite assoc_map_set_ne.
Qed.

(** The unit prices of a part can be written. *)
Definition part_writable (part : TaskPart) : Prop :=
  match part with UsagePart _ _ _ price => form_number price | ConstantPart _ => True end.

Lemma scale_text : js " / 1000000" = js " / " ++ number_to_string TASK_TOKEN_PRICE_SCALE.
Proof. by vm_compute. Qed.

Lemma parts_print schema parts : Forall part_writable parts ->
  Forall2 (fun n u => prints (body_tokens n) u) (omap (part_node schema) parts) (omap (part_text schema) parts).
Proof.
  induction 1 as [|part parts Hp _ IH]; [constructor|]. destruct part as [a|[|c f] a q p]; [done|done|].
  cbn [omap list_omap part_node part_text]. constructor; [|done]. rewrite scale_text. by apply (prints_scaled (token_unit schema (c :: f))).
Qed.

Lemma part_nodes schema parts : Forall part_writable parts ->
  Forall (fun n => 5 < node_prec n /\ part_ok Tnumber 2 3 n /\ length (body_tokens n) <= 8) (omap (part_node schema) parts).
Proof.
  induction 1 as [|part parts Hp _ IH]; [constructor|]. destruct part as [a|[|c f] a q p]; [done|done|].
  cbn [omap list_omap part_node]. constructor; [|done]. split_and!; [| |].
  - unfold scaled_node. destruct (token_unit _ _); simpl; lia.
  - by apply scaled_part.
  - unfold scaled_node. destruct (token_unit _ _); simpl; lia.
Qed.

Lemma omap_length {A B} (f : A -> option B) l : length (omap f l) <= length l.
Proof. induction l as [|x l IH]; [done|]. change (length (match f x with Some y => y :: omap f l | None => omap f l end) <= S (length l)).
  destruct (f x); cbn [length]; lia. Qed.

Lemma sum_tokens first rest : Forall (fun n => 5 < node_prec n) (first :: rest) ->
  Forall (fun n => length (body_tokens n) <= 8) (first :: rest) ->
  length (body_tokens (chain Badd first rest)) <= 8 + 9 * length rest.
Proof.
  intros Hp [Hf Hr]%Forall_cons. destruct (chain_tokens Badd first rest Hp) as [-> _]. rewrite length_app.
  assert (length (concat ((fun n => TokSym (binop_name Badd) :: body_tokens n) <$> rest)) <= 9 * length rest); [|lia].
  clear Hp. induction Hr as [|n rest Hn _ IH]; [done|]. rewrite fmap_cons. cbn [concat length].
  rewrite length_app. cbn [length]. lia.
Qed.

Lemma strip_chain o first rest : strip (chain o first rest) = chain o (strip first) (strip <$> rest).
Proof. revert first. induction rest as [|n rest IH]; intros first; [done|]. apply (IH (Binary sp0 o first n)). Qed.

Lemma strip_scaled token field p : strip (scaled_node token field p) = scaled_node token field p.
Proof. by destruct token. Qed.

Lemma strip_parts schema (parts : list TaskPart) : strip <$> omap (part_node schema) parts = omap (part_node schema) parts.
Proof.
  induction parts as [|[a|[|c f] a q p] parts IH]; try done. cbn [omap list_omap part_node].
  rewrite fmap_cons, strip_scaled. f_equal. exact IH.
Qed.

(** The preview's text and its tree. *)
Definition preview_text (schema : option BillingUsageSchema) (label : jstr) (constant : f64) (used : list TaskPart) : jstr :=
  tier_call_text label (join (js " + ") (number_to_string constant :: omap (part_text schema) used)).

Definition preview_tree (schema : option BillingUsageSchema) (label : jstr) (constant : f64) (used : list TaskPart)
    : ExpressionNode :=
  tier_node label (chain Badd (num_node constant) (omap (part_node schema) used)).

Lemma preview_compiles schema label constant used : form_number constant -> Forall part_writable used ->
  length used <= 250 -> length (preview_text schema label constant used) <= Nat.pow 2 16 ->
  exists c, compile (preview_text schema label constant used) = Ready c /\
    strip (c_ast c) = preview_tree schema label constant used.
Proof.
  intros Hc Hu Hl Ht. pose proof (part_nodes schema used Hu) as Hn. apply Forall_and in Hn as [Hp Hn].
  apply Forall_and in Hn as [Hn Htk]. pose proof (omap_length (part_node schema) used) as Hlen.
  assert (Forall (fun n => 5 < node_prec n) (num_node constant :: omap (part_node schema) used)) as Hprec
    by (constructor; [simpl; lia|done]).
  destruct (sum_part label (num_node constant :: omap (part_node schema) used)) as [P1 P2 P3 P4 P5];
    [done|done|constructor; [by apply number_part|done]|]. cbn [chain_of length] in *.
  destruct (compile_reads_text (preview_tree schema label constant used) (preview_text schema label constant used) Tnumber)
    as (c & Hcc & Hst); [|unfold preview_tree; lia|done|done|].
  - split; [done|unfold preview_tree; lia| |done|].
    + pose proof (sum_tokens (num_node constant) (omap (part_node schema) used) Hprec) as Hs.
      assert (length (body_tokens (preview_tree schema label constant used))
        = 5 + length (body_tokens (chain Badd (num_node constant) (omap (part_node schema) used)))) as ->.
      { unfold preview_tree. simpl. rewrite length_app. simpl. lia. }
      assert (Forall (fun n => length (body_tokens n) <= 8) (num_node constant :: omap (part_node schema) used)) as Ht8
        by (constructor; [simpl; lia|done]).
      specialize (Hs Ht8). lia.
    + assert (prints (body_tokens (chain_of Badd (num_node constant :: omap (part_node schema) used)))
        (join (js " + ") (number_to_string constant :: omap (part_text schema) used))) as Hprints.
      { apply (prints_chain Badd); [done|done|]. constructor; [by apply prints_number|by apply parts_print]. }
      specialize (prints_call_tier label _ _ Hprints [] [] I laid_end) as Hlaid. by rewrite !app_nil_r in Hlaid.
  - exists c. split; [done|]. rewrite Hst. unfold preview_tree. cbn [strip tier_node map str_node]. by rewrite strip_chain, strip_parts.
Qed.

(** ** What the preview computes *)

(** A context without a request, whose token counts are numbers. *)
Definition plain_context (ctx : BillingSimulationContext) : Prop :=
  request ctx = None /\ check_tokens (default [] (BillingRuntime.tokens ctx)) = Ok tt.

Lemma evaluate_ready `{Host} c ctx : plain_context ctx ->
  match evaluate c ctx [] (c_ast c) (initial_state c) with
  | Ok (v, s) =>
      match billable (rv_value v) with
      | Some cost => evaluateBillingExpression (Ready c) ctx
                     = Success cost (billingUnit s) (fixedPrice s) (matchedTier s) (requestRules s)
      | None => exists f, evaluateBillingExpression (Ready c) ctx = Failure f
      end
  | Err e => exists f, evaluateBillingExpression (Ready c) ctx = Failure f
  end.
Proof.
  intros [Hr Ht]. unfold evaluateBillingExpression, evaluate_compiled, run_node. rewrite Hr, Ht. cbn [mbind option_bind default from_option id load_headers res_bind].
  destruct (evaluate _ _ _ _ _) as [[v s]|e]; cbn [res_bind]; [|by eexists].
  destruct (billable (rv_value v)); [done|by eexists].
Qed.

(** An evaluation that charges [x]: it succeeds exactly when [x] is usable. *)
Lemma charged_result `{Host} c ctx k x label : plain_context ctx -> k <= 256 ->
  (forall hm, charges c ctx hm k (strip (c_ast c)) x label) ->
  match evaluateBillingExpression (Ready c) ctx with
  | Success cost unit_ price tier _ =>
      usable_number x = true /\ cost = x /\ unit_ = Utoken /\ price = None /\ tier = label
  | Failure _ => usable_number x = false
  end.
Proof.
  intros Hctx Hk Hch. specialize (Hch [] (c_ast c) (initial_state c) eq_refl ltac:(simpl; lia)).
  pose proof (evaluate_ready c ctx Hctx) as He. destruct (is_finite x) eqn:Hf.
  - destruct Hch as (s' & Hev & [Hp Hu] & Hl). rewrite Hev in He. cbn [rv_value number_value] in He.
    unfold billable in He. fold (usable_number x) in He. destruct (usable_number x) eqn:Hx.
    + rewrite He. by split_and!.
    + by destruct He as [f ->].
  - destruct Hch as [e Hev]. rewrite Hev in He. destruct He as [f ->]. unfold usable_number. by rewrite Hf.
Qed.

Lemma preview_tree_charges `{Host} c us hm schema label constant used prices :
  form_number constant -> Forall part_writable used -> Forall (part_from schema prices) used ->
  (forall field amount quantity price, UsagePart field amount quantity price ∈ used -> field <> [] ->
     assoc field us = Some (JNum quantity)) ->
  charges c (usage_context us) hm (S (4 + length (omap (part_node schema) used)))
    (preview_tree schema label constant used) (foldl fadd constant (omap part_amount used)) label.
Proof.
  intros Hc Hw Hp Hus. apply tier_charges; [|lia].
  apply sum_totals; [lia|by apply number_totals; [done|lia]|].
  rewrite Forall_forall in Hw, Hp.
  assert (forall parts, (forall part, part ∈ parts -> part ∈ used) ->
    Forall2 (outcome c (usage_context us) hm 4) (omap (part_node schema) parts) (omap part_amount parts)) as Hall; [|by apply Hall].
  induction parts as [|part parts IH]; intros Hsub; [constructor|].
  assert (part ∈ used) as Hin by (apply Hsub; by left). pose proof (Hp part Hin) as Hfrom. pose proof (Hw part Hin) as Hwr.
  specialize (IH (fun q Hq => Hsub q (list_elem_of_further _ _ _ Hq))).
  destruct part as [a|[|ch f] a q p]; [done|exact IH|]. cbn [omap list_omap part_node part_amount]. constructor; [|exact IH].
  destruct Hfrom as (_ & Hq & Ha & ->). apply (scaled_outcome c (usage_context us) hm us); [done| |done|exact Hwr].
  by eapply Hus.
Qed.

(** The preview's parts and total for the tier that matches. *)
Definition preview_parts (constant : f64) (used : list TaskPart) : list TaskPart :=
  (if fltb fzero constant then [ConstantPart constant] else []) ++ used.

(** The preview itemizes what the matching tier charges: its total is the
    constant plus the amounts of its items, added from left to right, and it is
    shown exactly when the items can be made from the sample and the total is
    finite and not negative. *)
Theorem preview_adds_up `{Host} (config : list TaskTier) (sample : list (jstr * TaskFact))
    (schema : option BillingUsageSchema) (tier : TaskTier) (used : list TaskPart) :
  preview_tier config sample = Some tier ->
  form_number (tk_constant tier) ->
  NoDup (tk_unitPrices tier).*1 -> Forall (fun e => form_number (snd e)) (tk_unitPrices tier) ->
  usage_parts schema sample (tk_unitPrices tier) = Some used ->
  length used <= 250 ->
  length (preview_text schema (tk_label tier) (tk_constant tier) used) <= Nat.pow 2 16 ->
  let total := foldl fadd (tk_constant tier) (omap part_amount used) in
  evaluateTaskVisualConfig config sample schema =
    if usable_number total
    then Some {| pr_tier := tier; pr_total := total; pr_parts := preview_parts (tk_constant tier) used |}
    else None.
Proof.
  intros Ht Hc Hnd Hn Hu Hl Hlen total. destruct (usage_parts_from _ _ _ _ Hu) as [Hfrom Hsub].
  assert (Forall part_writable used) as Hw.
  { eapply Forall_impl; [exact Hfrom|]. intros [a|f a q p]; [done|]. intros (Hin & _). rewrite Forall_forall in Hn.
    by apply (Hn _ Hin). }
  unfold evaluateTaskVisualConfig. rewrite Ht, Hu. pose proof Hc as (_ & Hfin & _ & Habs & _).
  rewrite unsigned_usable, Hfin by done. cbn [negb]. rewrite preview_terms_spec.
  fold (preview_parts (tk_constant tier) used). set (us := foldl _ _ _).
  assert (omap (part_text schema) (preview_parts (tk_constant tier) used) = omap (part_text schema) used) as ->
    by (unfold preview_parts; by destruct (fltb _ _)).
  cbn [app]. fold (preview_text schema (tk_label tier) (tk_constant tier) used).
  destruct (preview_compiles schema (tk_label tier) (tk_constant tier) used Hc Hw Hl Hlen) as (c & -> & Hst).
  pose proof (charged_result c (usage_context us) (S (4 + length (omap (part_node schema) used))) total (tk_label tier) (conj eq_refl eq_refl)) as Hr.
  pose proof (omap_length (part_node schema) used) as Hk.
  assert (NoDup (part_field <$> used)) as Hnf by (by eapply sublist_NoDup).
  specialize (Hr ltac:(lia)). rewrite Hst in Hr.
  assert (forall hm, charges c (usage_context us) hm (S (4 + length (omap (part_node schema) used)))
    (preview_tree schema (tk_label tier) (tk_constant tier) used) total (tk_label tier)) as Hch.
  { intros hm. eapply preview_tree_charges; [done..|]. intros field amount quantity price Hin Hne.
    unfold us, preview_parts. rewrite foldl_app. by eapply usage_lookup. }
  specialize (Hr Hch).
  destruct (evaluateBillingExpression (Ready c) (usage_context us)) as [cost u price t rules|f].
  - by destruct Hr as (-> & -> & _).
  - by rewrite Hr.
Qed.

Definition preview_sample : list (jstr * TaskFact) :=
  [(js "tokens", FactNum (dec "250000")); (js "seconds", FactNum (dec "5")); (js "mode", FactStr (js "std"))].

Definition preview_config : list TaskTier :=
  [{| tk_label := js "pro"; tk_conditions := [(js "mode", js "pro")]; tk_constant := dec "7"; tk_unitPrices := [] |};
   {| tk_label := js "std"; tk_conditions := []; tk_constant := dec "0.1";
      tk_unitPrices := [(js "seconds", dec "0.8"); (js "frames", fzero); (js "tokens", dec "12")] |}].

Lemma preview_adds_up_witness :
  match evaluateTaskVisualConfig (H0 := utc_host) preview_config preview_sample (Some sample_schema) with
  | Some r => number_to_string (pr_total r) = js "7.1" /\ length (pr_parts r) = 3
  | None => False
  end.
Proof.
  pose proof (preview_adds_up (H := utc_host) preview_config preview_sample (Some sample_schema)
    {| tk_label := js "std"; tk_conditions := []; tk_constant := dec "0.1";
       tk_unitPrices := [(js "seconds", dec "0.8"); (js "frames", fzero); (js "tokens", dec "12")] |}
    [UsagePart (js "seconds") (dec "4") (dec "5") (dec "0.8"); UsagePart (js "tokens") (dec "3") (dec "250000") (dec "12")]) as Hp.
  rewrite Hp; clear Hp.
  - match goal with |- context [if ?b then _ else _] => change b with true end. split; [vm_compute|]; reflexivity.
  - vm_compute. reflexivity.
  - number_by_computation.
  - apply (bool_decide_unpack _). by vm_compute.
  - repeat (apply Forall_cons_2; [number_by_computation|]). apply Forall_nil_2.
  - vm_compute. reflexivity.
  - by apply Nat.leb_le.
  - by apply Nat.leb_le.
Defined.
End TaskPreviewFacts.
