(* ===== verification/BillingTaskChargeFacts.v ===== *)
(** * The preview of the task form and the expression it generates

    For a configuration in normal form and a sample that has every quantity, the
    preview shows what the evaluation of the generated expression charges. *)

From stdpp Require Import base list numbers strings sets.
From Stdlib Require Import ZArith SpecFloat Lia.
From S2P Require Import Prelude.
From S2P Require Import JsString.
From S2P Require Import JsNumber.
From S2P Require Import JsNumberFacts.
From S2P Require Import JsValue.
From S2P Require Import BillingTypes.
From S2P Require Import BillingParser.
From S2P Require Import BillingCompile.
From S2P Require Import BillingCompileFacts.
From S2P Require Import BillingRuntime.
From S2P Require Import BillingRuntimeFacts.
From S2P Require Import BillingPricing.
From S2P Require Import BillingDisplay.
From S2P Require Import BillingRequestRules.
From S2P Require Import BillingPrint.
From S2P Require Import JsCollections.
From S2P Require Import BillingTaskForm.
From S2P Require Import BillingTaskFormFacts.
From S2P Require Import BillingTaskPreviewFacts.

Module TaskChargeFacts.
Import RequestRules TaskForm TaskFormFacts TaskPreviewFacts.

(** ** Conditions and tiers, forward *)

Section Forward.
Context `{Host} (compiled : CompiledBillingExpression) (context : BillingSimulationContext)
  (header_map : list (jstr * jstr)) (sample : list (jstr * TaskFact)).

(** The usage that the evaluator sees. *)
Definition sample_usage : list (jstr * jsval) := prod_map id fact_value <$> sample.

Hypothesis Hus : usage context = Some sample_usage.
(** A number of the sample is finite. *)
Definition sample_finite : Prop :=
  forall field x, assoc field sample = Some (FactNum x) -> is_finite x = true.
Hypothesis Hfinite : sample_finite.

Abbreviation eval := (evaluate compiled context header_map).
Abbreviation deeper s := (set_depth (S (rt_depth s)) s).
Abbreviation decides := (TaskPreviewFacts.decides compiled context header_map).
Abbreviation yields := (TaskPreviewFacts.yields compiled context header_map).
Abbreviation charges := (TaskPreviewFacts.charges compiled context header_map).

Lemma sample_assoc field : assoc field sample_usage = fact_value <$> assoc field sample.
Proof.
  unfold sample_usage. induction sample as [|[k v] l IH]; [done|]. cbn [fmap list_fmap prod_map fst snd assoc id].
  destruct (jeqb field k); [done|]. apply IH.
Qed.

Lemma decides_boolean k n b : yields k n (plain (JBool b)) -> decides k n b.
Proof. intros Hn m s Hm Hd. unfold boolean, st_bind. by rewrite (Hn m s Hm Hd). Qed.

Lemma decides_condition c : decides 3 (condition_node c) (fact_is sample c).
Proof using Hus Hfinite.
  apply decides_boolean. intros m s (sp & l & r & -> & El & Er)%binary_shape Hd.
  set (v := default JNull (assoc (fst c) sample_usage)).
  assert (passes (plain v)) as Hp.
  { unfold v. rewrite sample_assoc. destruct (assoc (fst c) sample) as [[x|t]|] eqn:E; [|done|done].
    split; [by eapply Hfinite|done]. }
  assert (negb (strict_eq v JNull) && negb (strict_eq (JStr (snd c)) JNull) && (is_object v || is_object (JStr (snd c))) = false
    /\ strict_eq v (JStr (snd c)) = fact_is sample c) as [Hobj Heq].
  { unfold v, fact_is. rewrite sample_assoc. by destruct (assoc (fst c) sample) as [[x|t]|]. }
  rewrite (eval_from_node compiled context header_map _ s (plain (JBool (fact_is sample c))) (deeper s)); [by rewrite back_up|lia| |done].
  cbn [evaluateNode binary]. unfold st_bind.
  rewrite (yields_usage compiled context header_map sample_usage Hus 2 (fst c) Hp ltac:(lia) l (deeper s) El) by (simpl; lia).
  rewrite (yields_string compiled context header_map 1 (snd c) ltac:(lia) r (deeper s) Er) by (simpl; lia).
  unfold apply_binary. cbn [rv_value plain]. fold v. by rewrite Hobj, Heq.
Qed.

Lemma decides_and k l r a b : decides k l a -> decides k r b -> decides (S k) (Binary sp0 Band l r) (a && b).
Proof.
  intros Hl Hr. apply decides_boolean. intros m s (sp & l' & r' & -> & El & Er)%binary_shape Hd.
  rewrite (eval_from_node compiled context header_map _ s (plain (JBool (a && b))) (deeper s)); [by rewrite back_up|lia| |done].
  cbn [evaluateNode binary]. unfold st_bind. rewrite (Hl l' _ El) by (simpl; lia). destruct a; [|done].
  by rewrite (Hr r' _ Er) by (simpl; lia).
Qed.

Lemma decides_weaken k k' n b : k <= k' -> decides k n b -> decides k' n b.
Proof. intros Hk Hn m s Hm Hd. apply Hn; [done|lia]. Qed.

(** A conjunction of conditions. *)
Lemma decides_all ns bs : ns <> [] -> Forall2 (decides 3) ns bs -> decides (2 + length ns) (chain_of Band ns) (forallb id bs).
Proof.
  intros Hne Hall. destruct Hall as [|n b ns bs Hn Hall]; [done|]. clear Hne. cbn [chain_of forallb length id].
  assert (forall k acc a, 3 <= k -> decides k acc a -> decides (k + length ns) (chain Band acc ns) (a && forallb id bs)) as Hstep;
    [|by apply (Hstep 3)].
  clear Hn n b. induction Hall as [|n b ns bs Hn _ IH]; intros k acc a Hk Ha.
  { cbn. rewrite andb_true_r, Nat.add_0_r. exact Ha. }
  cbn [chain foldl forallb length id]. rewrite <- Nat.add_succ_comm, andb_assoc. apply IH; [lia|].
  apply decides_and; [done|]. by apply (decides_weaken 3).
Qed.

Lemma decides_conditions cs : cs <> [] ->
  decides (2 + length cs) (chain_of Band (condition_node <$> cs)) (forallb (fact_is sample) cs).
Proof using Hus Hfinite.
  intros Hne. pose proof (decides_all (condition_node <$> cs) (fact_is sample <$> cs)) as Hd. rewrite length_fmap in Hd.
  replace (forallb id (fact_is sample <$> cs)) with (forallb (fact_is sample) cs) in Hd by (clear; induction cs as [|c cs IH]; [done|]; cbn; by rewrite IH).
  apply Hd; [by destruct cs|]. apply Forall2_fmap, Forall_Forall2_diag, Forall_true. intros c. apply decides_condition.
Qed.

Lemma mark_rule_same m s : exists s', mark_rule compiled m s = Ok (tt, s') /\ same_price s s' /\ rt_depth s' = rt_depth s.
Proof. unfold mark_rule. case_match; [case_match|]; by eexists. Qed.

Lemma conditional_shape m sp c y n : strip m = Conditional sp c y n -> exists sp' c' y' n',
  m = Conditional sp' c' y' n' /\ strip c' = c /\ strip y' = y /\ strip n' = n.
Proof. destruct m as [| | | | |sp' c' y' n']; try done. cbn [strip]. intros [= _ <- <- <-]. by exists sp', c', y', n'. Qed.

Lemma conditional_charges k c y n b x label : decides k c b ->
  charges k (if b then y else n) x label -> charges (S k) (Conditional sp0 c y n) x label.
Proof.
  intros Hc Hb m s (sp & c' & y' & n' & -> & Ec & Ey & En)%conditional_shape Hd.
  assert (exists s1, same_price (deeper s) s1 /\ rt_depth s1 = S (rt_depth s) /\
    evaluateNode compiled context header_map eval (Conditional sp c' y' n') (deeper s)
    = eval (if b then y' else n') s1) as (s1 & Hs1 & Hd1 & He).
  { cbn [evaluateNode]. unfold st_bind. rewrite (Hc c' (deeper s) Ec) by (simpl; lia). destruct b.
    - destruct (mark_rule_same (Conditional sp c' y' n') (deeper s)) as (s1 & -> & Hp & Hdd). by exists s1.
    - by exists (deeper s). }
  specialize (Hb (if b then y' else n') s1 ltac:(by destruct b) ltac:(lia)).
  destruct (is_finite x) eqn:Hf.
  - destruct Hb as (s2 & Hev & Hp & Hl). rewrite Hev in He.
    rewrite (eval_from_node compiled context header_map _ s (number_value x false) s2); [|lia|done|by split].
    eexists. split; [done|]. split; [|done].
    destruct Hs1, Hp. split; cbn in *; congruence.
  - destruct Hb as [e Hev]. rewrite Hev in He. by eapply eval_err_node.
Qed.
End Forward.

(** ** Totals of tiers *)

Section Schema.
Context `{Collation} (schema : BillingUsageSchema) (Hschema : schema_ok schema).
Context (sample : list (jstr * TaskFact)).
Abbreviation numberFields := (getTaskNumberFields (Some schema)).

(** The sample has a quantity for every number field, finite and without a
    sign, and no number that is not finite. *)
Record sample_ok : Prop := {
  sk_quantities : Forall (fun e => exists q, assoc (fst e) sample = Some (FactNum q) /\ unsigned q) numberFields;
  sk_finite : sample_finite sample;
}.

Definition quantity (field : jstr) : f64 := fact_number sample field.

Definition field_amount (price : jstr -> f64) (e : jstr * BillingUsageFieldSchema) : f64 :=
  amount_of (token_unit (Some schema) (fst e)) (quantity (fst e)) (price (fst e)).

(** What a tier charges: its constant and the amounts of its fields. *)
Definition tier_total (tier : TaskTier) : f64 :=
  foldl fadd (tk_constant tier) (field_amount (price_at tier) <$> numberFields).

Hypothesis Hsample : sample_ok.

Lemma field_quantity e : e ∈ numberFields ->
  assoc (fst e) sample = Some (FactNum (quantity (fst e))) /\ is_finite (quantity (fst e)) = true /\ unsigned (quantity (fst e)).
Proof using Hsample.
  intros He. pose proof (sk_quantities Hsample) as Hq. rewrite Forall_forall in Hq. destruct (Hq e He) as (q & Ha & Hu).
  unfold quantity, fact_number. rewrite Ha. split_and!; [done|by eapply (sk_finite Hsample)|done].
Qed.

Lemma scaled_unsigned (token : bool) q p : unsigned q -> unsigned p -> unsigned (amount_of token q p).
Proof. intros Hq Hp. unfold amount_of. destruct token; [apply unsigned_div; [|done]|]; by apply unsigned_mul. Qed.

Lemma form_unsigned x : form_number x -> unsigned x.
Proof. by intros (_ & _ & _ & Hx & _). Qed.

Lemma unit_flag e : e ∈ numberFields -> token_unit (Some schema) (fst e) = bool_decide (uf_unit (snd e) = Some UStoken).
Proof using Hschema.
  intros (Ha & Hn)%(number_field schema Hschema). unfold token_unit. cbn [mbind option_bind]. rewrite Ha. cbn [mbind option_bind].
  unfold is_number_field in Hn. by destruct (uf_unit (snd e)) as [[]|].
Qed.

Section Tier.
Context (tier : TaskTier).
Hypothesis Hnumbers : numbers_ok numberFields tier.

Lemma amount_unsigned e : e ∈ numberFields -> unsigned (field_amount (price_at tier) e).
Proof using Hsample Hnumbers.
  intros He. apply scaled_unsigned; [by apply field_quantity|]. apply form_unsigned.
  destruct Hnumbers as [_ Hp]. rewrite Forall_forall in Hp. by apply Hp.
Qed.

(** The evaluator on the tree of the tier. *)
Lemma tier_tree_charges `{Host} c hm : numberFields <> [] ->
  charges c (usage_context (sample_usage sample)) hm (length numberFields + 6) (tier_tree numberFields tier) (tier_total tier) (tk_label tier).
Proof using Hschema Hsample Hnumbers.
  intros Hne. pose proof Hnumbers as [Hc Hp].
  assert (forall nf, (forall e, e ∈ nf -> e ∈ numberFields) ->
    Forall2 (outcome c (usage_context (sample_usage sample)) hm 4) (price_node tier <$> nf) (field_amount (price_at tier) <$> nf)) as Hall.
  { intros nf Hsub. apply Forall2_fmap, Forall_Forall2_diag, Forall_forall. intros e He. apply Hsub in He.
    destruct (field_quantity e He) as (Hq & Hf & _). unfold price_node, field_amount. rewrite <- (unit_flag e He).
    apply (scaled_outcome c (usage_context (sample_usage sample)) hm (sample_usage sample)); [done| |done|].
    - by rewrite sample_assoc, Hq.
    - rewrite Forall_forall in Hp. by apply Hp. }
  specialize (Hall numberFields (fun e He => He)). unfold tier_total, tier_tree, constant_terms.
  assert (forall e, e ∈ numberFields -> unsigned (field_amount (price_at tier) e)) as Hun by apply amount_unsigned.
  destruct numberFields as [|e nf] eqn:En; [done|]. rewrite <- En in *. clear Hne.
  destruct (fltb fzero (tk_constant tier)) eqn:Hcon.
  - replace (length numberFields + 6) with (S (5 + length numberFields)) by lia. apply tier_charges; [|lia].
    rewrite <- (length_fmap (price_node tier) numberFields).
    apply sum_totals; [lia|by apply number_totals; [done|lia]|done].
  - rewrite (form_number_positive _ Hc Hcon), En in *. cbn [app fmap list_fmap chain_of foldl].
    rewrite zero_add by (apply Hun; by left). inversion Hall as [|? ? ? ? Hfirst Hrest]; subst.
    replace (length (e :: nf) + 6) with (S (6 + length nf)) by (cbn; lia). apply tier_charges; [|lia].
    rewrite <- (length_fmap (price_node tier) nf). apply sum_totals; [lia| |done].
    apply outcome_totals. unfold outcome in *. destruct (is_finite _).
    + by apply (yields_weaken c (usage_context (sample_usage sample)) hm 4); [lia|].
    + by apply (fails_weaken c (usage_context (sample_usage sample)) hm 4); [lia|].
Qed.
End Tier.

(** ** Configurations *)

Lemma preview_tier_cons t t2 ts : preview_tier (t :: t2 :: ts) sample
  = if forallb (fact_is sample) (tk_conditions t) then Some t else preview_tier (t2 :: ts) sample.
Proof.
  unfold preview_tier. change (last (t :: t2 :: ts)) with (last (t2 :: ts)).
  destruct (last (t2 :: ts)) as [f|] eqn:El; [|by apply last_None in El].
  replace (length (t :: t2 :: ts) - 1) with (S (length (t2 :: ts) - 1)) by (cbn; lia). cbn [take List.find].
  by destruct (forallb _ _).
Qed.

Lemma config_tree_cons t t2 ts : config_tree numberFields (t :: t2 :: ts)
  = Conditional sp0 (chain_of Band (condition_node <$> tk_conditions t)) (tier_tree numberFields t)
      (config_tree numberFields (t2 :: ts)).
Proof. done. Qed.

Lemma charges_weaken `{Host} c ctx hm k k' n x label : k <= k' -> charges c ctx hm k n x label -> charges c ctx hm k' n x label.
Proof. intros Hk Hn m s Hm Hd. apply Hn; [done|lia]. Qed.

Lemma config_charges `{Host} c hm tiers t w : numberFields <> [] -> guarded tiers ->
  Forall (numbers_ok numberFields) tiers -> Forall (fun t => length (tk_conditions t) <= w) tiers ->
  preview_tier tiers sample = Some t ->
  charges c (usage_context (sample_usage sample)) hm (length tiers + length numberFields + w + 6)
    (config_tree numberFields tiers) (tier_total t) (tk_label t).
Proof using Hschema Hsample.
  intros Hne Hg Hn Hw Ht. revert t Ht. induction tiers as [|t1 tiers IH]; intros t Ht; [done|].
  apply Forall_cons in Hn as [Hn1 Hn]. apply Forall_cons in Hw as [Hw1 Hw].
  pose proof (fun c hm => tier_tree_charges t1 Hn1 c hm Hne) as H1.
  destruct tiers as [|t2 tiers].
  { injection Ht as ->. eapply charges_weaken, H1. cbn. lia. }
  destruct Hg as [Hc Hg]. rewrite preview_tier_cons in Ht. rewrite config_tree_cons.
  cbn [length]. rewrite !Nat.add_succ_l. apply conditional_charges with (forallb (fact_is sample) (tk_conditions t1)).
  - eapply decides_weaken; [|apply (decides_conditions c (usage_context (sample_usage sample)) hm sample eq_refl (sk_finite Hsample)); done]. lia.
  - destruct (forallb _ _).
    + injection Ht as <-. eapply charges_weaken, H1. lia.
    + eapply charges_weaken; [|apply (IH Hg Hn Hw t Ht)]. cbn [length]. lia.
Qed.

(** ** Items *)

Lemma zero_amount token q p : is_finite q = true -> unsigned q -> form_number p -> feqb p fzero = true ->
  amount_of token q p = fzero.
Proof.
  intros Hq Hu Hp Hz. assert (p = fzero) as ->.
  { apply form_unsigned in Hp. destruct p as [[]|[]| |[]]; try done; by destruct p0, e. }
  unfold amount_of. rewrite mul_zero by done. by destruct token.
Qed.

(** The items of the preview add up to the amounts of all fields: a field
    without a price adds zero. *)
Lemma items_add_up (price : jstr -> f64) nf : (forall e, e ∈ nf -> e ∈ numberFields /\ form_number (price (fst e)) /\ fst e <> []) ->
  match usage_parts (Some schema) sample ((fun e => (fst e, price (fst e))) <$> nf) with
  | Some used => length used <= length nf /\
      forall x, unsigned x -> foldl fadd x (omap part_amount used) = foldl fadd x (field_amount price <$> nf)
  | None => forallb is_finite (field_amount price <$> nf) = false
  end.
Proof using Hsample.
  induction nf as [|e nf IH]; intros Hnf; [by split|]. specialize (IH (fun e' He => Hnf e' (list_elem_of_further _ _ _ He))).
  destruct (Hnf e ltac:(left)) as (He & Hp & Hname). destruct (field_quantity e He) as (Hq & Hf & Hu).
  assert (unsigned (field_amount price e)) as Hau by (apply scaled_unsigned; [done|by apply form_unsigned]).
  cbn [fmap list_fmap usage_parts forallb foldl]. rewrite unsigned_usable by (by apply form_unsigned).
  pose proof Hp as (_ & Hpf & _). rewrite Hpf. cbn [negb]. fold (quantity (fst e)).
  destruct (feqb (price (fst e)) fzero) eqn:Hz.
  - assert (field_amount price e = fzero) as -> by (by apply zero_amount). unfold fmap in IH.
    destruct (usage_parts _ _ _) as [used|]; [|done]. destruct IH as [Hl IH]. split; [cbn; lia|].
    intros x Hx. rewrite add_zero by done. by apply IH.
  - rewrite unsigned_usable, Hf by done. cbn [negb].
    change (if token_unit (Some schema) (fst e) then _ else _) with (field_amount price e).
    destruct (is_finite (field_amount price e)) eqn:Hfa; cbn [negb]; [|by rewrite andb_false_l].
    unfold fmap in IH |- *. destruct (usage_parts _ _ _) as [used|]; cbn [option_map option_fmap]; [|exact IH].
    destruct IH as [Hl IH]. split; [cbn; lia|]. intros x Hx. destruct (fst e) as [|ch f] eqn:Ef; [done|].
    cbn [omap list_omap part_amount foldl]. apply IH, unsigned_add; [done|exact Hau].
Qed.

(** ** The preview and the generated expression *)

Lemma strip_sum o l : l <> [] -> Forall (fun n => strip n = n) l -> strip (chain_of o l) = chain_of o l.
Proof.
  destruct l as [|n l]; [done|]. intros _ [Hn Hl]%Forall_cons. cbn [chain_of]. rewrite strip_chain, Hn. f_equal.
  induction Hl as [|m l Hm _ IH]; [done|]. by rewrite fmap_cons, Hm, IH.
Qed.

Lemma strip_tier tier : numberFields <> [] -> strip (tier_tree numberFields tier) = tier_tree numberFields tier.
Proof.
  intros Hne. unfold tier_tree, tier_node. cbn [strip map str_node]. rewrite strip_sum; [done|by apply terms_some|].
  apply Forall_app_2.
  - unfold constant_terms. case_match; by repeat constructor.
  - apply Forall_fmap, Forall_true. intros e. apply strip_scaled.
Qed.

Lemma strip_config tiers : numberFields <> [] -> guarded tiers ->
  strip (config_tree numberFields tiers) = config_tree numberFields tiers.
Proof.
  intros Hne. induction tiers as [|t tiers IH]; intros Hg; [done|]. destruct tiers as [|t2 tiers]; [by apply strip_tier|].
  destruct Hg as [Hc Hg]. rewrite config_tree_cons. cbn [strip].
  rewrite strip_tier, IH, strip_sum; [done|by destruct (tk_conditions t)|by apply Forall_fmap, Forall_true|done..].
Qed.

Lemma preview_tier_some tiers : tiers <> [] -> exists t, preview_tier tiers sample = Some t /\ t ∈ tiers.
Proof.
  induction tiers as [|t tiers IH]; [done|]. intros _. destruct tiers as [|t2 tiers].
  { exists t. split; [done|by left]. }
  rewrite preview_tier_cons. destruct (forallb _ _); [exists t; split; [done|by left]|].
  destruct (IH ltac:(done)) as (t' & Ht & Hin). exists t'. split; [done|by right].
Qed.

Lemma normal_unit_prices config tier : tier ∈ normalizeTaskVisualConfig config schema ->
  tk_unitPrices tier = (fun e => (fst e, price_at tier (fst e))) <$> numberFields.
Proof using Hschema.
  intros (i & Hi)%list_elem_of_lookup. pose proof (normalized_tier schema Hschema config i tier Hi) as Hn.
  rewrite <- Hn at 1. rewrite normal_prices by done.
  apply (keyed_ext (normal_price (tk_unitPrices tier)) (fun k => price_at tier k)). intros k Hk. unfold price_at.
  rewrite <- Hn at 2. rewrite normal_prices by done. by rewrite (keyed_assoc (normal_price (tk_unitPrices tier))).
Qed.

Lemma generated_result `{Host} config tier : writable schema config ->
  preview_tier (normalizeTaskVisualConfig config schema) sample = Some tier ->
  match evaluateBillingExpression (compile (generateTaskExprFromConfig config schema)) (usage_context (sample_usage sample)) with
  | Success cost unit_ price label _ =>
      usable_number (tier_total tier) = true /\ cost = tier_total tier /\ unit_ = Utoken /\ price = None /\ label = tk_label tier
  | Failure _ => usable_number (tier_total tier) = false
  end.
Proof using Hschema Hsample.
  intros Hw Ht. destruct (written_compiles schema config Hw) as (c & -> & Hst). destruct Hw as [Hne Hg Hn Hl Hwd Hcs _ _].
  rewrite strip_config in Hst by done.
  pose proof (fun hm => config_charges c hm _ tier 60 Hne Hg Hn Hcs Ht) as Hch. rewrite <- Hst in Hch.
  by apply (charged_result c (usage_context (sample_usage sample)) _ _ _ (conj eq_refl eq_refl)) in Hch; [|lia].
Qed.

(** The text of the preview is not too long. *)
Definition preview_fits (tiers : list TaskTier) : Prop :=
  forall tier used, preview_tier tiers sample = Some tier ->
    usage_parts (Some schema) sample (tk_unitPrices tier) = Some used ->
    length (preview_text (Some schema) (tk_label tier) (tk_constant tier) used) <= Nat.pow 2 16.

(** C8: The preview shows what the expression charges: evaluating the expression
    generated from a configuration gives the total and the tier that the preview of
    its normal form shows, without a fixed price, and fails exactly when the preview
    shows nothing. This is for a schema that names every field once, no flag listing
    values and no number field without a name; for configurations whose normal form
    is [writable] (every tier but the last with conditions, the last without,
    numbers that are read as they are printed, the limits of the parser); for
    samples whose numbers are finite and that have every number field, without a
    minus sign; and for previews whose text has at most 65536 characters. *)
Theorem preview_matches_expression `{Host} config : [] ∉ numberFields.*1 ->
  writable schema config -> preview_fits (normalizeTaskVisualConfig config schema) ->
  let result := evaluateBillingExpression (compile (generateTaskExprFromConfig config schema))
                  (usage_context (sample_usage sample)) in
  match evaluateTaskVisualConfig (normalizeTaskVisualConfig config schema) sample (Some schema) with
  | Some r => exists rules, result = Success (pr_total r) Utoken None (tk_label (pr_tier r)) rules
  | None => exists f, result = Failure f
  end.
Proof using Hschema Hsample.
  intros Hname Hw Hfits result. set (tiers := normalizeTaskVisualConfig config schema) in *.
  destruct (preview_tier_some tiers) as (tier & Ht & Hin); [apply normalized_some|].
  pose proof (generated_result config tier Hw Ht) as Hr. fold result in Hr.
  pose proof (wr_numbers schema config Hw) as Hn. rewrite Forall_forall in Hn. destruct (Hn tier Hin) as [Hc Hp].
  pose proof (normal_unit_prices config tier Hin) as Hprices. rewrite Forall_forall in Hp.
  pose proof (items_add_up (price_at tier) numberFields) as Hitems.
  specialize (Hitems ltac:(intros e He; split_and!; [done|by apply Hp|intros E; apply Hname; rewrite <- E; by apply (list_elem_of_fmap_2 fst)])).
  rewrite <- Hprices in Hitems. fold (tier_total tier) in Hr.
  destruct (usage_parts (Some schema) sample (tk_unitPrices tier)) as [used|] eqn:Hu.
  - destruct Hitems as [Hlen Htotal]. pose proof (wr_width schema config Hw).
    rewrite (preview_adds_up tiers sample (Some schema) tier used Ht Hc); [| | |done|lia|by apply Hfits].
    + rewrite (Htotal (tk_constant tier)) by (by apply form_unsigned). fold (tier_total tier).
      destruct result as [cost u price label rules|f].
      * destruct Hr as (-> & -> & -> & -> & ->). by exists rules.
      * rewrite Hr. by eexists.
    + rewrite Hprices. rewrite (keyed_names (fun k => price_at tier k)). by apply field_names_nodup.
    + rewrite Hprices. apply Forall_fmap, Forall_forall. intros e He. by apply Hp.
  - assert (evaluateTaskVisualConfig tiers sample (Some schema) = None) as ->.
    { unfold evaluateTaskVisualConfig. rewrite Ht, Hu. by destruct (negb _). }
    assert (usable_number (tier_total tier) = false) as Hbad.
    { unfold usable_number, tier_total. rewrite sum_infinite; [done|]. by rewrite Hitems, andb_false_r. }
    destruct result as [cost u price label rules|f]; [|by eexists]. destruct Hr as [Hx _]. congruence.
Qed.
End Schema.

(** ** A sample of usage *)

Definition sample_facts : list (jstr * TaskFact) :=
  [(js "tokens", FactNum (dec "250000")); (js "seconds", FactNum (dec "5")); (js "mode", FactStr (js "pro"))].

Lemma sample_facts_ok : sample_ok sample_schema sample_facts.
Proof.
  split.
  - let nf := eval vm_compute in (getTaskNumberFields (Some sample_schema)) in
      change (getTaskNumberFields (Some sample_schema)) with nf.
    repeat constructor; eexists; (split; vm_compute; reflexivity).
  - intros field x Ha. apply assoc_elem_of in Ha. unfold sample_facts in Ha.
    repeat (apply elem_of_cons in Ha as [[= -> ->]|Ha]; [by vm_compute|]); try (by apply elem_of_nil in Ha).
    apply elem_of_cons in Ha as [Ha|Ha]; [done|by apply elem_of_nil in Ha].
Qed.

Lemma sample_preview_fits : preview_fits sample_schema sample_facts (normalizeTaskVisualConfig (Some sample_config) sample_schema).
Proof.
  intros tier used Ht Hu.
  assert (preview_tier (normalizeTaskVisualConfig (Some sample_config) sample_schema) sample_facts
    = head (normalizeTaskVisualConfig (Some sample_config) sample_schema)) as E by (vm_compute; reflexivity).
  rewrite E in Ht. clear E.
  let t := eval vm_compute in (head (normalizeTaskVisualConfig (Some sample_config) sample_schema)) in
    change (t = Some tier) in Ht. apply (inj Some) in Ht as <-.
  match type of Hu with usage_parts ?s ?f ?p = _ => let u := eval vm_compute in (usage_parts s f p) in
    change (u = Some used) in Hu end. apply (inj Some) in Hu as <-. by apply Nat.leb_le.
Qed.

Lemma preview_matches_expression_witness :
  match evaluateTaskVisualConfig (H0 := utc_host) (normalizeTaskVisualConfig (Some sample_config) sample_schema) sample_facts
          (Some sample_schema) with
  | Some r => number_to_string (pr_total r) = js "4.1" /\ exists rules,
      evaluateBillingExpression (H := utc_host) (compile (generateTaskExprFromConfig (Some sample_config) sample_schema))
        (usage_context (sample_usage sample_facts)) = Success (pr_total r) Utoken None (js "pro") rules
  | None => False
  end.
Proof.
  pose proof (preview_matches_expression sample_schema sample_schema_ok sample_facts sample_facts_ok (H0 := utc_host) (Some sample_config)
    ltac:(apply (bool_decide_unpack _); by vm_compute) sample_writable sample_preview_fits) as Hp.
  cbv zeta in Hp.
  destruct (evaluateTaskVisualConfig _ _ _) as [r|] eqn:E; vm_compute in E; [|done].
  apply (inj Some) in E as <-. split; [vm_compute; reflexivity|exact Hp].
Defined.
End TaskChargeFacts.
