(* ===== verification/BillingTierForm.v ===== *)
(** * Billing expressions: the form for token tiers

    Model of [features/pricing/lib/tier-expr.ts], the form that edits prices per
    token as a list of tiers with conditions on the token counts, and the
    estimator under it.  The form is read with regular expressions, written here
    with the combinators of [JsRegExp].  Optional fields are options, the prices of
    the extra variables a list keyed by field, numbers are numbers as their types
    say ([Number] of a missing one is [NaN]); the value of a condition, a number or
    a text of the form, is a JavaScript value. *)

From stdpp Require Import base list numbers strings.
From Stdlib Require Import ZArith SpecFloat Lia.
From S2P Require Import Prelude.
From S2P Require Import JsString.
From S2P Require Import JsNumber.
From S2P Require Import JsValue.
From S2P Require Import JsJson.
From S2P Require Import JsRegExp.
From S2P Require Import BillingTypes.
From S2P Require Import BillingParser.
From S2P Require Import BillingCompile.
From S2P Require Import BillingRuntime.
From S2P Require Import BillingRequestRules.
From S2P Require Import JsCollections.
From S2P Require Import BillingTaskForm.

Module TierForm.
Import RequestRules TaskForm RegExp.

(** ** Data *)

Inductive CacheMode := CACHE_MODE_TIMED | CACHE_MODE_GENERIC.

#[global] Instance CacheMode_eq_dec : EqDecision CacheMode.
Proof. solve_decision. Defined.

Record TierConditionInput := { ci_var : jstr; ci_op : jstr; ci_value : jsval }.

(** [VisualTier], and [Partial<VisualTier>]. *)
Record VisualTier := {
  vt_billing_unit : option BillingUnit;
  vt_fixed_price : option jstr;
  vt_label : option jstr;
  vt_conditions : option (list TierConditionInput);
  vt_input_unit_cost : option f64;
  vt_output_unit_cost : option f64;
  vt_cache_mode : option CacheMode;
  vt_costs : list (jstr * f64);
}.

(** [VisualConfig]: its tiers. *)
Abbreviation VisualConfig := (list VisualTier).

(** [BILLING_CACHE_VAR_MAP]: the fields of the extra variables with their names. *)
Definition BILLING_CACHE_VAR_MAP : list (jstr * jstr) :=
  (fun v => (default [] (bv_tierField v), variable_name (bv_key v))) <$> BILLING_EXTRA_VARS.

(** [Number(value) || 0] *)
Definition number_or_zero (x : option f64) : f64 :=
  match x with Some x => if feqb x x then (if feqb x fzero then fzero else x) else fzero | None => fzero end.

Definition tier_cost (tier : VisualTier) (field : jstr) : f64 := number_or_zero (assoc field (vt_costs tier)).

(** ** Normal form *)

Definition cache_create_1h_field : jstr := js "cache_create_1h_unit_cost".

Definition getTierCacheMode (tier : VisualTier) : CacheMode :=
  match vt_cache_mode tier with
  | Some mode => mode
  | None => if fltb fzero (default S754_nan (assoc cache_create_1h_field (vt_costs tier))) then CACHE_MODE_TIMED else CACHE_MODE_GENERIC
  end.

(** The fields that are listed after the spread of the tier; those before it are
    the defaults of missing ones. *)
Definition normalizeVisualTier (tier : VisualTier) : VisualTier :=
  {| vt_billing_unit := vt_billing_unit tier;
     vt_fixed_price := vt_fixed_price tier;
     vt_label := Some (default [] (vt_label tier));
     vt_conditions := Some (default [] (vt_conditions tier));
     vt_input_unit_cost := Some (default (number_or_zero None) (vt_input_unit_cost tier));
     vt_output_unit_cost := Some (default (number_or_zero None) (vt_output_unit_cost tier));
     vt_cache_mode := Some (getTierCacheMode tier);
     vt_costs := (fun entry => (fst entry, tier_cost tier (fst entry))) <$> BILLING_CACHE_VAR_MAP |}.

Definition createDefaultVisualConfig : VisualConfig :=
  [normalizeVisualTier
     {| vt_billing_unit := None; vt_fixed_price := None; vt_label := Some (js "base"); vt_conditions := Some [];
        vt_input_unit_cost := Some fzero; vt_output_unit_cost := Some fzero; vt_cache_mode := Some CACHE_MODE_GENERIC;
        vt_costs := [] |}].

(** A missing configuration has no tiers. *)
Definition normalizeVisualConfig (config : VisualConfig) : VisualConfig :=
  match config with [] => createDefaultVisualConfig | _ => normalizeVisualTier <$> config end.

(** ** Writing *)

Definition usable_condition (c : TierConditionInput) : bool :=
  negb (jeqb (ci_var c) []) && negb (jeqb (ci_op c) []) && negb (is_nullish (ci_value c)) && negb (strict_eq (ci_value c) (JStr [])).

Definition bound_line (c : TierConditionInput) : jstr := ci_var c ++ js " " ++ ci_op c ++ js " " ++ text_of (ci_value c).

Definition buildConditionStr (conditions : list TierConditionInput) : jstr :=
  match conditions with
  | [] => []
  | _ => join (js " && ") (bound_line <$> List.filter usable_condition conditions)
  end.

Definition price_part (variable : jstr) (price : f64) : jstr := variable ++ js " * " ++ number_to_string price.

Definition buildTierBodyExpr (tier : VisualTier) : jstr :=
  match vt_billing_unit tier with
  | Some Urequest => js "fixed(" ++ default [] (vt_fixed_price tier) ++ js ")"
  | _ =>
      join (js " + ")
        ([price_part (js "p") (number_or_zero (vt_input_unit_cost tier));
          price_part (js "c") (number_or_zero (vt_output_unit_cost tier))]
         ++ omap (fun cv => let v := tier_cost tier (fst cv) in if feqb v fzero then None else Some (price_part (snd cv) v))
              BILLING_CACHE_VAR_MAP)
  end.

Definition tier_call (label : jstr) (tier : VisualTier) : jstr :=
  js "tier(" ++ [34%N] ++ label ++ [34%N] ++ js ", " ++ buildTierBodyExpr tier ++ js ")".

(** [label || fallback] *)
Definition label_or (label : option jstr) (fallback : jstr) : jstr :=
  match label with Some ((_ :: _) as l) => l | _ => fallback end.

(** The loop over several tiers; [i] is the index of the first. *)
Fixpoint tier_lines (i : nat) (tiers : VisualConfig) : list jstr :=
  match tiers with
  | [] => []
  | tier :: rest =>
      let body := tier_call (label_or (vt_label tier) (js "tier_" ++ nat_digits (S i))) tier in
      let cond := buildConditionStr (default [] (vt_conditions tier)) in
      (match rest, cond with
       | _ :: _, _ :: _ => cond ++ js " ? " ++ body
       | _, _ => body
       end) :: tier_lines (S i) rest
  end.

Definition generateExprFromVisualConfig (tiers : VisualConfig) : jstr :=
  match tiers with
  | [] => js "p * 0 + c * 0"
  | [tier] =>
      let body := tier_call (label_or (vt_label tier) (js "default")) tier in
      match buildConditionStr (default [] (vt_conditions tier)) with
      | [] => body
      | cond => cond ++ js " ? " ++ body ++ js " : p * 0 + c * 0"
      end
  | _ => join (js " : ") (tier_lines 0 tiers)
  end.

(** ** Reading *)

(** [[\d.eE+-]], and without the minus sign. *)
Definition price_char (c : N) : bool :=
  is_digit c || (c =? 46)%N || (c =? 101)%N || (c =? 69)%N || (c =? 43)%N || (c =? 45)%N.
Definition bound_char (c : N) : bool := is_digit c || (c =? 46)%N || (c =? 101)%N || (c =? 69)%N || (c =? 43)%N.

Definition number_group : pattern := capture (plus price_char).

(** [v\s*\*\s*([\d.eE+-]+)] *)
Definition variable_pattern (v : jstr) : pattern := in_order [chars v; ws; chars (js "*"); ws; number_group].

(** [(?:\s*\+\s*v\s*\*\s*([\d.eE+-]+))?] *)
Definition extra_pattern (v : jstr) : pattern := optional 1 (in_order [ws; chars (js "+"); ws; variable_pattern v]).

Definition bodyPat : pattern :=
  in_order ([variable_pattern (js "p"); ws; chars (js "+"); ws; variable_pattern (js "c")]
            ++ ((fun cv => extra_pattern (snd cv)) <$> BILLING_CACHE_VAR_MAP)).

Definition tier_pattern : pattern :=
  in_order [chars (js "tier(" ++ [34%N]); capture (star (fun c => negb (c =? 34)%N)); chars [34%N; 44%N]; ws; bodyPat; chars (js ")")].

Definition singleRe : pattern := in_order [tier_pattern; text_end].

Definition bound_pattern : pattern :=
  in_order [any_of [chars (js "p"); chars (js "c"); chars (js "len")]; ws;
            any_of [chars (js "<"); chars (js "<="); chars (js ">"); chars (js ">=")]; ws; plus bound_char].

Definition condGroup : pattern :=
  capture (in_order [bound_pattern; many (in_order [ws; chars (js "&&"); ws; bound_pattern])]).

Definition tierRe : pattern := in_order [optional 1 (in_order [condGroup; ws; chars (js "?"); ws]); tier_pattern].

Definition split_pattern : pattern := in_order [ws; chars (js "&&"); ws].

Definition condition_pattern : pattern :=
  in_order [capture (any_of [chars (js "p"); chars (js "c"); chars (js "len")]); ws;
            capture (any_of [chars (js "<"); chars (js "<="); chars (js ">"); chars (js ">=")]); ws;
            capture (plus bound_char); text_end].

(** The tier of the captures of a label, two prices and the extra prices. *)
Definition tier_of_captures (conditions : list TierConditionInput) (caps : captures) : VisualTier :=
  let text i := default [] (mjoin (caps !! i)) in
  {| vt_billing_unit := None; vt_fixed_price := None; vt_label := Some (text 0); vt_conditions := Some conditions;
     vt_input_unit_cost := Some (number_of_string (text 1)); vt_output_unit_cost := Some (number_of_string (text 2));
     vt_cache_mode := None;
     vt_costs := omap (fun e => (fun t => (fst (fst e), number_of_string t)) <$> snd e) (zip BILLING_CACHE_VAR_MAP (drop 3 caps)) |}.

Definition read_bound (text : jstr) : option TierConditionInput :=
  match matches condition_pattern (trim text) with
  | Some [Some v; Some op; Some value] => Some {| ci_var := v; ci_op := op; ci_value := JNum (number_of_string value) |}
  | _ => None
  end.

Definition read_conditions (text : jstr) : list TierConditionInput :=
  match text with [] => [] | _ => omap read_bound (split split_pattern text) end.

(** One turn of the loop over the matches of [tierRe]. *)
Definition read_match (caps : captures) : VisualTier :=
  match caps with
  | cond :: rest => normalizeVisualTier (tier_of_captures (read_conditions (default [] cond)) rest)
  | [] => normalizeVisualTier (tier_of_captures [] [])
  end.

(** [text.replaceAll(/\s+/g, '')] *)
Definition without_spaces (text : jstr) : jstr := List.filter (fun c => negb (is_space c)) text.

(** What [/^v\d+:/] leaves of a text that it matches. *)
Definition without_version (text : jstr) : jstr :=
  match first (in_order [chars (js "v"); digits; chars (js ":")]) text with Some (_, rest) => rest | None => text end.

Definition tryParseVisualConfig (exprStr : jstr) : option VisualConfig :=
  match exprStr with
  | [] => None
  | _ =>
      let body := without_version exprStr in
      match matches singleRe body with
      | Some caps => Some (normalizeVisualConfig [normalizeVisualTier (tier_of_captures [] caps)])
      | None =>
          match read_match <$> exec_all tierRe body with
          | [] => None
          | tiers =>
              let cfg := normalizeVisualConfig tiers in
              if jeqb (without_spaces (generateExprFromVisualConfig cfg)) (without_spaces body) then Some cfg else None
          end
      end
  end.

(** ** The estimator *)

Record ExtraTokenValues := {
  cacheReadTokens : f64;
  cacheCreateTokens : f64;
  cacheCreate1hTokens : f64;
  imageTokens : f64;
  imageOutputTokens : f64;
  audioInputTokens : f64;
  audioOutputTokens : f64;
}.

Definition ESTIMATOR_VARS : list (TokenVariable * (ExtraTokenValues -> f64)) :=
  [(Vcr, cacheReadTokens); (Vcc, cacheCreateTokens); (Vcc1h, cacheCreate1hTokens); (Vimg, imageTokens);
   (Vimg_o, imageOutputTokens); (Vai, audioInputTokens); (Vao, audioOutputTokens)].

Definition buildEstimatorTokens (promptTokens completionTokens : f64) (extra : ExtraTokenValues) : list (jstr * jsval) :=
  [(js "p", JNum promptTokens); (js "c", JNum completionTokens);
   (js "len", JNum (fadd (fadd (fadd promptTokens (cacheReadTokens extra)) (cacheCreateTokens extra)) (cacheCreate1hTokens extra)))]
  ++ ((fun field => (variable_name (fst field), JNum (snd field extra))) <$> ESTIMATOR_VARS).

Record EvalResult := { er_cost : f64; er_matchedTier : jstr; er_error : option jstr; er_billingUnit : option BillingUnit }.

(** [{...first, ...second}] *)
Definition spread (first second : list (jstr * jsval)) : list (jstr * jsval) :=
  foldl (fun m e => map_set (fst e) (snd e) m) first second.

Definition no_context : BillingSimulationContext :=
  {| tokens := None; request := None; usage := None; ctx_now := None |}.

Definition evalExprLocally `{Host} (exprStr : jstr) (promptTokens completionTokens : f64) (extra : ExtraTokenValues)
    (context : option BillingSimulationContext) : EvalResult :=
  match trim exprStr with
  | [] => {| er_cost := fzero; er_matchedTier := []; er_error := None; er_billingUnit := None |}
  | _ =>
      let given := default no_context context in
      match evaluateBillingExpression (compile exprStr)
              {| tokens := Some (spread (buildEstimatorTokens promptTokens completionTokens extra) (default [] (tokens given)));
                 request := request given; usage := usage given; ctx_now := ctx_now given |} with
      | Success cost unit _ tier _ =>
          {| er_cost := cost; er_matchedTier := tier; er_error := None;
             er_billingUnit := match unit with Urequest => Some Urequest | Utoken => None end |}
      | Failure f => {| er_cost := fzero; er_matchedTier := []; er_error := Some (detail (diagnostic f)); er_billingUnit := None |}
      end
  end.

Definition exprUsesExtraVars (exprStr : jstr) : bool :=
  match exprStr with
  | [] => false
  | _ =>
      match compile exprStr with
      | NotReady _ => false
      | Ready c => existsb (fun field => bool_decide (fst field ∈ c_variables c)) ESTIMATOR_VARS
      end
  end.
End TierForm.
