(* ===== verification/BillingTierFormFacts.v ===== *)
(** * Properties of the form for token tiers

    The form reads back the tiers that it writes: every regular expression of the
    reader is followed along the text of the writer. *)

From stdpp Require Import base list numbers strings sets.
From Stdlib Require Import ZArith SpecFloat Lia.
From S2P Require Import Prelude.
From S2P Require Import JsString.
From S2P Require Import JsNumber.
From S2P Require Import JsNumberFacts.
From S2P Require Import JsValue.
From S2P Require Import JsJson.
From S2P Require Import JsRegExp.
From S2P Require Import BillingTypes.
From S2P Require Import BillingParser.
From S2P Require Import BillingCompile.
From S2P Require Import BillingRuntime.
From S2P Require Import BillingRequestRules.
From S2P Require Import JsCollections.
From S2P Require Import BillingTaskForm.
From S2P Require Import BillingTaskFormFacts.
From S2P Require Import BillingTierForm.

Module TierFormFacts.
Import RequestRules TaskForm TaskFormFacts RegExp TierForm.

(** ** Normal configurations *)

(** A finite number that is not negative, nor the negative zero. *)
Record price_ok (x : f64) : Prop := {
  price_valid : valid_binary prec emax x = true;
  price_finite : is_finite x = true;
  price_nonneg : fleb fzero x = true;
  price_abs : SFabs x = x;
}.

(** The condition reader has no minus sign: no number that is written with a negative exponent. *)
Record condition_ok (c : TierConditionInput) : Prop := {
  co_var : ci_var c ∈ [js "p"; js "c"; js "len"];
  co_op : ci_op c ∈ [js "<"; js "<="; js ">"; js ">="];
  co_value : exists x, ci_value c = JNum x /\ price_ok x /\ Forall (fun c => bound_char c = true) (number_to_string x);
}.

Record tier_ok (t : VisualTier) : Prop := {
  to_unit : vt_billing_unit t = None;
  to_fixed : vt_fixed_price t = None;
  to_label : exists l, vt_label t = Some l /\ l <> [] /\ Forall (fun c => c <> 34%N) l;
  to_conditions : exists cs, vt_conditions t = Some cs /\ Forall condition_ok cs;
  to_input : exists x, vt_input_unit_cost t = Some x /\ price_ok x;
  to_output : exists x, vt_output_unit_cost t = Some x /\ price_ok x;
  to_costs : (vt_costs t).*1 = BILLING_CACHE_VAR_MAP.*1 /\ Forall (fun e => price_ok (snd e)) (vt_costs t);
  to_mode : vt_cache_mode t = Some (if fltb fzero (tier_cost t cache_create_1h_field) then CACHE_MODE_TIMED else CACHE_MODE_GENERIC);
}.

(** Of several tiers every one but the last has conditions. *)
Fixpoint guarded_tiers (tiers : VisualConfig) : Prop :=
  match tiers with
  | [] => False
  | [tier] => vt_conditions tier = Some []
  | tier :: rest => vt_conditions tier <> Some [] /\ guarded_tiers rest
  end.

Definition config_ok (tiers : VisualConfig) : Prop :=
  Forall tier_ok tiers /\ match tiers with [_] => True | _ => guarded_tiers tiers end.

(** ** Numbers and words *)

Lemma price_head x : price_ok x -> exists c l, number_to_string x = c :: l /\ is_digit c = true.
Proof.
  intros [Hv Hf Hp Ha]. destruct x as [[]|b| |[] m e]; try done; [by exists 48%N, []|]. cbn [number_to_string].
  destruct (shortest m e) as [s x10]. apply layout_head.
Qed.

Lemma price_reads x : price_ok x -> number_of_string (number_to_string x) = x.
Proof. intros [Hv Hf Hp Ha]. destruct (number_to_string_reads x Hv Hf Hp) as (d & _ & _ & _ & H & _). by rewrite H. Qed.

Lemma price_chars x : price_ok x -> Forall (fun c => is_num_char c = true) (number_to_string x).
Proof.
  intros [Hv Hf Hp Ha]. destruct x as [[]|b| |[] m e]; try done; [by repeat constructor|]. cbn [number_to_string].
  destruct (shortest m e) as [s x10]. apply layout_chars.
Qed.

Lemma num_price_char c : is_num_char c = true -> price_char c = true.
Proof.
  unfold is_num_char, price_char. destruct (is_digit c); [done|]. cbn [orb]. 
  by destruct (c =? 46)%N, (c =? 101)%N, (c =? 69)%N, (c =? 43)%N, (c =? 45)%N.
Qed.

Lemma price_class x : price_ok x -> Forall (fun c => price_char c = true) (number_to_string x).
Proof. intros Hx. eapply Forall_impl; [exact (price_chars x Hx)|apply num_price_char]. Qed.

Lemma price_some x : price_ok x -> number_to_string x <> [].
Proof. intros Hx E. destruct (price_head x Hx) as (c & l & H & _). congruence. Qed.

Lemma digit_no_space c : is_digit c = true -> is_space c = false.
Proof. intros H. apply num_char_not_space. unfold is_num_char. by rewrite H. Qed.

Lemma price_stops x u : price_ok x -> stops_class is_space (number_to_string x ++ u).
Proof. intros Hx. destruct (price_head x Hx) as (c & l & -> & Hc). by apply digit_no_space. Qed.

(** ** Following a pattern *)

Lemma runs_cons p ps u cp r cs r' : first p u = Some (cp, r) -> first (in_order ps) r = Some (cs, r') ->
  first (in_order (p :: ps)) u = Some (cp ++ cs, r').
Proof.
  intros H1 H2. destruct ps as [|q ps]; [|by apply (first_seq _ _ _ _ r)]. unfold first in H2. cbn in H2. injection H2 as <- <-.
  by rewrite app_nil_r.
Qed.

Lemma runs_done u : first (in_order []) u = Some ([], u).
Proof. done. Qed.

Lemma runs_blank u : stops_class is_space u -> first ws (32%N :: u) = Some ([], u).
Proof. intros Hu. by apply (first_star is_space [32%N]); [repeat constructor|]. Qed.

Lemma runs_no_blank u : stops_class is_space u -> first ws u = Some ([], u).
Proof. intros Hu. by apply (first_star is_space []). Qed.

Lemma runs_number x u : price_ok x -> stops_class price_char u -> first number_group (number_to_string x ++ u) = Some ([Some (number_to_string x)], u).
Proof. intros Hx Hu. apply first_capture_app, first_plus; [by apply price_some|by apply price_class|done]. Qed.

Lemma runs_variable v x u : price_ok x -> stops_class price_char u ->
  first (variable_pattern v) (price_part v x ++ u) = Some ([Some (number_to_string x)], u).
Proof.
  intros Hx Hu. unfold variable_pattern, price_part. rewrite <- !app_assoc.
  eapply (runs_cons _ _ _ []); [apply first_chars|]. eapply (runs_cons _ _ _ []); [by apply runs_blank|].
  eapply (runs_cons _ _ _ []); [apply (first_chars (js "*"))|]. eapply (runs_cons _ _ _ []); [apply runs_blank; by apply price_stops|].
  by apply runs_number.
Qed.
(** ** The prices of a tier *)

(** What is written for the extra prices; each with its variable and field. *)
Definition extra_text (e : jstr * f64) : jstr :=
  if feqb (snd e) fzero then [] else js " + " ++ price_part (fst e) (snd e).

Definition extra_capture (e : jstr * f64) : option jstr :=
  if feqb (snd e) fzero then None else Some (number_to_string (snd e)).

Definition extra_names : list jstr := BILLING_CACHE_VAR_MAP.*2.

(** Each pattern is refused at the text of every other variable. *)
Lemma extra_other v w u : v ∈ extra_names -> w ∈ extra_names -> v <> w ->
  in_order [ws; chars (js "+"); ws; variable_pattern v] (js " + " ++ w ++ js " * " ++ u) = [].
Proof.
  intros Hv Hw Hne. vm_compute in Hv, Hw.
  repeat (apply elem_of_cons in Hv as [->|Hv]; [repeat (apply elem_of_cons in Hw as [->|Hw]; [first [done|reflexivity]|]); by apply elem_of_nil in Hw|]).
  by apply elem_of_nil in Hv.
Qed.

Definition extras_text (es : list (jstr * f64)) : jstr := concat (extra_text <$> es).

(** A closing parenthesis stops_class every pattern of an extra price. *)
Lemma extra_absent v es u : v ∈ extra_names -> Forall (fun e => fst e ∈ extra_names /\ fst e <> v) es ->
  in_order [ws; chars (js "+"); ws; variable_pattern v] (extras_text es ++ 41%N :: u) = [].
Proof.
  intros Hv He. induction He as [|[w x] es [Hw Hne] _ IH]; [reflexivity|]. unfold extras_text. cbn [fmap list_fmap concat].
  unfold extra_text at 1. cbn [fst snd] in *. destruct (feqb x fzero); [exact IH|]. unfold price_part. rewrite <- !app_assoc.
  by apply extra_other.
Qed.

Lemma extras_stop es u : stops_class price_char (extras_text es ++ 41%N :: u).
Proof.
  induction es as [|e es IH]; [done|]. unfold extras_text. cbn [fmap list_fmap concat]. unfold extra_text at 1.
  destruct (feqb (snd e) fzero); [exact IH|done].
Qed.

Lemma runs_extras es u : NoDup es.*1 -> Forall (fun e => fst e ∈ extra_names /\ price_ok (snd e)) es ->
  first (in_order (extra_pattern <$> es.*1)) (extras_text es ++ 41%N :: u) = Some (extra_capture <$> es, 41%N :: u).
Proof.
  intros Hnd He. induction He as [|[v x] es [Hv Hx] He IH]; [apply runs_done|]. apply NoDup_cons in Hnd as [Hnew Hnd]. cbn [fst snd] in *.
  rewrite !fmap_cons. apply (runs_cons _ _ _ [extra_capture (v, x)] (extras_text es ++ 41%N :: u)); [|by apply IH].
  unfold extras_text. cbn [fmap list_fmap concat]. unfold extra_text at 1, extra_capture. cbn [fst snd].
  destruct (feqb x fzero) eqn:Ez; cbn [app].
  - apply (first_optional_none 1). apply extra_absent; [done|]. rewrite Forall_forall in *. intros e Hin.
    split; [by apply He|]. intros <-. apply Hnew. by apply list_elem_of_fmap_2.
  - apply first_optional. rewrite <- !app_assoc. eapply (runs_cons _ _ _ []); [by apply runs_blank|].
    eapply (runs_cons _ _ _ []); [apply (first_chars (js "+"))|].
    assert (exists c l, v = c :: l /\ is_space c = false) as (c & l & -> & Hc).
    { vm_compute in Hv. repeat (apply elem_of_cons in Hv as [->|Hv]; [by eexists _, _|]). by apply elem_of_nil in Hv. }
    eapply (runs_cons _ _ _ []); [by apply runs_blank|].
    apply runs_variable; [done|]. exact (extras_stop es u).
Qed.
Lemma price_kept x : price_ok x -> number_or_zero (Some x) = x.
Proof.
  intros [Hv Hf Hp Ha]. unfold number_or_zero. destruct x as [[]|b| |[] m e]; try done.
  replace (feqb (S754_finite false m e) (S754_finite false m e)) with true; [done|]. symmetry. unfold feqb, SFeqb, SFcompare.
  by rewrite Z.compare_refl, Pos.compare_refl.
Qed.

Lemma zero_price_ok : price_ok fzero.
Proof. by split. Qed.

(** The extra prices of a tier, by variable. *)
Definition tier_extras (t : VisualTier) : list (jstr * f64) := (fun cv => (snd cv, tier_cost t (fst cv))) <$> BILLING_CACHE_VAR_MAP.

Lemma assoc_in_list {A} k (a : A) l : assoc k l = Some a -> (k, a) ∈ l.
Proof.
  induction l as [|[k' a'] l IH]; [done|]. cbn [assoc]. destruct (jeqb k k') eqn:E; [|intros H; right; by apply IH].
  intros [= ->]. apply jeqb_eq in E as ->. by left.
Qed.

Lemma tier_cost_ok t field : tier_ok t -> price_ok (tier_cost t field).
Proof.
  intros Ht. unfold tier_cost. destruct (to_costs _ Ht) as [_ Hall]. destruct (assoc field (vt_costs t)) as [x|] eqn:E; [|exact zero_price_ok].
  rewrite Forall_forall in Hall. apply assoc_in_list, Hall in E. cbn [snd] in E. by rewrite price_kept.
Qed.

Lemma tier_extras_ok t : tier_ok t -> (tier_extras t).*1 = extra_names /\ NoDup (tier_extras t).*1 /\
  Forall (fun e => fst e ∈ extra_names /\ price_ok (snd e)) (tier_extras t).
Proof.
  intros Ht. assert ((tier_extras t).*1 = extra_names) as E by (unfold tier_extras; by rewrite <- list_fmap_compose). split; [done|].
  rewrite E. split; [apply (bool_decide_unpack _); by vm_compute|]. apply Forall_forall. intros e He. split.
  - rewrite <- E. by apply list_elem_of_fmap_2.
  - unfold tier_extras in He. apply list_elem_of_fmap in He as (cv & -> & _). by apply tier_cost_ok.
Qed.

Lemma extras_joined t vars :
  concat ((fun y => js " + " ++ y) <$> omap (fun cv => let v := tier_cost t (fst cv) in
    if feqb v fzero then None else Some (price_part (snd cv) v)) vars)
  = extras_text ((fun cv => (snd cv, tier_cost t (fst cv))) <$> vars).
Proof.
  unfold extras_text. induction vars as [|cv vars IH]; [done|]. cbn [omap list_omap fmap list_fmap concat]. rewrite <- IH.
  unfold extra_text. cbn [fst snd]. by destruct (feqb (tier_cost t (fst cv)) fzero).
Qed.

Lemma body_written t x y : vt_billing_unit t = None -> vt_input_unit_cost t = Some x -> vt_output_unit_cost t = Some y ->
  price_ok x -> price_ok y ->
  buildTierBodyExpr t = price_part (js "p") x ++ js " + " ++ price_part (js "c") y ++ extras_text (tier_extras t).
Proof.
  intros Hu Hx Hy Px Py. unfold buildTierBodyExpr. rewrite Hu, Hx, Hy, !price_kept by done.
  cbn [app]. rewrite join_head, fmap_cons. cbn [concat]. rewrite extras_joined. unfold tier_extras. by rewrite <- app_assoc.
Qed.

(** The captures of a tier: its label and its prices. *)
Definition tier_captures (l : jstr) (x y : f64) (t : VisualTier) : captures :=
  Some l :: Some (number_to_string x) :: Some (number_to_string y) :: (extra_capture <$> tier_extras t).

Lemma runs_tier t l x y u : tier_ok t -> vt_input_unit_cost t = Some x -> vt_output_unit_cost t = Some y ->
  Forall (fun c => c <> 34%N) l ->
  first tier_pattern (tier_call l t ++ u) = Some (tier_captures l x y t, u).
Proof.
  intros Ht Hx Hy Hl.
  assert (price_ok x) as Px by (destruct (to_input _ Ht) as (z & E & ?); congruence).
  assert (price_ok y) as Py by (destruct (to_output _ Ht) as (z & E & ?); congruence).
  destruct (tier_extras_ok t Ht) as (Hn & Hnd & Hall). unfold tier_call, tier_captures.
  rewrite (body_written t x y) by (done || apply (to_unit _ Ht)). rewrite <- !app_assoc. unfold tier_pattern.
  change (js "tier(" ++ [34%N] ++ ?z) with ((js "tier(" ++ [34%N]) ++ z).
  eapply (runs_cons _ _ _ []); [apply first_chars|]. change ([34%N] ++ js ", " ++ ?z) with ([34%N; 44%N] ++ 32%N :: z).
  eapply (runs_cons _ _ _ [Some l] _ (Some (number_to_string x) :: Some (number_to_string y) :: (extra_capture <$> tier_extras t))).
  { apply first_capture_app, first_star; [|done]. eapply Forall_impl; [exact Hl|]. intros c Hc. cbn beta. by apply negb_true_iff, N.eqb_neq. }
  eapply (runs_cons _ _ _ []); [apply first_chars|]. eapply (runs_cons _ _ _ []); [by apply runs_blank|].
  rewrite <- (app_nil_r (Some (number_to_string x) :: _)). eapply (runs_cons _ _ _ _ (js ")" ++ u)).
  2: { eapply (runs_cons _ _ _ [] u []); [apply (first_chars (js ")"))|apply runs_done]. }
  unfold bodyPat. cbn [app].
  eapply (runs_cons _ _ _ [_]); [by apply runs_variable|]. eapply (runs_cons _ _ _ []); [by apply runs_blank|].
  eapply (runs_cons _ _ _ []); [apply (first_chars (js "+"))|]. eapply (runs_cons _ _ _ []); [by apply runs_blank|].
  eapply (runs_cons _ _ _ [_]); [apply runs_variable; [done|exact (extras_stop _ u)]|].
  change (js ")" ++ u) with (41%N :: u). change ((fun cv => extra_pattern (snd cv)) <$> BILLING_CACHE_VAR_MAP) with (extra_pattern <$> extra_names).
  rewrite <- Hn. by apply runs_extras.
Qed.
(** ** Conditions *)

Lemma first_seq_second p q u m1 m2 l c r : p u = m1 :: m2 :: l -> q (snd m1) = [] -> first q (snd m2) = Some (c, r) ->
  first (seq p q) u = Some (fst m2 ++ c, r).
Proof.
  unfold first, seq. intros -> E1 E2. cbn [flat_map]. rewrite E1. cbn [fmap list_fmap app].
  destruct (q (snd m2)) as [|[c2 r2] l2]; [done|]. by injection E2 as -> ->.
Qed.

(** What follows an operator in a condition. *)
Lemma runs_bound_number x u : price_ok x -> Forall (fun c => bound_char c = true) (number_to_string x) -> stops_class bound_char u ->
  first (in_order [ws; plus bound_char]) (32%N :: number_to_string x ++ u) = Some ([], u).
Proof.
  intros Hx Hb Hu. eapply (runs_cons _ _ _ [] _ []); [apply runs_blank; by apply price_stops|].
  apply first_plus; [by apply price_some|done|done].
Qed.

Definition bound_operators : pattern := any_of [chars (js "<"); chars (js "<="); chars (js ">"); chars (js ">=")].
Definition variables : pattern := any_of [chars (js "p"); chars (js "c"); chars (js "len")].

(** The choice of an operator: the shorter one is tried first and is refused by what follows it. *)
Lemma operator_results op u : op ∈ [js "<"; js "<="; js ">"; js ">="] ->
  bound_operators (op ++ 32%N :: u) = [([], 32%N :: u)] \/ bound_operators (op ++ 32%N :: u) = [([], 61%N :: 32%N :: u); ([], 32%N :: u)].
Proof.
  intros Hop. vm_compute in Hop.
  repeat (apply elem_of_cons in Hop as [->|Hop]; [first [by left|by right]|]). by apply elem_of_nil in Hop.
Qed.

Lemma runs_operator op q u c r : op ∈ [js "<"; js "<="; js ">"; js ">="] -> (forall w, q (61%N :: w) = []) ->
  first q (32%N :: u) = Some (c, r) -> first (seq bound_operators q) (op ++ 32%N :: u) = Some (c, r).
Proof.
  intros Hop Hq H. destruct (operator_results op u Hop) as [E|E].
  - apply (first_seq _ _ _ [] (32%N :: u)); [|exact H]. unfold first. by rewrite E.
  - apply (first_seq_second _ _ _ _ _ _ c r E); [apply Hq|exact H].
Qed.

Lemma runs_operator_group op q u c r : op ∈ [js "<"; js "<="; js ">"; js ">="] -> (forall w, q (61%N :: w) = []) ->
  first q (32%N :: u) = Some (c, r) -> first (seq (capture bound_operators) q) (op ++ 32%N :: u) = Some (Some op :: c, r).
Proof.
  intros Hop Hq H. pose proof (capture_text op (32%N :: u)) as Ht. destruct (operator_results op u Hop) as [E|E].
  - apply (first_seq _ _ _ [Some op] (32%N :: u)); [|exact H]. unfold first, capture. rewrite E. cbn [fmap list_fmap fst snd head]. by rewrite Ht.
  - assert (exists m, capture bound_operators (op ++ 32%N :: u) = [(m, 61%N :: 32%N :: u); ([Some op], 32%N :: u)]) as [m Em].
    { unfold capture. rewrite E. cbn [fmap list_fmap fst snd]. rewrite Ht. by eexists. }
    apply (first_seq_second _ _ _ _ _ _ c r Em); [apply Hq|exact H].
Qed.

Definition bound_text (v op : jstr) (x : f64) : jstr := v ++ js " " ++ op ++ js " " ++ number_to_string x.

Lemma no_operator w : in_order [ws; plus bound_char] (61%N :: w) = [].
Proof. reflexivity. Qed.

Lemma variable_results v u : v ∈ [js "p"; js "c"; js "len"] -> variables (v ++ 32%N :: u) = [([], 32%N :: u)].
Proof.
  intros Hv. vm_compute in Hv. repeat (apply elem_of_cons in Hv as [->|Hv]; [done|]). by apply elem_of_nil in Hv.
Qed.

Lemma variable_solid v : v ∈ [js "p"; js "c"; js "len"] -> forall u, stops_class is_space (v ++ u).
Proof. intros Hv u. vm_compute in Hv. repeat (apply elem_of_cons in Hv as [->|Hv]; [done|]). by apply elem_of_nil in Hv. Qed.

Lemma operator_solid op : op ∈ [js "<"; js "<="; js ">"; js ">="] -> forall u, stops_class is_space (op ++ u).
Proof. intros Hop u. vm_compute in Hop. repeat (apply elem_of_cons in Hop as [->|Hop]; [done|]). by apply elem_of_nil in Hop. Qed.

Lemma runs_bound v op x u : v ∈ [js "p"; js "c"; js "len"] -> op ∈ [js "<"; js "<="; js ">"; js ">="] -> price_ok x ->
  Forall (fun c => bound_char c = true) (number_to_string x) -> stops_class bound_char u ->
  first bound_pattern (bound_text v op x ++ u) = Some ([], u).
Proof.
  intros Hv Hop Hx Hb Hu. unfold bound_text. rewrite <- !app_assoc.
  eapply (runs_cons _ _ _ [] _ []); [exact (f_equal head (variable_results v _ Hv))|].
  eapply (runs_cons _ _ _ [] _ []); [apply runs_blank; by apply operator_solid|].
  apply (runs_operator op (in_order [ws; plus bound_char])); [done|apply no_operator|by apply runs_bound_number].
Qed.

Lemma runs_condition v op x : v ∈ [js "p"; js "c"; js "len"] -> op ∈ [js "<"; js "<="; js ">"; js ">="] -> price_ok x ->
  Forall (fun c => bound_char c = true) (number_to_string x) ->
  matches condition_pattern (bound_text v op x) = Some [Some v; Some op; Some (number_to_string x)].
Proof.
  intros Hv Hop Hx Hb. unfold matches, bound_text. 
  enough (first condition_pattern (v ++ js " " ++ op ++ js " " ++ number_to_string x) = Some ([Some v; Some op; Some (number_to_string x)], []))
    as -> by done.
  eapply (runs_cons _ _ _ [Some v]); [apply first_capture_app; exact (f_equal head (variable_results v _ Hv))|].
  eapply (runs_cons _ _ _ []); [apply runs_blank; by apply operator_solid|].
  apply (runs_operator_group op (in_order [ws; capture (plus bound_char); text_end])); [done|reflexivity|].
  eapply (runs_cons _ _ _ []); [rewrite <- (app_nil_r (number_to_string x)); apply runs_blank; by apply price_stops|].
  eapply (runs_cons _ _ _ [_] [] []); [|reflexivity]. pose proof (first_capture_app (plus bound_char) (number_to_string x) [] []) as Hg. 
  rewrite app_nil_r in Hg. rewrite app_nil_r. apply Hg. rewrite <- (app_nil_r (number_to_string x)). apply first_plus; [by apply price_some|done|done].
Qed.
Lemma condition_shape c : condition_ok c -> exists x, c = {| ci_var := ci_var c; ci_op := ci_op c; ci_value := JNum x |} /\
  bound_line c = bound_text (ci_var c) (ci_op c) x /\ price_ok x /\ Forall (fun c => bound_char c = true) (number_to_string x).
Proof.
  intros [Hv Hop (x & E & Hx & Hb)]. exists x. destruct c as [v op value]. cbn in *. subst value. split_and!; done.
Qed.

(** A text that one condition covers_text. *)
Definition covers_text (t : jstr) : Prop :=
  (forall u, stops_class bound_char u -> first bound_pattern (t ++ u) = Some ([], u)) /\ (forall u, stops_class is_space (t ++ u)).

Lemma condition_covers c : condition_ok c -> covers_text (bound_line c).
Proof.
  intros Hc. destruct (condition_shape c Hc) as (x & _ & -> & Hx & Hb). destruct Hc as [Hv Hop _]. split.
  - intros u Hu. by apply runs_bound.
  - intros u. unfold bound_text. rewrite <- app_assoc. by apply variable_solid.
Qed.

Definition and_pattern : pattern := in_order [ws; chars (js "&&"); ws; bound_pattern].

Definition and_text (texts : list jstr) : jstr := concat ((fun t => js " && " ++ t) <$> texts).

Lemma and_text_cons t texts : and_text (t :: texts) = js " && " ++ t ++ and_text texts.
Proof. unfold and_text. rewrite fmap_cons. cbn [concat]. by rewrite <- app_assoc. Qed.

Lemma runs_many texts u turns : Forall covers_text texts -> and_pattern u = [] -> stops_class bound_char u -> length texts <= turns ->
  first (repeat turns and_pattern) (and_text texts ++ u) = Some ([], u).
Proof.
  intros Ht Hu Hs. revert turns. induction Ht as [|t texts [H1 H2] _ IH]; intros turns Hn.
  - cbn [and_text fmap list_fmap concat app]. destruct turns as [|turns]; [done|]. unfold first. cbn [repeat]. by rewrite Hu.
  - destruct turns as [|turns]; [cbn in Hn; lia|].
    assert (first and_pattern (and_text (t :: texts) ++ u) = Some ([], and_text texts ++ u)) as Hf.
    { rewrite and_text_cons, <- !app_assoc.
      eapply (runs_cons _ _ _ [] _ []); [by apply runs_blank|]. eapply (runs_cons _ _ _ [] _ []); [apply (first_chars (js "&&"))|].
      eapply (runs_cons _ _ _ [] _ []); [apply runs_blank, H2|]. apply H1. destruct texts; [exact Hs|done]. }
    specialize (IH turns ltac:(cbn in Hn; lia)). revert Hf IH. unfold first. cbn [repeat].
    destruct (and_pattern (and_text (t :: texts) ++ u)) as [|[c1 r1] l]; [done|]. intros [= -> ->]. cbn [flat_map snd].
    destruct (repeat turns and_pattern (and_text texts ++ u)); [done|]. by intros [= ->].
Qed.

Lemma and_text_long texts : length texts <= length (and_text texts).
Proof. induction texts as [|t texts IH]; [done|]. rewrite and_text_cons, !length_app. change (length (js " && ")) with 4. cbn [length]. lia. Qed.

(** A list of conditions before the question mark. *)
Lemma runs_conditions t texts u : Forall covers_text (t :: texts) ->
  first (in_order [condGroup; ws; chars (js "?"); ws]) (join (js " && ") (t :: texts) ++ js " ? " ++ js "tier(" ++ u)
  = Some ([Some (join (js " && ") (t :: texts))], js "tier(" ++ u).
Proof.
  intros [[H1 H2] Ht]%Forall_cons.
  assert (join (js " && ") (t :: texts) = t ++ and_text texts) as -> by apply join_head.
  eapply (runs_cons _ _ _ [Some _] (js " ? " ++ js "tier(" ++ u)).
  - apply first_capture_app. rewrite <- app_assoc. eapply (runs_cons _ _ _ [] _ []).
    + apply H1. destruct texts; done.
    + apply runs_many; [done|done|done|]. rewrite length_app. pose proof (and_text_long texts). lia.
  - eapply (runs_cons _ _ _ [] _ []); [by apply runs_blank|]. eapply (runs_cons _ _ _ [] _ []); [apply (first_chars (js "?"))|].
    by apply (runs_blank (js "tier(" ++ u)).
Qed.

(** ** Splitting the conditions *)

Lemma star_rest f u m : m ∈ star f u -> snd m = snd (span_while f u) \/ exists c l, snd m = c :: l /\ f c = true.
Proof.
  induction u as [|c u IH]; cbn [star span_while].
  - intros ->%list_elem_of_singleton. by left.
  - destruct (f c) eqn:Ec.
    + intros [Hm|Hm%list_elem_of_singleton]%elem_of_app.
      * destruct (IH Hm) as [H|H]; [left; rewrite H; by destruct (span_while f u)|by right].
      * right. subst m. by exists c, u.
    + intros ->%list_elem_of_singleton. by left.
Qed.

Lemma no_ampersand c l : c <> 38%N -> starts_with (js "&&") (c :: l) = false.
Proof.
  intros Hc. change (starts_with (js "&&") (c :: l)) with ((38 =? c)%N && starts_with (js "&") l).
  by rewrite (proj2 (N.eqb_neq 38 c)) by congruence.
Qed.

(** No separator starts where the text after the blanks is not one. *)
Lemma split_refused u : starts_with (js "&&") (drop_spaces u) = false -> split_pattern u = [].
Proof.
  intros Hu. unfold split_pattern. cbn [in_order]. apply seq_none. intros m Hm. apply seq_none_l. unfold chars.
  destruct (star_rest is_space u m Hm) as [E|(c & l & E & Hc)]; rewrite E.
  - unfold drop_spaces in Hu. by rewrite Hu.
  - rewrite no_ampersand; [done|]. by intros ->.
Qed.

(** A text without separator whose last character is no blank. *)
Definition solid_text (t : jstr) : Prop := Forall (fun c => c <> 38%N) t /\ exists c, last t = Some c /\ is_space c = false.

Lemma split_over t u acc turns : solid_text t -> length t <= turns ->
  split_turns turns split_pattern acc (t ++ u) = split_turns (turns - length t) split_pattern (rev t ++ acc) u.
Proof.
  intros [Hamp (z & Hz & Hs)]. revert acc turns. induction Hamp as [|c t Hc Hamp IH]; intros acc turns Hn; [done|].
  destruct turns as [|turns]; [cbn in Hn; lia|]. cbn [app split_turns].
  assert (split_pattern (c :: t ++ u) = []) as E.
  { apply split_refused. change (c :: t ++ u) with ((c :: t) ++ u).
    assert (exists d l, drop_spaces ((c :: t) ++ u) = d :: l /\ d <> 38%N) as (d & l & -> & Hd).
    { assert (Forall (fun c => c <> 38%N) (c :: t)) as Hall by by constructor. clear -Hall Hz Hs. revert Hz. induction Hall as [|d l Hd Hl IH]; [done|].
      intros Hz. unfold drop_spaces. cbn [app span_while]. destruct (is_space d) eqn:Ed; [|by eexists _, _].
      destruct l as [|e l]; [cbn in Hz; congruence|]. rewrite last_cons_cons in Hz. destruct (IH Hz) as (d' & l' & E & Hd').
      exists d', l'. split; [|done]. unfold drop_spaces in E. destruct (span_while is_space ((e :: l) ++ u)). exact E. }
    by apply no_ampersand. }
  unfold first. rewrite E. cbn [head]. destruct t as [|e t]; [cbn [app length rev]; by rewrite Nat.sub_1_r|].
  rewrite last_cons_cons in Hz. rewrite (IH Hz) by (cbn in *; lia). cbn [rev]. by rewrite <- !app_assoc.
Qed.

Lemma split_at_and t texts turns : Forall (fun t => solid_text t /\ forall u, stops_class is_space (t ++ u)) (t :: texts) ->
  length (t ++ and_text texts) < turns -> split_turns turns split_pattern [] (t ++ and_text texts) = t :: texts.
Proof.
  intros H. revert turns. apply Forall_cons in H as [[Ht _] H]. revert t Ht. induction H as [|t2 texts [Ht2 Hs] _ IH]; intros t Ht turns Hn.
  - cbn [and_text fmap list_fmap concat] in *. rewrite app_nil_r in *. rewrite <- (app_nil_r t) at 1.
    rewrite split_over by (done || lia). destruct (turns - length t) as [|k] eqn:Ek; [lia|]. cbn [split_turns first].
    unfold first. cbn. by rewrite app_nil_r, rev_involutive.
  - rewrite split_over by (done || (rewrite length_app in Hn; lia)). destruct (turns - length t) as [|k] eqn:Ek; [rewrite length_app in Hn; lia|].
    cbn [split_turns]. rewrite and_text_cons.
    assert (first split_pattern (js " && " ++ t2 ++ and_text texts) = Some ([], t2 ++ and_text texts)) as ->.
    { eapply (runs_cons _ _ _ [] _ []); [by apply runs_blank|]. eapply (runs_cons _ _ _ [] _ []); [apply (first_chars (js "&&"))|].
      apply runs_blank, Hs. }
    rewrite app_nil_r, rev_involutive. f_equal. apply IH; [done|].
    rewrite and_text_cons, !length_app in Hn. change (length (js " && ")) with 4 in Hn. rewrite length_app. lia.
Qed.
Lemma bound_char_word c : bound_char c = true -> is_space c = false /\ c <> 38%N.
Proof.
  intros Hc. split; [|by intros ->]. unfold bound_char in Hc. rewrite !orb_true_iff, !N.eqb_eq in Hc.
  destruct Hc as [[[[Hc| ->]| ->]| ->]| ->]; [by apply digit_no_space|done..].
Qed.

Lemma condition_solid c : condition_ok c -> solid_text (bound_line c).
Proof.
  intros Hc. destruct (condition_shape c Hc) as (x & _ & -> & Hx & Hb). destruct Hc as [Hv Hop _]. unfold bound_text. split.
  - rewrite !Forall_app. split_and!.
    + revert Hv. generalize (ci_var c). intros v Hv. vm_compute in Hv.
      repeat (apply elem_of_cons in Hv as [->|Hv]; [by repeat constructor|]). by apply elem_of_nil in Hv.
    + by repeat constructor.
    + revert Hop. generalize (ci_op c). intros op Hop. vm_compute in Hop.
      repeat (apply elem_of_cons in Hop as [->|Hop]; [by repeat constructor|]). by apply elem_of_nil in Hop.
    + by repeat constructor.
    + eapply Forall_impl; [exact Hb|]. intros d Hd. by apply bound_char_word.
  - destruct (number_to_string x) as [|d l] eqn:E using rev_ind; [by apply price_some in E|].
    exists d. rewrite !app_assoc. rewrite last_snoc. split; [done|]. apply Forall_app in Hb as [_ Hb]. apply Forall_cons in Hb as [Hb _].
    by apply bound_char_word.
Qed.

Lemma trim_same t : stops_class is_space t -> (exists c, last t = Some c /\ is_space c = false) -> trim t = t.
Proof.
  intros Hh (c & Hl & Hc). unfold trim. rewrite (drop_spaces_id t) by exact Hh. apply last_Some in Hl as [l ->].
  rewrite rev_unit, drop_spaces_id by done. by rewrite <- rev_unit, rev_involutive.
Qed.

Lemma read_bound_line c : condition_ok c -> read_bound (bound_line c) = Some c.
Proof.
  intros Hc. unfold read_bound. rewrite trim_same; [|rewrite <- (app_nil_r (bound_line c)); by apply condition_covers|by apply condition_solid].
  destruct (condition_shape c Hc) as (x & Ec & -> & Hx & Hb). destruct Hc as [Hv Hop _]. rewrite runs_condition by done.
  rewrite price_reads by done. by rewrite <- Ec.
Qed.

Lemma conditions_read_back c cs : Forall condition_ok (c :: cs) -> read_conditions (join (js " && ") (bound_line <$> c :: cs)) = c :: cs.
Proof.
  intros Hcs.
  assert (join (js " && ") (bound_line <$> c :: cs) = bound_line c ++ and_text (bound_line <$> cs)) as -> by apply join_head.
  assert (split split_pattern (bound_line c ++ and_text (bound_line <$> cs)) = bound_line <$> c :: cs) as Hs.
  { apply split_at_and; [|lia]. change (bound_line c :: (bound_line <$> cs)) with (bound_line <$> c :: cs). apply Forall_fmap. eapply Forall_impl; [exact Hcs|]. intros d Hd.
    split; [by apply condition_solid|by apply condition_covers]. }
  assert (omap read_bound (bound_line <$> c :: cs) = c :: cs) as Hr.
  { clear Hs. induction Hcs as [|d l Hd _ IH]; [done|]. rewrite fmap_cons. cbn [omap list_omap]. rewrite read_bound_line by done. by rewrite IH. }
  unfold read_conditions. rewrite Hs, Hr. apply Forall_cons in Hcs as [Hc _]. destruct (condition_shape c Hc) as (x & _ & -> & _).
  destruct Hc as [Hv _ _]. destruct (ci_var c) as [|d l] eqn:E; [|done]. vm_compute in Hv.
  repeat (apply elem_of_cons in Hv as [Hv|Hv]; [done|]). by apply elem_of_nil in Hv.
Qed.
(** ** Reading a tier *)

Lemma assoc_missing {A} k (l : list (jstr * A)) : k ∉ l.*1 -> assoc k l = None.
Proof.
  induction l as [|[k' a] l IH]; [done|]. cbn [fmap list_fmap fst assoc]. intros [Hne Hn]%not_elem_of_cons.
  destruct (jeqb k k') eqn:E; [by apply jeqb_eq in E|by apply IH].
Qed.

Lemma zero_price x : price_ok x -> feqb x fzero = true -> x = fzero.
Proof. intros [Hv Hf Hp Ha]. by destruct x as [[]|b| |[] m e]. Qed.

(** The extra prices that the captures of a tier stand for. *)
Definition captured_costs (t : VisualTier) (vars : list (jstr * jstr)) : list (jstr * f64) :=
  omap (fun e => (fun text => (fst (fst e), number_of_string text)) <$> snd e)
    (zip vars (extra_capture <$> ((fun cv => (snd cv, tier_cost t (fst cv))) <$> vars))).

Lemma captured_fields t vars : (captured_costs t vars).*1 ⊆ vars.*1.
Proof.
  unfold captured_costs. induction vars as [|[f v] vars IH]; [done|]. rewrite !fmap_cons. cbn [zip zip_with omap list_omap fst snd].
  destruct (extra_capture (v, tier_cost t f)); cbn [fmap option_fmap option_map]; [rewrite fmap_cons|]; set_solver.
Qed.

Lemma captured_cost t vars f : tier_ok t -> NoDup vars.*1 -> f ∈ vars.*1 ->
  number_or_zero (assoc f (captured_costs t vars)) = tier_cost t f.
Proof.
  intros Ht. induction vars as [|[f' v] vars IH]; [by intros _ ?%elem_of_nil|]. rewrite fmap_cons. intros [Hnew Hnd]%NoDup_cons Hf.
  assert (captured_costs t ((f', v) :: vars) = match extra_capture (v, tier_cost t f') with
    Some text => (f', number_of_string text) :: captured_costs t vars | None => captured_costs t vars end) as ->.
  { unfold captured_costs. rewrite !fmap_cons. cbn [zip zip_with omap list_omap fst snd]. by destruct (extra_capture _). }
  pose proof (tier_cost_ok t f' Ht) as Hok. unfold extra_capture. cbn [fst snd] in *.
  destruct (decide (f = f')) as [->|Hne].
  - destruct (feqb (tier_cost t f') fzero) eqn:Ez.
    + rewrite assoc_missing; [by rewrite (zero_price _ Hok Ez)|]. intros Hin. by apply Hnew, (captured_fields t).
    + cbn [assoc]. by rewrite jeqb_refl, price_reads, price_kept.
  - apply elem_of_cons in Hf as [?|Hf]; [done|]. destruct (feqb (tier_cost t f') fzero); [by apply IH|]. cbn [assoc].
    rewrite (proj2 (jeqb_neq f f')) by done. by apply IH.
Qed.

Lemma costs_listed l : NoDup l.*1 -> Forall (fun e => price_ok (snd e)) l ->
  (fun k => (k, number_or_zero (assoc k l))) <$> l.*1 = l.
Proof.
  intros Hnd Hl. assert (forall l1 l2, l = l1 ++ l2 -> (fun k => (k, number_or_zero (assoc k l))) <$> l2.*1 = l2) as H; [|by apply (H [] l)].
  intros l1 l2. revert l1. induction l2 as [|[k x] l2 IH]; intros l1 E; [done|]. rewrite !fmap_cons. cbn [fst].
  rewrite (IH (l1 ++ [(k, x)])) by (rewrite <- app_assoc; exact E). f_equal. f_equal.
  assert ((k, x) ∈ l) as Hin by (rewrite E; set_solver). rewrite (assoc_nodup k x l Hnd Hin).
  rewrite Forall_forall in Hl. by apply price_kept, (Hl (k, x)).
Qed.

Lemma positive_number o : fltb fzero (default S754_nan o) = fltb fzero (number_or_zero o).
Proof.
  destruct o as [x|]; [|done]. cbn [default from_option id number_or_zero]. destruct x as [[]|[]| |[] m e]; try done.
  - destruct (feqb _ _) eqn:E; [|done]. by destruct (feqb _ fzero) eqn:E2.
  - destruct (feqb _ _) eqn:E; [by destruct (feqb _ fzero) eqn:E2|]. exfalso. unfold feqb, SFeqb, SFcompare in E.
    by rewrite Z.compare_refl, Pos.compare_refl in E.
Qed.

Lemma fields_nodup : NoDup BILLING_CACHE_VAR_MAP.*1.
Proof. apply (bool_decide_unpack _). by vm_compute. Qed.

Lemma costs_of_fields t' t : tier_ok t -> (forall f, f ∈ BILLING_CACHE_VAR_MAP.*1 -> tier_cost t' f = tier_cost t f) ->
  (fun entry : jstr * jstr => (fst entry, tier_cost t' (fst entry))) <$> BILLING_CACHE_VAR_MAP = vt_costs t.
Proof.
  intros Ht Hcost. destruct (to_costs _ Ht) as [Hk Hall]. rewrite <- (costs_listed (vt_costs t)); [|rewrite Hk; apply fields_nodup|done].
  rewrite Hk, <- list_fmap_compose. apply list_fmap_ext. intros i e He. cbn. f_equal. apply Hcost.
  apply list_elem_of_lookup_2 in He. by apply list_elem_of_fmap_2.
Qed.

Lemma tier_normal t : tier_ok t -> normalizeVisualTier t = t.
Proof.
  intros Ht. unfold normalizeVisualTier. rewrite (costs_of_fields t t Ht) by done. unfold getTierCacheMode. rewrite (to_mode _ Ht), <- (to_mode _ Ht).
  destruct (to_label _ Ht) as (l & Hl & _). destruct (to_conditions _ Ht) as (cs & Hcs & _). destruct (to_input _ Ht) as (x & Hx & _).
  destruct (to_output _ Ht) as (y & Hy & _). clear Ht. destruct t.
  cbn [vt_billing_unit vt_fixed_price vt_label vt_conditions vt_input_unit_cost vt_output_unit_cost] in *. by subst.
Qed.

(** The captures of the text of a tier are read as the tier. *)
Lemma tier_read_back t l x y cs : tier_ok t -> vt_label t = Some l -> vt_conditions t = Some cs ->
  vt_input_unit_cost t = Some x -> vt_output_unit_cost t = Some y ->
  normalizeVisualTier (tier_of_captures cs (tier_captures l x y t)) = t.
Proof.
  intros Ht Hl Hcs Hx Hy.
  assert (price_ok x) as Px by (destruct (to_input _ Ht) as (z & E & ?); congruence).
  assert (price_ok y) as Py by (destruct (to_output _ Ht) as (z & E & ?); congruence).
  assert (vt_costs (tier_of_captures cs (tier_captures l x y t)) = captured_costs t BILLING_CACHE_VAR_MAP) as Ec by done.
  assert (forall f, f ∈ BILLING_CACHE_VAR_MAP.*1 -> tier_cost (tier_of_captures cs (tier_captures l x y t)) f = tier_cost t f) as Hcost.
  { intros f Hf. unfold tier_cost at 1. rewrite Ec. apply captured_cost; [done|apply fields_nodup|done]. }
  unfold normalizeVisualTier.
  assert (getTierCacheMode (tier_of_captures cs (tier_captures l x y t))
    = if fltb fzero (tier_cost t cache_create_1h_field) then CACHE_MODE_TIMED else CACHE_MODE_GENERIC) as ->.
  { unfold getTierCacheMode. rewrite positive_number. fold (tier_cost (tier_of_captures cs (tier_captures l x y t)) cache_create_1h_field).
    rewrite Hcost; [done|]. by apply (bool_decide_unpack _). }
  rewrite (costs_of_fields _ t Ht Hcost).
  change (vt_input_unit_cost (tier_of_captures _ _)) with (Some (number_of_string (number_to_string x))).
  change (vt_output_unit_cost (tier_of_captures _ _)) with (Some (number_of_string (number_to_string y))).
  rewrite (price_reads x), (price_reads y) by done.
  rewrite <- (to_mode _ Ht). pose proof (to_unit _ Ht) as Hu. pose proof (to_fixed _ Ht) as Hf.
  clear -Hu Hf Hl Hcs Hx Hy. destruct t.
  cbn [vt_billing_unit vt_fixed_price vt_label vt_conditions vt_input_unit_cost vt_output_unit_cost] in *. by subst.
Qed.
(** ** Reading the lines *)

Definition line_text (cs : list TierConditionInput) (l : jstr) (t : VisualTier) : jstr :=
  match cs with [] => tier_call l t | _ => join (js " && ") (bound_line <$> cs) ++ js " ? " ++ tier_call l t end.

Definition line_captures (cs : list TierConditionInput) (l : jstr) (x y : f64) (t : VisualTier) : captures :=
  match cs with [] => None | _ => Some (join (js " && ") (bound_line <$> cs)) end :: tier_captures l x y t.

(** What a tier consists of. *)
Record parts_of (t : VisualTier) (l : jstr) (cs : list TierConditionInput) (x y : f64) : Prop := {
  part_label : vt_label t = Some l;
  part_conditions : vt_conditions t = Some cs;
  part_input : vt_input_unit_cost t = Some x;
  part_output : vt_output_unit_cost t = Some y;
  part_label_ok : l <> [] /\ Forall (fun c => c <> 34%N) l;
  part_conditions_ok : Forall condition_ok cs;
}.

Lemma tier_parts t : tier_ok t -> exists l cs x y, parts_of t l cs x y.
Proof.
  intros Ht. destruct (to_label _ Ht) as (l & Hl & Hl1 & Hl2). destruct (to_conditions _ Ht) as (cs & Hcs & Hok).
  destruct (to_input _ Ht) as (x & Hx & _). destruct (to_output _ Ht) as (y & Hy & _). by exists l, cs, x, y.
Qed.

Lemma runs_line t l cs x y u : tier_ok t -> parts_of t l cs x y ->
  first tierRe (line_text cs l t ++ u) = Some (line_captures cs l x y t, u).
Proof.
  intros Ht [Hl Hcs Hx Hy [_ Hq] Hok]. unfold line_text, line_captures. destruct cs as [|c cs].
  - eapply (runs_cons _ _ _ [None] (tier_call l t ++ u)); [by apply (first_optional_none 1)|]. by apply runs_tier.
  - rewrite <- !app_assoc. eapply (runs_cons _ _ _ [Some _] (tier_call l t ++ u)); [|by apply runs_tier].
    apply first_optional. assert (Forall covers_text (bound_line <$> c :: cs)) as Hcov.
    { apply Forall_fmap. eapply Forall_impl; [exact Hok|exact condition_covers]. }
    rewrite fmap_cons in *. exact (runs_conditions (bound_line c) (bound_line <$> cs)
      (([34%N] ++ l ++ [34%N] ++ js ", " ++ buildTierBodyExpr t ++ js ")") ++ u) Hcov).
Qed.

Lemma line_read t l cs x y : tier_ok t -> parts_of t l cs x y -> read_match (line_captures cs l x y t) = t.
Proof.
  intros Ht [Hl Hcs Hx Hy _ Hok]. unfold line_captures. cbn [read_match].
  replace (read_conditions _) with cs; [by apply tier_read_back|]. destruct cs as [|c cs]; [done|]. symmetry. by apply conditions_read_back.
Qed.

Lemma tierRe_none c u : c = 32%N \/ c = 58%N -> tierRe (c :: u) = [].
Proof. by intros [->| ->]. Qed.

Lemma skip_colon turns u : match_all (3 + turns) tierRe (js " : " ++ u) = match_all turns tierRe u.
Proof. change (js " : " ++ u) with (32%N :: 58%N :: 32%N :: u). cbn [Nat.add]. rewrite !match_all_skip; [done|apply tierRe_none; auto..]. Qed.

Lemma match_empty turns : match_all turns tierRe [] = [].
Proof. by destruct turns. Qed.

Lemma usable_all cs : Forall condition_ok cs -> List.filter usable_condition cs = cs.
Proof.
  induction 1 as [|c cs Hc _ IH]; [done|]. cbn [List.filter]. rewrite IH. unfold usable_condition.
  destruct Hc as [Hv Hop (x & -> & _)].
  assert (jeqb (ci_var c) [] = false) as -> by (apply jeqb_neq; intros E; rewrite E in Hv; vm_compute in Hv; set_solver).
  assert (jeqb (ci_op c) [] = false) as -> by (apply jeqb_neq; intros E; rewrite E in Hop; vm_compute in Hop; set_solver). done.
Qed.

Lemma conditions_written cs : Forall condition_ok cs -> buildConditionStr cs = join (js " && ") (bound_line <$> cs).
Proof. intros Hcs. destruct cs as [|c cs]; [done|]. unfold buildConditionStr. by rewrite usable_all. Qed.

Lemma conditions_nonempty c cs : condition_ok c -> exists d l, join (js " && ") (bound_line <$> c :: cs) = d :: l /\
  (d = 112%N \/ d = 99%N \/ d = 108%N).
Proof.
  intros Hc. destruct (condition_shape c Hc) as (x & _ & E & _). destruct Hc as [Hv _ _].
  assert (join (js " && ") (bound_line <$> c :: cs) = bound_line c ++ and_text (bound_line <$> cs)) as -> by apply join_head.
  rewrite E. unfold bound_text. revert Hv. generalize (ci_var c). intros v Hv. vm_compute in Hv.
  repeat (apply elem_of_cons in Hv as [->|Hv]; [eexists _, _; split; [reflexivity|tauto]|]). by apply elem_of_nil in Hv.
Qed.
(** The text of several tiers. *)
Lemma lines_written i t rest l cs x y : tier_ok t -> parts_of t l cs x y -> (rest <> [] -> cs <> []) -> (rest = [] -> cs = []) ->
  tier_lines i (t :: rest) = line_text cs l t :: tier_lines (S i) rest.
Proof.
  intros Ht [Hl Hcs _ _ [Hne _] Hok] H1 H2. cbn [tier_lines]. rewrite Hl, Hcs. cbn [default from_option id].
  rewrite conditions_written by done. destruct l as [|d l]; [done|]. cbn [label_or]. unfold line_text. f_equal.
  destruct rest as [|t2 rest]; [by rewrite H2|]. destruct cs as [|c cs]; [by destruct H1|].
  apply Forall_cons in Hok as [Hc _]. by destruct (conditions_nonempty c cs Hc) as (e & u & -> & _).
Qed.

Lemma line_long cs l t : 0 < length (line_text cs l t).
Proof. unfold line_text, tier_call. destruct cs; rewrite !length_app; [change (length (js "tier(")) with 5|change (length (js " ? ")) with 3]; lia. Qed.

Lemma lines_read tiers : forall i turns, guarded_tiers tiers -> Forall tier_ok tiers ->
  length (join (js " : ") (tier_lines i tiers)) < turns ->
  read_match <$> match_all turns tierRe (join (js " : ") (tier_lines i tiers)) = tiers.
Proof.
  induction tiers as [|t tiers IH]; [done|]. intros i turns Hg Hok Hn. apply Forall_cons in Hok as [Ht Hok].
  destruct (tier_parts t Ht) as (l & cs & x & y & Hp). destruct tiers as [|t2 tiers].
  - cbn [guarded_tiers] in Hg. assert (cs = []) as -> by (pose proof (part_conditions _ _ _ _ _ Hp); congruence).
    pose proof (lines_written i t [] l [] x y Ht Hp ltac:(done) ltac:(done)) as Ew. rewrite Ew in *. cbn [tier_lines join] in *. destruct turns as [|turns]; [lia|].
    rewrite <- (app_nil_r (line_text [] l t)). rewrite (match_all_found _ _ _ _ _ (runs_line t l [] x y [] Ht Hp)), match_empty.
    cbn [fmap list_fmap]. by rewrite line_read.
  - destruct Hg as [Hne Hg].
    assert (tier_lines i (t :: t2 :: tiers) = line_text cs l t :: tier_lines (S i) (t2 :: tiers)) as Ew.
    { apply (lines_written i t (t2 :: tiers) l cs x y); [done|done|intros _ ->; by apply Hne, (part_conditions _ _ _ _ _ Hp)|done]. }
    rewrite Ew in *.
    assert (exists s ss, tier_lines (S i) (t2 :: tiers) = s :: ss) as (s & ss & Es) by by eexists _, _.
    assert (join (js " : ") (line_text cs l t :: tier_lines (S i) (t2 :: tiers))
      = line_text cs l t ++ js " : " ++ join (js " : ") (tier_lines (S i) (t2 :: tiers))) as E by (by rewrite Es).
    rewrite E in *. rewrite !length_app in Hn. change (length (js " : ")) with 3 in Hn.
    destruct turns as [|[|[|[|turns]]]]; try lia. rewrite (match_all_found _ _ _ _ _ (runs_line t l cs x y _ Ht Hp)).
    change (S (S (S turns))) with (3 + turns). rewrite skip_colon, fmap_cons, line_read by done. f_equal. apply IH; [done|done|].
    pose proof (line_long cs l t). lia.
Qed.

Lemma normal_tiers tiers : tiers <> [] -> Forall tier_ok tiers -> normalizeVisualConfig tiers = tiers.
Proof.
  intros Hne Hok. destruct tiers as [|t tiers]; [done|]. unfold normalizeVisualConfig. clear Hne.
  induction Hok as [|t' tiers' Ht _ IH]; [done|]. by rewrite fmap_cons, tier_normal, IH.
Qed.

Lemma no_version c u : c <> 118%N -> without_version (c :: u) = c :: u.
Proof.
  intros Hc. unfold without_version. assert (in_order [chars (js "v"); digits; chars (js ":")] (c :: u) = []) as E.
  { apply seq_none_l. unfold chars. change (starts_with (js "v") (c :: u)) with ((118 =? c)%N && true).
    by rewrite (proj2 (N.eqb_neq 118 c)) by congruence. }
  unfold first. by rewrite E.
Qed.

Lemma single_refused c u : c <> 116%N -> matches singleRe (c :: u) = None.
Proof.
  intros Hc. unfold matches, first. assert (singleRe (c :: u) = []) as ->; [|done]. apply seq_none_l. unfold tier_pattern. cbn [in_order].
  apply seq_none_l. unfold chars. change (starts_with (js "tier(" ++ [34%N]) (c :: u)) with ((116 =? c)%N && starts_with (js "ier(" ++ [34%N]) u).
  by rewrite (proj2 (N.eqb_neq 116 c)) by congruence.
Qed.

(** No tier is found in what follows a single tier with conditions. *)
Lemma trailer_silent turns : match_all turns tierRe (js " : p * 0 + c * 0") = [].
Proof.
  assert (forall u, (fix silent u := match tierRe u with [] => match u with [] => true | _ :: u => silent u end | _ => false end) u = true ->
    match_all turns tierRe u = []) as H; [|apply H; by vm_compute].
  induction turns as [|turns IH]; intros u Hu; [done|]. cbn [match_all]. unfold first. destruct u as [|c u].
  - by destruct (tierRe []).
  - destruct (tierRe (c :: u)); [|done]. by apply IH.
Qed.

(** A text that [singleRe] does not match, whose matches are the tiers. *)
Lemma flat_read c u tiers : c <> 118%N -> c <> 116%N -> tiers <> [] -> Forall tier_ok tiers ->
  read_match <$> exec_all tierRe (c :: u) = tiers -> generateExprFromVisualConfig tiers = c :: u ->
  tryParseVisualConfig (c :: u) = Some tiers.
Proof.
  intros H1 H2 Hne Hok Hr Hg. unfold tryParseVisualConfig. rewrite no_version, single_refused, Hr by done.
  destruct tiers as [|t tiers]; [done|]. rewrite normal_tiers by done. cbv zeta. by rewrite Hg, jeqb_refl.
Qed.

(** C15: The form for token tiers reads back what it writes: the expression generated
    from a configuration is read as the same tiers, with their labels, conditions,
    prices and cache modes. This is for configurations that are [config_ok]: of
    several tiers every one but the last has conditions and the last has none (a
    single tier may have some); no tier has a unit or a fixed price; every label is
    not empty and without double quotes; a tier has
    every price of the form, each finite, not negative and not the negative zero; every condition compares [p], [c] or [len] with such a number
    that is printed without a negative exponent; and the cache mode is the timed one
    exactly when there is a price for the 1h cache. *)
Theorem tier_form_round_trip tiers : config_ok tiers ->
  tryParseVisualConfig (generateExprFromVisualConfig tiers) = Some tiers.
Proof.
  intros [Hok Hg]. destruct tiers as [|t [|t2 tiers]]; [done| |].
  - assert (Forall tier_ok [t]) as Hall by exact Hok. rewrite Forall_singleton in Hok. destruct (tier_parts t Hok) as (l & cs & x & y & Hp). pose proof Hp as [Hl Hcs Hx Hy [Hne Hq] Hcok].
    pose proof (runs_line t l cs x y (js " : p * 0 + c * 0") Hok Hp) as Hline.
    assert (generateExprFromVisualConfig [t] = match cs with [] => tier_call l t | _ => line_text cs l t ++ js " : p * 0 + c * 0" end) as Egen.
    { cbn [generateExprFromVisualConfig]. rewrite Hl, Hcs. cbn [default from_option id]. rewrite conditions_written by done.
      destruct l as [|d l]; [done|]. cbn [label_or]. destruct cs as [|c cs]; [done|]. apply Forall_cons in Hcok as [Hc _].
      unfold line_text. destruct (conditions_nonempty c cs Hc) as (e & u & -> & _). by rewrite <- !app_assoc. }
    destruct cs as [|c cs].
    + rewrite Egen. unfold tryParseVisualConfig. change (tier_call l t) with (116%N :: tail (tier_call l t)). rewrite no_version by done.
      change (116%N :: tail (tier_call l t)) with (tier_call l t).
      assert (first singleRe (tier_call l t) = Some (tier_captures l x y t, [])) as Hf.
      { pose proof (runs_tier t l x y [] Hok Hx Hy Hq) as Hr. rewrite app_nil_r in Hr.
        rewrite <- (app_nil_r (tier_captures l x y t)). exact (first_seq tier_pattern text_end _ _ _ [] [] Hr eq_refl). }
      unfold matches. rewrite Hf. cbn [fmap option_fmap option_map fst]. rewrite tier_read_back by done.
      by rewrite normal_tiers.
    + apply Forall_cons in Hcok as [Hc _]. destruct (conditions_nonempty c cs Hc) as (e & u & E & He).
      assert (exists u', line_text (c :: cs) l t ++ js " : p * 0 + c * 0" = e :: u') as [u' Eu] by (unfold line_text; rewrite E; by eexists).
      rewrite Egen, Eu in *. apply flat_read; [naive_solver..|done| |done].
      unfold exec_all. rewrite (match_all_found _ _ _ _ _ Hline), fmap_cons, line_read by done. by rewrite trailer_silent.
  - assert (tier_ok t) as Ht by by inversion Hok. destruct (tier_parts t Ht) as (l & cs & x & y & Hp).
    destruct (part_conditions_ok _ _ _ _ _ Hp) as [|c cs Hc Hcs]; [destruct Hg as [Hg _]; by rewrite (part_conditions _ _ _ _ _ Hp) in Hg|].
    assert (tier_lines 0 (t :: t2 :: tiers) = line_text (c :: cs) l t :: tier_lines 1 (t2 :: tiers)) as Ew by (by apply (lines_written 0 t (t2 :: tiers) l (c :: cs) x y)).
    destruct (conditions_nonempty c cs Hc) as (e & u & E & He).
    assert (exists u', join (js " : ") (tier_lines 0 (t :: t2 :: tiers)) = e :: u') as [u' Eu].
    { rewrite Ew. unfold line_text at 1. rewrite E, join_head. by eexists. }
    pose proof (lines_read (t :: t2 :: tiers) 0 (S (length (join (js " : ") (tier_lines 0 (t :: t2 :: tiers)))))) as Hr.
    unfold generateExprFromVisualConfig. rewrite Eu in *. apply flat_read; [naive_solver..|done|done|apply Hr; [done|done|lia]|done].
Qed.
(** ** A sample configuration *)

Definition sample_tier (label : string) (conditions : list TierConditionInput) (input output : f64) (costs : list (jstr * f64)) : VisualTier :=
  normalizeVisualTier
    {| vt_billing_unit := None; vt_fixed_price := None; vt_label := Some (js label); vt_conditions := Some conditions;
       vt_input_unit_cost := Some input; vt_output_unit_cost := Some output; vt_cache_mode := None; vt_costs := costs |}.

Definition sample_bound : TierConditionInput :=
  {| ci_var := js "len"; ci_op := js "<="; ci_value := JNum (dec "200000") |}.

Definition flat_sample : VisualConfig :=
  [sample_tier "standard" [sample_bound] (dec "3") (dec "15")
     [(js "cache_read_unit_cost", dec "0.3"); (js "cache_create_1h_unit_cost", dec "6")];
   sample_tier "long" [] (dec "6") (dec "22.5") []].

Ltac price_by_computation := split; vm_compute; reflexivity.

Lemma sample_bound_ok : condition_ok sample_bound.
Proof.
  split; [apply (bool_decide_unpack _); by vm_compute..|]. exists (dec "200000"). split; [done|]. split; [price_by_computation|].
  apply Forall_forall. intros z Hz%list_elem_of_In. revert z Hz. apply (forallb_forall bound_char). by vm_compute.
Qed.

Ltac sample_tier_by_computation :=
  split; [done|done
    |eexists; split; [reflexivity|split; [done|apply (bool_decide_unpack _); by vm_compute]]
    |eexists; split; [reflexivity|by repeat (constructor; [exact sample_bound_ok|])]
    |eexists; split; [reflexivity|price_by_computation]
    |eexists; split; [reflexivity|price_by_computation]
    |split; [vm_compute; reflexivity|]
    |vm_compute; reflexivity];
  match goal with |- Forall ?P (vt_costs ?t) =>
    let l := eval vm_compute in (vt_costs t) in change (vt_costs t) with l end;
  repeat (constructor; [price_by_computation|]); constructor.

Lemma flat_sample_ok : Forall tier_ok flat_sample.
Proof. constructor; [sample_tier_by_computation|]. constructor; [sample_tier_by_computation|constructor]. Qed.

Lemma flat_sample_guarded : guarded_tiers flat_sample.
Proof. split; [by intros E; vm_compute in E|reflexivity]. Qed.

Lemma tier_form_round_trip_witness :
  generateExprFromVisualConfig flat_sample
  = js "len <= 200000 ? tier(" ++ json_stringify (js "standard") ++ js ", p * 3 + c * 15 + cr * 0.3 + cc1h * 6) : tier("
    ++ json_stringify (js "long") ++ js ", p * 6 + c * 22.5)" /\
  tryParseVisualConfig (generateExprFromVisualConfig flat_sample) = Some flat_sample.
Proof. split; [vm_compute; reflexivity|]. apply (tier_form_round_trip flat_sample). exact (conj flat_sample_ok flat_sample_guarded). Defined.

(** A single tier is read without the comparison that several tiers go through: a
    price that is no number is read as one, and written as zero. *)
Definition malformed_price : jstr := js "tier(" ++ json_stringify (js "x") ++ js ", p * 1-2 + c * 3)".

Example malformed_price_lost :
  option_map (fmap (fun t => vt_input_unit_cost t)) (tryParseVisualConfig malformed_price) = Some [Some S754_nan] /\
  option_map generateExprFromVisualConfig (tryParseVisualConfig malformed_price)
  = Some (js "tier(" ++ json_stringify (js "x") ++ js ", p * 0 + c * 3)").
Proof. vm_compute. by split. Qed.
End TierFormFacts.
