(* ===== verification/BillingTierChargeFacts.v ===== *)
(** * What the form for token tiers charges

    The expression that the form writes, evaluated by the engine on the tokens of
    the estimator, charges the prices of the first tier whose conditions hold. *)

From stdpp Require Import base list numbers strings sets.
From Stdlib Require Import ZArith SpecFloat Lia.
From S2P Require Import Prelude.
From S2P Require Import JsString.
From S2P Require Import JsNumber.
From S2P Require Import JsNumberFacts.
From S2P Require Import JsValue.
From S2P Require Import JsJson.
From S2P Require Import BillingTypes.
From S2P Require Import BillingParser.
From S2P Require Import BillingCompile.
From S2P Require Import BillingCompileFacts.
From S2P Require Import BillingRuntime.
From S2P Require Import BillingRuntimeFacts.
From S2P Require Import BillingPricing.
From S2P Require Import BillingRequestRules.
From S2P Require Import BillingPrint.
From S2P Require Import JsCollections.
From S2P Require Import BillingTaskForm.
From S2P Require Import BillingTaskFormFacts.
From S2P Require Import BillingTaskPreviewFacts.
From S2P Require Import BillingTaskChargeFacts.
From S2P Require Import JsRegExp.
From S2P Require Import BillingTierForm.
From S2P Require Import BillingTierFormFacts.

Module TierChargeFacts.
Import RequestRules TaskForm TaskFormFacts TaskPreviewFacts TaskChargeFacts RegExp TierForm TierFormFacts.

(** ** The tree of the text *)

Definition var_of (name : jstr) : TokenVariable := default Vp (assoc name TOKEN_VARIABLES).
Definition op_of (name : jstr) : binop := default Blt (fst <$> assoc name PRECEDENCE).
Definition bound_of (c : TierConditionInput) : f64 := match ci_value c with JNum x => x | _ => fzero end.

Definition term_node (v : TokenVariable) (x : f64) : ExpressionNode := Binary sp0 Bmul (Var sp0 v) (num_node x).

Definition bound_node (c : TierConditionInput) : ExpressionNode :=
  Binary sp0 (op_of (ci_op c)) (Var sp0 (var_of (ci_var c))) (num_node (bound_of c)).

(** The price of a tier for a variable. *)
Definition extra_cost (t : VisualTier) (v : BillingVar) : f64 := tier_cost t (default [] (bv_tierField v)).
Definition input_cost (t : VisualTier) : f64 := number_or_zero (vt_input_unit_cost t).
Definition output_cost (t : VisualTier) : f64 := number_or_zero (vt_output_unit_cost t).

Definition extra_node (t : VisualTier) (v : BillingVar) : option ExpressionNode :=
  if feqb (extra_cost t v) fzero then None else Some (term_node (bv_key v) (extra_cost t v)).

Definition tier_terms (t : VisualTier) : list ExpressionNode :=
  term_node Vp (input_cost t) :: term_node Vc (output_cost t) :: omap (extra_node t) BILLING_EXTRA_VARS.

Definition flat_tier (t : VisualTier) : ExpressionNode := tier_node (default [] (vt_label t)) (chain_of Badd (tier_terms t)).

Definition conditions_of (t : VisualTier) : list TierConditionInput := default [] (vt_conditions t).

Fixpoint flat_tree (tiers : VisualConfig) : ExpressionNode :=
  match tiers with
  | [] => num_node fzero
  | [tier] => flat_tier tier
  | tier :: rest => Conditional sp0 (chain_of Band (bound_node <$> conditions_of tier)) (flat_tier tier) (flat_tree rest)
  end.

(** Numbers that the parser accepts as they are written, and labels that need no escape. *)
Record tier_writable (t : VisualTier) : Prop := {
  tw_input : form_number (input_cost t);
  tw_output : form_number (output_cost t);
  tw_extras : Forall (fun v => form_number (extra_cost t v)) BILLING_EXTRA_VARS;
  tw_bounds : Forall (fun c => form_number (bound_of c)) (conditions_of t);
  tw_label : forall l, vt_label t = Some l -> json_stringify l = [34%N] ++ l ++ [34%N];
}.

Lemma condition_tree c : condition_ok c ->
  variable_name (var_of (ci_var c)) = ci_var c /\ binop_name (op_of (ci_op c)) = ci_op c /\
  op_of (ci_op c) ∈ [Blt; Ble; Bgt; Bge] /\ ci_value c = JNum (bound_of c).
Proof.
  intros [Hv Hop (x & Hx & _)]. unfold bound_of. rewrite Hx. revert Hv Hop. generalize (ci_var c) (ci_op c). intros v op Hv Hop. split_and!; [| | |done].
  - vm_compute in Hv. repeat (apply elem_of_cons in Hv as [->|Hv]; [reflexivity|]). by apply elem_of_nil in Hv.
  - vm_compute in Hop. repeat (apply elem_of_cons in Hop as [->|Hop]; [reflexivity|]). by apply elem_of_nil in Hop.
  - vm_compute in Hop. repeat (apply elem_of_cons in Hop as [->|Hop]; [apply (bool_decide_unpack _); by vm_compute|]). by apply elem_of_nil in Hop.
Qed.

Lemma prints_variable v : prints (body_tokens (Var sp0 v)) (variable_name v).
Proof. apply (prints_token (TokName (variable_name v))). by destruct v. Qed.

Lemma prints_term v x : form_number x -> prints (body_tokens (term_node v x)) (price_part (variable_name v) x).
Proof. intros Hx. apply (prints_infix (body_tokens (Var sp0 v)) _ (js "*")); [apply prints_variable|by apply prints_number|done]. Qed.

Lemma prints_bound c : condition_ok c -> form_number (bound_of c) -> prints (body_tokens (bound_node c)) (bound_line c).
Proof.
  intros Hc Hx. destruct (condition_tree c Hc) as (Hv & Hop & Hin & Hval). unfold bound_line. rewrite Hval.
  unfold bound_node. rewrite <- Hv at 2. rewrite <- Hop at 2.
  assert (forall o, o ∈ [Blt; Ble; Bgt; Bge] -> prints (body_tokens (Binary sp0 o (Var sp0 (var_of (ci_var c))) (num_node (bound_of c))))
    (variable_name (var_of (ci_var c)) ++ js " " ++ binop_name o ++ js " " ++ number_to_string (bound_of c))) as H; [|by apply H].
  intros o Ho. repeat (apply elem_of_cons in Ho as [->|Ho];
    [apply (prints_infix (body_tokens (Var sp0 (var_of (ci_var c)))) _ (binop_name _)); [apply prints_variable|by apply prints_number|done]|]).
  by apply elem_of_nil in Ho.
Qed.

Lemma terms_high t : Forall (fun n => 5 < node_prec n) (tier_terms t).
Proof.
  repeat (constructor; [simpl; lia|]). apply Forall_forall. intros n (v & _ & Hn)%list_elem_of_omap. unfold extra_node in Hn.
  destruct (feqb _ _); [done|]. injection Hn as <-. simpl. lia.
Qed.

Lemma body_prints t : tier_ok t -> tier_writable t -> prints (body_tokens (chain_of Badd (tier_terms t))) (buildTierBodyExpr t).
Proof.
  intros Ht [Hi Ho He _ _]. unfold buildTierBodyExpr. rewrite (to_unit _ Ht).
  apply (prints_chain Badd); [done|apply terms_high|]. constructor; [by apply (prints_term Vp)|]. constructor; [by apply (prints_term Vc)|].
  unfold BILLING_CACHE_VAR_MAP. induction He as [|v vars Hv _ IH]; [constructor|]. rewrite fmap_cons. cbn [omap list_omap fst snd].
  fold (extra_cost t v). unfold extra_node at 1. destruct (feqb (extra_cost t v) fzero); [exact IH|]. constructor; [by apply prints_term|exact IH].
Qed.

Lemma flat_tier_prints t l : tier_ok t -> tier_writable t -> vt_label t = Some l -> prints (body_tokens (flat_tier t)) (tier_call l t).
Proof.
  intros Ht Hw Hl. unfold flat_tier. rewrite Hl. cbn [default from_option id]. unfold tier_call.
  pose proof (prints_call_tier l _ _ (body_prints t Ht Hw)) as Hp. unfold tier_call_text in Hp. rewrite (tw_label _ Hw l Hl) in Hp.
  rewrite <- !app_assoc in Hp. exact Hp.
Qed.

Lemma bounds_high cs : Forall condition_ok cs -> Forall (fun n => binop_prec Band < node_prec n) (bound_node <$> cs).
Proof.
  intros Hok. apply Forall_fmap. eapply Forall_impl; [exact Hok|]. intros c Hc. destruct (condition_tree c Hc) as (_ & _ & Hin & _).
  change (2 < binop_prec (op_of (ci_op c))). revert Hin. generalize (op_of (ci_op c)). intros o Hin.
  repeat (apply elem_of_cons in Hin as [->|Hin]; [simpl; lia|]). by apply elem_of_nil in Hin.
Qed.

Lemma bounds_print cs : cs <> [] -> Forall condition_ok cs -> Forall (fun c => form_number (bound_of c)) cs ->
  prints (body_tokens (chain_of Band (bound_node <$> cs))) (join (js " && ") (bound_line <$> cs)).
Proof.
  intros Hne Hok Hn. apply (prints_chain Band); [by destruct cs|by apply bounds_high|].
  apply Forall2_fmap, Forall_Forall2_diag. rewrite Forall_forall in Hok, Hn. apply Forall_forall. intros c Hc. apply prints_bound; auto.
Qed.
Lemma flat_tree_cons t t2 ts : flat_tree (t :: t2 :: ts)
  = Conditional sp0 (chain_of Band (bound_node <$> conditions_of t)) (flat_tier t) (flat_tree (t2 :: ts)).
Proof. done. Qed.

Lemma bounds_prec cs : Forall condition_ok cs -> 2 <= node_prec (chain_of Band (bound_node <$> cs)).
Proof.
  intros Hok. destruct cs as [|c cs]; [simpl; lia|]. pose proof (bounds_high _ Hok) as Hh. exact (proj2 (chain_tokens Band (bound_node c) (fmap (M:=list) bound_node cs) Hh)).
Qed.

Lemma lines_print tiers i : Forall tier_ok tiers -> Forall tier_writable tiers -> guarded_tiers tiers ->
  prints (body_tokens (flat_tree tiers)) (join (js " : ") (tier_lines i tiers)).
Proof.
  intros Hok Hw. revert i Hok. induction Hw as [|t tiers Ht Hw IH]; intros i Hok Hg; [done|]. apply Forall_cons in Hok as [Hokt Hok].
  destruct (tier_parts t Hokt) as (l & cs & x & y & Hp). pose proof Hp as [Hl Hcs _ _ _ Hcok]. destruct tiers as [|t2 tiers].
  - assert (cs = []) as -> by (cbn in Hg; congruence).
    rewrite (lines_written i t [] l [] x y) by done. cbn [tier_lines join flat_tree line_text]. by apply flat_tier_prints.
  - destruct Hg as [Hne Hg]. assert (cs <> []) as Hcs0 by (intros ->; done).
    rewrite (lines_written i t (t2 :: tiers) l cs x y) by done.
    assert (join (js " : ") (line_text cs l t :: tier_lines (S i) (t2 :: tiers))
      = line_text cs l t ++ js " : " ++ join (js " : ") (tier_lines (S i) (t2 :: tiers))) as -> by done.
    rewrite flat_tree_cons. assert (line_text cs l t = join (js " && ") (bound_line <$> cs) ++ js " ? " ++ tier_call l t) as -> by (by destruct cs).
    cbn [body_tokens]. unfold conditions_of. rewrite Hcs. cbn [default from_option id].
    pose proof (tw_bounds _ Ht) as Hb. unfold conditions_of in Hb. rewrite Hcs in Hb. cbn [default from_option id] in Hb.
    unfold enclose. rewrite (proj2 (Nat.ltb_ge _ 1)) by (pose proof (bounds_prec cs Hcok); lia). rewrite <- !app_assoc.
    apply (prints_infix _ _ (js "?") (body_tokens (flat_tier t) ++ _)); [by apply bounds_print| |done].
    apply (prints_infix _ _ (js ":")); [by apply flat_tier_prints|by apply IH|done].
Qed.

Lemma flat_text tiers : Forall tier_ok tiers -> guarded_tiers tiers ->
  generateExprFromVisualConfig tiers = join (js " : ") (tier_lines 0 tiers).
Proof.
  intros Hok Hg. destruct tiers as [|t [|t2 tiers]]; [done| |done]. apply Forall_cons in Hok as [Ht _].
  destruct (tier_parts t Ht) as (l & cs & x & y & Hp). pose proof Hp as [Hl Hcs _ _ [Hne _] _].
  assert (cs = []) as -> by (cbn in Hg; congruence). rewrite (lines_written 0 t [] l [] x y) by done.
  cbn [generateExprFromVisualConfig tier_lines join line_text]. rewrite Hl, Hcs. by destruct l.
Qed.

(** ** The tree is an expression of the language *)

Lemma term_part v x : form_number x -> part_ok Tnumber 2 3 (term_node v x).
Proof.
  intros Hx. split; [split; [done|exact Hx]|done| |by apply Nat.leb_le|by apply Nat.leb_le].
  apply unfixed_node; [done|]. repeat constructor; by apply unfixed_node.
Qed.

Lemma terms_part t : tier_writable t -> Forall (part_ok Tnumber 2 3) (tier_terms t).
Proof.
  intros [Hi Ho He _ _]. constructor; [by apply term_part|]. constructor; [by apply term_part|].
  apply Forall_forall. intros n (v & Hv & Hn)%list_elem_of_omap. unfold extra_node in Hn. destruct (feqb _ _); [done|]. injection Hn as <-.
  rewrite Forall_forall in He. by apply term_part, He.
Qed.

Lemma terms_count t : length (tier_terms t) <= 9.
Proof.
  unfold tier_terms. pose proof (omap_length (extra_node t) BILLING_EXTRA_VARS) as Hn.
  assert (length BILLING_EXTRA_VARS = 7) as E by done. rewrite E in Hn. cbn [length]. lia.
Qed.

Lemma flat_tier_part t : tier_writable t -> part_ok Tnumber 4 13 (flat_tier t).
Proof.
  intros Hw. apply (part_weaken _ 4 _ (4 + length (tier_terms t))); [done|pose proof (terms_count t); lia|].
  apply sum_part; [done|apply terms_high|by apply terms_part].
Qed.

Lemma bound_part c : condition_ok c -> form_number (bound_of c) -> part_ok Tboolean 2 3 (bound_node c).
Proof.
  intros Hc Hx. destruct (condition_tree c Hc) as (_ & _ & Hin & _). unfold bound_node. revert Hin. generalize (op_of (ci_op c)). intros o Hin.
  assert (unfixed (Binary sp0 o (Var sp0 (var_of (ci_var c))) (num_node (bound_of c)))) as Hu.
  { apply unfixed_node; [done|]. repeat constructor; by apply unfixed_node. }
  repeat (apply elem_of_cons in Hin as [->|Hin]; [split; [split; [done|exact Hx]|done|done|by apply Nat.leb_le|by apply Nat.leb_le]|]). by apply elem_of_nil in Hin.
Qed.

Lemma bounds_part cs : cs <> [] -> Forall condition_ok cs -> Forall (fun c => form_number (bound_of c)) cs ->
  part_ok Tboolean 3 (3 + length cs) (chain_of Band (bound_node <$> cs)).
Proof.
  intros Hne Hok Hn. rewrite <- (length_fmap bound_node cs).
  apply (chain_part Band); [by destruct cs|by apply bounds_high|apply infer_and|].
  apply Forall_fmap. rewrite Forall_forall in *. intros c Hc. apply bound_part; auto.
Qed.

Lemma flat_tree_part tiers w : Forall tier_ok tiers -> Forall tier_writable tiers -> guarded_tiers tiers ->
  Forall (fun t => length (conditions_of t) <= w) tiers ->
  part_ok Tnumber (length tiers + 3) (length tiers + w + 13) (flat_tree tiers).
Proof.
  intros Hok Hw. revert Hok. induction Hw as [|t tiers Ht Hw IH]; intros Hok Hg Hlen; [done|].
  apply Forall_cons in Hok as [Hokt Hok]. apply Forall_cons in Hlen as [Hlt Hlen]. destruct (flat_tier_part t Ht) as [T1 T2 T3 T4 T5].
  destruct tiers as [|t2 tiers]; [split; (done || simpl in *; lia)|]. destruct Hg as [Hne Hg].
  destruct (IH Hok Hg Hlen) as [R1 R2 R3 R4 R5]. destruct (to_conditions _ Hokt) as (cs & Hcs & Hcok).
  assert (conditions_of t = cs) as Ec by (unfold conditions_of; by rewrite Hcs). pose proof (tw_bounds _ Ht) as Hb. rewrite Ec in *.
  assert (cs <> []) as Hcs0 by (intros ->; done).
  destruct (bounds_part cs Hcs0 Hcok Hb) as [C1 C2 C3 C4 C5]. rewrite flat_tree_cons, Ec. split.
  - done.
  - cbn [infer]. by rewrite C2, T2, R2.
  - apply unfixed_node; [done|]. by repeat constructor.
  - cbn [body_levels]. unfold nested. rewrite (proj2 (Nat.ltb_ge _ 1)) by (pose proof (bounds_prec cs Hcok); lia). cbn [length] in *. lia.
  - cbn [node_depth]. cbn [length] in *. lia.
Qed.
(** ** Evaluation *)

(** The counts of every token variable: finite, without a sign. *)
Definition counted (toks : list (jstr * jsval)) (count : TokenVariable -> f64) : Prop :=
  forall v, assoc (variable_name v) toks = Some (JNum (count v)) /\ is_finite (count v) = true /\ unsigned (count v).

Section Counts.
Context (count : TokenVariable -> f64).

(** A condition of the form holds of the counts. *)
Definition holds (c : TierConditionInput) : bool :=
  match ci_value c with
  | JNum x =>
      let n := count (var_of (ci_var c)) in
      if jeqb (ci_op c) (js "<") then fltb n x
      else if jeqb (ci_op c) (js "<=") then fleb n x
      else if jeqb (ci_op c) (js ">") then fltb x n
      else fleb x n
  | _ => false
  end.

(** The tier that applies: the first whose conditions hold, or the last. *)
Fixpoint tier_for (tiers : VisualConfig) : option VisualTier :=
  match tiers with
  | [] => None
  | [tier] => Some tier
  | tier :: rest => if forallb holds (conditions_of tier) then Some tier else tier_for rest
  end.

(** What it charges: every count at its price. *)
Definition flat_total (t : VisualTier) : f64 :=
  foldl fadd (fmul (count Vp) (input_cost t))
    (fmul (count Vc) (output_cost t) :: ((fun v => fmul (count (bv_key v)) (extra_cost t v)) <$> BILLING_EXTRA_VARS)).

Section Forward.
Context `{Host} (compiled : CompiledBillingExpression) (context : BillingSimulationContext)
  (header_map : list (jstr * jstr)) (toks : list (jstr * jsval)).
Hypothesis Htoks : BillingRuntime.tokens context = Some toks.
Hypothesis Hcount : counted toks count.

Abbreviation yields := (TaskPreviewFacts.yields compiled context header_map).
Abbreviation outcome := (TaskPreviewFacts.outcome compiled context header_map).
Abbreviation totals := (TaskPreviewFacts.totals compiled context header_map).
Abbreviation decides := (TaskPreviewFacts.decides compiled context header_map).
Abbreviation charges := (TaskPreviewFacts.charges compiled context header_map).
Abbreviation deeper s := (set_depth (S (rt_depth s)) s).

Lemma yields_variable v : yields 1 (Var sp0 v) (number_value (count v) false).
Proof using Htoks Hcount.
  intros m s Hm Hd. destruct m as [|sp v'| | | |]; try done. cbn [strip] in Hm. injection Hm as ->.
  destruct (Hcount v) as (Ha & Hf & Hu).
  assert (fltb (count v) fzero = false) as Hneg by (by destruct (count v) as [[]|[]| |[] p e]).
  rewrite (eval_from_node compiled context header_map _ s (number_value (count v) false) (deeper s)); [by rewrite back_up|lia| |by split].
  cbn [evaluateNode]. unfold variable_value. rewrite Htoks. cbn [mbind option_bind]. by rewrite Ha, Hneg.
Qed.

Lemma term_outcome v x : form_number x -> outcome 4 (term_node v x) (fmul (count v) x).
Proof using Htoks Hcount.
  intros Hx. pose proof (arith_outcome compiled context header_map 1 Bmul (Var sp0 v) (num_node x) (count v) false x (number_flag x)) as Ho.
  specialize (Ho ltac:(right; by left) ltac:(done) (yields_variable v) (yields_number compiled context header_map 1 x Hx ltac:(lia))).
  unfold TaskPreviewFacts.outcome in *. cbn [arith] in Ho. unfold term_node. destruct (is_finite (fmul (count v) x)).
  - eapply yields_weaken, Ho. lia.
  - eapply fails_weaken, Ho. lia.
Qed.

Lemma decides_bound c : condition_ok c -> form_number (bound_of c) -> decides 3 (bound_node c) (holds c).
Proof using Htoks Hcount.
  intros Hc Hx. destruct (condition_tree c Hc) as (_ & Hop & Hin & Hval).
  apply (decides_boolean compiled context header_map). unfold bound_node.
  assert (compare_values (op_of (ci_op c)) (JNum (count (var_of (ci_var c)))) (JNum (bound_of c)) = Some (holds c)) as Hcmp.
  { unfold holds. rewrite Hval, <- Hop. revert Hin. generalize (op_of (ci_op c)). intros o Hin.
    repeat (apply elem_of_cons in Hin as [->|Hin]; [reflexivity|]). by apply elem_of_nil in Hin. }
  intros m s (sp & l & r & -> & El & Er)%binary_shape Hd.
  rewrite (eval_from_node compiled context header_map _ s (plain (JBool (holds c))) (deeper s)); [by rewrite back_up|lia| |done].
  revert Hin Hcmp. generalize (op_of (ci_op c)). intros o Hin Hcmp.
  assert (evaluateNode compiled context header_map (evaluate compiled context header_map) (Binary sp o l r) (deeper s)
    = (a <- evaluate compiled context header_map l ;; b <- evaluate compiled context header_map r ;; apply_binary sp o a b)%jsm (deeper s)) as ->.
  { repeat (apply elem_of_cons in Hin as [->|Hin]; [done|]). by apply elem_of_nil in Hin. }
  unfold st_bind. rewrite (yields_variable _ l _ El) by (simpl; lia).
  rewrite (yields_number compiled context header_map 1 _ Hx ltac:(lia) r _ Er) by (simpl; lia).
  unfold apply_binary. cbn [rv_value number_value].
  repeat (apply elem_of_cons in Hin as [->|Hin]; [by rewrite Hcmp|]). by apply elem_of_nil in Hin.
Qed.

Lemma decides_bounds cs : cs <> [] -> Forall condition_ok cs -> Forall (fun c => form_number (bound_of c)) cs ->
  decides (2 + length cs) (chain_of Band (bound_node <$> cs)) (forallb holds cs).
Proof using Htoks Hcount.
  intros Hne Hok Hn. pose proof (decides_all compiled context header_map (bound_node <$> cs) (holds <$> cs)) as Hd. rewrite length_fmap in Hd.
  replace (forallb id (holds <$> cs)) with (forallb holds cs) in Hd by (clear; induction cs as [|c cs IH]; [done|]; cbn; by rewrite IH).
  apply Hd; [by destruct cs|]. apply Forall2_fmap, Forall_Forall2_diag. rewrite Forall_forall in *. intros c Hc. apply decides_bound; auto.
Qed.

(** The terms that are written add up to those of all variables. *)
Lemma terms_add_up t vars x : unsigned x -> Forall (fun v => form_number (extra_cost t v)) vars ->
  exists xs, Forall2 (outcome 4) (omap (extra_node t) vars) xs /\
    foldl fadd x xs = foldl fadd x ((fun v => fmul (count (bv_key v)) (extra_cost t v)) <$> vars).
Proof using Htoks Hcount.
  intros Hx Hv. revert x Hx. induction Hv as [|v vars Hv _ IH]; intros x Hx; [by exists []|]. cbn [omap list_omap fmap list_fmap foldl].
  destruct (Hcount (bv_key v)) as (_ & Hf & Hu). unfold extra_node at 1. destruct (feqb (extra_cost t v) fzero) eqn:Ez.
  - destruct (IH x Hx) as (xs & Hall & E). exists xs. split; [exact Hall|].
    assert (extra_cost t v = fzero) as ->.
    { apply zero_price; [|done]. destruct Hv as (H1 & H2 & H3 & H4 & _). by split. }
    by rewrite mul_zero, add_zero.
  - destruct (IH (fadd x (fmul (count (bv_key v)) (extra_cost t v)))) as (xs & Hall & E).
    { apply unsigned_add; [done|]. apply unsigned_mul; [done|by apply form_unsigned]. }
    exists (fmul (count (bv_key v)) (extra_cost t v) :: xs). split; [|exact E]. constructor; [by apply term_outcome|exact Hall].
Qed.

Lemma terms_charge label t vars : form_number (input_cost t) -> form_number (output_cost t) ->
  Forall (fun v => form_number (extra_cost t v)) vars ->
  charges (S (5 + length (omap (extra_node t) vars)))
    (tier_node label (chain_of Badd (term_node Vp (input_cost t) :: term_node Vc (output_cost t) :: omap (extra_node t) vars)))
    (foldl fadd (fmul (count Vp) (input_cost t))
      (fmul (count Vc) (output_cost t) :: ((fun v => fmul (count (bv_key v)) (extra_cost t v)) <$> vars))) label.
Proof using Htoks Hcount.
  intros Hi Ho He. pose proof (fun v x (Hx : form_number x) => unsigned_mul _ _ (proj2 (proj2 (Hcount v))) (form_unsigned x Hx)) as Hun.
  destruct (terms_add_up t vars (fadd (fmul (count Vp) (input_cost t)) (fmul (count Vc) (output_cost t)))) as (xs & Hall & E);
    [apply unsigned_add; by apply Hun|exact He|].
  apply tier_charges; [|lia]. cbn [foldl]. rewrite <- E.
  apply (sum_totals compiled context header_map 4 (term_node Vp (input_cost t)) (term_node Vc (output_cost t) :: omap (extra_node t) vars)
    (fmul (count Vp) (input_cost t)) (fmul (count Vc) (output_cost t) :: xs));
    [lia|by apply outcome_totals, term_outcome|]. constructor; [by apply term_outcome|exact Hall].
Qed.

Lemma flat_tier_charges t : tier_writable t -> charges 14 (flat_tier t) (flat_total t) (default [] (vt_label t)).
Proof using Htoks Hcount.
  intros [Hi Ho He _ _]. eapply charges_weaken; [|exact (terms_charge (default [] (vt_label t)) t BILLING_EXTRA_VARS Hi Ho He)].
  pose proof (terms_count t) as Hn. unfold tier_terms in Hn. cbn [length] in Hn. lia.
Qed.

Lemma flat_tree_charges tiers t w : Forall tier_ok tiers -> Forall tier_writable tiers -> guarded_tiers tiers ->
  Forall (fun t => length (conditions_of t) <= w) tiers -> tier_for tiers = Some t ->
  charges (length tiers + w + 14) (flat_tree tiers) (flat_total t) (default [] (vt_label t)).
Proof using Htoks Hcount.
  intros Hok Hw. revert Hok. induction Hw as [|t1 tiers Hw1 Hw IH]; intros Hok Hg Hlen Ht; [done|].
  apply Forall_cons in Hok as [Hok1 Hok]. apply Forall_cons in Hlen as [Hlen1 Hlen]. pose proof (flat_tier_charges t1 Hw1) as H1.
  destruct tiers as [|t2 tiers].
  { injection Ht as <-. eapply charges_weaken, H1. lia. }
  destruct Hg as [Hne Hg]. rewrite flat_tree_cons. destruct (to_conditions _ Hok1) as (cs & Hcs & Hcok).
  assert (conditions_of t1 = cs) as Ec by (unfold conditions_of; by rewrite Hcs). pose proof (tw_bounds _ Hw1) as Hb. rewrite Ec in *.
  assert (cs <> []) as Hcs0 by (intros ->; done). change (tier_for (t1 :: t2 :: tiers)) with
    (if forallb holds (conditions_of t1) then Some t1 else tier_for (t2 :: tiers)) in Ht. rewrite Ec in Ht.
  cbn [length]. rewrite !Nat.add_succ_l. apply (conditional_charges compiled context header_map) with (forallb holds cs).
  - eapply decides_weaken; [|by apply decides_bounds]. lia.
  - destruct (forallb holds cs).
    + injection Ht as <-. eapply charges_weaken, H1. lia.
    + eapply charges_weaken; [|by apply IH]. cbn [length]. lia.
Qed.
End Forward.
End Counts.
(** ** The estimator *)

(** The counts that the estimator passes to the engine. *)
Definition estimator_count (promptTokens completionTokens : f64) (extra : ExtraTokenValues) (v : TokenVariable) : f64 :=
  match v with
  | Vp => promptTokens
  | Vc => completionTokens
  | Vlen => fadd (fadd (fadd promptTokens (cacheReadTokens extra)) (cacheCreateTokens extra)) (cacheCreate1hTokens extra)
  | Vcr => cacheReadTokens extra
  | Vcc => cacheCreateTokens extra
  | Vcc1h => cacheCreate1hTokens extra
  | Vimg => imageTokens extra
  | Vimg_o => imageOutputTokens extra
  | Vai => audioInputTokens extra
  | Vao => audioOutputTokens extra
  end.

(** The limits of the parser and of the engine. *)
Record flat_writable (tiers : VisualConfig) : Prop := {
  fw_ok : Forall tier_ok tiers;
  fw_guarded : guarded_tiers tiers;
  fw_numbers : Forall tier_writable tiers;
  fw_tiers : length tiers <= 120;
  fw_conditions : Forall (fun t => length (conditions_of t) <= 60) tiers;
  fw_tokens : length (body_tokens (flat_tree tiers)) < 100 * 100;
  fw_length : length (generateExprFromVisualConfig tiers) <= Nat.pow 2 16;
}.

Lemma flat_compiles tiers : flat_writable tiers ->
  exists c, compile (generateExprFromVisualConfig tiers) = Ready c /\ strip (c_ast c) = strip (flat_tree tiers).
Proof.
  intros [Hok Hg Hw Ht Hc Htk Hl]. destruct (flat_tree_part tiers 60 Hok Hw Hg Hc) as [P1 P2 P3 P4 P5].
  apply (compile_reads_text _ _ Tnumber); [|lia|done|done]. rewrite flat_text in * by done. split; [done|lia|done|done|].
  pose proof (lines_print tiers 0 Hok Hw Hg [] [] I laid_end) as Hp. by rewrite !app_nil_r in Hp.
Qed.

Lemma strip_flat tiers : Forall tier_ok tiers -> guarded_tiers tiers -> strip (flat_tree tiers) = flat_tree tiers.
Proof.
  assert (forall t, strip (flat_tier t) = flat_tier t) as Hflat.
  { intros t. unfold flat_tier, tier_node. cbn [strip map str_node]. rewrite strip_sum; [done|done|].
    repeat (constructor; [done|]). apply Forall_forall. intros n (v & _ & Hn)%list_elem_of_omap. unfold extra_node in Hn.
    destruct (feqb _ _); [done|]. by injection Hn as <-. }
  intros Hok. induction Hok as [|t tiers Ht _ IH]; intros Hg; [done|]. destruct tiers as [|t2 tiers]; [apply Hflat|]. destruct Hg as [Hne Hg].
  rewrite flat_tree_cons. cbn [strip]. rewrite Hflat, IH, strip_sum; [done| |by apply Forall_fmap, Forall_true|done].
  destruct (to_conditions _ Ht) as (cs & Hcs & _). unfold conditions_of. rewrite Hcs. destruct cs; [by rewrite Hcs in Hne|done].
Qed.

Lemma tier_for_some count tiers : tiers <> [] -> exists t, tier_for count tiers = Some t.
Proof.
  induction tiers as [|t tiers IH]; [done|]. intros _. destruct tiers as [|t2 tiers]; [by eexists|].
  change (tier_for count (t :: t2 :: tiers)) with (if forallb (holds count) (conditions_of t) then Some t else tier_for count (t2 :: tiers)).
  destruct (forallb _ _); [by eexists|by apply IH].
Qed.

Lemma check_tokens_billable entries : Forall (fun e => exists x, billable (snd e) = Some x) entries -> check_tokens entries = Ok tt.
Proof. induction 1 as [|[k v] l [x Hx] _ IH]; [done|]. cbn [check_tokens]. cbn [snd] in Hx. by rewrite Hx. Qed.

Section Estimator.
Context (p c : f64) (extra : ExtraTokenValues).
Abbreviation count := (estimator_count p c extra).
Hypothesis Hcounts : forall v, is_finite (count v) = true /\ unsigned (count v).

Lemma estimator_counted : counted (buildEstimatorTokens p c extra) count.
Proof using Hcounts. intros v. split; [by destruct v|apply Hcounts]. Qed.

Lemma estimator_billable : check_tokens (buildEstimatorTokens p c extra) = Ok tt.
Proof using Hcounts.
  assert (forall v, billable (JNum (count v)) = Some (count v)) as Hb.
  { intros v. destruct (Hcounts v) as [Hf Hu]. unfold billable. rewrite Hf. by destruct (count v) as [[]|[]| |[] m e]. }
  apply check_tokens_billable. unfold buildEstimatorTokens, ESTIMATOR_VARS. cbn [app fmap list_fmap fst snd].
  constructor; [exists p; exact (Hb Vp)|]. constructor; [exists c; exact (Hb Vc)|]. constructor; [eexists; exact (Hb Vlen)|].
  constructor; [eexists; exact (Hb Vcr)|]. constructor; [eexists; exact (Hb Vcc)|]. constructor; [eexists; exact (Hb Vcc1h)|].
  constructor; [eexists; exact (Hb Vimg)|]. constructor; [eexists; exact (Hb Vimg_o)|]. constructor; [eexists; exact (Hb Vai)|].
  constructor; [eexists; exact (Hb Vao)|constructor].
Qed.

Lemma generated_solid tiers : flat_writable tiers -> trim (generateExprFromVisualConfig tiers) <> [].
Proof using Type.
  intros [Hok Hg _ _ _ _ _]. rewrite flat_text by done. destruct tiers as [|t tiers]; [done|]. apply Forall_cons in Hok as [Ht _].
  destruct (tier_parts t Ht) as (l & cs & x & y & Hp). pose proof (part_conditions _ _ _ _ _ Hp) as Hcs.
  rewrite (lines_written 0 t tiers l cs x y Ht Hp); cycle 1.
  { intros Hne ->. destruct tiers; [done|]. by destruct Hg as [Hg _]. }
  { intros ->. cbn in Hg. congruence. }
  rewrite join_head. destruct cs as [|c0 cs]; [by apply trim_solid|].
  pose proof (part_conditions_ok _ _ _ _ _ Hp) as [Hc _]%Forall_cons. destruct (conditions_nonempty c0 cs Hc) as (d & u & E & Hd).
  unfold line_text. rewrite E. apply trim_solid. by destruct Hd as [->|[->| ->]].
Qed.

(** C16: The estimator shows what the form means: evaluated on token counts that
    are finite and not negative (nor the negative zero), the expression written for a configuration
    charges, for the first tier whose conditions hold of the counts (the last one
    otherwise), the sum of every count at that tier's price, and names the tier;
    it reports an error exactly when that sum is not a finite number. This is for
    configurations of one tier without conditions, or of several of which every one
    but the last has conditions and the last has none, whose tiers are those that the
    form reads back (no unit, no fixed price, prices finite and not negative, a cache
    mode that goes with its prices), with labels that need no escape and numbers that
    are read as they are printed, within the limits of the parser: at most 120 tiers,
    60 conditions in a tier, fewer than 10000 tokens, at most 65536 characters
    ([flat_writable]). *)
Theorem tier_form_charges `{Host} tiers : flat_writable tiers ->
  exists t, tier_for count tiers = Some t /\
    let result := evalExprLocally (generateExprFromVisualConfig tiers) p c extra None in
    if usable_number (flat_total count t)
    then result = {| er_cost := flat_total count t; er_matchedTier := default [] (vt_label t); er_error := None; er_billingUnit := None |}
    else exists e, result = {| er_cost := fzero; er_matchedTier := []; er_error := Some e; er_billingUnit := None |}.
Proof using Hcounts.
  intros Hw. pose proof Hw as [Hok Hg Hn Ht Hcs _ _]. destruct (tier_for_some count tiers) as [t Hfor]; [by destruct tiers|].
  exists t. split; [done|]. cbv zeta. unfold evalExprLocally. pose proof (generated_solid tiers Hw) as Hs.
  destruct (trim (generateExprFromVisualConfig tiers)) as [|d u]; [done|]. clear Hs d u.
  destruct (flat_compiles tiers Hw) as (compiled & -> & Hst). rewrite strip_flat in Hst by done.
  set (ctx := {| BillingRuntime.tokens := _; request := _; usage := _; ctx_now := _ |}).
  pose proof (fun hm => flat_tree_charges count compiled ctx hm (buildEstimatorTokens p c extra) eq_refl estimator_counted tiers t 60 Hok Hn Hg Hcs Hfor) as Hch.
  rewrite <- Hst in Hch. apply (charged_result compiled ctx) in Hch; [|split; [done|exact estimator_billable]|lia].
  destruct (evaluateBillingExpression (Ready compiled) ctx) as [cost u price label rules|f].
  - by destruct Hch as (-> & -> & -> & _ & ->).
  - rewrite Hch. by eexists.
Qed.
End Estimator.
(** ** A sample *)

Definition sample_counts : ExtraTokenValues :=
  {| cacheReadTokens := dec "1000"; cacheCreateTokens := fzero; cacheCreate1hTokens := dec "500"; imageTokens := fzero;
     imageOutputTokens := fzero; audioInputTokens := fzero; audioOutputTokens := fzero |}.

Lemma sample_counts_ok v : is_finite (estimator_count (dec "2000") (dec "100") sample_counts v) = true /\
  unsigned (estimator_count (dec "2000") (dec "100") sample_counts v).
Proof. destruct v; split; vm_compute; reflexivity. Qed.

#[local] Instance f64_eq_decision : EqDecision spec_float.
Proof. solve_decision. Defined.

Lemma sample_tier_writable t : t ∈ flat_sample -> tier_writable t.
Proof.
  assert (forall x, bool_decide (x ∈ [fzero; dec "0.3"; dec "6"; dec "3"; dec "15"; dec "22.5"; dec "200000"]) = true -> form_number x) as Hnum.
  { intros x Hx%bool_decide_eq_true. repeat (apply elem_of_cons in Hx as [->|Hx]; [number_by_computation|]). by apply elem_of_nil in Hx. }
  intros Ht. repeat (apply elem_of_cons in Ht as [->|Ht];
    [split; [apply Hnum; by vm_compute|apply Hnum; by vm_compute
      |apply Forall_forall; intros v Hv%list_elem_of_In; apply Hnum; revert v Hv; apply forallb_forall; by vm_compute
      |by repeat (constructor; [apply Hnum; by vm_compute|])
      |intros l [= <-]; vm_compute; reflexivity]|]). by apply elem_of_nil in Ht.
Qed.

Lemma sample_flat_writable : flat_writable flat_sample.
Proof.
  split; [exact flat_sample_ok|exact flat_sample_guarded|apply Forall_forall, sample_tier_writable|by apply Nat.leb_le| |by apply Nat.ltb_lt|by apply Nat.leb_le].
  repeat constructor; by apply Nat.leb_le.
Qed.

Lemma tier_form_charges_witness :
  number_to_string (er_cost (evalExprLocally (H := utc_host) (generateExprFromVisualConfig flat_sample) (dec "2000") (dec "100") sample_counts None))
  = js "10800" /\
  exists t, tier_for (estimator_count (dec "2000") (dec "100") sample_counts) flat_sample = Some t /\
    let result := evalExprLocally (H := utc_host) (generateExprFromVisualConfig flat_sample) (dec "2000") (dec "100") sample_counts None in
    if usable_number (flat_total (estimator_count (dec "2000") (dec "100") sample_counts) t)
    then result = {| er_cost := flat_total (estimator_count (dec "2000") (dec "100") sample_counts) t;
                     er_matchedTier := default [] (vt_label t); er_error := None; er_billingUnit := None |}
    else exists e, result = {| er_cost := fzero; er_matchedTier := []; er_error := Some e; er_billingUnit := None |}.
Proof.
  split; [vm_compute; reflexivity|].
  exact (tier_form_charges (dec "2000") (dec "100") sample_counts sample_counts_ok (H := utc_host) flat_sample sample_flat_writable).
Defined.
End TierChargeFacts.
