(* ===== verification/ChannelCustom.v ===== *)
(** * Channels: custom routes and model mappings

    Model of [features/channels/lib/advanced-custom.ts], the routes of a custom
    channel, and of [features/channels/lib/model-mapping-validation.ts].  A
    configuration may come from JSON that was typed by hand, so the fields of a
    route are JavaScript values; a missing property is [JUndefined].  [None] in
    the result of a function is a [TypeError], such as calling [trim] on a
    number. *)

From stdpp Require Import base list numbers strings.
From Stdlib Require Import ZArith SpecFloat Lia.
From S2P Require Import Prelude.
From S2P Require Import JsString.
From S2P Require Import JsNumber.
From S2P Require Import JsValue.
From S2P Require Import JsJson.
From S2P Require Import JsJsonText.
From S2P Require Import JsCollections.

(** [new URL(text)]: the protocol and the host; [None] when the constructor throws. *)
Class UrlParser := parse_url : jstr -> option (jstr * jstr).

Module Custom.

(** ** Data *)

Record AdvancedCustomRoute := {
  incoming_path : jsval;
  upstream_path : jsval;
  converter : jsval;
  models : jsval;
  auth : jsval;
}.

(** [AdvancedCustomConfig]: its list [advanced_routes]; every reader goes through
    [normalizeAdvancedCustomConfig], which takes a missing list for an empty one. *)
Abbreviation AdvancedCustomConfig := (list AdvancedCustomRoute).

Record AdvancedCustomRouteAuth := { auth_type : jstr; auth_name : jstr; auth_value : jstr }.

Definition auth_js (a : AdvancedCustomRouteAuth) : jsval :=
  JObj [(js "type", JStr (auth_type a)); (js "name", JStr (auth_name a)); (js "value", JStr (auth_value a))].

Record AdvancedCustomValidationError := { message : jstr; routeIndex : option nat }.

Record AdvancedCustomConverterDefaults := { default_upstream_path : jstr; default_auth : AdvancedCustomRouteAuth }.

Definition ADVANCED_CUSTOM_MODEL_LIST_PATH : jstr := js "/v1/models".
Definition ADVANCED_CUSTOM_BALANCE_PATH : jstr := js "/v1/dashboard/billing/credit_grants".
Definition ADVANCED_CUSTOM_MODEL_LIST_LABEL : jstr := js "OpenAI Models".
Definition ADVANCED_CUSTOM_BALANCE_LABEL : jstr := js "Balance Query".
Definition ADVANCED_CUSTOM_MODEL_REGEX_PREFIX : jstr := js "re:".

Definition converter_none : jstr := js "none".
Definition anthropic_to_chat : jstr := js "anthropic_messages_to_openai_chat_completions".
Definition chat_to_anthropic : jstr := js "openai_chat_completions_to_anthropic_messages".
Definition chat_to_responses : jstr := js "openai_chat_completions_to_openai_responses".
Definition responses_to_chat : jstr := js "openai_responses_to_openai_chat_completions".
Definition responses_to_gemini : jstr := js "openai_responses_to_gemini_generate_content".
Definition gemini_to_chat : jstr := js "gemini_generate_content_to_openai_chat_completions".
Definition chat_to_gemini : jstr := js "openai_chat_completions_to_gemini_generate_content".

(** The options with their labels. *)
Definition ADVANCED_CUSTOM_CONVERTER_OPTIONS : list (jstr * jstr * jstr) :=
  [(converter_none, js "Native forwarding", js "Native forwarding");
   (anthropic_to_chat, js "Anthropic Messages to OpenAI Chat", js "To OpenAI Chat");
   (chat_to_anthropic, js "OpenAI Chat to Anthropic Messages", js "To Anthropic Messages");
   (chat_to_responses, js "OpenAI Chat to OpenAI Responses", js "To OpenAI Responses");
   (responses_to_chat, js "OpenAI Responses to OpenAI Chat", js "To OpenAI Chat");
   (responses_to_gemini, js "OpenAI Responses to Gemini Generate Content", js "To Gemini Generate Content");
   (gemini_to_chat, js "Gemini Generate Content to OpenAI Chat", js "To OpenAI Chat");
   (chat_to_gemini, js "OpenAI Chat to Gemini Generate Content", js "To Gemini Generate Content")].

Definition ADVANCED_CUSTOM_AUTH_MODE_OPTIONS : list (jstr * jstr) :=
  [(js "default", js "Default Bearer"); (js "none", js "No Auth"); (js "header", js "Header"); (js "query", js "Query")].

Definition ADVANCED_CUSTOM_INCOMING_PATH_OPTIONS : list (jstr * jstr) :=
  [(js "/v1/chat/completions", js "OpenAI Chat");
   (js "/v1/responses", js "OpenAI Responses");
   (js "/v1/responses/compact", js "OpenAI Responses Compact");
   (js "/v1/alpha/search", js "Codex Alpha Search");
   (js "/v1/embeddings", js "OpenAI Embeddings");
   (js "/v1/images/generations", js "OpenAI Image Generations");
   (js "/v1/images/edits", js "OpenAI Image Edits");
   (js "/v1/completions", js "OpenAI Completions");
   (js "/v1/audio/speech", js "OpenAI Audio Speech");
   (js "/v1/audio/transcriptions", js "OpenAI Audio Transcriptions");
   (js "/v1/audio/translations", js "OpenAI Audio Translations");
   (js "/v1/rerank", js "Rerank");
   (js "/v1/realtime", js "OpenAI Realtime");
   (js "/v1/messages", js "Claude Messages");
   (js "/v1beta/models/{model}:generateContent", js "Gemini Generate Content");
   (js "/v1beta/models/{model}:embedContent", js "Gemini Embed Content");
   (js "/v1beta/models/{model}:batchEmbedContents", js "Gemini Batch Embed Contents")].

Definition ADVANCED_CUSTOM_ROUTE_SUMMARY_LABELS : list (jstr * jstr) :=
  [(js "/v1/chat/completions", js "OpenAI Chat");
   (ADVANCED_CUSTOM_MODEL_LIST_PATH, ADVANCED_CUSTOM_MODEL_LIST_LABEL);
   (ADVANCED_CUSTOM_BALANCE_PATH, ADVANCED_CUSTOM_BALANCE_LABEL)].

Definition openAIChatPath : jstr := js "/v1/chat/completions".
Definition openAIResponsesPath : jstr := js "/v1/responses".
Definition claudeMessagesPath : jstr := js "/v1/messages".
Definition geminiGenerateContentPath : jstr := js "/v1beta/models/{model}:generateContent".

Definition bearerHeaderAuth : AdvancedCustomRouteAuth :=
  {| auth_type := js "header"; auth_name := js "Authorization"; auth_value := js "Bearer {api_key}" |}.
Definition apiKeyHeaderAuth : AdvancedCustomRouteAuth :=
  {| auth_type := js "header"; auth_name := js "x-api-key"; auth_value := js "{api_key}" |}.
Definition geminiQueryAuth : AdvancedCustomRouteAuth :=
  {| auth_type := js "query"; auth_name := js "key"; auth_value := js "{api_key}" |}.

(** ** Templates *)

Definition native_route (a : AdvancedCustomRouteAuth) (path : jstr) : AdvancedCustomRoute :=
  {| incoming_path := JStr path; upstream_path := JStr path; converter := JStr converter_none;
     models := JUndefined; auth := auth_js a |}.

Definition createOpenAINativeRoutes : AdvancedCustomConfig :=
  native_route bearerHeaderAuth <$>
    [js "/v1/chat/completions"; js "/v1/completions"; js "/v1/responses"; js "/v1/responses/compact"; js "/v1/embeddings";
     js "/v1/images/generations"; js "/v1/images/edits"; js "/v1/audio/speech"; js "/v1/audio/transcriptions";
     js "/v1/audio/translations"; js "/v1/realtime"].

Definition createClaudeNativeRoutes : AdvancedCustomConfig := [native_route apiKeyHeaderAuth (js "/v1/messages")].

Definition createGeminiNativeRoutes : AdvancedCustomConfig :=
  native_route geminiQueryAuth <$>
    [js "/v1beta/models/{model}:generateContent"; js "/v1beta/models/{model}:embedContent";
     js "/v1beta/models/{model}:batchEmbedContents"].

Definition createGatewayNativeRoutes : AdvancedCustomConfig :=
  native_route bearerHeaderAuth <$> [js "/v1/alpha/search"; js "/v1/rerank"].

Definition all_routes : AdvancedCustomConfig :=
  createOpenAINativeRoutes ++ createClaudeNativeRoutes ++ createGeminiNativeRoutes ++ createGatewayNativeRoutes.

Definition ADVANCED_CUSTOM_TEMPLATE_OPTIONS : list (jstr * jstr * AdvancedCustomConfig) :=
  [(js "all_protocols", js "All routes", all_routes);
   (js "openai_only", js "OpenAI only", createOpenAINativeRoutes);
   (js "claude_only", js "Claude only", createClaudeNativeRoutes);
   (js "gemini_only", js "Gemini only", createGeminiNativeRoutes)].

(** [structuredClone] of the template's configuration. *)
Definition getAdvancedCustomTemplateConfig (templateKey : jstr) : AdvancedCustomConfig :=
  match List.find (fun option => jeqb (fst (fst option)) templateKey) ADVANCED_CUSTOM_TEMPLATE_OPTIONS with
  | Some option => snd option
  | None => all_routes
  end.

(** ** Normal form *)

(** [text.trim()]; only strings have the method. *)
Definition call_trim (v : jsval) : option jstr := match v with JStr s => Some (trim s) | _ => None end.

(** [value?.trim() || ''] *)
Definition optional_trim (v : jsval) : option jstr := if is_nullish v then Some [] else call_trim v.

(** [value || fallback] *)
Definition or_value (v : jsval) (fallback : jstr) : jsval := if truthy v then v else JStr fallback.

Definition getAdvancedCustomRouteUpstreamPath (route : AdvancedCustomRoute) : option jstr :=
  call_trim (or_value (upstream_path route) []).

(** [models.map((model) => model.trim()).filter(Boolean)], or nothing. *)
Definition normalizeAdvancedCustomRouteModels (v : jsval) : option (list jstr) :=
  match v with
  | JArr items =>
      trimmed ← mapM call_trim items;
      Some (List.filter (fun model => match model with [] => false | _ => true end) trimmed)
  | _ => Some []
  end.

(** [route.auth] with its three properties. *)
Definition normalize_auth (v : jsval) : jsval :=
  if truthy v
  then JObj [(js "type", opt_prop v (js "type")); (js "name", or_value (opt_prop v (js "name")) []);
             (js "value", or_value (opt_prop v (js "value")) [])]
  else JUndefined.

Definition normalizeAdvancedCustomRoute (route : AdvancedCustomRoute) : option AdvancedCustomRoute :=
  upstreamPath ← getAdvancedCustomRouteUpstreamPath route;
  routeModels ← normalizeAdvancedCustomRouteModels (models route);
  Some {| incoming_path := or_value (incoming_path route) [];
          upstream_path := JStr upstreamPath;
          converter := or_value (converter route) converter_none;
          models := match routeModels with [] => JUndefined | _ => JArr (JStr <$> routeModels) end;
          auth := normalize_auth (auth route) |}.

Definition normalizeAdvancedCustomConfig (config : AdvancedCustomConfig) : option AdvancedCustomConfig :=
  mapM normalizeAdvancedCustomRoute config.

(** ** Text *)

(** The properties of a route; reading one of [null] or [undefined] throws. *)
Definition route_of_js (v : jsval) : option AdvancedCustomRoute :=
  incoming ← prop v (js "incoming_path");
  Some {| incoming_path := incoming; upstream_path := opt_prop v (js "upstream_path");
          converter := opt_prop v (js "converter"); models := opt_prop v (js "models"); auth := opt_prop v (js "auth") |}.

(** The object of a route; the properties that are not set are [undefined]. *)
Definition route_js (route : AdvancedCustomRoute) : jsval :=
  JObj [(js "incoming_path", incoming_path route); (js "upstream_path", upstream_path route);
        (js "converter", converter route); (js "models", models route); (js "auth", auth route)].

Definition config_js (config : AdvancedCustomConfig) : jsval :=
  JObj [(js "advanced_routes", JArr (route_js <$> config))].

(** The text is that of the editor, whose value may be missing; [None]: [null]. *)
Definition parseAdvancedCustomConfig (value : option jstr) : option AdvancedCustomConfig :=
  match trim (default [] value) with
  | [] => None
  | _ =>
      parsed ← json_parse (default [] value);
      match parsed with
      | JObj entries =>
          match obj_get entries (js "advanced_routes") with
          | JArr items => routes ← mapM route_of_js items; normalizeAdvancedCustomConfig routes
          | _ => Some []
          end
      | _ => None
      end
  end.

Definition stringifyAdvancedCustomConfig (config : AdvancedCustomConfig) : option jstr :=
  normalized ← normalizeAdvancedCustomConfig config;
  Some (json_text (js "  ") [] (config_js normalized)).

Definition nonempty (s : jstr) : bool := match s with [] => false | _ => true end.

Definition parseAdvancedCustomRouteModels (value : jstr) : list jstr :=
  uniq (List.filter nonempty (trim <$> split_on 44 value)).

Definition is_regex_rule (modelRule : jstr) : bool := starts_with ADVANCED_CUSTOM_MODEL_REGEX_PREFIX modelRule.
Definition getAdvancedCustomModelRuleKind (modelRule : jstr) : jstr :=
  if is_regex_rule modelRule then js "regex" else js "exact".
Definition getAdvancedCustomRegexModelPattern (modelRule : jstr) : jstr :=
  drop (length ADVANCED_CUSTOM_MODEL_REGEX_PREFIX) modelRule.

(** ** Converters *)

Definition isConverterPathAllowed (incomingPath conv : jstr) : bool :=
  if jeqb conv converter_none then true
  else if jeqb incomingPath (js "/v1/alpha/search") then false
  else if jeqb conv anthropic_to_chat then jeqb incomingPath (js "/v1/messages")
  else if jeqb conv chat_to_anthropic || jeqb conv chat_to_responses || jeqb conv chat_to_gemini
  then jeqb incomingPath (js "/v1/chat/completions")
  else if jeqb conv responses_to_chat then jeqb incomingPath (js "/v1/responses")
  else if jeqb conv responses_to_gemini then jeqb incomingPath (js "/v1/responses")
  else includes incomingPath (js ":generateContent") || includes incomingPath (js ":streamGenerateContent").

Definition isAdvancedCustomIncomingPathAllowed (incomingPath conv : jstr) : bool := isConverterPathAllowed incomingPath conv.

Definition isAdvancedCustomConverter (value : jsval) : bool :=
  existsb (fun option => strict_eq (JStr (fst (fst option))) value) ADVANCED_CUSTOM_CONVERTER_OPTIONS.

Definition getAdvancedCustomIncomingPathOptions (conv : jstr) : list (jstr * jstr) :=
  List.filter (fun option => isConverterPathAllowed (fst option) conv) ADVANCED_CUSTOM_INCOMING_PATH_OPTIONS.

Definition getDefaultAdvancedCustomIncomingPath (conv : jstr) : jstr :=
  match getAdvancedCustomIncomingPathOptions conv with
  | (((_ :: _) as value), _) :: _ => value
  | _ => js "/v1/chat/completions"
  end.

Definition getAdvancedCustomConverterOptions (incomingPath : jstr) : list (jstr * jstr * jstr) :=
  List.filter (fun option => jeqb (fst (fst option)) converter_none || isConverterPathAllowed (trim incomingPath) (fst (fst option)))
    ADVANCED_CUSTOM_CONVERTER_OPTIONS.

(** [value || fallback] on texts *)
Definition text_else (value fallback : jstr) : jstr := if nonempty value then value else fallback.

Definition getAdvancedCustomIncomingPathLabel (value : jstr) : jstr :=
  match List.find (fun option => jeqb (fst option) value) ADVANCED_CUSTOM_INCOMING_PATH_OPTIONS with
  | Some option => text_else (snd option) value
  | None => value
  end.

Definition getAdvancedCustomNativeAuth (incomingPath : jstr) : AdvancedCustomRouteAuth :=
  if jeqb incomingPath claudeMessagesPath then apiKeyHeaderAuth
  else if includes incomingPath (js ":generateContent") || includes incomingPath (js ":streamGenerateContent")
          || includes incomingPath (js ":embedContent") || includes incomingPath (js ":batchEmbedContents")
  then geminiQueryAuth
  else bearerHeaderAuth.

Definition getAdvancedCustomConverterDefaults (conv incomingPath : jstr) : AdvancedCustomConverterDefaults :=
  let normalizedIncomingPath := text_else (trim incomingPath) (getDefaultAdvancedCustomIncomingPath conv) in
  if jeqb conv converter_none
  then {| default_upstream_path := normalizedIncomingPath; default_auth := getAdvancedCustomNativeAuth normalizedIncomingPath |}
  else if jeqb conv anthropic_to_chat || jeqb conv gemini_to_chat || jeqb conv responses_to_chat
  then {| default_upstream_path := openAIChatPath; default_auth := bearerHeaderAuth |}
  else if jeqb conv chat_to_responses
  then {| default_upstream_path := openAIResponsesPath; default_auth := bearerHeaderAuth |}
  else if jeqb conv chat_to_anthropic
  then {| default_upstream_path := claudeMessagesPath; default_auth := apiKeyHeaderAuth |}
  else if jeqb conv chat_to_gemini || jeqb conv responses_to_gemini
  then {| default_upstream_path := geminiGenerateContentPath; default_auth := geminiQueryAuth |}
  else {| default_upstream_path := text_else normalizedIncomingPath openAIChatPath;
          default_auth := getAdvancedCustomNativeAuth normalizedIncomingPath |}.

Definition getAdvancedCustomUpstreamPathPlaceholder (conv : jstr) (incomingPath : option jstr) : jstr :=
  default_upstream_path
    (getAdvancedCustomConverterDefaults conv (default (getDefaultAdvancedCustomIncomingPath conv) incomingPath)).

Definition createAdvancedCustomRoute : AdvancedCustomRoute :=
  {| incoming_path := JStr openAIChatPath; upstream_path := JStr openAIChatPath; converter := JStr converter_none;
     models := JUndefined; auth := JUndefined |}.

Definition createAdvancedCustomConfig : AdvancedCustomConfig := [createAdvancedCustomRoute].

Definition createAdvancedCustomManagementRoute (path : jstr) : AdvancedCustomRoute :=
  {| incoming_path := JStr path; upstream_path := JStr path; converter := JStr converter_none;
     models := JArr []; auth := JUndefined |}.

(** ** Management routes *)

Definition isAdvancedCustomManagementPath (path : jstr) : bool :=
  jeqb path ADVANCED_CUSTOM_MODEL_LIST_PATH || jeqb path ADVANCED_CUSTOM_BALANCE_PATH.

(** [route.incoming_path?.trim() || ''] *)
Definition route_path (route : AdvancedCustomRoute) : option jstr := optional_trim (incoming_path route).

(** [routes.findIndex(test)]: the routes after the one that is found are not tested. *)
Fixpoint find_index (test : AdvancedCustomRoute -> option bool) (routes : AdvancedCustomConfig) : option (option nat) :=
  match routes with
  | [] => Some None
  | route :: rest =>
      found ← test route;
      if (found : bool) then Some (Some 0) else i ← find_index test rest; Some (option_map S i)
  end.

(** [routes.filter(test)] *)
Fixpoint filter_routes (test : AdvancedCustomRoute -> option bool) (routes : AdvancedCustomConfig) : option AdvancedCustomConfig :=
  match routes with
  | [] => Some []
  | route :: rest =>
      kept ← test route;
      others ← filter_routes test rest;
      Some (if (kept : bool) then route :: others else others)
  end.

Definition at_path (path : jstr) (route : AdvancedCustomRoute) : option bool := (fun p => jeqb p path) <$> route_path route.
Definition is_management (route : AdvancedCustomRoute) : option bool := isAdvancedCustomManagementPath <$> route_path route.
Definition is_forwarding (route : AdvancedCustomRoute) : option bool := negb <$> is_management route.

Definition getAdvancedCustomManagementRoute (config : AdvancedCustomConfig) (path : jstr) : option (option AdvancedCustomRoute) :=
  routes ← normalizeAdvancedCustomConfig config;
  index ← find_index (at_path path) routes;
  Some (i ← index; routes !! (i : nat)).

Definition replaceAdvancedCustomManagementRoute (config : AdvancedCustomConfig) (path : jstr) (route : option AdvancedCustomRoute)
    : option AdvancedCustomConfig :=
  routes ← normalizeAdvancedCustomConfig config;
  index ← find_index (at_path path) routes;
  Some (match route with
        | None => match index with Some i => delete i routes | None => routes end
        | Some r =>
            let managementRoute := {| incoming_path := JStr path; upstream_path := or_value (upstream_path r) [];
                                      converter := JStr converter_none; models := JArr []; auth := auth r |} in
            match index with Some i => <[i := managementRoute]> routes | None => routes ++ [managementRoute] end
        end).

Definition replaceAdvancedCustomForwardingRoutes (config forwardingRoutes : AdvancedCustomConfig) : option AdvancedCustomConfig :=
  routes ← normalizeAdvancedCustomConfig config;
  firstForwardingIndex ← find_index is_forwarding routes;
  managementRoutes ← filter_routes is_management routes;
  match firstForwardingIndex with
  | None => Some (managementRoutes ++ forwardingRoutes)
  | Some i =>
      before ← filter_routes is_management (take i routes);
      after ← filter_routes is_management (drop i routes);
      Some (before ++ forwardingRoutes ++ after)
  end.

(** ** Validation *)

Section Validation.
Context `{UrlParser}.

Definition isFullHttpURLOrAbsolutePath (value : jstr) : bool :=
  if starts_with (js "/") value then negb (starts_with (js "//") value)
  else match parse_url value with
       | Some (protocol, host) => nonempty host && (jeqb protocol (js "http:") || jeqb protocol (js "https:"))
       | None => false
       end.

(** [None]: it throws; [Some None]: no error. *)
Definition validateRouteAuth (a : jsval) : option (option jstr) :=
  if negb (truthy a) then Some None
  else
    let type := opt_prop a (js "type") in
    if strict_eq type (JStr (js "none")) then Some None
    else if negb (strict_eq type (JStr (js "header"))) && negb (strict_eq type (JStr (js "query")))
    then Some (Some (js "Auth type is invalid"))
    else
      name ← optional_trim (opt_prop a (js "name"));
      if negb (nonempty name) then Some (Some (js "Auth name is required"))
      else
        value ← optional_trim (opt_prop a (js "value"));
        if negb (nonempty value) then Some (Some (js "Auth value is required")) else Some None.

(** What is known of the routes of one incoming path. *)
Record PathModels := { catchAllIndex : option nat; rule_indices : list (jstr * nat) }.

Record loop_state := {
  routeModelsByPath : list (jstr * PathModels);
  modelListRouteIndex : option nat;
  balanceRouteIndex : option nat;
}.

Definition failure (index : nat) (text : jstr) : AdvancedCustomValidationError :=
  {| message := text; routeIndex := Some index |}.

(** The loop over the rules of a route. *)
Fixpoint check_rules (index : nat) (rules seenInRoute : list jstr) (known : list (jstr * nat))
    : AdvancedCustomValidationError + list (jstr * nat) :=
  match rules with
  | [] => inr known
  | model :: rest =>
      if is_regex_rule model && negb (nonempty (getAdvancedCustomRegexModelPattern model))
      then inl (failure index (js "Model regex cannot be empty"))
      else if bool_decide (model ∈ seenInRoute) then inl (failure index (js "Duplicate model in route models"))
      else match mget model known with
           | Some _ => inl (failure index (js "Route models must be unique for the same incoming path"))
           | None => check_rules index rest (model :: seenInRoute) (mset model index known)
           end
  end.

Definition validateAdvancedCustomRouteModels (index : nat) (incomingPath : jstr) (rules : list jstr)
    (byPath : list (jstr * PathModels)) : AdvancedCustomValidationError + list (jstr * PathModels) :=
  let state := default {| catchAllIndex := None; rule_indices := [] |} (mget incomingPath byPath) in
  match rules with
  | [] =>
      match catchAllIndex state with
      | Some _ => inl (failure index (js "Only one catch-all route is allowed for the same incoming path"))
      | None => inr (mset incomingPath {| catchAllIndex := Some index; rule_indices := rule_indices state |} byPath)
      end
  | _ =>
      match catchAllIndex state with
      | Some _ => inl (failure index (js "Catch-all route must be last for the same incoming path"))
      | None =>
          match check_rules index rules [] (rule_indices state) with
          | inl e => inl e
          | inr known => inr (mset incomingPath {| catchAllIndex := None; rule_indices := known |} byPath)
          end
      end
  end.

(** The checks of a management route. *)
Definition validate_management (index : nat) (incomingPath upstreamPath : jstr) (conv : jsval) (rules : list jstr)
    (st : loop_state) : AdvancedCustomValidationError + loop_state :=
  if negb (isAdvancedCustomManagementPath incomingPath) then inr st
  else
    let isModelListRoute := jeqb incomingPath ADVANCED_CUSTOM_MODEL_LIST_PATH in
    let routeLabel := if isModelListRoute then js "OpenAI Models" else js "Balance Query" in
    match (if isModelListRoute then modelListRouteIndex st else balanceRouteIndex st) with
    | Some _ => inl (failure index (js "Only one " ++ routeLabel ++ js " route is allowed"))
    | None =>
        if negb (Nat.eqb (length rules) 0)
        then inl (failure index (routeLabel ++ js " route does not support client model rules"))
        else if negb (strict_eq conv (JStr converter_none))
        then inl (failure index (routeLabel ++ js " route must use native forwarding"))
        else if includes upstreamPath (js "{model}")
        then inl (failure index (routeLabel ++ js " upstream path must not contain {model}"))
        else inr {| routeModelsByPath := routeModelsByPath st;
                    modelListRouteIndex := if isModelListRoute then Some index else modelListRouteIndex st;
                    balanceRouteIndex := if isModelListRoute then balanceRouteIndex st else Some index |}
    end.

(** One turn of the loop over the routes. *)
Definition validate_route (index : nat) (route : AdvancedCustomRoute) (st : loop_state)
    : option (AdvancedCustomValidationError + loop_state) :=
  incomingPath ← route_path route;
  upstreamPath ← getAdvancedCustomRouteUpstreamPath route;
  rules ← normalizeAdvancedCustomRouteModels (models route);
  let conv := or_value (converter route) converter_none in
  if negb (nonempty incomingPath) then Some (inl (failure index (js "Incoming path is required")))
  else if negb (starts_with (js "/") incomingPath) then Some (inl (failure index (js "Incoming path must start with /")))
  else if includes incomingPath (js "?") then Some (inl (failure index (js "Incoming path must not include query")))
  else
    match validate_management index incomingPath upstreamPath conv rules st with
    | inl e => Some (inl e)
    | inr st1 =>
        match validateAdvancedCustomRouteModels index incomingPath rules (routeModelsByPath st1) with
        | inl e => Some (inl e)
        | inr byPath =>
            if negb (nonempty upstreamPath) then Some (inl (failure index (js "Upstream path is required")))
            else if negb (isFullHttpURLOrAbsolutePath upstreamPath)
            then Some (inl (failure index (js "Upstream path must be a full URL or a path starting with /")))
            else if negb (isAdvancedCustomConverter conv)
            then Some (inl (failure index (js "Converter is not registered")))
            else if negb (isConverterPathAllowed incomingPath (match conv with JStr c => c | _ => [] end))
            then Some (inl (failure index (js "Converter does not match incoming path")))
            else
              authError ← validateRouteAuth (auth route);
              Some (match authError with
                    | Some text => inl (failure index text)
                    | None => inr {| routeModelsByPath := byPath; modelListRouteIndex := modelListRouteIndex st1;
                                     balanceRouteIndex := balanceRouteIndex st1 |}
                    end)
        end
    end.

Fixpoint validate_routes (index : nat) (routes : AdvancedCustomConfig) (st : loop_state)
    : option (option AdvancedCustomValidationError) :=
  match routes with
  | [] => Some None
  | route :: rest =>
      outcome ← validate_route index route st;
      match outcome with
      | inl e => Some (Some e)
      | inr st' => validate_routes (S index) rest st'
      end
  end.

Definition no_routes_seen : loop_state :=
  {| routeModelsByPath := []; modelListRouteIndex := None; balanceRouteIndex := None |}.

(** [None]: it throws; [Some None]: the configuration is valid. *)
Definition validateAdvancedCustomConfig (config : option AdvancedCustomConfig) : option (option AdvancedCustomValidationError) :=
  match config with
  | None => Some (Some {| message := js "Advanced custom configuration is required"; routeIndex := None |})
  | Some c =>
      routes ← normalizeAdvancedCustomConfig c;
      match routes with
      | [] => Some (Some {| message := js "Advanced custom configuration requires at least one route"; routeIndex := None |})
      | _ => validate_routes 0 routes no_routes_seen
      end
  end.

Definition is_some_index (i : option nat) : bool := match i with Some _ => true | None => false end.

Definition hasValidAdvancedCustomModelListRoute (config : option AdvancedCustomConfig) : option bool :=
  match config with
  | None => Some false
  | Some c =>
      error ← validateAdvancedCustomConfig config;
      match error with
      | Some _ => Some false
      | None =>
          routes ← normalizeAdvancedCustomConfig c;
          is_some_index <$> find_index (at_path ADVANCED_CUSTOM_MODEL_LIST_PATH) routes
      end
  end.

Definition advancedCustomConfigUsesRelativeUpstreamPath (config : option AdvancedCustomConfig) : option bool :=
  match config with
  | None => Some false
  | Some c =>
      routes ← normalizeAdvancedCustomConfig c;
      is_some_index <$> find_index (fun route => starts_with (js "/") <$> getAdvancedCustomRouteUpstreamPath route) routes
  end.

(** The label of a route; [Some None] for [null].  A path is looked up among the
    object's own keys: the names of [Object.prototype] are no paths. *)
Definition getAdvancedCustomRouteSummaryLabel (route : AdvancedCustomRoute) : option (option jstr) :=
  incomingPath ← route_path route;
  Some (if negb (nonempty incomingPath) then None
        else Some (text_else (default [] (mget incomingPath ADVANCED_CUSTOM_ROUTE_SUMMARY_LABELS))
                     (getAdvancedCustomIncomingPathLabel incomingPath))).

Record AdvancedCustomStats := { routeCount : nat; valid : bool; routeTypeLabels : list jstr }.

Definition getAdvancedCustomStats (value : option jstr) : option AdvancedCustomStats :=
  match parseAdvancedCustomConfig value with
  | None => Some {| routeCount := 0; valid := false; routeTypeLabels := [] |}
  | Some config =>
      routes ← normalizeAdvancedCustomConfig config;
      labels ← mapM getAdvancedCustomRouteSummaryLabel routes;
      error ← validateAdvancedCustomConfig (Some routes);
      Some {| routeCount := length routes;
              valid := match error with None => true | Some _ => false end;
              routeTypeLabels := uniq (List.filter nonempty (omap id labels)) |}
  end.
End Validation.

(** ** Authorization *)

(** [route.auth?.type || 'default'] *)
Definition getAdvancedCustomAuthMode (route : AdvancedCustomRoute) : jsval := or_value (opt_prop (auth route) (js "type")) (js "default").

Definition buildAdvancedCustomAuth (mode : jstr) (previousAuth : jsval) : jsval :=
  let built type name value :=
    JObj [(js "type", JStr type); (js "name", or_value (opt_prop previousAuth (js "name")) name);
          (js "value", or_value (opt_prop previousAuth (js "value")) value)] in
  if jeqb mode (js "default") then JUndefined
  else if jeqb mode (js "none") then JObj [(js "type", JStr (js "none"))]
  else if jeqb mode (js "header") then built (js "header") (js "Authorization") (js "Bearer {api_key}")
  else built (js "query") (js "api_key") (js "{api_key}").
End Custom.

(** ** Model mappings *)

Module Mapping.
Import Custom.

Definition parseModelsString (modelsStr : jstr) : list jstr :=
  match modelsStr with [] => [] | _ => List.filter nonempty (trim <$> split_on 44 modelsStr) end.

Definition formatModelsArray (models : list jstr) : jstr := join (js ",") (uniq models).

(** The argument is a string. *)
Definition normalizeModelName (model : jstr) : jstr := trim model.

(** The members of a text that is a JSON object. *)
Definition mapping_entries (text : jstr) : option (list (jstr * jsval)) :=
  match json_parse text with Some (JObj entries) => Some entries | _ => None end.

Definition extractMappingSourceModels (modelMapping : jstr) : list jstr :=
  match trim modelMapping with
  | [] => []
  | trimmed =>
      match mapping_entries trimmed with
      | None => []
      | Some entries => uniq (List.filter nonempty ((fun e => trim (fst e)) <$> entries))
      end
  end.

Definition extractRedirectModels (modelMapping : jstr) : list jstr :=
  match trim modelMapping with
  | [] => []
  | trimmed =>
      match mapping_entries trimmed with
      | None => []
      | Some entries =>
          uniq (List.filter nonempty (omap (fun e => match snd e with JStr s => Some (trim s) | _ => None end) entries))
      end
  end.

Definition hasModelConfigChanged (currentModels : list jstr) (currentModelMapping : jstr)
    (initialModels : list jstr) (initialModelMapping : jstr) : bool :=
  if Nat.eqb (length initialModels) 0 && negb (nonempty initialModelMapping) then true
  else if negb (Nat.eqb (length currentModels) (length initialModels)) then true
  else if negb (bool_decide (currentModels = initialModels)) then true
  else negb (jeqb (trim currentModelMapping) (trim initialModelMapping)).

Definition findMissingModelsInMapping (modelMapping : jstr) (currentModels : list jstr) : list jstr :=
  match trim modelMapping with
  | [] => []
  | _ =>
      match mapping_entries modelMapping with
      | None => []
      | Some entries =>
          let modelSet := uniq (normalizeModelName <$> currentModels) in
          uniq (List.filter (fun key => nonempty key && negb (bool_decide (key ∈ modelSet)))
                  ((fun e => normalizeModelName (fst e)) <$> entries))
      end
  end.

(** The error, if the mapping is not valid. *)
Definition validateModelMappingJson (modelMapping : jstr) : option jstr :=
  match trim modelMapping with
  | [] => None
  | _ =>
      match json_parse modelMapping with
      | None => Some (js "Model mapping must be valid JSON format")
      | Some (JObj entries) =>
          if existsb (fun e => match snd e with JStr _ => false | _ => true end) entries
          then Some (js "Model mapping values must be strings") else None
      | Some _ => Some (js "Model mapping must be a valid JSON object")
      end
  end.

Definition findExposedTargetModels (modelMapping : jstr) (currentModels : list jstr) : list jstr :=
  let modelSet := uniq (normalizeModelName <$> currentModels) in
  List.filter (fun model => bool_decide (normalizeModelName model ∈ modelSet)) (extractRedirectModels modelMapping).

Record ModelCategories := {
  normalizedCurrentModels : list jstr;
  normalizedRedirectModels : list jstr;
  classificationSet : list jstr;
  redirectOnlySet : list jstr;
}.

Definition categorizeModelsWithRedirect (currentModels redirectModels : list jstr) : ModelCategories :=
  let current := uniq (List.filter nonempty (normalizeModelName <$> currentModels)) in
  let redirect := uniq (List.filter nonempty (normalizeModelName <$> redirectModels)) in
  {| normalizedCurrentModels := current; normalizedRedirectModels := redirect;
     classificationSet := uniq (current ++ redirect);
     redirectOnlySet := List.filter (fun m => negb (bool_decide (m ∈ current))) redirect |}.
End Mapping.
