(* ===== verification/ChannelCustomFacts.v ===== *)
(** * Properties of custom routes and model mappings

    Configurations whose fields have the declared types: their normal form is
    stable and survives the text of the editor; validation decides a declarative
    specification and names the first route that breaks it; replacing the routes
    of one kind leaves the others alone. *)

From stdpp Require Import base list numbers strings sets.
From Stdlib Require Import ZArith SpecFloat Lia.
From S2P Require Import Prelude.
From S2P Require Import JsString.
From S2P Require Import JsNumber.
From S2P Require Import JsNumberFacts.
From S2P Require Import JsValue.
From S2P Require Import JsJson.
From S2P Require Import JsJsonText.
From S2P Require Import JsCollections.
From S2P Require Import ChannelCustom.

Module CustomFacts.
Import Custom.

(** ** Typed configurations *)

Definition text_or_missing (v : jsval) : Prop := match v with JUndefined | JStr _ => True | _ => False end.

(** A route whose properties have the types of [AdvancedCustomRoute]. *)
Record typed_route (r : AdvancedCustomRoute) : Prop := {
  typed_incoming : text_or_missing (incoming_path r);
  typed_upstream : text_or_missing (upstream_path r);
  typed_converter : text_or_missing (converter r);
  typed_models : models r = JUndefined \/ exists names, models r = JArr (JStr <$> names);
  typed_auth : auth r = JUndefined \/ exists entries, auth r = JObj entries /\
    Forall (fun k => text_or_missing (opt_prop (auth r) k)) [js "type"; js "name"; js "value"];
}.

(** ** Normal routes *)

Record NormalAuth := { na_type : option jstr; na_name : jstr; na_value : jstr }.

Record NormalRoute := {
  nr_incoming : jstr;
  nr_upstream : jstr;
  nr_converter : jstr;
  nr_models : list jstr;
  nr_auth : option NormalAuth;
}.

Definition opt_text (t : option jstr) : jsval := match t with Some s => JStr s | None => JUndefined end.

Definition normal_auth_js (a : NormalAuth) : jsval :=
  JObj [(js "type", opt_text (na_type a)); (js "name", JStr (na_name a)); (js "value", JStr (na_value a))].

Definition models_js (names : list jstr) : jsval := match names with [] => JUndefined | _ => JArr (JStr <$> names) end.

(** The route object of a normal route. *)
Definition embed (r : NormalRoute) : AdvancedCustomRoute :=
  {| incoming_path := JStr (nr_incoming r); upstream_path := JStr (nr_upstream r); converter := JStr (nr_converter r);
     models := models_js (nr_models r);
     auth := match nr_auth r with Some a => normal_auth_js a | None => JUndefined end |}.

Definition trimmed (s : jstr) : Prop := trim s = s.

Record normal_ok (r : NormalRoute) : Prop := {
  no_upstream : trimmed (nr_upstream r);
  no_converter : nr_converter r <> [];
  no_models : Forall (fun m => trimmed m /\ m <> []) (nr_models r);
}.

Lemma trim_trim s : trimmed (trim s).
Proof.
  unfold trimmed, trim. destruct (drop_spaces_split s) as (a & _ & Hd & _). set (d := drop_spaces s) in *.
  destruct (drop_spaces_split (rev d)) as (b & Hb & He & _). set (e := drop_spaces (rev d)) in *.
  assert (drop_spaces (rev e) = rev e) as ->; [|by rewrite rev_involutive, He].
  assert (d = rev e ++ rev b) as Hde by (by rewrite <- rev_app_distr, <- Hb, rev_involutive).
  destruct (rev e) as [|c l] eqn:Ee; [done|]. apply drop_spaces_id. cbn [app] in Hde.
  destruct (is_space c) eqn:Ec; [|done]. exfalso. rewrite Hde in Hd. unfold drop_spaces in Hd. cbn [span_while] in Hd. rewrite Ec in Hd.
  destruct (span_while is_space (l ++ rev b)) as [x y] eqn:Ex. cbn [snd] in Hd.
  apply span_while_app in Ex. rewrite Ex in Hd. apply (f_equal length) in Hd. simpl in Hd. rewrite length_app in Hd. lia.
Qed.

Lemma call_trim_all names : mapM call_trim (JStr <$> names) = Some (trim <$> names).
Proof. apply mapM_Some. induction names; constructor; done. Qed.

Lemma or_value_text v fallback : text_or_missing v -> exists s, or_value v fallback = JStr s /\ (fallback <> [] -> s <> []).
Proof.
  destruct v as [| | | |[|c s]| |]; try done; intros _; unfold or_value; cbn [truthy]; eexists; split; done.
Qed.

(** The normal form of a typed route. *)
Lemma normalize_typed r : typed_route r -> exists n, normal_ok n /\ normalizeAdvancedCustomRoute r = Some (embed n).
Proof.
  intros [Hi Hu Hc Hm Ha]. destruct (or_value_text _ [] Hi) as (i & Ei & _). destruct (or_value_text _ [] Hu) as (u & Eu & _).
  destruct (or_value_text _ converter_none Hc) as (c & Ec & Hcn).
  assert (exists names, normalizeAdvancedCustomRouteModels (models r) = Some names /\ Forall (fun m => trimmed m /\ m <> []) names)
    as (names & Em & Hnames).
  { destruct Hm as [->|(names & ->)]; [by exists []|]. cbn [normalizeAdvancedCustomRouteModels]. rewrite call_trim_all. cbn [mbind option_bind].
    eexists. split; [done|]. apply Forall_forall. intros m [Hin Hne]%list_elem_of_In%filter_In.
    apply list_elem_of_In, list_elem_of_fmap in Hin as (m0 & -> & _). split; [apply trim_trim|by intros E; rewrite E in Hne]. }
  assert (exists a, normalize_auth (auth r) = match a with Some a => normal_auth_js a | None => JUndefined end) as (a & Ea).
  { destruct Ha as [->|(entries & E & Hf)]; [by exists None|]. unfold normalize_auth. rewrite E in *. cbn [truthy].
    repeat (apply Forall_cons in Hf as [? Hf]).
    destruct (or_value_text (opt_prop (JObj entries) (js "name")) []) as (n & -> & _); [done|].
    destruct (or_value_text (opt_prop (JObj entries) (js "value")) []) as (v & -> & _); [done|].
    exists (Some {| na_type := match opt_prop (JObj entries) (js "type") with JStr t => Some t | _ => None end; na_name := n; na_value := v |}).
    unfold normal_auth_js. cbn [na_type na_name na_value]. by destruct (opt_prop (JObj entries) (js "type")). }
  exists {| nr_incoming := i; nr_upstream := trim u; nr_converter := c; nr_models := names; nr_auth := a |}. split.
  - split; [apply trim_trim|by apply Hcn|done].
  - unfold normalizeAdvancedCustomRoute, getAdvancedCustomRouteUpstreamPath. rewrite Eu, Em. cbn [call_trim mbind option_bind].
    by rewrite Ei, Ec, Ea.
Qed.

Lemma filter_trimmed names : Forall (fun m => trimmed m /\ m <> []) names ->
  List.filter (fun m : jstr => match m with [] => false | _ => true end) (trim <$> names) = names.
Proof.
  induction 1 as [|m names [Ht Hne] _ IH]; [done|]. rewrite fmap_cons, Ht. cbn [List.filter]. destruct m; [done|]. by rewrite IH.
Qed.

Lemma normalize_models_js names : Forall (fun m => trimmed m /\ m <> []) names ->
  normalizeAdvancedCustomRouteModels (models_js names) = Some names.
Proof.
  intros Hn. destruct names as [|m names]; [done|]. unfold models_js, normalizeAdvancedCustomRouteModels. rewrite call_trim_all.
  cbn [mbind option_bind]. by rewrite filter_trimmed.
Qed.

Lemma or_value_idem s fallback : s <> [] -> or_value (JStr s) fallback = JStr s.
Proof. by destruct s. Qed.

Lemma or_value_empty s : or_value (JStr s) [] = JStr s.
Proof. by destruct s. Qed.

Lemma normalize_normal_auth a : normalize_auth (normal_auth_js a) = normal_auth_js a.
Proof.
  unfold normalize_auth, normal_auth_js. cbn [truthy].
  change (opt_prop (JObj [(js "type", opt_text (na_type a)); (js "name", JStr (na_name a)); (js "value", JStr (na_value a))]) (js "type"))
    with (opt_text (na_type a)).
  change (opt_prop _ (js "name")) with (JStr (na_name a)). change (opt_prop _ (js "value")) with (JStr (na_value a)).
  by rewrite !or_value_empty.
Qed.

Lemma normalize_embed n : normal_ok n -> normalizeAdvancedCustomRoute (embed n) = Some (embed n).
Proof.
  intros [Hu Hc Hm]. unfold normalizeAdvancedCustomRoute, getAdvancedCustomRouteUpstreamPath. cbn [embed incoming_path upstream_path converter models auth].
  rewrite !or_value_empty. cbn [call_trim mbind option_bind]. rewrite Hu, normalize_models_js by done. cbn [mbind option_bind].
  rewrite or_value_idem by done. f_equal. unfold embed. f_equal. destruct (nr_auth n); [apply normalize_normal_auth|done].
Qed.

Lemma normalize_config c : Forall typed_route c -> exists ns, Forall normal_ok ns /\ normalizeAdvancedCustomConfig c = Some (embed <$> ns).
Proof.
  induction 1 as [|r c Hr _ (ns & Hns & E)]; [by exists []|]. destruct (normalize_typed r Hr) as (n & Hn & En).
  exists (n :: ns). split; [by constructor|]. unfold normalizeAdvancedCustomConfig in *. cbn [mapM]. by rewrite En, E.
Qed.

Lemma normalize_normal ns : Forall normal_ok ns -> normalizeAdvancedCustomConfig (embed <$> ns) = Some (embed <$> ns).
Proof.
  induction 1 as [|n ns Hn _ IH]; [done|]. unfold normalizeAdvancedCustomConfig in *. rewrite fmap_cons. cbn [mapM].
  by rewrite normalize_embed, IH.
Qed.

(** ** The text of a configuration *)

(** The objects of a normal route without the properties that are [undefined]. *)
Definition plain_auth (a : NormalAuth) : jsval :=
  JObj (match na_type a with Some t => [(js "type", JStr t)] | None => [] end
        ++ [(js "name", JStr (na_name a)); (js "value", JStr (na_value a))]).

Definition plain_route (n : NormalRoute) : jsval :=
  JObj ([(js "incoming_path", JStr (nr_incoming n)); (js "upstream_path", JStr (nr_upstream n)); (js "converter", JStr (nr_converter n))]
        ++ match nr_models n with [] => [] | names => [(js "models", JArr (JStr <$> names))] end
        ++ match nr_auth n with Some a => [(js "auth", plain_auth a)] | None => [] end).

Definition plain_custom (ns : list NormalRoute) : jsval := JObj [(js "advanced_routes", JArr (plain_route <$> ns))].

Lemma route_text gap indent n : json_text gap indent (route_js (embed n)) = json_text gap indent (plain_route n).
Proof. destruct n as [i u c [|m names] [[[t|] nm v]|]]; reflexivity. Qed.

Lemma config_text gap ns : json_text gap [] (config_js (embed <$> ns)) = json_text gap [] (plain_custom ns).
Proof.
  unfold config_js, plain_custom. cbn [json_text omap list_omap is_undefined fst snd]. do 5 f_equal.
  rewrite <- !list_fmap_compose. apply list_fmap_ext. intros k n _. apply route_text.
Qed.

Lemma plain_route_plain n : json_plain (plain_route n).
Proof.
  destruct n as [i u c [|m names] [[[t|] nm v]|]]; cbn; repeat split; try done;
    induction names; cbn; repeat split; done.
Qed.

Lemma plain_custom_plain ns : json_plain (plain_custom ns).
Proof.
  unfold plain_custom. cbn. repeat split; try done. induction ns as [|n ns IH]; [done|]. rewrite fmap_cons. cbn.
  split; [apply plain_route_plain|exact IH].
Qed.

(** The object read back has the same normal form. *)
Lemma route_read n : normal_ok n -> exists r, route_of_js (plain_route n) = Some r /\ normalizeAdvancedCustomRoute r = Some (embed n).
Proof.
  intros Hn. rewrite <- (normalize_embed n Hn).
  destruct n as [i u c [|m names] [[[t|] nm v]|]]; eexists; (split; [reflexivity|reflexivity]).
Qed.

Lemma routes_read ns : Forall normal_ok ns -> exists rs, mapM route_of_js (plain_route <$> ns) = Some rs /\
  normalizeAdvancedCustomConfig rs = Some (embed <$> ns).
Proof.
  induction 1 as [|n ns Hn _ (rs & Er & En)]; [by exists []|]. destruct (route_read n Hn) as (r & Er1 & En1).
  exists (r :: rs). rewrite fmap_cons. cbn [mapM]. rewrite Er1, Er. split; [done|]. unfold normalizeAdvancedCustomConfig in *.
  cbn [mapM]. by rewrite En1, En.
Qed.

Lemma editor_gap : blanks (js "  ").
Proof. by repeat constructor. Qed.

(** C18: The text of the editor keeps a configuration.  Every typed configuration
    has a text, the text is read back as its normal form, and the normal form
    has the same text: opening the editor again shows what was saved. *)
Theorem custom_config_round_trip c : Forall typed_route c ->
  exists text normal, stringifyAdvancedCustomConfig c = Some text /\ normalizeAdvancedCustomConfig c = Some normal /\
    parseAdvancedCustomConfig (Some text) = Some normal /\
    normalizeAdvancedCustomConfig normal = Some normal /\ stringifyAdvancedCustomConfig normal = Some text.
Proof.
  intros Hc. destruct (normalize_config c Hc) as (ns & Hns & E). exists (json_text (js "  ") [] (plain_custom ns)), (embed <$> ns).
  unfold stringifyAdvancedCustomConfig. rewrite E, normalize_normal by done. cbn [mbind option_bind]. rewrite config_text.
  split_and!; try done. unfold parseAdvancedCustomConfig. cbn [default from_option id].
  assert (trim (json_text (js "  ") [] (plain_custom ns)) <> []) as Hne.
  { destruct (json_text_head (js "  ") [] (plain_custom ns) (plain_custom_plain ns)) as (x & l & E1 & _).
    assert (x = 123%N) as ->; [|rewrite E1; by apply trim_solid].
    unfold plain_custom in E1. cbn [json_text] in E1. by injection E1. }
  destruct (trim _); [done|]. clear Hne. rewrite (json_parse_text (js "  ") editor_gap) by apply plain_custom_plain. cbn [mbind option_bind].
  destruct (routes_read ns Hns) as (rs & Er & En). unfold plain_custom. 
  change (obj_get [(js "advanced_routes", JArr (plain_route <$> ns))] (js "advanced_routes")) with (JArr (plain_route <$> ns)).
  cbn [mbind option_bind]. by rewrite Er.
Qed.

(** ** What a valid configuration is *)

Section Validation.
Context `{UrlParser}.

Definition incoming_of (r : NormalRoute) : jstr := trim (nr_incoming r).

Definition auth_ok (a : option NormalAuth) : Prop :=
  match a with
  | None => True
  | Some a => na_type a = Some (js "none") \/
      ((na_type a = Some (js "header") \/ na_type a = Some (js "query")) /\ trim (na_name a) <> [] /\ trim (na_value a) <> [])
  end.

(** No rule is an empty regular expression or stands twice. *)
Definition rules_ok (r : NormalRoute) : Prop :=
  Forall (fun m => m <> ADVANCED_CUSTOM_MODEL_REGEX_PREFIX) (nr_models r) /\ NoDup (nr_models r).

(** A route by itself. *)
Record route_ok (r : NormalRoute) : Prop := {
  ok_path : starts_with (js "/") (incoming_of r) = true /\ includes (incoming_of r) (js "?") = false;
  ok_management : isAdvancedCustomManagementPath (incoming_of r) = true ->
    nr_models r = [] /\ nr_converter r = converter_none /\ includes (nr_upstream r) (js "{model}") = false;
  ok_rules : rules_ok r;
  ok_upstream : nr_upstream r <> [] /\ isFullHttpURLOrAbsolutePath (nr_upstream r) = true;
  ok_converter : nr_converter r ∈ (fst ∘ fst) <$> ADVANCED_CUSTOM_CONVERTER_OPTIONS /\
    isConverterPathAllowed (incoming_of r) (nr_converter r) = true;
  ok_auth : auth_ok (nr_auth r);
}.

(** A route and a later one: of two routes of the same path the first has
    rules, and they share none. *)
Definition compatible (r1 r2 : NormalRoute) : Prop :=
  incoming_of r1 = incoming_of r2 -> nr_models r1 <> [] /\ forall m, m ∈ nr_models r1 -> m ∉ nr_models r2.

Definition valid_routes (rs : list NormalRoute) : Prop :=
  Forall route_ok rs /\ forall i j r1 r2, i < j -> rs !! i = Some r1 -> rs !! j = Some r2 -> compatible r1 r2.

Lemma valid_snoc rs r : valid_routes (rs ++ [r]) <->
  valid_routes rs /\ route_ok r /\ Forall (fun r1 => compatible r1 r) rs.
Proof using Type.
  unfold valid_routes. rewrite Forall_app, Forall_singleton. split.
  - intros [[Hrs Hr] Hc]. split_and!; [done| |done|].
    + intros i j r1 r2 Hij H1 H2. apply (Hc i j); [done|by apply lookup_app_l_Some..].
    + apply Forall_forall. intros r1 [i Hi]%list_elem_of_lookup. apply (Hc i (length rs)).
      * by eapply lookup_lt_Some.
      * by apply lookup_app_l_Some.
      * rewrite lookup_app_r, Nat.sub_diag; done.
  - intros [[Hrs Hc] [Hr Hall]]. split; [done|]. intros i j r1 r2 Hij H1 H2. rewrite Forall_forall in Hall.
    destruct (decide (j < length rs)) as [Hj|Hj].
    + rewrite lookup_app_l in H1, H2 by lia. by apply (Hc i j).
    + rewrite lookup_app_r in H2 by lia. assert (j - length rs = 0) as Ej.
      { apply lookup_lt_Some in H2. simpl in H2. lia. }
      rewrite Ej in H2. injection H2 as <-. rewrite lookup_app_l in H1 by lia. by apply Hall, list_elem_of_lookup_2 with i.
Qed.

(** ** The state of the loop *)

Definition path_state (st : loop_state) (p : jstr) : PathModels :=
  default {| catchAllIndex := None; rule_indices := [] |} (mget p (routeModelsByPath st)).

(** What the state says of the routes that were seen. *)
Record seen (rs : list NormalRoute) (st : loop_state) : Prop := {
  seen_catch_all p : catchAllIndex (path_state st p) <> None <-> exists r, r ∈ rs /\ incoming_of r = p /\ nr_models r = [];
  seen_rule p m : mget m (rule_indices (path_state st p)) <> None <-> exists r, r ∈ rs /\ incoming_of r = p /\ m ∈ nr_models r;
  seen_model_list : modelListRouteIndex st <> None <-> exists r, r ∈ rs /\ incoming_of r = ADVANCED_CUSTOM_MODEL_LIST_PATH;
  seen_balance : balanceRouteIndex st <> None <-> exists r, r ∈ rs /\ incoming_of r = ADVANCED_CUSTOM_BALANCE_PATH;
}.

Lemma seen_nothing : seen [] no_routes_seen.
Proof using Type. split; intros; cbn; (split; [done|by intros (r & Hr%elem_of_nil & _)]). Qed.

(** A rule is an empty regular expression only if it is the prefix. *)
Lemma empty_regex m : (is_regex_rule m && negb (nonempty (getAdvancedCustomRegexModelPattern m))) = bool_decide (m = ADVANCED_CUSTOM_MODEL_REGEX_PREFIX).
Proof using Type.
  unfold is_regex_rule, getAdvancedCustomRegexModelPattern.
  destruct (starts_with ADVANCED_CUSTOM_MODEL_REGEX_PREFIX m) eqn:E.
  - apply starts_with_app in E as [r ->]. rewrite drop_app_length. symmetry. destruct r as [|c r]; [by rewrite bool_decide_true by done|].
    apply bool_decide_eq_false. done.
  - symmetry. apply bool_decide_eq_false. intros ->. done.
Qed.

(** The rules of a route, given the rules of its path that are known. *)
Definition rules_fit (rules seen_rules : list jstr) (known : list (jstr * nat)) : Prop :=
  Forall (fun m => m <> ADVANCED_CUSTOM_MODEL_REGEX_PREFIX) rules /\ NoDup rules /\
  Forall (fun m => (m ∉ seen_rules) /\ mget m known = None) rules.

Lemma rules_fit_cons index m rules seen_rules known : rules_fit (m :: rules) seen_rules known <->
  m <> ADVANCED_CUSTOM_MODEL_REGEX_PREFIX /\ (m ∉ seen_rules) /\ mget m known = None /\
  rules_fit rules (m :: seen_rules) (mset m index known).
Proof using Type.
  assert (Forall (fun m' => (m' ∉ m :: seen_rules) /\ mget m' (mset m index known) = None) rules <->
    (m ∉ rules) /\ Forall (fun m' => (m' ∉ seen_rules) /\ mget m' known = None) rules) as Hiff.
  { split.
    - intros Hall. split; [intros Hin; rewrite Forall_forall in Hall; destruct (Hall m Hin) as [Hn _]; set_solver|].
      eapply Forall_impl; [exact Hall|]. intros m' [Hn Hg]. apply not_elem_of_cons in Hn as [Hne Hn]. by rewrite mget_mset_ne in Hg.
    - intros [Hn Hall]. rewrite Forall_forall in *. intros m' Hm'. destruct (Hall m' Hm') as [H1 H2].
      assert (m' <> m) by (by intros ->). split; [set_solver|]. by rewrite mget_mset_ne. }
  unfold rules_fit. rewrite Hiff, !Forall_cons, NoDup_cons. tauto.
Qed.

Lemma check_rules_spec index rules seen_rules known :
  match check_rules index rules seen_rules known with
  | inl e => routeIndex e = Some index /\ (rules_fit rules seen_rules known -> False)
  | inr known' => rules_fit rules seen_rules known /\
      forall m, mget m known' <> None <-> mget m known <> None \/ m ∈ rules
  end.
Proof using Type.
  revert seen_rules known. induction rules as [|m rules IH]; intros seen_rules known; cbn [check_rules].
  { split; [by split_and!; constructor|]. intros m. split; [by left|intros [?|?%elem_of_nil]; done]. }
  pose proof (rules_fit_cons index m rules seen_rules known) as Hfit. rewrite empty_regex.
  case_bool_decide as Hm; [split; [done|tauto]|]. case_bool_decide as Hs; [split; [done|tauto]|].
  destruct (mget m known) as [k|] eqn:Ek; [split; [done|intros (_ & _ & ? & _)%Hfit; done]|].
  specialize (IH (m :: seen_rules) (mset m index known)).
  destruct (check_rules index rules (m :: seen_rules) (mset m index known)) as [e|known']; [tauto|].
  destruct IH as [H1 Hk]. split; [tauto|]. intros m'. rewrite Hk, elem_of_cons.
  destruct (decide (m' = m)) as [->|Hne]; [rewrite mget_mset; naive_solver|]. rewrite mget_mset_ne by done. naive_solver.
Qed.

(** A catch-all route of the same path stands before the route. *)
Lemma catch_all_fit rs r st : seen rs st -> catchAllIndex (path_state st (incoming_of r)) <> None ->
  ~ Forall (fun r1 => compatible r1 r) rs.
Proof using Type.
  intros Hseen Hc Hall. apply (seen_catch_all _ _ Hseen) in Hc as (r1 & Hr1 & Hp & Hm). rewrite Forall_forall in Hall.
  by destruct (Hall r1 Hr1 Hp).
Qed.

(** None does: what the loop over the rules compares with says which rules are taken. *)
Lemma rules_fit_seen rs r st : seen rs st -> catchAllIndex (path_state st (incoming_of r)) = None ->
  rules_fit (nr_models r) [] (rule_indices (path_state st (incoming_of r))) <->
  rules_ok r /\ Forall (fun r1 => compatible r1 r) rs.
Proof using Type.
  intros Hseen Hc. unfold rules_fit, rules_ok. split.
  - intros (H1 & H2 & H3). split; [done|]. apply Forall_forall. intros r1 Hr1 Hp. split.
    + intros Hm. apply (proj2 (seen_catch_all _ _ Hseen (incoming_of r))); [by exists r1|done].
    + intros m Hm1 Hm. rewrite Forall_forall in H3. apply (proj2 (seen_rule _ _ Hseen (incoming_of r) m)); [by exists r1|by apply H3].
  - intros [[H1 H2] Hall]. split_and!; [done..|]. apply Forall_forall. intros m Hm. split; [set_solver|].
    apply dec_stable. intros (r1 & Hr1 & Hp & Hm1)%(seen_rule _ _ Hseen). rewrite Forall_forall in Hall.
    by apply (proj2 (Hall r1 Hr1 Hp) m).
Qed.

(** The state after the entry of a path was replaced. *)
Lemma path_state_seen rs r st st' new : seen rs st -> routeModelsByPath st' = mset (incoming_of r) new (routeModelsByPath st) ->
  (catchAllIndex new <> None <-> catchAllIndex (path_state st (incoming_of r)) <> None \/ nr_models r = []) ->
  (forall m, mget m (rule_indices new) <> None <-> mget m (rule_indices (path_state st (incoming_of r))) <> None \/ m ∈ nr_models r) ->
  (forall p, catchAllIndex (path_state st' p) <> None <-> exists r1, r1 ∈ rs ++ [r] /\ incoming_of r1 = p /\ nr_models r1 = []) /\
  (forall p m, mget m (rule_indices (path_state st' p)) <> None <-> exists r1, r1 ∈ rs ++ [r] /\ incoming_of r1 = p /\ m ∈ nr_models r1).
Proof using Type.
  intros Hseen Est Hc Hr.
  assert (forall p, path_state st' p = if decide (p = incoming_of r) then new else path_state st p) as Ep.
  { intros p. unfold path_state. rewrite Est. case_decide as Hd; [by rewrite Hd, mget_mset|by rewrite mget_mset_ne]. }
  assert (forall p (P : NormalRoute -> Prop), (exists r1, r1 ∈ rs ++ [r] /\ incoming_of r1 = p /\ P r1) <->
    (exists r1, r1 ∈ rs /\ incoming_of r1 = p /\ P r1) \/ (p = incoming_of r /\ P r)) as Hex.
  { intros p P. setoid_rewrite elem_of_app. setoid_rewrite list_elem_of_singleton. naive_solver. }
  split; intros p; [|intros m]; rewrite Ep, Hex, <- ?(seen_catch_all _ _ Hseen), <- ?(seen_rule _ _ Hseen);
    case_decide as Hd; [subst p; rewrite ?Hc, ?Hr; tauto|tauto|subst p; rewrite ?Hc, ?Hr; tauto|tauto].
Qed.

(** The rules of a route against those of the routes before it. *)
Lemma validate_models_spec index rs r st : seen rs st ->
  match validateAdvancedCustomRouteModels index (incoming_of r) (nr_models r) (routeModelsByPath st) with
  | inl e => routeIndex e = Some index /\
      (rules_ok r /\ Forall (fun r1 => compatible r1 r) rs -> False)
  | inr byPath =>
      (rules_ok r /\ Forall (fun r1 => compatible r1 r) rs) /\
      forall st', routeModelsByPath st' = byPath ->
        (forall p, catchAllIndex (path_state st' p) <> None <-> exists r1, r1 ∈ rs ++ [r] /\ incoming_of r1 = p /\ nr_models r1 = []) /\
        (forall p m, mget m (rule_indices (path_state st' p)) <> None <-> exists r1, r1 ∈ rs ++ [r] /\ incoming_of r1 = p /\ m ∈ nr_models r1)
  end.
Proof using Type.
  intros Hseen. pose proof (catch_all_fit rs r st Hseen) as Hno. pose proof (rules_fit_seen rs r st Hseen) as Hfit.
  unfold validateAdvancedCustomRouteModels. fold (path_state st (incoming_of r)).
  destruct (nr_models r) as [|m rules] eqn:Em.
  - destruct (catchAllIndex (path_state st (incoming_of r))) as [k|] eqn:Ek; [split; [done|intros [_ Hc]; by apply Hno in Hc]|].
    split; [apply Hfit; [done|by split_and!; constructor]|]. intros st' Est. apply (path_state_seen rs r st st' _ Hseen Est); [split; [by right|done]|].
    intros m. cbn. rewrite Em, elem_of_nil. tauto.
  - destruct (catchAllIndex (path_state st (incoming_of r))) as [k|] eqn:Ek; [split; [done|intros [_ Hc]; by apply Hno in Hc]|].
    pose proof (check_rules_spec index (m :: rules) [] (rule_indices (path_state st (incoming_of r)))) as Hr.
    destruct (check_rules index (m :: rules) [] (rule_indices (path_state st (incoming_of r)))) as [e|known]; [by rewrite Hfit in Hr|].
    destruct Hr as [Hr Hk]. split; [by apply Hfit|]. intros st' Est.
    apply (path_state_seen rs r st st' _ Hseen Est); [cbn; rewrite Ek, Em; split; [done|intros [?|?]; done]|].
    intros m'. cbn. by rewrite Hk, Em.
Qed.
Lemma exists_snoc (P : NormalRoute -> Prop) rs r :
  (exists r1, r1 ∈ rs ++ [r] /\ P r1) <-> (exists r1, r1 ∈ rs /\ P r1) \/ P r.
Proof using Type. setoid_rewrite elem_of_app. setoid_rewrite list_elem_of_singleton. naive_solver. Qed.

(** Two management routes of one path never go together: the first has no rules. *)
Lemma one_management rs r : isAdvancedCustomManagementPath (incoming_of r) = true ->
  (exists r1, r1 ∈ rs /\ incoming_of r1 = incoming_of r) -> ~ (Forall route_ok rs /\ Forall (fun r1 => compatible r1 r) rs).
Proof using Type.
  intros Hm (r1 & Hr1 & Hp) [Hok Hc]. rewrite Forall_forall in Hok. rewrite Forall_forall in Hc.
  destruct (Hc r1 Hr1 Hp) as [Hne _]. apply Hne. apply (ok_management _ (Hok r1 Hr1)). by rewrite Hp.
Qed.

Definition management_clause (r : NormalRoute) : Prop := isAdvancedCustomManagementPath (incoming_of r) = true ->
  nr_models r = [] /\ nr_converter r = converter_none /\ includes (nr_upstream r) (js "{model}") = false.

Lemma validate_management_spec index rs r st : seen rs st ->
  match validate_management index (incoming_of r) (nr_upstream r) (JStr (nr_converter r)) (nr_models r) st with
  | inl e => routeIndex e = Some index /\ ~ (Forall route_ok rs /\ management_clause r /\ Forall (fun r1 => compatible r1 r) rs)
  | inr st1 => management_clause r /\ routeModelsByPath st1 = routeModelsByPath st /\
      (modelListRouteIndex st1 <> None <-> exists r1, r1 ∈ rs ++ [r] /\ incoming_of r1 = ADVANCED_CUSTOM_MODEL_LIST_PATH) /\
      (balanceRouteIndex st1 <> None <-> exists r1, r1 ∈ rs ++ [r] /\ incoming_of r1 = ADVANCED_CUSTOM_BALANCE_PATH)
  end.
Proof using Type.
  intros Hseen. unfold validate_management, management_clause. pose proof (one_management rs r) as Hone.
  destruct (isAdvancedCustomManagementPath (incoming_of r)) eqn:Em; cbn [negb]; cycle 1.
  { unfold isAdvancedCustomManagementPath in Em. apply orb_false_elim in Em as [E1%jeqb_neq E2%jeqb_neq].
    rewrite !exists_snoc, <- (seen_model_list _ _ Hseen), <- (seen_balance _ _ Hseen). split_and!; [done|done|tauto|tauto]. }
  specialize (Hone eq_refl).
  assert ((if jeqb (incoming_of r) ADVANCED_CUSTOM_MODEL_LIST_PATH then modelListRouteIndex st else balanceRouteIndex st) <> None ->
    exists r1, r1 ∈ rs /\ incoming_of r1 = incoming_of r) as Hseen1.
  { destruct (jeqb (incoming_of r) ADVANCED_CUSTOM_MODEL_LIST_PATH) eqn:E1.
    - apply jeqb_eq in E1 as ->. apply (seen_model_list _ _ Hseen).
    - unfold isAdvancedCustomManagementPath in Em. rewrite E1 in Em. cbn [orb] in Em. apply jeqb_eq in Em as ->. apply (seen_balance _ _ Hseen). }
  destruct (if jeqb (incoming_of r) ADVANCED_CUSTOM_MODEL_LIST_PATH then modelListRouteIndex st else balanceRouteIndex st) as [k|] eqn:Ek;
    [split; [done|]; assert (exists r1, r1 ∈ rs /\ incoming_of r1 = incoming_of r) by (by apply Hseen1); tauto|].
  destruct (Nat.eqb_spec (length (nr_models r)) 0) as [El|El]; cbn [negb];
    [apply nil_length_inv in El|split; [done|]; intros (_ & Hc & _); destruct (Hc eq_refl) as [Hl _]; by rewrite Hl in El].
  destruct (strict_eq (JStr (nr_converter r)) (JStr converter_none)) eqn:Es; cbn [negb];
    [|split; [done|]; intros (_ & Hc & _); destruct (Hc eq_refl) as (_ & Hcn & _); by rewrite Hcn in Es].
  destruct (includes (nr_upstream r) (js "{model}")) eqn:Ei; [split; [done|]; intros (_ & Hc & _); by destruct (Hc eq_refl) as (_ & _ & ?)|].
  split; [intros _; split_and!; [done| |done]; by apply jeqb_eq|]. split; [done|]. cbn [modelListRouteIndex balanceRouteIndex].
  rewrite !exists_snoc, <- (seen_model_list _ _ Hseen), <- (seen_balance _ _ Hseen).
  destruct (jeqb (incoming_of r) ADVANCED_CUSTOM_MODEL_LIST_PATH) eqn:E1.
  - apply jeqb_eq in E1. rewrite E1. split; [split; [by right|done]|]. split; [by left|intros [?|?]; done].
  - apply jeqb_neq in E1. unfold isAdvancedCustomManagementPath in Em. rewrite (proj2 (jeqb_neq _ _) E1) in Em. cbn [orb] in Em. apply jeqb_eq in Em.
    split; [tauto|]. split; [by right|done].
Qed.
Lemma nonempty_ne s : nonempty s = true <-> s <> [].
Proof using Type. by destruct s. Qed.

Lemma validate_auth_spec a : exists outcome,
  validateRouteAuth (match a with Some a => normal_auth_js a | None => JUndefined end) = Some outcome /\
  match outcome with None => auth_ok a | Some _ => ~ auth_ok a end.
Proof using Type.
  destruct a as [[t n v]|]; [|by exists None]. unfold validateRouteAuth, normal_auth_js. cbn [truthy negb na_type na_name na_value].
  change (opt_prop (JObj _) (js "type")) with (opt_text t). change (opt_prop (JObj _) (js "name")) with (JStr n).
  change (opt_prop (JObj _) (js "value")) with (JStr v). cbn [optional_trim is_nullish call_trim auth_ok na_type na_name na_value].
  assert (forall k, strict_eq (opt_text t) (JStr k) = bool_decide (t = Some k)) as Es.
  { intros k. destruct t as [t|]; cbn [opt_text strict_eq]; [|by rewrite bool_decide_false].
    destruct (jeqb t k) eqn:E; symmetry; [apply bool_decide_eq_true; f_equal; by apply jeqb_eq|apply bool_decide_eq_false; intros [= ->]; by rewrite jeqb_refl in E]. }
  rewrite !Es. case_bool_decide as H1; [exists None; split; [done|by left]|].
  case_bool_decide as H2; [|case_bool_decide as H3]; cbn [negb andb mbind option_bind]; [| |eexists; split; [done|intros [?|[[?|?] _]]; done]];
    (destruct (nonempty (trim n)) eqn:En; cbn [negb mbind option_bind];
       [apply nonempty_ne in En|eexists; split; [done|]; intros [?|(_ & Hn & _)]; [done|]; apply nonempty_ne in Hn; congruence];
     destruct (nonempty (trim v)) eqn:Ev; cbn [negb mbind option_bind];
       [apply nonempty_ne in Ev; exists None; split; [done|right; split_and!; [by (left + right)|done|done]]
       |eexists; split; [done|]; intros [?|(_ & _ & Hn)]; [done|]; apply nonempty_ne in Hn; congruence]).
Qed.

Lemma converter_option c : isAdvancedCustomConverter (JStr c) = true <-> c ∈ (fst ∘ fst) <$> ADVANCED_CUSTOM_CONVERTER_OPTIONS.
Proof using Type.
  unfold isAdvancedCustomConverter. rewrite existsb_exists, list_elem_of_fmap. cbn [strict_eq]. split.
  - intros (o & Ho & E). apply jeqb_eq in E. exists o. by rewrite list_elem_of_In.
  - intros (o & -> & Ho). exists o. rewrite <- list_elem_of_In. split; [done|apply jeqb_refl].
Qed.

Lemma validate_route_spec index rs r st : normal_ok r -> seen rs st -> exists outcome,
  validate_route index (embed r) st = Some outcome /\
  match outcome with
  | inl e => routeIndex e = Some index /\ ~ (Forall route_ok rs /\ route_ok r /\ Forall (fun r1 => compatible r1 r) rs)
  | inr st' => (route_ok r /\ Forall (fun r1 => compatible r1 r) rs) /\ seen (rs ++ [r]) st'
  end.
Proof using Type.
  intros [Hu Hc Hm] Hseen. unfold validate_route, getAdvancedCustomRouteUpstreamPath. cbn [embed incoming_path upstream_path converter models auth].
  change (route_path (embed r)) with (Some (incoming_of r)). rewrite or_value_empty, or_value_idem, normalize_models_js by done.
  cbn [call_trim mbind option_bind]. rewrite Hu.
  destruct (starts_with (js "/") (incoming_of r)) eqn:Eslash; cbn [negb]; cycle 1.
  { destruct (nonempty (incoming_of r)); eexists; (split; [done|]); (split; [done|]); intros (_ & [[? _] _ _ _ _ _] & _); congruence. }
  destruct (incoming_of r) as [|c0 path0] eqn:Epath; [done|]. cbn [nonempty negb]. rewrite <- Epath in *. clear Epath c0 path0.
  destruct (includes (incoming_of r) (js "?")) eqn:Eq; [eexists; split; [done|split; [done|intros (_ & [[_ ?] _ _ _ _ _] & _); congruence]]|].
  pose proof (validate_management_spec index rs r st Hseen) as Hman.
  destruct (validate_management _ _ _ _ _ _) as [e|st1]; [eexists; split; [done|]; destruct Hman as [He Hman]; split; [done|]; intros (H1 & H2 & H3); apply Hman; split_and!; [done|exact (ok_management _ H2)|done]|].
  destruct Hman as (Hman & Est1 & Hlist & Hbal).
  pose proof (validate_models_spec index rs r st Hseen) as Hmod. rewrite Est1.
  destruct (validateAdvancedCustomRouteModels _ _ _ _) as [e|byPath]; [eexists; split; [done|]; destruct Hmod as [He Hmod]; split; [done|]; intros (H1 & H2 & H3); apply Hmod; split; [apply (ok_rules _ H2)|done]|].
  destruct Hmod as [[Hrules Hcompat] Hpaths].
  destruct (nonempty (nr_upstream r)) eqn:Eu; cbn [negb];
    [apply nonempty_ne in Eu|eexists; split; [done|split; [done|intros (_ & [_ _ _ [H4 _] _ _] & _); apply nonempty_ne in H4; congruence]]].
  destruct (isFullHttpURLOrAbsolutePath (nr_upstream r)) eqn:Ef; cbn [negb];
    [|eexists; split; [done|split; [done|intros (_ & [_ _ _ [_ H4] _ _] & _); congruence]]].
  destruct (isAdvancedCustomConverter (JStr (nr_converter r))) eqn:Econv; cbn [negb];
    [|eexists; split; [done|split; [done|intros (_ & [_ _ _ _ [H4 _] _] & _); apply converter_option in H4; congruence]]].
  destruct (isConverterPathAllowed (incoming_of r) (nr_converter r)) eqn:Eallow; cbn [negb];
    [|eexists; split; [done|split; [done|intros (_ & [_ _ _ _ [_ H4] _] & _); congruence]]].
  destruct (validate_auth_spec (nr_auth r)) as (outcome & Ea & Hauth). rewrite Ea. cbn [mbind option_bind].
  destruct outcome as [text|]; eexists; (split; [done|]); [split; [done|intros (_ & [_ _ _ _ _ H4] & _); done]|].
  split; [split; [|done]; split; try done; split; [by apply converter_option|done]|].
  destruct (Hpaths {| routeModelsByPath := byPath; modelListRouteIndex := modelListRouteIndex st1; balanceRouteIndex := balanceRouteIndex st1 |} eq_refl).
  by split.
Qed.

Lemma validate_routes_spec index done_ rs st : Forall normal_ok rs -> seen done_ st -> valid_routes done_ -> length done_ = index ->
  exists outcome, validate_routes index (embed <$> rs) st = Some outcome /\
  match outcome with
  | None => valid_routes (done_ ++ rs)
  | Some e => exists i, routeIndex e = Some (index + i) /\ i < length rs /\
      valid_routes (done_ ++ take i rs) /\ ~ valid_routes (done_ ++ take (S i) rs)
  end.
Proof using Type.
  intros Hrs. revert index done_ st. induction Hrs as [|r rs Hr Hrs IH]; intros index done_ st Hseen Hv Hlen.
  { exists None. split; [done|]. by rewrite app_nil_r. }
  destruct (validate_route_spec index done_ r st Hr Hseen) as (outcome & E & Ho). rewrite fmap_cons. cbn [validate_routes].
  rewrite E. cbn [mbind option_bind]. destruct outcome as [e|st'].
  - eexists; split; [done|]. exists 0. destruct Ho as [He Hn]. split_and!; [by rewrite Nat.add_0_r|simpl; lia|by rewrite app_nil_r|].
    cbn [take]. rewrite valid_snoc. intros (H1 & H2 & H3). by apply Hn; split_and!; [apply H1| |].
  - destruct Ho as [[Hok Hc] Hseen']. destruct (IH (S index) (done_ ++ [r]) st') as (o & Eo & Ho);
      [done|by apply valid_snoc|rewrite length_app; simpl; lia|].
    rewrite Eo. eexists; split; [done|]. destruct o as [e|]; [|by rewrite <- app_assoc in Ho].
    destruct Ho as (i & H1 & H2 & H3 & H4). exists (S i). rewrite <- !app_assoc in *.
    split_and!; [rewrite H1; f_equal; lia|simpl; lia|done|done].
Qed.

(** C17: Validation decides whether a configuration is valid.  Of a typed
    configuration it never throws; without an error there are routes, each is
    well formed, of two routes of one path the earlier one has rules, and they
    share none; an error that carries an index names the first route that, with
    those before it, breaks this, and one without an index says that there are no
    routes. *)
Theorem custom_validation_correct c : Forall typed_route c -> exists ns,
  Forall normal_ok ns /\ normalizeAdvancedCustomConfig c = Some (embed <$> ns) /\
  match validateAdvancedCustomConfig (Some c) with
  | None => False
  | Some None => ns <> [] /\ valid_routes ns
  | Some (Some e) =>
      match routeIndex e with
      | None => ns = []
      | Some i => i < length ns /\ valid_routes (take i ns) /\ ~ valid_routes (take (S i) ns)
      end
  end.
Proof using Type.
  intros Hc. destruct (normalize_config c Hc) as (ns & Hns & E). exists ns. split_and!; [done..|].
  unfold validateAdvancedCustomConfig. rewrite E. cbn [mbind option_bind].
  destruct ns as [|n ns]; [done|].
  destruct (validate_routes_spec 0 [] (n :: ns) no_routes_seen) as (outcome & Eo & Ho); [done|apply seen_nothing|by split; [constructor|]|done|].
  rewrite fmap_cons in *. rewrite Eo. destruct outcome as [e|]; [|done]. destruct Ho as (i & -> & Ho). done.
Qed.
End Validation.

(** ** Edits *)

Fixpoint position {A} (f : A -> bool) (l : list A) : option nat :=
  match l with [] => None | x :: l => if f x then Some 0 else S <$> position f l end.

Lemma find_index_embed test f ns : (forall n, test (embed n) = Some (f n)) ->
  find_index test (embed <$> ns) = Some (position f ns).
Proof.
  intros Ht. induction ns as [|n ns IH]; [done|]. rewrite fmap_cons. cbn [find_index position]. rewrite Ht, IH.
  by destruct (f n).
Qed.

Lemma filter_routes_embed test f ns : (forall n, test (embed n) = Some (f n)) ->
  filter_routes test (embed <$> ns) = Some (embed <$> List.filter f ns).
Proof.
  intros Ht. induction ns as [|n ns IH]; [done|]. rewrite fmap_cons. cbn [filter_routes List.filter]. rewrite Ht, IH. cbn [mbind option_bind].
  by destruct (f n).
Qed.

Definition management (n : NormalRoute) : bool := isAdvancedCustomManagementPath (incoming_of n).
Definition elsewhere (path : jstr) (n : NormalRoute) : bool := negb (jeqb (incoming_of n) path).

Lemma filter_true {A} (f : A -> bool) l : Forall (fun x => f x = true) l -> List.filter f l = l.
Proof. induction 1 as [|x l E _ IH]; [done|]. cbn [List.filter]. by rewrite E, IH. Qed.

Lemma filter_normal f ns : Forall normal_ok ns -> Forall normal_ok (List.filter f ns).
Proof. rewrite !Forall_forall. intros Hns n [Hn _]%list_elem_of_In%filter_In. by apply Hns, list_elem_of_In. Qed.

Lemma position_split {A} (f : A -> bool) l :
  match position f l with
  | Some i => exists before x after, l = before ++ x :: after /\ i = length before /\ f x = true /\ Forall (fun y => f y = false) before
  | None => Forall (fun y => f y = false) l
  end.
Proof.
  induction l as [|y l IH]; [by constructor|]. cbn [position]. destruct (f y) eqn:E; [by exists [], y, l|].
  destruct (position f l) as [i|]; cbn; [|by constructor].
  destruct IH as (before & x & after & -> & -> & Hx & Hb). exists (y :: before), x, after. split_and!; [done..|by constructor].
Qed.
Lemma at_path_embed path n : at_path path (embed n) = Some (negb (elsewhere path n)).
Proof. unfold at_path, elsewhere. by rewrite negb_involutive. Qed.

Lemma forwarding_edit ns fs : Forall normal_ok ns -> exists before rest,
  replaceAdvancedCustomForwardingRoutes (embed <$> ns) (embed <$> fs) = Some (embed <$> before ++ fs ++ List.filter management rest) /\
  ns = before ++ rest /\ Forall (fun n => management n = true) before /\
  match rest with [] => True | n :: _ => management n = false end.
Proof.
  intros Hns. unfold replaceAdvancedCustomForwardingRoutes. rewrite normalize_normal by done. cbn [mbind option_bind].
  rewrite (find_index_embed is_forwarding (fun n => negb (management n))) by done.
  rewrite (filter_routes_embed is_management management) by done. cbn [mbind option_bind].
  pose proof (position_split (fun n => negb (management n)) ns) as Hp. destruct (position _ ns) as [i|].
  - destruct Hp as (before & n & after & -> & -> & Hn & Hb). exists before, (n :: after).
    assert (Forall (fun n => management n = true) before) as Hm.
    { eapply Forall_impl; [exact Hb|]. intros m Hm. cbv beta in Hm. by apply negb_false_iff in Hm. }
    rewrite <- fmap_take, <- fmap_drop, take_app_length, drop_app_length.
    rewrite !(filter_routes_embed is_management management) by done. cbn [mbind option_bind]. rewrite filter_true by done.
    split_and!; [by rewrite !fmap_app|done|done|by apply negb_true_iff in Hn].
  - exists ns, []. rewrite app_nil_r in *. cbn [List.filter]. rewrite app_nil_r.
    assert (Forall (fun n => management n = true) ns) as Hm.
    { eapply Forall_impl; [exact Hp|]. intros m Hm. cbv beta in Hm. by apply negb_false_iff in Hm. }
    rewrite filter_true by done. split_and!; [by rewrite fmap_app|done|done|done].
Qed.

(** The route that an edit of a management route stores. *)
Definition management_route (path : jstr) (n : NormalRoute) : NormalRoute :=
  {| nr_incoming := path; nr_upstream := nr_upstream n; nr_converter := converter_none; nr_models := []; nr_auth := nr_auth n |}.

Definition stored_route (path : jstr) (n : NormalRoute) : AdvancedCustomRoute :=
  {| incoming_path := JStr path; upstream_path := or_value (JStr (nr_upstream n)) []; converter := JStr converter_none;
     models := JArr []; auth := auth (embed n) |}.

Lemma normalize_stored path n : normal_ok n -> normalizeAdvancedCustomRoute (stored_route path n) = Some (embed (management_route path n)).
Proof.
  intros Hn. rewrite <- (normalize_embed (management_route path n)); [|destruct Hn; by split].
  unfold stored_route. by rewrite or_value_empty.
Qed.

Lemma normalize_app a b : normalizeAdvancedCustomConfig (a ++ b) =
  (x ← normalizeAdvancedCustomConfig a; y ← normalizeAdvancedCustomConfig b; Some (x ++ y)).
Proof.
  unfold normalizeAdvancedCustomConfig. induction a as [|r a IH]; cbn [mapM app mbind option_bind].
  - by destruct (mapM normalizeAdvancedCustomRoute b).
  - destruct (normalizeAdvancedCustomRoute r); cbn [mbind option_bind]; [|done]. rewrite IH.
    destruct (mapM normalizeAdvancedCustomRoute a); cbn [mbind option_bind]; [|done].
    by destruct (mapM normalizeAdvancedCustomRoute b).
Qed.

Lemma position_found {A} (f : A -> bool) before x after : Forall (fun y => f y = false) before -> f x = true ->
  position f (before ++ x :: after) = Some (length before).
Proof.
  intros Hb Hx. induction Hb as [|y before Hy _ IH]; cbn [app position]; [by rewrite Hx|]. by rewrite Hy, IH.
Qed.

(** What the last route of a list, or one of its routes, being stored means. *)
Lemma stored_normal path n before after : trimmed path -> normal_ok n -> Forall normal_ok before -> Forall normal_ok after ->
  Forall (fun m => elsewhere path m = true) before ->
  let out := (embed <$> before) ++ stored_route path n :: (embed <$> after) in
  normalizeAdvancedCustomConfig out = Some (embed <$> before ++ management_route path n :: after) /\
  getAdvancedCustomManagementRoute out path = Some (Some (embed (management_route path n))).
Proof.
  intros Hpath Hn Hb Ha Hel out.
  assert (normalizeAdvancedCustomConfig out = Some (embed <$> before ++ management_route path n :: after)) as E.
  { unfold out. rewrite normalize_app, normalize_normal by done. cbn [mbind option_bind]. unfold normalizeAdvancedCustomConfig at 1. cbn [mapM].
    rewrite normalize_stored by done. fold (normalizeAdvancedCustomConfig (embed <$> after)). rewrite normalize_normal by done.
    by rewrite fmap_app. }
  split; [done|]. unfold getAdvancedCustomManagementRoute. rewrite E. cbn [mbind option_bind].
  rewrite (find_index_embed (at_path path) (fun n => negb (elsewhere path n))) by (intros; apply at_path_embed).
  rewrite position_found; [|eapply Forall_impl; [exact Hel|]; intros m Hm; by rewrite Hm|].
  - cbn [mbind option_bind]. by rewrite list_lookup_fmap, lookup_app_r, Nat.sub_diag.
  - unfold elsewhere, incoming_of. cbn [management_route nr_incoming]. by rewrite Hpath, jeqb_refl.
Qed.

Lemma position_elsewhere path ns :
  match position (fun n => negb (elsewhere path n)) ns with
  | Some i => exists before x after, ns = before ++ x :: after /\ i = length before /\ elsewhere path x = false /\
      Forall (fun m => elsewhere path m = true) before
  | None => Forall (fun m => elsewhere path m = true) ns
  end.
Proof.
  assert (forall l, Forall (fun y => negb (elsewhere path y) = false) l -> Forall (fun m => elsewhere path m = true) l) as Hneg.
  { intros l Hl. eapply Forall_impl; [exact Hl|]. intros m Hm. by apply negb_false_iff in Hm. }
  pose proof (position_split (fun n => negb (elsewhere path n)) ns) as Hp. destruct (position _ ns) as [i|]; [|by apply Hneg].
  destruct Hp as (before & x & after & -> & -> & Hx & Hb). apply negb_true_iff in Hx.
  exists before, x, after. split_and!; [done..|by apply Hneg].
Qed.

Lemma elsewhere_stored path n : trimmed path -> elsewhere path (management_route path n) = false.
Proof. intros Hp. unfold elsewhere, incoming_of. cbn [management_route nr_incoming]. by rewrite Hp, jeqb_refl. Qed.

Lemma management_edit ns path n : Forall normal_ok ns -> trimmed path -> normal_ok n -> exists out ns',
  replaceAdvancedCustomManagementRoute (embed <$> ns) path (Some (embed n)) = Some out /\
  normalizeAdvancedCustomConfig out = Some (embed <$> ns') /\
  getAdvancedCustomManagementRoute out path = Some (Some (embed (management_route path n))) /\
  List.filter (elsewhere path) ns' = List.filter (elsewhere path) ns.
Proof.
  intros Hns Hpath Hn. unfold replaceAdvancedCustomManagementRoute. rewrite normalize_normal by done. cbn [mbind option_bind].
  rewrite (find_index_embed (at_path path) (fun n => negb (elsewhere path n))) by (intros; apply at_path_embed). cbn [mbind option_bind].
  pose proof (position_elsewhere path ns) as Hp. destruct (position _ ns) as [i|].
  - destruct Hp as (before & x & after & -> & -> & Hx & Hb). apply Forall_app in Hns as [H1 [_ H2]%Forall_cons].
    destruct (stored_normal path n before after) as [E1 E2]; [done..|].
    eexists _, (before ++ management_route path n :: after). split; [|split; [exact E1|split; [exact E2|]]].
    + by rewrite fmap_app, fmap_cons, insert_app_r_alt, length_fmap, Nat.sub_diag by (by rewrite length_fmap).
    + rewrite !List.filter_app. cbn [List.filter]. by rewrite Hx, elsewhere_stored.
  - destruct (stored_normal path n ns []) as [E1 E2]; [done..|]. eexists _, (ns ++ [management_route path n]).
    split; [done|split; [exact E1|split; [exact E2|]]]. rewrite List.filter_app. cbn [List.filter].
    by rewrite elsewhere_stored, app_nil_r.
Qed.

Lemma management_removed `{UrlParser} ns path : Forall normal_ok ns -> isAdvancedCustomManagementPath path = true -> valid_routes ns ->
  let ns' := List.filter (elsewhere path) ns in
  replaceAdvancedCustomManagementRoute (embed <$> ns) path None = Some (embed <$> ns') /\
  getAdvancedCustomManagementRoute (embed <$> ns') path = Some None.
Proof.
  intros Hns Hpath Hv ns'. unfold replaceAdvancedCustomManagementRoute, getAdvancedCustomManagementRoute.
  rewrite !normalize_normal; [|by apply filter_normal|done]. cbn [mbind option_bind].
  rewrite !(find_index_embed (at_path path) (fun n => negb (elsewhere path n))) by (intros; apply at_path_embed). cbn [mbind option_bind].
  assert (Forall (fun m => elsewhere path m = true) ns') as Hout.
  { apply Forall_forall. intros m [_ Hm]%list_elem_of_In%filter_In. done. }
  split.
  - pose proof (position_elsewhere path ns) as Hp. destruct (position _ ns) as [i|]; [|unfold ns'; by rewrite filter_true].
    destruct Hp as (before & x & after & -> & -> & Hx & Hb). unfold ns'. rewrite List.filter_app. cbn [List.filter]. rewrite Hx, filter_true by done.
    rewrite filter_true; [by rewrite !fmap_app, fmap_cons, <- (length_fmap embed before), delete_middle|].
    apply Forall_forall. intros y [k Hk]%list_elem_of_lookup. destruct (elsewhere path y) eqn:Ey; [done|]. exfalso.
    apply negb_false_iff, jeqb_eq in Hx. apply negb_false_iff, jeqb_eq in Ey. destruct Hv as [Hok Hc].
    destruct (Hc (length before) (length before + S k) x y) as [Hne _]; [lia|by rewrite lookup_app_r, Nat.sub_diag| |congruence|].
    { rewrite lookup_app_r by lia. by replace (length before + S k - length before) with (S k) by lia. }
    apply Hne. apply Forall_app in Hok as [_ [Hx1 _]%Forall_cons]. apply (ok_management _ Hx1). by rewrite Hx.
  - destruct (position _ ns') as [i|] eqn:Ei; [|done]. exfalso. pose proof (position_elsewhere path ns') as Hp. rewrite Ei in Hp.
    destruct Hp as (before & x & after & E & _ & Hx & _). rewrite E in Hout. apply Forall_app in Hout as [_ [? _]%Forall_cons]. congruence.
Qed.

(** C19: Edits of a configuration in normal form are local.  Replacing the forwarding
    routes keeps every management route, in its order: those before the first
    forwarding route stay in front, the others follow the new routes.  Storing a
    management route makes it the one that is found, and leaves the routes of every
    other path as they were. Removing it from a valid configuration leaves exactly
    the routes of the other paths, and none is found. *)
Theorem custom_edits_local `{UrlParser} ns : Forall normal_ok ns ->
  (forall fs, exists before rest,
    replaceAdvancedCustomForwardingRoutes (embed <$> ns) (embed <$> fs) = Some (embed <$> before ++ fs ++ List.filter management rest) /\
    ns = before ++ rest /\ Forall (fun n => management n = true) before /\
    match rest with [] => True | n :: _ => management n = false end) /\
  (forall path n, trimmed path -> normal_ok n -> exists out ns',
    replaceAdvancedCustomManagementRoute (embed <$> ns) path (Some (embed n)) = Some out /\
    normalizeAdvancedCustomConfig out = Some (embed <$> ns') /\
    getAdvancedCustomManagementRoute out path = Some (Some (embed (management_route path n))) /\
    List.filter (elsewhere path) ns' = List.filter (elsewhere path) ns) /\
  (forall path, isAdvancedCustomManagementPath path = true -> valid_routes ns ->
    replaceAdvancedCustomManagementRoute (embed <$> ns) path None = Some (embed <$> List.filter (elsewhere path) ns) /\
    getAdvancedCustomManagementRoute (embed <$> List.filter (elsewhere path) ns) path = Some None).
Proof.
  intros Hns. split_and!.
  - intros fs. by apply forwarding_edit.
  - intros path n. by apply management_edit.
  - intros path. by apply management_removed.
Qed.
(** A route filled with the defaults of its converter and path. *)
Definition default_route (conv path : jstr) : AdvancedCustomRoute :=
  let defaults := getAdvancedCustomConverterDefaults conv path in
  {| incoming_path := JStr path; upstream_path := JStr (default_upstream_path defaults); converter := JStr conv;
     models := JUndefined; auth := auth_js (default_auth defaults) |}.

Definition is_valid (outcome : option (option AdvancedCustomValidationError)) : bool :=
  match outcome with Some None => true | _ => false end.

Lemma valid_check {A} (check : A -> option (option AdvancedCustomValidationError)) l :
  forallb (fun x => is_valid (check x)) l = true -> Forall (fun x => check x = Some None) l.
Proof.
  rewrite forallb_forall, Forall_forall. intros Hl x Hx%list_elem_of_In. specialize (Hl x Hx). by destruct (check x) as [[e|]|].
Qed.

Definition offered `{UrlParser} (conv : jstr) : bool :=
  negb (Nat.eqb (length (getAdvancedCustomIncomingPathOptions conv)) 0) &&
  forallb (fun path => is_valid (validateAdvancedCustomConfig (Some [default_route conv path])))
    (fst <$> getAdvancedCustomIncomingPathOptions conv).

(** What the editor offers is valid: every template, and, for every
    converter, the route with the converter's defaults at every path that is
    offered for it, whatever the parser of URLs. *)
Theorem offers_are_valid `{UrlParser} :
  Forall (fun template => validateAdvancedCustomConfig (Some (snd template)) = Some None) ADVANCED_CUSTOM_TEMPLATE_OPTIONS /\
  Forall (fun conv =>
    getAdvancedCustomIncomingPathOptions conv <> [] /\
    Forall (fun path => validateAdvancedCustomConfig (Some [default_route conv path]) = Some None)
      (fst <$> getAdvancedCustomIncomingPathOptions conv))
    ((fst ∘ fst) <$> ADVANCED_CUSTOM_CONVERTER_OPTIONS).
Proof.
  split; [by apply valid_check; vm_compute|].
  apply (Forall_impl (fun conv => offered conv = true)); [apply Forall_forall; intros conv Hc%list_elem_of_In; revert conv Hc; apply forallb_forall; by vm_compute|].
  intros conv [Hne Hv]%andb_prop. split; [by intros E; rewrite E in Hne|by apply valid_check].
Qed.

(** ** Concrete configurations *)

(** A parser that knows no URL: paths are checked without it. *)
Definition no_url : UrlParser := fun _ => None.

Definition example_route (path : jstr) (rules : list jstr) : NormalRoute :=
  {| nr_incoming := path; nr_upstream := openAIChatPath; nr_converter := converter_none; nr_models := rules;
     nr_auth := Some {| na_type := Some (js "none"); na_name := []; na_value := [] |} |}.

(** The catch-all route of a path stands before one with rules. *)
Definition example_hidden : list NormalRoute :=
  [example_route openAIChatPath []; example_route openAIChatPath [js "gpt-4o"]].

Definition example_managed : list NormalRoute :=
  [example_route ADVANCED_CUSTOM_MODEL_LIST_PATH []; example_route openAIChatPath [js "gpt-4o"];
   example_route ADVANCED_CUSTOM_BALANCE_PATH []; example_route openAIChatPath []].

Lemma template_typed path a : typed_route (native_route a path).
Proof. split; try exact I; [by left|]. right. eexists. split; [done|]. repeat constructor. Qed.

Lemma example_normal path rules : Forall (fun m => trimmed m /\ m <> []) rules -> normal_ok (example_route path rules).
Proof. by split. Qed.

Lemma example_managed_normal : Forall normal_ok example_managed.
Proof. by repeat constructor. Qed.

Lemma custom_config_round_trip_witness :
  Forall typed_route createClaudeNativeRoutes /\
  exists text normal, stringifyAdvancedCustomConfig createClaudeNativeRoutes = Some text /\
    normalizeAdvancedCustomConfig createClaudeNativeRoutes = Some normal /\
    parseAdvancedCustomConfig (Some text) = Some normal /\
    normalizeAdvancedCustomConfig normal = Some normal /\ stringifyAdvancedCustomConfig normal = Some text.
Proof.
  assert (Forall typed_route createClaudeNativeRoutes) as Hc by (constructor; [apply template_typed|constructor]).
  split; [exact Hc|exact (custom_config_round_trip createClaudeNativeRoutes Hc)].
Defined.

Lemma embed_typed n : typed_route (embed n).
Proof.
  split; try exact I.
  - destruct n as [i u c [|m names] a]; [by left|right; by exists (m :: names)].
  - destruct n as [i u c names [[[t|] nm v]|]]; [right|right|by left]; eexists; (split; [reflexivity|]); repeat constructor.
Qed.

(** The hidden route, the one of index 1, is refused. *)
Lemma custom_validation_correct_witness :
  option_map (option_map routeIndex) (@validateAdvancedCustomConfig no_url (Some (embed <$> example_hidden))) = Some (Some (Some 1)) /\
  exists ns, Forall normal_ok ns /\ normalizeAdvancedCustomConfig (embed <$> example_hidden) = Some (embed <$> ns) /\
    match @validateAdvancedCustomConfig no_url (Some (embed <$> example_hidden)) with
    | None => False
    | Some None => ns <> [] /\ @valid_routes no_url ns
    | Some (Some e) =>
        match routeIndex e with
        | None => ns = []
        | Some i => i < length ns /\ @valid_routes no_url (take i ns) /\ ~ @valid_routes no_url (take (S i) ns)
        end
    end.
Proof.
  split; [vm_compute; reflexivity|].
  apply (@custom_validation_correct no_url). apply Forall_fmap, Forall_forall. intros n _. exact (embed_typed n).
Defined.

Lemma custom_edits_local_witness :
  Forall normal_ok example_managed /\
  (forall fs, exists before rest,
    replaceAdvancedCustomForwardingRoutes (embed <$> example_managed) (embed <$> fs)
    = Some (embed <$> before ++ fs ++ List.filter management rest) /\
    example_managed = before ++ rest /\ Forall (fun n => management n = true) before /\
    match rest with [] => True | n :: _ => management n = false end) /\
  exists out ns',
    replaceAdvancedCustomManagementRoute (embed <$> example_managed) ADVANCED_CUSTOM_BALANCE_PATH
      (Some (embed (example_route openAIChatPath [js "gpt-4o"]))) = Some out /\
    normalizeAdvancedCustomConfig out = Some (embed <$> ns') /\
    getAdvancedCustomManagementRoute out ADVANCED_CUSTOM_BALANCE_PATH
    = Some (Some (embed (management_route ADVANCED_CUSTOM_BALANCE_PATH (example_route openAIChatPath [js "gpt-4o"])))) /\
    List.filter (elsewhere ADVANCED_CUSTOM_BALANCE_PATH) ns' = List.filter (elsewhere ADVANCED_CUSTOM_BALANCE_PATH) example_managed.
Proof.
  split; [exact example_managed_normal|]. pose proof (@custom_edits_local no_url example_managed example_managed_normal) as (Hf & Hm & _).
  split; [exact Hf|]. apply Hm; [by vm_compute|by repeat constructor].
Defined.

(** A text whose route has a number for its path is taken by the parser, which
    catches what it throws; the statistics of the same text, which the drawer
    computes while it renders, throw. *)
Definition number_path_text : jstr :=
  json_text [] [] (JObj [(js "advanced_routes", JArr [JObj [(js "incoming_path", JNum (f64_of_Z 5))]])]).

Example number_path_throws :
  is_some_index (option_map (fun _ => 0) (parseAdvancedCustomConfig (Some number_path_text))) = true /\
  @getAdvancedCustomStats no_url (Some number_path_text) = None.
Proof. vm_compute. by split. Qed.
End CustomFacts.
