(* ===== verification/DashboardFlow.v ===== *)
(** * Dashboard: the flow of usage

    Model of [features/dashboard/lib/flow.ts]: rows of usage become paths through
    the stages of a Sankey diagram (users, nodes, tokens, groups, models,
    channels), and the paths become weighted nodes and links.  One definition per
    function; a node or link object that the code mutates is a record that the
    corresponding step replaces.  The palette of the chart library and the
    browser's number format are the class [FlowDisplay]. *)

From stdpp Require Import base list numbers strings.
From Stdlib Require Import ZArith SpecFloat Lia.
From S2P Require Import Prelude.
From S2P Require Import JsString.
From S2P Require Import JsNumber.
From S2P Require Import JsValue.
From S2P Require Import JsJson.
From S2P Require Import JsJsonText.
From S2P Require Import JsCollections.

(** A scheme of [vchartDefaultDataScheme]; a color that is not a string is [None]. *)
Record DataScheme := { maxDomainLength : option Z; scheme : list (option jstr) }.

Class FlowDisplay := {
  vchartDefaultDataScheme : list DataScheme;
  (** [Intl.NumberFormat(undefined, { maximumFractionDigits: 0 }).format] *)
  format_integer : f64 -> jstr;
}.

Module Flow.

(** ** Data *)

Inductive FlowNodeKind := Kuser | Knode | Ktoken | Kgroup | Kmodel | Kchannel.
#[export] Instance FlowNodeKind_eq_dec : EqDecision FlowNodeKind.
Proof. solve_decision. Defined.

(** The text of a kind. *)
Definition kind_name (k : FlowNodeKind) : jstr :=
  match k with
  | Kuser => js "user" | Knode => js "node" | Ktoken => js "token"
  | Kgroup => js "group" | Kmodel => js "model" | Kchannel => js "channel"
  end.

Inductive FlowMetric := Mquota | Mtokens | Mrequests.
Inductive FlowOverflowMode := Oaggregate | Ohide.
Inductive FlowRole := Ruser | Radmin | Rroot.

(** Missing properties are [None]. *)
Record FlowQuotaDataItem := {
  fq_user_id : option f64;
  fq_username : option jstr;
  fq_node_name : option jstr;
  fq_use_group : option jstr;
  fq_token_id : option f64;
  fq_token_name : option jstr;
  fq_channel_id : option f64;
  fq_channel_name : option jstr;
  fq_model_name : option jstr;
  fq_token_used : option f64;
  fq_count : option f64;
  fq_quota : option f64;
}.

Record FlowMetrics := { m_quota : f64; m_tokens : f64; m_requests : f64 }.

Record FlowPathNode := { pn_id : jstr; pn_label : jstr; pn_kind : FlowNodeKind }.

Record PreparedFlowPath := { pp_path : list FlowPathNode; pp_metrics : FlowMetrics }.

Record FlowNodeRank := { rk_node : FlowPathNode; rk_value : f64 }.

Record FlowNodeFilter := { nf_kind : FlowNodeKind; nf_id : jstr }.
Record FlowLinkSelection := { ls_source : jstr; ls_target : jstr }.

Record DashboardFlowNode := {
  dn_id : jstr;
  dn_label : jstr;
  dn_kind : FlowNodeKind;
  dn_value : f64;
  dn_requests : f64;
  dn_quota : f64;
  dn_tokens : f64;
  dn_color : jstr;
  dn_colorKey : jstr;
  dn_highlighted : option bool;
  dn_dimmed : option bool;
}.

Record DashboardFlowLink := {
  dl_source : jstr;
  dl_target : jstr;
  dl_value : f64;
  dl_requests : f64;
  dl_quota : f64;
  dl_tokens : f64;
  dl_sourceLabel : jstr;
  dl_targetLabel : jstr;
  dl_color : jstr;
  dl_linkColor : jstr;
  dl_linkAlpha : f64;
  dl_hoverColor : jstr;
  dl_colorKey : jstr;
  dl_share : f64;
  dl_highlighted : option bool;
  dl_dimmed : option bool;
}.

Record DashboardFlowGraph := { g_nodes : list DashboardFlowNode; g_links : list DashboardFlowLink }.

Record FlowSummary := { fs_quota : f64; fs_tokens : f64; fs_requests : f64 }.

Record FlowUserFilterOption := {
  uo_value : jstr; uo_label : jstr; uo_valueLabel : jstr; uo_valueRaw : f64; uo_color : jstr;
}.

Record FlowNodeFilterOption := {
  no_kind : FlowNodeKind; no_value : jstr; no_label : jstr; no_valueLabel : jstr; no_valueRaw : f64; no_color : jstr;
}.

Record FlowFilterOptions := { fo_users : list FlowUserFilterOption; fo_nodes : list FlowNodeFilterOption }.

Record ProcessedFlowData := { pf_summary : FlowSummary; pf_flow : DashboardFlowGraph; pf_filterOptions : FlowFilterOptions }.

Record FlowGraphOptions := {
  go_topNodeLimit : option f64;
  go_overflowMode : option FlowOverflowMode;
  go_otherNodeLabel : option (FlowNodeKind -> jstr);
  go_activeNode : option FlowNodeFilter;
  go_activeLink : option FlowLinkSelection;
  go_maskSensitive : bool;
}.

Record FlowBuildOptions := {
  bo_role : option FlowRole;
  bo_selectedUsers : option (list jstr);
  bo_selectedNodes : option (list FlowNodeFilter);
  bo_colorPalette : option (list jstr);
  bo_visibleStages : option (list FlowNodeKind);
  bo_deletedTokenLabel : option (f64 -> jstr);
  bo_graph : FlowGraphOptions;
}.

(** [FlowPathContext]: its only property. *)
Abbreviation FlowPathContext := (option (f64 -> jstr)).

Definition DEFAULT_FLOW_ROLE : FlowRole := Ruser.
Definition DEFAULT_FLOW_OVERFLOW_MODE : FlowOverflowMode := Oaggregate.
Definition DEFAULT_FLOW_CHART_COLOR : jstr := js "#1664FF".

Definition OTHER_FLOW_NODE_IDS (k : FlowNodeKind) : jstr := kind_name k ++ js ":__other__".

Definition DEFAULT_OTHER_FLOW_NODE_LABELS (k : FlowNodeKind) : jstr :=
  match k with
  | Kuser => js "Other users" | Knode => js "Other nodes" | Ktoken => js "Other tokens"
  | Kgroup => js "Other groups" | Kmodel => js "Other models" | Kchannel => js "Other channels"
  end.

Definition SENSITIVE_FLOW_KINDS : list FlowNodeKind := [Kuser; Knode; Ktoken; Kgroup; Kchannel].

Definition FLOW_NODE_KINDS : list FlowNodeKind := [Kuser; Knode; Ktoken; Kgroup; Kmodel; Kchannel].

Definition OTHER_FLOW_NODE_ID_SET : list jstr := OTHER_FLOW_NODE_IDS <$> FLOW_NODE_KINDS.

(** ** Rows and paths *)

Definition numberValue (value : option f64) : f64 :=
  match value with Some n => if is_finite n then n else fzero | None => fzero end.

Definition rowMetrics (row : FlowQuotaDataItem) : FlowMetrics :=
  {| m_quota := numberValue (fq_quota row); m_tokens := numberValue (fq_token_used row);
     m_requests := numberValue (fq_count row) |}.

Definition metricValue (metrics : FlowMetrics) (metric : FlowMetric) : f64 :=
  match metric with
  | Mrequests => m_requests metrics
  | Mtokens => m_tokens metrics
  | Mquota => m_quota metrics
  end.

(** [text || fallback] *)
Definition text_or (text : option jstr) (fallback : jstr) : jstr :=
  match text with None | Some [] => fallback | Some t => t end.

(** [`${prefix}${id}`] for a positive identifier, and a name otherwise. *)
Definition prefixed_id (prefix : jstr) (id : f64) (name : option jstr) : jstr :=
  prefix ++ (if fltb fzero id then number_to_string id else text_or name (js "unknown")).

Definition userNode (row : FlowQuotaDataItem) : FlowPathNode :=
  let userID := numberValue (fq_user_id row) in
  {| pn_id := prefixed_id (js "user:") userID (fq_username row);
     pn_label := text_or (fq_username row)
       (if fltb fzero userID then js "user-" ++ number_to_string userID else js "Unknown User");
     pn_kind := Kuser |}.

Definition nodeNameNode (row : FlowQuotaDataItem) : FlowPathNode :=
  let nodeName := text_or (fq_node_name row) (js "default-node") in
  {| pn_id := js "node:" ++ nodeName; pn_label := nodeName; pn_kind := Knode |}.

Definition deletedTokenLabel (tokenID : f64) (ctx : FlowPathContext) : jstr :=
  if fleb tokenID fzero then js "Unknown Token"
  else match ctx with Some f => f tokenID | None => js "token-" ++ number_to_string tokenID end.

Definition tokenNode (row : FlowQuotaDataItem) (ctx : FlowPathContext) : FlowPathNode :=
  let tokenID := numberValue (fq_token_id row) in
  {| pn_id := prefixed_id (js "token:") tokenID (fq_token_name row);
     pn_label := text_or (fq_token_name row) (deletedTokenLabel tokenID ctx);
     pn_kind := Ktoken |}.

Definition groupNode (row : FlowQuotaDataItem) : FlowPathNode :=
  let useGroup := text_or (fq_use_group row) (js "unknown") in
  {| pn_id := js "group:" ++ useGroup; pn_label := useGroup; pn_kind := Kgroup |}.

Definition modelNode (row : FlowQuotaDataItem) : FlowPathNode :=
  {| pn_id := js "model:" ++ text_or (fq_model_name row) (js "unknown");
     pn_label := text_or (fq_model_name row) (js "Unknown Model"); pn_kind := Kmodel |}.

Definition channelNode (row : FlowQuotaDataItem) : FlowPathNode :=
  let channelID := numberValue (fq_channel_id row) in
  {| pn_id := prefixed_id (js "channel:") channelID (fq_channel_name row);
     pn_label := text_or (fq_channel_name row)
       (if fltb fzero channelID then js "channel-" ++ number_to_string channelID else js "Unknown");
     pn_kind := Kchannel |}.

Definition NODE_BUILDERS (k : FlowNodeKind) (row : FlowQuotaDataItem) (ctx : FlowPathContext) : FlowPathNode :=
  match k with
  | Kuser => userNode row
  | Knode => nodeNameNode row
  | Ktoken => tokenNode row ctx
  | Kgroup => groupNode row
  | Kmodel => modelNode row
  | Kchannel => channelNode row
  end.

Definition getFlowStages (role : FlowRole) : list FlowNodeKind :=
  match role with
  | Rroot => [Kuser; Knode; Ktoken; Kgroup; Kmodel; Kchannel]
  | Radmin => [Kuser; Kgroup; Kmodel; Kchannel]
  | Ruser => [Ktoken; Kgroup; Kmodel]
  end.

Definition MIN_FLOW_STAGES : nat := 2.

Definition resolveVisibleStages (role : FlowRole) (visibleStages : option (list FlowNodeKind)) : list FlowNodeKind :=
  let stages := getFlowStages role in
  match visibleStages with
  | None => stages
  | Some visible =>
      let filtered := List.filter (fun stage => bool_decide (stage ∈ visible)) stages in
      if Nat.leb MIN_FLOW_STAGES (length filtered) then filtered else stages
  end.

Definition flowPathForStages (row : FlowQuotaDataItem) (stages : list FlowNodeKind) (ctx : FlowPathContext)
    : list FlowPathNode :=
  (fun stage => NODE_BUILDERS stage row ctx) <$> stages.

(** The consecutive pairs of a path: the loop over [i < path.length - 1]. *)
Definition path_links (path : list FlowPathNode) : list (FlowPathNode * FlowPathNode) :=
  zip path (tail path).

(** ** Colors *)

Section Display.
Context `{Collation} `{FlowDisplay}.

(** [getDashboardChartColors] of [charts.ts]. *)
Definition getDashboardChartColors (domainLength : nat) : list jstr :=
  let fits s := match maxDomainLength s with
                | None => true
                | Some m => (m =? 0)%Z || (Z.of_nat domainLength <=? m)%Z
                end in
  match (match List.find fits vchartDefaultDataScheme with
         | Some s => Some s
         | None => last vchartDefaultDataScheme
         end) with
  | None => []
  | Some s => omap id (scheme s)
  end.

(** [palette && palette.length > 0 ? palette : colors] *)
Definition palette_or (palette : option (list jstr)) (colors : list jstr) : list jstr :=
  match palette with Some ((_ :: _) as p) => p | _ => colors end.

Definition colorAt (index : nat) (palette : option (list jstr)) : jstr :=
  let colors := palette_or palette (getDashboardChartColors (index + 1)) in
  default DEFAULT_FLOW_CHART_COLOR (colors !! (index mod length colors)).

Definition colorPalette (colorCount : nat) (palette : option (list jstr)) : list jstr :=
  palette_or palette
    (match getDashboardChartColors colorCount with [] => [DEFAULT_FLOW_CHART_COLOR] | colors => colors end).

(** [value.toFixed(2)] of a finite number that is not negative, below [1e21]. *)
Definition to_fixed2 (value : f64) : jstr :=
  let hundredths :=
    match value with
    | S754_finite _ m e =>
        let num := (Zpos m * 2 ^ Z.max 0 e)%Z in
        let den := (2 ^ Z.max 0 (- e))%Z in
        Z.to_N ((200 * num + den) / (2 * den))
    | _ => 0%N
    end in
  let r := (hundredths mod 100)%N in
  N_digits (hundredths / 100) ++ js "." ++ (if (r <? 10)%N then js "0" ++ N_digits r else N_digits r).

Definition alphaColor (color : jstr) (alpha : f64) : jstr * f64 :=
  let normalized := trim color in
  let hex := match normalized with c :: rest => if (c =? 35)%N then rest else normalized | [] => [] end in
  if negb (Nat.eqb (length hex) 6 && forallb is_hex hex) then (normalized, alpha)
  else
    let value := foldl (fun a c => 16 * a + hex_val c)%N 0%N hex in
    let red := N.land (N.shiftr value 16) 255 in
    let green := N.land (N.shiftr value 8) 255 in
    let blue := N.land value 255 in
    (js "rgba(" ++ N_digits red ++ js ", " ++ N_digits green ++ js ", " ++ N_digits blue ++ js ", "
       ++ to_fixed2 alpha ++ js ")", f64_of_Z 1).

Definition stableColorMap (keys : list jstr) (palette : option (list jstr)) : list (jstr * jstr) :=
  let uniqueKeys := uniq keys in
  let colors := colorPalette (length uniqueKeys) palette in
  imap (fun index key => (key, colorAt index (Some colors))) uniqueKeys.

(** ** Filters *)

Definition filterRows (rows : list FlowQuotaDataItem) (selectedUsers : option (list jstr)) : list FlowQuotaDataItem :=
  match uniq (default [] selectedUsers) with
  | [] => rows
  | selected => List.filter (fun row => bool_decide (pn_id (userNode row) ∈ selected)) rows
  end.

(** [`${left}\u0000${right}`] *)
Definition nul_key (left right : jstr) : jstr := left ++ [0%N] ++ right.

Definition nodeFilterKey (filter : FlowNodeFilter) : jstr := nul_key (kind_name (nf_kind filter)) (nf_id filter).

(** [set.add(id)] *)
Definition add_id (id : jstr) (s : list jstr) : list jstr := if bool_decide (id ∈ s) then s else s ++ [id].

Definition normalizeSelectedNodeFilters (selectedNodes : option (list FlowNodeFilter)) (stages : list FlowNodeKind)
    : list (FlowNodeKind * list jstr) :=
  foldl (fun filters filter =>
           if bool_decide (nf_kind filter ∈ stages)
           then mset (nf_kind filter) (add_id (nf_id filter) (default [] (mget (nf_kind filter) filters))) filters
           else filters) [] (default [] selectedNodes).

(** The identifiers of a path by kind. *)
Definition path_ids (path : list FlowPathNode) : list (FlowNodeKind * list jstr) :=
  foldl (fun m node => mset (pn_kind node) (add_id (pn_id node) (default [] (mget (pn_kind node) m))) m) [] path.

Definition pathMatchesNodeFilters (path : list FlowPathNode) (filters : list (FlowNodeKind * list jstr)) : bool :=
  match filters with
  | [] => true
  | _ =>
      let pathNodesByKind := path_ids path in
      forallb (fun filter =>
        match mget (fst filter) pathNodesByKind with
        | None => false
        | Some pathIds => existsb (fun id => bool_decide (id ∈ pathIds)) (snd filter)
        end) filters
  end.

Definition filterRowsByNodes (rows : list FlowQuotaDataItem) (selectedNodes : option (list FlowNodeFilter))
    (stages : list FlowNodeKind) (ctx : FlowPathContext) : list FlowQuotaDataItem :=
  match normalizeSelectedNodeFilters selectedNodes stages with
  | [] => rows
  | filters => List.filter (fun row => pathMatchesNodeFilters (flowPathForStages row stages ctx) filters) rows
  end.

Definition selectedNodeFiltersExceptKind (selectedNodes : option (list FlowNodeFilter)) (kind : FlowNodeKind)
    : option (list FlowNodeFilter) :=
  match List.filter (fun filter => bool_decide (nf_kind filter <> kind)) (default [] selectedNodes) with
  | [] => None
  | filtered => Some filtered
  end.

(** ** Nodes and links *)

Definition addNode (map : list (jstr * DashboardFlowNode)) (pathNode : FlowPathNode) (metrics : FlowMetrics)
    (metric : FlowMetric) (color colorKey : jstr) : list (jstr * DashboardFlowNode) :=
  let previous := default
    {| dn_id := pn_id pathNode; dn_label := pn_label pathNode; dn_kind := pn_kind pathNode; dn_value := fzero;
       dn_requests := fzero; dn_quota := fzero; dn_tokens := fzero; dn_color := color; dn_colorKey := colorKey;
       dn_highlighted := None; dn_dimmed := None |} (mget (pn_id pathNode) map) in
  mset (pn_id pathNode)
    {| dn_id := dn_id previous; dn_label := dn_label previous; dn_kind := dn_kind previous;
       dn_value := fadd (dn_value previous) (metricValue metrics metric);
       dn_requests := fadd (dn_requests previous) (m_requests metrics);
       dn_quota := fadd (dn_quota previous) (m_quota metrics);
       dn_tokens := fadd (dn_tokens previous) (m_tokens metrics);
       dn_color := dn_color previous; dn_colorKey := dn_colorKey previous;
       dn_highlighted := dn_highlighted previous; dn_dimmed := dn_dimmed previous |} map.

Definition pathLinkKey (source target : FlowPathNode) : jstr := nul_key (pn_id source) (pn_id target).

Definition linkStableKey (link : DashboardFlowLink) : jstr := nul_key (dl_source link) (dl_target link).

Definition addLink (map : list (jstr * DashboardFlowLink)) (source target : FlowPathNode) (metrics : FlowMetrics)
    (metric : FlowMetric) (color colorKey : jstr) : list (jstr * DashboardFlowLink) :=
  let key := pathLinkKey source target in
  let previous := default
    {| dl_source := pn_id source; dl_target := pn_id target; dl_value := fzero; dl_requests := fzero;
       dl_quota := fzero; dl_tokens := fzero; dl_sourceLabel := pn_label source; dl_targetLabel := pn_label target;
       dl_color := color; dl_linkColor := color; dl_linkAlpha := f64_of_Z 1; dl_hoverColor := color;
       dl_colorKey := colorKey; dl_share := fzero; dl_highlighted := None; dl_dimmed := None |} (mget key map) in
  mset key
    {| dl_source := dl_source previous; dl_target := dl_target previous;
       dl_value := fadd (dl_value previous) (metricValue metrics metric);
       dl_requests := fadd (dl_requests previous) (m_requests metrics);
       dl_quota := fadd (dl_quota previous) (m_quota metrics);
       dl_tokens := fadd (dl_tokens previous) (m_tokens metrics);
       dl_sourceLabel := dl_sourceLabel previous; dl_targetLabel := dl_targetLabel previous;
       dl_color := dl_color previous; dl_linkColor := dl_linkColor previous; dl_linkAlpha := dl_linkAlpha previous;
       dl_hoverColor := dl_hoverColor previous; dl_colorKey := dl_colorKey previous; dl_share := dl_share previous;
       dl_highlighted := dl_highlighted previous; dl_dimmed := dl_dimmed previous |} map.

Definition setLinkColor (displayColor : jstr * f64) (link : DashboardFlowLink) : DashboardFlowLink :=
  {| dl_source := dl_source link; dl_target := dl_target link; dl_value := dl_value link;
     dl_requests := dl_requests link; dl_quota := dl_quota link; dl_tokens := dl_tokens link;
     dl_sourceLabel := dl_sourceLabel link; dl_targetLabel := dl_targetLabel link; dl_color := dl_color link;
     dl_linkColor := fst displayColor; dl_linkAlpha := snd displayColor; dl_hoverColor := dl_color link;
     dl_colorKey := dl_colorKey link; dl_share := dl_share link;
     dl_highlighted := dl_highlighted link; dl_dimmed := dl_dimmed link |}.

(** The comparator of [assignLinkDisplayColors]. *)
Definition byLinkValue (a b : DashboardFlowLink) : comparison :=
  then_by (compare_by (dl_value b) (dl_value a)) (localeCompare (linkStableKey a) (linkStableKey b)).

(** The display colors of the links of one source, each with its position. *)
Definition source_colors (sourceLinks : list (nat * DashboardFlowLink)) : list (nat * (jstr * f64)) :=
  let sortedLinks := sort_by (fun a b => byLinkValue (snd a) (snd b)) sourceLinks in
  let denominator := Nat.max (length sortedLinks - 1) 1 in
  imap (fun index entry =>
    let alpha := if Nat.eqb (length sortedLinks) 1 then number_of_string (js "0.34")
                 else fadd (number_of_string (js "0.24"))
                        (fmul (fdiv (f64_of_Z (Z.of_nat index)) (f64_of_Z (Z.of_nat denominator)))
                              (number_of_string (js "0.2"))) in
    (fst entry, alphaColor (dl_color (snd entry)) alpha)) sortedLinks.

(** A link object is its position in the list. *)
Definition assignLinkDisplayColors (links : list DashboardFlowLink) : list DashboardFlowLink :=
  let linksBySource :=
    foldl (fun m entry =>
             mset (dl_source (snd entry)) (default [] (mget (dl_source (snd entry)) m) ++ [entry]) m)
      [] (imap pair links) in
  let colors := concat (map (fun e => source_colors (snd e)) linksBySource) in
  imap (fun index link => match mget index colors with Some c => setLinkColor c link | None => link end) links.

Definition byValueThenLabel (a b : DashboardFlowNode) : comparison :=
  then_by (compare_by (dn_value b) (dn_value a)) (localeCompare (dn_label a) (dn_label b)).

Definition buildSummary (rows : list FlowQuotaDataItem) : FlowSummary :=
  foldl (fun summary row =>
           let metrics := rowMetrics row in
           {| fs_quota := fadd (fs_quota summary) (m_quota metrics);
              fs_tokens := fadd (fs_tokens summary) (m_tokens metrics);
              fs_requests := fadd (fs_requests summary) (m_requests metrics) |})
    {| fs_quota := fzero; fs_tokens := fzero; fs_requests := fzero |} rows.

(** ** The largest nodes of a stage *)

Definition normalizeTopNodeLimit (limit : option f64) : option f64 :=
  match limit with
  | None => None
  | Some l => let parsed := ffloor l in if is_finite parsed && fltb fzero parsed then Some parsed else None
  end.

Definition otherFlowNode (kind : FlowNodeKind) (labeler : option (FlowNodeKind -> jstr)) : FlowPathNode :=
  {| pn_id := OTHER_FLOW_NODE_IDS kind;
     pn_label := match labeler with Some f => f kind | None => DEFAULT_OTHER_FLOW_NODE_LABELS kind end;
     pn_kind := kind |}.

(** One node of a path in the totals of the stages. *)
Definition addTotal (value : f64) (totals : list (FlowNodeKind * list (jstr * FlowNodeRank))) (node : FlowPathNode)
    : list (FlowNodeKind * list (jstr * FlowNodeRank)) :=
  match mget (pn_kind node) totals with
  | None => totals
  | Some stageTotals =>
      let current := default {| rk_node := node; rk_value := fzero |} (mget (pn_id node) stageTotals) in
      mset (pn_kind node)
        (mset (pn_id node) {| rk_node := rk_node current; rk_value := fadd (rk_value current) value |} stageTotals)
        totals
  end.

Definition byRank (a b : FlowNodeRank) : comparison :=
  then_by (compare_by (rk_value b) (rk_value a))
    (then_by (localeCompare (pn_label (rk_node a)) (pn_label (rk_node b)))
       (localeCompare (pn_id (rk_node a)) (pn_id (rk_node b)))).

Definition topIds (limit : f64) (stageTotals : list (jstr * FlowNodeRank)) : list jstr :=
  (fun rank => pn_id (rk_node rank)) <$> take (Z.to_nat (to_Z limit)) (sort_by byRank (stageTotals.*2)).

(** [!value] on a number *)
Definition falsy_number (value : option f64) : bool :=
  match value with None => true | Some n => feqb n fzero || negb (feqb n n) end.

Definition buildTopNodeSets (rows : list FlowQuotaDataItem) (metric : FlowMetric) (stages : list FlowNodeKind)
    (limit : option f64) (ctx : FlowPathContext) : option (list (FlowNodeKind * list jstr)) :=
  match limit with
  | None => None
  | Some l =>
      if falsy_number limit then None else
      let totals0 := foldl (fun m stage => mset stage [] m) [] stages in
      let totals := foldl (fun m row =>
                             let value := metricValue (rowMetrics row) metric in
                             foldl (addTotal value) m (flowPathForStages row stages ctx)) totals0 rows in
      Some (foldl (fun m entry => mset (fst entry) (topIds l (snd entry)) m) [] totals)
  end.

Definition isTopFlowNode (node : FlowPathNode) (topNodeSets : option (list (FlowNodeKind * list jstr))) : bool :=
  match s ← topNodeSets; mget (pn_kind node) s with
  | None => true
  | Some topNodes => bool_decide (pn_id node ∈ topNodes)
  end.

Definition applyTopNodeLimit (path : list FlowPathNode) (topNodeSets : option (list (FlowNodeKind * list jstr)))
    (mode : FlowOverflowMode) (labeler : option (FlowNodeKind -> jstr)) : option (list FlowPathNode) :=
  match topNodeSets with
  | None => Some path
  | Some _ =>
      if negb (existsb (fun node => negb (isTopFlowNode node topNodeSets)) path) then Some path
      else
        match mode with
        | Ohide => None
        | Oaggregate =>
            Some ((fun node => if isTopFlowNode node topNodeSets then node else otherFlowNode (pn_kind node) labeler)
                    <$> path)
        end
  end.

(** ** Highlights and masks *)

Definition pathContainsFlowNode (path : list FlowPathNode) (filter : FlowNodeFilter) : bool :=
  existsb (fun node => bool_decide (pn_kind node = nf_kind filter) && jeqb (pn_id node) (nf_id filter)) path.

Definition pathContainsFlowLink (path : list FlowPathNode) (link : FlowLinkSelection) : bool :=
  existsb (fun e => jeqb (pn_id (fst e)) (ls_source link) && jeqb (pn_id (snd e)) (ls_target link)) (path_links path).

(** [matchesPath] *)
Definition matches_path (activeNode : option FlowNodeFilter) (activeLink : option FlowLinkSelection)
    (path : list FlowPathNode) : bool :=
  match activeLink with
  | Some l => pathContainsFlowLink path l
  | None => match activeNode with Some f => pathContainsFlowNode path f | None => false end
  end.

(** The identifiers of the nodes and the keys of the links to highlight. *)
Definition buildFlowHighlightSets (preparedPaths : list PreparedFlowPath) (activeNode : option FlowNodeFilter)
    (activeLink : option FlowLinkSelection) (stages : list FlowNodeKind) : option (list jstr * list jstr) :=
  let nodeActive := match activeNode with Some f => bool_decide (nf_kind f ∈ stages) | None => false end in
  if negb nodeActive && match activeLink with None => true | Some _ => false end then None
  else
    let paths := List.filter (matches_path activeNode activeLink) (pp_path <$> preparedPaths) in
    let highlightedNodes := uniq (concat (map (fun path => pn_id <$> path) paths)) in
    let highlightedLinks := uniq (concat (map (fun path => (fun e => pathLinkKey (fst e) (snd e)) <$> path_links path) paths)) in
    match highlightedNodes with
    | [] => None
    | _ => Some (highlightedNodes, highlightedLinks)
    end.

Definition FLOW_MASK_TEXT : jstr := [8226; 8226; 8226; 8226]%N.

Definition maskFlowLabel (label : jstr) : jstr := match label with [] => [] | _ => FLOW_MASK_TEXT end.

Definition setNodeLabel (label : jstr) (n : DashboardFlowNode) : DashboardFlowNode :=
  {| dn_id := dn_id n; dn_label := label; dn_kind := dn_kind n; dn_value := dn_value n; dn_requests := dn_requests n;
     dn_quota := dn_quota n; dn_tokens := dn_tokens n; dn_color := dn_color n; dn_colorKey := dn_colorKey n;
     dn_highlighted := dn_highlighted n; dn_dimmed := dn_dimmed n |}.

Definition setLinkLabels (source target : jstr) (l : DashboardFlowLink) : DashboardFlowLink :=
  {| dl_source := dl_source l; dl_target := dl_target l; dl_value := dl_value l; dl_requests := dl_requests l;
     dl_quota := dl_quota l; dl_tokens := dl_tokens l; dl_sourceLabel := source; dl_targetLabel := target;
     dl_color := dl_color l; dl_linkColor := dl_linkColor l; dl_linkAlpha := dl_linkAlpha l;
     dl_hoverColor := dl_hoverColor l; dl_colorKey := dl_colorKey l; dl_share := dl_share l;
     dl_highlighted := dl_highlighted l; dl_dimmed := dl_dimmed l |}.

(** A node whose label is masked. *)
Definition masked_node (n : DashboardFlowNode) : bool :=
  bool_decide (dn_kind n ∈ SENSITIVE_FLOW_KINDS) && negb (bool_decide (dn_id n ∈ OTHER_FLOW_NODE_ID_SET)).

Definition maskFlowGraphLabels (nodes : list (jstr * DashboardFlowNode)) (links : list (jstr * DashboardFlowLink))
    : list (jstr * DashboardFlowNode) * list (jstr * DashboardFlowLink) :=
  let maskedById := foldl (fun m n => mset (dn_id n) (maskFlowLabel (dn_label n)) m) []
                      (List.filter masked_node (nodes.*2)) in
  let nodes' := prod_map id (fun n => if masked_node n then setNodeLabel (maskFlowLabel (dn_label n)) n else n) <$> nodes in
  match maskedById with
  | [] => (nodes', links)
  | _ =>
      (nodes', prod_map id (fun l =>
         setLinkLabels (default (dl_sourceLabel l) (mget (dl_source l) maskedById))
           (default (dl_targetLabel l) (mget (dl_target l) maskedById)) l) <$> links)
  end.

Definition setNodeFlags (highlighted : bool) (n : DashboardFlowNode) : DashboardFlowNode :=
  {| dn_id := dn_id n; dn_label := dn_label n; dn_kind := dn_kind n; dn_value := dn_value n; dn_requests := dn_requests n;
     dn_quota := dn_quota n; dn_tokens := dn_tokens n; dn_color := dn_color n; dn_colorKey := dn_colorKey n;
     dn_highlighted := Some highlighted; dn_dimmed := Some (negb highlighted) |}.

Definition setLinkFlags (highlighted : bool) (l : DashboardFlowLink) : DashboardFlowLink :=
  {| dl_source := dl_source l; dl_target := dl_target l; dl_value := dl_value l; dl_requests := dl_requests l;
     dl_quota := dl_quota l; dl_tokens := dl_tokens l; dl_sourceLabel := dl_sourceLabel l; dl_targetLabel := dl_targetLabel l;
     dl_color := dl_color l; dl_linkColor := dl_linkColor l; dl_linkAlpha := dl_linkAlpha l;
     dl_hoverColor := dl_hoverColor l; dl_colorKey := dl_colorKey l; dl_share := dl_share l;
     dl_highlighted := Some highlighted; dl_dimmed := Some (negb highlighted) |}.

Definition applyFlowHighlights (nodes : list (jstr * DashboardFlowNode)) (links : list (jstr * DashboardFlowLink))
    (highlightSets : option (list jstr * list jstr))
    : list (jstr * DashboardFlowNode) * list (jstr * DashboardFlowLink) :=
  match highlightSets with
  | None => (nodes, links)
  | Some (hn, hl) =>
      (prod_map id (fun n => setNodeFlags (bool_decide (dn_id n ∈ hn)) n) <$> nodes,
       prod_map id (fun l => setLinkFlags (bool_decide (linkStableKey l ∈ hl)) l) <$> links)
  end.

(** ** The graph *)

(** [paths.map((prepared) => prepared.path[0]?.id).filter(Boolean)] *)
Definition root_ids (preparedPaths : list PreparedFlowPath) : list jstr :=
  omap (fun prepared => match pp_path prepared with
                        | root :: _ => match pn_id root with [] => None | i => Some i end
                        | [] => None
                        end) preparedPaths.

Definition preparePaths (rows : list FlowQuotaDataItem) (stages : list FlowNodeKind) (ctx : FlowPathContext)
    (topNodeSets : option (list (FlowNodeKind * list jstr))) (mode : FlowOverflowMode)
    (labeler : option (FlowNodeKind -> jstr)) : list PreparedFlowPath :=
  omap (fun row =>
          path ← applyTopNodeLimit (flowPathForStages row stages ctx) topNodeSets mode labeler;
          Some {| pp_path := path; pp_metrics := rowMetrics row |}) rows.

(** One turn of the loop that fills the maps. *)
Definition addPath (metric : FlowMetric) (palette : option (list jstr)) (colors : list (jstr * jstr))
    (maps : list (jstr * DashboardFlowNode) * list (jstr * DashboardFlowLink)) (prepared : PreparedFlowPath)
    : list (jstr * DashboardFlowNode) * list (jstr * DashboardFlowLink) :=
  match pp_path prepared with
  | [] => maps
  | root :: _ =>
      let color := default (colorAt 0 palette) (mget (pn_id root) colors) in
      (foldl (fun m node => addNode m node (pp_metrics prepared) metric color (pn_id root)) (fst maps) (pp_path prepared),
       foldl (fun m e => addLink m (fst e) (snd e) (pp_metrics prepared) metric color (pn_id root)) (snd maps)
         (path_links (pp_path prepared)))
  end.

Definition setShare (share : f64) (l : DashboardFlowLink) : DashboardFlowLink :=
  {| dl_source := dl_source l; dl_target := dl_target l; dl_value := dl_value l; dl_requests := dl_requests l;
     dl_quota := dl_quota l; dl_tokens := dl_tokens l; dl_sourceLabel := dl_sourceLabel l; dl_targetLabel := dl_targetLabel l;
     dl_color := dl_color l; dl_linkColor := dl_linkColor l; dl_linkAlpha := dl_linkAlpha l;
     dl_hoverColor := dl_hoverColor l; dl_colorKey := dl_colorKey l; dl_share := share;
     dl_highlighted := dl_highlighted l; dl_dimmed := dl_dimmed l |}.

Definition byEnds (a b : DashboardFlowLink) : comparison :=
  then_by (localeCompare (dl_source a) (dl_source b)) (localeCompare (dl_target a) (dl_target b)).

(** The sum of the links that leave the first stage. *)
Definition linkTotal (preparedPaths : list PreparedFlowPath) (flowLinks : list DashboardFlowLink) : f64 :=
  let firstStepSources := root_ids preparedPaths in
  foldl (fun sum link => fadd sum (dl_value link)) fzero
    (List.filter (fun link => bool_decide (dl_source link ∈ firstStepSources)) flowLinks).

(** The paths of [buildFlowGraph]. *)
Definition graphPaths (rows : list FlowQuotaDataItem) (metric : FlowMetric) (stages : list FlowNodeKind)
    (ctx : FlowPathContext) (options : FlowGraphOptions) : list PreparedFlowPath :=
  let topNodeSets := buildTopNodeSets rows metric stages (normalizeTopNodeLimit (go_topNodeLimit options)) ctx in
  preparePaths rows stages ctx topNodeSets (default DEFAULT_FLOW_OVERFLOW_MODE (go_overflowMode options))
    (go_otherNodeLabel options).

Definition buildFlowGraph (rows : list FlowQuotaDataItem) (metric : FlowMetric) (role : FlowRole)
    (palette : option (list jstr)) (visibleStages : option (list FlowNodeKind)) (ctx : FlowPathContext)
    (options : FlowGraphOptions) : DashboardFlowGraph :=
  let stages := resolveVisibleStages role visibleStages in
  let preparedPaths := graphPaths rows metric stages ctx options in
  let colors := stableColorMap (sort_by localeCompare (root_ids preparedPaths)) palette in
  let maps := foldl (addPath metric palette colors) ([], []) preparedPaths in
  let maps := if go_maskSensitive options then maskFlowGraphLabels (fst maps) (snd maps) else maps in
  let '(nodes, links) := applyFlowHighlights (fst maps) (snd maps)
    (buildFlowHighlightSets preparedPaths (go_activeNode options) (go_activeLink options) stages) in
  let flowLinks := sort_by byEnds (links.*2) in
  let total := linkTotal preparedPaths flowLinks in
  let flowLinks := (fun link => setShare (if fltb fzero total then fdiv (dl_value link) total else fzero) link) <$> flowLinks in
  {| g_nodes := sort_by byValueThenLabel (nodes.*2); g_links := assignLinkDisplayColors flowLinks |}.

(** ** Filter options *)

(** [!value] on a text *)
Definition falsy_text (value : option jstr) : bool := match value with None | Some [] => true | _ => false end.

Record UserTotal := { ut_label : jstr; ut_value : f64; ut_color : jstr }.

Definition byUserValue (a b : FlowUserFilterOption) : comparison :=
  then_by (compare_by (uo_valueRaw b) (uo_valueRaw a)) (localeCompare (uo_label a) (uo_label b)).

Definition buildUserFilterOptions (rows : list FlowQuotaDataItem) (metric : FlowMetric) (palette : option (list jstr))
    : list FlowUserFilterOption :=
  let colors := stableColorMap (sort_by localeCompare ((fun row => pn_id (userNode row)) <$> rows)) palette in
  let users := foldl (fun users row =>
    let user := userNode row in
    if falsy_number (fq_user_id row) && falsy_text (fq_username row) then users
    else
      let current := default {| ut_label := pn_label user; ut_value := fzero;
                                ut_color := default (colorAt 0 palette) (mget (pn_id user) colors) |}
                       (mget (pn_id user) users) in
      mset (pn_id user) {| ut_label := ut_label current; ut_color := ut_color current;
                           ut_value := fadd (ut_value current) (metricValue (rowMetrics row) metric) |} users) [] rows in
  sort_by byUserValue
    ((fun e => {| uo_value := fst e; uo_label := ut_label (snd e); uo_valueLabel := format_integer (ut_value (snd e));
                  uo_valueRaw := ut_value (snd e); uo_color := ut_color (snd e) |}) <$> users).

(** [stageOrder.get(kind) ?? 0] *)
Definition stage_order (stages : list FlowNodeKind) (kind : FlowNodeKind) : nat :=
  match list_find (fun stage => stage = kind) stages with Some (i, _) => i | None => 0 end.

Definition byStage (stages : list FlowNodeKind) (a b : FlowNodeFilterOption) : comparison :=
  then_by (Nat.compare (stage_order stages (no_kind a)) (stage_order stages (no_kind b)))
    (then_by (compare_by (no_valueRaw b) (no_valueRaw a))
       (then_by (localeCompare (no_label a) (no_label b)) (localeCompare (no_value a) (no_value b)))).

(** The totals of the nodes of one stage. *)
Definition stage_totals (rows : list FlowQuotaDataItem) (metric : FlowMetric) (stage : FlowNodeKind)
    (ctx : FlowPathContext) : list (jstr * FlowNodeRank) :=
  foldl (fun totals row =>
           let node := NODE_BUILDERS stage row ctx in
           let key := nodeFilterKey {| nf_kind := pn_kind node; nf_id := pn_id node |} in
           let current := default {| rk_node := node; rk_value := fzero |} (mget key totals) in
           mset key {| rk_node := rk_node current;
                       rk_value := fadd (rk_value current) (metricValue (rowMetrics row) metric) |} totals) [] rows.

Definition buildNodeFilterOptions (rows : list FlowQuotaDataItem) (metric : FlowMetric) (role : FlowRole)
    (visibleStages : option (list FlowNodeKind)) (palette : option (list jstr)) (ctx : FlowPathContext)
    (selectedNodes : option (list FlowNodeFilter)) : list FlowNodeFilterOption :=
  let stages := resolveVisibleStages role visibleStages in
  let colorIds := uniq (concat (map (fun row => pn_id <$> flowPathForStages row stages ctx) rows)) in
  let colors := stableColorMap (sort_by localeCompare colorIds) palette in
  sort_by (byStage stages)
    (concat (map (fun stage =>
       let candidateRows := filterRowsByNodes rows (selectedNodeFiltersExceptKind selectedNodes stage) stages ctx in
       (fun rank => {| no_kind := pn_kind (rk_node rank); no_value := pn_id (rk_node rank);
                       no_label := pn_label (rk_node rank); no_valueLabel := format_integer (rk_value rank);
                       no_valueRaw := rk_value rank;
                       no_color := default (colorAt 0 palette) (mget (pn_id (rk_node rank)) colors) |})
         <$> (stage_totals candidateRows metric stage ctx).*2) stages)).

Definition buildFlowFilterOptions (rows : list FlowQuotaDataItem) (metric : FlowMetric) (palette : option (list jstr))
    (role : FlowRole) (visibleStages : option (list FlowNodeKind)) (selectedNodes : option (list FlowNodeFilter))
    : FlowFilterOptions :=
  {| fo_users := buildUserFilterOptions rows metric palette;
     fo_nodes := buildNodeFilterOptions rows metric role visibleStages palette None selectedNodes |}.

(** The rows of [buildDashboardFlowData] after both filters. *)
Definition filteredRows (rows : list FlowQuotaDataItem) (options : FlowBuildOptions) : list FlowQuotaDataItem :=
  filterRowsByNodes (filterRows rows (bo_selectedUsers options)) (bo_selectedNodes options)
    (resolveVisibleStages (default DEFAULT_FLOW_ROLE (bo_role options)) (bo_visibleStages options))
    (bo_deletedTokenLabel options).

Definition buildDashboardFlowData (rows : list FlowQuotaDataItem) (metric : FlowMetric) (options : FlowBuildOptions)
    : ProcessedFlowData :=
  let role := default DEFAULT_FLOW_ROLE (bo_role options) in
  let palette := bo_colorPalette options in
  let ctx := bo_deletedTokenLabel options in
  let userFilteredRows := filterRows rows (bo_selectedUsers options) in
  {| pf_summary := buildSummary (filteredRows rows options);
     pf_flow := buildFlowGraph (filteredRows rows options) metric role palette (bo_visibleStages options) ctx (bo_graph options);
     pf_filterOptions :=
       {| fo_users := buildUserFilterOptions rows metric palette;
          fo_nodes := buildNodeFilterOptions userFilteredRows metric role (bo_visibleStages options) palette ctx
                        (bo_selectedNodes options) |} |}.

(** ** The chart's data *)

(** [Number(flag)] *)
Definition flag_number (flag : option bool) : f64 :=
  match flag with None => S754_nan | Some true => f64_of_Z 1 | Some false => fzero end.

Definition byLinkDrawPriority (a b : DashboardFlowLink) : comparison :=
  then_by (compare_by (flag_number (dl_dimmed a)) (flag_number (dl_dimmed b)))
    (then_by (compare_by (flag_number (dl_highlighted b)) (flag_number (dl_highlighted a)))
       (byLinkValue a b)).

(** The links of [buildFlowSankeySpec] with their keys and drawing order. *)
Definition sankeyLinks (flow : DashboardFlowGraph) : list (DashboardFlowLink * jstr * Z) :=
  imap (fun index link =>
    let zIndex := match dl_highlighted link, dl_dimmed link with
                  | Some true, _ => 1000000 + Z.of_nat index
                  | _, Some true => Z.of_nat index
                  | _, _ => 100000 + Z.of_nat index
                  end%Z in
    (link, linkStableKey link, zIndex))
    (sort_by byLinkDrawPriority (List.filter (fun link => fltb fzero (dl_value link)) (g_links flow))).

(** [Number(value)] *)
Definition to_number (v : jsval) : f64 :=
  match v with
  | JNum n => n
  | JBool b => if b then f64_of_Z 1 else fzero
  | JNull => fzero
  | JUndefined => S754_nan
  | JStr s => number_of_string s
  | JArr _ | JObj _ => number_of_string (text_of v)
  end.

Definition datum_number (v : jsval) : f64 := numberValue (Some (to_number v)).

(** [recordValue]: [None] for a value that is not an object. *)
Definition recordValue (value : jsval) : option jsval := if is_object value then Some value else None.

(** [list[index]] for a number; an index that is not a position reads [undefined]. *)
Definition item_at (items : list jsval) (index : f64) : jsval :=
  if is_integer index && fleb fzero index then default JUndefined (items !! Z.to_nat (to_Z index)) else JUndefined.

Definition sankeyDatumSource (datum : jsval) : jsval :=
  let nested := opt_prop datum (js "datum") in
  match nested with
  | JArr items =>
      let depth := datum_number (opt_prop datum (js "depth")) in
      match recordValue (item_at items depth) with
      | Some r => r
      | None => match recordValue (item_at items fzero) with Some r => r | None => datum end
      end
  | _ => match recordValue nested with Some r => r | None => datum end
  end.

Definition sankeyDatumValue (datum : jsval) (key : jstr) : jsval :=
  let own := opt_prop datum key in
  if is_undefined own then opt_prop (sankeyDatumSource datum) key else own.

Definition flowSankeyDatumValue (datum : jsval) (key : jstr) : jsval :=
  match recordValue datum with Some r => sankeyDatumValue r key | None => JUndefined end.

Definition isSankeyLinkDatum (datum : jsval) : bool :=
  negb (is_undefined (sankeyDatumValue datum (js "source"))) && negb (is_undefined (sankeyDatumValue datum (js "target"))).

Definition isFlowNodeKind (value : jsval) : option FlowNodeKind :=
  match value with
  | JStr s => List.find (fun k => jeqb (kind_name k) s) FLOW_NODE_KINDS
  | _ => None
  end.

Definition flowNodeFilterFromSankeyDatum (datum : jsval) : option FlowNodeFilter :=
  match recordValue datum with
  | None => None
  | Some record =>
      if isSankeyLinkDatum record then None
      else
        kind ← isFlowNodeKind (flowSankeyDatumValue record (js "kind"));
        match flowSankeyDatumValue record (js "key") with
        | JStr s => Some {| nf_kind := kind; nf_id := s |}
        | JNum n => Some {| nf_kind := kind; nf_id := number_to_string n |}
        | _ => None
        end
  end.
End Display.
End Flow.
