(* ===== verification/DashboardFlowFacts.v ===== *)
(** * Properties of the flow of usage

    The nodes and links of the graph are the distinct nodes and steps of the
    paths, each with the sum of its paths; flow is conserved at every node when
    the metric counts things; a limit bounds the nodes of every stage; highlights
    follow the selected paths. *)

From stdpp Require Import base list numbers strings sets.
From Stdlib Require Import ZArith SpecFloat Lia.
From S2P Require Import Prelude.
From S2P Require Import JsString.
From S2P Require Import JsNumber.
From S2P Require Import JsNumberFacts.
From S2P Require Import JsIntegers.
From S2P Require Import JsValue.
From S2P Require Import JsJson.
From S2P Require Import JsCollections.
From S2P Require Import DashboardFlow.

Module FlowFacts.
Import Flow.

(** ** Sums by key *)

Section Sums.
Context {X K V : Type} `{EqDecision K} (key : X -> K) (initial : X -> V) (update : X -> V -> V).

(** A field that every item adds to. *)
Lemma item_sum_field (field : V -> f64) (weight : X -> f64) k l v :
  (forall x, field (initial x) = fzero) -> (forall x v, field (update x v) = fadd (field v) (weight x)) ->
  item_sum key initial update k None l = Some v ->
  field v = foldl fadd fzero (weight <$> List.filter (fun x => bool_decide (key x = k)) l).
Proof.
  intros Hi Hu.
  assert (forall start a, (forall w, start = Some w -> field w = a) -> (start = None -> a = fzero) ->
    item_sum key initial update k start l = Some v ->
    field v = foldl fadd a (weight <$> List.filter (fun x => bool_decide (key x = k)) l)) as H; [|by apply H].
  induction l as [|x l IH]; intros start a Hs Hn; [simpl; intros E; symmetry in E; by rewrite (Hs v) by done|].
  unfold item_sum. cbn [foldl List.filter]. case_decide as Hk.
  - rewrite bool_decide_true by done. cbn [fmap list_fmap foldl]. apply IH; [|done].
    intros w [= <-]. rewrite Hu. f_equal. destruct start as [w0|]; simpl; [by apply Hs|]. by rewrite Hi, Hn.
  - rewrite bool_decide_false by done. by apply IH.
Qed.

(** A field that keeps what the first item gave it. *)
Lemma item_sum_kept {B} (field : V -> B) (weight : X -> B) k l v :
  (forall x v, field (update x v) = field v) -> (forall x, field (initial x) = weight x) ->
  item_sum key initial update k None l = Some v ->
  exists x, x ∈ l /\ key x = k /\ field v = weight x.
Proof.
  intros Hu Hi.
  assert (forall start, item_sum key initial update k start l = Some v ->
    (exists w, start = Some w /\ field v = field w) \/ exists x, x ∈ l /\ key x = k /\ field v = weight x) as H.
  { induction l as [|x l IH]; intros start; [left; by exists v|]. unfold item_sum. cbn [foldl]. intros [Hw|Hx]%IH.
    - case_decide as Hk; [|by left]. destruct Hw as (w & [= <-] & ->). rewrite Hu.
      destruct start as [w0|]; [left; by exists w0|]. right. exists x. split_and!; [by left|done|apply Hi].
    - right. destruct Hx as (y & Hy & Hrest). exists y. split; [by right|done]. }
  intros Hv. destruct (H None Hv) as [(w & ? & _)|Hx]; done.
Qed.

Lemma zsum_indicator (z : Z) (P : K -> bool) (F : K -> Z) k ks : NoDup ks ->
  zsum ((fun k' => (if bool_decide (k = k') then z else 0) + F k')%Z <$> List.filter P ks)
  = ((if bool_decide (k ∈ ks) && P k then z else 0) + zsum (F <$> List.filter P ks))%Z.
Proof.
  induction 1 as [|k' ks Hk Hnd IH]; [by rewrite bool_decide_false by apply not_elem_of_nil|]. cbn [List.filter].
  destruct (decide (k = k')) as [->|Hne].
  - rewrite (bool_decide_true (k' ∈ k' :: ks)) by left. rewrite (bool_decide_false (k' ∈ ks)) in IH by done.
    destruct (P k'); cbn [andb] in *; [|exact IH]. rewrite !fmap_cons, !zsum_cons, bool_decide_true, IH by done. lia.
  - assert (bool_decide (k ∈ k' :: ks) = bool_decide (k ∈ ks)) as -> by (apply bool_decide_ext; set_solver).
    destruct (P k'); [|exact IH]. rewrite !fmap_cons, !zsum_cons, IH, bool_decide_false by done. lia.
Qed.

(** The sums of the keys add up to the sum of the items. *)
Lemma zsum_partition (weight : X -> Z) (P : K -> bool) l ks : NoDup ks -> (forall x, x ∈ l -> key x ∈ ks) ->
  zsum ((fun k => zsum (weight <$> List.filter (fun x => bool_decide (key x = k)) l)) <$> List.filter P ks)
  = zsum (weight <$> List.filter (fun x => P (key x)) l).
Proof.
  intros Hnd. induction l as [|x l IH]; intros Hl.
  { cbn [List.filter fmap list_fmap]. induction (List.filter P ks) as [|k ks' IHk]; [done|]. simpl in *. done. }
  cbn [List.filter]. transitivity (zsum ((fun k => (if bool_decide (key x = k) then weight x else 0)
    + zsum (weight <$> List.filter (fun x => bool_decide (key x = k)) l))%Z <$> List.filter P ks)).
  { f_equal. apply list_fmap_ext. intros i k _. by case_bool_decide. }
  rewrite (zsum_indicator (weight x) P _ (key x)), IH by (done || (intros y Hy; apply Hl; by right)).
  rewrite bool_decide_true by (apply Hl; by left). simpl. destruct (P (key x)); simpl; [done|lia].
Qed.

(** Values that are whole numbers, summed over the entries with some keys. *)
Lemma keyed_sum {A} (value : A -> f64) (entry_key : A -> K) (selected : A -> bool) (P : K -> bool) (amount : K -> Z) ls keys :
  (forall l, l ∈ ls -> selected l = P (entry_key l) /\ value l = f64_of_Z (amount (entry_key l))) ->
  entry_key <$> ls ≡ₚ keys -> (forall k, 0 <= amount k)%Z -> (zsum (amount <$> List.filter P keys) < 2 ^ 53)%Z ->
  foldl fadd fzero (value <$> List.filter selected ls) = f64_of_Z (zsum (amount <$> List.filter P keys)).
Proof using Type.
  intros Hls Hperm Hpos Hbound.
  assert (amount <$> List.filter P (entry_key <$> ls) ≡ₚ amount <$> List.filter P keys) as Hp.
  { apply fmap_Permutation. clear -Hperm. induction Hperm; cbn [List.filter]; repeat case_match; eauto using Permutation; by etransitivity. }
  assert (value <$> List.filter selected ls = f64_of_Z <$> (amount <$> List.filter P (entry_key <$> ls))) as ->.
  { clear -Hls. induction ls as [|l ls IH]; [done|]. rewrite fmap_cons. cbn [List.filter].
    destruct (Hls l ltac:(left)) as [-> Hv]. specialize (IH ltac:(intros l' Hl'; apply Hls; by right)).
    destruct (P (entry_key l)); [|done]. by rewrite !fmap_cons, IH, Hv. }
  rewrite sum_integers; [by rewrite Hp| |by rewrite Hp]. by apply Forall_fmap, Forall_true.
Qed.
End Sums.

(** ** Paths *)

(** The identifier of a node names its kind. *)
Definition id_of_kind (k : FlowNodeKind) (i : jstr) : Prop := exists rest, i = kind_name k ++ js ":" ++ rest.

Lemma id_kind_inj k1 k2 i : id_of_kind k1 i -> id_of_kind k2 i -> k1 = k2.
Proof. intros [r1 ->] [r2 E]. by destruct k1, k2. Qed.

(** No text of the rows contains the character that separates the ends of a link. *)
Definition nul_free (i : jstr) : Prop := 0%N ∉ i.

(** A path through the given stages. *)
Record path_ok (stages : list FlowNodeKind) (path : list FlowPathNode) : Prop := {
  po_kinds : pn_kind <$> path = stages;
  po_ids : Forall (fun n => id_of_kind (pn_kind n) (pn_id n) /\ nul_free (pn_id n)) path;
}.

Lemma path_ids_nodup stages path : NoDup stages -> path_ok stages path -> NoDup (pn_id <$> path).
Proof.
  intros Hnd [Hk Hi]. apply NoDup_fmap_2_strong.
  - intros n1 n2 H1 H2 E. rewrite Forall_forall in Hi. destruct (Hi n1 H1) as [K1 _], (Hi n2 H2) as [K2 _].
    rewrite E in K1. pose proof (id_kind_inj _ _ _ K1 K2) as Hkk.
    apply list_elem_of_lookup in H1 as [i1 L1]. apply list_elem_of_lookup in H2 as [i2 L2].
    assert (i1 = i2) as ->; [|congruence]. rewrite <- Hk in Hnd. eapply NoDup_lookup; [exact Hnd| |].
    + by rewrite list_lookup_fmap, L1.
    + rewrite list_lookup_fmap, L2. simpl. by rewrite Hkk.
  - rewrite <- Hk in Hnd. by apply NoDup_fmap_1 in Hnd.
Qed.

(** The ends of a link, from its key. *)
Definition key_source (key : jstr) : jstr := fst (span_while (fun c => negb (c =? 0)%N) key).
Definition key_target (key : jstr) : jstr := tail (snd (span_while (fun c => negb (c =? 0)%N) key)).

Lemma nul_key_ends s t : nul_free s -> key_source (nul_key s t) = s /\ key_target (nul_key s t) = t.
Proof.
  intros Hs. unfold key_source, key_target, nul_key.
  assert (span_while (fun c => negb (c =? 0)%N) (s ++ 0%N :: t) = (s, 0%N :: t)) as E;
    [|split; [exact (f_equal fst E)|exact (f_equal (fun x => tail (snd x)) E)]].
  induction s as [|c s IH]; [done|]. unfold nul_free in Hs. apply not_elem_of_cons in Hs as [Hc Hs]. cbn [app span_while].
  rewrite (proj2 (N.eqb_neq c 0)) by congruence. cbn [negb]. by rewrite IH.
Qed.

Lemma path_links_cons n1 n2 path : path_links (n1 :: n2 :: path) = (n1, n2) :: path_links (n2 :: path).
Proof. done. Qed.

Lemma path_links_elem path e : e ∈ path_links path -> fst e ∈ path /\ snd e ∈ path.
Proof.
  induction path as [|n1 [|n2 path] IH]; [by intros ?%elem_of_nil|by intros ?%elem_of_nil|].
  rewrite path_links_cons. intros [->|Hin]%elem_of_cons; [cbn; set_solver|]. apply IH in Hin. set_solver.
Qed.

Lemma path_links_sources path : (fst <$> path_links path) = take (length path - 1) path.
Proof.
  induction path as [|n1 [|n2 path] IH]; [done|done|]. rewrite path_links_cons, fmap_cons, IH. cbn [length fst].
  by rewrite !Nat.sub_succ, !Nat.sub_0_r.
Qed.

Lemma path_links_targets path : (snd <$> path_links path) = tail path.
Proof.
  induction path as [|n1 [|n2 path] IH]; [done|done|]. rewrite path_links_cons, fmap_cons, IH. done.
Qed.

Lemma path_links_starts path : (fun e => pn_id (fst e)) <$> path_links path = pn_id <$> take (length path - 1) path.
Proof. by rewrite <- path_links_sources, <- list_fmap_compose. Qed.

Lemma path_links_stops path : (fun e => pn_id (snd e)) <$> path_links path = pn_id <$> tail path.
Proof. by rewrite <- path_links_targets, <- list_fmap_compose. Qed.

Lemma tail_sublist (path : list FlowPathNode) : sublist (tail path) path.
Proof. destruct path; [done|]. by apply sublist_cons. Qed.

(** ** Items of paths

    The items of a path are its nodes, or its links. *)

Section Items.
Context {E : Type} (parts : list FlowPathNode -> list E) (part_key : E -> jstr).

Definition items (paths : list PreparedFlowPath) : list (PreparedFlowPath * E) :=
  concat ((fun p => pair p <$> parts (pp_path p)) <$> paths).

Definition has_part (k : jstr) (p : PreparedFlowPath) : bool := bool_decide (k ∈ part_key <$> parts (pp_path p)).

Lemma items_cons p paths : items (p :: paths) = (pair p <$> parts (pp_path p)) ++ items paths.
Proof. done. Qed.

Lemma items_elem p e paths : (p, e) ∈ items paths <-> p ∈ paths /\ e ∈ parts (pp_path p).
Proof.
  induction paths as [|p' paths IH]; [unfold items; cbn; split; [by intros ?%elem_of_nil|by intros [?%elem_of_nil _]]|].
  rewrite items_cons, elem_of_app, IH, list_elem_of_fmap, elem_of_cons. split.
  - intros [(e' & [= -> ->] & He)|[Hp He]]; [split; [by left|done]|split; [by right|done]].
  - intros [[->|Hp] He]; [left; by exists e|by right].
Qed.

(** A path without repetitions counts once. *)
Lemma items_of_key {B} (weight : PreparedFlowPath -> B) k paths :
  Forall (fun p => NoDup (part_key <$> parts (pp_path p))) paths ->
  (fun x => weight (fst x)) <$> List.filter (fun x => bool_decide (part_key (snd x) = k)) (items paths)
  = weight <$> List.filter (has_part k) paths.
Proof.
  induction 1 as [|p paths Hnd _ IH]; [done|]. rewrite items_cons, List.filter_app, fmap_app, IH. cbn [List.filter].
  assert ((fun x => weight (fst x)) <$> List.filter (fun x => bool_decide (part_key (snd x) = k)) (pair p <$> parts (pp_path p))
    = if has_part k p then [weight p] else []) as ->; [|by destruct (has_part k p)].
  unfold has_part. induction (parts (pp_path p)) as [|e l IHl]; [by rewrite bool_decide_false by apply not_elem_of_nil|].
  rewrite fmap_cons in *. apply NoDup_cons in Hnd as [He Hnd]. specialize (IHl Hnd). cbn [List.filter snd].
  destruct (decide (part_key e = k)) as [<-|Hne].
  - rewrite (bool_decide_true (part_key e = _)) by done. rewrite fmap_cons, IHl.
    rewrite bool_decide_false by done. by rewrite bool_decide_true by left.
  - rewrite bool_decide_false by done. rewrite IHl.
    repeat case_bool_decide; done || set_solver.
Qed.
End Items.

(** ** The maps as sums by key *)

Section Maps.
Context `{Collation} `{FlowDisplay} (metric : FlowMetric) (palette : option (list jstr)) (colors : list (jstr * jstr)).

Definition node_item : Type := PreparedFlowPath * FlowPathNode.
Definition link_item : Type := PreparedFlowPath * (FlowPathNode * FlowPathNode).

Abbreviation node_items := (items id).
Abbreviation link_items := (items path_links).

Definition root_of (p : PreparedFlowPath) : jstr := match pp_path p with root :: _ => pn_id root | [] => [] end.
Definition color_of (p : PreparedFlowPath) : jstr := default (colorAt 0 palette) (mget (root_of p) colors).

Definition visit_key (x : node_item) : jstr := pn_id (snd x).
Definition link_key (x : link_item) : jstr := pathLinkKey (fst (snd x)) (snd (snd x)).

Definition node_initial (x : node_item) : DashboardFlowNode :=
  {| dn_id := pn_id (snd x); dn_label := pn_label (snd x); dn_kind := pn_kind (snd x); dn_value := fzero;
     dn_requests := fzero; dn_quota := fzero; dn_tokens := fzero; dn_color := color_of (fst x);
     dn_colorKey := root_of (fst x); dn_highlighted := None; dn_dimmed := None |}.

Definition node_update (x : node_item) (v : DashboardFlowNode) : DashboardFlowNode :=
  {| dn_id := dn_id v; dn_label := dn_label v; dn_kind := dn_kind v;
     dn_value := fadd (dn_value v) (metricValue (pp_metrics (fst x)) metric);
     dn_requests := fadd (dn_requests v) (m_requests (pp_metrics (fst x)));
     dn_quota := fadd (dn_quota v) (m_quota (pp_metrics (fst x)));
     dn_tokens := fadd (dn_tokens v) (m_tokens (pp_metrics (fst x)));
     dn_color := dn_color v; dn_colorKey := dn_colorKey v;
     dn_highlighted := dn_highlighted v; dn_dimmed := dn_dimmed v |}.

Definition link_initial (x : link_item) : DashboardFlowLink :=
  {| dl_source := pn_id (fst (snd x)); dl_target := pn_id (snd (snd x)); dl_value := fzero; dl_requests := fzero;
     dl_quota := fzero; dl_tokens := fzero; dl_sourceLabel := pn_label (fst (snd x));
     dl_targetLabel := pn_label (snd (snd x));
     dl_color := color_of (fst x); dl_linkColor := color_of (fst x); dl_linkAlpha := f64_of_Z 1;
     dl_hoverColor := color_of (fst x); dl_colorKey := root_of (fst x); dl_share := fzero;
     dl_highlighted := None; dl_dimmed := None |}.

Definition link_update (x : link_item) (v : DashboardFlowLink) : DashboardFlowLink :=
  {| dl_source := dl_source v; dl_target := dl_target v;
     dl_value := fadd (dl_value v) (metricValue (pp_metrics (fst x)) metric);
     dl_requests := fadd (dl_requests v) (m_requests (pp_metrics (fst x)));
     dl_quota := fadd (dl_quota v) (m_quota (pp_metrics (fst x)));
     dl_tokens := fadd (dl_tokens v) (m_tokens (pp_metrics (fst x)));
     dl_sourceLabel := dl_sourceLabel v; dl_targetLabel := dl_targetLabel v;
     dl_color := dl_color v; dl_linkColor := dl_linkColor v; dl_linkAlpha := dl_linkAlpha v;
     dl_hoverColor := dl_hoverColor v; dl_colorKey := dl_colorKey v; dl_share := dl_share v;
     dl_highlighted := dl_highlighted v; dl_dimmed := dl_dimmed v |}.

Abbreviation node_group := (group visit_key node_initial node_update).
Abbreviation link_group := (group link_key link_initial link_update).

(** The final maps. *)
Definition node_map (paths : list PreparedFlowPath) : list (jstr * DashboardFlowNode) := node_group [] (node_items paths).
Definition link_map (paths : list PreparedFlowPath) : list (jstr * DashboardFlowLink) := link_group [] (link_items paths).

Lemma addPath_groups maps p : addPath metric palette colors maps p
  = (node_group (fst maps) (pair p <$> pp_path p), link_group (snd maps) (pair p <$> path_links (pp_path p))).
Proof.
  unfold addPath. destruct (pp_path p) as [|root path] eqn:E; [by destruct maps|].
  assert (root_of p = pn_id root) as Hroot by (unfold root_of; by rewrite E).
  f_equal; unfold group; rewrite foldl_fmap; unfold add_item, visit_key, link_key, node_initial, link_initial,
    node_update, link_update, color_of; cbn [fst snd]; rewrite Hroot; reflexivity.
Qed.

Lemma group_app {X K V} `{EqDecision K} (key : X -> K) (i : X -> V) u m l1 l2 :
  group key i u m (l1 ++ l2) = group key i u (group key i u m l1) l2.
Proof. unfold group. by rewrite foldl_app. Qed.

Lemma addPath_maps paths : foldl (addPath metric palette colors) ([], []) paths
  = (node_map paths, link_map paths).
Proof.
  unfold node_map, link_map.
  assert (forall maps, foldl (addPath metric palette colors) maps paths
    = (node_group (fst maps) (node_items paths), link_group (snd maps) (link_items paths))) as Hm; [|by rewrite Hm].
  induction paths as [|p paths IH]; intros maps; [by destruct maps|]. cbn [foldl]. rewrite IH, addPath_groups. cbn [fst snd].
  rewrite !items_cons. by rewrite !group_app.
Qed.

(** ** What the maps hold *)

Context (stages : list FlowNodeKind) (paths : list PreparedFlowPath).
Hypothesis Hstages : NoDup stages.
Hypothesis Hpaths : Forall (fun p => path_ok stages (pp_path p)) paths.

Definition link_text_key (e : FlowPathNode * FlowPathNode) : jstr := pathLinkKey (fst e) (snd e).

(** The paths through a node, and those that take a link. *)
Definition through (i : jstr) : list PreparedFlowPath := List.filter (has_part id pn_id i) paths.
Definition along (key : jstr) : list PreparedFlowPath := List.filter (has_part path_links link_text_key key) paths.

Lemma path_of p : p ∈ paths -> path_ok stages (pp_path p).
Proof using Hpaths. rewrite Forall_forall in Hpaths. apply Hpaths. Qed.

Lemma node_paths_nodup : Forall (fun p => NoDup (pn_id <$> id (pp_path p))) paths.
Proof using Hstages Hpaths. eapply Forall_impl; [exact Hpaths|]. intros p Hp. by eapply path_ids_nodup. Qed.

Lemma link_source path e : path_ok stages path -> e ∈ path_links path ->
  key_source (link_text_key e) = pn_id (fst e) /\ key_target (link_text_key e) = pn_id (snd e).
Proof using Type.
  intros [_ Hi] [He _]%path_links_elem. rewrite Forall_forall in Hi. by apply nul_key_ends, Hi.
Qed.

Lemma link_paths_nodup : Forall (fun p => NoDup (link_text_key <$> path_links (pp_path p))) paths.
Proof using Hstages Hpaths.
  eapply Forall_impl; [exact Hpaths|]. intros p Hp. apply (NoDup_fmap_1 key_source). rewrite <- list_fmap_compose.
  assert ((key_source ∘ link_text_key) <$> path_links (pp_path p) = pn_id <$> take (length (pp_path p) - 1) (pp_path p)) as ->.
  { rewrite <- path_links_sources, <- list_fmap_compose. apply list_fmap_ext. intros i e He. apply (link_source (pp_path p) e Hp).
    by eapply list_elem_of_lookup_2. }
  apply (sublist_NoDup _ (pn_id <$> pp_path p)); [by apply (path_ids_nodup stages)|]. apply fmap_sublist, sublist_take.
Qed.

(** A field of the nodes that sums a field of the metrics. *)
Lemma node_field (field : DashboardFlowNode -> f64) (weight : FlowMetrics -> f64) i n :
  (forall x, field (node_initial x) = fzero) ->
  (forall x v, field (node_update x v) = fadd (field v) (weight (pp_metrics (fst x)))) ->
  mget i (node_map paths) = Some n ->
  field n = foldl fadd fzero (weight ∘ pp_metrics <$> through i).
Proof using Hstages Hpaths.
  intros Hi Hu Hn. unfold node_map in Hn. rewrite group_get in Hn.
  rewrite (item_sum_field visit_key node_initial node_update field (fun x => weight (pp_metrics (fst x))) i _ n Hi Hu Hn).
  f_equal. apply (items_of_key id pn_id (weight ∘ pp_metrics)), node_paths_nodup.
Qed.

Lemma link_field (field : DashboardFlowLink -> f64) (weight : FlowMetrics -> f64) key l :
  (forall x, field (link_initial x) = fzero) ->
  (forall x v, field (link_update x v) = fadd (field v) (weight (pp_metrics (fst x)))) ->
  mget key (link_map paths) = Some l ->
  field l = foldl fadd fzero (weight ∘ pp_metrics <$> along key).
Proof using Hstages Hpaths.
  intros Hi Hu Hn. unfold link_map in Hn. rewrite group_get in Hn.
  rewrite (item_sum_field link_key link_initial link_update field (fun x => weight (pp_metrics (fst x))) key _ l Hi Hu Hn).
  f_equal. apply (items_of_key path_links link_text_key (weight ∘ pp_metrics)), link_paths_nodup.
Qed.

Lemma node_identity i n : mget i (node_map paths) = Some n ->
  dn_id n = i /\ exists p m, p ∈ paths /\ m ∈ pp_path p /\ pn_id m = i /\ dn_kind n = pn_kind m.
Proof using Type.
  intros Hn. unfold node_map in Hn. rewrite group_get in Hn.
  destruct (item_sum_kept visit_key node_initial node_update (fun v => (dn_id v, dn_kind v))
    (fun x => (pn_id (snd x), pn_kind (snd x))) i (node_items paths) n) as ([p m] & Hin & Hk & Hd); [done|done|exact Hn|].
  apply (items_elem id) in Hin as [Hp Hm]. cbn [snd] in *. injection Hd as Hid Hkind. unfold visit_key in Hk. cbn [snd] in Hk.
  split; [congruence|]. by exists p, m.
Qed.

Lemma node_exists i : (exists p, p ∈ paths /\ i ∈ pn_id <$> pp_path p) <-> is_Some (mget i (node_map paths)).
Proof using Type.
  assert (is_Some (mget i (node_map paths)) <-> i ∈ (node_map paths).*1) as ->.
  { rewrite <- not_eq_None_Some, mget_None. split; [apply dec_stable|by intros Hi Hn]. }
  unfold node_map. rewrite group_elem_key. split.
  - intros (p & Hp & (m & -> & Hm)%list_elem_of_fmap). exists (p, m). split; [by apply (items_elem id)|done].
  - intros ([p m] & [Hp Hm]%(items_elem id) & <-). exists p. split; [done|]. by apply (list_elem_of_fmap_2 pn_id).
Qed.

Lemma link_identity key l : mget key (link_map paths) = Some l ->
  dl_source l = key_source key /\ dl_target l = key_target key /\
  exists p e, p ∈ paths /\ e ∈ path_links (pp_path p) /\ link_text_key e = key.
Proof using Hpaths.
  intros Hl. unfold link_map in Hl. rewrite group_get in Hl.
  destruct (item_sum_kept link_key link_initial link_update (fun v => (dl_source v, dl_target v))
    (fun x => (pn_id (fst (snd x)), pn_id (snd (snd x)))) key (link_items paths) l) as ([p e] & Hin & Hk & Hd); [done|done|exact Hl|].
  apply (items_elem path_links) in Hin as [Hp He]. cbn [snd] in *. injection Hd as Hs Ht.
  destruct (link_source (pp_path p) e (path_of p Hp) He) as [Es Et].
  change (link_key (p, e)) with (link_text_key e) in Hk. rewrite Hk in Es, Et.
  split_and!; [congruence|congruence|]. by exists p, e.
Qed.

Lemma link_keys key : key ∈ (link_map paths).*1 <-> exists p e, p ∈ paths /\ e ∈ path_links (pp_path p) /\ link_text_key e = key.
Proof using Type.
  unfold link_map. rewrite group_elem_key. split.
  - intros ([p e] & [Hp He]%(items_elem path_links) & <-). by exists p, e.
  - intros (p & e & Hp & He & <-). exists (p, e). split; [by apply (items_elem path_links)|done].
Qed.
End Maps.

(** ** The graph *)

(** The fields that masks, highlights, shares and colors leave alone. *)
Definition node_core (n : DashboardFlowNode) : jstr * FlowNodeKind * f64 * f64 * f64 * f64 :=
  (dn_id n, dn_kind n, dn_value n, dn_requests n, dn_quota n, dn_tokens n).
Definition link_core (l : DashboardFlowLink) : jstr * jstr * f64 * f64 * f64 * f64 :=
  (dl_source l, dl_target l, dl_value l, dl_requests l, dl_quota l, dl_tokens l).

Section Graph.
Context `{Collation} `{FlowDisplay}.

Lemma fmap_values {V B} (core : V -> B) (f : V -> V) (m : list (jstr * V)) : (forall v, core (f v) = core v) ->
  core <$> (prod_map id f <$> m).*2 = core <$> m.*2.
Proof. intros Hf. rewrite <- !list_fmap_compose. apply list_fmap_ext. intros i [k v] _. apply Hf. Qed.

Lemma mask_core nodes links : node_core <$> (fst (maskFlowGraphLabels nodes links)).*2 = node_core <$> nodes.*2 /\
  link_core <$> (snd (maskFlowGraphLabels nodes links)).*2 = link_core <$> links.*2.
Proof.
  assert (node_core <$> (prod_map id (fun n => if masked_node n then setNodeLabel (maskFlowLabel (dn_label n)) n else n) <$> nodes).*2
    = node_core <$> nodes.*2) as Hn by (apply fmap_values; intros v; by destruct (masked_node v)).
  unfold maskFlowGraphLabels. destruct (foldl _ _ _) as [|x l]; [by split|]. split; [exact Hn|].
  cbn [snd]. by apply fmap_values.
Qed.

Lemma highlight_core nodes links sets : node_core <$> (fst (applyFlowHighlights nodes links sets)).*2 = node_core <$> nodes.*2 /\
  link_core <$> (snd (applyFlowHighlights nodes links sets)).*2 = link_core <$> links.*2.
Proof. unfold applyFlowHighlights. destruct sets as [[hn hl]|]; [|done]. split; by apply fmap_values. Qed.

Lemma colors_core links : link_core <$> assignLinkDisplayColors links = link_core <$> links.
Proof.
  unfold assignLinkDisplayColors. apply list_eq. intros i. rewrite !list_lookup_fmap, list_lookup_imap.
  destruct (links !! i); [|done]. cbn. by destruct (mget _ _).
Qed.

Context (rows : list FlowQuotaDataItem) (metric : FlowMetric) (role : FlowRole) (palette : option (list jstr))
  (visibleStages : option (list FlowNodeKind)) (ctx : FlowPathContext) (options : FlowGraphOptions).

Definition stages : list FlowNodeKind := resolveVisibleStages role visibleStages.
Definition paths : list PreparedFlowPath := graphPaths rows metric stages ctx options.
Definition root_colors : list (jstr * jstr) := stableColorMap (sort_by localeCompare (root_ids paths)) palette.
Definition graph : DashboardFlowGraph := buildFlowGraph rows metric role palette visibleStages ctx options.

Lemma graph_core :
  node_core <$> g_nodes graph ≡ₚ node_core <$> (node_map metric palette root_colors paths).*2 /\
  link_core <$> g_links graph ≡ₚ link_core <$> (link_map metric palette root_colors paths).*2.
Proof.
  unfold graph, buildFlowGraph. fold stages. fold paths. fold root_colors. rewrite addPath_maps.
  set (maps := if go_maskSensitive options then _ else _).
  assert (node_core <$> (fst maps).*2 = node_core <$> (node_map metric palette root_colors paths).*2 /\
    link_core <$> (snd maps).*2 = link_core <$> (link_map metric palette root_colors paths).*2) as [Hn Hl].
  { unfold maps. destruct (go_maskSensitive options); [apply mask_core|done]. }
  clearbody maps. set (sets := buildFlowHighlightSets _ _ _ _).
  pose proof (highlight_core (fst maps) (snd maps) sets) as [Hn2 Hl2].
  destruct (applyFlowHighlights (fst maps) (snd maps) sets) as [nodes links]. cbn [fst snd g_nodes g_links] in *. split.
  - rewrite sort_by_perm, Hn2, Hn. done.
  - rewrite colors_core, <- list_fmap_compose. rewrite <- Hl, <- Hl2.
    rewrite <- (sort_by_perm byEnds links.*2) at 2. done.
Qed.

(** ** The paths of the graph *)

(** The names of a row do not contain the separator of link keys. *)
Record row_plain (row : FlowQuotaDataItem) : Prop := {
  rp_username : nul_free (default [] (fq_username row));
  rp_node : nul_free (default [] (fq_node_name row));
  rp_token : nul_free (default [] (fq_token_name row));
  rp_group : nul_free (default [] (fq_use_group row));
  rp_model : nul_free (default [] (fq_model_name row));
  rp_channel : nul_free (default [] (fq_channel_name row));
}.

Lemma nul_free_app a b : nul_free (a ++ b) <-> nul_free a /\ nul_free b.
Proof using Type. unfold nul_free. rewrite elem_of_app. tauto. Qed.

Lemma number_nul_free x : nul_free (number_to_string x).
Proof using Type.
  assert (forall l, Forall (fun c => is_num_char c = true) l -> nul_free l) as Hl.
  { intros l Hl Hin. rewrite Forall_forall in Hl. by apply Hl in Hin. }
  destruct x as [s|s| |s m e].
  - apply (bool_decide_unpack _). by vm_compute.
  - destruct s; apply (bool_decide_unpack _); by vm_compute.
  - apply (bool_decide_unpack _). by vm_compute.
  - unfold number_to_string. destruct (shortest m e) as [s' e']. apply nul_free_app. split; [|by apply Hl, layout_chars].
    destruct s; apply (bool_decide_unpack _); by vm_compute.
Qed.

Lemma text_or_nul_free text fallback : nul_free (default [] text) -> nul_free fallback -> nul_free (text_or text fallback).
Proof using Type. destruct text as [[|]|]; done. Qed.

Lemma prefixed_id_nul_free prefix x name : nul_free prefix -> nul_free (default [] name) -> nul_free (prefixed_id prefix x name).
Proof using Type.
  intros Hp Hn. unfold prefixed_id. apply nul_free_app. split; [done|]. destruct (fltb fzero x); [apply number_nul_free|].
  apply text_or_nul_free; [done|]. apply (bool_decide_unpack _). by vm_compute.
Qed.

Lemma builder_kind k row : pn_kind (NODE_BUILDERS k row ctx) = k.
Proof using Type. by destruct k. Qed.

Lemma builder_id k row : row_plain row -> id_of_kind k (pn_id (NODE_BUILDERS k row ctx)) /\ nul_free (pn_id (NODE_BUILDERS k row ctx)).
Proof using Type.
  intros [Hu Hn Ht Hg Hm Hc]. split; [destruct k; by eexists|].
  destruct k; cbn [NODE_BUILDERS userNode nodeNameNode tokenNode groupNode modelNode channelNode pn_id];
    try (apply prefixed_id_nul_free; [apply (bool_decide_unpack _); by vm_compute|done]);
    apply nul_free_app; (split; [apply (bool_decide_unpack _); by vm_compute|]); apply text_or_nul_free; try done;
    apply (bool_decide_unpack _); by vm_compute.
Qed.

Lemma row_path_ok sts row : row_plain row -> path_ok sts (flowPathForStages row sts ctx).
Proof using Type.
  intros Hr. unfold flowPathForStages. split.
  - rewrite <- list_fmap_compose. rewrite <- (list_fmap_id sts) at 2. apply list_fmap_ext. intros i k _. apply builder_kind.
  - apply Forall_fmap. apply Forall_true. intros k. cbn [compose]. unfold compose. rewrite builder_kind. by apply builder_id.
Qed.

Lemma limit_path_ok sts path sets mode labeler path' : path_ok sts path ->
  applyTopNodeLimit path sets mode labeler = Some path' -> path_ok sts path'.
Proof using Type.
  intros Hp. unfold applyTopNodeLimit. destruct sets as [s|]; [|by intros [= <-]].
  destruct (negb _); [by intros [= <-]|]. destruct mode; [|done]. intros [= <-]. destruct Hp as [Hk Hi]. split.
  - rewrite <- Hk, <- list_fmap_compose. apply list_fmap_ext. intros i n _. unfold compose. by destruct (isTopFlowNode n (Some s)).
  - apply Forall_fmap. eapply Forall_impl; [exact Hi|]. intros n Hn. unfold compose. destruct (isTopFlowNode n (Some s)); [done|].
    unfold otherFlowNode. cbn [pn_kind pn_id]. split; [by eexists|].
    destruct (pn_kind n); apply (bool_decide_unpack _); by vm_compute.
Qed.

Lemma paths_elem p : p ∈ paths -> exists row, row ∈ rows /\ pp_metrics p = rowMetrics row /\
  applyTopNodeLimit (flowPathForStages row stages ctx)
    (buildTopNodeSets rows metric stages (normalizeTopNodeLimit (go_topNodeLimit options)) ctx)
    (default DEFAULT_FLOW_OVERFLOW_MODE (go_overflowMode options)) (go_otherNodeLabel options) = Some (pp_path p).
Proof using Type.
  unfold paths, graphPaths, preparePaths. intros (row & Hrow & Hp)%list_elem_of_omap. exists row. split; [done|].
  apply bind_Some in Hp as (path & Hpath & [= <-]). by rewrite Hpath.
Qed.

Lemma paths_ok : Forall row_plain rows -> Forall (fun p => path_ok stages (pp_path p)) paths.
Proof using Type.
  intros Hr. apply Forall_forall. intros p Hp. destruct (paths_elem p Hp) as (row & Hrow & _ & Hl).
  eapply limit_path_ok; [|exact Hl]. apply row_path_ok. rewrite Forall_forall in Hr. by apply Hr.
Qed.

Lemma stages_nodup : NoDup stages.
Proof using Type.
  assert (NoDup (getFlowStages role)) as Hnd by (destruct role; apply (bool_decide_unpack _); by vm_compute).
  unfold stages, resolveVisibleStages. destruct visibleStages as [v|]; [|done]. destruct (Nat.leb _ _); [|done].
  clear -Hnd. induction Hnd as [|k l Hk Hnd IH]; [constructor|]. cbn [List.filter]. case_bool_decide; [|done].
  constructor; [|done]. rewrite list_elem_of_In, filter_In, <- list_elem_of_In. tauto.
Qed.

(** ** The nodes and links of the graph *)

Abbreviation nodes_by_id := (node_map metric palette root_colors paths).
Abbreviation links_by_key := (link_map metric palette root_colors paths).

Lemma graph_node_ids : dn_id <$> g_nodes graph ≡ₚ nodes_by_id.*1.
Proof using Type.
  assert (dn_id <$> g_nodes graph = (fst ∘ fst ∘ fst ∘ fst ∘ fst) <$> (node_core <$> g_nodes graph)) as ->
    by (by rewrite <- list_fmap_compose).
  rewrite (proj1 graph_core), <- !list_fmap_compose. apply reflexive_eq, list_fmap_ext. intros i [k v] Hl. cbn.
  eapply proj1, node_identity. apply mget_nodup; [apply group_nodup|]. by eapply list_elem_of_lookup_2.
Qed.

Lemma graph_node n : n ∈ g_nodes graph -> exists v, mget (dn_id n) nodes_by_id = Some v /\ node_core n = node_core v.
Proof using Type.
  intros Hn. assert (node_core n ∈ node_core <$> nodes_by_id.*2) as Hin
    by (rewrite <- (proj1 graph_core); by apply list_elem_of_fmap_2).
  rewrite <- list_fmap_compose in Hin. apply list_elem_of_fmap in Hin as ([i v] & Hc & Hin). cbn in Hc.
  assert (mget i nodes_by_id = Some v) as Hg by (apply mget_nodup; [apply group_nodup|done]).
  exists v. split; [|done]. assert (dn_id n = dn_id v) as -> by (injection Hc; done).
  by rewrite (proj1 (node_identity _ _ _ _ _ _ Hg)).
Qed.

Hypothesis Hrows : Forall row_plain rows.

Lemma graph_link_keys : linkStableKey <$> g_links graph ≡ₚ links_by_key.*1.
Proof using Hrows.
  assert (linkStableKey <$> g_links graph = (fun c => nul_key (fst (fst (fst (fst (fst c))))) (snd (fst (fst (fst (fst c))))))
    <$> (link_core <$> g_links graph)) as -> by (by rewrite <- list_fmap_compose).
  rewrite (proj2 graph_core), <- !list_fmap_compose. apply reflexive_eq, list_fmap_ext. intros i [k v] Hl. cbn.
  assert (mget k links_by_key = Some v) as Hg by (apply mget_nodup; [apply group_nodup|by eapply list_elem_of_lookup_2]).
  destruct (link_identity _ _ _ stages paths (paths_ok Hrows) k v Hg) as (-> & -> & p & e & Hp & He & <-).
  destruct (link_source stages (pp_path p) e) as [-> ->]; [|done..].
  pose proof (paths_ok Hrows) as Hok. rewrite Forall_forall in Hok. by apply Hok.
Qed.

Lemma graph_link l : l ∈ g_links graph -> exists v, mget (linkStableKey l) links_by_key = Some v /\ link_core l = link_core v.
Proof using Hrows.
  intros Hn. assert (link_core l ∈ link_core <$> links_by_key.*2) as Hin
    by (rewrite <- (proj2 graph_core); by apply list_elem_of_fmap_2).
  rewrite <- list_fmap_compose in Hin. apply list_elem_of_fmap in Hin as ([i v] & Hc & Hin). cbn in Hc.
  assert (mget i links_by_key = Some v) as Hg by (apply mget_nodup; [apply group_nodup|done]).
  exists v. split; [|done].
  destruct (link_identity _ _ _ stages paths (paths_ok Hrows) i v Hg) as (Hs & Ht & p & e & Hp & He & Hk).
  destruct (link_source stages (pp_path p) e) as [Es Et]; [|done|].
  { pose proof (paths_ok Hrows) as Hok. rewrite Forall_forall in Hok. by apply Hok. }
  assert (dl_source l = dl_source v /\ dl_target l = dl_target v) as [El Er] by (split; injection Hc; done).
  rewrite <- Hg. f_equal. unfold linkStableKey. rewrite El, Er, Hs, Ht, <- Hk, Es, Et. done.
Qed.

(** The sum of a field of the metrics over paths. *)
Definition path_sum (weight : FlowMetrics -> f64) (ps : list PreparedFlowPath) : f64 :=
  foldl fadd fzero (weight ∘ pp_metrics <$> ps).

(** C11: The graph is the sum of its paths.  Every node of a path is a node of
    the graph, exactly once, and every step of a path is a link of the graph,
    exactly once; nothing else is in the graph.  The value, quota, tokens and
    requests of a node or link are the sums of those of the paths through it, in
    the order of the rows.  This holds for every limit, overflow mode, selection
    and mask, if no name contains the separator [U+0000] of link keys. *)
Theorem graph_sums :
  (dn_id <$> g_nodes graph ≡ₚ uniq (paths ≫= (fun p => pn_id <$> pp_path p))) /\
  (linkStableKey <$> g_links graph ≡ₚ uniq (paths ≫= (fun p => link_text_key <$> path_links (pp_path p)))) /\
  Forall (fun n =>
    dn_value n = path_sum (fun m => metricValue m metric) (through paths (dn_id n)) /\
    dn_quota n = path_sum m_quota (through paths (dn_id n)) /\
    dn_tokens n = path_sum m_tokens (through paths (dn_id n)) /\
    dn_requests n = path_sum m_requests (through paths (dn_id n))) (g_nodes graph) /\
  Forall (fun l =>
    dl_value l = path_sum (fun m => metricValue m metric) (along paths (linkStableKey l)) /\
    dl_quota l = path_sum m_quota (along paths (linkStableKey l)) /\
    dl_tokens l = path_sum m_tokens (along paths (linkStableKey l)) /\
    dl_requests l = path_sum m_requests (along paths (linkStableKey l))) (g_links graph).
Proof using Hrows.
  pose proof (paths_ok Hrows) as Hok. pose proof stages_nodup as Hst. split_and!.
  - rewrite graph_node_ids. apply NoDup_Permutation; [apply group_nodup|apply uniq_nodup|]. intros i.
    rewrite uniq_elem, list_elem_of_bind. unfold node_map. rewrite group_elem_key. split.
    + intros ([p m] & [Hp Hm]%(items_elem id) & <-). exists p. split; [by apply (list_elem_of_fmap_2 pn_id)|done].
    + intros (p & (m & -> & Hm)%list_elem_of_fmap & Hp). exists (p, m). split; [by apply (items_elem id)|done].
  - rewrite graph_link_keys. apply NoDup_Permutation; [apply group_nodup|apply uniq_nodup|]. intros key.
    rewrite uniq_elem, list_elem_of_bind, link_keys. split.
    + intros (p & e & Hp & He & <-). exists p. split; [by apply list_elem_of_fmap_2|done].
    + intros (p & (e & -> & He)%list_elem_of_fmap & Hp). by exists p, e.
  - apply Forall_forall. intros n (v & Hv & Hc)%graph_node. injection Hc as _ _ -> -> -> ->.
    split_and!; by eapply (node_field metric palette root_colors stages paths Hst Hok _ _ _ _).
  - apply Forall_forall. intros l (v & Hv & Hc)%graph_link. injection Hc as _ _ -> -> -> ->.
    split_and!; by eapply (link_field metric palette root_colors stages paths Hst Hok _ _ _ _).
Qed.

(** ** Conservation *)

(** A number that counts things. *)
Definition whole (x : f64) : Prop := x = f64_of_Z (to_Z x) /\ (0 <= to_Z x)%Z.

Definition row_units (row : FlowQuotaDataItem) : Z := to_Z (metricValue (rowMetrics row) metric).
Definition units (p : PreparedFlowPath) : Z := to_Z (metricValue (pp_metrics p) metric).

Hypothesis Hwhole : Forall (fun row => whole (metricValue (rowMetrics row) metric)) rows.
Hypothesis Hbound : (zsum (row_units <$> rows) < 2 ^ 53)%Z.

Lemma paths_whole : Forall (fun p => whole (metricValue (pp_metrics p) metric)) paths.
Proof using Hwhole.
  apply Forall_forall. intros p (row & Hrow & -> & _)%paths_elem. rewrite Forall_forall in Hwhole. by apply Hwhole.
Qed.

Lemma paths_bound : (zsum (units <$> paths) < 2 ^ 53)%Z.
Proof using Hwhole Hbound.
  apply Z.le_lt_trans with (zsum (row_units <$> rows)); [|exact Hbound]. unfold paths, graphPaths, preparePaths.
  generalize (buildTopNodeSets rows metric stages (normalizeTopNodeLimit (go_topNodeLimit options)) ctx) as sets.
  intros sets. pose proof Hwhole as Hall. clear -Hall. induction Hall as [|row rows' [_ Hw] _ IH]; [done|]. cbn [omap list_omap]. rewrite fmap_cons, zsum_cons.
  destruct (_ ≫= _) as [p|] eqn:E; [|unfold row_units in *; lia]. rewrite fmap_cons, zsum_cons.
  assert (units p = row_units row) as ->; [|lia].
  apply bind_Some in E as (path & _ & [= <-]). done.
Qed.

Lemma filter_units P : (0 <= zsum (units <$> List.filter P paths) < 2 ^ 53)%Z.
Proof using Hwhole Hbound.
  enough (0 <= zsum (units <$> List.filter P paths) <= zsum (units <$> paths))%Z by (pose proof paths_bound; lia).
  pose proof paths_whole as Hw. induction Hw as [|p ps [_ Hp] _ IH]; [done|]. change (0 <= units p)%Z in Hp.
  cbn [List.filter]. rewrite fmap_cons, zsum_cons. destruct (P p); [rewrite fmap_cons, zsum_cons|]; lia.
Qed.

Lemma sum_units P : path_sum (fun m => metricValue m metric) (List.filter P paths)
  = f64_of_Z (zsum (units <$> List.filter P paths)).
Proof using Hwhole Hbound.
  pose proof (filter_units P) as Hf. unfold path_sum.
  assert (Forall (fun p => whole (metricValue (pp_metrics p) metric)) (List.filter P paths)) as Hw.
  { pose proof paths_whole as Hw. rewrite Forall_forall in *. intros p Hp. apply Hw.
    rewrite list_elem_of_In, filter_In in Hp. apply list_elem_of_In, Hp. }
  assert (((fun m => metricValue m metric) ∘ pp_metrics) <$> List.filter P paths
    = f64_of_Z <$> (units <$> List.filter P paths)) as ->.
  { rewrite <- list_fmap_compose. apply list_fmap_ext. intros i p Hp. rewrite Forall_forall in Hw.
    destruct (Hw p) as [Hp' _]; [by eapply list_elem_of_lookup_2|exact Hp']. }
  apply sum_integers; [|lia]. apply Forall_fmap. eapply Forall_impl; [exact Hw|]. by intros p [].
Qed.

(** The links at one end of a node carry what the node carries. *)
Section Side.
Context (side : FlowPathNode * FlowPathNode -> jstr) (side_key : jstr -> jstr) (link_side : DashboardFlowLink -> jstr)
  (members : list FlowPathNode -> list FlowPathNode).
Hypothesis Hkey : forall path e, path_ok stages path -> e ∈ path_links path -> side_key (link_text_key e) = side e.
Hypothesis Hlink : forall l, l ∈ g_links graph -> link_side l = side_key (linkStableKey l).
Hypothesis Hside : forall path, side <$> path_links path = pn_id <$> members path.
Hypothesis Hmembers : forall path, sublist (members path) path.

Lemma side_nodup : Forall (fun p => NoDup (side <$> path_links (pp_path p))) paths.
Proof using Hrows Hside Hmembers.
  eapply Forall_impl; [exact (paths_ok Hrows)|]. intros p Hp. rewrite Hside.
  eapply sublist_NoDup; [eapply path_ids_nodup; [apply stages_nodup|exact Hp]|]. apply fmap_sublist, Hmembers.
Qed.

Lemma side_units i :
  zsum ((fun key => zsum (units <$> along paths key)) <$> List.filter (fun key => bool_decide (side_key key = i)) links_by_key.*1)
  = zsum (units <$> List.filter (has_part path_links side i) paths).
Proof using Hrows Hkey Hside Hmembers.
  rewrite <- (items_of_key path_links side units i paths side_nodup).
  set (at_end := fun key => bool_decide (side_key key = i)).
  transitivity (zsum ((fun x : link_item => units (fst x)) <$>
    List.filter (fun x => at_end (link_key x)) (items path_links paths))).
  - etransitivity; [|apply (zsum_partition link_key (fun x : link_item => units (fst x))
      at_end (items path_links paths) links_by_key.*1)].
    + f_equal. apply list_fmap_ext. intros j key _. f_equal. symmetry.
      apply (items_of_key path_links link_text_key units), (link_paths_nodup stages); [apply stages_nodup|by apply paths_ok].
    + apply group_nodup.
    + intros x Hx. unfold link_map. apply group_elem_key. by exists x.
  - f_equal. f_equal. apply List.filter_ext_in. intros [p e] [Hp He]%list_elem_of_In%(items_elem path_links).
    apply bool_decide_ext. cbn [fst snd]. unfold link_key. cbn [fst snd]. change (pathLinkKey (fst e) (snd e)) with (link_text_key e).
    rewrite (Hkey (pp_path p)); [done| |done]. pose proof (paths_ok Hrows) as Hok. rewrite Forall_forall in Hok. by apply Hok.
Qed.

Lemma side_flow i :
  foldl fadd fzero (dl_value <$> List.filter (fun l => bool_decide (link_side l = i)) (g_links graph))
  = f64_of_Z (zsum (units <$> List.filter (has_part path_links side i) paths)).
Proof using Hrows Hwhole Hbound Hkey Hlink Hside Hmembers.
  rewrite <- side_units.
  apply (keyed_sum dl_value linkStableKey _ (fun key => bool_decide (side_key key = i)) (fun key => zsum (units <$> along paths key))).
  - intros l Hl. rewrite (Hlink l Hl). split; [done|]. apply graph_link in Hl as (v & Hv & Hc). injection Hc as _ _ -> _ _ _.
    rewrite (link_field metric palette root_colors stages paths stages_nodup (paths_ok Hrows) dl_value (fun m => metricValue m metric) (linkStableKey l) v); [|done..].
    apply sum_units.
  - apply graph_link_keys.
  - intros key. apply filter_units.
  - rewrite side_units. apply filter_units.
Qed.
End Side.

Lemma node_units n : n ∈ g_nodes graph -> dn_value n = f64_of_Z (zsum (units <$> through paths (dn_id n))) /\
  id_of_kind (dn_kind n) (dn_id n).
Proof using Hrows Hwhole Hbound.
  intros (v & Hv & Hc)%graph_node. pose proof (paths_ok Hrows) as Hok.
  destruct (node_identity _ _ _ _ _ _ Hv) as (Hi & p & m & Hp & Hm & Hid & Hk). injection Hc as E1 E2 E3 _ _ _. split.
  - rewrite E3. rewrite (node_field metric palette root_colors stages paths stages_nodup Hok dn_value (fun m => metricValue m metric) (dn_id n) v); [|done..].
    apply sum_units.
  - rewrite Forall_forall in Hok. destruct (Hok p Hp) as [_ Hids]. rewrite Forall_forall in Hids.
    rewrite E2, Hk, <- Hid. by apply Hids.
Qed.

(** Outside the last stage every path that visits a node leaves it, outside the
    first one it enters it. *)
Lemma leaves k i path : path_ok stages path -> id_of_kind k i -> last stages <> Some k ->
  i ∈ pn_id <$> path -> i ∈ pn_id <$> take (length path - 1) path.
Proof using Type.
  intros [Hk Hids] Hi Hlast Hin. destruct path as [|m path] using rev_ind; [done|].
  rewrite length_app, Nat.add_sub, take_app_length. rewrite fmap_app, elem_of_app in Hin. destruct Hin as [Hin|Hin]; [done|].
  apply list_elem_of_singleton in Hin. destruct Hlast. rewrite <- Hk, fmap_app, last_app. cbn. f_equal.
  apply Forall_app in Hids as [_ Hm]. rewrite Forall_singleton in Hm. eapply id_kind_inj; [apply Hm|]. by rewrite <- Hin.
Qed.

Lemma enters k i path : path_ok stages path -> id_of_kind k i -> head stages <> Some k ->
  i ∈ pn_id <$> path -> i ∈ pn_id <$> tail path.
Proof using Type.
  intros [Hk Hids] Hi Hhead Hin. destruct path as [|m path]; [done|]. cbn [tail]. rewrite fmap_cons in Hin.
  apply elem_of_cons in Hin as [Hin|Hin]; [|done]. destruct Hhead. rewrite <- Hk. cbn. f_equal.
  apply Forall_cons in Hids as [Hm _]. eapply id_kind_inj; [apply Hm|]. by rewrite <- Hin.
Qed.

(** C10: Flow is conserved.  If the metric of every row is a whole number, their
    sum is exact (below 2^53) and no name contains the separator [U+0000], then the links that leave a node carry
    together exactly its value, unless it is in the last stage, and the links
    that enter it carry exactly its value, unless it is in the first stage;
    whatever the limit and the overflow mode. *)
Theorem flow_conserved n : n ∈ g_nodes graph ->
  (last stages <> Some (dn_kind n) ->
   foldl fadd fzero (dl_value <$> List.filter (fun l => bool_decide (dl_source l = dn_id n)) (g_links graph)) = dn_value n) /\
  (head stages <> Some (dn_kind n) ->
   foldl fadd fzero (dl_value <$> List.filter (fun l => bool_decide (dl_target l = dn_id n)) (g_links graph)) = dn_value n).
Proof using Hrows Hwhole Hbound.
  intros Hn. pose proof (node_units n Hn) as [-> Hid]. pose proof (paths_ok Hrows) as Hok. rewrite Forall_forall in Hok.
  assert (forall l, l ∈ g_links graph -> dl_source l = key_source (linkStableKey l) /\ dl_target l = key_target (linkStableKey l)) as Hends.
  { intros l (v & Hv & Hc)%graph_link. destruct (link_identity _ _ _ stages paths (paths_ok Hrows) _ v Hv) as (Hs & Ht & _).
    injection Hc as -> -> _ _ _ _. done. }
  split; intros Hstage.
  - rewrite (side_flow (fun e => pn_id (fst e)) key_source dl_source (fun path => take (length path - 1) path)).
    + do 3 f_equal. apply List.filter_ext_in. intros p Hp%list_elem_of_In. apply bool_decide_ext.
      rewrite path_links_starts. split; [|by eapply leaves; [apply Hok|..]].
      intros Hin. eapply elem_of_submseteq; [exact Hin|]. apply sublist_submseteq, fmap_sublist, sublist_take.
    + intros path e Hpath He. by apply (link_source stages path).
    + by intros l []%Hends.
    + intros path. by rewrite path_links_starts.
    + intros path. apply sublist_take.
  - rewrite (side_flow (fun e => pn_id (snd e)) key_target dl_target tail).
    + do 3 f_equal. apply List.filter_ext_in. intros p Hp%list_elem_of_In. apply bool_decide_ext.
      rewrite path_links_stops. split; [|by eapply enters; [apply Hok|..]].
      intros Hin. eapply elem_of_submseteq; [exact Hin|]. apply sublist_submseteq, fmap_sublist, tail_sublist.
    + intros path e Hpath He. by apply (link_source stages path).
    + by intros l []%Hends.
    + intros path. by rewrite path_links_stops.
    + intros path. apply tail_sublist.
Qed.

(** ** Totals *)

(** The kind in an identifier. *)
Definition kind_prefix (k : FlowNodeKind) (i : jstr) : bool :=
  bool_decide (take (S (length (kind_name k))) i = kind_name k ++ js ":").

Lemma kind_prefix_spec k k' i : id_of_kind k' i -> kind_prefix k i = bool_decide (k' = k).
Proof using Type. intros [r ->]. by destruct k, k'. Qed.

Lemma kind_name_inj k1 k2 : kind_name k1 = kind_name k2 -> k1 = k2.
Proof using Type. by destruct k1, k2. Qed.

(** Every path has one node in every stage. *)
Lemma stage_units k : k ∈ stages ->
  zsum ((fun i => zsum (units <$> through paths i)) <$> List.filter (kind_prefix k) nodes_by_id.*1) = zsum (units <$> paths).
Proof using Hrows.
  intros Hk. pose proof (paths_ok Hrows) as Hok. pose proof stages_nodup as Hst.
  assert (Forall (fun p => NoDup ((fun m => kind_name (pn_kind m)) <$> id (pp_path p))) paths) as Hkinds.
  { eapply Forall_impl; [exact Hok|]. intros p [Hkp _]. cbn [id]. rewrite (list_fmap_compose pn_kind kind_name), Hkp.
    by apply NoDup_fmap_2_strong; [intros; by apply kind_name_inj|]. }
  transitivity (zsum ((fun x : node_item => units (fst x)) <$> List.filter (fun x => kind_prefix k (visit_key x)) (items id paths))).
  - etransitivity; [|apply (zsum_partition visit_key (fun x : node_item => units (fst x)) (kind_prefix k) (items id paths) nodes_by_id.*1)].
    + f_equal. apply list_fmap_ext. intros j i _. f_equal. symmetry. apply (items_of_key id pn_id units), (node_paths_nodup stages); done.
    + apply group_nodup.
    + intros x Hx. unfold node_map. apply group_elem_key. by exists x.
  - f_equal. etransitivity; [|etransitivity; [apply (items_of_key id (fun m => kind_name (pn_kind m)) units (kind_name k) paths Hkinds)|]].
    + f_equal. apply List.filter_ext_in. intros [p m] [Hp Hm]%list_elem_of_In%(items_elem id).
      rewrite Forall_forall in Hok. destruct (Hok p Hp) as [_ Hids]. rewrite Forall_forall in Hids.
      unfold visit_key. cbn [snd]. rewrite (kind_prefix_spec k (pn_kind m)) by (by apply Hids). apply bool_decide_ext.
      split; [by intros ->|apply kind_name_inj].
    + f_equal. rewrite <- (filter_true paths) at 2. apply List.filter_ext_in. intros p Hp%list_elem_of_In. apply bool_decide_eq_true.
      rewrite Forall_forall in Hok. destruct (Hok p Hp) as [Hkp _]. cbn [id]. rewrite (list_fmap_compose pn_kind kind_name), Hkp.
      by apply list_elem_of_fmap_2.
Qed.

(** ** Rows that are shown *)

Definition overflow_mode : FlowOverflowMode := default DEFAULT_FLOW_OVERFLOW_MODE (go_overflowMode options).
Definition top_sets : option (list (FlowNodeKind * list jstr)) :=
  buildTopNodeSets rows metric stages (normalizeTopNodeLimit (go_topNodeLimit options)) ctx.

(** A row is hidden in the mode [hide], when its path has a node beyond the limit. *)
Definition shown (row : FlowQuotaDataItem) : bool :=
  match overflow_mode with Oaggregate => true | Ohide => false end ||
  forallb (fun node => isTopFlowNode node top_sets) (flowPathForStages row stages ctx).

Lemma shown_path row :
  is_Some (applyTopNodeLimit (flowPathForStages row stages ctx) top_sets overflow_mode (go_otherNodeLabel options)) <-> shown row = true.
Proof using Type.
  unfold shown, applyTopNodeLimit. generalize (flowPathForStages row stages ctx) as path. intros path.
  assert (existsb (fun node => negb (isTopFlowNode node top_sets)) path = negb (forallb (fun node => isTopFlowNode node top_sets) path)) as ->.
  { induction path as [|n path IH]; [done|]. cbn [existsb forallb]. rewrite IH. by destruct (isTopFlowNode n top_sets). }
  destruct top_sets as [sets|]; [|split; [|by eexists]; intros _; apply orb_true_iff; right; by induction path].
  rewrite negb_involutive. destruct (forallb _ path), overflow_mode; split; try done; by eexists.
Qed.

(** The paths carry what the rows that are shown carry. *)
Lemma units_of_rows : units <$> paths = row_units <$> List.filter shown rows.
Proof using Type.
  unfold paths, graphPaths, preparePaths. fold top_sets. fold overflow_mode. pose proof shown_path as Hs. revert Hs.
  generalize shown as sh. generalize top_sets as sets. intros sets sh Hs. clear -Hs. induction rows as [|row rows' IH]; [done|].
  cbn [omap list_omap List.filter]. specialize (Hs row).
  destruct (applyTopNodeLimit _ _ _ _) as [path|]; cbn [mbind option_bind].
  - rewrite (proj1 Hs) by (by eexists). by rewrite !fmap_cons, IH.
  - destruct (sh row) eqn:E; [|exact IH]. by destruct (proj2 Hs eq_refl).
Qed.

Lemma all_shown : normalizeTopNodeLimit (go_topNodeLimit options) = None \/ overflow_mode = Oaggregate -> List.filter shown rows = rows.
Proof using Type.
  intros Hmode. rewrite <- (filter_true rows) at 2. apply List.filter_ext. intros row. apply shown_path. unfold top_sets, applyTopNodeLimit.
  destruct Hmode as [->| ->]; [by eexists|]. destruct (buildTopNodeSets _ _ _ _ _); [|by eexists]. destruct (negb _); by eexists.
Qed.

(** The field of the summary that a metric names. *)
Definition summaryValue (s : FlowSummary) : f64 :=
  match metric with Mquota => fs_quota s | Mtokens => fs_tokens s | Mrequests => fs_requests s end.

Lemma summary_units rows' : Forall (fun row => whole (metricValue (rowMetrics row) metric)) rows' ->
  (zsum (row_units <$> rows') < 2 ^ 53)%Z -> summaryValue (buildSummary rows') = f64_of_Z (zsum (row_units <$> rows')).
Proof using Type.
  clear Hrows Hwhole Hbound. intros Hw Hb. transitivity (foldl fadd fzero ((fun row => metricValue (rowMetrics row) metric) <$> rows')).
  - unfold buildSummary. set (start := Build_FlowSummary _ _ _). assert (summaryValue start = fzero) as <- by (unfold summaryValue; by destruct metric).
    generalize start. clear. induction rows' as [|row rows' IH]; intros start; [done|]. rewrite fmap_cons. cbn [foldl].
    rewrite IH. f_equal. unfold summaryValue. by destruct metric.
  - rewrite <- sum_integers; [| |exact Hb].
    + f_equal. rewrite <- list_fmap_compose. apply list_fmap_ext. intros i row Hrow. rewrite Forall_forall in Hw.
      apply (proj1 (Hw row (list_elem_of_lookup_2 _ _ _ Hrow))).
    + apply Forall_fmap. eapply Forall_impl; [exact Hw|]. by intros row [].
Qed.

Lemma shown_whole : Forall (fun row => whole (metricValue (rowMetrics row) metric)) (List.filter shown rows).
Proof using Hwhole.
  pose proof Hwhole as Hw. rewrite Forall_forall in Hw |- *. intros row Hrow%list_elem_of_In. apply Hw, list_elem_of_In.
  by apply filter_In in Hrow as [? _].
Qed.

(** C12: No usage is lost between the stages.  If no name contains the separator
    [U+0000], the metric of every row is a whole number and their sum is below 2^53,
    then the values of the nodes of every visible stage add up to the summary of the
    rows that are shown: those whose path has, in the mode [hide], no node beyond the
    limit.  Without a limit, and when the nodes beyond it are aggregated, those are
    all the rows. *)
Theorem stage_total k : k ∈ stages ->
  foldl fadd fzero (dn_value <$> List.filter (fun n => bool_decide (dn_kind n = k)) (g_nodes graph))
  = summaryValue (buildSummary (List.filter shown rows)) /\
  (normalizeTopNodeLimit (go_topNodeLimit options) = None \/
   default DEFAULT_FLOW_OVERFLOW_MODE (go_overflowMode options) = Oaggregate -> List.filter shown rows = rows).
Proof using Hrows Hwhole Hbound.
  intros Hk. split; [|apply all_shown].
  rewrite (summary_units _ shown_whole), <- units_of_rows, <- (stage_units k) by (done || (rewrite <- units_of_rows; apply paths_bound)).
  apply (keyed_sum dn_value dn_id _ (kind_prefix k) (fun i => zsum (units <$> through paths i))).
  - intros n Hn. destruct (node_units n Hn) as [Hv Hid]. split; [symmetry; by apply kind_prefix_spec|exact Hv].
  - apply graph_node_ids.
  - intros i. apply filter_units.
  - rewrite stage_units by done. apply paths_bound.
Qed.
End Graph.

(** ** A sample of usage *)

#[local] Existing Instance code_unit_collation.

#[local] Instance plain_display : FlowDisplay :=
  {| vchartDefaultDataScheme := [{| maxDomainLength := None; scheme := [Some (js "#1664FF"); Some (js "#1AC6FF")] |}];
     format_integer := number_to_string |}.

Definition sample_row (token group_ model : string) (quota : Z) : FlowQuotaDataItem :=
  {| fq_user_id := None; fq_username := None; fq_node_name := None; fq_use_group := Some (js group_); fq_token_id := None;
     fq_token_name := Some (js token); fq_channel_id := None; fq_channel_name := None; fq_model_name := Some (js model);
     fq_token_used := None; fq_count := Some (f64_of_Z 1); fq_quota := Some (f64_of_Z quota) |}.
Arguments sample_row (token group_ model)%_string quota%_Z.

(** Three tokens, two groups and three models. *)
Definition sample_rows : list FlowQuotaDataItem :=
  [sample_row "alpha" "vip" "large" 50; sample_row "beta" "vip" "small" 20; sample_row "gamma" "free" "small" 7;
   sample_row "alpha" "free" "tiny" 3].

Definition plain_options (limit : option f64) (mode : FlowOverflowMode) (active : option FlowNodeFilter) : FlowGraphOptions :=
  {| go_topNodeLimit := limit; go_overflowMode := Some mode; go_otherNodeLabel := None; go_activeNode := active;
     go_activeLink := None; go_maskSensitive := true |}.

Abbreviation sample_graph options := (graph sample_rows Mquota Ruser None None None options).
Abbreviation top_one := (plain_options (Some (f64_of_Z 1)) Oaggregate None).
Abbreviation hide_one := (plain_options (Some (f64_of_Z 1)) Ohide None).

Lemma sample_plain : Forall row_plain sample_rows.
Proof. repeat constructor; apply (bool_decide_unpack _); by vm_compute. Qed.

Lemma sample_whole : Forall (fun row => whole (metricValue (rowMetrics row) Mquota)) sample_rows.
Proof. repeat constructor; by vm_compute. Qed.

Lemma graph_sums_witness :
  (fun n => (dn_id n, to_Z (dn_value n))) <$> g_nodes (sample_graph top_one)
  = [(js "group:vip", 70%Z); (js "token:alpha", 53%Z); (js "model:large", 50%Z); (js "model:__other__", 30%Z);
     (js "token:__other__", 27%Z); (js "group:__other__", 10%Z)] /\
  dn_id <$> g_nodes (sample_graph top_one)
  ≡ₚ uniq (paths sample_rows Mquota Ruser None None top_one ≫= (fun p => pn_id <$> pp_path p)).
Proof.
  split; [by vm_compute|]. exact (proj1 (graph_sums sample_rows Mquota Ruser None None None top_one sample_plain)).
Defined.

Lemma flow_conserved_witness : Forall (fun n =>
  Some Kmodel <> Some (dn_kind n) ->
  foldl fadd fzero (dl_value <$> List.filter (fun l => bool_decide (dl_source l = dn_id n)) (g_links (sample_graph top_one)))
  = dn_value n) (g_nodes (sample_graph top_one)).
Proof.
  apply Forall_forall. intros n Hn.
  exact (proj1 (flow_conserved sample_rows Mquota Ruser None None None top_one sample_plain sample_whole eq_refl n Hn)).
Defined.

Lemma stage_total_witness :
  let quota sample := foldl fadd fzero (dn_value <$> List.filter (fun n => bool_decide (dn_kind n = Kgroup)) (g_nodes (sample_graph sample))) in
  quota top_one = fs_quota (buildSummary sample_rows) /\ fs_quota (buildSummary sample_rows) = f64_of_Z 80 /\
  quota hide_one = fs_quota (buildSummary [sample_row "alpha" "vip" "large" 50]).
Proof.
  assert (Kgroup ∈ stages Ruser None) as Hk by (apply (bool_decide_unpack _); by vm_compute).
  split_and!; [|by vm_compute|].
  - destruct (stage_total sample_rows Mquota Ruser None None None top_one sample_plain sample_whole eq_refl Kgroup Hk) as [Hs Hall].
    rewrite (Hall (or_intror eq_refl)) in Hs. exact Hs.
  - exact (proj1 (stage_total sample_rows Mquota Ruser None None None hide_one sample_plain sample_whole eq_refl Kgroup Hk)).
Defined.
End FlowFacts.
