(* ===== verification/DashboardRankFacts.v ===== *)
(** * Properties of the limit and the selection of the flow

    The limit on the nodes of a stage keeps the largest ones and bounds the
    graph; a selection highlights exactly the paths it matches. *)

From stdpp Require Import base list numbers strings sets sorting.
From Stdlib Require Import ZArith SpecFloat Lia.
From S2P Require Import Prelude.
From S2P Require Import JsString.
From S2P Require Import JsNumber.
From S2P Require Import JsNumberFacts.
From S2P Require Import JsIntegers.
From S2P Require Import JsValue.
From S2P Require Import JsJson.
From S2P Require Import JsCollections.
From S2P Require Import DashboardFlow.
From S2P Require Import DashboardFlowFacts.

Module FlowRankFacts.
Import Flow FlowFacts.

Section Rank.
Context `{Collation} `{FlowDisplay} (metric : FlowMetric) (ctx : FlowPathContext).

(** ** The totals of a stage *)

Definition rank_key (k : FlowNodeKind) (row : FlowQuotaDataItem) : jstr := pn_id (NODE_BUILDERS k row ctx).
Definition rank_initial (k : FlowNodeKind) (row : FlowQuotaDataItem) : FlowNodeRank :=
  {| rk_node := NODE_BUILDERS k row ctx; rk_value := fzero |}.
Definition rank_update (row : FlowQuotaDataItem) (r : FlowNodeRank) : FlowNodeRank :=
  {| rk_node := rk_node r; rk_value := fadd (rk_value r) (metricValue (rowMetrics row) metric) |}.

Abbreviation rank_add k := (add_item (rank_key k) (rank_initial k) rank_update).
Abbreviation rank_group k := (group (rank_key k) (rank_initial k) rank_update).

Abbreviation totals_map := (list (FlowNodeKind * list (jstr * FlowNodeRank))).

Lemma addTotal_keys value (m : totals_map) node : NoDup m.*1 -> NoDup (addTotal value m node).*1.
Proof. intros Hm. unfold addTotal. destruct (mget _ _); [by apply mset_nodup|done]. Qed.

Lemma row_totals_keys value (m : totals_map) path : NoDup m.*1 -> NoDup (foldl (addTotal value) m path).*1.
Proof. revert m. induction path as [|n path IH]; intros m Hm; [done|]. by apply IH, addTotal_keys. Qed.

(** A row adds to the node that it has in every stage. *)
Lemma row_totals sts row (m : totals_map) k : NoDup sts ->
  mget k (foldl (addTotal (metricValue (rowMetrics row) metric)) m (flowPathForStages row sts ctx))
  = if bool_decide (k ∈ sts) then (fun st => rank_add k st row) <$> mget k m else mget k m.
Proof.
  intros Hnd. revert m. induction Hnd as [|s sts Hs Hnd IH]; intros m; [done|].
  unfold flowPathForStages. rewrite fmap_cons. cbn [foldl]. change ((fun stage => NODE_BUILDERS stage row ctx) <$> sts)
    with (flowPathForStages row sts ctx). rewrite IH. clear IH.
  set (m' := addTotal _ m _).
  assert (mget k m' = if bool_decide (k = s) then (fun st => rank_add k st row) <$> mget k m else mget k m) as ->.
  { unfold m', addTotal. rewrite builder_kind. destruct (mget s m) as [st|] eqn:Es; case_bool_decide as Hk; subst; rewrite ?Es; try done.
    - by rewrite mget_mset.
    - by rewrite mget_mset_ne. }
  destruct (decide (k = s)) as [->|Hne].
  - rewrite (bool_decide_false (s ∈ sts)), !bool_decide_true by (done || left). done.
  - rewrite (bool_decide_false (k = s)) by done. rewrite (bool_decide_ext (k ∈ s :: sts) (k ∈ sts)); [done|]. set_solver.
Qed.

(** The totals before the first row. *)
Definition no_totals (sts : list FlowNodeKind) : totals_map := foldl (fun m stage => mset stage [] m) [] sts.

Lemma no_totals_get sts k : k ∈ sts -> mget k (no_totals sts) = Some [].
Proof.
  unfold no_totals. assert (forall m : totals_map, k ∈ sts \/ mget k m = Some [] -> mget k (foldl (fun m stage => mset stage [] m) m sts) = Some []) as Hg;
    [|intros Hk; apply Hg; by left].
  induction sts as [|s sts IH]; intros m Hk; [destruct Hk as [Hk|]; [by apply elem_of_nil in Hk|done]|]. cbn [foldl]. apply IH.
  destruct (decide (k = s)) as [->|Hne]; [right; apply mget_mset|]. rewrite mget_mset_ne by done. set_solver.
Qed.

Lemma no_totals_nodup sts : NoDup (no_totals sts).*1.
Proof.
  unfold no_totals. assert (forall m : totals_map, NoDup m.*1 -> NoDup (foldl (fun m stage => mset stage [] m) m sts).*1) as Hg;
    [|apply Hg; constructor].
  induction sts as [|s sts IH]; intros m Hm; [done|]. by apply IH, mset_nodup.
Qed.

(** The set of a stage holds the first identifiers of its ranking. *)
Lemma top_set rows sts limit sets k : NoDup sts -> k ∈ sts ->
  buildTopNodeSets rows metric sts (Some limit) ctx = Some sets ->
  mget k sets = Some (topIds limit (rank_group k [] rows)).
Proof.
  set (step := fun (m : totals_map) row => foldl (addTotal (metricValue (rowMetrics row) metric)) m (flowPathForStages row sts ctx)).
  intros Hnd Hk Hs. unfold buildTopNodeSets in Hs. destruct (falsy_number (Some limit)); [done|]. assert (sets = foldl (fun m entry => mset (fst entry) (topIds limit (snd entry)) m) []
    (foldl step (no_totals sts) rows)) as -> by (by injection Hs).
  assert (forall m, NoDup m.*1 -> NoDup (foldl step m rows).*1 /\
    mget k (foldl step m rows) = (fun st => rank_group k st rows) <$> mget k m) as Hall.
  { clear Hs. induction rows as [|row rows IH]; intros m Hm; [cbn [foldl]; split; [done|]; by destruct (mget k m)|]. cbn [foldl].
    destruct (IH (step m row)) as [IH1 IH2]; [by apply row_totals_keys|]. split; [done|]. rewrite IH2. unfold step.
    rewrite row_totals, bool_decide_true by done. by destruct (mget k m). }
  destruct (Hall (no_totals sts) (no_totals_nodup sts)) as [Hkeys Hget].
  rewrite (mget_rebuild (topIds limit)) by done. by rewrite Hget, no_totals_get.
Qed.

(** ** The largest nodes *)

Section Largest.
Context (rows : list FlowQuotaDataItem) (k : FlowNodeKind).
Hypothesis Hwhole : Forall (fun row => whole (metricValue (rowMetrics row) metric)) rows.
Hypothesis Hbound : (zsum (row_units metric <$> rows) < 2 ^ 53)%Z.

(** What the rows of a node add up to. *)
Definition kind_units (i : jstr) : Z :=
  zsum (row_units metric <$> List.filter (fun row => bool_decide (rank_key k row = i)) rows).

Lemma kind_units_range i : (0 <= kind_units i < 2 ^ 53)%Z.
Proof using Hwhole Hbound.
  enough (0 <= kind_units i <= zsum (row_units metric <$> rows))%Z by lia. unfold kind_units.
  pose proof Hwhole as Hall. clear -Hall. induction Hall as [|row rows' [_ Hr] _ IH]; [done|]. change (0 <= row_units metric row)%Z in Hr.
  cbn [List.filter]. rewrite fmap_cons, zsum_cons. case_bool_decide; [rewrite fmap_cons, zsum_cons|]; lia.
Qed.

Lemma rank_entry r : r ∈ (rank_group k [] rows).*2 ->
  pn_id (rk_node r) ∈ rank_key k <$> rows /\ rk_value r = f64_of_Z (kind_units (pn_id (rk_node r))).
Proof using Hwhole Hbound.
  intros ([i r'] & -> & Hin)%list_elem_of_fmap. cbn [snd].
  assert (mget i (rank_group k [] rows) = Some r') as Hg by (apply mget_nodup; [apply group_nodup|done]).
  rewrite group_get in Hg. cbn [mget] in Hg.
  destruct (item_sum_kept (rank_key k) (rank_initial k) rank_update (fun r => pn_id (rk_node r)) (rank_key k) i rows r') as (row & Hrow & Hi & ->); [done|done|exact Hg|].
  split; [by apply list_elem_of_fmap_2|]. rewrite Hi.
  rewrite (item_sum_field (rank_key k) (rank_initial k) rank_update rk_value (fun row => metricValue (rowMetrics row) metric) i rows r'); [|done..].
  unfold kind_units. rewrite <- sum_integers; [| |apply kind_units_range].
  - f_equal. rewrite <- list_fmap_compose. apply list_fmap_ext. intros j x Hx. rewrite Forall_forall in Hwhole.
    destruct (Hwhole x) as [Hw _]; [|exact Hw]. apply list_elem_of_lookup_2, list_elem_of_In, filter_In in Hx as [Hx _].
    by apply list_elem_of_In.
  - apply Forall_fmap, Forall_forall. intros x [Hx _]%list_elem_of_In%filter_In. rewrite Forall_forall in Hwhole.
    apply Hwhole. by apply list_elem_of_In.
Qed.

Lemma rank_ids : (fun r => pn_id (rk_node r)) <$> (rank_group k [] rows).*2 = uniq (rank_key k <$> rows).
Proof using Type.
  transitivity (rank_group k [] rows).*1; [|by rewrite group_keys]. rewrite <- list_fmap_compose. apply list_fmap_ext.
  intros j [i r] Hl. cbn. assert (mget i (rank_group k [] rows) = Some r) as Hg
    by (apply mget_nodup; [apply group_nodup|by eapply list_elem_of_lookup_2]).
  rewrite group_get in Hg.
  by destruct (item_sum_kept (rank_key k) (rank_initial k) rank_update (fun r => pn_id (rk_node r)) (rank_key k) i rows r) as (row & Hrow & Hi & ->).
Qed.

Lemma rank_sorted : StronglySorted (fun r1 r2 => kind_units (pn_id (rk_node r2)) <= kind_units (pn_id (rk_node r1)))%Z
  (sort_by byRank (rank_group k [] rows).*2).
Proof using Hwhole Hbound.
  apply sort_by_sorted; [intros a b c; lia|]. intros x y [_ Hx]%rank_entry [_ Hy]%rank_entry.
  unfold byRank. rewrite Hx, Hy, compare_by_integers by apply kind_units_range.
  set (rest := then_by (localeCompare _ _) _); clearbody rest. destruct (Z.compare_spec (kind_units (pn_id (rk_node y))) (kind_units (pn_id (rk_node x)))); cbn [then_by];
    [destruct rest| |]; lia.
Qed.
End Largest.

(** C13: A limit keeps the largest nodes.  For every stage the set holds as many
    different nodes of the rows as the limit admits, and no node outside it has
    a larger total than one inside it (whole metrics, exact sums). *)
Theorem top_nodes_largest rows stages limit sets k :
  Forall (fun row => whole (metricValue (rowMetrics row) metric)) rows ->
  (zsum (row_units metric <$> rows) < 2 ^ 53)%Z -> NoDup stages -> k ∈ stages ->
  buildTopNodeSets rows metric stages (Some limit) ctx = Some sets ->
  exists ids, mget k sets = Some ids /\ NoDup ids /\
    length ids = Nat.min (Z.to_nat (to_Z limit)) (length (uniq (rank_key k <$> rows))) /\
    (forall i, i ∈ ids -> i ∈ rank_key k <$> rows) /\
    (forall i j, i ∈ ids -> j ∈ rank_key k <$> rows -> j ∉ ids -> kind_units rows k j <= kind_units rows k i)%Z.
Proof.
  intros Hwhole Hbound Hnd Hk Hsets. exists (topIds limit (rank_group k [] rows)). split; [by eapply top_set|].
  unfold topIds. set (n := Z.to_nat (to_Z limit)). set (ranks := sort_by byRank (rank_group k [] rows).*2).
  assert ((fun r => pn_id (rk_node r)) <$> ranks ≡ₚ uniq (rank_key k <$> rows)) as Hids
    by (rewrite <- rank_ids; apply fmap_Permutation, sort_by_perm).
  assert (NoDup ((fun r => pn_id (rk_node r)) <$> ranks)) as Hnodup by (rewrite Hids; apply uniq_nodup).
  split_and!.
  - eapply sublist_NoDup; [exact Hnodup|]. apply fmap_sublist, sublist_take.
  - rewrite length_fmap, length_take. f_equal. rewrite <- (Permutation_length Hids). by rewrite length_fmap.
  - intros i (r & -> & Hr)%list_elem_of_fmap. rewrite <- uniq_elem, <- Hids. apply (list_elem_of_fmap_2 (fun r => pn_id (rk_node r))).
    rewrite <- (take_drop n ranks). apply elem_of_app. by left.
  - intros i j (r & -> & Hr)%list_elem_of_fmap Hj Hout. rewrite <- uniq_elem, <- Hids in Hj.
    apply list_elem_of_fmap in Hj as (r' & -> & Hr'). rewrite <- (take_drop n ranks), elem_of_app in Hr'.
    destruct Hr' as [Hr'|Hr']; [by destruct Hout; apply (list_elem_of_fmap_2 (fun r => pn_id (rk_node r)))|].
    exact (sorted_take _ n ranks r r' (rank_sorted rows k Hwhole Hbound) Hr Hr').
Qed.
End Rank.

(** ** The graph under a limit and a selection *)

Lemma positive_truthy x : fltb fzero x = true -> falsy_number (Some x) = false.
Proof.
  destruct x as [s|s| |s m e]; [by destruct s..|done|]. destruct s; [done|]. intros _. unfold falsy_number, feqb, SFeqb.
  cbn [SFcompare]. by rewrite Z.compare_refl, Pos.compare_cont_refl.
Qed.

Section GraphFacts.
Context `{Collation} `{FlowDisplay}.
Context (rows : list FlowQuotaDataItem) (metric : FlowMetric) (role : FlowRole) (palette : option (list jstr))
  (visibleStages : option (list FlowNodeKind)) (ctx : FlowPathContext) (options : FlowGraphOptions).

Abbreviation stages := (FlowFacts.stages role visibleStages).
Abbreviation paths := (FlowFacts.paths rows metric role visibleStages ctx options).
Abbreviation graph := (FlowFacts.graph rows metric role palette visibleStages ctx options).
Abbreviation colors := (root_colors rows metric role palette visibleStages ctx options).

Abbreviation overflow_mode := (FlowFacts.overflow_mode options).

(** The identifiers that a limit keeps in a stage. *)
Definition kept_ids (limit : f64) (k : FlowNodeKind) : list jstr :=
  topIds limit (group (rank_key ctx k) (rank_initial ctx k) (rank_update metric) [] rows).

Definition other_ids (k : FlowNodeKind) : list jstr :=
  match overflow_mode with Oaggregate => [OTHER_FLOW_NODE_IDS k] | Ohide => [] end.

(** A limit is positive. *)
Lemma limit_truthy limit : normalizeTopNodeLimit (go_topNodeLimit options) = Some limit -> falsy_number (Some limit) = false.
Proof.
  unfold normalizeTopNodeLimit. destruct (go_topNodeLimit options) as [l|]; [|done].
  destruct (is_finite (ffloor l) && fltb fzero (ffloor l)) eqn:E; [|done]. intros [= <-].
  apply andb_true_iff in E as [_ Hpos]. by apply positive_truthy.
Qed.

Lemma kept_node limit p m : normalizeTopNodeLimit (go_topNodeLimit options) = Some limit ->
  p ∈ paths -> m ∈ pp_path p -> pn_id m ∈ kept_ids limit (pn_kind m) ++ other_ids (pn_kind m).
Proof.
  intros Hl (row & Hrow & _ & Hp)%paths_elem Hm. rewrite Hl in Hp.
  destruct (buildTopNodeSets rows metric stages (Some limit) ctx) as [s|] eqn:Es.
  2: { unfold buildTopNodeSets in Es. by rewrite (limit_truthy limit) in Es by done. }
  assert (forall k, mget k s = Some (kept_ids limit k) \/ k ∉ stages) as Hget.
  { intros k. destruct (decide (k ∈ stages)); [left; by eapply top_set; [apply stages_nodup|..]|by right]. }
  assert (forall n, n ∈ flowPathForStages row stages ctx -> isTopFlowNode n (Some s) = bool_decide (pn_id n ∈ kept_ids limit (pn_kind n))) as Htop.
  { intros n (k & -> & Hk)%list_elem_of_fmap. unfold isTopFlowNode. cbn [mbind option_bind]. rewrite builder_kind.
    by destruct (Hget k) as [->|]. }
  unfold applyTopNodeLimit in Hp. fold overflow_mode in Hp. apply elem_of_app. destruct (negb _) eqn:Eall.
  - injection Hp as Hp. rewrite <- Hp in Hm. left. apply negb_true_iff in Eall.
    assert (isTopFlowNode m (Some s) = true) as Ht; [|rewrite Htop in Ht by done; by apply bool_decide_eq_true in Ht].
    apply not_false_iff_true. intros Hf. apply not_true_iff_false in Eall. apply Eall, existsb_exists. exists m.
    split; [by apply list_elem_of_In|by rewrite Hf].
  - unfold other_ids. destruct overflow_mode; [|done]. injection Hp as Hp. rewrite <- Hp in Hm. apply list_elem_of_fmap in Hm as (n & -> & Hn).
    pose proof (Htop n Hn) as Ht. destruct (isTopFlowNode n (Some s)); [left; symmetry in Ht; by apply bool_decide_eq_true in Ht|].
    right. by apply list_elem_of_singleton.
Qed.

Lemma list_filter_sublist {A} (P : A -> bool) (l : list A) : sublist (List.filter P l) l.
Proof. induction l as [|x l IH]; [done|]. cbn [List.filter]. destruct (P x); by constructor. Qed.

(** A limit bounds the graph: a stage has at most as many nodes as the limit
    says when the overflow is hidden, and one more, for the others, when it is
    aggregated. *)
Theorem top_nodes_bounded limit k : normalizeTopNodeLimit (go_topNodeLimit options) = Some limit ->
  length (List.filter (fun n => bool_decide (dn_kind n = k)) (g_nodes graph))
  <= Z.to_nat (to_Z limit) + match default DEFAULT_FLOW_OVERFLOW_MODE (go_overflowMode options) with Oaggregate => 1 | Ohide => 0 end.
Proof.
  intros Hl. set (ns := List.filter _ _).
  assert (dn_id <$> ns ⊆+ kept_ids limit k ++ other_ids k) as Hsub%submseteq_length.
  { apply NoDup_submseteq.
    - eapply sublist_NoDup; [|apply fmap_sublist, list_filter_sublist]. rewrite graph_node_ids. apply group_nodup.
    - intros i (n & -> & [Hn Hk]%list_elem_of_In%filter_In)%list_elem_of_fmap. apply bool_decide_eq_true in Hk as <-.
      apply list_elem_of_In, graph_node in Hn as (v & Hv & Hc). injection Hc as Hi Hkind _ _ _ _.
      destruct (node_identity _ _ _ _ _ _ Hv) as (_ & p & m & Hp & Hm & <- & Hkm). rewrite Hkind, Hkm. by eapply kept_node. }
  rewrite length_fmap, length_app in Hsub. fold overflow_mode.
  assert (length (kept_ids limit k) <= Z.to_nat (to_Z limit)) by (unfold kept_ids, topIds; rewrite length_fmap, length_take; lia).
  unfold other_ids in Hsub. destruct overflow_mode; cbn [length] in Hsub; lia.
Qed.

(** ** Highlights *)

Definition matching (p : PreparedFlowPath) : bool := matches_path (go_activeNode options) (go_activeLink options) (pp_path p).

(** A selection is active if it names a link, or a node of a visible stage, and
    some path matches it. *)
Definition selection_active : bool :=
  (match go_activeLink options with Some _ => true | None => false end ||
   match go_activeNode options with Some f => bool_decide (nf_kind f ∈ stages) | None => false end) &&
  existsb matching paths.

Definition node_selected (i : jstr) : bool := existsb (fun p => matching p && bool_decide (i ∈ pn_id <$> pp_path p)) paths.
Definition link_selected (key : jstr) : bool :=
  existsb (fun p => matching p && bool_decide (key ∈ link_text_key <$> path_links (pp_path p))) paths.

Abbreviation highlight_sets := (buildFlowHighlightSets paths (go_activeNode options) (go_activeLink options) stages).

Lemma matching_nonempty path : matches_path (go_activeNode options) (go_activeLink options) path = true -> path <> [].
Proof. unfold matches_path. intros Hm ->. destruct (go_activeLink options); [done|]. by destruct (go_activeNode options). Qed.

Lemma selected_elem {B} `{EqDecision B} (part : list FlowPathNode -> list B) (x : B) :
  x ∈ uniq (concat (map part (List.filter (matches_path (go_activeNode options) (go_activeLink options)) (pp_path <$> paths))))
  <-> existsb (fun p => matching p && bool_decide (x ∈ part (pp_path p))) paths = true.
Proof.
  rewrite uniq_elem, list_elem_of_In, in_concat, existsb_exists. split.
  - intros (l & (path & <- & [Hp Hm]%filter_In)%in_map_iff & Hx). apply list_elem_of_In, list_elem_of_fmap in Hp as (p & -> & Hp).
    exists p. split; [by apply list_elem_of_In|]. apply andb_true_iff. split; [done|]. by apply bool_decide_eq_true, list_elem_of_In.
  - intros (p & Hp%list_elem_of_In & [Hm Hx]%andb_true_iff). apply bool_decide_eq_true in Hx.
    exists (part (pp_path p)). split; [|by apply list_elem_of_In]. apply in_map_iff. exists (pp_path p). split; [done|].
    apply filter_In. split; [|done]. apply list_elem_of_In. by apply list_elem_of_fmap_2.
Qed.

Lemma highlight_sets_spec : match highlight_sets with
  | None => selection_active = false
  | Some (hn, hl) => selection_active = true /\ (forall i, bool_decide (i ∈ hn) = node_selected i) /\
      (forall key, bool_decide (key ∈ hl) = link_selected key)
  end.
Proof.
  unfold buildFlowHighlightSets, selection_active. set (nodeActive := match go_activeNode options with Some _ => _ | None => _ end).
  set (linkActive := match go_activeLink options with Some _ => true | None => false end).
  assert (negb nodeActive && match go_activeLink options with None => true | Some _ => false end = negb (linkActive || nodeActive)) as ->
    by (unfold linkActive; by destruct (go_activeLink options), nodeActive).
  destruct (linkActive || nodeActive); [|done]. cbn [negb andb].
  set (sel := List.filter _ _). set (hn := uniq (concat (map (fun path => pn_id <$> path) sel))).
  pose proof (selected_elem (fun path => pn_id <$> path)) as Hn. fold sel in Hn. fold hn in Hn.
  destruct hn as [|x hn'] eqn:E.
  - apply not_true_iff_false. intros (p & Hp & Hm)%existsb_exists. pose proof (matching_nonempty _ Hm) as Hne.
    destruct (pp_path p) as [|m path] eqn:Ep; [done|]. apply (elem_of_nil (pn_id m)). apply Hn, existsb_exists. exists p.
    split; [done|]. apply andb_true_iff. split; [done|]. apply bool_decide_eq_true. rewrite Ep. left.
  - split_and!.
    + assert (node_selected x = true) as (p & Hp & [Hm _]%andb_true_iff)%existsb_exists by (apply Hn; left).
      apply existsb_exists. by exists p.
    + intros i. apply eq_true_iff_eq. rewrite bool_decide_eq_true. apply Hn.
    + intros key. apply eq_true_iff_eq. rewrite bool_decide_eq_true. apply (selected_elem (fun path => link_text_key <$> path_links path)).
Qed.

(** The flags of the graph before the highlights. *)
Lemma plain_nodes n : n ∈ (node_map metric palette colors paths).*2 -> dn_highlighted n = None /\ dn_dimmed n = None.
Proof.
  intros ([i v] & -> & Hin)%list_elem_of_fmap. cbn [snd].
  assert (mget i (node_map metric palette colors paths) = Some v) as Hg by (apply mget_nodup; [apply group_nodup|done]).
  unfold node_map in Hg. rewrite group_get in Hg.
  destruct (item_sum_kept visit_key (node_initial palette colors) (node_update metric) (fun v => (dn_highlighted v, dn_dimmed v))
    (fun _ => (None, None)) i (items id paths) v) as (x & _ & _ & [= -> ->]); done.
Qed.

Lemma plain_links l : l ∈ (link_map metric palette colors paths).*2 -> dl_highlighted l = None /\ dl_dimmed l = None.
Proof.
  intros ([i v] & -> & Hin)%list_elem_of_fmap. cbn [snd].
  assert (mget i (link_map metric palette colors paths) = Some v) as Hg by (apply mget_nodup; [apply group_nodup|done]).
  unfold link_map in Hg. rewrite group_get in Hg.
  destruct (item_sum_kept link_key (link_initial palette colors) (link_update metric) (fun v => (dl_highlighted v, dl_dimmed v))
    (fun _ => (None, None)) i (items path_links paths) v) as (x & _ & _ & [= -> ->]); done.
Qed.

Lemma mask_plain nodes links :
  Forall (fun n => dn_highlighted n = None /\ dn_dimmed n = None) nodes.*2 ->
  Forall (fun l => dl_highlighted l = None /\ dl_dimmed l = None) links.*2 ->
  Forall (fun n => dn_highlighted n = None /\ dn_dimmed n = None) (fst (maskFlowGraphLabels nodes links)).*2 /\
  Forall (fun l => dl_highlighted l = None /\ dl_dimmed l = None) (snd (maskFlowGraphLabels nodes links)).*2.
Proof.
  intros Hn Hl. unfold maskFlowGraphLabels.
  assert (forall {V} (P : V -> Prop) (f : V -> V) (m : list (jstr * V)), (forall v, P v -> P (f v)) -> Forall P m.*2 ->
    Forall P (prod_map id f <$> m).*2) as Hmap.
  { intros V P f m Hf Hm. rewrite <- list_fmap_compose. rewrite Forall_fmap in Hm. apply Forall_fmap.
    eapply Forall_impl; [exact Hm|]. intros [i v] Hv. by apply Hf. }
  assert (forall nodes : list (jstr * DashboardFlowNode), Forall (fun n => dn_highlighted n = None /\ dn_dimmed n = None) nodes.*2 ->
    Forall (fun n => dn_highlighted n = None /\ dn_dimmed n = None)
      (prod_map id (fun n => if masked_node n then setNodeLabel (maskFlowLabel (dn_label n)) n else n) <$> nodes).*2) as Hnodes
    by (intros ns; apply Hmap; intros n; by destruct (masked_node n)).
  destruct (foldl _ _ _); cbn [fst snd]; (split; [by apply Hnodes|]); [done|]. by apply Hmap.
Qed.

(** The flag of a part of the graph. *)
Definition flag (selected : bool) : option bool := if selection_active then Some selected else None.

Definition node_flagged (n : DashboardFlowNode) : Prop :=
  dn_highlighted n = flag (node_selected (dn_id n)) /\ dn_dimmed n = (negb <$> dn_highlighted n).
Definition link_flagged (l : DashboardFlowLink) : Prop :=
  dl_highlighted l = flag (link_selected (linkStableKey l)) /\ dl_dimmed l = (negb <$> dl_highlighted l).

Lemma apply_flagged nodes links :
  Forall (fun n => dn_highlighted n = None /\ dn_dimmed n = None) nodes.*2 ->
  Forall (fun l => dl_highlighted l = None /\ dl_dimmed l = None) links.*2 ->
  Forall node_flagged (fst (applyFlowHighlights nodes links highlight_sets)).*2 /\
  Forall link_flagged (snd (applyFlowHighlights nodes links highlight_sets)).*2.
Proof.
  intros Hn Hl. pose proof highlight_sets_spec as Hs. unfold node_flagged, link_flagged, flag.
  destruct highlight_sets as [[hn hl]|]; cbn [applyFlowHighlights fst snd].
  - destruct Hs as (-> & Hhn & Hhl). split.
    + rewrite <- list_fmap_compose. apply Forall_fmap, Forall_true. intros [i n]. cbn. by rewrite Hhn.
    + rewrite <- list_fmap_compose. apply Forall_fmap, Forall_true. intros [i l]. cbn. by rewrite Hhl.
  - rewrite Hs. split; (eapply Forall_impl; [eassumption|]); by intros x [-> ->].
Qed.

(** C14: A selection highlights exactly what it matches.  With an active
    selection a node or a link of the graph is highlighted if and only if a
    matching path goes through it, and dimmed otherwise; without one nothing is
    marked. *)
Theorem highlights_follow : Forall node_flagged (g_nodes graph) /\ Forall link_flagged (g_links graph).
Proof.
  unfold FlowFacts.graph, buildFlowGraph. fold stages. fold paths. fold colors. rewrite addPath_maps.
  set (maps := if go_maskSensitive options then _ else _).
  assert (Forall (fun n => dn_highlighted n = None /\ dn_dimmed n = None) (fst maps).*2 /\
    Forall (fun l => dl_highlighted l = None /\ dl_dimmed l = None) (snd maps).*2) as [Hn Hl].
  { unfold maps. pose proof (proj2 (Forall_forall _ _) plain_nodes). pose proof (proj2 (Forall_forall _ _) plain_links).
    destruct (go_maskSensitive options); [by apply mask_plain|done]. }
  clearbody maps. pose proof (apply_flagged (fst maps) (snd maps) Hn Hl) as [Hn' Hl'].
  destruct (applyFlowHighlights (fst maps) (snd maps) highlight_sets) as [nodes links]. cbn [fst snd g_nodes g_links] in *.
  rewrite sort_by_perm. split; [done|]. unfold assignLinkDisplayColors. apply Forall_forall. intros l Hin.
  apply elem_of_lookup_imap_1 in Hin as (i & l' & -> & Hi). apply list_elem_of_lookup_2, list_elem_of_fmap in Hi as (l0 & -> & Hl0).
  rewrite sort_by_elem in Hl0. rewrite Forall_forall in Hl'. specialize (Hl' _ Hl0). by destruct (mget i _).
Qed.
End GraphFacts.

(** ** The sample of usage *)

#[local] Existing Instance code_unit_collation.
#[local] Existing Instance plain_display.

Abbreviation sample_graph options := (FlowFacts.graph sample_rows Mquota Ruser None None None options).

Lemma top_nodes_largest_witness : exists ids,
  mget Ktoken (default [] (buildTopNodeSets sample_rows Mquota [Ktoken; Kgroup; Kmodel] (Some (f64_of_Z 2)) None)) = Some ids /\
  ids = [js "token:alpha"; js "token:beta"] /\
  (kind_units Mquota None sample_rows Ktoken (js "token:gamma") <= kind_units Mquota None sample_rows Ktoken (js "token:beta"))%Z.
Proof.
  destruct (buildTopNodeSets sample_rows Mquota [Ktoken; Kgroup; Kmodel] (Some (f64_of_Z 2)) None) as [sets|] eqn:E; [|done].
  destruct (top_nodes_largest Mquota None sample_rows [Ktoken; Kgroup; Kmodel] (f64_of_Z 2) sets Ktoken sample_whole eq_refl
    ltac:(apply (bool_decide_unpack _); by vm_compute) ltac:(left) E) as (ids & Hget & _ & _ & _ & Hmax).
  assert (ids = [js "token:alpha"; js "token:beta"]) as Hids.
  { assert (mget Ktoken (default [] (buildTopNodeSets sample_rows Mquota [Ktoken; Kgroup; Kmodel] (Some (f64_of_Z 2)) None))
      = Some [js "token:alpha"; js "token:beta"]) as Hv by (by vm_compute).
    rewrite E in Hv. change (mget Ktoken sets = Some [js "token:alpha"; js "token:beta"]) in Hv. rewrite Hget in Hv. by injection Hv. }
  exists ids. split; [exact Hget|]. split; [exact Hids|]. subst ids.
  apply Hmax; [apply (bool_decide_unpack _); by vm_compute..|]. apply (bool_decide_unpack _). by vm_compute.
Defined.

Lemma top_nodes_bounded_witness :
  length (List.filter (fun n => bool_decide (dn_kind n = Kmodel)) (g_nodes (sample_graph (plain_options (Some (f64_of_Z 1)) Ohide None)))) <= 1 /\
  length (g_nodes (sample_graph (plain_options (Some (f64_of_Z 1)) Ohide None))) = 3.
Proof.
  split; [|by vm_compute].
  exact (top_nodes_bounded sample_rows Mquota Ruser None None None (plain_options (Some (f64_of_Z 1)) Ohide None) (f64_of_Z 1) Kmodel eq_refl).
Defined.

(** Masked labels are all alike, so nodes of equal value are no longer in the
    order of their labels. *)
Example masking_reorders :
  let rows := [sample_row "zed" "free" "tiny" 5; sample_row "alpha" "free" "tiny" 5] in
  let tokens mask := dn_id <$> List.filter (fun n => bool_decide (dn_kind n = Ktoken)) (g_nodes (FlowFacts.graph rows Mquota Ruser None None None
    {| go_topNodeLimit := None; go_overflowMode := None; go_otherNodeLabel := None; go_activeNode := None; go_activeLink := None;
       go_maskSensitive := mask |})) in
  tokens false = [js "token:alpha"; js "token:zed"] /\ tokens true = [js "token:zed"; js "token:alpha"].
Proof. split; by vm_compute. Qed.
End FlowRankFacts.
